(* ===== verification/_CoqProject ===== *)
-Q . S2P
Prelude.v
Sql.v
Canonical.v
PyText.v
JsonParse.v
Timestamp.v
SensitivePayload.v
UnitOfWork.v
Models.v
Schema.v
Correlation.v
AttemptLedger.v
Fencing.v
RunStateRepo.v
DecisionRepo.v
SystemAudit.v
Outbox.v
DecisionService.v
Dag.v
DagRepo.v
DagScheduler.v
DagCancel.v
SideEffectJournal.v
EventBus.v
OutboxDispatcher.v
Failure.v
FencedCompletion.v
ManagedEffects.v
EffectInterleaving.v
ContinuationRecovery.v
BashAnalysis.v
PathUtils.v
Workspace.v
WorkspaceRepo.v
ToolPolicy.v
SessionRules.v
Estop.v
