(* ===== verification/Prelude.v ===== *)
(** * Tianshu: durable execution, decisions and evidence

    A verification of the durable core of Tianshu (src/src/tianshu/), a service
    that runs long tasks ("edicts", each run a "memorial") with leased workers,
    human decisions and journalled side effects.  The parts and how they meet:

    - the storage layer (storage/) keeps every fact in SQLite tables; each
      repository is a set of statements on one connection, and a unit of work
      makes a group of calls one transaction under a process-wide lock;
    - the attempt ledger leases a run to one worker at a time and numbers the
      leases with fencing tokens; the run state repository keeps the resumable
      state of a run under a version; the decision repository keeps the
      questions put to people; the side-effect journal keeps the evidence of
      external effects and accepts only writers that hold the current lease;
      the outbox hands events to consumers; the system audit log is a hash
      chain of refusals and administrative acts;
    - the decision service composes four of these stores: it requests, binds,
      resolves and expires decisions, writes their events and audits refusals;
    - clients of the ledger: managed side effects put an external call between
      its intent and its receipt, fenced completion ends, retries, cancels and
      reconciles runs, continuation recovery resumes or stops a run when its
      decision is resolved;
    - the outbox dispatcher leases due events, hands them to the consumers
      registered on the event bus and settles them;
    - the task graph orders the sub-tasks of a run; the DAG scheduler runs them
      in a worker pool over the DAG repository, which also claims partial
      retries, and the canceller cascades a cancellation;
    - a tool call passes the emergency stop, the policy engine with its rules
      (shell analysis, path sandbox), and the session rules of granted answers;
    - the workspace repository keeps the leases of staging workspaces, what was
      changed in them, and the one decision and receipt that apply a change.

    ** Files and sources

    - Prelude.v: exceptions, the state and exception monad [M], strings, lists,
      the tactics [bools] and [run_M], the hint database [py].
    - Sql.v: tables as finite maps with constraints (class [Table]), INSERT,
      UPDATE and SELECT as computations, ORDER BY as insertion sort.
    - Canonical.v (models/canonical.py): JSON values, Python's equality on them,
      SHA-256, canonical bytes.  JsonParse.v: [json.loads].  PyText.v: Python's
      strings as code points, with the methods the sources use.
    - Timestamp.v: datetimes as microseconds, UTC conversion, ISO texts.
    - SensitivePayload.v (security/sensitive_payload.py): credential detection
      and redaction.
    - UnitOfWork.v (storage/unit_of_work.py): the connection with its committed
      and working state, the lock and the flags of a unit of work.
    - Models.v (models/attempt.py, decision.py, run_state.py, side_effect.py,
      plan_revision.py): the strict contracts and their validators.
    - Schema.v (storage/migrations.py): the rows, the CHECK, UNIQUE and foreign
      key constraints and the triggers of the tables used here.
    - Correlation.v (storage/correlation.py).
    - AttemptLedger.v (storage/attempt_ledger.py), with its theorems in
      Fencing.v; RunStateRepo.v (storage/run_state_repo.py); DecisionRepo.v
      (storage/decision_repo.py); Outbox.v (storage/outbox_repo.py);
      SystemAudit.v (storage/system_audit_repo.py, models/system_audit.py);
      SideEffectJournal.v (storage/side_effect_journal.py).
    - DecisionService.v (governance/decision_service.py).
    - Failure.v (models/failure.py): the classes of failures.
    - FencedCompletion.v (application/fenced_run_completion.py);
      ManagedEffects.v (executor/side_effects.py, a call that nothing
      interrupts) and EffectInterleaving.v (the same calls cut at their awaits
      on the provider, interleaved with each other and with other code);
      ContinuationRecovery.v (application/continuation_recovery.py).
    - Dag.v (dag/graph.py, models/dag.py); DagRepo.v (storage/dag_repo.py,
      executor/retry.py); DagScheduler.v (executor/dag_scheduler.py,
      worker_pool.py, lanes.py): a run as events between suspensions, the
      writes of a canceller next to it included; DagCancel.v
      (executor/cancel.py): the canceller, whose calls are such events.
    - EventBus.v (bus/event_bus.py); OutboxDispatcher.v (application/outbox.py):
      handlers are computations on a world that holds the tables and the bus.
    - BashAnalysis.v (security/bash_analysis.py); PathUtils.v
      (tools/path_utils.py); ToolPolicy.v (tools/policy.py and
      tools/policy_rules/): a rule carries the intervals in which it awaits,
      since a timeout stops a coroutine only there; SessionRules.v (tools/policy_store.py,
      policy_profile.py, executor/policy_hook.py).
    - Workspace.v (models/workspace.py); WorkspaceRepo.v
      (storage/workspace_repo.py with its tables and triggers).
    - Estop.v (security/estop.py, storage/security_repo.py).

    A method of a repository is a definition with the method's name and type
    [M db A]: it reads and writes the tables and returns or raises; a raise
    keeps the writes made so far, and the unit of work ([atomically] for a
    whole transaction, [with_uow] with the session around it) undoes them.
    Methods that own their transaction have type [M (session db) A].  Clocks,
    generated identifiers and other inputs of a call are arguments.  The DAG,
    workspace and emergency-stop tables are records of their own ([dag_db],
    [workspace_db], [security_db]), the last two around [db].

    ** What the theorems show

    - Leases: tokens increase, one authority is current at a time, a superseded
      authority is dead for ever (Fencing.v), also at the journal
      (SideEffectJournal.v), in histories without backdated resumes; every ledger call does what its specification says
      on each branch; attempts stay within the retry budget.
    - Run states: no lost updates, append-only plan lineage, no raw credential
      and no invalid state is ever stored.
    - Decisions: each call refines a small life cycle, a settled decision is
      final, requests are idempotent; the service commits a settlement with its
      event, or an audited refusal, or nothing; shell tools never get a
      permanent grant.
    - Journal and outbox: settled evidence and delivered events never change, a
      claim settles at most once, every write of the journal needs the lease.
    - Effects and completion: whatever interleaves with a call, its intent is
      stored and its authority checked before the provider is asked, and a
      result it returns is backed by stored evidence; an effect with receipts
      is performed at most once as long as calls for one key do not overlap; an
      uncertain one waits for a person, an ended run is final, a cancellation
      revokes the live attempts, each call refines its specification.
    - Recovery: a resolved decision is acted on once, resumes a run that can be
      claimed again or stops it.
    - Delivery: registrations keep names distinct and priorities in order, a
      failing handler never stops the others, an event is published only when
      every registered consumer has consumed it and is put back or poisoned
      otherwise, consumers that are done are not
      called again, a drain with handlers that return publishes its whole batch,
      and the delivered envelope is the one that was added.
    - Audit log: appends extend a verified chain, and two verified logs with one
      terminal hash agree or exhibit a hash collision.
    - Task graph: the loops end, validation accepts exactly the acyclic closed
      graphs, a run starts a node only after its dependencies and never stalls.
      The scheduler follows the graph, the stored rows agree with it except
      where a canceller wrote, and a run that nobody cancels ends within a
      number of events that is linear in the nodes; a retry resets exactly the failed nodes and what
      depends on them, and the two retriers agree; a cancellation reaches every
      node that has not ended.
    - Policy: the engine decides like its specification, an allowed shell call
      met every condition, deny lists are absolute, the sandbox confines paths,
      the shell splitter agrees with a lexer; grants only answer questions; a
      change of the emergency stop is audited and survives a restart.
    - Workspaces: the tables only grow, a lease follows its life cycle, is
      listed while it is open and is applied once, with the approval and for the
      content of its decision; change sets are numbered without gaps; each
      transition does what its specification says on each branch.
    - Data: canonical JSON is injective and reads back, ISO texts order as
      times do, credentials are found and redactions accepted.
    - Units of work are atomic and leave the connection at rest.

    Every theorem with hypotheses has a witness on a concrete state.  Examples
    record behaviours that look unintended, next to the definitions that show
    them: among others a resumed attempt that breaks the replay of its enqueue,
    rows that no longer decode, a queued node whose cancellation leaves the
    scheduler waiting, a session lane that is not released, overlapping calls
    that perform an effect twice, an escalated tier that weakens the workspace
    boundary, and change paths with dot components.

    ** Bounds and fuel

    - [blank_fuel], [scan_once] and the JSON scanners, the path and pattern
      scanners: the length of the text; each round consumes a character.
    - [kahn]: the number of nodes; each round takes a node off the queue and a
      node enters it once ([dag_loops_end] holds for every graph).
    - [cancel_loop]: the successors of the failed node and the number of edges,
      a node enters the queue once per edge that is followed, same theorem.
    - [collect_downstream]: the nodes and one, each level adds a node; the reset
      closure of the repository: a round per row.
    - A scheduler run takes at most six events per node ([scheduler_ends]).
    - Datetimes range over the years 1 to 9999 ([representable]); arithmetic
      that leaves the range raises [OverflowError].  Integers are unbounded, as
      in Python; SQLite's 64-bit limit is not modelled.

    ** Parameters

    [redact_text] (security/redact.py, a table of regular expressions),
    [float_of] and [lax_int] (Python's float parser and pydantic's conversion),
    [parse_datetime] (pydantic's ISO parser), [usage_json] (the serialized usage
    of a run), the boundary hooks; for the dispatcher the record [environment]:
    the handlers, the clocks and the texts of exceptions; for effects the
    provider; for the policy the resolution of paths by the file system, the
    URL parser, [repr], the time a rule takes and where it awaits; for the retrier the order in
    which Python iterates a set; for the scheduler what a worker returns.

    ** Not modelled

    Plan review and the binding of plan revisions, run dispatch and the polling
    loops, the agent loop, HTTP and command line surfaces, LLM providers, the
    file-system and git side of workspaces, three-way merges, the evolution
    subsystem, and the migration runner: they are I/O, language-model control
    flow or callers of the stores above.  The deletion of an edict with its
    cascades (storage/edict_repo.py) is not modelled either: no history contains
    one.  Calls interleave at the granularity of transactions and, in the
    scheduler and for managed effects, of suspensions; other processes on the
    same database file appear in EffectInterleaving.v only.

    ** This file

    The exceptions the sources raise, the monad of stateful fallible code with
    its laws and the predicates [reads], [err_keeps] and [raises], generic
    lemmas and tactics. *)

From stdpp Require Export base option list strings gmap.
From Stdlib Require Export ZArith Lia.

#[global] Open Scope Z_scope.

(** ** Exceptions

    [exn] is a raised Python exception: the class and the message.  Only the
    classes that the modelled code raises or catches are listed. *)

Inductive exn_class :=
  | ValueError
  | TypeError
  | RuntimeError
  | AssertionError
  | KeyError
  | OverflowError
  | IntegrityError
  | AttemptConflict
  | AttemptFenceLost
  | AttemptDecodeError
  | RunStateConflict
  | RunStateDecodeError
  | RunStateSecretError
  | DecisionIdentityConflict
  | DecisionStateConflict
  | DecisionDecodeError
  | DecisionNotFound
  | DecisionConflict
  | DecisionValidationError
  | DecisionAuthorizationError
  | SideEffectConflict
  | SideEffectDecodeError
  | SystemAuditIntegrityError
  | CancelledError
  | AttributeError
  | ContinuationRecoveryError
  | WorkspaceStateConflict
  | OSError
  | PermissionError.

#[export] Instance exn_class_eq_dec : EqDecision exn_class.
Proof. solve_decision. Defined.

(** [exn_detail] is the attribute an exception class adds to the message
    ([DecisionIdentityConflict.existing_request_id]). *)
Record exn := ExnWith { exn_kind : exn_class; exn_message : string; exn_detail : option string }.
Notation "'Exn' c m" := (ExnWith c m None) (at level 10, c at level 9, m at level 9).

#[export] Instance exn_eq_dec : EqDecision exn.
Proof. solve_decision. Defined.

Inductive result (A : Type) :=
  | Ok (a : A)
  | Err (e : exn).
Arguments Ok {A} a.
Arguments Err {A} e.

#[export] Instance result_eq_dec {A} `{EqDecision A} : EqDecision (result A).
Proof. solve_decision. Defined.

(** Python's subclass relation on the classes above ([except C] also catches
    the subclasses of [C]). *)
Definition subclass (c d : exn_class) : bool :=
  bool_decide (c = d) ||
  match c, d with
  | AttemptFenceLost, AttemptConflict | PermissionError, OSError | WorkspaceStateConflict, RuntimeError => true
  | _, _ => false
  end.

(** ** The state and exception monad

    A computation reads and writes a state [S] and either returns or raises;
    a raise keeps the writes made so far, as a Python exception does. *)

Definition M (S A : Type) : Type := S → result A * S.

Definition ret {S A} (a : A) : M S A := λ s, (Ok a, s).
Definition raise {S A} (c : exn_class) (msg : string) : M S A :=
  λ s, (Err (Exn c msg), s).
Definition raise_with {S A} (c : exn_class) (msg : string) (detail : option string) : M S A :=
  λ s, (Err (ExnWith c msg detail), s).
Definition bind {S A B} (c : M S A) (k : A → M S B) : M S B := λ s,
  match c s with
  | (Ok a, s') => k a s'
  | (Err e, s') => (Err e, s')
  end.
Definition get_state {S} : M S S := λ s, (Ok s, s).
Definition put_state {S} (s : S) : M S unit := λ _, (Ok tt, s).
Definition of_result {S A} (r : result A) : M S A := λ s, (r, s).

(** [if not b: raise c(msg)] *)
Definition guard {S} (b : bool) (c : exn_class) (msg : string) : M S unit :=
  if b then ret tt else raise c msg.

(** [try: m except c as exc: h exc] *)
Definition try_except {S A} (m : M S A) (c : exn_class) (h : exn → M S A) : M S A := λ s,
  match m s with
  | (Ok a, s') => (Ok a, s')
  | (Err e, s') => if subclass (exn_kind e) c then h e s' else (Err e, s')
  end.

Declare Scope py_scope.
Delimit Scope py_scope with py.
Notation "'let!' x ':=' c 'in' k" := (bind c (λ x, k))
  (at level 10, x binder, c at level 100, k at level 200) : py_scope.
Notation "c ';;;' k" := (bind c (λ _, k))
  (at level 199, k at level 200, right associativity) : py_scope.
#[global] Open Scope py_scope.

Create HintDb py discriminated.

Section monad_laws.
Context {S : Type}.

Lemma bind_ret {A B} (a : A) (k : A → M S B) s : bind (ret a) k s = k a s.
Proof. done. Qed.

Lemma bind_Ok_inv {A B} (c : M S A) (k : A → M S B) s b s' :
  bind c k s = (Ok b, s') →
  ∃ a s1, c s = (Ok a, s1) ∧ k a s1 = (Ok b, s').
Proof. unfold bind. destruct (c s) as [[a|e] s1] eqn:E; naive_solver. Qed.

Lemma bind_Err_inv {A B} (c : M S A) (k : A → M S B) s e s' :
  bind c k s = (Err e, s') →
  c s = (Err e, s') ∨ ∃ a s1, c s = (Ok a, s1) ∧ k a s1 = (Err e, s').
Proof. unfold bind. destruct (c s) as [[a|e'] s1] eqn:E; naive_solver. Qed.

Lemma bind_Ok {A B} (c : M S A) (k : A → M S B) s a s1 :
  c s = (Ok a, s1) → bind c k s = k a s1.
Proof. unfold bind. by intros ->. Qed.

Lemma guard_Ok_inv b c m (s : S) u s' :
  guard b c m s = (Ok u, s') → b = true ∧ s' = s.
Proof. unfold guard, ret, raise. destruct b; naive_solver. Qed.

Lemma bind_get_state {A} (k : S → M S A) s : bind get_state k s = k s s.
Proof. done. Qed.

Lemma bind_of_result {A B} (a : A) (k : A → M S B) s : bind (of_result (Ok a)) k s = k a s.
Proof. done. Qed.

Lemma of_result_Ok_inv {A} (r : result A) (s : S) a s' :
  of_result r s = (Ok a, s') → r = Ok a ∧ s' = s.
Proof. unfold of_result. naive_solver. Qed.

Lemma try_raise_Ok_inv {A} (m : M S A) c c' msg s a s' :
  try_except m c (λ _, raise c' msg) s = (Ok a, s') → m s = (Ok a, s').
Proof. unfold try_except, raise. repeat case_match; naive_solver. Qed.

Lemma try_except_Ok {A} (m : M S A) c h s a s' :
  m s = (Ok a, s') → try_except m c h s = (Ok a, s').
Proof. unfold try_except. by intros ->. Qed.

Lemma ret_Ok_inv {A} (a : A) (s : S) b s' : ret a s = (Ok b, s') → b = a ∧ s' = s.
Proof. unfold ret. naive_solver. Qed.

Lemma guard_true c m (s : S) : guard true c m s = (Ok tt, s).
Proof. done. Qed.

(** Computations that never write, and computations that write only when
    they return. *)
Definition reads {A} (m : M S A) : Prop := ∀ s, (m s).2 = s.
Definition err_keeps {A} (m : M S A) : Prop := ∀ s e s', m s = (Err e, s') → s' = s.

Lemma reads_guard b c msg : reads (guard b c msg).
Proof. intros s. by destruct b. Qed.
Lemma reads_ret {A} (a : A) : reads (ret a).
Proof. done. Qed.
Lemma reads_raise {A} c msg : reads (raise (A := A) c msg).
Proof. done. Qed.
Lemma reads_bind {A B} (m : M S A) (k : A → M S B) :
  reads m → (∀ a, reads (k a)) → reads (bind m k).
Proof.
  intros Hm Hk s. unfold bind. specialize (Hm s). destruct (m s) as [[a|e] s']; cbn in *; subst; [|done].
  apply Hk.
Qed.
Lemma reads_err_keeps {A} (m : M S A) : reads m → err_keeps m.
Proof. intros Hm s e s' E. specialize (Hm s). by rewrite E in Hm. Qed.
Lemma err_keeps_bind {A B} (m : M S A) (k : A → M S B) :
  reads m → (∀ a, err_keeps (k a)) → err_keeps (bind m k).
Proof.
  intros Hm Hk s e s' [E|(a & s1 & E & E')]%bind_Err_inv; specialize (Hm s); rewrite E in Hm; cbn in Hm.
  - done.
  - subst. by eapply Hk.
Qed.
Lemma err_keeps_then_ret {A B} (m : M S A) (f : A → B) :
  err_keeps m → err_keeps (bind m (λ a, ret (f a))).
Proof. intros Hm s e s' [E|(a & s1 & E & E')]%bind_Err_inv; [by eapply Hm|done]. Qed.
Lemma err_keeps_try {A} (m : M S A) c c' msg :
  err_keeps m → err_keeps (try_except m c (λ _, raise c' msg)).
Proof.
  intros Hm s e s'. unfold try_except, raise. specialize (Hm s).
  destruct (m s) as [[a|x] s1]; [done|]. specialize (Hm _ _ eq_refl). subst.
  case_match; naive_solver.
Qed.

(** A part of the state the computation never changes. *)
Definition keeps {A T} (part : S → T) (m : M S A) : Prop := ∀ s, part (m s).2 = part s.

Lemma keeps_ret {A T} (part : S → T) (a : A) : keeps part (ret a).
Proof. done. Qed.
Lemma keeps_raise {A T} (part : S → T) c msg : keeps part (raise (A := A) c msg).
Proof. done. Qed.
Lemma keeps_of_result {A T} (part : S → T) (r : result A) : keeps part (of_result r).
Proof. done. Qed.
Lemma keeps_get_state {T} (part : S → T) : keeps part get_state.
Proof. done. Qed.
Lemma keeps_guard {T} (part : S → T) b c msg : keeps part (guard b c msg).
Proof. intros s. by destruct b. Qed.
Lemma keeps_reads {A T} (part : S → T) (m : M S A) : reads m → keeps part m.
Proof. intros Hm s. by rewrite Hm. Qed.
Lemma keeps_bind {A B T} (part : S → T) (m : M S A) (k : A → M S B) :
  keeps part m → (∀ a, keeps part (k a)) → keeps part (bind m k).
Proof.
  intros Hm Hk s. unfold bind. specialize (Hm s). destruct (m s) as [[a|e] s']; cbn in *; [|done].
  by rewrite (Hk a).
Qed.
Lemma keeps_Ok {A T} (part : S → T) (m : M S A) s r s' : keeps part m → m s = (r, s') → part s' = part s.
Proof. intros Hm E. specialize (Hm s). by rewrite E in Hm. Qed.

(** A property of the state the computation preserves. *)
Definition preserves {A} (P : S → Prop) (m : M S A) : Prop := ∀ s, P s → P (m s).2.

Lemma preserves_keeps {A T} (P : T → Prop) (part : S → T) (m : M S A) :
  keeps part m → preserves (λ s, P (part s)) m.
Proof. intros Hm s Hs. by rewrite Hm. Qed.
Lemma preserves_bind {A B} P (m : M S A) (k : A → M S B) :
  preserves P m → (∀ a, preserves P (k a)) → preserves P (bind m k).
Proof.
  intros Hm Hk s Hs. unfold bind. specialize (Hm s Hs). destruct (m s) as [[a|e] s']; [by apply Hk|done].
Qed.

(** Every exception the computation raises has a class that satisfies [P]. *)
Definition raises {A} (P : exn_class → bool) (m : M S A) : Prop :=
  ∀ s e s', m s = (Err e, s') → P (exn_kind e) = true.

Lemma raises_ret {A} P (a : A) : raises P (ret a).
Proof. done. Qed.
Lemma raises_raise {A} P c msg : P c = true → raises P (raise (A := A) c msg).
Proof. intros HP s e s' [= <- <-]. done. Qed.
Lemma raises_raise_with {A} P c msg x : P c = true → raises P (raise_with (A := A) c msg x).
Proof. intros HP s e s' [= <- <-]. done. Qed.
Lemma raises_guard P b c msg : P c = true → raises P (guard b c msg).
Proof. intros HP s e s'. unfold guard, ret, raise. destruct b; naive_solver. Qed.
Lemma raises_bind {A B} P (m : M S A) (k : A → M S B) :
  raises P m → (∀ a, raises P (k a)) → raises P (bind m k).
Proof. intros Hm Hk s e s' [E|(a & s1 & _ & E)]%bind_Err_inv; [by eapply Hm|by eapply Hk]. Qed.
Lemma raises_get_state P : raises P get_state.
Proof. done. Qed.
Lemma raises_of_result {A} P (r : result A) :
  (∀ e, r = Err e → P (exn_kind e) = true) → raises P (of_result r).
Proof. intros Hr s e s' [= E _]. by apply Hr. Qed.
Lemma raises_try {A} P Q (m : M S A) c h :
  raises Q m → (∀ d, Q d = true → subclass d c = false → P d = true) → (∀ e, raises P (h e)) →
  raises P (try_except m c h).
Proof.
  intros Hm HQ Hh s e s'. unfold try_except. destruct (m s) as [[a|x] s1] eqn:E; [done|].
  apply Hm in E. destruct (subclass (exn_kind x) c) eqn:Ec; [apply Hh|]. intros [= <- <-]. by apply HQ.
Qed.
End monad_laws.
#[export] Hint Resolve keeps_ret keeps_raise keeps_of_result keeps_get_state keeps_guard : py.
#[export] Hint Extern 2 (keeps _ (bind _ _)) => apply keeps_bind; [|intros ?] : py.
#[export] Hint Resolve raises_ret raises_bind raises_get_state : py.
#[export] Hint Extern 1 (raises _ (raise _ _)) => apply raises_raise; reflexivity : py.
#[export] Hint Extern 1 (raises _ (raise_with _ _ _)) => apply raises_raise_with; reflexivity : py.
#[export] Hint Extern 1 (raises _ (guard _ _ _)) => apply raises_guard; reflexivity : py.
#[export] Hint Resolve reads_guard reads_ret reads_raise reads_bind reads_err_keeps err_keeps_bind
  err_keeps_then_ret err_keeps_try : py.

(** ** Options and strings *)

(** [x is None] *)
Definition is_none {A} (o : option A) : bool := match o with None => true | Some _ => false end.
Definition is_some {A} (o : option A) : bool := negb (is_none o).

Lemma is_some_true {A} (o : option A) : is_some o = true ↔ is_Some o.
Proof. destruct o; cbn; split; [eauto|done|done|by intros [? [=]]]. Qed.

(** The UTF-8 encodings of the code points that [str.isspace] accepts: the
    length in bytes of the whitespace character a string starts with. *)
Definition leading_space (s : string) : option nat :=
  let n := λ c : Ascii.ascii, Z.of_nat (Ascii.nat_of_ascii c) in
  match s with
  | String a r =>
      if ((9 <=? n a) && (n a <=? 13)) || ((28 <=? n a) && (n a <=? 32)) then Some 1%nat
      else match r with
      | String b r' =>
          if (n a =? 194) && ((n b =? 133) || (n b =? 160)) then Some 2%nat
          else match r' with
          | String c _ =>
              if ((n a =? 225) && (n b =? 154) && (n c =? 128)) ||
                 ((n a =? 226) && (n b =? 128) &&
                    (((128 <=? n c) && (n c <=? 138)) || (n c =? 168) || (n c =? 169) || (n c =? 175))) ||
                 ((n a =? 226) && (n b =? 129) && (n c =? 159)) ||
                 ((n a =? 227) && (n b =? 128) && (n c =? 128))
              then Some 3%nat else None
          | EmptyString => None
          end
      | EmptyString => None
      end
  | EmptyString => None
  end.

(** [not value.strip()]: every character of the string is whitespace.  Each
    round drops one character, so the length of the string is enough fuel. *)
Fixpoint blank_fuel (fuel : nat) (s : string) : bool :=
  match s, fuel with
  | EmptyString, _ => true
  | _, O => false
  | _, S fuel' =>
      match leading_space s with
      | Some 1%nat => match s with String _ r => blank_fuel fuel' r | _ => true end
      | Some 2%nat => match s with String _ (String _ r) => blank_fuel fuel' r | _ => true end
      | Some _ => match s with String _ (String _ (String _ r)) => blank_fuel fuel' r | _ => true end
      | None => false
      end
  end.
Definition blank (s : string) : bool := blank_fuel (String.length s) s.
Definition non_blank (s : string) : bool := negb (blank s).

(** SQLite's [length(trim(x)) > 0]: [trim] removes spaces only. *)
Fixpoint all_spaces (s : string) : bool :=
  match s with
  | EmptyString => true
  | String a r => bool_decide (a = Ascii.ascii_of_nat 32) && all_spaces r
  end.
Definition sql_non_blank (s : string) : bool := negb (all_spaces s).

(** A string Python accepts as non-blank passes the weaker test of the SQL
    [CHECK] constraints. *)
Lemma non_blank_sql s : non_blank s = true → sql_non_blank s = true.
Proof.
  unfold non_blank, sql_non_blank. rewrite !negb_true_iff. intros Hb.
  destruct (all_spaces s) eqn:Hs; [|done]. rewrite <-Hb. clear Hb. unfold blank.
  symmetry. induction s as [|a r IH]; [done|].
  cbn in Hs. apply andb_true_iff in Hs as [->%bool_decide_eq_true Hr]. 
  transitivity (blank_fuel (String.length r) r); [reflexivity | by apply IH].
Qed.

(** ** Lists *)

Lemma forallb_Forall {A} (f : A → bool) l :
  forallb f l = true ↔ Forall (λ x, f x = true) l.
Proof. rewrite forallb_forall, Forall_forall. by setoid_rewrite list_elem_of_In. Qed.

Lemma forallb_perm {A} (f : A → bool) l l' : l ≡ₚ l' → forallb f l = forallb f l'.
Proof.
  intros Hp. apply eq_bool_prop_intro. rewrite !Is_true_true, !forallb_Forall. by rewrite Hp.
Qed.

Lemma forallb_impl {A} (f g : A → bool) l :
  (∀ x, f x = true → g x = true) → forallb f l = true → forallb g l = true.
Proof. rewrite !forallb_Forall. intros Hfg Hl. by eapply Forall_impl. Qed.

(** ** Dictionaries

    A Python dict in insertion order: an association list with distinct keys. *)

Abbreviation dict A := (list (string * A)).

Section dict.
Context {A : Type}.
Implicit Types (d : dict A) (k : string).

Fixpoint dict_get d k : option A :=
  match d with
  | [] => None
  | (k', v) :: d' => if decide (k' = k) then Some v else dict_get d' k
  end.

(** [d[k] = v]: in place when the key is there, at the end when it is not *)
Fixpoint dict_put d k (v : A) : dict A :=
  match d with
  | [] => [(k, v)]
  | (k', v') :: d' => if decide (k' = k) then (k', v) :: d' else (k', v') :: dict_put d' k v
  end.

Definition dict_of (l : list (string * A)) : dict A := foldl (λ d kv, dict_put d kv.1 kv.2) [] l.

Lemma dict_get_put d k v k' : dict_get (dict_put d k v) k' = if decide (k = k') then Some v else dict_get d k'.
Proof.
  induction d as [|[j w] d IH]; cbn; [by case_decide|].
  destruct (decide (j = k)) as [->|]; cbn; [by case_decide|].
  rewrite IH. destruct (decide (j = k')); [|done]. rewrite decide_False; [done|congruence].
Qed.
Lemma dict_get_is_Some d k : is_Some (dict_get d k) ↔ k ∈ d.*1.
Proof.
  induction d as [|[j w] d IH]; cbn; [by split; [intros []|set_solver]|].
  destruct (decide (j = k)) as [->|]; [split; [set_solver|eauto]|]. rewrite IH. set_solver.
Qed.
Lemma dict_get_None d k : dict_get d k = None ↔ k ∉ d.*1.
Proof. rewrite <-dict_get_is_Some, eq_None_not_Some. done. Qed.
Lemma dict_get_elem d k v : dict_get d k = Some v → (k, v) ∈ d.
Proof.
  induction d as [|[j w] d IH]; cbn; [done|]. destruct (decide (j = k)) as [->|].
  - intros [= ->]. left.
  - intros H. right. by apply IH.
Qed.
Lemma dict_elem_get d k v : NoDup d.*1 → (k, v) ∈ d → dict_get d k = Some v.
Proof.
  induction d as [|[j w] d IH]; cbn; [set_solver|]. intros [Hj Hd]%NoDup_cons [[= -> ->]|H]%elem_of_cons.
  - by rewrite decide_True.
  - rewrite decide_False; [by apply IH|]. intros ->. apply Hj. apply list_elem_of_fmap. by exists (k, v).
Qed.
Lemma dict_put_present d k v : k ∈ d.*1 → (dict_put d k v).*1 = d.*1.
Proof.
  induction d as [|[j w] d IH]; cbn; [set_solver|]. destruct (decide (j = k)) as [->|]; [done|].
  intros H. cbn. rewrite IH; [done|]. set_solver.
Qed.
Lemma dict_put_absent d k v : k ∉ d.*1 → dict_put d k v = d ++ [(k, v)].
Proof.
  induction d as [|[j w] d IH]; cbn; [done|]. intros H. rewrite decide_False by set_solver.
  rewrite IH; [done|]. set_solver.
Qed.
Lemma dict_of_nodup_app d l : NoDup (d ++ l).*1 → foldl (λ d kv, dict_put d kv.1 kv.2) d l = d ++ l.
Proof.
  revert d. induction l as [|[k v] l IH]; intros d; cbn; [by rewrite app_nil_r|]. intros H.
  rewrite dict_put_absent.
  - rewrite IH; by rewrite <-(assoc_L (++)).
  - rewrite fmap_app in H. apply NoDup_app in H as (_ & Hd & _). set_solver.
Qed.
(** Distinct keys: the dictionary is the list itself. *)
Lemma dict_of_nodup l : NoDup l.*1 → dict_of l = l.
Proof. apply (dict_of_nodup_app []). Qed.
Lemma nodup_keys_filter d (P : string * A → Prop) `{!∀ x, Decision (P x)} : NoDup d.*1 → NoDup (filter P d).*1.
Proof.
  induction d as [|x d IH]; [done|]. intros [Hx Hd]%NoDup_cons. rewrite filter_cons.
  case_decide; [|by apply IH]. cbn. apply NoDup_cons. split; [|by apply IH].
  intros (y & Hy & [_ Hin]%list_elem_of_filter)%list_elem_of_fmap. apply Hx, list_elem_of_fmap. eauto.
Qed.
End dict.

(** ** Tactics *)

(** Turns boolean tests in hypotheses into propositions. *)
Ltac bools :=
  repeat match goal with
  | H : (_ && _) = true |- _ => apply andb_true_iff in H; destruct H
  | H : (_ || _) = false |- _ => apply orb_false_iff in H; destruct H
  | H : negb _ = true |- _ => apply negb_true_iff in H
  | H : negb _ = false |- _ => apply negb_false_iff in H
  | H : bool_decide _ = true |- _ => apply bool_decide_eq_true in H
  | H : bool_decide _ = false |- _ => apply bool_decide_eq_false in H
  | H : (_ <=? _) = true |- _ => apply Z.leb_le in H
  | H : (_ <=? _) = false |- _ => apply Z.leb_gt in H
  | H : (_ <? _) = true |- _ => apply Z.ltb_lt in H
  | H : (_ <? _) = false |- _ => apply Z.ltb_ge in H
  | H : (_ =? _)%Z = true |- _ => apply Z.eqb_eq in H
  | H : (_ =? _)%Z = false |- _ => apply Z.eqb_neq in H
  end.

(** The same for a conjunction of boolean tests in the goal. *)
Ltac bools_goal :=
  repeat match goal with
  | |- (_ && _) = true => apply andb_true_iff; split
  | |- negb _ = true => apply negb_true_iff
  | |- bool_decide _ = true => apply bool_decide_eq_true
  | |- bool_decide _ = false => apply bool_decide_eq_false
  | |- (_ <=? _) = true => apply Z.leb_le
  | |- (_ <? _) = true => apply Z.ltb_lt
  | |- (_ <? _) = false => apply Z.ltb_ge
  | |- (_ <=? _) = false => apply Z.leb_gt
  | |- (_ =? _)%Z = true => apply Z.eqb_eq
  end.

(** Runs a successful computation backwards, one [bind] at a time. *)
Ltac step_M H :=
  match type of H with
  | bind (guard _ _ _) _ _ = (Ok _, _) =>
      let a := fresh "u" in let s := fresh "s" in let E := fresh "E" in
      apply bind_Ok_inv in H as (a & s & E & H);
      apply guard_Ok_inv in E as [E ->]
  | bind get_state _ _ = (Ok _, _) => rewrite bind_get_state in H
  | bind _ _ _ = (Ok _, _) =>
      let a := fresh "a" in let s := fresh "s" in let E := fresh "E" in
      apply bind_Ok_inv in H as (a & s & E & H)
  | guard _ _ _ _ = (Ok _, _) => apply guard_Ok_inv in H as [H ->]
  | ret _ _ = (Ok ?b, ?s') =>
      let E := fresh "E" in
      apply ret_Ok_inv in H; destruct H as [H E];
      first [subst s' | idtac]; first [subst b | simplify_eq H | idtac]
  | raise _ _ _ = (Ok _, _) => unfold raise in H; discriminate H
  end.
Ltac run_M H := repeat (step_M H).

Create Rewrite HintDb py.
#[export] Hint Rewrite @bind_ret @guard_true : py.
#[export] Hint Resolve non_blank_sql : py.
