(* ===== verification/Sql.v ===== *)
(** * SQLite tables, statements and result ordering

    The repositories of src/src/tianshu/storage/ keep their state in SQLite
    tables.  A table is a finite map from its primary key to its row, inside a
    database record; a statement is a computation of the monad [M]:

    - [INSERT] fails with [IntegrityError] when the primary key is taken, when
      a [CHECK] or foreign key constraint rejects the row, or when a [UNIQUE]
      index already holds a conflicting row;
    - [UPDATE ... WHERE key = ? AND cond] returns the row count (0 or 1) and is
      subject to the same constraints and to the [BEFORE UPDATE] triggers;
    - [SELECT] returns the rows that satisfy a condition, [ORDER BY] sorts them
      and [LIMIT] truncates. *)

From S2P Require Import Prelude.
From Stdlib Require Import Sorted.

(** What a table is to the statements that use it: where it lives in the
    database, which rows its constraints accept, which pairs of rows a unique
    index forbids, and which columns its triggers freeze. *)
Class Table (DB K Row : Type) `{Countable K} := {
  tbl : DB → gmap K Row;
  set_tbl : gmap K Row → DB → DB;
  row_check : DB → Row → bool;
  row_conflict : Row → Row → bool;
  row_frozen : Row → Row → bool;
  tbl_set_tbl : ∀ t d, tbl (set_tbl t d) = t;
}.
Arguments tbl {DB K Row _ _ _} d : rename.
Arguments set_tbl {DB K Row _ _ _} t d : rename.

#[export] Hint Rewrite @tbl_set_tbl : py.

Section statements.
Context {DB K Row : Type} `{HT : Table DB K Row}.

(** No other row of the table conflicts with [r] on a unique index. *)
Definition unique_ok (t : gmap K Row) (k : K) (r : Row) : bool :=
  forallb (λ p, bool_decide (p.1 = k) || negb (row_conflict r p.2)) (map_to_list t).

Definition sql_insert (k : K) (r : Row) : M DB unit := λ db,
  match tbl db !! k with
  | Some _ => (Err (Exn IntegrityError "UNIQUE constraint failed"), db)
  | None =>
      if row_check db r && unique_ok (tbl db) k r
      then (Ok tt, set_tbl (<[k := r]> (tbl db)) db)
      else (Err (Exn IntegrityError "constraint failed"), db)
  end.

(** [UPDATE t SET f WHERE key = k AND cond]; the value is [cursor.rowcount]. *)
Definition sql_update (k : K) (cond : Row → bool) (f : Row → Row) : M DB Z := λ db,
  match tbl db !! k with
  | Some r =>
      if cond r then
        if row_check db (f r) && unique_ok (tbl db) k (f r) && row_frozen r (f r)
        then (Ok 1, set_tbl (<[k := f r]> (tbl db)) db)
        else (Err (Exn IntegrityError "constraint failed"), db)
      else (Ok 0, db)
  | None => (Ok 0, db)
  end.

(** [UPDATE t SET f WHERE cond], row by row *)
Fixpoint update_keys (keys : list K) (cond : Row → bool) (f : Row → Row) : M DB Z :=
  match keys with
  | [] => ret 0
  | k :: keys' =>
      let! n := sql_update k cond f in
      let! m := update_keys keys' cond f in
      ret (n + m)
  end.
Definition sql_update_where (cond : Row → bool) (f : Row → Row) : M DB Z := λ db,
  update_keys (map_to_list (tbl db)).*1 cond f db.

(** [SELECT * FROM t WHERE key = k], [fetchone()] *)
Definition sql_get (k : K) : M DB (option Row) := λ db, (Ok (tbl db !! k), db).

(** [SELECT * FROM t WHERE cond], in no particular order *)
Definition where_rows (cond : Row → bool) (t : gmap K Row) : list Row :=
  filter (λ r, cond r = true) (map_to_list t).*2.
Definition sql_select (cond : Row → bool) : M DB (list Row) := λ db,
  (Ok (where_rows cond (tbl db)), db).

Lemma elem_of_where_rows cond (t : gmap K Row) r :
  r ∈ where_rows cond t ↔ cond r = true ∧ ∃ k, t !! k = Some r.
Proof.
  unfold where_rows. rewrite list_elem_of_filter, list_elem_of_fmap.
  split; intros [Hc Hr]; (split; [done|]).
  - destruct Hr as ([k r'] & -> & Hin). exists k. by apply elem_of_map_to_list.
  - destruct Hr as [k Hk]. exists (k, r). split; [done|]. by apply elem_of_map_to_list.
Qed.

(** [SELECT * FROM t] *)
Lemma where_all (t : gmap K Row) : where_rows (λ _, true) t = (map_to_list t).*2.
Proof.
  unfold where_rows. generalize (map_to_list t).*2. intros l.
  induction l as [|r l IH]; [done|]. rewrite filter_cons_True by done. by rewrite IH.
Qed.

Lemma unique_ok_spec (t : gmap K Row) k r :
  unique_ok t k r = true ↔
  ∀ k' r', t !! k' = Some r' → k' ≠ k → row_conflict r r' = false.
Proof.
  unfold unique_ok. rewrite forallb_forall. setoid_rewrite <-list_elem_of_In. split.
  - intros Hall k' r' Hk Hne.
    specialize (Hall (k', r')). cbn in Hall.
    rewrite elem_of_map_to_list in Hall. specialize (Hall Hk).
    apply orb_true_iff in Hall as [Hd|Hn]; bools; congruence.
  - intros Hall [k' r'] Hin%elem_of_map_to_list. cbn.
    destruct (decide (k' = k)) as [->|Hne]; [by rewrite bool_decide_eq_true_2|].
    rewrite (Hall _ _ Hin Hne). by rewrite orb_true_r.
Qed.

Lemma bind_sql_get {A} k (c : option Row → M DB A) db :
  bind (sql_get k) c db = c (tbl db !! k) db.
Proof. done. Qed.

Lemma bind_sql_select {A} cond (c : list Row → M DB A) db :
  bind (sql_select cond) c db = c (where_rows cond (tbl db)) db.
Proof. done. Qed.

Lemma sql_get_Ok k db o db' :
  sql_get k db = (Ok o, db') ↔ o = tbl db !! k ∧ db' = db.
Proof. unfold sql_get. naive_solver. Qed.

Lemma sql_insert_Ok_inv k r db u db' :
  sql_insert k r db = (Ok u, db') →
  tbl db !! k = None ∧ row_check db r = true ∧ unique_ok (tbl db) k r = true ∧
  db' = set_tbl (<[k := r]> (tbl db)) db.
Proof. unfold sql_insert. intros. repeat case_match; simplify_eq; bools; auto. Qed.

Lemma sql_insert_Ok k r db :
  tbl db !! k = None → row_check db r = true → unique_ok (tbl db) k r = true →
  sql_insert k r db = (Ok tt, set_tbl (<[k := r]> (tbl db)) db).
Proof. unfold sql_insert. by intros -> -> ->. Qed.

Lemma raises_sql_insert (P : exn_class → bool) k r : P IntegrityError = true → raises P (sql_insert k r).
Proof. intros HP db e db'. unfold sql_insert. intros. repeat case_match; simplify_eq; done. Qed.
Lemma raises_sql_update (P : exn_class → bool) k cond f : P IntegrityError = true → raises P (sql_update k cond f).
Proof. intros HP db e db'. unfold sql_update. intros. repeat case_match; simplify_eq; done. Qed.
Lemma raises_sql_get P k : raises P (sql_get k).
Proof. done. Qed.
Lemma raises_sql_select P cond : raises P (sql_select cond).
Proof. done. Qed.

(** Statements on one table keep whatever does not depend on it. *)
Lemma keeps_sql_insert {T} (part : DB → T) k r :
  (∀ t db, part (set_tbl t db) = part db) → keeps part (sql_insert k r).
Proof. intros Hp db. unfold sql_insert. repeat case_match; cbn; auto. Qed.
Lemma keeps_sql_update {T} (part : DB → T) k cond f :
  (∀ t db, part (set_tbl t db) = part db) → keeps part (sql_update k cond f).
Proof. intros Hp db. unfold sql_update. repeat case_match; cbn; auto. Qed.
Lemma keeps_sql_get {T} (part : DB → T) k : keeps part (sql_get k).
Proof. done. Qed.
Lemma keeps_sql_select {T} (part : DB → T) cond : keeps part (sql_select cond).
Proof. done. Qed.
Lemma keeps_update_keys {T} (part : DB → T) keys cond f :
  (∀ t db, part (set_tbl t db) = part db) → keeps part (update_keys keys cond f).
Proof.
  intros Hp. induction keys as [|k keys IH]; cbn [update_keys]; [apply keeps_ret|].
  apply keeps_bind; [by apply keeps_sql_update|]. intros n. apply keeps_bind; [done|]. intros m. apply keeps_ret.
Qed.

Lemma sql_insert_state k r db : (sql_insert k r db).2 = db ∨ (sql_insert k r db).1 = Ok tt.
Proof. unfold sql_insert. repeat case_match; auto. Qed.

(** A successful [UPDATE] either changed exactly the row of key [k], which
    satisfied the condition, or changed nothing. *)
Lemma sql_update_Ok_inv k cond f db n db' :
  sql_update k cond f db = (Ok n, db') →
  (n = 1 ∧ ∃ r, tbl db !! k = Some r ∧ cond r = true ∧
     row_check db (f r) = true ∧ unique_ok (tbl db) k (f r) = true ∧
     db' = set_tbl (<[k := f r]> (tbl db)) db) ∨
  (n = 0 ∧ db' = db ∧ ∀ r, tbl db !! k = Some r → cond r = false).
Proof.
  unfold sql_update. intros. repeat case_match; simplify_eq; bools.
  - left. split; [done|]. eexists; eauto.
  - right. naive_solver.
  - right. naive_solver.
Qed.

(** What an [UPDATE] over the keys of a table leaves under each of them. *)
Lemma update_keys_Ok_inv keys cond f db n db' :
  NoDup keys → update_keys keys cond f db = (Ok n, db') →
  ∀ k, tbl db' !! k =
    if bool_decide (k ∈ keys) then (λ r, if cond r then f r else r) <$> tbl db !! k else tbl db !! k.
Proof.
  revert db n. induction keys as [|x keys IH]; intros db n Hn; cbn [update_keys]; [by intros [= _ <-]|].
  apply NoDup_cons in Hn as [Hx Hn]. intros (n1 & db1 & H1 & Hu)%bind_Ok_inv.
  apply bind_Ok_inv in Hu as (n2 & db2 & H2 & Hu). apply ret_Ok_inv in Hu as [_ ->]. intros k.
  assert (E : tbl db1 !! k = if bool_decide (k = x) then (λ r, if cond r then f r else r) <$> tbl db !! k else tbl db !! k).
  { apply sql_update_Ok_inv in H1 as [(-> & r & Hr & Hc & _ & _ & ->)|(-> & -> & Hmiss)]; case_bool_decide as Ek.
    - subst k. rewrite tbl_set_tbl, lookup_insert_eq, Hr. cbn. by rewrite Hc.
    - by rewrite tbl_set_tbl, lookup_insert_ne.
    - subst k. destruct (tbl db !! x) as [r|]; [|done]. cbn. by rewrite (Hmiss r).
    - done. }
  rewrite (IH _ _ Hn H2 k), E. destruct (decide (k = x)) as [->|Hne].
  - rewrite (bool_decide_eq_false_2 (x ∈ keys)), !bool_decide_eq_true_2 by set_solver. done.
  - rewrite (bool_decide_eq_false_2 (k = x)) by done.
    destruct (decide (k ∈ keys)); [rewrite !bool_decide_eq_true_2|rewrite !bool_decide_eq_false_2]; set_solver.
Qed.

Lemma sql_update_hit k cond f db r :
  tbl db !! k = Some r → cond r = true →
  row_check db (f r) = true → unique_ok (tbl db) k (f r) = true →
  row_frozen r (f r) = true →
  sql_update k cond f db = (Ok 1, set_tbl (<[k := f r]> (tbl db)) db).
Proof. unfold sql_update. by intros -> -> -> -> ->. Qed.

Lemma sql_update_miss k cond f db :
  (∀ r, tbl db !! k = Some r → cond r = false) →
  sql_update k cond f db = (Ok 0, db).
Proof.
  unfold sql_update. intros Hm. destruct (tbl db !! k) as [r|]; [|done].
  by rewrite (Hm r).
Qed.
End statements.

#[export] Hint Resolve keeps_sql_get keeps_sql_select : py.
#[export] Hint Extern 1 (keeps _ (sql_insert _ _)) => apply keeps_sql_insert; reflexivity : py.
#[export] Hint Extern 1 (keeps _ (sql_update _ _ _)) => apply keeps_sql_update; reflexivity : py.
#[export] Hint Resolve raises_sql_get raises_sql_select : py.
#[export] Hint Extern 1 (raises _ (sql_insert _ _)) => apply raises_sql_insert; reflexivity : py.
#[export] Hint Extern 1 (raises _ (sql_update _ _ _)) => apply raises_sql_update; reflexivity : py.

(** ** [ORDER BY] *)

Section order_by.
Context {A : Type} (le : A → A → bool).

Fixpoint insert_sorted (x : A) (l : list A) : list A :=
  match l with
  | [] => [x]
  | y :: l' => if le x y then x :: l else y :: insert_sorted x l'
  end.
Fixpoint order_by (l : list A) : list A :=
  match l with
  | [] => []
  | x :: l' => insert_sorted x (order_by l')
  end.

Lemma insert_sorted_perm x l : insert_sorted x l ≡ₚ x :: l.
Proof.
  induction l as [|y l IH]; cbn; [done|]. case_match; [done|].
  rewrite IH. apply Permutation_swap.
Qed.

Lemma order_by_perm l : order_by l ≡ₚ l.
Proof. induction l as [|x l IH]; cbn; [done|]. by rewrite insert_sorted_perm, IH. Qed.

Lemma elem_of_order_by x l : x ∈ order_by l ↔ x ∈ l.
Proof. by rewrite order_by_perm. Qed.

Hypothesis le_total : ∀ x y, le x y = true ∨ le y x = true.
Hypothesis le_trans : ∀ x y z, le x y = true → le y z = true → le x z = true.

Lemma insert_sorted_sorted x l :
  StronglySorted (λ a b, le a b = true) l →
  StronglySorted (λ a b, le a b = true) (insert_sorted x l).
Proof.
  induction 1 as [|y l Hs IH Hall]; cbn; [by repeat constructor|].
  destruct (le x y) eqn:E.
  - constructor; [by constructor|]. constructor; [done|].
    eapply Forall_impl; [exact Hall|]. intros z. cbn. by apply le_trans.
  - constructor; [done|]. rewrite insert_sorted_perm. constructor; [|done].
    destruct (le_total x y); congruence.
Qed.

Lemma order_by_sorted l : StronglySorted (λ a b, le a b = true) (order_by l).
Proof. induction l; cbn; [constructor|]. by apply insert_sorted_sorted. Qed.
End order_by.

(** The sort is stable: elements with the same key keep their order. *)
Lemma order_by_stable {A} (key : A → Z) (p : Z) (l : list A) :
  filter (λ x, key x = p) (order_by (λ a b, key a <=? key b) l) = filter (λ x, key x = p) l.
Proof.
  induction l as [|x l IH]; [done|]. cbn [order_by]. rewrite filter_cons, <-IH. clear IH.
  generalize (order_by (λ a b, key a <=? key b) l). intros r. induction r as [|y r IH]; cbn [insert_sorted].
  - by rewrite filter_cons.
  - destruct (key x <=? key y) eqn:E; [by rewrite filter_cons|]. rewrite filter_cons, IH, filter_cons. bools.
    repeat case_decide; (done || lia).
Qed.

(** A sorted list is determined by its elements when their keys differ. *)
Lemma sorted_perm_unique {A} (key : A → Z) (l1 l2 : list A) :
  StronglySorted (λ a b, (key a <=? key b) = true) l1 →
  StronglySorted (λ a b, (key a <=? key b) = true) l2 →
  l1 ≡ₚ l2 → NoDup (key <$> l1) → l1 = l2.
Proof.
  intros H1. revert l2. induction H1 as [|x l1 H1 IH Hx]; intros l2 H2 Hp Hn.
  - by apply Permutation_nil in Hp.
  - destruct H2 as [|y l2 H2 Hy]; [by apply Permutation_nil_r in Hp|].
    assert (x = y) as ->.
    { assert (Hin : y ∈ x :: l1) by (rewrite Hp; left).
      assert (Hin' : x ∈ y :: l2) by (rewrite <-Hp; left).
      apply elem_of_cons in Hin as [->|Hin]; [done|]. apply elem_of_cons in Hin' as [->|Hin']; [done|].
      rewrite Forall_forall in Hx, Hy. specialize (Hx _ Hin). specialize (Hy _ Hin'). bools.
      exfalso. apply NoDup_cons in Hn as [Hn _]. apply Hn. apply list_elem_of_fmap. exists y. split; [lia|done]. }
    f_equal. apply IH; [done| |by apply NoDup_cons in Hn as [_ ?]]. by apply Permutation_cons_inv in Hp.
Qed.

Lemma strongly_sorted_app {A} (R : A → A → Prop) l1 l2 :
  StronglySorted R l1 → StronglySorted R l2 → (∀ x y, x ∈ l1 → y ∈ l2 → R x y) →
  StronglySorted R (l1 ++ l2).
Proof.
  induction 1 as [|x l1 H1 IH Hx]; intros H2 H12; [done|]. cbn. constructor.
  - apply IH; [done|]. intros a b Ha Hb. apply H12; [by right|done].
  - apply Forall_app. split; [done|]. apply Forall_forall. intros b Hb. apply H12; [left|done].
Qed.

Lemma strongly_sorted_filter {A} (R : A → A → Prop) (P : A → Prop) `{∀ x, Decision (P x)} l :
  StronglySorted R l → StronglySorted R (filter P l).
Proof.
  induction 1 as [|x l Hs IH Hx]; [constructor|]. rewrite filter_cons. case_decide; [|done].
  constructor; [done|]. rewrite Forall_forall in *. intros y [_ Hy]%list_elem_of_filter. auto.
Qed.

(** Keys of an [ORDER BY] clause: timestamps and integers compare as [Z],
    identifiers as text.  [lex] chains the keys of a clause. *)
Definition lex (c : comparison) (d : comparison) : comparison :=
  match c with Eq => d | _ => c end.
Definition le_of (c : comparison) : bool := match c with Gt => false | _ => true end.

Lemma lex_antisym c d c' d' :
  c' = CompOpp c → d' = CompOpp d → lex c' d' = CompOpp (lex c d).
Proof. intros -> ->. by destruct c. Qed.

(** Text comparison is byte by byte. *)
Definition text_compare : string → string → comparison := String.compare.

Lemma text_compare_eq a b : text_compare a b = Eq ↔ a = b.
Proof.
  split; [apply String.compare_eq_iff|intros ->].
  pose proof (String.compare_antisym b b) as Hr. unfold text_compare.
  by destruct (String.compare b b).
Qed.

Lemma text_compare_antisym a b : text_compare a b = CompOpp (text_compare b a).
Proof. apply String.compare_antisym. Qed.
