(* ===== verification/Canonical.v ===== *)
(** * Canonical JSON and SHA-256

    Models src/src/tianshu/models/canonical.py: the JSON values the program
    persists, their deterministic UTF-8 serialization (sorted keys, compact
    separators, no non-finite number) and the SHA-256 of it, which identifies
    payloads, plans, intents and receipts.  [hashlib.sha256] is written out, so
    the hashes compute.

    Text is the UTF-8 encoding of a Python string; byte order on UTF-8 is code
    point order, so sorting by bytes sorts as Python does.  Integers print at
    every length; CPython's limit on the digits of an integer (4300 by default,
    beyond which [json.dumps] raises ValueError) is not modelled. *)

From stdpp Require Import pretty.
From S2P Require Import Prelude.
From S2P Require Import Sql.

(** ** SHA-256 *)

Module Sha256.

Definition mask32 : Z := 4294967295.
Definition add32 (a b : Z) : Z := Z.land (a + b) mask32.
Definition shr (x n : Z) : Z := Z.shiftr x n.
Definition rotr (x n : Z) : Z :=
  Z.land (Z.lor (Z.shiftr x n) (Z.shiftl x (32 - n))) mask32.
Definition xor3 (a b c : Z) : Z := Z.lxor (Z.lxor a b) c.

Definition big0 (x : Z) : Z := xor3 (rotr x 2) (rotr x 13) (rotr x 22).
Definition big1 (x : Z) : Z := xor3 (rotr x 6) (rotr x 11) (rotr x 25).
Definition small0 (x : Z) : Z := xor3 (rotr x 7) (rotr x 18) (shr x 3).
Definition small1 (x : Z) : Z := xor3 (rotr x 17) (rotr x 19) (shr x 10).
Definition ch (e f g : Z) : Z := Z.lxor (Z.land e f) (Z.land (Z.lxor e mask32) g).
Definition maj (a b c : Z) : Z := xor3 (Z.land a b) (Z.land a c) (Z.land b c).

(** The constants of the standard: the first 32 bits of the fractional parts of
    the cube roots of the first 64 primes, and of the square roots of the first 8. *)
Definition is_prime (n : Z) : bool :=
  forallb (λ k, negb (n mod Z.of_nat k =? 0)) (seq 2 (Z.to_nat n - 2)).
Definition primes : list Z :=
  Eval vm_compute in filter (λ n, is_prime n = true) (Z.of_nat <$> seq 2 310).
Definition cube_root (n : Z) : Z :=
  foldl (λ r i, let c := r + 2 ^ Z.of_nat i in if c * c * c <=? n then c else r) 0 (rev (seq 0 36)).
Definition cube_fraction (p : Z) : Z := cube_root (p * 2 ^ 96) mod 2 ^ 32.
Definition square_fraction (p : Z) : Z := Z.sqrt (p * 2 ^ 64) mod 2 ^ 32.
Definition round_constants : list Z := Eval vm_compute in cube_fraction <$> primes.

Record state := State { sa : Z; sb : Z; sc : Z; sd : Z; se : Z; sf : Z; sg : Z; sh : Z }.

Definition initial : state :=
  Eval vm_compute in
    let h := λ i : nat, square_fraction (default 0 (primes !! i)) in
    State (h 0%nat) (h 1%nat) (h 2%nat) (h 3%nat) (h 4%nat) (h 5%nat) (h 6%nat) (h 7%nat).

(** The message schedule, newest word first. *)
Fixpoint extend (n : nat) (w : list Z) : list Z :=
  match n with
  | O => w
  | S n' =>
      let at_ i := default 0 (w !! i) in
      extend n' (add32 (add32 (small1 (at_ 1%nat)) (at_ 6%nat))
                       (add32 (small0 (at_ 14%nat)) (at_ 15%nat)) :: w)
  end.

Definition round (s : state) (kw : Z * Z) : state :=
  let t1 := add32 (add32 (sh s) (big1 (se s)))
                  (add32 (ch (se s) (sf s) (sg s)) (add32 kw.1 kw.2)) in
  let t2 := add32 (big0 (sa s)) (maj (sa s) (sb s) (sc s)) in
  State (add32 t1 t2) (sa s) (sb s) (sc s) (add32 (sd s) t1) (se s) (sf s) (sg s).

Definition compress (s : state) (block : list Z) : state :=
  let w := reverse (extend 48 (reverse block)) in
  let r := foldl round s (zip round_constants w) in
  State (add32 (sa s) (sa r)) (add32 (sb s) (sb r)) (add32 (sc s) (sc r)) (add32 (sd s) (sd r))
        (add32 (se s) (se r)) (add32 (sf s) (sf r)) (add32 (sg s) (sg r)) (add32 (sh s) (sh r)).

Definition be_word (bs : list Z) : Z := foldl (λ acc b, acc * 256 + b) 0 bs.
Fixpoint be_bytes (n : nat) (x : Z) : list Z :=
  match n with
  | O => []
  | S n' => Z.land (Z.shiftr x (8 * Z.of_nat n')) 255 :: be_bytes n' x
  end.

Definition pad (bs : list Z) : list Z :=
  let len := length bs in
  let zeros := ((119 - len mod 64) mod 64)%nat in
  bs ++ 128 :: replicate zeros 0 ++ be_bytes 8 (8 * Z.of_nat len).

(** Splits off the leading [n] elements repeatedly; [fuel] bounds the count. *)
Fixpoint chunks {A} (fuel n : nat) (l : list A) : list (list A) :=
  match fuel, l with
  | _, [] => []
  | O, _ => []
  | S f, _ => take n l :: chunks f n (drop n l)
  end.

Definition words (bs : list Z) : list Z := be_word <$> chunks (length bs) 4 bs.

Definition digest (bs : list Z) : state :=
  let ws := words (pad bs) in
  foldl compress initial (chunks (length ws) 16 ws).

Definition hex_digit (n : Z) : Ascii.ascii :=
  Ascii.ascii_of_nat (Z.to_nat (if n <? 10 then 48 + n else 87 + n)).
Fixpoint hex_word (digits : nat) (x : Z) : string :=
  match digits with
  | O => EmptyString
  | S d => String (hex_digit (Z.land (Z.shiftr x (4 * Z.of_nat d)) 15)) (hex_word d x)
  end.

Definition hex_state (s : state) : string :=
  hex_word 8 (sa s) +:+ hex_word 8 (sb s) +:+ hex_word 8 (sc s) +:+ hex_word 8 (sd s) +:+
  hex_word 8 (se s) +:+ hex_word 8 (sf s) +:+ hex_word 8 (sg s) +:+ hex_word 8 (sh s).

Definition bytes_of (s : string) : list Z :=
  (λ c, Z.of_nat (Ascii.nat_of_ascii c)) <$> String.list_ascii_of_string s.

(** [hashlib.sha256(data).hexdigest()] *)
Definition hexdigest (data : string) : string := hex_state (digest (bytes_of data)).

Example hexdigest_abc :
  hexdigest "abc" = "ba7816bf8f01cfea414140de5dae2223b00361a396177a9cb410ff61f20015ad".
Proof. vm_compute. reflexivity. Qed.
Example hexdigest_two_blocks :
  hexdigest "abcdbcdecdefdefgefghfghighijhijkijkljklmklmnlmnomnopnopq" =
  "248d6a61d20638b8e5c026930c3e6039a33ce45964ff2167f6ecedd419db06c1".
Proof. vm_compute. reflexivity. Qed.

End Sha256.

(** ** JSON values *)

(** A Python float: its exact value [m * 2^e] ([None] for a NaN or an
    infinity) and the text [float.__repr__] gives for it. *)
Record pyfloat := PyFloat { float_value : option (Z * Z); float_repr : string }.

#[export] Instance pyfloat_eq_dec : EqDecision pyfloat.
Proof. solve_decision. Defined.

(** [JsonValue]; a dict is its items in insertion order, keys distinct. *)
#[local] Unset Elimination Schemes.
Inductive json :=
  | JNull
  | JBool (b : bool)
  | JInt (z : Z)
  | JFloat (f : pyfloat)
  | JStr (s : string)
  | JList (l : list json)
  | JObj (items : list (string * json)).
#[local] Set Elimination Schemes.


(** Induction with the hypothesis for every element of a list and every value
    of a dict. *)
Lemma json_ind' (P : json → Prop)
    (Hnull : P JNull) (Hbool : ∀ b, P (JBool b)) (Hint : ∀ z, P (JInt z))
    (Hfloat : ∀ f, P (JFloat f)) (Hstr : ∀ s, P (JStr s))
    (Hlist : ∀ l, Forall P l → P (JList l))
    (Hobj : ∀ items, Forall (λ kv, P kv.2) items → P (JObj items)) :
  ∀ v, P v.
Proof.
  fix IH 1. intros [|b|z|f|s|l|items]; [done|done|done|done|done| |].
  - apply Hlist. induction l as [|x l IHl]; constructor; [apply IH|apply IHl].
  - apply Hobj. induction items as [|[k x] l IHl]; constructor; [apply IH|apply IHl].
Qed.

#[export] Instance json_eq_dec : EqDecision json.
Proof.
  refine (fix go (x y : json) : Decision (x = y) :=
    let _ : EqDecision json := @go in
    match x, y with
    | JNull, JNull => left eq_refl
    | JBool a, JBool b => cast_if (decide (a = b))
    | JInt a, JInt b => cast_if (decide (a = b))
    | JFloat a, JFloat b => cast_if (decide (a = b))
    | JStr a, JStr b => cast_if (decide (a = b))
    | JList a, JList b => cast_if (decide (a = b))
    | JObj a, JObj b => cast_if (decide (a = b))
    | _, _ => right _
    end); first [discriminate | congruence].
Defined.

(** [bool(v)] *)
Definition truthy (v : json) : bool :=
  match v with
  | JNull => false
  | JBool b => b
  | JInt z => negb (z =? 0)
  | JFloat f => match float_value f with Some (m, _) => negb (m =? 0) | None => true end
  | JStr s => negb (bool_decide (s = ""))
  | JList l => match l with [] => false | _ => true end
  | JObj l => match l with [] => false | _ => true end
  end.

(** The value of a dict at a key. *)
Definition obj_get (items : list (string * json)) (k : string) : option json :=
  snd <$> find (λ kv : string * json, bool_decide (kv.1 = k)) items.

(** The numeric value Python compares: booleans are the integers 0 and 1. *)
Definition num_value (v : json) : option (Z * Z) :=
  match v with
  | JBool b => Some (if b then 1 else 0, 0)
  | JInt z => Some (z, 0)
  | JFloat f => float_value f
  | _ => None
  end.
Definition same_number (x y : Z * Z) : bool :=
  let e := Z.min x.2 y.2 in
  x.1 * 2 ^ (x.2 - e) =? y.1 * 2 ^ (y.2 - e).

(** Python's [==] on JSON values: numbers by value, dicts as maps.  An
    infinity equals itself, a NaN nothing. *)
Fixpoint py_eq (x y : json) {struct x} : bool :=
  match x, y with
  | JNull, JNull => true
  | JStr a, JStr b => bool_decide (a = b)
  | JList a, JList b =>
      (fix go (a b : list json) :=
         match a, b with
         | [], [] => true
         | u :: a', v :: b' => py_eq u v && go a' b'
         | _, _ => false
         end) a b
  | JObj a, JObj b =>
      bool_decide (length a = length b) &&
      (fix go (a : list (string * json)) :=
         match a with
         | [] => true
         | (k, u) :: a' =>
             match obj_get b k with Some v => py_eq u v | None => false end && go a'
         end) a
  | JFloat (PyFloat None r), JFloat (PyFloat None r') =>
      bool_decide (r = r') && negb (bool_decide (r = "nan"))
  | _, _ =>
      match num_value x, num_value y with
      | Some a, Some b => same_number a b
      | _, _ => false
      end
  end.

(** ** Serialization *)

Definition chr (n : nat) : Ascii.ascii := Ascii.ascii_of_nat n.
Definition ord (c : Ascii.ascii) : nat := Ascii.nat_of_ascii c.
Definition quote : Ascii.ascii := chr 34.
Definition text (s : string) : list Ascii.ascii := String.list_ascii_of_string s.

(** [json.dumps(..., ensure_ascii=False)]'s escape of one character. *)
Definition escape_char (c : Ascii.ascii) : list Ascii.ascii :=
  let n := ord c in
  if bool_decide (n = 34%nat) then [chr 92; quote]
  else if bool_decide (n = 92%nat) then [chr 92; chr 92]
  else if bool_decide (n = 10%nat) then [chr 92; chr 110]
  else if bool_decide (n = 13%nat) then [chr 92; chr 114]
  else if bool_decide (n = 9%nat) then [chr 92; chr 116]
  else if bool_decide (n = 8%nat) then [chr 92; chr 98]
  else if bool_decide (n = 12%nat) then [chr 92; chr 102]
  else if bool_decide (n < 32)%nat then
    chr 92 :: chr 117 :: chr 48 :: chr 48 :: text (Sha256.hex_word 2 (Z.of_nat n))
  else [c].

Definition dumps_str (s : string) : list Ascii.ascii :=
  quote :: (text s ≫= escape_char) ++ [quote].

(** Texts separated by commas, then the closing bracket. *)
Fixpoint join (close : Ascii.ascii) (parts : list (list Ascii.ascii)) : list Ascii.ascii :=
  match parts with
  | [] => [close]
  | [p] => p ++ [close]
  | p :: ps => p ++ chr 44 :: join close ps
  end.

(** [json.dumps] with [separators=(",", ":")]; items in the order given. *)
Fixpoint dumps (v : json) : list Ascii.ascii :=
  match v with
  | JNull => text "null"
  | JBool true => text "true"
  | JBool false => text "false"
  | JInt z => text (pretty z)
  | JFloat f => text (float_repr f)
  | JStr s => dumps_str s
  | JList l => chr 91 :: join (chr 93) (dumps <$> l)
  | JObj items =>
      chr 123 :: join (chr 125) ((λ kv, dumps_str kv.1 ++ chr 58 :: dumps kv.2) <$> items)
  end.

(** [sort_keys=True], at every level. *)
Definition key_le (x y : string * json) : bool := le_of (text_compare x.1 y.1).
Fixpoint sort_keys (v : json) : json :=
  match v with
  | JList l => JList (sort_keys <$> l)
  | JObj items => JObj (order_by key_le (prod_map id sort_keys <$> items))
  | _ => v
  end.

(** [_normalize_json_value]: the only check JSON values can fail is that
    numbers are finite. *)
Fixpoint all_finite (v : json) : bool :=
  match v with
  | JFloat f => is_some (float_value f)
  | JList l => forallb all_finite l
  | JObj items => forallb (λ kv, all_finite kv.2) items
  | _ => true
  end.

Definition canonical_json_bytes (payload : json) : result string :=
  if all_finite payload
  then Ok (String.string_of_list_ascii (dumps (sort_keys payload)))
  else Err (Exn ValueError "canonical JSON numbers must be finite").

Definition canonical_sha256 (payload : json) : result string :=
  match canonical_json_bytes payload with
  | Ok b => Ok (Sha256.hexdigest b)
  | Err e => Err e
  end.

Example canonical_example :
  canonical_json_bytes (JObj [("b", JList [JInt (-7); JBool true]); ("a", JStr "x")]) =
  Ok (String.string_of_list_ascii
        (text "{" ++ dumps_str "a" ++ text ":" ++ dumps_str "x" ++ text "," ++
         dumps_str "b" ++ text ":[-7,true]}")).
Proof. vm_compute. reflexivity. Qed.

(** ** The digest format *)

Definition is_hex (c : Ascii.ascii) : bool :=
  let n := ord c in
  (bool_decide (48 ≤ n ≤ 57) || bool_decide (97 ≤ n ≤ 102))%nat.

(** [Field(pattern=r"^[0-9a-f]{64}$")] *)
Definition hex64 (s : string) : bool :=
  bool_decide (String.length s = 64%nat) && forallb is_hex (text s).

Lemma text_app s t : text (s +:+ t) = text s ++ text t.
Proof.
  unfold text. induction s as [|a s IH]; [done|].
  transitivity (a :: String.list_ascii_of_string (s +:+ t)); [done|]. by rewrite IH.
Qed.

Lemma length_text s : length (text s) = String.length s.
Proof. unfold text. induction s as [|a s IH]; [done|]. cbn. by f_equal. Qed.

Lemma text_inj s t : text s = text t → s = t.
Proof.
  unfold text. intros H. rewrite <-(String.string_of_list_ascii_of_string s), H.
  apply String.string_of_list_ascii_of_string.
Qed.

Lemma hex_digit_is_hex n : 0 ≤ n < 16 → is_hex (Sha256.hex_digit n) = true.
Proof.
  intros Hn. unfold is_hex, Sha256.hex_digit, ord.
  rewrite Ascii.nat_ascii_embedding by (destruct (n <? 10); lia).
  destruct (n <? 10) eqn:E; bools.
  - rewrite bool_decide_eq_true_2 by lia. done.
  - rewrite (bool_decide_eq_true_2 (97 ≤ _ ≤ 102)%nat) by lia. apply orb_true_r.
Qed.

Lemma hex_word_is_hex d x : forallb is_hex (text (Sha256.hex_word d x)) = true.
Proof.
  induction d as [|d IH]; [done|]. cbn. apply andb_true_iff. split; [|done].
  apply hex_digit_is_hex. change 15 with (Z.ones 4). rewrite Z.land_ones by lia.
  apply Z.mod_pos_bound. lia.
Qed.

Lemma hex_word_length d x : String.length (Sha256.hex_word d x) = d.
Proof. induction d; cbn; congruence. Qed.

(** Every digest the program computes satisfies the pattern its models and
    its SQL constraints require. *)
Lemma hexdigest_hex64 data : hex64 (Sha256.hexdigest data) = true.
Proof.
  unfold hex64, Sha256.hexdigest, Sha256.hex_state. rewrite <-length_text, !text_app.
  rewrite !length_app, !length_text, !hex_word_length.
  rewrite !forallb_app, !hex_word_is_hex. done.
Qed.

(** ** Canonical bytes determine the value *)

(** Characters of a number's text. *)
Definition numchar (c : Ascii.ascii) : bool :=
  let n := ord c in
  (bool_decide (48 ≤ n ≤ 57) || bool_decide (n = 43) || bool_decide (n = 45) ||
   bool_decide (n = 46) || bool_decide (n = 101))%nat.
(** Characters of an integer's text. *)
Definition intchar (c : Ascii.ascii) : bool :=
  let n := ord c in (bool_decide (48 ≤ n ≤ 57) || bool_decide (n = 45))%nat.

(** What [float.__repr__] guarantees of a finite float: a nonempty text over
    the number characters with a point or an exponent in it, so that it is
    never the text of an integer. *)
Definition float_text (s : string) : bool :=
  forallb numchar (text s) && existsb (λ c, negb (intchar c)) (text s).

(** [parse] is [float()]; [float(repr(x))] gives back the value of [x]. *)
Fixpoint wf_json (parse : string → option (Z * Z)) (v : json) : bool :=
  match v with
  | JFloat f => float_text (float_repr f) && bool_decide (float_value f = parse (float_repr f))
  | JList l => forallb (wf_json parse) l
  | JObj items => forallb (λ kv, wf_json parse kv.2) items
  | _ => true
  end.

(** The text that follows a value: the end, or a separator. *)
Definition delim (r : list Ascii.ascii) : bool :=
  match r with
  | [] => true
  | c :: _ => negb (numchar c)
  end.

Lemma span_inj (l1 l2 r1 r2 : list Ascii.ascii) :
  forallb numchar l1 = true → forallb numchar l2 = true →
  delim r1 = true → delim r2 = true → l1 ++ r1 = l2 ++ r2 → l1 = l2 ∧ r1 = r2.
Proof.
  revert l2. induction l1 as [|c l1 IH]; intros [|d l2] H1 H2 D1 D2 E; cbn in *.
  - done.
  - subst r1. cbn in D1. apply andb_true_iff in H2 as [H2 _]. by rewrite H2 in D1.
  - subst r2. cbn in D2. apply andb_true_iff in H1 as [H1 _]. by rewrite H1 in D2.
  - bools. simplify_eq. edestruct IH as [-> ->]; eauto.
Qed.

Definition all_chars : list Ascii.ascii := chr <$> seq 0 256.
Lemma all_chars_complete c : c ∈ all_chars.
Proof.
  apply list_elem_of_fmap. exists (ord c).
  split; [symmetry; apply Ascii.ascii_nat_embedding|].
  apply elem_of_seq. pose proof (Ascii.nat_ascii_bounded c). unfold ord. lia.
Qed.

(** No escape is a prefix of the escape of another character, and none starts
    with the closing quote; checked on all pairs of bytes. *)
Fixpoint comparable (a b : list Ascii.ascii) : bool :=
  match a, b with
  | x :: a', y :: b' => bool_decide (x = y) && comparable a' b'
  | _, _ => true
  end.
Definition escapes_apart (c d : Ascii.ascii) : bool :=
  bool_decide (c = d) || negb (comparable (escape_char c) (escape_char d)).
Definition escape_opens (c : Ascii.ascii) : bool := negb (comparable [quote] (escape_char c)).

(** A test that holds on all bytes holds of each. *)
Lemma forall_chars (f : Ascii.ascii → bool) c : forallb f all_chars = true → f c = true.
Proof. rewrite forallb_forall. intros H. apply H, list_elem_of_In, all_chars_complete. Qed.

Lemma escapes_apart_true c d : escapes_apart c d = true.
Proof.
  refine (forall_chars (escapes_apart c) d _).
  refine (forall_chars (λ c, forallb (escapes_apart c) all_chars) c _).
  vm_compute. reflexivity.
Qed.

Lemma escape_opens_true c : escape_opens c = true.
Proof. apply forall_chars. vm_compute. reflexivity. Qed.

Lemma comparable_app a b r1 r2 : a ++ r1 = b ++ r2 → comparable a b = true.
Proof.
  revert b. induction a as [|x a IH]; intros [|y b] E; cbn in *; try done.
  simplify_eq. rewrite bool_decide_eq_true_2 by done. cbn. by eapply IH.
Qed.

Lemma escape_char_inj c d r1 r2 :
  escape_char c ++ r1 = escape_char d ++ r2 → c = d ∧ r1 = r2.
Proof.
  intros E. pose proof (escapes_apart_true c d) as Hp. unfold escapes_apart in Hp.
  rewrite (comparable_app _ _ _ _ E), orb_false_r in Hp. bools. subst.
  split; [done|]. by apply app_inv_head in E.
Qed.

Lemma escape_char_not_quote c r1 r2 : escape_char c ++ r1 ≠ quote :: r2.
Proof.
  intros E. pose proof (escape_opens_true c) as Hp. unfold escape_opens in Hp.
  symmetry in E. change (quote :: r2) with ([quote] ++ r2) in E.
  by rewrite (comparable_app _ _ _ _ E) in Hp.
Qed.

Lemma escaped_inj (s1 s2 r1 r2 : list Ascii.ascii) :
  (s1 ≫= escape_char) ++ quote :: r1 = (s2 ≫= escape_char) ++ quote :: r2 →
  s1 = s2 ∧ r1 = r2.
Proof.
  revert s2. induction s1 as [|c s1 IH]; intros [|d s2] E; cbn in E;
    rewrite <-?app_assoc in E.
  - by simplify_eq.
  - symmetry in E. by apply escape_char_not_quote in E.
  - by apply escape_char_not_quote in E.
  - apply escape_char_inj in E as [-> E]. by apply IH in E as [-> ->].
Qed.

Lemma dumps_str_inj s1 s2 r1 r2 :
  dumps_str s1 ++ r1 = dumps_str s2 ++ r2 → s1 = s2 ∧ r1 = r2.
Proof.
  unfold dumps_str. cbn. rewrite <-!app_assoc. cbn. intros [= E].
  apply escaped_inj in E as [Es ->]. by apply text_inj in Es.
Qed.

Lemma intchar_numchar c : intchar c = true → numchar c = true.
Proof.
  unfold intchar, numchar. intros [->| ->]%orb_true_iff; [done|].
  by rewrite !orb_true_r.
Qed.

Lemma pretty_N_go_intchars x s :
  forallb intchar (text s) = true → forallb intchar (text (pretty_N_go x s)) = true.
Proof.
  revert s. induction (N.lt_wf_0 x) as [x _ IH]; intros s Hs.
  assert (x = 0 ∨ 0 < x)%N as [->|Hx] by lia; [done|].
  rewrite pretty_N_go_step by done. apply IH; [by apply N.div_lt|].
  cbn. apply andb_true_iff. split; [|done].
  unfold pretty_N_char. by repeat case_match.
Qed.

Lemma pretty_intchars (z : Z) : forallb intchar (text (pretty z)) = true.
Proof.
  unfold pretty, pretty_Z, pretty, pretty_positive, pretty, pretty_N.
  destruct z as [|p|p]; [done| |]; rewrite ?text_app, ?forallb_app;
    repeat (case_decide || apply andb_true_iff; try split); try done;
    by apply pretty_N_go_intchars.
Qed.

Lemma pretty_nonempty (z : Z) : text (pretty z) ≠ [].
Proof.
  intros E%(text_inj _ EmptyString).
  assert (∀ x s, s ≠ "" → pretty_N_go x s ≠ "") as Hgo.
  { intros x. induction (N.lt_wf_0 x) as [x _ IH]; intros s Hs.
    assert (x = 0 ∨ 0 < x)%N as [->|Hx] by lia; [done|].
    rewrite pretty_N_go_step by done. apply IH; [by apply N.div_lt|done]. }
  unfold pretty, pretty_Z, pretty, pretty_positive, pretty, pretty_N in E.
  destruct z as [|p|p]; [done| |done]. case_decide; [done|].
  rewrite pretty_N_go_step in E by done. by apply Hgo in E.
Qed.

#[local] Arguments dumps_str : simpl never.

Section injectivity.
Context (parse : string → option (Z * Z)).

(** Every value starts with a character that is no closing bracket, and the
    texts of numbers are separate from those of the other values. *)
Definition head_class (v : json) : nat :=
  match v with
  | JNull => 1 | JBool true => 2 | JBool false => 3 | JInt _ => 4 | JFloat _ => 4
  | JStr _ => 5 | JList _ => 6 | JObj _ => 7
  end.
Definition char_class (c : Ascii.ascii) : nat :=
  if numchar c then 4 else
  let n := ord c in
  if bool_decide (n = 110%nat) then 1 else if bool_decide (n = 116%nat) then 2 else
  if bool_decide (n = 102%nat) then 3 else if bool_decide (n = 34%nat) then 5 else
  if bool_decide (n = 91%nat) then 6 else if bool_decide (n = 123%nat) then 7 else 0.

Lemma dumps_head v : wf_json parse v = true →
  ∃ c r, dumps v = c :: r ∧ char_class c = head_class v.
Proof.
  destruct v as [|[]|z|f|s|l|l]; cbn; intros Hwf; eauto.
  - pose proof (pretty_intchars z) as Hi. pose proof (pretty_nonempty z) as Hn.
    destruct (text (pretty z)) as [|c r]; [done|]. exists c, r. split; [done|].
    cbn in Hi. bools. unfold char_class. by rewrite intchar_numchar.
  - apply andb_true_iff in Hwf as [Hwf _]. unfold float_text in Hwf. bools.
    destruct (text (float_repr f)) as [|c r]; [done|]. exists c, r. split; [done|].
    cbn in *. bools. unfold char_class. by replace (numchar c) with true.
Qed.

(** Joined texts are read back part by part. *)
Lemma join_inj {A} (P : A → Prop) (f : A → list Ascii.ascii) close l1 l2 r1 r2 :
  numchar close = false → close ≠ chr 44 →
  (∀ x r r', P x → f x ++ r ≠ close :: r') →
  Forall (λ x, ∀ y s1 s2, P x → P y → delim s1 = true → delim s2 = true →
    f x ++ s1 = f y ++ s2 → x = y ∧ s1 = s2) l1 →
  Forall P l1 → Forall P l2 →
  join close (f <$> l1) ++ r1 = join close (f <$> l2) ++ r2 → l1 = l2 ∧ r1 = r2.
Proof.
  intros Hc Hcomma Hhead HI HP1 HP2.
  assert (∀ r, delim (close :: r) = true) as Hd by (intros; cbn; by rewrite Hc).
  assert (∀ x t r, join close (f x :: t) ++ r = f x ++ (match t with [] => [close] | _ => chr 44 :: join close t end) ++ r) as Hj.
  { intros x [|y t] r; cbn; by rewrite <-app_assoc. }
  assert (∀ t r, delim ((match t with [] => [close] | _ => chr 44 :: join close t end) ++ r) = true) as Hdj.
  { intros [|y t] r; cbn; [by rewrite Hc|done]. }
  revert l2 HP2. induction l1 as [|x l1 IH]; intros [|y l2] HP2 E; cbn [fmap list_fmap] in E;
    rewrite ?Hj in E.
  - cbn in E. by simplify_eq.
  - symmetry in E. inv HP2. by apply Hhead in E.
  - inv HP1. by apply Hhead in E.
  - inv HI. inv HP1. inv HP2.
    match goal with H : ∀ y, _ |- _ => apply H in E as [-> E]; [|done|done|apply Hdj..] end.
    destruct l1 as [|x1 l1], l2 as [|y1 l2]; cbn in E; simplify_eq; try done.
    match goal with H : Forall _ (y1 :: l2) |- _ => rename H into HP2' end.
    destruct (IH ltac:(done) ltac:(done) (y1 :: l2) HP2') as [E1 E2]; [by cbn; rewrite E|].
    by rewrite E1, E2.
Qed.

Lemma number_text v : wf_json parse v = true → head_class v = 4%nat →
  ∃ l, dumps v = l ∧ forallb numchar l = true ∧
    (forallb intchar l = true ↔ ∃ z, v = JInt z).
Proof.
  destruct v as [|[]|z|f|s|l|l]; cbn; intros Hwf Hc; try done; eexists; split; try done.
  - pose proof (pretty_intchars z) as Hi. split; [|naive_solver].
    eapply forallb_impl; [apply intchar_numchar|done].
  - apply andb_true_iff in Hwf as [Hwf _]. unfold float_text in Hwf. bools.
    split; [done|]. split; [|by intros [? [=]]]. intros Hi.
    apply existsb_exists in H0 as (c & Hin & Hn). rewrite forallb_forall in Hi.
    apply Hi in Hin. by rewrite Hin in Hn.
Qed.

Lemma number_inj v w r1 r2 :
  wf_json parse v = true → wf_json parse w = true →
  head_class v = 4%nat → head_class w = 4%nat → delim r1 = true → delim r2 = true →
  dumps v ++ r1 = dumps w ++ r2 → v = w ∧ r1 = r2.
Proof.
  intros Hv Hw Cv Cw D1 D2 E.
  destruct (number_text v Hv Cv) as (l1 & E1 & N1 & I1).
  destruct (number_text w Hw Cw) as (l2 & E2 & N2 & I2).
  rewrite E1, E2 in E. apply span_inj in E as [-> ->]; try done. split; [|done].
  rewrite <-E2 in E1. destruct v as [|[]|z|f|s|l|l], w as [|[]|z'|f'|s'|l'|l'];
    try done; cbn in *.
  - apply text_inj in E1. by apply (inj pretty) in E1 as ->.
  - destruct (proj1 I2) as [? [=]]. apply I1. eauto.
  - destruct (proj1 I1) as [? [=]]. apply I2. eauto.
  - apply text_inj in E1. bools. destruct f, f'. cbn in *. congruence.
Qed.

(** A value's text is read back whatever separator follows it. *)
Lemma dumps_inj v w r1 r2 :
  wf_json parse v = true → wf_json parse w = true → delim r1 = true → delim r2 = true →
  dumps v ++ r1 = dumps w ++ r2 → v = w ∧ r1 = r2.
Proof.
  revert w r1 r2. induction v as [|b|z|f|s|l IH|l IH] using json_ind';
    intros w r1 r2 Hv Hw D1 D2 E;
    destruct (dumps_head _ Hv) as (c & t & Ec & Cc);
    destruct (dumps_head _ Hw) as (d & u & Ed & Cd);
    (assert (c = d) as <- by (rewrite Ec, Ed in E; by simplify_eq));
    rewrite Cc in Cd.
  - destruct w as [|[]|z'|f'|s'|l'|l']; try done. cbn in E. by simplify_eq.
  - destruct b, w as [|[]|z'|f'|s'|l'|l']; try done; cbn in E; by simplify_eq.
  - by apply number_inj in E.
  - by apply number_inj in E.
  - destruct w as [|[]|z'|f'|s'|l'|l']; try done. by apply dumps_str_inj in E as [-> ->].
  - destruct w as [|[]|z'|f'|s'|l'|l']; try done. cbn in E. apply (inj2 cons) in E as [_ E].
    apply (join_inj (λ v, wf_json parse v = true)) in E as [-> ->]; try done.
    + intros x r r' Hx Ex. destruct (dumps_head _ Hx) as (e & q & Eq & Ce).
      rewrite Eq in Ex. cbn in Ex. simplify_eq. by destruct x as [|[]| | | | |].
    + by apply forallb_Forall.
    + by apply forallb_Forall.
  - destruct w as [|[]|z'|f'|s'|l'|l']; try done. cbn in E. apply (inj2 cons) in E as [_ E].
    apply (join_inj (λ kv, wf_json parse kv.2 = true)) in E as [-> ->]; try done.
    + eapply Forall_impl; [exact IH|]. intros [k x] HI [k' y] s1 s2 Hx Hy Ds1 Ds2 Ex.
      cbn [fst snd] in *.
              rewrite <-(app_assoc (dumps_str k)), <-(app_assoc (dumps_str k')) in Ex.
      apply dumps_str_inj in Ex as [-> Ex].
      cbn in Ex. apply (inj2 cons) in Ex as [_ Ex]. by apply HI in Ex as [-> ->].
    + by apply forallb_Forall.
    + by apply forallb_Forall.
Qed.

Lemma wf_sort_keys v : wf_json parse (sort_keys v) = wf_json parse v.
Proof.
  induction v as [|b|z|f|s|l IH|l IH] using json_ind'; cbn; try done.
  - induction IH as [|x l Hx _ IHl]; cbn; [done|]. by rewrite Hx, IHl.
  - rewrite (forallb_perm _ _ _ (order_by_perm key_le _)).
    induction IH as [|[k x] l Hx _ IHl]; cbn in *; [done|]. by rewrite Hx, IHl.
Qed.
End injectivity.

Lemma canonical_bytes_inj parse v w b :
  wf_json parse v = true → wf_json parse w = true →
  canonical_json_bytes v = Ok b → canonical_json_bytes w = Ok b →
  sort_keys v = sort_keys w.
Proof.
  unfold canonical_json_bytes. intros Hv Hw E1 E2.
  destruct (all_finite v), (all_finite w); simplify_eq.
  apply (f_equal String.list_ascii_of_string) in E1.
  rewrite !String.list_ascii_of_string_of_list_ascii in E1.
  destruct (dumps_inj parse (sort_keys v) (sort_keys w) [] []) as [E _]; try done.
  - by rewrite wf_sort_keys.
  - by rewrite wf_sort_keys.
  - by rewrite E1.
Qed.

(** Canonical JSON bytes determine the value: two values with the same canonical bytes are
    equal up to the order of object keys, so equal bytes never hide different payloads. *)
Theorem canonical_json_inj parse v w b :
  wf_json parse v = true → wf_json parse w = true →
  canonical_json_bytes v = Ok b → canonical_json_bytes w = Ok b →
  sort_keys v = sort_keys w.
Proof. apply canonical_bytes_inj. Qed.

Lemma canonical_json_inj_witness :
  sort_keys (JObj [("b", JInt (-7)); ("a", JList [JBool true; JNull])]) =
  sort_keys (JObj [("a", JList [JBool true; JNull]); ("b", JInt (-7))]).
Proof.
  eapply (canonical_json_inj (λ _, None)); vm_compute; reflexivity.
Defined.
