(* ===== verification/PyText.v ===== *)
(** * Python text

    A Python [str] is a sequence of code points; the components that look at
    single characters work on [list Z].  [str.strip], [str.lower],
    [str.startswith], the substring test and the shell patterns of the
    standard module [fnmatch]; [json.dumps] with its default arguments. *)

From stdpp Require Import pretty.
From S2P Require Import Prelude.
From S2P Require Import Canonical.

Abbreviation ustr := (list Z).

(** The code points of a UTF-8 text. *)
Fixpoint code_points (l : list Ascii.ascii) : ustr :=
  let n c := Z.of_nat (ord c) in
  match l with
  | [] => []
  | a :: r =>
      if n a <? 192 then n a :: code_points r
      else match r with
      | b :: r1 =>
          if n a <? 224 then Z.lor (Z.shiftl (Z.land (n a) 31) 6) (Z.land (n b) 63) :: code_points r1
          else match r1 with
          | c :: r2 =>
              if n a <? 240 then
                Z.lor (Z.shiftl (Z.land (n a) 15) 12) (Z.lor (Z.shiftl (Z.land (n b) 63) 6) (Z.land (n c) 63))
                  :: code_points r2
              else match r2 with
              | d :: r3 =>
                  Z.lor (Z.shiftl (Z.land (n a) 7) 18)
                    (Z.lor (Z.shiftl (Z.land (n b) 63) 12) (Z.lor (Z.shiftl (Z.land (n c) 63) 6) (Z.land (n d) 63)))
                    :: code_points r3
              | [] => []
              end
          | [] => []
          end
      | [] => []
      end
  end.
Definition u (s : string) : ustr := code_points (text s).

(** [s.encode("utf-8")] *)
Definition encode_point (z : Z) : list Ascii.ascii :=
  let b n := chr (Z.to_nat n) in
  let tail k := b (Z.lor 128 (Z.land (Z.shiftr z k) 63)) in
  if z <? 128 then [b z]
  else if z <? 2048 then [b (Z.lor 192 (Z.shiftr z 6)); tail 0]
  else if z <? 65536 then [b (Z.lor 224 (Z.shiftr z 12)); tail 6; tail 0]
  else [b (Z.lor 240 (Z.shiftr z 18)); tail 12; tail 6; tail 0].
Definition s_of (l : ustr) : string := String.string_of_list_ascii (l ≫= encode_point).

Example text_round_trip : s_of (u "git log é/𝄞 文") = "git log é/𝄞 文" ∧ u "é𝄞" = [233; 119070].
Proof. vm_compute. split; reflexivity. Qed.

(** [c.isspace()] *)
Definition isspace (c : Z) : bool :=
  ((9 <=? c) && (c <=? 13)) || ((28 <=? c) && (c <=? 32)) || bool_decide (c ∈ [133; 160; 5760]) ||
  ((8192 <=? c) && (c <=? 8202)) || bool_decide (c ∈ [8232; 8233; 8239; 8287; 12288]).

Fixpoint lstrip (s : ustr) : ustr :=
  match s with
  | c :: r => if isspace c then lstrip r else s
  | [] => []
  end.
Definition rstrip (s : ustr) : ustr := reverse (lstrip (reverse s)).
(** [s.strip()] *)
Definition strip (s : ustr) : ustr := rstrip (lstrip s).

(** [s.startswith(p)] and [p in s] *)
Fixpoint startswith (p s : ustr) : bool :=
  match p, s with
  | [], _ => true
  | a :: p', b :: s' => (a =? b) && startswith p' s'
  | _ :: _, [] => false
  end.
Fixpoint contains (p s : ustr) : bool :=
  startswith p s || match s with [] => false | _ :: s' => contains p s' end.

(** [s.lower()], up to characters outside ASCII: the Kelvin sign and the
    dotted capital I are the only ones whose lower case holds an ASCII letter. *)
Definition lower_point (c : Z) : ustr :=
  if (65 <=? c) && (c <=? 90) then [c + 32]
  else if c =? 8490 then [107]
  else if c =? 304 then [105; 775]
  else [c].
Definition lower (s : ustr) : ustr := s ≫= lower_point.

(** [s.upper()], up to characters outside ASCII: those whose upper case holds
    an ASCII letter are listed. *)
Definition upper_point (c : Z) : ustr :=
  if (97 <=? c) && (c <=? 122) then [c - 32]
  else
    default [c] (snd <$> find (λ kv : Z * ustr, kv.1 =? c)
      [(223, [83; 83]); (305, [73]); (329, [700; 78]); (383, [83]); (496, [74; 780]); (7830, [72; 817]);
       (7831, [84; 776]); (7832, [87; 778]); (7833, [89; 778]); (7834, [65; 702]); (64256, [70; 70]);
       (64257, [70; 73]); (64258, [70; 76]); (64259, [70; 70; 73]); (64260, [70; 70; 76]); (64261, [83; 84]);
       (64262, [83; 84])]).
Definition upper (s : ustr) : ustr := s ≫= upper_point.

(** ** [fnmatch.fnmatchcase] *)

Inductive pattern_item :=
  | AnyRun                              (* an asterisk *)
  | AnyChar                             (* a question mark *)
  | OneOf (negated : bool) (ranges : list (Z * Z))
  | Literal (c : Z).
#[export] Instance pattern_item_eq_dec : EqDecision pattern_item.
Proof. solve_decision. Defined.

(** The members of a bracket, left to right: [x-y] is a range, empty when
    [x > y]; a hyphen at either end stands for itself. *)
Fixpoint bracket_ranges (l : ustr) : list (Z * Z) :=
  match l with
  | x :: ((h :: y :: r) as rest) => if h =? 45 then (x, y) :: bracket_ranges r else (x, x) :: bracket_ranges rest
  | x :: rest => (x, x) :: bracket_ranges rest
  | [] => []
  end.

(** The text of a bracket up to its closing character, which may not be the
    first member; [None] when the bracket is not closed. *)
Fixpoint until_close (l : ustr) : option (ustr * ustr) :=
  match l with
  | [] => None
  | c :: r => if c =? 93 then Some ([], r) else (λ p, (c :: p.1, p.2)) <$> until_close r
  end.
Definition bracket (l : ustr) : option (bool * ustr * ustr) :=
  let '(neg, r) := match l with 33 :: r => (true, r) | _ => (false, l) end in
  match r with
  | c :: r' => (λ p, (neg, c :: p.1, p.2)) <$> until_close r'
  | [] => None
  end.

(** [fnmatch.translate]; a pattern yields at most one item per character. *)
Fixpoint translate_fuel (fuel : nat) (pat : ustr) : list pattern_item :=
  match fuel, pat with
  | S f, c :: r =>
      if c =? 42 then AnyRun :: translate_fuel f r
      else if c =? 63 then AnyChar :: translate_fuel f r
      else if c =? 91 then
        match bracket r with
        | Some (neg, members, r') => OneOf neg (bracket_ranges members) :: translate_fuel f r'
        | None => Literal c :: translate_fuel f r
        end
      else Literal c :: translate_fuel f r
  | _, _ => []
  end.
Definition translate (pat : ustr) : list pattern_item := translate_fuel (length pat) pat.

Definition item_matches (i : pattern_item) (c : Z) : bool :=
  match i with
  | AnyRun => false
  | AnyChar => true
  | OneOf neg ranges => xorb neg (existsb (λ r : Z * Z, (r.1 <=? c) && (c <=? r.2)) ranges)
  | Literal x => x =? c
  end.
Fixpoint items_match (items : list pattern_item) (name : ustr) : bool :=
  match items with
  | [] => match name with [] => true | _ => false end
  | AnyRun :: items' =>
      (fix from (n : ustr) : bool :=
         items_match items' n || match n with [] => false | _ :: n' => from n' end) name
  | i :: items' => match name with c :: n => item_matches i c && items_match items' n | [] => false end
  end.
Definition fnmatchcase (name pat : ustr) : bool := items_match (translate pat) name.

Example fnmatch_examples :
  fnmatchcase (u "mcp_github_list") (u "mcp_github_*") = true ∧
  fnmatchcase (u "/etc/passwd") (u "/data/**") = false ∧
  fnmatchcase (u "/data/a/b.txt") (u "/data/**") = true ∧
  fnmatchcase (u "b") (u "[a-c]") = true ∧ fnmatchcase (u "b") (u "[!a-c]") = false ∧
  fnmatchcase (u "[x") (u "[x") = true ∧ fnmatchcase (u "]") (u "[]]") = true ∧
  fnmatchcase (u "-") (u "[a-]") = true ∧ fnmatchcase (u "b") (u "[c-a]") = false.
Proof. vm_compute. repeat split; reflexivity. Qed.

(** The reference semantics of a translated pattern: the name splits into one
    part per item, one character for a single item and any text for a run. *)
Inductive denotes : list pattern_item → ustr → Prop :=
  | denotes_nil : denotes [] []
  | denotes_run items part rest : denotes items rest → denotes (AnyRun :: items) (part ++ rest)
  | denotes_item i items c rest : item_matches i c = true → denotes items rest → denotes (i :: items) (c :: rest).

Lemma items_match_run items name :
  items_match (AnyRun :: items) name = true ↔ ∃ part rest, name = part ++ rest ∧ items_match items rest = true.
Proof.
  split.
  - induction name as [|c n IH]; cbn [items_match]; intros [H|H]%orb_true_iff; try done;
      try (by exists [], []); [by exists [], (c :: n)|].
    destruct (IH H) as (part & rest & -> & Hr). by exists (c :: part), rest.
  - intros (part & rest & -> & Hr). induction part as [|c part IH].
    + change ([] ++ rest) with rest. destruct rest; cbn [items_match]; by rewrite Hr.
    + cbn [app items_match] in *. rewrite IH. apply orb_true_r.
Qed.

Lemma items_match_denotes items name : items_match items name = true ↔ denotes items name.
Proof.
  revert name. induction items as [|i items IH]; intros name.
  - destruct name; split; try done; [constructor|inversion 1].
  - assert (Hone : i ≠ AnyRun → items_match (i :: items) name =
      match name with c :: n => item_matches i c && items_match items n | [] => false end) by (by destruct i).
    split.
    + destruct (decide (i = AnyRun)) as [->|Hi].
      * intros (part & rest & -> & Hr)%items_match_run. constructor. by apply IH.
      * rewrite (Hone Hi). destruct name as [|c n]; [done|]. intros H. bools. constructor; [done|]. by apply IH.
    + inversion 1 as [|? part rest|? ? c rest Hc Hr]; subst.
      * apply items_match_run. eexists _, _. split; [done|]. by apply IH.
      * rewrite Hone by (by intros ->). rewrite Hc. by apply IH.
Qed.

(** ** [json.dumps] with its defaults *)

Definition unicode_escape (z : Z) : list Ascii.ascii := chr 92 :: chr 117 :: text (Sha256.hex_word 4 z).

(** [ensure_ascii=True] *)
Definition escape_point (z : Z) : list Ascii.ascii :=
  if (z <? 127) then escape_char (chr (Z.to_nat z))
  else if z <? 65536 then unicode_escape z
  else
    let v := z - 65536 in
    unicode_escape (Z.lor 55296 (Z.land (Z.shiftr v 10) 1023)) ++ unicode_escape (Z.lor 56320 (Z.land v 1023)).
Definition dumps_ascii_str (s : string) : list Ascii.ascii :=
  quote :: (code_points (text s) ≫= escape_point) ++ [quote].

(** Items separated by a comma and a space. *)
Fixpoint join_spaced (close : Ascii.ascii) (parts : list (list Ascii.ascii)) : list Ascii.ascii :=
  match parts with
  | [] => [close]
  | [p] => p ++ [close]
  | p :: ps => p ++ chr 44 :: chr 32 :: join_spaced close ps
  end.

(** A NaN and the infinities are written as the names JavaScript uses. *)
Definition dumps_float (f : pyfloat) : list Ascii.ascii :=
  match float_value f with
  | Some _ => text (float_repr f)
  | None => text (if bool_decide (float_repr f = "nan") then "NaN"
                  else if bool_decide (float_repr f = "-inf") then "-Infinity" else "Infinity")
  end.
Fixpoint dumps_default (v : json) : list Ascii.ascii :=
  match v with
  | JNull => text "null"
  | JBool true => text "true"
  | JBool false => text "false"
  | JInt z => text (pretty z)
  | JFloat f => dumps_float f
  | JStr s => dumps_ascii_str s
  | JList l => chr 91 :: join_spaced (chr 93) (dumps_default <$> l)
  | JObj items =>
      chr 123 :: join_spaced (chr 125)
        ((λ kv, dumps_ascii_str kv.1 ++ chr 58 :: chr 32 :: dumps_default kv.2) <$> items)
  end.

Example dumps_default_example :
  String.string_of_list_ascii (dumps_default (JObj [("k", JList [JInt 1; JStr "é/𝄞"; JNull]); ("x", JBool true)])) =
  String.string_of_list_ascii (text "{" ++ dumps_str "k" ++ text ": [1, " ++ [quote] ++ text "\u00e9/\ud834\udd1e" ++ [quote] ++
          text ", null], " ++ dumps_str "x" ++ text ": true}").
Proof. vm_compute. reflexivity. Qed.

(** ** Laws of the string operations *)

Lemma startswith_app p s : startswith p s = true ↔ ∃ r, s = p ++ r.
Proof.
  revert s. induction p as [|a p IH]; intros s; [split; [by exists s|done]|].
  destruct s as [|b s]; cbn; [split; [done|by intros [? ?]]|]. rewrite andb_true_iff, Z.eqb_eq, IH.
  split; [by intros [-> [r ->]]; exists r|intros [r [= -> ->]]; eauto].
Qed.

Lemma contains_spec p s : contains p s = true ↔ ∃ l r, s = l ++ p ++ r.
Proof.
  induction s as [|c s IH]; cbn [contains]; rewrite orb_true_iff, startswith_app.
  - split; [intros [[r Hr]|?]; [by exists [], r|done]|].
    intros (l & r & H). destruct l; [|done]. left. by exists r.
  - rewrite IH. split.
    + intros [[r Hr]|(l & r & ->)]; [by exists [], r|by exists (c :: l), r].
    + intros ([|x l] & r & H); [left; by exists r|]. right. injection H as -> ->. by exists l, r.
Qed.

(** What [lstrip] removes. *)
Lemma lstrip_split s : ∃ w, s = w ++ lstrip s ∧ forallb isspace w = true.
Proof.
  induction s as [|c s (w & Hw & Hs)]; [by exists []|]. cbn. destruct (isspace c) eqn:E; [|by exists []].
  exists (c :: w). cbn. rewrite E. split; [by f_equal|done].
Qed.
Lemma lstrip_head s c r : lstrip s = c :: r → isspace c = false.
Proof. induction s as [|x s IH]; cbn; [done|]. destruct (isspace x) eqn:E; [done|]. by intros [= -> _]. Qed.
Lemma forallb_reverse {A} (f : A → bool) l : forallb f (reverse l) = forallb f l.
Proof. apply forallb_perm. apply reverse_Permutation. Qed.
Lemma strip_split s : ∃ w w', s = w ++ strip s ++ w' ∧ forallb isspace w = true ∧ forallb isspace w' = true.
Proof.
  destruct (lstrip_split s) as (w & Hw & Hs). destruct (lstrip_split (reverse (lstrip s))) as (v & Hv & Hsv).
  exists w, (reverse v). unfold strip, rstrip. split; [|by rewrite forallb_reverse].
  rewrite Hw at 1. f_equal. rewrite <-reverse_app, <-Hv. by rewrite reverse_involutive.
Qed.

Lemma lstrip_id s : match s with c :: _ => isspace c = false | [] => True end → lstrip s = s.
Proof. destruct s as [|c s]; cbn; [done|]. by intros ->. Qed.
Lemma lstrip_idem s : lstrip (lstrip s) = lstrip s.
Proof. apply lstrip_id. destruct (lstrip s) as [|c r] eqn:E; [done|]. by eapply lstrip_head. Qed.
Lemma rstrip_prefix s : ∃ w, s = rstrip s ++ w.
Proof.
  destruct (lstrip_split (reverse s)) as (w & Hw & _). exists (reverse w). unfold rstrip.
  by rewrite <-reverse_app, <-Hw, reverse_involutive.
Qed.
Lemma strip_idem s : strip (strip s) = strip s.
Proof.
  unfold strip. set (t := lstrip s). assert (Ht : lstrip (rstrip t) = rstrip t).
  { apply lstrip_id. destruct (rstrip t) as [|c r] eqn:E; [done|]. destruct (rstrip_prefix t) as [w Hw].
    rewrite E in Hw. by eapply (lstrip_head s c (r ++ w)). }
  rewrite Ht. unfold rstrip. by rewrite reverse_involutive, lstrip_idem.
Qed.
