(* ===== verification/JsonParse.v ===== *)
(** * [json.loads]

    The repositories read stored JSON texts back with [json.loads]
    (src/src/tianshu/storage/system_audit_repo.py, decision_repo.py and
    others).  This file defines the decoder of the standard library on UTF-8
    texts and shows that it inverts canonical JSON.

    Every nested call consumes a character, so the length of the text is
    enough fuel.  [float_of] is Python's [float()] on a numeral. *)

From stdpp Require Import pretty.
From S2P Require Import Prelude.
From S2P Require Import Sql.
From S2P Require Import Canonical.

Definition digit (c : Ascii.ascii) : bool := bool_decide (48 ≤ ord c ≤ 57)%nat.

(** The longest prefix whose characters satisfy [p], and the rest. *)
Fixpoint span (p : Ascii.ascii → bool) (l : list Ascii.ascii) : list Ascii.ascii * list Ascii.ascii :=
  match l with
  | c :: r => if p c then let '(a, b) := span p r in (c :: a, b) else ([], l)
  | [] => ([], [])
  end.

Definition json_space (c : Ascii.ascii) : bool := bool_decide (ord c ∈ [32; 9; 10; 13]%nat).
Definition skip_space (l : list Ascii.ascii) : list Ascii.ascii := (span json_space l).2.

(** [prefix] removed from [l] *)
Fixpoint strip (prefix l : list Ascii.ascii) : option (list Ascii.ascii) :=
  match prefix, l with
  | [], _ => Some l
  | c :: p, d :: r => if bool_decide (c = d) then strip p r else None
  | _ :: _, [] => None
  end.

(** ** Numbers: an optional minus, an integer without leading zeros, an
    optional fraction and an optional exponent *)

Definition scan_integer (l : list Ascii.ascii) : option (list Ascii.ascii * list Ascii.ascii) :=
  match l with
  | c :: r =>
      if bool_decide (ord c = 48%nat) then Some ([c], r)
      else if digit c then Some (span digit l) else None
  | [] => None
  end.
Definition scan_fraction (l : list Ascii.ascii) : list Ascii.ascii * list Ascii.ascii :=
  match l with
  | c :: r =>
      if bool_decide (ord c = 46%nat) then
        match span digit r with (d :: ds, rest) => (c :: d :: ds, rest) | ([], _) => ([], l) end
      else ([], l)
  | [] => ([], [])
  end.
Definition scan_exponent (l : list Ascii.ascii) : list Ascii.ascii * list Ascii.ascii :=
  match l with
  | c :: r =>
      if bool_decide (ord c ∈ [101; 69]%nat) then
        let '(sign, r') := match r with
                           | s :: r1 => if bool_decide (ord s ∈ [45; 43]%nat) then ([s], r1) else ([], r)
                           | [] => ([], [])
                           end in
        match span digit r' with
        | (d :: ds, rest) => (c :: sign ++ d :: ds, rest)
        | ([], _) => ([], l)
        end
      else ([], l)
  | [] => ([], [])
  end.

Record numeral := Numeral { nu_minus : bool; nu_integer : list Ascii.ascii; nu_rest : list Ascii.ascii }.

Definition scan_number (l : list Ascii.ascii) : option (numeral * list Ascii.ascii) :=
  let '(minus, l1) := match l with
                      | c :: r => if bool_decide (ord c = 45%nat) then (true, r) else (false, l)
                      | [] => (false, [])
                      end in
  match scan_integer l1 with
  | None => None
  | Some (int, l2) =>
      let '(frac, l3) := scan_fraction l2 in
      let '(exp, l4) := scan_exponent l3 in
      Some (Numeral minus int (frac ++ exp), l4)
  end.

Definition numeral_text (n : numeral) : list Ascii.ascii :=
  (if nu_minus n then [chr 45] else []) ++ nu_integer n ++ nu_rest n.
Definition digits_value (acc : Z) (l : list Ascii.ascii) : Z :=
  foldl (λ acc c, acc * 10 + (Z.of_nat (ord c) - 48)) acc l.
Definition numeral_int (n : numeral) : Z :=
  let z := digits_value 0 (nu_integer n) in if nu_minus n then - z else z.

(** ** Strings *)

Definition hex_value (c : Ascii.ascii) : option Z :=
  let n := Z.of_nat (ord c) in
  if (48 <=? n) && (n <=? 57) then Some (n - 48)
  else if (97 <=? n) && (n <=? 102) then Some (n - 87)
  else if (65 <=? n) && (n <=? 70) then Some (n - 55)
  else None.
Definition hex4 (a b c d : Ascii.ascii) : option Z :=
  match hex_value a, hex_value b, hex_value c, hex_value d with
  | Some a, Some b, Some c, Some d => Some (((a * 16 + b) * 16 + c) * 16 + d)
  | _, _, _, _ => None
  end.

Definition byte (z : Z) : Ascii.ascii := chr (Z.to_nat z).
Definition utf8 (p : Z) : list Ascii.ascii :=
  if p <? 128 then [byte p]
  else if p <? 2048 then [byte (192 + p / 64); byte (128 + p mod 64)]
  else if p <? 65536 then [byte (224 + p / 4096); byte (128 + p / 64 mod 64); byte (128 + p mod 64)]
  else [byte (240 + p / 262144); byte (128 + p / 4096 mod 64); byte (128 + p / 64 mod 64);
        byte (128 + p mod 64)].

(** The character after a backslash, other than [u]. *)
Definition simple_escape (c : Ascii.ascii) : option Ascii.ascii :=
  let n := ord c in
  if bool_decide (n ∈ [34; 92; 47]%nat) then Some c
  else if bool_decide (n = 98%nat) then Some (chr 8)
  else if bool_decide (n = 102%nat) then Some (chr 12)
  else if bool_decide (n = 110%nat) then Some (chr 10)
  else if bool_decide (n = 114%nat) then Some (chr 13)
  else if bool_decide (n = 116%nat) then Some (chr 9)
  else None.

(** The text up to the closing quote, and what follows it.  A high surrogate
    escape joins with the low surrogate escape after it. *)
Fixpoint scan_string (l : list Ascii.ascii) : option (list Ascii.ascii * list Ascii.ascii) :=
  let put p o := match o with Some (s, r) => Some (p ++ s, r) | None => None end in
  match l with
  | [] => None
  | c :: r =>
      if bool_decide (ord c = 34%nat) then Some ([], r)
      else if bool_decide (ord c = 92%nat) then
        match r with
        | e :: r1 =>
            if bool_decide (ord e = 117%nat) then
              match r1 with
              | a :: b :: x :: y :: r2 =>
                  match hex4 a b x y with
                  | None => None
                  | Some p =>
                      let alone := put (utf8 p) (scan_string r2) in
                      if (55296 <=? p) && (p <=? 56319) then
                        match r2 with
                        | bs :: u :: a' :: b' :: x' :: y' :: r3 =>
                            if bool_decide (ord bs = 92%nat) && bool_decide (ord u = 117%nat) then
                              match hex4 a' b' x' y' with
                              | Some q =>
                                  if (56320 <=? q) && (q <=? 57343)
                                  then put (utf8 (65536 + (p - 55296) * 1024 + (q - 56320))) (scan_string r3)
                                  else alone
                              | None => None
                              end
                            else alone
                        | _ => alone
                        end
                      else alone
                  end
              | _ => None
              end
            else match simple_escape e with Some x => put [x] (scan_string r1) | None => None end
        | [] => None
        end
      else if bool_decide (ord c < 32)%nat then None
      else put [c] (scan_string r)
  end.

(** ** Values *)

(** [d[k] = v]: a key keeps the position of its first insertion. *)
Fixpoint dict_set (items : list (string * json)) (k : string) (v : json) : list (string * json) :=
  match items with
  | [] => [(k, v)]
  | (k', v') :: r => if bool_decide (k' = k) then (k, v) :: r else (k', v') :: dict_set r k v
  end.

Definition str_of (l : list Ascii.ascii) : string := String.string_of_list_ascii l.

(** [constants] is false for a [parse_constant] hook that raises. *)
Section decoder.
Context (constants : bool) (float_of : string → pyfloat).

Definition number (l : list Ascii.ascii) : option (json * list Ascii.ascii) :=
  match scan_number l with
  | Some (n, r) =>
      Some (match nu_rest n with
            | [] => JInt (numeral_int n)
            | _ => JFloat (float_of (str_of (numeral_text n)))
            end, r)
  | None => None
  end.

(** The constants [json.loads] accepts, first match. *)
Definition constant (l : list Ascii.ascii) : option (json * list Ascii.ascii) :=
  let try name v k :=
    match strip (text name) l with Some r => Some (v, r) | None => k end in
  try "null" JNull (try "true" (JBool true) (try "false" (JBool false)
  (if constants then
     try "NaN" (JFloat (PyFloat None "nan")) (try "Infinity" (JFloat (PyFloat None "inf"))
     (try "-Infinity" (JFloat (PyFloat None "-inf")) None))
   else None))).

(** [scan_once]; [elements] and [members] run after the opening bracket, past
    the white space, with at least one item to read. *)
Fixpoint scan_once (fuel : nat) (l : list Ascii.ascii) {struct fuel} :
    option (json * list Ascii.ascii) :=
  match fuel, l with
  | O, _ | _, [] => None
  | S n, c :: r =>
      if bool_decide (ord c = 34%nat) then
        match scan_string r with Some (s, r') => Some (JStr (str_of s), r') | None => None end
      else if bool_decide (ord c = 91%nat) then
        match skip_space r with
        | [] => None
        | d :: r' =>
            if bool_decide (ord d = 93%nat) then Some (JList [], r')
            else match elements n (d :: r') with
                 | Some (vs, r'') => Some (JList vs, r'')
                 | None => None
                 end
        end
      else if bool_decide (ord c = 123%nat) then
        match skip_space r with
        | [] => None
        | d :: r' =>
            if bool_decide (ord d = 125%nat) then Some (JObj [], r')
            else match members n [] (d :: r') with
                 | Some (items, r'') => Some (JObj items, r'')
                 | None => None
                 end
        end
      else match constant l with Some x => Some x | None => number l end
  end
with elements (fuel : nat) (l : list Ascii.ascii) {struct fuel} :
    option (list json * list Ascii.ascii) :=
  match fuel with
  | O => None
  | S n =>
      match scan_once n l with
      | None => None
      | Some (v, r) =>
          match skip_space r with
          | c :: r' =>
              if bool_decide (ord c = 93%nat) then Some ([v], r')
              else if bool_decide (ord c = 44%nat) then
                match elements n (skip_space r') with
                | Some (vs, r'') => Some (v :: vs, r'')
                | None => None
                end
              else None
          | [] => None
          end
      end
  end
with members (fuel : nat) (acc : list (string * json)) (l : list Ascii.ascii) {struct fuel} :
    option (list (string * json) * list Ascii.ascii) :=
  match fuel, l with
  | O, _ | _, [] => None
  | S n, q :: r =>
      if bool_decide (ord q = 34%nat) then
        match scan_string r with
        | None => None
        | Some (k, r1) =>
            match skip_space r1 with
            | colon :: r2 =>
                if bool_decide (ord colon = 58%nat) then
                  match scan_once n (skip_space r2) with
                  | None => None
                  | Some (v, r3) =>
                      let acc' := dict_set acc (str_of k) v in
                      match skip_space r3 with
                      | c :: r4 =>
                          if bool_decide (ord c = 125%nat) then Some (acc', r4)
                          else if bool_decide (ord c = 44%nat) then members n acc' (skip_space r4)
                          else None
                      | [] => None
                      end
                  end
                else None
            | [] => None
            end
        end
      else None
  end.

(** [None] is the [ValueError] of the decoder or of the hook. *)
Definition loads_with (s : string) : option json :=
  let l := text s in
  match scan_once (length l) (skip_space l) with
  | Some (v, r) => match skip_space r with [] => Some v | _ => None end
  | None => None
  end.
End decoder.

(** [json.loads(text)] *)
Definition loads (float_of : string → pyfloat) (s : string) : option json := loads_with true float_of s.

Example loads_example :
  loads (λ s, PyFloat None s)
    (str_of (text " {" ++ dumps_str "a\b" ++ text " : [1, -20 ,3.5e2,true, {}], " ++
             dumps_str "k" ++ text ":null}")) =
  Some (JObj [("a\b", JList [JInt 1; JInt (-20); JFloat (PyFloat None "3.5e2"); JBool true; JObj []]);
              ("k", JNull)]).
Proof. vm_compute. reflexivity. Qed.

(** ** Reading back what [json.dumps] wrote *)

(** What follows a value inside a text without white space. *)
Definition sep (r : list Ascii.ascii) : bool :=
  match r with [] => true | c :: _ => bool_decide (ord c ∈ [44; 93; 125]%nat) end.

Lemma sep_head p c r :
  sep (c :: r) = true → (∀ n, n ∈ [44; 93; 125]%nat → p (chr n) = false) → p c = false.
Proof.
  unfold sep. intros Hs Hp. bools. rewrite <-(Ascii.ascii_nat_embedding c). by apply Hp.
Qed.

Lemma span_app p l r :
  (∀ c r', r = c :: r' → p c = false) →
  span p (l ++ r) = let '(a, b) := span p l in (a, b ++ r).
Proof.
  intros Hr. induction l as [|c l IH]; cbn.
  - destruct r as [|c r]; [done|]. cbn. by rewrite (Hr _ _ eq_refl).
  - destruct (p c); [|done]. rewrite IH. by destruct (span p l).
Qed.

Ltac separators := let n := fresh in let H := fresh in intros n H; set_unfold in H;
  destruct_or? H; subst; [reflexivity..].

Lemma span_digit_app l r : sep r = true → span digit (l ++ r) = let '(a, b) := span digit l in (a, b ++ r).
Proof. intros Hs. apply span_app. intros c r' ->. eapply sep_head; [done|]. separators. Qed.

Lemma scan_integer_app l a b r :
  sep r = true → scan_integer l = Some (a, b) → scan_integer (l ++ r) = Some (a, b ++ r).
Proof.
  intros Hs. destruct l as [|c l]; [done|]. unfold scan_integer. cbn [app].
  case_bool_decide; [by intros [= <- <-]|]. destruct (digit c) eqn:Ed; [|done].
  intros E%(inj Some). change (c :: l ++ r) with ((c :: l) ++ r). by rewrite span_digit_app, E.
Qed.

Lemma scan_fraction_app l r :
  sep r = true → scan_fraction (l ++ r) = let '(a, b) := scan_fraction l in (a, b ++ r).
Proof.
  intros Hs. destruct l as [|c l]; cbn [app].
  - destruct r as [|c r]; [done|]. unfold scan_fraction.
    rewrite (sep_head (λ c, bool_decide (ord c = 46%nat)) c r Hs) by separators. done.
  - unfold scan_fraction. case_bool_decide; [|done]. rewrite span_digit_app by done.
    by destruct (span digit l) as [[|d ds] rest].
Qed.

Lemma scan_exponent_app l r :
  sep r = true → scan_exponent (l ++ r) = let '(a, b) := scan_exponent l in (a, b ++ r).
Proof.
  intros Hs. destruct l as [|c l]; cbn [app].
  - destruct r as [|c r]; [done|]. unfold scan_exponent.
    rewrite (sep_head (λ c, bool_decide (ord c ∈ [101; 69]%nat)) c r Hs) by separators. done.
  - unfold scan_exponent. case_bool_decide; [|done].
    destruct l as [|s l]; cbn [app].
    + destruct r as [|s r]; [done|].
      rewrite (sep_head (λ c, bool_decide (ord c ∈ [45; 43]%nat)) s r Hs) by separators.
      cbn. by rewrite (sep_head digit s r Hs) by separators.
    + case_bool_decide.
      * rewrite span_digit_app by done. by destruct (span digit l) as [[|d ds] rest].
      * change (s :: l ++ r) with ((s :: l) ++ r). rewrite span_digit_app by done.
        by destruct (span digit (s :: l)) as [[|d ds] rest].
Qed.

Lemma scan_number_app l n r :
  sep r = true → scan_number l = Some (n, []) → scan_number (l ++ r) = Some (n, r).
Proof.
  intros Hs. unfold scan_number. destruct l as [|c l]; [done|]. cbn [app].
  assert (Hgo : ∀ m l, match scan_integer l with
      | Some (int, l2) => let '(frac, l3) := scan_fraction l2 in
          let '(exp, l4) := scan_exponent l3 in Some (Numeral m int (frac ++ exp), l4)
      | None => None end = Some (n, []) →
    match scan_integer (l ++ r) with
      | Some (int, l2) => let '(frac, l3) := scan_fraction l2 in
          let '(exp, l4) := scan_exponent l3 in Some (Numeral m int (frac ++ exp), l4)
      | None => None end = Some (n, r)).
  { intros m l' H. destruct (scan_integer l') as [[int l2]|] eqn:Ei; [|done].
    rewrite (scan_integer_app l' int l2 r Hs Ei), (scan_fraction_app l2 r Hs).
    destruct (scan_fraction l2) as [frac l3]. rewrite (scan_exponent_app l3 r Hs).
    destruct (scan_exponent l3) as [exp l4]. by simplify_eq. }
  case_bool_decide; [by apply Hgo|]. intros H1. by apply (Hgo false (c :: l)).
Qed.

(** A number starts with a digit, or with a minus and a digit. *)
Lemma scan_number_head l n b :
  scan_number l = Some (n, b) →
  (∃ c r, l = c :: r ∧ digit c = true) ∨ (∃ c d r, l = c :: d :: r ∧ ord c = 45%nat ∧ digit d = true).
Proof.
  unfold scan_number. destruct l as [|c l]; [done|].
  assert (Hd : ∀ l x, scan_integer l = Some x → ∃ c r, l = c :: r ∧ digit c = true).
  { intros [|c' l'] x; [done|]. unfold scan_integer. case_bool_decide as E; intros Hx.
    - exists c', l'. split; [done|]. unfold digit. rewrite E. done.
    - destruct (digit c') eqn:Ed; [|done]. eauto. }
  case_bool_decide as E.
  - destruct (scan_integer l) as [x|] eqn:Ei; [|done]. apply Hd in Ei as (d & r & -> & Hdig). eauto 10.
  - destruct (scan_integer (c :: l)) as [x|] eqn:Ei; [|done]. apply Hd in Ei as (d & r & ? & Hdig). eauto.
Qed.

Lemma digit_ne c d : digit c = true → digit d = false → c ≠ d.
Proof. congruence. Qed.

Lemma strip_ne p d l c : c ≠ d → strip (d :: p) (c :: l) = None.
Proof. intros Hne. cbn. by rewrite bool_decide_eq_false_2. Qed.

Lemma constant_number k l n b r : scan_number l = Some (n, b) → constant k (l ++ r) = None.
Proof.
  intros [(c & t & -> & Hc)|(c & d & t & -> & Hc & Hd)]%scan_number_head; unfold constant; cbn [app].
  - cbn [text String.list_ascii_of_string].
    cbv zeta beta. do 3 (rewrite strip_ne; [|apply digit_ne; [done|reflexivity]]). destruct k; [|done].
    do 3 (rewrite strip_ne; [|apply digit_ne; [done|reflexivity]]). done.
  - assert (c = chr 45) as -> by (by rewrite <-(Ascii.ascii_nat_embedding c); unfold ord in Hc; rewrite Hc).
    cbn [text String.list_ascii_of_string]. cbv zeta beta. do 3 (rewrite strip_ne by discriminate).
    destruct k; [|done]. do 2 (rewrite strip_ne by discriminate).
    cbn. rewrite (bool_decide_eq_true_2 (_ = chr 45)) by done.
    rewrite bool_decide_eq_false_2; [done|]. by apply not_eq_sym, digit_ne.
Qed.

(** *** Integers *)

#[local] Arguments digits_value : simpl never.

Lemma pretty_N_char_ord (x : N) : (x < 10)%N → ord (pretty_N_char x) = (48 + N.to_nat x)%nat.
Proof.
  intros Hx. destruct x as [|p]; [done|].
  assert (p = 1 ∨ p = 2 ∨ p = 3 ∨ p = 4 ∨ p = 5 ∨ p = 6 ∨ p = 7 ∨ p = 8 ∨ p = 9)%positive as H by lia.
  destruct_or! H; by subst.
Qed.

Lemma pretty_N_go_value x s :
  digits_value 0 (text (pretty_N_go x s)) = digits_value (Z.of_N x) (text s).
Proof.
  revert s. induction (N.lt_wf_0 x) as [x _ IH]; intros s.
  assert (x = 0 ∨ 0 < x)%N as [->|Hx] by lia; [done|].
  rewrite pretty_N_go_step by done. rewrite IH by (by apply N.div_lt). unfold digits_value. cbn.
  rewrite pretty_N_char_ord by (by apply N.mod_lt). f_equal.
  rewrite N2Z.inj_div. pose proof (N.div_mod' x 10). zify. lia.
Qed.

Lemma pretty_N_go_digits x s :
  forallb digit (text s) = true → forallb digit (text (pretty_N_go x s)) = true.
Proof.
  revert s. induction (N.lt_wf_0 x) as [x _ IH]; intros s Hs.
  assert (x = 0 ∨ 0 < x)%N as [->|Hx] by lia; [done|].
  rewrite pretty_N_go_step by done. apply IH; [by apply N.div_lt|]. cbn. apply andb_true_iff.
  split; [|done]. unfold digit. pose proof (N.mod_lt x 10 ltac:(done)). rewrite pretty_N_char_ord by (by apply N.mod_lt). bools_goal.
  revert H. generalize (x mod 10)%N. lia.
Qed.

Lemma pretty_N_go_first x s :
  (0 < x)%N → ∃ c r, text (pretty_N_go x s) = c :: r ∧ ord c ≠ 48%nat.
Proof.
  revert s. induction (N.lt_wf_0 x) as [x _ IH]; intros s Hx.
  rewrite pretty_N_go_step by done. destruct (N.eq_0_gt_0_cases (x / 10)) as [E|E].
  - rewrite E. eexists _, _. split; [done|]. pose proof (N.mod_lt x 10 ltac:(done)). rewrite pretty_N_char_ord by (by apply N.mod_lt).
    pose proof (N.div_mod' x 10) as Hdm. rewrite E in Hdm. lia.
  - apply IH; [by apply N.div_lt|done].
Qed.

Lemma span_all p l : forallb p l = true → span p l = (l, []).
Proof. induction l as [|c l IH]; cbn; [done|]. intros [-> Hl]%andb_true_iff. by rewrite IH. Qed.

(** The integer part of the text of a positive number. *)
Lemma scan_integer_pretty (p : positive) :
  let l := text (pretty_N_go (N.pos p) "") in
  scan_integer l = Some (l, []) ∧ digits_value 0 l = Z.pos p ∧ ∃ c r, l = c :: r ∧ digit c = true.
Proof.
  cbv zeta. destruct (pretty_N_go_first (N.pos p) "" ltac:(lia)) as (c & r & E & Hc).
  pose proof (pretty_N_go_digits (N.pos p) "" eq_refl) as Hd. pose proof (pretty_N_go_value (N.pos p) "") as Hv.
  rewrite E in *. assert (Hd' := Hd). cbn [forallb] in Hd'. apply andb_true_iff in Hd' as [Hdc _].
  split; [|split; [done|eauto]]. unfold scan_integer. rewrite bool_decide_eq_false_2 by done.
  by rewrite Hdc, span_all.
Qed.

Lemma text_pretty_pos p : text (pretty (Z.pos p)) = text (pretty_N_go (N.pos p) "").
Proof. done. Qed.
Lemma text_pretty_neg p : text (pretty (Z.neg p)) = chr 45 :: text (pretty_N_go (N.pos p) "").
Proof. done. Qed.

Lemma scan_number_pretty z :
  ∃ n, scan_number (text (pretty z)) = Some (n, []) ∧ nu_rest n = [] ∧ numeral_int n = z.
Proof.
  destruct z as [|p|p].
  - eexists. split; [reflexivity|]. done.
  - rewrite text_pretty_pos. destruct (scan_integer_pretty p) as (Hs & Hv & c & r & E & Hc).
    exists (Numeral false (text (pretty_N_go (N.pos p) "")) []). unfold scan_number. rewrite E in *.
    assert (Hm : ord c ≠ 45%nat) by (unfold digit in Hc; bools; lia).
    rewrite bool_decide_eq_false_2 by done. rewrite Hs. cbn. unfold numeral_int. cbn. auto.
  - rewrite text_pretty_neg. destruct (scan_integer_pretty p) as (Hs & Hv & c & r & E & Hc).
    exists (Numeral true (text (pretty_N_go (N.pos p) "")) []). unfold scan_number.
    rewrite bool_decide_eq_true_2 by done. rewrite Hs. split; [done|]. split; [done|].
    unfold numeral_int. cbn [nu_minus nu_integer]. by rewrite Hv.
Qed.

(** *** Strings *)

Lemma scan_string_escape c r :
  scan_string (escape_char c ++ r) =
    match scan_string r with Some (s, r') => Some (c :: s, r') | None => None end.
Proof. destruct c as [[] [] [] [] [] [] [] []]; reflexivity. Qed.

Lemma scan_string_escaped s r :
  scan_string ((s ≫= escape_char) ++ quote :: r) = Some (s, r).
Proof.
  induction s as [|c s IH]; [reflexivity|]. cbn [mbind list_bind].
  rewrite <-app_assoc, scan_string_escape. fold (s ≫= escape_char). change (list_bind _ _ escape_char s) with (s ≫= escape_char).
  by rewrite IH.
Qed.

(** *** Values *)

#[local] Arguments dumps_str : simpl never.

Section round_trip.
Context (constants : bool) (float_of : string → pyfloat).

(** What [float.__repr__] guarantees of a finite float: its text is a numeral
    that [float()] maps back to it.  The keys of a dict are distinct. *)
Fixpoint loadable (v : json) : bool :=
  match v with
  | JFloat f => bool_decide (number float_of (text (float_repr f)) = Some (JFloat f, []))
  | JList l => forallb loadable l
  | JObj items => bool_decide (NoDup items.*1) && forallb (λ kv, loadable kv.2) items
  | _ => true
  end.

Lemma number_app l v r :
  sep r = true → number float_of l = Some (v, []) → number float_of (l ++ r) = Some (v, r).
Proof.
  intros Hs. unfold number. destruct (scan_number l) as [[n b]|] eqn:E; [|done].
  intros [= <- ->]. by rewrite (scan_number_app l n r Hs E).
Qed.

Lemma number_int z : number float_of (text (pretty z)) = Some (JInt z, []).
Proof. unfold number. destruct (scan_number_pretty z) as (n & -> & -> & ->). done. Qed.

(** Whatever [number] accepts, [scan_once] reads as a number. *)
Lemma scan_once_number l v r n :
  sep r = true → number float_of l = Some (v, []) →
  scan_once constants float_of (S n) (l ++ r) = Some (v, r).
Proof.
  intros Hs Hn. pose proof (number_app l v r Hs Hn) as Hr. unfold number in Hn.
  destruct (scan_number l) as [[m b]|] eqn:E; [|done].
  pose proof (constant_number constants l m b r E) as Hc. apply scan_number_head in E.
  destruct l as [|c l]; [destruct E as [(?&?&?&?)|(?&?&?&?&?)]; done|].
  assert (Hnot : ord c ≠ 34%nat ∧ ord c ≠ 91%nat ∧ ord c ≠ 123%nat).
  { destruct E as [(c'&?&?&Hd)|(c'&?&?&?&Hm&_)]; simplify_eq; [unfold digit in Hd; bools|]; lia. }
  destruct Hnot as (H1 & H2 & H3). cbn [app] in *. cbn [scan_once].
  rewrite !bool_decide_eq_false_2 by done. by rewrite Hc.
Qed.

(** The first character of a value: no white space and no closing bracket. *)
Definition opens (l : list Ascii.ascii) : bool :=
  match l with
  | [] => false
  | c :: _ => bool_decide (ord c ∈ [110; 116; 102; 34; 91; 123; 45]%nat) || digit c
  end.

Lemma opens_app l r : opens l = true → opens (l ++ r) = true.
Proof. by destruct l. Qed.

Lemma join_opens close p ps r : opens p = true → opens (join close (p :: ps) ++ r) = true.
Proof. intros Hp. destruct ps; cbn [join]; rewrite <-app_assoc; by apply opens_app. Qed.

Lemma join_cons2 close p q ps : join close (p :: q :: ps) = p ++ chr 44 :: join close (q :: ps).
Proof. done. Qed.
Lemma join_cons1 close p : join close [p] = p ++ [close].
Proof. done. Qed.

Lemma dumps_str_opens s r : opens (dumps_str s ++ r) = true.
Proof. reflexivity. Qed.

Lemma opens_skip l : opens l = true →
  skip_space l = l ∧ ∃ c r, l = c :: r ∧ ord c ≠ 93%nat ∧ ord c ≠ 125%nat.
Proof.
  destruct l as [|c l]; [done|]. intros [H|H]%orb_true_iff; unfold digit in *; bools.
  - unfold skip_space. cbn. unfold json_space. rewrite bool_decide_eq_false_2 by (set_unfold; lia).
    split; [done|]. eexists _, _. split; [done|]. set_unfold. lia.
  - unfold skip_space. cbn. unfold json_space. rewrite bool_decide_eq_false_2 by (set_unfold; lia).
    split; [done|]. eexists _, _. split; [done|]. lia.
Qed.

Lemma number_opens l x : number float_of l = Some x → opens l = true.
Proof.
  unfold number. destruct (scan_number l) as [[n b]|] eqn:E; [|done]. intros _.
  apply scan_number_head in E as [(c & r & -> & Hd)|(c & d & r & -> & Hc & _)]; cbn.
  - by rewrite Hd, orb_true_r.
  - apply orb_true_iff. left. bools_goal. rewrite Hc. set_solver.
Qed.

Lemma dumps_opens v : loadable v = true → opens (dumps v) = true.
Proof.
  destruct v as [|[]|z|f|s|l|l]; cbn; intros H; try reflexivity.
  - eapply number_opens, number_int.
  - bools. by eapply number_opens.
Qed.

(** A separator is no white space. *)
Lemma sep_skip r : sep r = true → skip_space r = r.
Proof.
  destruct r as [|c r]; [done|]. intros Hs. unfold skip_space. cbn.
  by rewrite (sep_head json_space c r Hs) by separators.
Qed.

Lemma dict_set_fresh acc k v : k ∉ acc.*1 → dict_set acc k v = acc ++ [(k, v)].
Proof.
  induction acc as [|[k' v'] acc IH]; [done|]. cbn. intros Hn.
  rewrite bool_decide_eq_false_2 by set_solver. f_equal. apply IH. set_solver.
Qed.

Lemma str_of_text s : str_of (text s) = s.
Proof. apply String.string_of_list_ascii_of_string. Qed.

Lemma scan_dumps_str s r : scan_string ((text s ≫= escape_char) ++ [quote] ++ r) = Some (text s, r).
Proof. apply scan_string_escaped. Qed.

(** A value read back from its text, whatever separator follows. *)
Definition reads_back (v : json) : Prop := ∀ n r, sep r = true → (length (dumps v) ≤ n)%nat →
  scan_once constants float_of n (dumps v ++ r) = Some (v, r).

Lemma elements_join l n r :
  l ≠ [] → Forall reads_back l → Forall (λ v, opens (dumps v) = true) l →
  (length (join (chr 93) (dumps <$> l)) ≤ n)%nat →
  elements constants float_of n (join (chr 93) (dumps <$> l) ++ r) = Some (l, r).
Proof.
  intros Hne HI. revert n Hne. induction HI as [|v l Hv HI IH]; intros n Hne Ho Hn; [done|].
  inv Ho. destruct n as [|n].
  { destruct l; cbn [fmap list_fmap join] in Hn; rewrite length_app in Hn; cbn [length] in Hn; lia. }
  destruct l as [|w l]; rewrite ?fmap_cons, ?join_cons2, ?join_cons1, <-?app_assoc in *; cbn [app];
    rewrite length_app in Hn; cbn [length] in Hn; cbn [elements].
  - rewrite (Hv n) by (done || lia). rewrite sep_skip by done. done.
  - rewrite (Hv n) by (done || lia). rewrite sep_skip by done.
    change (bool_decide (ord (chr 44) = 93%nat)) with false. change (bool_decide (ord (chr 44) = 44%nat)) with true.
    cbv iota. assert (Hw : opens (dumps w) = true) by (by inv H2).
    rewrite (proj1 (opens_skip _ (join_opens (chr 93) (dumps w) (dumps <$> l) r Hw))).
    rewrite (IH n) by (done || lia). done.
Qed.

Lemma members_join items acc n r :
  items ≠ [] → Forall (λ kv, reads_back kv.2) items → Forall (λ kv, opens (dumps kv.2) = true) items →
  NoDup (acc ++ items).*1 →
  (length (join (chr 125) ((λ kv, dumps_str kv.1 ++ chr 58 :: dumps kv.2) <$> items)) ≤ n)%nat →
  members constants float_of n acc (join (chr 125) ((λ kv, dumps_str kv.1 ++ chr 58 :: dumps kv.2) <$> items) ++ r)
    = Some (acc ++ items, r).
Proof.
  intros Hne HI. revert acc n Hne. induction HI as [|[k v] items Hv HI IH]; intros acc n Hne Ho Hnd Hn; [done|].
  inv Ho. cbn [fst snd] in *.
  assert (Hfresh : k ∉ acc.*1).
  { rewrite fmap_app in Hnd. apply NoDup_app in Hnd as (_ & Hd & _). intros Hin. apply (Hd k Hin). set_solver. }
  assert (Hhead : ∀ rest m, (length (dumps v) ≤ m)%nat → sep rest = true →
    members constants float_of (S m) acc ((dumps_str k ++ chr 58 :: dumps v) ++ rest) =
      match skip_space rest with
      | c :: r4 => if bool_decide (ord c = 125%nat) then Some (acc ++ [(k, v)], r4)
                   else if bool_decide (ord c = 44%nat) then members constants float_of m (acc ++ [(k, v)]) (skip_space r4)
                   else None
      | [] => None
      end).
  { intros rest m Hm Hs. rewrite <-app_assoc. cbn [app]. unfold dumps_str. cbn [app members].
    fold (scan_once constants float_of) (elements constants float_of) (members constants float_of).
    change (bool_decide (ord quote = 34%nat)) with true. cbv iota. rewrite <-app_assoc, scan_dumps_str.
    change (skip_space (chr 58 :: ?x)) with (chr 58 :: x). cbv iota.
    change (bool_decide (ord (chr 58) = 58%nat)) with true. cbv iota.
    rewrite (proj1 (opens_skip (dumps v ++ rest) ltac:(by apply opens_app))), (Hv m rest Hs Hm).
    cbv zeta. rewrite str_of_text, dict_set_fresh by done. done. }
  destruct n as [|n]; [destruct items; cbn [fmap list_fmap join] in Hn;
    rewrite !length_app in Hn; cbn [length] in Hn; lia|].
  destruct items as [|[k2 v2] items]; rewrite ?fmap_cons, ?join_cons2, ?join_cons1 in *; cbn [fst snd] in *;
    rewrite <-(app_assoc (dumps_str k ++ _)); cbn [app]; rewrite !length_app in Hn; cbn [length] in Hn.
  - rewrite Hhead by (done || lia). done.
  - rewrite Hhead by (done || lia). change (skip_space (chr 44 :: ?x)) with (chr 44 :: x). cbv iota.
    change (bool_decide (ord (chr 44) = 125%nat)) with false. change (bool_decide (ord (chr 44) = 44%nat)) with true.
    cbv iota. rewrite (proj1 (opens_skip _ (join_opens (chr 125) _ _ r (dumps_str_opens k2 (chr 58 :: dumps v2))))).
    rewrite IH; [by rewrite <-app_assoc|done|done| |].
    + by rewrite <-app_assoc.
    + lia.
Qed.

Lemma scan_once_dumps v : loadable v = true → reads_back v.
Proof.
  induction v as [|b|z|f|s|l IH|items IH] using json_ind'; intros Hl [|n] r Hs Hn.
  all: try (exfalso; pose proof (dumps_opens _ Hl) as Ho; destruct (dumps _); [done|cbn in Hn; lia]).
  - reflexivity.
  - by destruct b.
  - apply scan_once_number; [done|apply number_int].
  - cbn in Hl. bools. by apply scan_once_number.
  - cbn [dumps]. unfold dumps_str. cbn [app scan_once].
    change (bool_decide (ord quote = 34%nat)) with true. cbv iota.
    by rewrite <-app_assoc, scan_dumps_str, str_of_text.
  - cbn [loadable] in Hl. rewrite forallb_Forall in Hl. cbn [dumps app scan_once] in *.
    change (bool_decide (ord (chr 91) = 34%nat)) with false. change (bool_decide (ord (chr 91) = 91%nat)) with true.
    cbv iota. destruct l as [|x l]; [reflexivity|].
    assert (Ho : Forall (λ v, opens (dumps v) = true) (x :: l))
      by (eapply Forall_impl; [exact Hl|apply dumps_opens]).
    assert (HI : Forall reads_back (x :: l)).
    { rewrite Forall_forall in *. eauto. }
    destruct (opens_skip (join (chr 93) (dumps <$> x :: l) ++ r)) as (-> & c & t & E & Hc & _).
    { inv Ho. by apply join_opens. }
    rewrite E. rewrite bool_decide_eq_false_2 by done. rewrite <-E.
    cbn [length] in Hn. by rewrite elements_join by (done || lia).
  - cbn [loadable] in Hl. bools. rewrite forallb_Forall in H0. cbn [dumps app scan_once] in *.
    change (bool_decide (ord (chr 123) = 34%nat)) with false. change (bool_decide (ord (chr 123) = 91%nat)) with false.
    change (bool_decide (ord (chr 123) = 123%nat)) with true.
    cbv iota. destruct items as [|[k x] items]; [reflexivity|].
    assert (Ho : Forall (λ kv, opens (dumps kv.2) = true) ((k, x) :: items))
      by (eapply Forall_impl; [exact H0|intros ?; apply dumps_opens]).
    assert (HI : Forall (λ kv, reads_back kv.2) ((k, x) :: items)).
    { rewrite Forall_forall in *. eauto. }
    edestruct (opens_skip (join (chr 125) ((λ kv, dumps_str kv.1 ++ chr 58 :: dumps kv.2) <$> (k, x) :: items) ++ r))
      as (-> & c & t & E & _ & Hc).
    { apply join_opens, dumps_str_opens. }
    rewrite E. rewrite bool_decide_eq_false_2 by done. rewrite <-E.
    cbn [length] in Hn. rewrite members_join; [done|done|done|done|done|lia].
Qed.

Lemma loads_dumps v : loadable v = true → loads_with constants float_of (str_of (dumps v)) = Some v.
Proof.
  intros Hl. unfold loads_with, str_of, text. rewrite String.list_ascii_of_string_of_list_ascii.
  pose proof (dumps_opens v Hl) as Ho. rewrite (proj1 (opens_skip _ Ho)).
  pose proof (scan_once_dumps v Hl (length (dumps v)) [] eq_refl (le_n _)) as Hs.
  rewrite app_nil_r in Hs. by rewrite Hs.
Qed.

Lemma loadable_sort_keys v : loadable v = true → loadable (sort_keys v) = true.
Proof.
  induction v as [|b|z|f|s|l IH|l IH] using json_ind'; cbn; try done.
  - rewrite !forallb_Forall. intros Hl. rewrite Forall_fmap. rewrite Forall_forall in *.
    intros x Hx. cbn. eauto.
  - intros [Hk Hl]%andb_true_iff. bools. apply andb_true_iff. split.
    + bools_goal. rewrite order_by_perm, <-list_fmap_compose. exact Hk.
    + rewrite (forallb_perm _ _ _ (order_by_perm key_le _)).
      rewrite !forallb_Forall, Forall_fmap in *. rewrite Forall_forall in *. intros [k x] Hx. exact (IH (k, x) Hx (Hl (k, x) Hx)).
Qed.

Lemma loads_with_canonical v b :
  loadable v = true → canonical_json_bytes v = Ok b → loads_with constants float_of b = Some (sort_keys v).
Proof.
  unfold canonical_json_bytes. intros Hl. destruct (all_finite v); [|done]. intros [= <-].
  by apply loads_dumps, loadable_sort_keys.
Qed.
End round_trip.

Lemma loads_canonical float_of v b :
  loadable float_of v = true → canonical_json_bytes v = Ok b → loads float_of b = Some (sort_keys v).
Proof. apply loads_with_canonical. Qed.

(** C40. The canonical JSON text of a payload reads back: json.loads of the bytes
    canonical_json_bytes writes is the same value with its object keys sorted, for every
    payload whose strings are well-formed text and whose objects have distinct keys. *)
Theorem canonical_json_round_trip float_of v b :
  loadable float_of v = true → canonical_json_bytes v = Ok b → loads float_of b = Some (sort_keys v).
Proof. apply loads_canonical. Qed.

Lemma canonical_json_round_trip_witness :
  loads (λ s, PyFloat None s)
    (str_of (dumps (JObj [("a", JList [JBool true; JNull; JObj []]); ("b", JInt (-70))]))) =
  Some (JObj [("a", JList [JBool true; JNull; JObj []]); ("b", JInt (-70))]).
Proof.
  exact (canonical_json_round_trip (λ s, PyFloat None s)
    (JObj [("b", JInt (-70)); ("a", JList [JBool true; JNull; JObj []])])
    (str_of (dumps (JObj [("a", JList [JBool true; JNull; JObj []]); ("b", JInt (-70))])))
    eq_refl eq_refl).
Defined.
