(* ===== verification/Timestamp.v ===== *)
(** * Timestamps and their stored text

    The repositories accept [datetime] arguments, normalize them to UTC and
    store [isoformat()] texts, which SQLite compares as text in the [WHERE] and
    [ORDER BY] clauses.  The components of this library keep a stored
    timestamp as the instant it denotes, in microseconds since 0001-01-01; this
    file defines the text of an instant and shows that text order is time order
    (the format drops a zero fraction, so texts have two lengths). *)

From S2P Require Import Prelude.
From S2P Require Import Sql.
From S2P Require Import Canonical.

(** A [datetime]: the wall clock reading and the UTC offset, both in
    microseconds; a naive value has no offset. *)
Record datetime := DT { wall : Z; utcoffset : option Z }.

(** A UTC value. *)
Definition utc_at (i : Z) : datetime := DT i (Some 0).

(** ** Calendar *)

Definition us_per_day : Z := 86400000000.

Definition is_leap (y : Z) : bool :=
  (y mod 4 =? 0) && (negb (y mod 100 =? 0) || (y mod 400 =? 0)).
Definition days_before_year (y : Z) : Z :=
  let p := y - 1 in p * 365 + p / 4 - p / 100 + p / 400.
(** Days of a year before a month, [leap] being 0 or 1. *)
Definition days_before_month (leap m : Z) : Z :=
  match m with
  | 1 => 0 | 2 => 31 | 3 => 59 + leap | 4 => 90 + leap | 5 => 120 + leap | 6 => 151 + leap
  | 7 => 181 + leap | 8 => 212 + leap | 9 => 243 + leap | 10 => 273 + leap
  | 11 => 304 + leap | 12 => 334 + leap | _ => 365 + leap
  end.
Definition leap_of (y : Z) : Z := if is_leap y then 1 else 0.
Definition ymd2ord (y m d : Z) : Z :=
  days_before_year y + days_before_month (leap_of y) m + d.

(** The month and day of the [n]-th day of a year (from 0). *)
Definition month_day (leap n : Z) : Z * Z :=
  let m := find (λ m, days_before_month leap m <=? n) [12; 11; 10; 9; 8; 7; 6; 5; 4; 3; 2] in
  let m := default 1 m in (m, n - days_before_month leap m + 1).

(** [_ord2ymd]: whole cycles of 400, 100, 4 and 1 years. *)
Definition ord2ymd (ordinal : Z) : Z * Z * Z :=
  let n := ordinal - 1 in
  let n400 := n / 146097 in let n := n mod 146097 in
  let n100 := n / 36524 in let n := n mod 36524 in
  let n4 := n / 1461 in let n := n mod 1461 in
  let n1 := n / 365 in let n := n mod 365 in
  let year := n400 * 400 + n100 * 100 + n4 * 4 + n1 + 1 in
  if (n1 =? 4) || (n100 =? 4) then (year - 1, 12, 31)
  else let '(m, d) := month_day (leap_of year) n in (year, m, d).

Record fields := Fields {
  f_year : Z; f_month : Z; f_day : Z;
  f_hour : Z; f_minute : Z; f_second : Z; f_micro : Z
}.
Definition fields_of (i : Z) : fields :=
  let '(y, m, d) := ord2ymd (i / us_per_day + 1) in
  let t := i mod us_per_day in
  Fields y m d (t / 3600000000) (t / 60000000 mod 60) (t / 1000000 mod 60) (t mod 1000000).

(** [isoformat()] of a UTC [datetime]. *)
Fixpoint digits (n : nat) (z : Z) : string :=
  match n with
  | O => EmptyString
  | S k => String (Sha256.hex_digit (z / 10 ^ Z.of_nat k mod 10)) (digits k z)
  end.
Definition iso_text (f : fields) : string :=
  digits 4 (f_year f) +:+ "-" +:+ digits 2 (f_month f) +:+ "-" +:+ digits 2 (f_day f) +:+ "T" +:+
  digits 2 (f_hour f) +:+ ":" +:+ digits 2 (f_minute f) +:+ ":" +:+ digits 2 (f_second f) +:+
  (if f_micro f =? 0 then "+00:00" else "." +:+ digits 6 (f_micro f) +:+ "+00:00").
Definition isoformat (i : Z) : string := iso_text (fields_of i).

Definition max_instant : Z := ymd2ord 9999 12 31 * us_per_day.

(** Arithmetic on [datetime] raises outside the years 1 to 9999. *)
Definition representable (i : Z) : bool := (0 <=? i) && (i <? max_instant).
Definition checked_instant {S} (i : Z) : M S Z :=
  guard (representable i) OverflowError "date value out of range" ;;; ret i.

(** [_utc] / [_normalize_utc]: refuse naive values, else [astimezone(UTC)]. *)
Definition to_utc {S} (v : datetime) : M S Z :=
  match utcoffset v with
  | None => raise ValueError "timestamp must be timezone-aware UTC"
  | Some off => checked_instant (wall v - off)
  end.

(** [t + timedelta(seconds=n)] *)
Definition plus_seconds {S} (t n : Z) : M S Z := checked_instant (t + n * 1000000).

Lemma checked_instant_Ok_inv {S} i (s : S) j s' :
  checked_instant i s = (Ok j, s') → j = i ∧ s' = s ∧ 0 ≤ i < max_instant.
Proof.
  unfold checked_instant. intros H. run_M H. unfold representable in *. bools. auto.
Qed.

Lemma checked_instant_Ok {S} i (s : S) :
  0 ≤ i < max_instant → checked_instant i s = (Ok i, s).
Proof.
  intros Hi. unfold checked_instant, representable.
  rewrite (proj2 (Z.leb_le _ _)), (proj2 (Z.ltb_lt _ _)) by apply Hi. done.
Qed.

Lemma to_utc_Ok_inv {S} v (s : S) t s' :
  to_utc v s = (Ok t, s') → s' = s ∧ 0 ≤ t < max_instant.
Proof.
  unfold to_utc. destruct (utcoffset v); [|done].
  intros (-> & -> & ?)%checked_instant_Ok_inv. auto.
Qed.

Lemma reads_to_utc {S} v : reads (to_utc (S := S) v).
Proof. unfold to_utc, checked_instant. destruct (utcoffset v); auto with py. Qed.
#[export] Hint Resolve reads_to_utc : py.

Lemma to_utc_utc_at {S} i (s : S) : 0 ≤ i < max_instant → to_utc (utc_at i) s = (Ok i, s).
Proof. intros Hi. unfold to_utc, utc_at. cbn. rewrite Z.sub_0_r. by apply checked_instant_Ok. Qed.

Example isoformat_y2k : isoformat (ymd2ord 2000 2 29 * us_per_day - 1) = "2000-02-29T23:59:59.999999+00:00".
Proof. vm_compute. reflexivity. Qed.
Example isoformat_midnight : isoformat (ymd2ord 2000 2 29 * us_per_day) = "2000-03-01T00:00:00+00:00".
Proof. vm_compute. reflexivity. Qed.

(** ** Field order is time order *)

Definition fields_compare (a b : fields) : comparison :=
  lex (f_year a ?= f_year b) (lex (f_month a ?= f_month b) (lex (f_day a ?= f_day b)
  (lex (f_hour a ?= f_hour b) (lex (f_minute a ?= f_minute b)
  (lex (f_second a ?= f_second b) (f_micro a ?= f_micro b)))))).

Lemma month_day_spec leap n : 0 ≤ leap ≤ 1 → 0 ≤ n < 365 + leap →
  let '(m, d) := month_day leap n in
  1 ≤ m ≤ 12 ∧ 1 ≤ d ≤ 31 ∧ n = days_before_month leap m + d - 1 ∧
  n < days_before_month leap (m + 1).
Proof.
  intros Hl Hn. unfold month_day. cbn [find].
  repeat match goal with
  | |- context [if ?b then _ else _] => destruct b eqn:?
  end; cbn [default id from_option] in *;
  repeat match goal with
  | |- context [days_before_month ?l (?k + 1)] =>
      let k' := eval vm_compute in (k + 1) in
      change (days_before_month l (k + 1)) with (days_before_month l k')
  end; cbn [days_before_month] in *; bools; lia.
Qed.

Lemma leap_of_bound y : 0 ≤ leap_of y ≤ 1.
Proof. unfold leap_of. case_match; lia. Qed.

Lemma days_before_year_succ y : days_before_year (y + 1) = days_before_year y + 365 + leap_of y.
Proof.
  unfold days_before_year, leap_of, is_leap. replace (y + 1 - 1) with y by lia.
  destruct (y mod 4 =? 0) eqn:E4, (y mod 100 =? 0) eqn:E100, (y mod 400 =? 0) eqn:E400;
    cbn; bools; Z.to_euclidean_division_equations; lia.
Qed.

Lemma ord2ymd_spec ordinal y m d :
  ord2ymd ordinal = (y, m, d) →
  1 ≤ m ≤ 12 ∧ 1 ≤ d ≤ 31 ∧ ordinal = ymd2ord y m d ∧
  ordinal ≤ days_before_year y + days_before_month (leap_of y) (m + 1).
Proof.
  unfold ord2ymd. set (n := ordinal - 1).
  set (a := n / 146097). set (n' := n mod 146097).
  set (b := n' / 36524). set (n'' := n' mod 36524).
  set (c := n'' / 1461). set (n3 := n'' mod 1461).
  set (e := n3 / 365). set (r := n3 mod 365).
  set (year := a * 400 + b * 100 + c * 4 + e + 1).
  assert (n = a * 146097 + b * 36524 + c * 1461 + e * 365 + r ∧ 0 ≤ r < 365 ∧
    0 ≤ b ≤ 4 ∧ 0 ≤ c ≤ 24 ∧ 0 ≤ e ≤ 4 ∧ (b = 4 → c = 0 ∧ e = 0 ∧ r = 0) ∧
    (e = 4 → r = 0 ∧ c ≤ 23)) as Hn.
  { subst a n' b n'' c n3 e r. Z.to_euclidean_division_equations; lia. }
  assert (ordinal = n + 1) as Ho by (subst n; lia).
  clearbody n a n' b n'' c n3 e r. destruct ((e =? 4) || (b =? 4)) eqn:Elast.
  - intros [= <- <- <-]. unfold ymd2ord.
    assert (leap_of (year - 1) = 1) as Hleap.
    { unfold leap_of, is_leap.
      assert ((year - 1) mod 4 = 0) as -> by (subst year; Z.to_euclidean_division_equations; lia).
      destruct ((year - 1) mod 100 =? 0) eqn:E100, ((year - 1) mod 400 =? 0) eqn:E400; try done.
      bools. exfalso. apply orb_true_iff in Elast as [?|?]; bools; subst year;
        Z.to_euclidean_division_equations; lia. }
    rewrite Hleap. cbn [days_before_month].
    change (days_before_month 1 (12 + 1)) with 366. unfold days_before_year.
    apply orb_true_iff in Elast as [?|?]; bools; subst year;
      Z.to_euclidean_division_equations; lia.
  - bools. destruct (month_day (leap_of year) r) as [m' d'] eqn:Em. intros [= <- <- <-].
    pose proof (leap_of_bound year) as Hlb.
    pose proof (month_day_spec (leap_of year) r) as Hmd. rewrite Em in Hmd.
    destruct Hmd as (? & ? & Er & Hlt); [lia|lia|].
    assert (days_before_year year = a * 146097 + b * 36524 + c * 1461 + e * 365) as Hy.
    { unfold days_before_year. subst year. Z.to_euclidean_division_equations; lia. }
    unfold ymd2ord. rewrite Hy. lia.
Qed.

Lemma days_before_month_mono leap m m' : 0 ≤ leap ≤ 1 → 1 ≤ m → m < m' → m' ≤ 13 →
  days_before_month leap (m + 1) ≤ days_before_month leap m'.
Proof.
  intros Hl Hm Hlt Hm'. remember (m + 1) as k eqn:Ek.
  assert (k = 2 ∨ k = 3 ∨ k = 4 ∨ k = 5 ∨ k = 6 ∨ k = 7 ∨ k = 8 ∨ k = 9 ∨ k = 10 ∨
    k = 11 ∨ k = 12 ∨ k = 13) as Hk by lia.
  assert (m' = 2 ∨ m' = 3 ∨ m' = 4 ∨ m' = 5 ∨ m' = 6 ∨ m' = 7 ∨ m' = 8 ∨ m' = 9 ∨ m' = 10 ∨
    m' = 11 ∨ m' = 12 ∨ m' = 13) as Hm2 by lia.
  assert (k ≤ m') as Hkm by lia.
  clear m Ek Hlt Hm Hm'. destruct_or!; subst m' k; cbn [days_before_month]; lia.
Qed.

Lemma days_before_year_mono y y' : y ≤ y' → days_before_year y ≤ days_before_year y'.
Proof.
  intros Hle. replace y' with (y + (y' - y)) by lia.
  assert (0 ≤ y' - y) as Hd by lia. revert Hd. generalize (y' - y). clear y' Hle.
  apply (natlike_ind (λ d, days_before_year y ≤ days_before_year (y + d))).
  - by rewrite Z.add_0_r.
  - intros d Hd IH. rewrite <-Z.add_1_r, Z.add_assoc, days_before_year_succ.
    pose proof (leap_of_bound (y + d)). lia.
Qed.

(** The instant a wall clock reading denotes. *)
Definition instant_of (f : fields) : Z :=
  (ymd2ord (f_year f) (f_month f) (f_day f) - 1) * us_per_day +
  f_hour f * 3600000000 + f_minute f * 60000000 + f_second f * 1000000 + f_micro f.

Record in_range (f : fields) : Prop := {
  r_month : 1 ≤ f_month f ≤ 12;
  r_day : 1 ≤ f_day f ≤ 31;
  r_date : days_before_month (leap_of (f_year f)) (f_month f) + f_day f ≤
           days_before_month (leap_of (f_year f)) (f_month f + 1);
  r_hour : 0 ≤ f_hour f < 24;
  r_minute : 0 ≤ f_minute f < 60;
  r_second : 0 ≤ f_second f < 60;
  r_micro : 0 ≤ f_micro f < 1000000;
}.

Lemma fields_of_spec i : in_range (fields_of i) ∧ instant_of (fields_of i) = i.
Proof.
  unfold fields_of. destruct (ord2ymd (i / us_per_day + 1)) as [[y m] d] eqn:E.
  apply ord2ymd_spec in E as (Hm & Hd & Ho & Hle). unfold ymd2ord in Ho.
  unfold us_per_day in *. split; [split|]; cbn; try lia.
  1-4: Z.to_euclidean_division_equations; lia.
  unfold instant_of, ymd2ord, us_per_day; cbn. rewrite <-Ho.
  clear Hle Ho. Z.to_euclidean_division_equations; lia.
Qed.

Lemma fields_compare_instant a b : in_range a → in_range b →
  fields_compare a b = (instant_of a ?= instant_of b).
Proof.
  intros [Am Ad Ar Ah Ai As Au] [Bm Bd Br Bh Bi Bs Bu].
  assert (∀ f g, 1 ≤ f_month f ≤ 12 → 1 ≤ f_month g ≤ 12 → 1 ≤ f_day g →
    days_before_month (leap_of (f_year f)) (f_month f) + f_day f ≤
      days_before_month (leap_of (f_year f)) (f_month f + 1) →
    f_year f < f_year g ∨ (f_year f = f_year g ∧ f_month f < f_month g) ∨
    (f_year f = f_year g ∧ f_month f = f_month g ∧ f_day f < f_day g) →
    ymd2ord (f_year f) (f_month f) (f_day f) < ymd2ord (f_year g) (f_month g) (f_day g)) as Hdate.
  { intros f g Hf Hg Hg2 Hr Hlt. unfold ymd2ord.
    pose proof (leap_of_bound (f_year f)) as Hl1. pose proof (leap_of_bound (f_year g)) as Hl2.
    destruct Hlt as [Hy|[[Hy Hm]|(Hy & Hm & Hd)]].
    - assert (days_before_year (f_year f + 1) ≤ days_before_year (f_year g)) as Hy'
        by (apply days_before_year_mono; lia).
      rewrite days_before_year_succ in Hy'.
      assert (days_before_month (leap_of (f_year f)) (f_month f + 1) ≤ 365 + leap_of (f_year f)).
      { change (365 + leap_of (f_year f)) with (days_before_month (leap_of (f_year f)) 13).
        apply days_before_month_mono; lia. }
      assert (0 ≤ days_before_month (leap_of (f_year g)) (f_month g)).
      { assert (f_month g = 1 ∨ 1 < f_month g) as [->|H1] by lia; [done|].
        pose proof (days_before_month_mono (leap_of (f_year g)) 1 (f_month g)) as Hmm.
        change (days_before_month (leap_of (f_year g)) (1 + 1)) with 31 in Hmm. lia. }
      lia.
    - rewrite <-Hy in *.
      pose proof (days_before_month_mono (leap_of (f_year f)) (f_month f) (f_month g)). lia.
    - rewrite <-Hy, <-Hm in *. lia. }
  unfold fields_compare, instant_of, us_per_day in *.
  pose proof (Hdate a b) as Hab. pose proof (Hdate b a) as Hba. clear Hdate.
  symmetry. unfold lex.
  destruct (Z.compare_spec (f_year a) (f_year b)) as [Ey|Ey|Ey];
    [|apply Z.compare_lt_iff; lia|apply Z.compare_gt_iff; lia].
  destruct (Z.compare_spec (f_month a) (f_month b)) as [Em|Em|Em];
    [|apply Z.compare_lt_iff; lia|apply Z.compare_gt_iff; lia].
  destruct (Z.compare_spec (f_day a) (f_day b)) as [Ed|Ed|Ed];
    [|apply Z.compare_lt_iff; lia|apply Z.compare_gt_iff; lia].
  rewrite <-Ey, <-Em, <-Ed in *. clear Hab Hba.
  destruct (Z.compare_spec (f_hour a) (f_hour b)),
    (Z.compare_spec (f_minute a) (f_minute b)),
    (Z.compare_spec (f_second a) (f_second b)),
    (Z.compare_spec (f_micro a) (f_micro b));
    first [apply Z.compare_eq_iff; lia|apply Z.compare_lt_iff; lia|apply Z.compare_gt_iff; lia].
Qed.

(** ** Text order is field order *)

Lemma text_compare_cons c d s t :
  text_compare (String c s) (String d t) =
  lex (Nat.compare (ord c) (ord d)) (text_compare s t).
Proof.
  unfold text_compare. cbn. unfold Ascii.compare, ord, Ascii.nat_of_ascii.
  rewrite <-N2Nat.inj_compare. by destruct (N.compare _ _).
Qed.

Lemma lex_assoc c d e : lex (lex c d) e = lex c (lex d e).
Proof. by destruct c. Qed.

Lemma ord_digit n : 0 ≤ n < 10 → ord (Sha256.hex_digit n) = Z.to_nat (48 + n).
Proof.
  intros Hn. unfold Sha256.hex_digit. replace (n <? 10) with true by lia.
  unfold ord. rewrite Ascii.nat_ascii_embedding; lia.
Qed.

(** Equally long decimal texts compare as the numbers they denote. *)
Lemma digits_compare n x y s t : 0 ≤ x < 10 ^ Z.of_nat n → 0 ≤ y < 10 ^ Z.of_nat n →
  text_compare (digits n x +:+ s) (digits n y +:+ t) = lex (x ?= y) (text_compare s t).
Proof.
  assert (∀ k x, digits k x = digits k (x mod 10 ^ Z.of_nat k)) as Hmod.
  { intros k z. assert (∀ j, (j ≤ k)%nat → digits j z = digits j (z mod 10 ^ Z.of_nat k)) as Hj.
    { induction j as [|j IH]; [done|]. intros Hjk. cbn. rewrite <-IH by lia. do 2 f_equal.
      replace (Z.of_nat k) with (Z.of_nat j + 1 + (Z.of_nat k - Z.of_nat j - 1)) by lia.
      rewrite !Z.pow_add_r by lia. set (q := 10 ^ (Z.of_nat k - Z.of_nat j - 1)).
      set (p := 10 ^ Z.of_nat j). assert (0 < p) by (subst p; lia). assert (0 < q) by (subst q; lia).
      rewrite Z.pow_1_r. rewrite (Z.div_mod z (p * 10 * q)) at 1 by lia.
      replace (p * 10 * q * (z / (p * 10 * q)) + z mod (p * 10 * q))
        with (z mod (p * 10 * q) + (10 * q * (z / (p * 10 * q))) * p) by lia.
      rewrite Z.div_add by lia.
      replace (10 * q * (z / (p * 10 * q))) with (q * (z / (p * 10 * q)) * 10) by lia.
      by rewrite Z.mod_add by lia. }
    by apply Hj. }
  revert x y. induction n as [|n IH]; intros x y Hx Hy.
  - cbn in Hx, Hy. replace x with 0 by lia. by replace y with 0 by lia.
  - rewrite Nat2Z.inj_succ, Z.pow_succ_r in Hx, Hy by lia.
    set (p := 10 ^ Z.of_nat n) in *. assert (0 < p) as Hp by (subst p; lia).
    assert (0 ≤ x / p < 10) as Hdx by (split; [apply Z.div_pos; lia|apply Z.div_lt_upper_bound; lia]).
    assert (0 ≤ y / p < 10) as Hdy by (split; [apply Z.div_pos; lia|apply Z.div_lt_upper_bound; lia]).
    transitivity (text_compare (String (Sha256.hex_digit (x / p mod 10)) (digits n x +:+ s))
                               (String (Sha256.hex_digit (y / p mod 10)) (digits n y +:+ t)));
      [done|].
    rewrite text_compare_cons, !(Z.mod_small (_ / p)), !ord_digit by lia.
    rewrite (Hmod n x), (Hmod n y), IH by (fold p; apply Z.mod_pos_bound; lia). fold p.
    rewrite <-lex_assoc. f_equal.
    assert (x = p * (x / p) + x mod p) as Hx' by (apply Z.div_mod; lia).
    assert (y = p * (y / p) + y mod p) as Hy' by (apply Z.div_mod; lia).
    pose proof (Z.mod_pos_bound x p Hp). pose proof (Z.mod_pos_bound y p Hp).
    destruct (Z.compare_spec (x / p) (y / p)) as [E|E|E].
    + rewrite E, Nat.compare_refl. cbn.
      destruct (Z.compare_spec (x mod p) (y mod p)) as [E'|E'|E']; symmetry;
        [apply Z.compare_eq_iff; congruence|apply Z.compare_lt_iff; nia|apply Z.compare_gt_iff; nia].
    + replace (Nat.compare _ _) with Lt by (symmetry; apply Nat.compare_lt_iff; lia).
      cbn. symmetry. apply Z.compare_lt_iff. nia.
    + replace (Nat.compare _ _) with Gt by (symmetry; apply Nat.compare_gt_iff; lia).
      cbn. symmetry. apply Z.compare_gt_iff. nia.
Qed.

Lemma text_compare_prefix c s t :
  text_compare (String c EmptyString +:+ s) (String c EmptyString +:+ t) = text_compare s t.
Proof.
  transitivity (text_compare (String c s) (String c t)); [done|].
  by rewrite text_compare_cons, Nat.compare_refl.
Qed.

Lemma fraction_compare x y : 0 ≤ x < 1000000 → 0 ≤ y < 1000000 →
  text_compare (if x =? 0 then "+00:00" else "." +:+ digits 6 x +:+ "+00:00")
               (if y =? 0 then "+00:00" else "." +:+ digits 6 y +:+ "+00:00") = (x ?= y).
Proof.
  intros Hx Hy. destruct (x =? 0) eqn:Ex, (y =? 0) eqn:Ey; bools; subst.
  - done.
  - transitivity (text_compare (String (chr 43) "00:00") (String (chr 46) (digits 6 y +:+ "+00:00")));
      [done|]. rewrite text_compare_cons.
    change (Nat.compare (ord (chr 43)) (ord (chr 46))) with Lt. cbn [lex].
    symmetry. apply Z.compare_lt_iff. lia.
  - transitivity (text_compare (String (chr 46) (digits 6 x +:+ "+00:00")) (String (chr 43) "00:00"));
      [done|]. rewrite text_compare_cons.
    change (Nat.compare (ord (chr 46)) (ord (chr 43))) with Gt. cbn [lex].
    symmetry. apply Z.compare_gt_iff. lia.
  - rewrite text_compare_prefix, digits_compare by (change (10 ^ Z.of_nat 6) with 1000000; lia).
    by destruct (x ?= y).
Qed.

Lemma iso_text_compare a b : in_range a → in_range b →
  0 ≤ f_year a < 10000 → 0 ≤ f_year b < 10000 →
  text_compare (iso_text a) (iso_text b) = fields_compare a b.
Proof.
  intros [Am Ad Ar Ah Ai As Au] [Bm Bd Br Bh Bi Bs Bu] Ay By.
  unfold iso_text, fields_compare.
  rewrite digits_compare by (change (10 ^ Z.of_nat 4) with 10000; lia). f_equal.
  do 5 (rewrite text_compare_prefix, digits_compare by (change (10 ^ Z.of_nat 2) with 100; lia);
        f_equal).
  by rewrite fraction_compare.
Qed.

Lemma month_start_bounds leap m : 0 ≤ leap ≤ 1 → 1 ≤ m ≤ 12 →
  0 ≤ days_before_month leap m ∧ days_before_month leap (m + 1) ≤ 365 + leap.
Proof.
  intros Hl Hm. split.
  - assert (m = 1 ∨ 1 < m) as [->|H1] by lia; [done|].
    pose proof (days_before_month_mono leap 1 m) as Hmm.
    change (days_before_month leap (1 + 1)) with 31 in Hmm. lia.
  - apply (days_before_month_mono leap m 13); lia.
Qed.

Lemma year_bounds f : in_range f → 0 ≤ instant_of f < 315537897600000000 → 0 ≤ f_year f < 10000.
Proof.
  intros [Am Ad Ar Ah Ai As Au] Hi.
  pose proof (leap_of_bound (f_year f)) as Hl.
  pose proof (month_start_bounds (leap_of (f_year f)) (f_month f) Hl Am) as Hm.
  unfold instant_of, us_per_day, ymd2ord in Hi. split.
  - destruct (decide (0 ≤ f_year f)); [done|]. exfalso.
    assert (days_before_year (f_year f + 1) ≤ days_before_year 0) as Hy
      by (apply days_before_year_mono; lia).
    rewrite days_before_year_succ in Hy.
    assert (days_before_year 0 = -366) as E0 by (vm_compute; reflexivity). lia.
  - destruct (decide (f_year f < 10000)); [done|]. exfalso.
    assert (days_before_year 10000 ≤ days_before_year (f_year f)) as Hy
      by (apply days_before_year_mono; lia).
    assert (days_before_year 10000 = 3652059) as E0 by (vm_compute; reflexivity). lia.
Qed.

Lemma max_instant_eq : max_instant = 315537897600000000.
Proof. vm_compute. reflexivity. Qed.

Lemma fields_of_year i : 0 ≤ i < max_instant → 0 ≤ f_year (fields_of i) < 10000.
Proof.
  rewrite max_instant_eq. destruct (fields_of_spec i) as [R E]. rewrite <-E at 1 2.
  by apply year_bounds.
Qed.

(** The isoformat texts of normalised UTC timestamps compare as text exactly as the instants
    compare, although a zero fraction is dropped, so the WHERE and ORDER BY clauses on
    timestamp columns compare times. *)
Theorem isoformat_order i j :
  0 ≤ i < max_instant → 0 ≤ j < max_instant →
  text_compare (isoformat i) (isoformat j) = (i ?= j).
Proof.
  intros Hi Hj. destruct (fields_of_spec i) as [Ri Ei], (fields_of_spec j) as [Rj Ej].
  unfold isoformat. rewrite iso_text_compare, fields_compare_instant by auto using fields_of_year.
  by rewrite Ei, Ej.
Qed.

Lemma isoformat_order_witness :
  text_compare "2000-03-01T00:00:00+00:00" "2000-03-01T00:00:00.000001+00:00" = Lt.
Proof.
  exact (isoformat_order (ymd2ord 2000 2 29 * us_per_day) (ymd2ord 2000 2 29 * us_per_day + 1)
    ltac:(vm_compute; done) ltac:(vm_compute; done)).
Defined.
