(* ===== verification/UnitOfWork.v ===== *)
(** * The unit of work: one explicit transaction on the shared connection

    Models src/src/tianshu/storage/unit_of_work.py.  A [session] is the state
    the class works on: the SQLite connection (what is committed, what the
    open transaction sees, whether one is open), the depth of the reentrant
    lock, and the two flags of the [SqliteUnitOfWork] object. *)

From S2P Require Import Prelude.

Section unit_of_work.
Context {DB : Type}.

Record session := Session {
  committed : DB;
  working : DB;
  in_transaction : bool;
  lock_depth : nat;
  entered : bool;
  completed : bool;
}.

(** [connection.rollback()] and [connection.commit()] *)
Definition conn_rollback (s : session) : session :=
  Session (committed s) (committed s) false (lock_depth s) (entered s) (completed s).
Definition conn_commit (s : session) : session :=
  Session (working s) (working s) false (lock_depth s) (entered s) (completed s).

Definition set_lock (n : nat) (s : session) : session :=
  Session (committed s) (working s) (in_transaction s) n (entered s) (completed s).
Definition set_flags (e c : bool) (s : session) : session :=
  Session (committed s) (working s) (in_transaction s) (lock_depth s) e c.

(** [__enter__] *)
Definition uow_enter : M session unit := λ s,
  if entered s then (Err (Exn RuntimeError "nested unit of work is not supported"), s)
  else
    let s1 := set_lock (S (lock_depth s)) s in
    if in_transaction s1
    then (Err (Exn RuntimeError "nested SQLite transaction is not supported"),
          set_lock (lock_depth s) s1)
    else (Ok tt, Session (committed s1) (committed s1) true (lock_depth s1) true false).

(** [_require_active] *)
Definition require_active : M session unit := λ s,
  if negb (entered s) || completed s
  then (Err (Exn RuntimeError "unit of work is not active"), s)
  else (Ok tt, s).

(** [commit] *)
Definition uow_commit : M session unit :=
  require_active ;;; λ s, (Ok tt, set_flags (entered s) true (conn_commit s)).

(** [rollback] *)
Definition uow_rollback : M session unit :=
  require_active ;;; λ s,
    (Ok tt, set_flags (entered s) true (if in_transaction s then conn_rollback s else s)).

(** [__exit__] *)
Definition uow_exit (s : session) : session :=
  let s1 := if negb (completed s) || in_transaction s then conn_rollback s else s in
  set_lock (pred (lock_depth s1)) (set_flags false (completed s1) s1).

(** The [connection] property, and a computation run on that connection. *)
Definition on_connection {A} (m : M DB A) : M session A := λ s,
  if entered s then
    let '(r, d) := m (working s) in
    (r, Session (committed s) d true (lock_depth s) (entered s) (completed s))
  else (Err (Exn RuntimeError "unit of work is not active"), s).

(** [with factory() as unit_of_work: body] *)
Definition with_uow {A} (body : M session A) : M session A := λ s,
  match uow_enter s with
  | (Err e, s') => (Err e, s')
  | (Ok _, s') => let '(r, s'') := body s' in (r, uow_exit s'')
  end.

(** A connection no transaction is open on and no unit of work holds. *)
Definition quiescent (s : session) : bool :=
  negb (entered s) && negb (in_transaction s).

(** What a transaction amounts to for the tables: all of its writes on a
    normal return, none of them when it raises. *)
Definition atomically {A} (m : M DB A) : M DB A := λ d,
  match m d with
  | (Ok a, d') => (Ok a, d')
  | (Err e, _) => (Err e, d)
  end.

(** The body every repository method writes: statements, [commit()], return. *)
Definition committing {A} (m : M DB A) : M session A :=
  let! a := on_connection m in uow_commit ;;; ret a.

Lemma atomically_Ok_inv {A} (m : M DB A) d a d' :
  atomically m d = (Ok a, d') → m d = (Ok a, d').
Proof. unfold atomically. destruct (m d) as [[]]; naive_solver. Qed.

Lemma atomically_Ok {A} (m : M DB A) d a d' :
  m d = (Ok a, d') → atomically m d = (Ok a, d').
Proof. unfold atomically. by intros ->. Qed.

Lemma atomically_Err {A} (m : M DB A) d e d' :
  atomically m d = (Err e, d') → d' = d ∧ ∃ d1, m d = (Err e, d1).
Proof. unfold atomically. destruct (m d) as [[]]; naive_solver. Qed.

Lemma err_keeps_atomically {A} (m : M DB A) : err_keeps (atomically m).
Proof. intros d e d' H. by apply atomically_Err in H as [-> _]. Qed.

(** A unit of work whose body ends with [commit()]. *)
Lemma with_uow_committing {A} (m : M DB A) s :
  quiescent s = true →
  ∃ s', with_uow (committing m) s = ((atomically m (committed s)).1, s') ∧
    committed s' = (atomically m (committed s)).2 ∧ working s' = committed s' ∧
    quiescent s' = true ∧ lock_depth s' = lock_depth s.
Proof.
  unfold quiescent. intros Hq. bools. destruct s as [c w t n e k]. cbn in *. subst.
  unfold with_uow, committing, uow_enter, on_connection, bind, atomically. cbn.
  destruct (m c) as [[a|x] d]; cbn; eauto 10.
Qed.

(** A unit of work whose body ends with commit() is atomic: the database is what the
    statements produced when they all returned, and what it was before when any of them
    raised; the connection is at rest and the lock released either way. *)
Theorem with_uow_atomic {A} (m : M DB A) s :
  quiescent s = true →
  let '(r, s') := with_uow (committing m) s in
  (r, committed s') = atomically m (committed s) ∧
  working s' = committed s' ∧ quiescent s' = true ∧ lock_depth s' = lock_depth s.
Proof.
  intros Hq. destruct (with_uow_committing m s Hq) as (s' & -> & Hc & Hrest).
  split; [rewrite Hc; by destruct (atomically m (committed s))|done].
Qed.

(** A body that commits and then raises keeps its writes and still propagates the exception,
    leaving the connection at rest. *)
Theorem with_uow_raise_after_commit {A} (m : M DB unit) (c : exn_class) msg s d :
  quiescent s = true → m (committed s) = (Ok tt, d) →
  let '(r, s') := with_uow (A := A) (on_connection m ;;; uow_commit ;;; raise c msg) s in
  r = Err (Exn c msg) ∧ committed s' = d ∧ quiescent s' = true ∧ lock_depth s' = lock_depth s.
Proof.
  unfold quiescent. intros Hq Hm. bools. destruct s as [k w t n e q]. cbn in *. subst.
  unfold with_uow, uow_enter, on_connection, bind. cbn. rewrite Hm. cbn. auto.
Qed.

(** Entering a unit of work while one is active, or while the connection has an open
    transaction, raises RuntimeError and changes nothing, the lock depth included. *)
Theorem with_uow_nested {A} (body : M session A) s :
  quiescent s = false →
  ∃ msg, with_uow body s = (Err (Exn RuntimeError msg), s).
Proof.
  unfold quiescent, with_uow, uow_enter. destruct s as [k w t n e q]. cbn.
  destruct e; cbn; [eauto|]. destruct t; cbn; [eauto|done].
Qed.
End unit_of_work.
Arguments session : clear implicits.
#[export] Hint Resolve err_keeps_atomically : py.

(** A connection at rest over a database that is one number. *)
Definition resting : session Z := Session 7 7 false 0 false false.
Definition bump : M Z unit := λ n, (Ok tt, n + 1).

Lemma with_uow_atomic_witness :
  committed (with_uow (committing (bump ;;; raise (A := unit) ValueError "late")) resting).2 = 7.
Proof.
  pose proof (with_uow_atomic (bump ;;; raise (A := unit) ValueError "late") resting eq_refl) as H.
  exact (f_equal snd (proj1 H)).
Defined.

Lemma with_uow_raise_after_commit_witness :
  committed (with_uow (A := unit) (on_connection bump ;;; uow_commit ;;; raise ValueError "denied") resting).2 = 8.
Proof.
  apply (with_uow_raise_after_commit (A := unit) bump ValueError "denied" resting 8 eq_refl eq_refl).
Defined.

Lemma with_uow_nested_witness :
  ∃ msg, with_uow (committing bump) (Session 7 7 true 1 false false) =
         (Err (Exn RuntimeError msg), Session 7 7 true 1 false false).
Proof. exact (with_uow_nested (committing bump) (Session 7 7 true 1 false false) eq_refl). Defined.
