(* ===== verification/Models.v ===== *)
(** * The durable contracts

    The strict immutable models the repositories persist and load:
    src/src/tianshu/models/attempt.py, decision.py, run_state.py,
    plan_revision.py and side_effect.py.  A pydantic model is a record; its
    field constraints and validators are one boolean function, which is what
    constructing or decoding a value checks.

    The dict fields are lists of items in key order: two dicts are equal when
    the lists are, and canonical JSON writes and reads them unchanged.
    Timestamps are instants (Timestamp.v), already normalized to UTC. *)

From S2P Require Import Prelude.
From S2P Require Import Sql.
From S2P Require Import Canonical.
From S2P Require Import SensitivePayload.

(** [_non_blank] of an optional value *)
Definition optional_non_blank (o : option string) : bool :=
  match o with Some s => non_blank s | None => true end.

(** [canonical_sha256(v) == h] *)
Definition hash_is (v : json) (h : string) : bool :=
  bool_decide (canonical_sha256 v = Ok h).

(** ** Errors kept for operators *)

Record RedactedError := mkRedactedError {
  err_code : string;
  err_message : string;
  err_retryable : bool;
  err_details_hash : option string;
}.
#[export] Instance RedactedError_eq_dec : EqDecision RedactedError.
Proof. solve_decision. Defined.

(** ** Task status (models/common.py) *)

Inductive TaskStatus :=
  | T_SUBMITTED | T_RUNNING | T_COMPLETED | T_FAILED | T_CANCELLED
  | T_SCHEDULED | T_PLANNING | T_AUDITING | T_NEEDS_REVIEW.
#[export] Instance TaskStatus_eq_dec : EqDecision TaskStatus.
Proof. solve_decision. Defined.
Definition task_status_value (t : TaskStatus) : string :=
  match t with
  | T_SUBMITTED => "submitted" | T_RUNNING => "running" | T_COMPLETED => "completed"
  | T_FAILED => "failed" | T_CANCELLED => "cancelled" | T_SCHEDULED => "scheduled"
  | T_PLANNING => "planning" | T_AUDITING => "auditing" | T_NEEDS_REVIEW => "needs_review"
  end.

(** ** Execution attempts (models/attempt.py) *)

Inductive AttemptStatus :=
  | CLAIMABLE | CLAIMED | SUSPENDED | SUCCEEDED | FAILED | DEAD_LETTER.
#[export] Instance AttemptStatus_eq_dec : EqDecision AttemptStatus.
Proof. solve_decision. Defined.

Inductive AttemptDisposition :=
  | D_SUCCEEDED | D_FAILED | D_RETRY | D_SUSPENDED.
#[export] Instance AttemptDisposition_eq_dec : EqDecision AttemptDisposition.
Proof. solve_decision. Defined.

Record AttemptLeaseV1 := mkAttempt {
  attempt_id : string;
  a_memorial_id : string;
  attempt_no : Z;
  a_status : AttemptStatus;
  a_owner_id : option string;
  a_fencing_token : Z;
  lease_expires_at : option Z;
  heartbeat_at : option Z;
  available_at : Z;
  max_attempts : Z;
  a_failure : option RedactedError;
  a_version : Z;
  a_created_at : Z;
  a_updated_at : Z;
}.
#[export] Instance AttemptLeaseV1_eq_dec : EqDecision AttemptLeaseV1.
Proof. solve_decision. Defined.

Definition is_failed (s : AttemptStatus) : bool :=
  match s with FAILED | DEAD_LETTER => true | _ => false end.

(** The statuses of the partial unique index over one memorial. *)
Definition is_active (s : AttemptStatus) : bool :=
  match s with CLAIMABLE | CLAIMED | SUSPENDED => true | _ => false end.

(** [AttemptLeaseV1.validate_shape] *)
Definition attempt_shape (a : AttemptLeaseV1) : bool :=
  (attempt_no a <=? max_attempts a) &&
  (a_created_at a <=? a_updated_at a) &&
  (match a_status a with
   | CLAIMED =>
       match a_owner_id a, lease_expires_at a, heartbeat_at a with
       | Some _, Some l, Some h => (0 <? a_fencing_token a) && (h <? l)
       | _, _, _ => false
       end
   | _ => is_none (a_owner_id a) && is_none (lease_expires_at a)
   end) &&
  (if is_failed (a_status a) then is_some (a_failure a) else is_none (a_failure a)).

(** Field constraints and validators of [AttemptLeaseV1]. *)
Definition attempt_valid (a : AttemptLeaseV1) : bool :=
  non_blank (attempt_id a) && non_blank (a_memorial_id a) &&
  (1 <=? attempt_no a) && optional_non_blank (a_owner_id a) &&
  (0 <=? a_fencing_token a) && (1 <=? max_attempts a) && (1 <=? a_version a) &&
  attempt_shape a.

Record AttemptOutcomeV1 := mkOutcome {
  disposition : AttemptDisposition;
  completed_at : Z;
  o_failure : option RedactedError;
  retry_at : option Z;
}.

(** [AttemptOutcomeV1.validate_shape] *)
Definition outcome_valid (o : AttemptOutcomeV1) : bool :=
  match disposition o with
  | D_RETRY =>
      match o_failure o, retry_at o with
      | Some _, Some r => completed_at o <=? r
      | _, _ => false
      end
  | D_FAILED => is_some (o_failure o) && is_none (retry_at o)
  | _ => is_none (o_failure o) && is_none (retry_at o)
  end.

(** ** Governance decisions (models/decision.py) *)

Inductive DecisionKind := K_TOOL | K_OUTER_LOOP | K_PLAN_REVIEW | K_GOVERNED_APPLY.
#[export] Instance DecisionKind_eq_dec : EqDecision DecisionKind.
Proof. solve_decision. Defined.

Inductive DecisionStatus := PENDING | RESOLVED | EXPIRED | CANCELLED.
#[export] Instance DecisionStatus_eq_dec : EqDecision DecisionStatus.
Proof. solve_decision. Defined.

Record DecisionRequestV1 := mkDecision {
  decision_request_id : string;
  d_kind : DecisionKind;
  d_edict_id : string;
  d_memorial_id : string;
  request_key : string;
  d_payload : list (string * json);
  d_payload_hash : string;
  requested_by : string;
  d_expires_at : Z;
  d_status : DecisionStatus;
  d_version : Z;
  d_created_at : Z;
  d_updated_at : Z;
}.
#[export] Instance DecisionRequestV1_eq_dec : EqDecision DecisionRequestV1.
Proof. solve_decision. Defined.

(** Field constraints and [validate_integrity] of [DecisionRequestV1]. *)
Definition decision_valid (d : DecisionRequestV1) : bool :=
  non_blank (decision_request_id d) && non_blank (d_edict_id d) && non_blank (d_memorial_id d) &&
  non_blank (request_key d) && non_blank (requested_by d) &&
  hex64 (d_payload_hash d) && (1 <=? d_version d) &&
  hash_is (JObj (d_payload d)) (d_payload_hash d) &&
  (d_created_at d <=? d_updated_at d) && (d_created_at d <? d_expires_at d).

Record DecisionResolutionV1 := mkResolution {
  r_decision_request_id : string;
  r_action : string;
  r_reason : string;
  r_payload : list (string * json);
  actor_principal_id : string;
  actor_display_name : string;
  resolved_at : Z;
}.
#[export] Instance DecisionResolutionV1_eq_dec : EqDecision DecisionResolutionV1.
Proof. solve_decision. Defined.

Definition resolution_valid (r : DecisionResolutionV1) : bool :=
  non_blank (r_decision_request_id r) && non_blank (r_action r) && non_blank (r_reason r) &&
  non_blank (actor_principal_id r) && non_blank (actor_display_name r).

(** *** Action payloads: [_ACTION_PAYLOAD_MODELS] *)

Inductive payload_model :=
  | VersionedPayload | ToolApprovePayload | ToolGuidePayload
  | OuterContinuePayload | OuterModifyAcceptancePayload.

Definition action_payload_model (kind : DecisionKind) (action : string) : option payload_model :=
  let act a := bool_decide (action = a) in
  match kind with
  | K_TOOL =>
      if act "approve" then Some ToolApprovePayload
      else if act "reject" then Some VersionedPayload
      else if act "guide" then Some ToolGuidePayload else None
  | K_OUTER_LOOP =>
      if act "continue" then Some OuterContinuePayload
      else if act "accept_as_is" then Some VersionedPayload
      else if act "abort" then Some VersionedPayload
      else if act "modify_acceptance" then Some OuterModifyAcceptancePayload else None
  | K_PLAN_REVIEW | K_GOVERNED_APPLY =>
      if act "approve" then Some VersionedPayload
      else if act "reject" then Some VersionedPayload else None
  end.

(** A strict payload model: [schema_version] is the literal 1, every other
    field has its type, and no field is unknown. *)
Definition opt_str (o : option json) : bool :=
  match o with None | Some JNull | Some (JStr _) => true | _ => false end.
Definition opt_scope (o : option json) : bool :=
  match o with
  | None | Some JNull => true
  | Some (JStr s) => member s ["once"; "edict"; "always"]
  | _ => false
  end.
Definition fields_of_model (m : payload_model) : list string :=
  "schema_version" ::
  match m with
  | VersionedPayload => []
  | ToolApprovePayload =>
      ["grant_scope"; "grant_reason"; "requested_grant_scope"; "grant_downgraded";
       "grant_downgrade_reason"]
  | ToolGuidePayload => ["guidance"]
  | OuterContinuePayload => ["feedback"]
  | OuterModifyAcceptancePayload => ["acceptance"]
  end.
Definition payload_fits (m : payload_model) (p : list (string * json)) : bool :=
  let get := obj_get p in
  bool_decide (get "schema_version" = Some (JInt 1)) &&
  forallb (λ kv : string * json, member kv.1 (fields_of_model m)) p &&
  match m with
  | VersionedPayload => true
  | ToolApprovePayload =>
      opt_scope (get "grant_scope") && opt_str (get "grant_reason") &&
      opt_scope (get "requested_grant_scope") && opt_str (get "grant_downgrade_reason") &&
      match get "grant_downgraded" with None | Some (JBool _) => true | _ => false end
  | ToolGuidePayload => match get "guidance" with Some (JStr s) => non_blank s | _ => false end
  | OuterContinuePayload => opt_str (get "feedback")
  | OuterModifyAcceptancePayload =>
      match get "acceptance" with Some (JObj _) => true | _ => false end
  end.

(** [validate_resolution_payload]: whether it returns *)
Definition resolution_payload_valid (kind : DecisionKind) (action : string)
    (payload : list (string * json)) : bool :=
  match action_payload_model kind action with
  | None => false
  | Some m => payload_fits m payload
  end.

(** [DecisionRecordV1] and [validate_resolution_identity] *)
Record DecisionRecordV1 := mkRecord {
  rec_request : DecisionRequestV1;
  rec_resolution : option DecisionResolutionV1;
}.
#[export] Instance DecisionRecordV1_eq_dec : EqDecision DecisionRecordV1.
Proof. solve_decision. Defined.

Definition record_valid (r : DecisionRecordV1) : bool :=
  let is_resolved := bool_decide (d_status (rec_request r) = RESOLVED) in
  match rec_resolution r with
  | None => negb is_resolved
  | Some res =>
      is_resolved &&
      bool_decide (r_decision_request_id res = decision_request_id (rec_request r)) &&
      resolution_payload_valid (d_kind (rec_request r)) (r_action res) (r_payload res)
  end.

(** [RequestDecisionCommand] and [ResolveDecisionCommand] *)
Record RequestDecisionCommand := mkRequestCommand {
  rc_kind : DecisionKind;
  rc_edict_id : string;
  rc_memorial_id : string;
  rc_request_key : string;
  rc_payload : list (string * json);
  rc_expires_at : Z;
}.
Record ResolveDecisionCommand := mkResolveCommand {
  vc_action : string;
  vc_reason : string;
  vc_payload : list (string * json);
  vc_expected_version : Z;
}.

(** ** Plan revisions (models/plan_revision.py) *)

Record PlanRevisionV1 := mkRevision {
  revision_id : string;
  parent_revision_id : option string;
  v_plan_hash : string;
  v_reason_code : string;
  v_reason_summary : string;
  artifact_digest : string;
  v_created_at : Z;
}.
#[export] Instance PlanRevisionV1_eq_dec : EqDecision PlanRevisionV1.
Proof. solve_decision. Defined.

(** [^[A-Za-z0-9][A-Za-z0-9_.:-]{0,255}$], full match *)
Definition ident_char (c : Ascii.ascii) : bool :=
  is_lower c || is_upper c || is_digit c ||
  bool_decide (ord c ∈ [95; 46; 58; 45]%nat).
Definition is_identifier (s : string) : bool :=
  match text s with
  | [] => false
  | c :: r =>
      (is_lower c || is_upper c || is_digit c) && bool_decide (length r ≤ 255)%nat &&
      forallb ident_char r
  end.
(** [^[a-z][a-z0-9_.-]{0,127}$], full match *)
Definition is_reason_code (s : string) : bool :=
  match text s with
  | [] => false
  | c :: r =>
      is_lower c && bool_decide (length r ≤ 127)%nat &&
      forallb (λ d, is_lower d || is_digit d || bool_decide (ord d ∈ [95; 46; 45]%nat)) r
  end.

(** [len] of a Python string: its bytes that do not continue a character *)
Definition py_len (s : string) : nat :=
  length (filter (λ c, bool_decide (128 ≤ ord c < 192)%nat = false) (text s)).

Section plan_lineage.
Context (redact_text : string → string).

(** Field constraints and [validate_identity] of a revision already stored
    in a lineage (its summary is stripped). *)
Definition revision_valid (v : PlanRevisionV1) : bool :=
  is_identifier (revision_id v) &&
  match parent_revision_id v with Some p => is_identifier p | None => true end &&
  hex64 (v_plan_hash v) && hex64 (artifact_digest v) &&
  is_reason_code (v_reason_code v) && bool_decide (py_len (v_reason_summary v) ≤ 4096)%nat &&
  non_blank (v_reason_summary v) &&
  bool_decide (redact_text (v_reason_summary v) = v_reason_summary v) &&
  negb (bool_decide (parent_revision_id v = Some (revision_id v))) &&
  bool_decide (artifact_digest v = v_plan_hash v).

(** [validate_plan_revision_lineage]: whether it returns *)
Fixpoint lineage_ok (seen : list string) (previous : option PlanRevisionV1)
    (lineage : list PlanRevisionV1) : bool :=
  match lineage with
  | [] => true
  | v :: rest =>
      revision_valid v &&
      negb (member (revision_id v) seen) &&
      bool_decide (parent_revision_id v = revision_id <$> previous) &&
      match previous with Some p => v_created_at p <=? v_created_at v | None => true end &&
      lineage_ok (revision_id v :: seen) (Some v) rest
  end.
Definition plan_revision_lineage_valid (lineage : list PlanRevisionV1) : bool :=
  lineage_ok [] None lineage.
End plan_lineage.

(** ** Durable run state (models/run_state.py) *)

Inductive RunPhase :=
  | P_SUBMITTED | P_PLANNING | P_EXECUTING | P_WAITING_DECISION
  | P_PAUSED | P_AUDITING | P_COMPLETED | P_FAILED.
#[export] Instance RunPhase_eq_dec : EqDecision RunPhase.
Proof. solve_decision. Defined.

Record PersistedUsageSummaryV1 := mkUsage {
  prompt_tokens : Z; completion_tokens : Z; total_tokens : Z; cache_read_tokens : Z;
  cost_cny : pyfloat; actual_model : option string; upstream_provider : option string;
}.
#[export] Instance PersistedUsageSummaryV1_eq_dec : EqDecision PersistedUsageSummaryV1.
Proof. solve_decision. Defined.

(** [float >= 0]; a NaN fails the test *)
Definition float_ge0 (f : pyfloat) : bool :=
  match float_value f with
  | Some (m, _) => 0 <=? m
  | None => bool_decide (float_repr f = "inf")
  end.
Definition usage_valid (u : PersistedUsageSummaryV1) : bool :=
  (0 <=? prompt_tokens u) && (0 <=? completion_tokens u) && (0 <=? total_tokens u) &&
  (0 <=? cache_read_tokens u) && float_ge0 (cost_cny u).

(** A persisted chat message; its content is text or a list of parts. *)
Inductive message_content :=
  | ContentText (t : string)
  | ContentParts (parts : list (list (string * json))).
#[export] Instance message_content_eq_dec : EqDecision message_content.
Proof. solve_decision. Defined.
Record PersistedChatMessageV1 := mkMessage {
  msg_role : string;
  msg_content : message_content;
  msg_name : option string;
  msg_tool_call_id : option string;
  msg_tool_calls : option (list (list (string * json)));
  msg_reasoning_content : option string;
}.
#[export] Instance PersistedChatMessageV1_eq_dec : EqDecision PersistedChatMessageV1.
Proof. solve_decision. Defined.
Definition message_valid (m : PersistedChatMessageV1) : bool :=
  member (msg_role m) ["system"; "user"; "assistant"; "tool"].

Record ToolProposalV1 := mkProposal {
  tp_tool_call_id : string; tp_tool_name : string; tp_arguments : list (string * json);
  tp_arguments_hash : string; tp_tool_tier : string; tp_policy_rule_id : option string;
  tp_proposed_at : Z;
}.
#[export] Instance ToolProposalV1_eq_dec : EqDecision ToolProposalV1.
Proof. solve_decision. Defined.
Definition proposal_valid (p : ToolProposalV1) : bool :=
  hex64 (tp_arguments_hash p) && non_blank (tp_tool_call_id p) && non_blank (tp_tool_name p) &&
  non_blank (tp_tool_tier p) && optional_non_blank (tp_policy_rule_id p) &&
  hash_is (JObj (tp_arguments p)) (tp_arguments_hash p).

Record AgentContinuationV1 := mkAgent {
  ac_messages : list PersistedChatMessageV1;
  ac_pending_tool : option ToolProposalV1;
  ac_iteration : Z;
  ac_usage : PersistedUsageSummaryV1;
  ac_checkpoint_ref : option string;
  ac_pending_decision_id : option string;
  ac_resolved_decision_id : option string;
  ac_side_effect_cursor : Z;
  ac_plan_ref : option string;
  ac_plan_hash : option string;
  ac_plan_revision_id : option string;
  ac_plan_revisions : list PlanRevisionV1;
  ac_plan_snapshot : option (list (string * json));
  ac_scheduled_event_id : option string;
  ac_scheduled_event_hash : option string;
}.
#[export] Instance AgentContinuationV1_eq_dec : EqDecision AgentContinuationV1.
Proof. solve_decision. Defined.

Record IterationSummaryV1 := mkIteration {
  it_iteration : Z; it_level : string; it_output_artifact_ref : option string;
  it_critic_verdict : option string; it_critic_issue_class : option string;
  it_feedback : option string; it_usage : PersistedUsageSummaryV1; it_completed_at : Z;
}.
#[export] Instance IterationSummaryV1_eq_dec : EqDecision IterationSummaryV1.
Proof. solve_decision. Defined.

Record OuterLoopContinuationV1 := mkOuter {
  oc_level : string;
  oc_iteration : Z;
  oc_best_output : option string;
  oc_feedback : option string;
  oc_steer : option string;
  oc_history : list IterationSummaryV1;
  oc_same_issue_streak : Z;
  oc_last_critic_issue_class : option string;
  oc_l1_rounds_used : Z;
  oc_l2_rounds_used : Z;
  oc_consultation_advice : option string;
  oc_usage : PersistedUsageSummaryV1;
  oc_total_cost_cny : Z * Z;
  oc_checkpoint_ref : option string;
  oc_pending_decision_id : option string;
  oc_resolved_decision_id : option string;
  oc_side_effect_cursor : Z;
  oc_plan_continuation : option AgentContinuationV1;
}.
#[export] Instance OuterLoopContinuationV1_eq_dec : EqDecision OuterLoopContinuationV1.
Proof. solve_decision. Defined.

(** [ContinuationV1], discriminated by [kind] *)
Inductive ContinuationV1 :=
  | Agent (c : AgentContinuationV1)
  | OuterLoop (c : OuterLoopContinuationV1).
#[export] Instance ContinuationV1_eq_dec : EqDecision ContinuationV1.
Proof. solve_decision. Defined.

(** [continuation.model_copy(update={...})] *)
Definition set_agent_decisions (pending resolved : option string) (a : AgentContinuationV1) : AgentContinuationV1 :=
  mkAgent (ac_messages a) (ac_pending_tool a) (ac_iteration a) (ac_usage a) (ac_checkpoint_ref a) pending resolved
    (ac_side_effect_cursor a) (ac_plan_ref a) (ac_plan_hash a) (ac_plan_revision_id a) (ac_plan_revisions a)
    (ac_plan_snapshot a) (ac_scheduled_event_id a) (ac_scheduled_event_hash a).
Definition set_outer_decisions (pending resolved : option string) (o : OuterLoopContinuationV1) :
    OuterLoopContinuationV1 :=
  mkOuter (oc_level o) (oc_iteration o) (oc_best_output o) (oc_feedback o) (oc_steer o) (oc_history o)
    (oc_same_issue_streak o) (oc_last_critic_issue_class o) (oc_l1_rounds_used o) (oc_l2_rounds_used o)
    (oc_consultation_advice o) (oc_usage o) (oc_total_cost_cny o) (oc_checkpoint_ref o) pending resolved
    (oc_side_effect_cursor o) (oc_plan_continuation o).
Definition set_decisions (pending resolved : option string) (c : ContinuationV1) : ContinuationV1 :=
  match c with
  | Agent a => Agent (set_agent_decisions pending resolved a)
  | OuterLoop o => OuterLoop (set_outer_decisions pending resolved o)
  end.

Definition pending_decision_id (c : ContinuationV1) : option string :=
  match c with Agent a => ac_pending_decision_id a | OuterLoop o => oc_pending_decision_id o end.
Definition resolved_decision_id (c : ContinuationV1) : option string :=
  match c with Agent a => ac_resolved_decision_id a | OuterLoop o => oc_resolved_decision_id o end.
Definition cont_cursor (c : ContinuationV1) : Z :=
  match c with Agent a => ac_side_effect_cursor a | OuterLoop o => oc_side_effect_cursor o end.
Definition cont_checkpoint (c : ContinuationV1) : option string :=
  match c with Agent a => ac_checkpoint_ref a | OuterLoop o => oc_checkpoint_ref o end.

Definition agent_plan_continuation (c : ContinuationV1) : option AgentContinuationV1 :=
  match c with Agent a => Some a | OuterLoop o => oc_plan_continuation o end.

Record RunStateV1 := mkRunState {
  rs_memorial_id : string;
  rs_edict_id : string;
  rs_phase : RunPhase;
  rs_continuation : ContinuationV1;
  rs_checkpoint_ref : option string;
  rs_side_effect_cursor : Z;
  rs_version : Z;
  rs_created_at : Z;
  rs_updated_at : Z;
}.
#[export] Instance RunStateV1_eq_dec : EqDecision RunStateV1.
Proof. solve_decision. Defined.

Section run_state_validators.
Context (redact_text : string → string).

Definition last_revision (l : list PlanRevisionV1) : option PlanRevisionV1 := last l.

(** [AgentContinuationV1.validate_plan_binding] *)
Definition plan_binding_ok (a : AgentContinuationV1) : bool :=
  bool_decide (is_none (ac_plan_ref a) = is_none (ac_plan_hash a)) &&
  optional_non_blank (ac_plan_ref a) &&
  (match last_revision (ac_plan_revisions a) with
   | Some current =>
       plan_revision_lineage_valid redact_text (ac_plan_revisions a) &&
       bool_decide (ac_plan_revision_id a = Some (revision_id current)) &&
       bool_decide (ac_plan_hash a = Some (v_plan_hash current)) &&
       match ac_plan_snapshot a with
       | Some s => hash_is (JObj s) (v_plan_hash current)
       | None => false
       end
   | None => is_none (ac_plan_revision_id a) && is_none (ac_plan_snapshot a)
   end) &&
  bool_decide (is_none (ac_scheduled_event_id a) = is_none (ac_scheduled_event_hash a)) &&
  optional_non_blank (ac_scheduled_event_id a).

Definition opt_hex64 (o : option string) : bool :=
  match o with Some h => hex64 h | None => true end.

Definition agent_valid (a : AgentContinuationV1) : bool :=
  forallb message_valid (ac_messages a) &&
  match ac_pending_tool a with Some p => proposal_valid p | None => true end &&
  (0 <=? ac_iteration a) && usage_valid (ac_usage a) && (0 <=? ac_side_effect_cursor a) &&
  opt_hex64 (ac_plan_hash a) && opt_hex64 (ac_scheduled_event_hash a) && plan_binding_ok a.

Definition level_valid (l : string) : bool := member l ["L0"; "L1"; "L2"; "L3"].
Definition iteration_valid (i : IterationSummaryV1) : bool :=
  (0 <=? it_iteration i) && level_valid (it_level i) &&
  optional_non_blank (it_critic_verdict i) && usage_valid (it_usage i).

(** [total_cost_cny] is a [Decimal], kept as digits and exponent. *)
Definition outer_valid (o : OuterLoopContinuationV1) : bool :=
  level_valid (oc_level o) && (0 <=? oc_iteration o) && forallb iteration_valid (oc_history o) &&
  (0 <=? oc_same_issue_streak o) && (0 <=? oc_l1_rounds_used o) && (0 <=? oc_l2_rounds_used o) &&
  usage_valid (oc_usage o) && (0 <=? (oc_total_cost_cny o).1) && (0 <=? oc_side_effect_cursor o) &&
  match oc_plan_continuation o with Some a => agent_valid a | None => true end.

Definition continuation_valid (c : ContinuationV1) : bool :=
  match c with Agent a => agent_valid a | OuterLoop o => outer_valid o end.

(** Field constraints and [validate_integrity] of [RunStateV1]. *)
Definition run_state_valid (s : RunStateV1) : bool :=
  non_blank (rs_memorial_id s) && non_blank (rs_edict_id s) &&
  continuation_valid (rs_continuation s) &&
  (0 <=? rs_side_effect_cursor s) && (1 <=? rs_version s) &&
  (rs_created_at s <=? rs_updated_at s) &&
  (rs_side_effect_cursor s =? cont_cursor (rs_continuation s)) &&
  bool_decide (rs_checkpoint_ref s = cont_checkpoint (rs_continuation s)).
End run_state_validators.

(** ** Side-effect intents and receipts (models/side_effect.py) *)

Inductive SideEffectSemantics :=
  | PROVIDER_IDEMPOTENT | RECEIPT_LOOKUP | WORKSPACE_ONLY | UNTRACKED_EXTERNAL | OPAQUE_CLI.
#[export] Instance SideEffectSemantics_eq_dec : EqDecision SideEffectSemantics.
Proof. solve_decision. Defined.

Definition semantics_value (s : SideEffectSemantics) : string :=
  match s with
  | PROVIDER_IDEMPOTENT => "provider_idempotent"
  | RECEIPT_LOOKUP => "receipt_lookup"
  | WORKSPACE_ONLY => "workspace_only"
  | UNTRACKED_EXTERNAL => "untracked_external"
  | OPAQUE_CLI => "opaque_cli"
  end.

Inductive SideEffectStatus := INTENDED | RECEIPTED | UNCERTAIN.
#[export] Instance SideEffectStatus_eq_dec : EqDecision SideEffectStatus.
Proof. solve_decision. Defined.

(** [_SUPPORTED_PROVIDER_SEMANTICS] *)
Definition supported_semantics (s : SideEffectSemantics) : bool :=
  match s with PROVIDER_IDEMPOTENT | RECEIPT_LOOKUP => true | _ => false end.

Record SideEffectIntentV1 := mkIntent {
  intent_id : string;
  effect_id : string;
  i_edict_id : string;
  i_memorial_id : string;
  i_attempt_id : string;
  i_owner_id : string;
  i_fencing_token : Z;
  sequence_no : Z;
  boundary : string;
  operation : string;
  semantics : SideEffectSemantics;
  provider_idempotency_key : option string;
  request_metadata : list (string * json);
  request_hash : string;
  intent_hash : string;
  i_status : SideEffectStatus;
  i_reason_code : option string;
  i_version : Z;
  i_created_at : Z;
  i_updated_at : Z;
}.
#[export] Instance SideEffectIntentV1_eq_dec : EqDecision SideEffectIntentV1.
Proof. solve_decision. Defined.

Record SideEffectReceiptV1 := mkReceipt {
  rc_intent_id : string;
  rc_effect_id : string;
  rct_edict_id : string;
  rct_memorial_id : string;
  rc_attempt_id : string;
  rc_owner_id : string;
  rc_fencing_token : Z;
  provider_receipt_id : string;
  result_metadata : list (string * json);
  result_hash : string;
  rc_version : Z;
  effective_at : Z;
  recorded_at : Z;
}.
#[export] Instance SideEffectReceiptV1_eq_dec : EqDecision SideEffectReceiptV1.
Proof. solve_decision. Defined.

(** [_validate_metadata_shape] *)
Fixpoint metadata_shape_ok (depth : nat) (v : json) : bool :=
  bool_decide (depth ≤ 4)%nat &&
  match v with
  | JStr s => bool_decide (py_len s ≤ 4096)%nat
  | JList l => bool_decide (length l ≤ 64)%nat && forallb (metadata_shape_ok (S depth)) l
  | JObj items =>
      bool_decide (length items ≤ 32)%nat &&
      forallb (λ kv : string * json,
        bool_decide (py_len kv.1 ≤ 4096)%nat && metadata_shape_ok (S depth) kv.2) items
  | _ => true
  end.

(** [_identity_payload] *)
Definition identity_payload (effect_id edict_id memorial_id : string) (sequence_no : Z)
    (boundary operation : string) (semantics : SideEffectSemantics) (request_hash : string) : json :=
  JObj [("effect_id", JStr effect_id); ("edict_id", JStr edict_id);
        ("memorial_id", JStr memorial_id); ("sequence_no", JInt sequence_no);
        ("boundary", JStr boundary); ("operation", JStr operation);
        ("semantics", JStr (semantics_value semantics)); ("request_hash", JStr request_hash)].

(** [_intent_payload] *)
Definition intent_payload (i : SideEffectIntentV1) : json :=
  JObj [("intent_id", JStr (intent_id i)); ("effect_id", JStr (effect_id i));
        ("edict_id", JStr (i_edict_id i)); ("memorial_id", JStr (i_memorial_id i));
        ("attempt_id", JStr (i_attempt_id i)); ("owner_id", JStr (i_owner_id i));
        ("fencing_token", JInt (i_fencing_token i)); ("sequence_no", JInt (sequence_no i));
        ("boundary", JStr (boundary i)); ("operation", JStr (operation i));
        ("semantics", JStr (semantics_value (semantics i)));
        ("request_hash", JStr (request_hash i));
        ("provider_idempotency_key",
         match provider_idempotency_key i with Some k => JStr k | None => JNull end)].

Section side_effect_validators.
Context (redact_text : string → string).

(** [_require_safe_metadata]: whether it returns *)
Definition safe_metadata (m : list (string * json)) : bool :=
  negb (contains_raw_sensitive_payload redact_text false (JObj m)) &&
  match canonical_json_bytes (JObj m) with
  | Ok b => bool_decide (String.length b ≤ 16384)%nat
  | Err _ => false
  end &&
  metadata_shape_ok 0 (JObj m).

(** Field constraints and [validate_integrity] of [SideEffectIntentV1]. *)
Definition intent_valid (i : SideEffectIntentV1) : bool :=
  hex64 (intent_id i) && hex64 (request_hash i) && hex64 (intent_hash i) &&
  (1 <=? i_fencing_token i) && (0 <=? sequence_no i) && (1 <=? i_version i) &&
  non_blank (effect_id i) && non_blank (i_edict_id i) && non_blank (i_memorial_id i) &&
  non_blank (i_attempt_id i) && non_blank (i_owner_id i) && non_blank (boundary i) &&
  non_blank (operation i) && optional_non_blank (provider_idempotency_key i) &&
  optional_non_blank (i_reason_code i) && safe_metadata (request_metadata i) &&
  (i_created_at i <=? i_updated_at i) &&
  hash_is (JObj (request_metadata i)) (request_hash i) &&
  hash_is (identity_payload (effect_id i) (i_edict_id i) (i_memorial_id i) (sequence_no i)
             (boundary i) (operation i) (semantics i) (request_hash i)) (intent_id i) &&
  bool_decide (provider_idempotency_key i =
               if supported_semantics (semantics i) then Some (intent_id i) else None) &&
  hash_is (intent_payload i) (intent_hash i) &&
  bool_decide (is_some (i_reason_code i) = bool_decide (i_status i = UNCERTAIN)).

(** Field constraints and [validate_integrity] of [SideEffectReceiptV1]. *)
Definition receipt_valid (r : SideEffectReceiptV1) : bool :=
  hex64 (rc_intent_id r) && hex64 (result_hash r) && (1 <=? rc_fencing_token r) &&
  (2 <=? rc_version r) &&
  non_blank (rc_effect_id r) && non_blank (rct_edict_id r) && non_blank (rct_memorial_id r) &&
  non_blank (rc_attempt_id r) && non_blank (rc_owner_id r) && non_blank (provider_receipt_id r) &&
  safe_metadata (result_metadata r) &&
  hash_is (JObj (result_metadata r)) (result_hash r) && (effective_at r <=? recorded_at r).

(** [build_side_effect_intent] *)
Definition build_side_effect_intent (effect_id edict_id memorial_id attempt_id owner_id : string)
    (fencing_token sequence_no : Z) (boundary operation : string)
    (semantics : SideEffectSemantics) (request_metadata : list (string * json))
    (created_at : Z) (provider_key : option string) : result SideEffectIntentV1 :=
  match canonical_sha256 (JObj request_metadata) with
  | Err e => Err e
  | Ok request_hash =>
      match canonical_sha256 (identity_payload effect_id edict_id memorial_id sequence_no
                                boundary operation semantics request_hash) with
      | Err e => Err e
      | Ok id =>
          if supported_semantics semantics &&
             match provider_key with Some k => negb (bool_decide (k = id)) | None => false end
          then Err (Exn ValueError "provider idempotency key must equal the stable intent identity")
          else
            let key := if supported_semantics semantics then Some id else provider_key in
            let draft := λ h,
              mkIntent id effect_id edict_id memorial_id attempt_id owner_id fencing_token
                sequence_no boundary operation semantics key request_metadata request_hash h
                INTENDED None 1 created_at created_at in
            match canonical_sha256 (intent_payload (draft "")) with
            | Err e => Err e
            | Ok h =>
                if intent_valid (draft h) then Ok (draft h)
                else Err (Exn ValueError "SideEffectIntentV1 validation failed")
            end
      end
  end.
End side_effect_validators.
