(* ===== verification/Schema.v ===== *)
(** * The tables of the durable core

    Models the part of the SQLite schema (src/src/tianshu/storage/migrations.py,
    versions 9, 11, 12, 14, 15 and 17) the repositories of this library work
    on: one finite map per table, and for each table the [CHECK], foreign key,
    [UNIQUE] and trigger constraints as its [Table] instance.

    A row that stores a whole model keeps the model's record next to the
    columns the model does not have (the correlation identity, the columns of
    a receipt).  Of the operations modelled here only the end of an outer
    loop deletes rows (the checkpoint and the steers of its edict).  The
    deletion of a whole edict (storage/edict_repo.py, [delete_edict], with its
    cascades) is not modelled: the histories of the theorems contain none. *)

From S2P Require Import Prelude.
From S2P Require Import Sql.
From S2P Require Import Canonical.
From S2P Require Import SensitivePayload.
From S2P Require Import Models.

(** ** Rows *)

Record edict_row := mkEdictRow {
  ed_title : string;
  ed_goal : string;
  ed_submitter : string;
  ed_archived : bool;
  ed_runtime_json : option string;
  ed_acceptance_json : option string;
}.

(** The columns a terminal projection writes. *)
Record memorial_columns := mkMemorialColumns {
  mc_status : TaskStatus;
  mc_summary : option string;
  mc_result : option string;
  mc_final_output : option string;
  mc_usage_json : string;
  mc_reasoning_content : option string;
  mc_error : option string;
  mc_failure_reason : option string;
  mc_completed_at : option Z;
}.
Definition new_columns : memorial_columns :=
  mkMemorialColumns T_SUBMITTED None None None "{}" None None None None.

Record memorial_row := mkMemorialRow {
  mm_edict_id : string;
  mm_dag_node_id : option string;
  mm_columns : memorial_columns;
}.

(** The tables of the outer loop and the scheduler that a terminal projection
    reads or clears: the checkpoint of an edict, the pending steers by id with
    their edict, and the schedule type and status of the jobs. *)
Record job_row := mkJob {
  jb_edict_id : string;
  jb_schedule_type : string;
  jb_status : string;
}.
Record orchestration_tables := mkOrchestration {
  outer_loop_checkpoints : gmap string string;
  pending_steers : gmap string string;
  scheduler_jobs : gmap string job_row;
}.

Record attempt_row := mkAttemptRow {
  at_lease : AttemptLeaseV1;
  at_correlation_id : option string;
}.

Record run_state_row := mkRunStateRow {
  rn_state : RunStateV1;
  rn_correlation_id : option string;
}.

Record decision_row := mkDecisionRow {
  dc_request : DecisionRequestV1;
  dc_correlation_id : option string;
}.

(** The receipt columns of a journal row: all null or all set. *)
Record receipt_columns := mkReceiptColumns {
  receipt_attempt_id : string;
  receipt_owner_id : string;
  receipt_fencing_token : Z;
  j_provider_receipt_id : string;
  receipt_metadata : list (string * json);
  j_result_hash : string;
  j_effective_at : Z;
  j_recorded_at : Z;
}.

Record journal_row := mkJournalRow {
  j_intent : SideEffectIntentV1;
  j_uncertainty_decision_id : option string;
  j_receipt : option receipt_columns;
  j_correlation_id : option string;
}.

(** A column of integer affinity can hold a value of another storage class. *)
Inductive sql_value :=
  | SInt (z : Z)
  | SReal (f : pyfloat)
  | SText (s : string)
  | SBlob (bytes : string).
#[export] Instance sql_value_eq_dec : EqDecision sql_value.
Proof. solve_decision. Defined.

(** Numbers compare by value; text and blobs compare above every number. *)
Definition real_ge (f : pyfloat) (n : Z) : bool :=
  match float_value f with
  | Some (m, e) => if 0 <=? e then n <=? m * 2 ^ e else n * 2 ^ (- e) <=? m
  | None => bool_decide (float_repr f = "inf")
  end.
Definition sql_ge (v : sql_value) (n : Z) : bool :=
  match v with SInt z => n <=? z | SReal f => real_ge f n | _ => true end.
Definition sql_positive (v : sql_value) : bool :=
  match v with
  | SInt z => 0 <? z
  | SReal f => match float_value f with Some (m, _) => 0 <? m | None => bool_decide (float_repr f = "inf") end
  | _ => true
  end.

Inductive OutboxStatus := OB_PENDING | OB_CLAIMED | OB_PUBLISHED | OB_RETRY_WAIT | OB_DEAD_LETTER.
#[export] Instance OutboxStatus_eq_dec : EqDecision OutboxStatus.
Proof. solve_decision. Defined.

Record outbox_row := mkOutboxRow {
  ob_event_id : string;
  ob_event_type : string;
  ob_aggregate_type : string;
  ob_edict_id : option string;
  ob_memorial_id : option string;
  ob_producer : string;
  ob_payload_json : string;
  ob_occurred_at : Z;
  ob_available_at : Z;
  ob_status : OutboxStatus;
  ob_attempt_count : sql_value;
  ob_max_attempts : Z;
  ob_lease_owner : option string;
  ob_lease_expires_at : option Z;
  ob_last_error : option RedactedError;
  ob_published_at : option Z;
  ob_version : sql_value;
  ob_correlation_id : option string;
}.
#[export] Instance outbox_row_eq_dec : EqDecision outbox_row.
Proof. solve_decision. Defined.

Record consumption_row := mkConsumption {
  cn_result_hash : option string;
  cn_consumed_at : Z;
}.

(** [SubmissionIdempotencyRecord] *)
Record submission_row := mkSubmission {
  sb_request_hash : string;
  sb_edict_id : string;
  sb_memorial_id : string;
  sb_event_id : string;
  sb_response_json : string;
  sb_created_at : Z;
}.
#[export] Instance submission_row_eq_dec : EqDecision submission_row.
Proof. solve_decision. Defined.

Record evidence_row := mkEvidence {
  ev_memorial_id : string;
  ev_correlation_id : option string;
}.

(** The metadata and the creation time of an audit row are kept as the texts
    the chain hashes. *)
Record audit_row := mkAuditRow {
  au_sequence : Z;
  au_id : string;
  au_correlation_id : string;
  au_actor_digest : string;
  au_action : string;
  au_outcome : string;
  au_reason_code : string;
  au_subject_kind : string;
  au_subject_digest : string;
  au_metadata_json : string;
  au_previous_hash : string;
  au_event_hash : string;
  au_created_at : string;
}.
#[export] Instance audit_row_eq_dec : EqDecision audit_row.
Proof. solve_decision. Defined.

(** ** The database *)

Record db := mkDb {
  edicts : gmap string edict_row;
  memorials : gmap string memorial_row;
  execution_attempts : gmap string attempt_row;
  run_states : gmap string run_state_row;
  decision_requests : gmap string decision_row;
  decision_resolutions : gmap string DecisionResolutionV1;
  side_effect_journal : gmap string journal_row;
  outbox_events : gmap string outbox_row;
  outbox_consumptions : gmap (string * string) consumption_row;
  submission_idempotency : gmap (string * string) submission_row;
  evidence_bundles : gmap string evidence_row;
  system_audit_events : gmap Z audit_row;
  orchestration : orchestration_tables;
}.

Definition empty_db : db := mkDb ∅ ∅ ∅ ∅ ∅ ∅ ∅ ∅ ∅ ∅ ∅ ∅ (mkOrchestration ∅ ∅ ∅).

Definition has_edict (d : db) (id : string) : bool := is_some (edicts d !! id).
Definition has_memorial (d : db) (id : string) : bool := is_some (memorials d !! id).

(** ** [execution_attempts] (version 14) *)

Definition attempt_row_check (d : db) (r : attempt_row) : bool :=
  let a := at_lease r in
  sql_non_blank (attempt_id a) && has_memorial d (a_memorial_id a) &&
  (0 <? attempt_no a) && (0 <=? a_fencing_token a) &&
  (0 <? max_attempts a) && (attempt_no a <=? max_attempts a) && (0 <? a_version a) &&
  match a_status a with
  | CLAIMED =>
      match a_owner_id a, lease_expires_at a, heartbeat_at a with
      | Some o, Some l, Some h => sql_non_blank o && (h <? l) && (0 <? a_fencing_token a)
      | _, _, _ => false
      end
  | _ => is_none (a_owner_id a) && is_none (lease_expires_at a)
  end &&
  (if is_failed (a_status a) then is_some (a_failure a) else is_none (a_failure a)).

(** [UNIQUE (memorial_id, attempt_no)] and the partial index over the active
    statuses of a memorial. *)
Definition attempt_row_conflict (r r' : attempt_row) : bool :=
  let a := at_lease r in let b := at_lease r' in
  bool_decide (a_memorial_id a = a_memorial_id b) &&
  ((attempt_no a =? attempt_no b) || (is_active (a_status a) && is_active (a_status b))).

(** The trigger [execution_attempts_identity_immutable] *)
Definition attempt_row_frozen (r r' : attempt_row) : bool :=
  let a := at_lease r in let b := at_lease r' in
  bool_decide (attempt_id a = attempt_id b) && bool_decide (a_memorial_id a = a_memorial_id b) &&
  (attempt_no a =? attempt_no b) && (max_attempts a =? max_attempts b) &&
  (a_created_at a =? a_created_at b).

Definition set_execution_attempts (t : gmap string attempt_row) (d : db) : db :=
  mkDb (edicts d) (memorials d) t (run_states d) (decision_requests d)
    (decision_resolutions d) (side_effect_journal d) (outbox_events d) (outbox_consumptions d)
    (submission_idempotency d) (evidence_bundles d)
    (system_audit_events d) (orchestration d).

#[export] Program Instance attempts_table : Table db string attempt_row := {
  tbl := execution_attempts;
  set_tbl := set_execution_attempts;
  row_check := attempt_row_check;
  row_conflict := attempt_row_conflict;
  row_frozen := attempt_row_frozen;
}.
Next Obligation. done. Qed.

(** ** [run_states] (versions 11 and 12) *)

(** The shape trigger of version 12 reads the continuation's JSON, which is
    written from a valid continuation; what it compares with the columns is
    the checkpoint and the cursor. *)
Definition run_state_row_check (d : db) (r : run_state_row) : bool :=
  let s := rn_state r in
  has_memorial d (rs_memorial_id s) && has_edict d (rs_edict_id s) &&
  (0 <=? rs_side_effect_cursor s) && (0 <? rs_version s) &&
  bool_decide (rs_checkpoint_ref s = cont_checkpoint (rs_continuation s)) &&
  (rs_side_effect_cursor s =? cont_cursor (rs_continuation s)) &&
  match rs_continuation s with OuterLoop o => level_valid (oc_level o) | Agent _ => true end.

Definition set_run_states (t : gmap string run_state_row) (d : db) : db :=
  mkDb (edicts d) (memorials d) (execution_attempts d) t (decision_requests d)
    (decision_resolutions d) (side_effect_journal d) (outbox_events d) (outbox_consumptions d)
    (submission_idempotency d) (evidence_bundles d)
    (system_audit_events d) (orchestration d).

#[export] Program Instance run_states_table : Table db string run_state_row := {
  tbl := run_states;
  set_tbl := set_run_states;
  row_check := run_state_row_check;
  row_conflict := λ _ _, false;
  row_frozen := λ _ _, true;
}.
Next Obligation. done. Qed.

(** ** [decision_requests] and [decision_resolutions] (versions 11 and 12) *)

Definition decision_row_check (d : db) (r : decision_row) : bool :=
  let q := dc_request r in
  has_edict d (d_edict_id q) && has_memorial d (d_memorial_id q) &&
  sql_non_blank (request_key q) && hex64 (d_payload_hash q) && sql_non_blank (requested_by q) &&
  (0 <? d_version q).

(** [UNIQUE (memorial_id, kind, request_key)] *)
Definition same_identity (q q' : DecisionRequestV1) : bool :=
  bool_decide (d_memorial_id q = d_memorial_id q') && bool_decide (d_kind q = d_kind q') &&
  bool_decide (request_key q = request_key q').
Definition decision_row_conflict (r r' : decision_row) : bool :=
  same_identity (dc_request r) (dc_request r').

Definition set_decision_requests (t : gmap string decision_row) (d : db) : db :=
  mkDb (edicts d) (memorials d) (execution_attempts d) (run_states d) t
    (decision_resolutions d) (side_effect_journal d) (outbox_events d) (outbox_consumptions d)
    (submission_idempotency d) (evidence_bundles d)
    (system_audit_events d) (orchestration d).

#[export] Program Instance decision_requests_table : Table db string decision_row := {
  tbl := decision_requests;
  set_tbl := set_decision_requests;
  row_check := decision_row_check;
  row_conflict := decision_row_conflict;
  row_frozen := λ _ _, true;
}.
Next Obligation. done. Qed.

Definition resolution_row_check (d : db) (r : DecisionResolutionV1) : bool :=
  is_some (decision_requests d !! r_decision_request_id r) &&
  sql_non_blank (r_action r) && sql_non_blank (r_reason r) &&
  sql_non_blank (actor_principal_id r) && sql_non_blank (actor_display_name r).

Definition set_decision_resolutions (t : gmap string DecisionResolutionV1) (d : db) : db :=
  mkDb (edicts d) (memorials d) (execution_attempts d) (run_states d) (decision_requests d)
    t (side_effect_journal d) (outbox_events d) (outbox_consumptions d)
    (submission_idempotency d) (evidence_bundles d)
    (system_audit_events d) (orchestration d).

(** The trigger [decision_resolutions_no_update] refuses every update. *)
#[export] Program Instance decision_resolutions_table : Table db string DecisionResolutionV1 := {
  tbl := decision_resolutions;
  set_tbl := set_decision_resolutions;
  row_check := resolution_row_check;
  row_conflict := λ _ _, false;
  row_frozen := λ _ _, false;
}.
Next Obligation. done. Qed.

(** ** [side_effect_journal] (version 15) *)

Definition journal_row_check (d : db) (r : journal_row) : bool :=
  let i := j_intent r in
  hex64 (intent_id i) && sql_non_blank (effect_id i) &&
  has_edict d (i_edict_id i) && has_memorial d (i_memorial_id i) &&
  is_some (execution_attempts d !! i_attempt_id i) && sql_non_blank (i_owner_id i) &&
  (0 <? i_fencing_token i) && (0 <=? sequence_no i) &&
  sql_non_blank (boundary i) && sql_non_blank (operation i) &&
  hex64 (request_hash i) && hex64 (intent_hash i) && (0 <? i_version i) &&
  bool_decide (provider_idempotency_key i =
               if supported_semantics (semantics i) then Some (intent_id i) else None) &&
  match i_status i with
  | INTENDED =>
      is_none (i_reason_code i) && is_none (j_uncertainty_decision_id r) && is_none (j_receipt r)
  | UNCERTAIN =>
      match i_reason_code i, j_uncertainty_decision_id r with
      | Some c, Some q => sql_non_blank c && is_some (decision_requests d !! q)
      | _, _ => false
      end && is_none (j_receipt r)
  | RECEIPTED =>
      is_none (i_reason_code i) && is_none (j_uncertainty_decision_id r) &&
      match j_receipt r with
      | Some c =>
          is_some (execution_attempts d !! receipt_attempt_id c) &&
          sql_non_blank (receipt_owner_id c) && (0 <? receipt_fencing_token c) &&
          sql_non_blank (j_provider_receipt_id c) && hex64 (j_result_hash c)
      | None => false
      end
  end.

(** [UNIQUE (effect_id)], [UNIQUE (memorial_id, sequence_no)] and the partial
    index over the provider keys of a boundary. *)
Definition journal_row_conflict (r r' : journal_row) : bool :=
  let i := j_intent r in let j := j_intent r' in
  bool_decide (effect_id i = effect_id j) ||
  (bool_decide (i_memorial_id i = i_memorial_id j) && (sequence_no i =? sequence_no j)) ||
  (bool_decide (boundary i = boundary j) && is_some (provider_idempotency_key i) &&
   bool_decide (provider_idempotency_key i = provider_idempotency_key j)).

(** The trigger [side_effect_journal_identity_immutable] *)
Definition journal_row_frozen (r r' : journal_row) : bool :=
  let i := j_intent r in let j := j_intent r' in
  bool_decide (intent_id i = intent_id j) && bool_decide (effect_id i = effect_id j) &&
  bool_decide (i_edict_id i = i_edict_id j) && bool_decide (i_memorial_id i = i_memorial_id j) &&
  bool_decide (i_attempt_id i = i_attempt_id j) && bool_decide (i_owner_id i = i_owner_id j) &&
  (i_fencing_token i =? i_fencing_token j) && (sequence_no i =? sequence_no j) &&
  bool_decide (boundary i = boundary j) && bool_decide (operation i = operation j) &&
  bool_decide (semantics i = semantics j) &&
  bool_decide (provider_idempotency_key i = provider_idempotency_key j) &&
  bool_decide (request_metadata i = request_metadata j) &&
  bool_decide (request_hash i = request_hash j) && bool_decide (intent_hash i = intent_hash j) &&
  (i_created_at i =? i_created_at j).

Definition set_side_effect_journal (t : gmap string journal_row) (d : db) : db :=
  mkDb (edicts d) (memorials d) (execution_attempts d) (run_states d) (decision_requests d)
    (decision_resolutions d) t (outbox_events d) (outbox_consumptions d)
    (submission_idempotency d) (evidence_bundles d)
    (system_audit_events d) (orchestration d).

#[export] Program Instance journal_table : Table db string journal_row := {
  tbl := side_effect_journal;
  set_tbl := set_side_effect_journal;
  row_check := journal_row_check;
  row_conflict := journal_row_conflict;
  row_frozen := journal_row_frozen;
}.
Next Obligation. done. Qed.

(** ** [outbox_events], [outbox_consumptions], [submission_idempotency]
    (version 9) *)

Definition optional_ref (f : string → bool) (o : option string) : bool :=
  match o with Some id => f id | None => true end.

Definition outbox_row_check (d : db) (r : outbox_row) : bool :=
  optional_ref (has_edict d) (ob_edict_id r) && optional_ref (has_memorial d) (ob_memorial_id r) &&
  sql_ge (ob_attempt_count r) 0 && (0 <? ob_max_attempts r) && sql_positive (ob_version r).

Definition set_outbox_events (t : gmap string outbox_row) (d : db) : db :=
  mkDb (edicts d) (memorials d) (execution_attempts d) (run_states d) (decision_requests d)
    (decision_resolutions d) (side_effect_journal d) t (outbox_consumptions d)
    (submission_idempotency d) (evidence_bundles d)
    (system_audit_events d) (orchestration d).

#[export] Program Instance outbox_table : Table db string outbox_row := {
  tbl := outbox_events;
  set_tbl := set_outbox_events;
  row_check := outbox_row_check;
  row_conflict := λ _ _, false;
  row_frozen := λ _ _, true;
}.
Next Obligation. done. Qed.

Definition set_outbox_consumptions (t : gmap (string * string) consumption_row) (d : db) : db :=
  mkDb (edicts d) (memorials d) (execution_attempts d) (run_states d) (decision_requests d)
    (decision_resolutions d) (side_effect_journal d) (outbox_events d) t
    (submission_idempotency d) (evidence_bundles d)
    (system_audit_events d) (orchestration d).

Definition set_submission_idempotency (t : gmap (string * string) submission_row) (d : db) : db :=
  mkDb (edicts d) (memorials d) (execution_attempts d) (run_states d) (decision_requests d)
    (decision_resolutions d) (side_effect_journal d) (outbox_events d) (outbox_consumptions d)
    t (evidence_bundles d)
    (system_audit_events d) (orchestration d).

Definition submission_row_check (d : db) (r : submission_row) : bool :=
  bool_decide (String.length (sb_request_hash r) = 64%nat) &&
  has_edict d (sb_edict_id r) && has_memorial d (sb_memorial_id r) &&
  is_some (outbox_events d !! sb_event_id r).

(** [UNIQUE (event_id)] *)
#[export] Program Instance submissions_table : Table db (string * string) submission_row := {
  tbl := submission_idempotency;
  set_tbl := set_submission_idempotency;
  row_check := submission_row_check;
  row_conflict := λ r r', bool_decide (sb_event_id r = sb_event_id r');
  row_frozen := λ _ _, true;
}.
Next Obligation. done. Qed.

(** ** [system_audit_events] (version 7) *)

Definition audit_row_check (_ : db) (r : audit_row) : bool :=
  (0 <? au_sequence r) &&
  bool_decide (String.length (au_actor_digest r) = 64%nat) &&
  member (au_outcome r) ["allowed"; "denied"; "succeeded"; "failed"] &&
  bool_decide (String.length (au_subject_digest r) = 64%nat) &&
  bool_decide (String.length (au_previous_hash r) = 64%nat) &&
  bool_decide (String.length (au_event_hash r) = 64%nat).

Definition set_system_audit_events (t : gmap Z audit_row) (d : db) : db :=
  mkDb (edicts d) (memorials d) (execution_attempts d) (run_states d) (decision_requests d)
    (decision_resolutions d) (side_effect_journal d) (outbox_events d) (outbox_consumptions d)
    (submission_idempotency d) (evidence_bundles d) t (orchestration d).

(** [UNIQUE] on the id and the hash; the triggers refuse every update. *)
#[export] Program Instance audit_table : Table db Z audit_row := {
  tbl := system_audit_events;
  set_tbl := set_system_audit_events;
  row_check := audit_row_check;
  row_conflict := λ r r', bool_decide (au_id r = au_id r') || bool_decide (au_event_hash r = au_event_hash r');
  row_frozen := λ _ _, false;
}.
Next Obligation. done. Qed.

(** ** [memorials] and [edicts] *)

Definition set_memorials (t : gmap string memorial_row) (d : db) : db :=
  mkDb (edicts d) t (execution_attempts d) (run_states d) (decision_requests d)
    (decision_resolutions d) (side_effect_journal d) (outbox_events d) (outbox_consumptions d)
    (submission_idempotency d) (evidence_bundles d) (system_audit_events d) (orchestration d).

#[export] Program Instance memorials_table : Table db string memorial_row := {
  tbl := memorials;
  set_tbl := set_memorials;
  row_check := λ d r, has_edict d (mm_edict_id r);
  row_conflict := λ _ _, false;
  row_frozen := λ _ _, true;
}.
Next Obligation. done. Qed.

Definition set_edicts (t : gmap string edict_row) (d : db) : db :=
  mkDb t (memorials d) (execution_attempts d) (run_states d) (decision_requests d)
    (decision_resolutions d) (side_effect_journal d) (outbox_events d) (outbox_consumptions d)
    (submission_idempotency d) (evidence_bundles d) (system_audit_events d) (orchestration d).

#[export] Program Instance edicts_table : Table db string edict_row := {
  tbl := edicts;
  set_tbl := set_edicts;
  row_check := λ _ _, true;
  row_conflict := λ _ _, false;
  row_frozen := λ _ _, true;
}.
Next Obligation. done. Qed.

Definition set_orchestration (t : orchestration_tables) (d : db) : db :=
  mkDb (edicts d) (memorials d) (execution_attempts d) (run_states d) (decision_requests d)
    (decision_resolutions d) (side_effect_journal d) (outbox_events d) (outbox_consumptions d)
    (submission_idempotency d) (evidence_bundles d) (system_audit_events d) t.
