(* ===== verification/Correlation.v ===== *)
(** * The correlation identity of a memorial

    Models src/src/tianshu/storage/correlation.py: the identity written into
    every durable row of a memorial, taken from the first ingress event, from
    an explicit value, from any row already stored, or derived from the
    memorial id. *)

From S2P Require Import Prelude.
From S2P Require Import Sql.
From S2P Require Import Canonical.
From S2P Require Import SensitivePayload.
From S2P Require Import Models.
From S2P Require Import Schema.

Definition require_correlation_id (value : string) : M db string :=
  guard (is_identifier value) ValueError "correlation_id must be an opaque identifier" ;;;
  ret value.

(** [ORDER BY occurred_at, event_id] *)
Definition event_order (r r' : outbox_row) : bool :=
  le_of (lex (ob_occurred_at r ?= ob_occurred_at r')
             (text_compare (ob_event_id r) (ob_event_id r'))).

(** A correlation identity stored in one of the five other tables; without an
    [ORDER BY] any such row may be returned first. *)
Definition stored_correlation (d : db) (memorial_id : string) : option string :=
  let pick {Row} (mem : Row → string) (corr : Row → option string) (t : gmap string Row) :=
    head (omap corr (where_rows (λ r, bool_decide (mem r = memorial_id) && is_some (corr r)) t)) in
  match pick (λ r, d_memorial_id (dc_request r)) dc_correlation_id (decision_requests d) with
  | Some c => Some c
  | None =>
  match pick (λ r, rs_memorial_id (rn_state r)) rn_correlation_id (run_states d) with
  | Some c => Some c
  | None =>
  match pick (λ r, a_memorial_id (at_lease r)) at_correlation_id (execution_attempts d) with
  | Some c => Some c
  | None =>
  match pick (λ r, i_memorial_id (j_intent r)) j_correlation_id (side_effect_journal d) with
  | Some c => Some c
  | None => pick ev_memorial_id ev_correlation_id (evidence_bundles d)
  end end end end.

Definition legacy_correlation (memorial_id : string) : string :=
  "legacy:" +:+ Sha256.hexdigest memorial_id.

Definition correlation_for_memorial (memorial_id : string) (explicit : option string) :
    M db string := λ d,
  let rows := where_rows (λ r, bool_decide (ob_memorial_id r = Some memorial_id) &&
                               is_some (ob_correlation_id r)) (outbox_events d) in
  match head (omap ob_correlation_id (order_by event_order rows)) with
  | Some c => require_correlation_id c d
  | None =>
      match explicit with
      | Some c => require_correlation_id c d
      | None =>
          match stored_correlation d memorial_id with
          | Some c => require_correlation_id c d
          | None => (Ok (legacy_correlation memorial_id), d)
          end
      end
  end.

(** Every correlation identity stored in the six tables is well formed. *)
Definition optional_identifier (o : option string) : bool := optional_ref is_identifier o.
Definition correlations_ok (d : db) : Prop :=
  map_Forall (λ _ r, optional_identifier (ob_correlation_id r) = true) (outbox_events d) ∧
  map_Forall (λ _ r, optional_identifier (dc_correlation_id r) = true) (decision_requests d) ∧
  map_Forall (λ _ r, optional_identifier (rn_correlation_id r) = true) (run_states d) ∧
  map_Forall (λ _ r, optional_identifier (at_correlation_id r) = true) (execution_attempts d) ∧
  map_Forall (λ _ r, optional_identifier (j_correlation_id r) = true) (side_effect_journal d) ∧
  map_Forall (λ _ r, optional_identifier (ev_correlation_id r) = true) (evidence_bundles d).

Lemma hex_ident_char c : is_hex c = true → ident_char c = true.
Proof.
  unfold is_hex, ident_char, is_lower, is_upper, is_digit. intros H.
  destruct (orb_prop _ _ H); bools; rewrite ?orb_true_iff; [left; right|left; left; left];
    apply bool_decide_eq_true; lia.
Qed.

Lemma legacy_is_identifier m : is_identifier (legacy_correlation m) = true.
Proof.
  unfold is_identifier, legacy_correlation. rewrite text_app. cbn.
  pose proof (hexdigest_hex64 m) as H. unfold hex64 in H. bools.
  rewrite length_text, H. cbn. eapply forallb_impl; [|done]. apply hex_ident_char.
Qed.

Lemma require_correlation_id_Ok c d :
  is_identifier c = true → require_correlation_id c d = (Ok c, d).
Proof. unfold require_correlation_id. by intros ->. Qed.

Lemma require_correlation_id_inv c d r d' :
  require_correlation_id c d = (r, d') → d' = d ∧ (r = Ok c ∧ is_identifier c = true ∨
    r = Err (Exn ValueError "correlation_id must be an opaque identifier")).
Proof.
  unfold require_correlation_id, bind, guard, ret, raise. destruct (is_identifier c); naive_solver.
Qed.

Lemma head_omap_elem {A B} (f : A → option B) l b :
  head (omap f l) = Some b → ∃ a, a ∈ l ∧ f a = Some b.
Proof. intros H%head_Some_elem_of. by apply list_elem_of_omap in H. Qed.

(** Resolving a correlation reads the tables and changes none of them. *)
Lemma correlation_state m e d : (correlation_for_memorial m e d).2 = d.
Proof.
  unfold correlation_for_memorial. repeat case_match; cbn; try done;
    match goal with |- context [require_correlation_id ?c d] =>
      destruct (require_correlation_id c d) eqn:E; apply require_correlation_id_inv in E;
      naive_solver end.
Qed.

Lemma correlation_Ok_inv m e d c d' :
  correlation_for_memorial m e d = (Ok c, d') → d' = d ∧ is_identifier c = true.
Proof.
  unfold correlation_for_memorial. intros H. repeat case_match; simplify_eq;
    try (apply require_correlation_id_inv in H; naive_solver).
  split; [done|]. apply legacy_is_identifier.
Qed.

Lemma stored_correlation_ok d m c :
  correlations_ok d → stored_correlation d m = Some c → is_identifier c = true.
Proof.
  intros (_ & Hd & Hr & Ha & Hj & He). unfold stored_correlation.
  intros H. repeat case_match; simplify_eq;
    match goal with Hh : head _ = Some c |- _ =>
      apply head_omap_elem in Hh as (r & [_ [k Hk]]%elem_of_where_rows & Hc) end;
    match goal with Ht : map_Forall _ ?t, Hk : ?t !! _ = Some _ |- _ =>
      specialize (Ht _ _ Hk); cbn in Ht; rewrite Hc in Ht; exact Ht end.
Qed.

(** With well-formed stored identities a correlation always exists. *)
Lemma correlation_total m d :
  correlations_ok d → ∃ c, correlation_for_memorial m None d = (Ok c, d) ∧ is_identifier c = true.
Proof.
  intros Hok. unfold correlation_for_memorial.
  destruct (head _) as [c|] eqn:Eh.
  - apply head_omap_elem in Eh as (r & Hr & Hc).
    apply elem_of_order_by in Hr. apply elem_of_where_rows in Hr as [_ [k Hk]].
    destruct Hok as [Ho _]. specialize (Ho _ _ Hk). cbn in Ho. rewrite Hc in Ho. cbn in Ho.
    exists c. auto using require_correlation_id_Ok.
  - destruct (stored_correlation d m) as [c|] eqn:Es.
    + pose proof (stored_correlation_ok _ _ _ Hok Es). eauto using require_correlation_id_Ok.
    + eauto using legacy_is_identifier.
Qed.
