(* ===== verification/AttemptLedger.v ===== *)
(** * Leases and fencing of execution attempts

    Models src/src/tianshu/storage/attempt_ledger.py.  The clock readings and
    the fresh identifiers ([datetime.now], [ULID()]) are arguments.  A method
    that owns its unit of work is wrapped in [atomically]; a method that is
    handed a connection is a plain computation, its caller owning the
    transaction. *)

From S2P Require Import Prelude.
From S2P Require Import Sql.
From S2P Require Import Canonical.
From S2P Require Import Timestamp.
From S2P Require Import UnitOfWork.
From S2P Require Import Models.
From S2P Require Import Schema.
From S2P Require Import Correlation.

(** ** Row access *)

(** [_non_blank] *)
Definition require_non_blank (value field : string) : M db unit :=
  guard (non_blank value) ValueError (field +:+ " must be non-blank").

Definition require_positive (n : Z) (field : string) : M db unit :=
  guard (0 <? n) ValueError (field +:+ " must be a positive integer").

(** [_decode_attempt] *)
Definition decode_attempt (r : attempt_row) : M db AttemptLeaseV1 :=
  guard (attempt_valid (at_lease r)) AttemptDecodeError
    "persisted attempt violates the v1 contract" ;;;
  ret (at_lease r).

(** [_select_attempt] *)
Definition select_attempt (id : string) : M db (option AttemptLeaseV1) :=
  let! row := sql_get (Row := attempt_row) id in
  match row with
  | Some r => let! a := decode_attempt r in ret (Some a)
  | None => ret None
  end.

(** The row written for a new claimable attempt. *)
Definition new_attempt (id memorial_id : string) (no token available maxn created : Z) :
    AttemptLeaseV1 :=
  mkAttempt id memorial_id no CLAIMABLE None token None None available maxn None 1 created created.

(** [_insert_retry_attempt]; [fresh] is [str(ULID())]. *)
Definition insert_retry_attempt (fresh : string) (previous : AttemptLeaseV1)
    (available_at created_at : Z) : M db AttemptLeaseV1 :=
  let! correlation_id := correlation_for_memorial (a_memorial_id previous) None in
  sql_insert fresh
    (mkAttemptRow
       (new_attempt fresh (a_memorial_id previous) (attempt_no previous + 1)
          (a_fencing_token previous) available_at (max_attempts previous) created_at)
       (Some correlation_id)) ;;;
  let! created := select_attempt fresh in
  match created with
  | Some a => ret a
  | None => raise AttemptConflict "attempt retry row disappeared"
  end.

(** Field updates of a stored attempt. *)
Definition update_lease (f : AttemptLeaseV1 → AttemptLeaseV1) (r : attempt_row) : attempt_row :=
  mkAttemptRow (f (at_lease r)) (at_correlation_id r).

(** ** [AttemptLeaseRepository.enqueue_initial] *)

Definition enqueue_initial (memorial_id : string) (available_at : datetime) (maxn : Z)
    (requested_id : option string) (clock_now : Z) (fresh : string) : M db AttemptLeaseV1 :=
  require_non_blank memorial_id "memorial_id" ;;;
  match requested_id with Some i => require_non_blank i "attempt_id" | None => ret tt end ;;;
  let! available_at := to_utc available_at in
  require_positive maxn "max_attempts" ;;;
  let! d := get_state in
  match memorials d !! memorial_id with
  | None => raise AttemptConflict "attempt memorial does not exist"
  | Some m =>
      guard (is_none (mm_dag_node_id m)) AttemptConflict "attempt memorial is not a root" ;;;
      let! rows := sql_select (Row := attempt_row) (λ r,
        bool_decide (a_memorial_id (at_lease r) = memorial_id) && (attempt_no (at_lease r) =? 1)) in
      match head rows with
      | Some row =>
          let! existing := decode_attempt row in
          guard ((Models.available_at existing =? available_at) &&
                 (max_attempts existing =? maxn) &&
                 match requested_id with
                 | Some i => bool_decide (attempt_id existing = i)
                 | None => true
                 end)
            AttemptConflict "initial attempt replay does not match durable envelope" ;;;
          ret existing
      | None =>
          let created_at := Z.min clock_now available_at in
          let id := default fresh requested_id in
          let! correlation_id := correlation_for_memorial memorial_id None in
          try_except
            (sql_insert id
               (mkAttemptRow (new_attempt id memorial_id 1 0 available_at maxn created_at)
                  (Some correlation_id)))
            IntegrityError (λ _, raise AttemptConflict "initial attempt identity conflict") ;;;
          let! created := select_attempt id in
          match created with
          | Some a => ret a
          | None => raise AttemptConflict "initial attempt disappeared"
          end
      end
  end.

(** ** [list_dispatchable_memorial_ids] *)

(** [ORDER BY available_at, created_at, attempt_id] *)
Definition attempt_compare (a b : AttemptLeaseV1) : comparison :=
  lex (Models.available_at a ?= Models.available_at b)
    (lex (a_created_at a ?= a_created_at b) (text_compare (attempt_id a) (attempt_id b))).
Definition attempt_order (r r' : attempt_row) : bool :=
  le_of (attempt_compare (at_lease r) (at_lease r')).

Definition due (now : Z) (a : AttemptLeaseV1) : bool :=
  match a_status a with
  | CLAIMABLE => Models.available_at a <=? now
  | CLAIMED => match lease_expires_at a with Some l => l <=? now | None => false end
  | _ => false
  end.

Definition is_root (d : db) (memorial_id : string) : bool :=
  match memorials d !! memorial_id with Some m => is_none (mm_dag_node_id m) | None => false end.

Definition list_dispatchable_memorial_ids (now : datetime) (limit : Z) : M db (list string) :=
  let! now := to_utc now in
  require_positive limit "limit" ;;;
  atomically (λ d,
    let rows := where_rows (λ r, is_root d (a_memorial_id (at_lease r)) && due now (at_lease r))
                  (execution_attempts d) in
    (Ok ((λ r, a_memorial_id (at_lease r)) <$> take (Z.to_nat limit) (order_by attempt_order rows)), d)).

(** ** [require_current] *)

(** The condition under which an authority is current: the row is claimed by
    this owner under this token, and [now] falls within the lease. *)
Definition holds (a : AttemptLeaseV1) (owner_id : string) (token now : Z) : bool :=
  bool_decide (a_status a = CLAIMED) && bool_decide (a_owner_id a = Some owner_id) &&
  (a_fencing_token a =? token) &&
  match heartbeat_at a, lease_expires_at a with
  | Some h, Some l => (h <=? now) && (now <? l)
  | _, _ => false
  end.

Definition require_authority (attempt_id owner_id : string) (token : Z) : M db unit :=
  require_non_blank attempt_id "attempt_id" ;;;
  require_non_blank owner_id "owner_id" ;;;
  require_positive token "fencing_token".

(** A row whose timestamps are null fails [fromisoformat(str(None))], which is
    the same loss of the fence. *)
Definition require_current (attempt_id owner_id : string) (token : Z) (now : datetime) : M db unit :=
  require_authority attempt_id owner_id token ;;;
  let! now := to_utc now in
  let! row := sql_get (Row := attempt_row) attempt_id in
  guard (match row with Some r => holds (at_lease r) owner_id token now | None => false end)
    AttemptFenceLost "attempt authority is no longer current".

(** ** [claim] *)

Definition lease_expired_failure : RedactedError :=
  mkRedactedError "attempt_lease_expired" "execution lease expired" true None.

(** The columns [_expire_claim] writes. *)
Definition expired (exhausted : bool) (now : Z) (a : AttemptLeaseV1) : AttemptLeaseV1 :=
  mkAttempt (attempt_id a) (a_memorial_id a) (attempt_no a)
    (if exhausted then DEAD_LETTER else FAILED) None (a_fencing_token a) None (heartbeat_at a)
    (Models.available_at a) (max_attempts a) (Some lease_expired_failure)
    (a_version a + 1) (a_created_at a) now.

(** [_expire_claim] *)
Definition expire_claim (fresh : string) (current : AttemptLeaseV1) (now : Z) :
    M db (option AttemptLeaseV1) :=
  let exhausted := max_attempts current <=? attempt_no current in
  let! rowcount := sql_update (Row := attempt_row) (attempt_id current)
    (λ r, let a := at_lease r in
       bool_decide (a_status a = CLAIMED) &&
       bool_decide (is_some (a_owner_id a) ∧ a_owner_id a = a_owner_id current) &&
       (a_fencing_token a =? a_fencing_token current) && (a_version a =? a_version current) &&
       match lease_expires_at a with Some l => l <=? now | None => false end)
    (update_lease (expired exhausted now)) in
  guard (rowcount =? 1) AttemptConflict "expired attempt changed during reconciliation" ;;;
  if exhausted then ret None
  else let! a := insert_retry_attempt fresh current now now in ret (Some a).

(** The columns a claim writes. *)
Definition granted (owner_id : string) (now expires : Z) (a : AttemptLeaseV1) : AttemptLeaseV1 :=
  mkAttempt (attempt_id a) (a_memorial_id a) (attempt_no a) CLAIMED (Some owner_id)
    (a_fencing_token a + 1) (Some expires) (Some now) (Models.available_at a)
    (max_attempts a) (a_failure a) (a_version a + 1) (a_created_at a) now.

(** The [UPDATE] that grants a lease, and the row it returns. *)
Definition grant_lease (current : AttemptLeaseV1) (owner_id : string) (now lease_seconds : Z) :
    M db (option AttemptLeaseV1) :=
  let! expires := plus_seconds now lease_seconds in
  let! rowcount := sql_update (Row := attempt_row) (attempt_id current)
    (λ r, let a := at_lease r in
       bool_decide (a_status a = CLAIMABLE) && (a_version a =? a_version current) &&
       (Models.available_at a <=? now))
    (update_lease (granted owner_id now expires)) in
  if rowcount =? 1 then
    let! claimed := select_attempt (attempt_id current) in
    match claimed with
    | Some a => ret (Some a)
    | None => raise AttemptConflict "claimed attempt disappeared"
    end
  else ret None.

Definition claim_body (memorial_id owner_id : string) (now lease_seconds : Z) (fresh : string) :
    M db (option AttemptLeaseV1) :=
  let! d := get_state in
  guard (match memorials d !! memorial_id with Some m => is_none (mm_dag_node_id m) | None => true end)
    AttemptConflict "attempt memorial is not a root" ;;;
  let! rows := sql_select (Row := attempt_row) (λ r,
    bool_decide (a_memorial_id (at_lease r) = memorial_id) && is_active (a_status (at_lease r))) in
  match head (order_by attempt_order rows) with
  | None => ret None
  | Some row =>
      let! current := decode_attempt row in
      match a_status current with
      | SUSPENDED => ret None
      | CLAIMED =>
          match lease_expires_at current with
          | None => raise AssertionError ""
          | Some l =>
              if now <? l then ret None
              else
                let! replacement := expire_claim fresh current now in
                match replacement with
                | None => ret None
                | Some a => if now <? Models.available_at a then ret None
                            else grant_lease a owner_id now lease_seconds
                end
          end
      | _ => if now <? Models.available_at current then ret None
             else grant_lease current owner_id now lease_seconds
      end
  end.

Definition claim (memorial_id owner_id : string) (now : datetime) (lease_seconds : Z)
    (fresh : string) : M db (option AttemptLeaseV1) :=
  require_non_blank memorial_id "memorial_id" ;;;
  require_non_blank owner_id "owner_id" ;;;
  let! now := to_utc now in
  require_positive lease_seconds "lease_seconds" ;;;
  try_except (atomically (claim_body memorial_id owner_id now lease_seconds fresh))
    IntegrityError (λ _, raise AttemptConflict "attempt claim or retry conflict").

(** ** [heartbeat] *)

(** The columns a heartbeat writes. *)
Definition beaten (now expires : Z) (a : AttemptLeaseV1) : AttemptLeaseV1 :=
  mkAttempt (attempt_id a) (a_memorial_id a) (attempt_no a) (a_status a) (a_owner_id a)
    (a_fencing_token a) (Some expires) (Some now) (Models.available_at a) (max_attempts a)
    (a_failure a) (a_version a + 1) (a_created_at a) now.

Definition heartbeat (attempt_id owner_id : string) (token : Z) (now : datetime) : M db bool :=
  require_authority attempt_id owner_id token ;;;
  let! now := to_utc now in
  atomically (
    let! found := select_attempt attempt_id in
    match found with
    | None => ret false
    | Some current =>
        if negb (holds current owner_id token now) then ret false
        else
          match lease_expires_at current, heartbeat_at current with
          | Some l, Some h =>
              let! expires := checked_instant (now + (l - h)) in
              let! rowcount := sql_update (Row := attempt_row) attempt_id
                (λ r, let a := at_lease r in
                   holds a owner_id token now && (a_version a =? a_version current))
                (update_lease (beaten now expires)) in
              if rowcount =? 1 then
                let! durable := select_attempt attempt_id in
                match durable with
                | Some _ => ret true
                | None => raise AttemptConflict "heartbeat attempt disappeared"
                end
              else ret false
          | _, _ => ret false
          end
    end).

(** ** [complete_current] and [complete] *)

Definition completed_status (current : AttemptLeaseV1) (outcome : AttemptOutcomeV1) : AttemptStatus :=
  match disposition outcome with
  | D_RETRY => if max_attempts current <=? attempt_no current then DEAD_LETTER else FAILED
  | D_FAILED => FAILED
  | D_SUCCEEDED => SUCCEEDED
  | D_SUSPENDED => SUSPENDED
  end.

Definition retries (current : AttemptLeaseV1) (outcome : AttemptOutcomeV1) : bool :=
  bool_decide (disposition outcome = D_RETRY) && negb (max_attempts current <=? attempt_no current).

(** The columns a completion writes. *)
Definition finished (current : AttemptLeaseV1) (outcome : AttemptOutcomeV1) (a : AttemptLeaseV1) :
    AttemptLeaseV1 :=
  mkAttempt (attempt_id a) (a_memorial_id a) (attempt_no a) (completed_status current outcome) None
    (a_fencing_token a) None (heartbeat_at a) (Models.available_at a) (max_attempts a)
    (o_failure outcome) (a_version a + 1) (a_created_at a) (Models.completed_at outcome).

Definition complete_current (attempt_id owner_id : string) (token : Z) (outcome : AttemptOutcomeV1)
    (fresh : string) : M db bool :=
  require_authority attempt_id owner_id token ;;;
  let completed_at := Models.completed_at outcome in
  let! found := select_attempt attempt_id in
  match found with
  | None => ret false
  | Some current =>
      if negb (holds current owner_id token completed_at) then ret false
      else
        let! rowcount := sql_update (Row := attempt_row) attempt_id
          (λ r, let a := at_lease r in
             holds a owner_id token completed_at && (a_version a =? a_version current))
          (update_lease (finished current outcome)) in
        if negb (rowcount =? 1) then ret false
        else if retries current outcome then
          match retry_at outcome with
          | None => raise AssertionError ""
          | Some at_ => insert_retry_attempt fresh current at_ completed_at ;;; ret true
          end
        else ret true
  end.

Definition complete (attempt_id owner_id : string) (token : Z) (outcome : AttemptOutcomeV1)
    (fresh : string) : M db bool :=
  try_except (atomically (complete_current attempt_id owner_id token outcome fresh))
    IntegrityError (λ _, raise AttemptConflict "attempt retry transition conflict").

(** ** [resume_suspended_current] and [is_suspended] *)

(** The columns a resumption writes. *)
Definition resumed (available_at : Z) (a : AttemptLeaseV1) : AttemptLeaseV1 :=
  mkAttempt (attempt_id a) (a_memorial_id a) (attempt_no a) CLAIMABLE None (a_fencing_token a)
    None None available_at (max_attempts a) (a_failure a) (a_version a + 1) (a_created_at a)
    available_at.

Definition resume_suspended_current (attempt_id memorial_id : string) (expected_version : Z)
    (available_at : datetime) : M db bool :=
  require_non_blank attempt_id "attempt_id" ;;;
  require_non_blank memorial_id "memorial_id" ;;;
  require_positive expected_version "expected_version" ;;;
  let! available_at := to_utc available_at in
  let! rowcount := sql_update (Row := attempt_row) attempt_id
    (λ r, let a := at_lease r in
       bool_decide (a_memorial_id a = memorial_id) && bool_decide (a_status a = SUSPENDED) &&
       (a_version a =? expected_version))
    (update_lease (resumed available_at)) in
  ret (rowcount =? 1).

Definition is_suspended (attempt_id memorial_id : string) (token : Z) : M db bool :=
  let! current := atomically (select_attempt attempt_id) in
  ret match current with
      | Some a => bool_decide (a_memorial_id a = memorial_id) &&
                  bool_decide (a_status a = SUSPENDED) && (a_fencing_token a =? token)
      | None => false
      end.

(** ** The ledger's invariant *)

(** Availability never precedes creation, and a lease starts when the attempt
    is available: what keeps [updated_at] from moving before [created_at]. *)
Definition timed (a : AttemptLeaseV1) : bool :=
  (a_created_at a <=? Models.available_at a) &&
  match a_status a, heartbeat_at a with
  | CLAIMED, Some h => Models.available_at a <=? h
  | _, _ => true
  end.

(** [b] is the failed attempt [a] retries. *)
Definition retried_by (b a : AttemptLeaseV1) : Prop :=
  a_memorial_id b = a_memorial_id a ∧ attempt_no b + 1 = attempt_no a ∧
  a_status b = FAILED ∧ a_fencing_token b ≤ a_fencing_token a ∧ max_attempts b = max_attempts a.

Record ledger_inv (d : db) : Prop := {
  li_keyed : ∀ k r, execution_attempts d !! k = Some r → attempt_id (at_lease r) = k;
  li_valid : ∀ k r, execution_attempts d !! k = Some r → attempt_valid (at_lease r) = true;
  li_timed : ∀ k r, execution_attempts d !! k = Some r → timed (at_lease r) = true;
  li_memorial : ∀ k r, execution_attempts d !! k = Some r → has_memorial d (a_memorial_id (at_lease r)) = true;
  li_unique : ∀ k r k' r', execution_attempts d !! k = Some r → execution_attempts d !! k' = Some r' → k ≠ k' →
    attempt_row_conflict r r' = false;
  li_chain : ∀ k r, execution_attempts d !! k = Some r → 1 < attempt_no (at_lease r) →
    ∃ k' r', execution_attempts d !! k' = Some r' ∧ retried_by (at_lease r') (at_lease r);
  li_buried : ∀ k r, execution_attempts d !! k = Some r → a_status (at_lease r) = DEAD_LETTER →
    attempt_no (at_lease r) = max_attempts (at_lease r);
  li_correlations : correlations_ok d;
}.

(** The transitions of one attempt's status.  The last two are those of the
    services that cancel a run, which revoke its live attempt. *)
Inductive edge : AttemptStatus → AttemptStatus → Prop :=
  | edge_claim : edge CLAIMABLE CLAIMED
  | edge_heartbeat : edge CLAIMED CLAIMED
  | edge_suspend : edge CLAIMED SUSPENDED
  | edge_succeed : edge CLAIMED SUCCEEDED
  | edge_fail : edge CLAIMED FAILED
  | edge_bury : edge CLAIMED DEAD_LETTER
  | edge_resume : edge SUSPENDED CLAIMABLE
  | edge_revoke_claimable : edge CLAIMABLE FAILED
  | edge_revoke_suspended : edge SUSPENDED FAILED.

Definition same_attempt (a b : AttemptLeaseV1) : Prop :=
  attempt_id a = attempt_id b ∧ a_memorial_id a = a_memorial_id b ∧
  attempt_no a = attempt_no b ∧ max_attempts a = max_attempts b ∧ a_created_at a = a_created_at b.

(** One row rewritten: its identity stays, its token never decreases, its
    version grows, and only an attempt out of retries is buried. *)
Record transition (a a' : AttemptLeaseV1) : Prop := {
  tr_same : same_attempt a a';
  tr_edge : edge (a_status a) (a_status a');
  tr_token : a_fencing_token a ≤ a_fencing_token a';
  tr_version : a_version a' = a_version a + 1;
  tr_valid : attempt_valid a' = true;
  tr_timed : timed a' = true;
  tr_buried : a_status a' = DEAD_LETTER → attempt_no a' = max_attempts a';
}.

(** What a statement of the ledger can do to the table. *)
Inductive change (d : db) : db → Prop :=
  | change_update k r a' :
      execution_attempts d !! k = Some r → transition (at_lease r) a' →
      change d (set_execution_attempts
                  (<[k := mkAttemptRow a' (at_correlation_id r)]> (execution_attempts d)) d)
  | change_insert k a c :
      execution_attempts d !! k = None → attempt_id a = k → attempt_valid a = true → timed a = true →
      a_status a = CLAIMABLE → has_memorial d (a_memorial_id a) = true → is_identifier c = true →
      unique_ok (execution_attempts d) k (mkAttemptRow a (Some c)) = true →
      (1 < attempt_no a →
         ∃ k' r', execution_attempts d !! k' = Some r' ∧ retried_by (at_lease r') a) →
      change d (set_execution_attempts (<[k := mkAttemptRow a (Some c)]> (execution_attempts d)) d).

(** Rows are never lost, keep their identity, and tokens never decrease. *)
Definition ledger_le (d d' : db) : Prop :=
  ∀ k r, execution_attempts d !! k = Some r →
  ∃ r', execution_attempts d' !! k = Some r' ∧ same_attempt (at_lease r) (at_lease r') ∧
        a_fencing_token (at_lease r) ≤ a_fencing_token (at_lease r').

#[export] Instance ledger_le_preorder : PreOrder ledger_le.
Proof.
  split.
  - intros d k r Hk. exists r. unfold same_attempt. auto with lia.
  - intros d1 d2 d3 H12 H23 k r Hk.
    destruct (H12 k r Hk) as (r2 & Hk2 & S2 & T2).
    destruct (H23 k r2 Hk2) as (r3 & Hk3 & S3 & T3).
    exists r3. unfold same_attempt in *. split; [done|]. split; [naive_solver congruence|lia].
Qed.

Lemma same_conflict a a' b c c' :
  same_attempt a a' → (is_active (a_status a') = true → is_active (a_status a) = true) →
  attempt_row_conflict (mkAttemptRow a c) b = false →
  attempt_row_conflict (mkAttemptRow a' c') b = false.
Proof.
  unfold attempt_row_conflict, same_attempt. cbn. intros (_ & -> & -> & _) Hact.
  destruct (is_active (a_status a')) eqn:E; [by rewrite Hact|].
  rewrite !andb_false_iff, !orb_false_iff, !andb_false_l, !andb_false_iff. naive_solver.
Qed.

Lemma conflict_sym r r' : attempt_row_conflict r r' = attempt_row_conflict r' r.
Proof.
  unfold attempt_row_conflict. f_equal; [by apply bool_decide_ext|].
  rewrite (Z.eqb_sym (attempt_no (at_lease r))). f_equal. apply andb_comm.
Qed.

Lemma edge_active s s' : edge s s' → is_active s = true.
Proof. by destruct 1. Qed.
Lemma edge_not_failed s s' : edge s s' → s ≠ FAILED.
Proof. by destruct 1. Qed.

Lemma change_le d d' : change d d' → ledger_le d d'.
Proof.
  destruct 1 as [k r a' Hk Htr|k a c Hk]; intros k2 r2 Hk2; cbn.
  - destruct (decide (k2 = k)) as [->|Hne].
    + simplify_eq. rewrite lookup_insert_eq. eexists. split; [done|]. cbn. by destruct Htr.
    + rewrite lookup_insert_ne by done. exists r2. unfold same_attempt. auto with lia.
  - rewrite lookup_insert_ne by congruence. exists r2. unfold same_attempt. auto with lia.
Qed.

Lemma correlations_insert d k a c :
  correlations_ok d → optional_identifier c = true →
  correlations_ok (set_execution_attempts (<[k := mkAttemptRow a c]> (execution_attempts d)) d).
Proof.
  intros (Ho & Hd & Hr & Ha & Hj & He) Hc. repeat split; try done. cbn.
  by apply map_Forall_insert_2.
Qed.

(** Lookups in a table with one row rewritten. *)
Ltac rows_of_insert :=
  repeat match goal with
  | H : <[?k := _]> _ !! ?k' = Some _ |- _ =>
      apply lookup_insert_Some in H; destruct H as [[-> <-]|[? H]]
  end; cbn in *.

Lemma change_update_inv d k r a' :
  ledger_inv d → execution_attempts d !! k = Some r → transition (at_lease r) a' →
  ledger_inv (set_execution_attempts
                (<[k := mkAttemptRow a' (at_correlation_id r)]> (execution_attempts d)) d).
Proof.
  intros [Hkey Hval Htim Hmem Huni Hcha Hbur Hcor] Hk [Hsame Hedge Htok _ Hv Ht Hb].
  pose proof (edge_active _ _ Hedge) as Hact. pose proof Hsame as (Eid & Em & En & Ex & _).
  assert (Hconf : ∀ k' r', execution_attempts d !! k' = Some r' → k ≠ k' →
    attempt_row_conflict (mkAttemptRow a' (at_correlation_id r)) r' = false).
  { intros k' r' Hk' Hne. eapply (same_conflict (at_lease r) _ _ (at_correlation_id r)); [done|done|].
    destruct r. by eapply Huni. }
  split; cbn.
  - intros k2 r2 H2. rows_of_insert; [|by apply Hkey]. rewrite <-Eid. by apply Hkey.
  - intros k2 r2 H2. rows_of_insert; eauto.
  - intros k2 r2 H2. rows_of_insert; eauto.
  - intros k2 r2 H2. rows_of_insert; [|by eapply Hmem]. rewrite <-Em. by eapply Hmem.
  - intros k2 r2 k3 r3 H2 H3 Hne. rows_of_insert; [done| | by eapply Hconf | by eapply Huni].
    rewrite conflict_sym. by eapply Hconf.
  - intros k2 r2 H2 Hno.
    assert (∃ k' r', execution_attempts d !! k' = Some r' ∧ k' ≠ k ∧ retried_by (at_lease r') (at_lease r2))
      as (k' & r' & Hk' & Hne & Hret).
    { rows_of_insert.
      - destruct (Hcha _ _ Hk) as (k' & r' & Hk' & M & N & F & T & X); [lia|].
        exists k', r'. unfold retried_by. rewrite <-Em, <-En, <-Ex. repeat split; try done; [|lia].
        intros ->. simplify_eq. by rewrite F in Hact.
      - destruct (Hcha _ _ H2 Hno) as (k' & r' & Hk' & Hr). exists k', r'. split; [done|].
        split; [|done]. intros ->. simplify_eq. destruct Hr as (_ & _ & F & _). by rewrite F in Hact. }
    exists k', r'. by rewrite lookup_insert_ne.
  - intros k2 r2 H2. rows_of_insert; eauto.
  - apply correlations_insert; [done|]. destruct Hcor as (_ & _ & _ & Ha & _). by apply Ha in Hk.
Qed.

Lemma change_insert_inv d k a c :
  ledger_inv d → execution_attempts d !! k = None → attempt_id a = k → attempt_valid a = true →
  timed a = true → a_status a = CLAIMABLE →
  has_memorial d (a_memorial_id a) = true → is_identifier c = true →
  unique_ok (execution_attempts d) k (mkAttemptRow a (Some c)) = true →
  (1 < attempt_no a →
     ∃ k' r', execution_attempts d !! k' = Some r' ∧ retried_by (at_lease r') a) →
  ledger_inv (set_execution_attempts (<[k := mkAttemptRow a (Some c)]> (execution_attempts d)) d).
Proof.
  intros [Hkey Hval Htim Hmem Huni Hcha Hbur Hcor] Hk Hid Hv Ht Hs Hm Hc Hu Hch.
  rewrite unique_ok_spec in Hu. split; cbn.
  1-4: intros k2 r2 H2; rows_of_insert; eauto.
  - intros k2 r2 k3 r3 H2 H3 Hne. rows_of_insert; [done| |by eapply Hu; eauto|by eapply Huni].
    rewrite conflict_sym. by eapply Hu; eauto.
  - intros k2 r2 H2 Hno.
    assert (∃ k' r', execution_attempts d !! k' = Some r' ∧ retried_by (at_lease r') (at_lease r2))
      as (k' & r' & Hk' & Hr) by (rows_of_insert; eauto).
    exists k', r'. split; [|done]. rewrite lookup_insert_ne; [done|congruence].
  - intros k2 r2 H2. rows_of_insert; [congruence|eauto].
  - by apply correlations_insert.
Qed.

Lemma change_inv d d' : ledger_inv d → change d d' → ledger_inv d'.
Proof.
  intros Hi Hc. destruct Hc; [by eapply change_update_inv|by eapply change_insert_inv].
Qed.

Lemma changes_inv d d' : ledger_inv d → rtc change d d' → ledger_inv d' ∧ ledger_le d d'.
Proof.
  intros Hi. induction 1 as [d|d1 d2 d3 H12 _ IH]; [done|].
  destruct IH as [Hi3 H23]; [by eapply change_inv|]. split; [done|].
  etransitivity; [by apply change_le|done].
Qed.

(** ** The transitions of the operations *)

Ltac attempt_facts :=
  unfold attempt_valid, attempt_shape, timed, holds in *; cbn in *; bools.

Ltac attempt_goal := unfold attempt_valid, attempt_shape, timed; cbn; bools_goal.

Lemma granted_transition a owner_id now expires :
  attempt_valid a = true → timed a = true → a_status a = CLAIMABLE →
  Models.available_at a ≤ now → now < expires → non_blank owner_id = true →
  transition a (granted owner_id now expires a).
Proof.
  intros Hv Ht Hs Ha Hn Ho. split; cbn; [by repeat split|rewrite Hs; constructor|lia|done| | |done].
  - attempt_facts. rewrite Hs in *. attempt_goal; auto; lia.
  - attempt_facts. attempt_goal; lia.
Qed.

(** The lease of a claimed, valid attempt. *)
Lemma claimed_lease a :
  attempt_valid a = true → timed a = true → a_status a = CLAIMED →
  ∃ o l h, a_owner_id a = Some o ∧ lease_expires_at a = Some l ∧ heartbeat_at a = Some h ∧
    non_blank o = true ∧ h < l ∧ 0 < a_fencing_token a ∧
    a_created_at a ≤ Models.available_at a ≤ h.
Proof.
  intros Hv Ht Hs. attempt_facts. rewrite Hs in *.
  destruct (a_owner_id a) as [o|], (lease_expires_at a) as [l|], (heartbeat_at a) as [h|]; try done.
  cbn in *. bools. exists o, l, h. repeat split; auto; lia.
Qed.

Lemma expired_transition a now l :
  attempt_valid a = true → timed a = true → a_status a = CLAIMED →
  lease_expires_at a = Some l → l ≤ now →
  transition a (expired (max_attempts a <=? attempt_no a) now a).
Proof.
  intros Hv Ht Hs Hl Hn. destruct (claimed_lease a Hv Ht Hs) as (o & l' & h & _ & ? & ? & _ & ? & ? & ?).
  simplify_eq. attempt_facts. split; cbn; [by repeat split| |lia|done| | |].
  - rewrite Hs. destruct (_ <=? _); constructor.
  - attempt_goal; try done; try lia; by destruct (max_attempts a <=? attempt_no a).
  - attempt_goal; [lia|]. by destruct (_ <=? _).
  - destruct (_ <=? _) eqn:E; [|done]. bools. lia.
Qed.

Lemma holds_inv a owner_id token now :
  holds a owner_id token now = true →
  a_status a = CLAIMED ∧ a_owner_id a = Some owner_id ∧ a_fencing_token a = token ∧
  ∃ h l, heartbeat_at a = Some h ∧ lease_expires_at a = Some l ∧ h ≤ now < l.
Proof.
  unfold holds. intros H. bools.
  destruct (heartbeat_at a) as [h|], (lease_expires_at a) as [l|]; try done. bools. eauto 10.
Qed.

Lemma beaten_transition a owner_id token now h l :
  attempt_valid a = true → timed a = true → holds a owner_id token now = true →
  heartbeat_at a = Some h → lease_expires_at a = Some l →
  transition a (beaten now (now + (l - h)) a).
Proof.
  intros Hv Ht (Hs & Ho & Htk & ? & ? & ? & ? & ?)%holds_inv Hh Hl.
  destruct (claimed_lease a Hv Ht Hs) as (o & l' & h' & ? & ? & ? & ? & ? & ? & ?). simplify_eq.
  attempt_facts. rewrite Hs in *. cbn in *.
  split; cbn; [by repeat split|rewrite Hs; constructor|lia|done| | |congruence].
  - unfold attempt_valid, attempt_shape. cbn. rewrite Hs, Ho. cbn. bools_goal; try done; lia.
  - unfold timed. cbn. rewrite Hs. bools_goal; lia.
Qed.

Lemma finished_transition a owner_id token outcome :
  attempt_valid a = true → timed a = true →
  holds a owner_id token (Models.completed_at outcome) = true → outcome_valid outcome = true →
  transition a (finished a outcome a).
Proof.
  intros Hv Ht (Hs & Ho & Htk & ? & ? & ? & ? & ?)%holds_inv Hov.
  destruct (claimed_lease a Hv Ht Hs) as (o & l' & h' & ? & ? & ? & ? & ? & ? & ?). simplify_eq.
  attempt_facts. unfold outcome_valid in Hov.
  split; cbn; [by repeat split| |lia|done| | |unfold completed_status].
  - rewrite Hs. unfold completed_status. destruct (disposition outcome), (max_attempts a <=? attempt_no a); constructor.
  - unfold finished, completed_status.
    destruct (disposition outcome), (o_failure outcome), (retry_at outcome); try done;
      attempt_goal; try done; try lia; by destruct (max_attempts a <=? attempt_no a).
  - unfold finished, completed_status. attempt_goal; [lia|]. by destruct (disposition outcome), (max_attempts a <=? attempt_no a).
  - destruct (disposition outcome), (max_attempts a <=? attempt_no a) eqn:E; try done. bools. lia.
Qed.

Lemma resumed_transition a available_at :
  attempt_valid a = true → timed a = true → a_status a = SUSPENDED → a_created_at a ≤ available_at →
  transition a (resumed available_at a).
Proof.
  intros Hv Ht Hs Ha. attempt_facts. rewrite Hs in *. cbn in *.
  split; cbn; [by repeat split|rewrite Hs; constructor|lia|done| | |done].
  - attempt_goal; try done; lia.
  - attempt_goal; [lia|done].
Qed.

(** A live attempt revoked with the failure [f]. *)
Definition revoked_lease (f : RedactedError) (now : Z) (a : AttemptLeaseV1) : AttemptLeaseV1 :=
  mkAttempt (attempt_id a) (a_memorial_id a) (attempt_no a) FAILED None (a_fencing_token a) None None
    (Models.available_at a) (max_attempts a) (Some f) (a_version a + 1) (a_created_at a) now.

Lemma revoked_transition a f now :
  attempt_valid a = true → timed a = true → is_active (a_status a) = true → a_created_at a ≤ now →
  transition a (revoked_lease f now a).
Proof.
  intros Hv Ht Ha Hn. attempt_facts. split; cbn; [by repeat split| |lia|done| | |done].
  - destruct (a_status a); try done; constructor.
  - attempt_goal; try done; lia.
  - attempt_goal; [lia|done].
Qed.

(** ** Statements on a ledger that satisfies the invariant *)

Lemma valid_row_check d r :
  attempt_valid (at_lease r) = true → has_memorial d (a_memorial_id (at_lease r)) = true →
  attempt_row_check d r = true.
Proof.
  intros Hv Hm. unfold attempt_row_check. attempt_facts. destruct (at_lease r) as [i m n s o t l h]. cbn in *.
  bools_goal; auto with py; try lia.
  destruct s, o, l, h; cbn in *; try done; bools; bools_goal; auto with py; lia.
Qed.

Lemma transition_update d k r cond f :
  ledger_inv d → execution_attempts d !! k = Some r → cond r = true →
  transition (at_lease r) (f (at_lease r)) →
  sql_update k cond (update_lease f) d =
    (Ok 1, set_execution_attempts
       (<[k := mkAttemptRow (f (at_lease r)) (at_correlation_id r)]> (execution_attempts d)) d).
Proof.
  intros Hi Hk Hc Htr. pose proof (tr_same _ _ Htr) as (Eid & Em & En & Ex & Ec).
  erewrite sql_update_hit; [done|done|done|..].
  - apply valid_row_check; cbn; [apply Htr|]. rewrite <-Em. by eapply li_memorial.
  - apply unique_ok_spec. intros k' r' Hk' Hne. destruct r as [a c].
    eapply (same_conflict a _ _ c); [by repeat split| |].
    + intros _. by eapply edge_active, Htr.
    + by eapply (li_unique d Hi k _ k').
  - cbn. unfold attempt_row_frozen. cbn. rewrite Eid, Em, En, Ex, Ec.
    rewrite !bool_decide_eq_true_2, !Z.eqb_refl by done. done.
Qed.

Lemma select_attempt_eq d id :
  ledger_inv d → select_attempt id d = (Ok (at_lease <$> execution_attempts d !! id), d).
Proof.
  intros Hi. unfold select_attempt, bind, sql_get. cbn.
  destruct (execution_attempts d !! id) as [r|] eqn:E; [|done].
  unfold decode_attempt. by rewrite (li_valid d Hi _ _ E).
Qed.

Lemma new_attempt_valid id m no token av maxn created :
  non_blank id = true → non_blank m = true → 1 ≤ no ≤ maxn → 0 ≤ token →
  attempt_valid (new_attempt id m no token av maxn created) = true.
Proof. intros. attempt_goal; auto; lia. Qed.

Lemma select_new d id :
  select_attempt id d =
    match execution_attempts d !! id with
    | Some r => if attempt_valid (at_lease r) then (Ok (Some (at_lease r)), d)
                else (Err (Exn AttemptDecodeError "persisted attempt violates the v1 contract"), d)
    | None => (Ok None, d)
    end.
Proof.
  unfold select_attempt, decode_attempt, bind, sql_get, guard. cbn.
  destruct (execution_attempts d !! id) as [r|]; [|done]. by destruct (attempt_valid _).
Qed.

(** The table after a new attempt is inserted. *)
Definition with_attempt (a : AttemptLeaseV1) (c : string) (d : db) : db :=
  set_execution_attempts (<[attempt_id a := mkAttemptRow a (Some c)]> (execution_attempts d)) d.

Lemma insert_retry_Ok_inv fresh p av cr d a d' :
  insert_retry_attempt fresh p av cr d = (Ok a, d') →
  a = new_attempt fresh (a_memorial_id p) (attempt_no p + 1) (a_fencing_token p) av (max_attempts p) cr ∧
  attempt_valid a = true ∧
  ∃ c, is_identifier c = true ∧ d' = with_attempt a c d ∧
    execution_attempts d !! fresh = None ∧
    unique_ok (execution_attempts d) fresh (mkAttemptRow a (Some c)) = true.
Proof.
  unfold insert_retry_attempt. intros H. step_M H. apply correlation_Ok_inv in E as [-> Hid].
  step_M H. apply sql_insert_Ok_inv in E as (Hn & Hc & Hu & ->).
  step_M H. rewrite select_new in E. cbn in E. rewrite lookup_insert_eq in E. cbn in E.
  destruct (attempt_valid _) eqn:Hv; [|done]. injection E as <- <-. run_M H.
  split; [done|]. split; [exact Hv|]. exists a0. by repeat split.
Qed.

Lemma insert_retry_Ok fresh p av cr d :
  correlations_ok d → execution_attempts d !! fresh = None → has_memorial d (a_memorial_id p) = true →
  let a := new_attempt fresh (a_memorial_id p) (attempt_no p + 1) (a_fencing_token p) av (max_attempts p) cr in
  attempt_valid a = true →
  (∀ c, unique_ok (execution_attempts d) fresh (mkAttemptRow a (Some c)) = true) →
  ∃ c, is_identifier c = true ∧ insert_retry_attempt fresh p av cr d = (Ok a, with_attempt a c d).
Proof.
  intros Hcor Hn Hm a Hv Hu. destruct (correlation_total (a_memorial_id p) d Hcor) as (c & Ec & Hc).
  exists c. split; [done|]. unfold insert_retry_attempt. rewrite (bind_Ok _ _ _ _ _ Ec).
  erewrite bind_Ok by (apply sql_insert_Ok; [exact Hn|by apply valid_row_check|apply Hu]).
  unfold bind. rewrite select_new. cbn. rewrite lookup_insert_eq. cbn. fold a. by rewrite Hv.
Qed.

(** ** What the operations do *)

(** The active attempts of a memorial: at most one. *)
Definition active_rows (d : db) (memorial_id : string) : list attempt_row :=
  where_rows (λ r, bool_decide (a_memorial_id (at_lease r) = memorial_id) &&
                   is_active (a_status (at_lease r))) (execution_attempts d).

Lemma NoDup_rows d : ledger_inv d → NoDup (map_to_list (execution_attempts d)).*2.
Proof.
  intros Hi. apply (NoDup_fmap_1 (λ r, attempt_id (at_lease r))).
  rewrite <-list_fmap_compose.
  replace (((λ r, attempt_id (at_lease r)) ∘ snd) <$> map_to_list (execution_attempts d))
    with (map_to_list (execution_attempts d)).*1; [apply NoDup_fst_map_to_list|].
  apply list_fmap_ext. intros _ [k r] Hx%list_elem_of_lookup_2.
  apply elem_of_map_to_list in Hx. cbn. symmetry. by apply (li_keyed d Hi).
Qed.

Lemma active_unique d m k r k' r' :
  ledger_inv d → execution_attempts d !! k = Some r → execution_attempts d !! k' = Some r' →
  a_memorial_id (at_lease r) = m → a_memorial_id (at_lease r') = m →
  is_active (a_status (at_lease r)) = true → is_active (a_status (at_lease r')) = true → k = k'.
Proof.
  intros Hi Hk Hk' Hm Hm' Ha Ha'. destruct (decide (k = k')) as [|Hne]; [done|].
  pose proof (li_unique d Hi _ _ _ _ Hk Hk' Hne) as Hc. unfold attempt_row_conflict in Hc.
  rewrite Hm, Hm', Ha, Ha', bool_decide_eq_true_2, orb_true_r in Hc by done. done.
Qed.

Lemma active_rows_single d m :
  ledger_inv d → active_rows d m = [] ∨
  ∃ r, active_rows d m = [r] ∧ execution_attempts d !! attempt_id (at_lease r) = Some r ∧
       a_memorial_id (at_lease r) = m ∧ is_active (a_status (at_lease r)) = true.
Proof.
  intros Hi. destruct (active_rows d m) as [|r l] eqn:E; [by left|right].
  assert (Hin : ∀ x, x ∈ r :: l → a_memorial_id (at_lease x) = m ∧
    is_active (a_status (at_lease x)) = true ∧ execution_attempts d !! attempt_id (at_lease x) = Some x).
  { intros x Hx. rewrite <-E in Hx. apply elem_of_where_rows in Hx as [Hc [k Hk]]. bools.
    by rewrite (li_keyed d Hi _ _ Hk). }
  assert (Hnd : NoDup (r :: l)).
  { rewrite <-E. unfold active_rows, where_rows. apply NoDup_filter, NoDup_rows, Hi. }
  destruct (Hin r) as (Hm & Ha & Hk); [by left|]. exists r. split; [|done]. f_equal.
  destruct l as [|x l]; [done|]. destruct (Hin x) as (Hm' & Ha' & Hk'); [by right; left|].
  pose proof (active_unique d m _ _ _ _ Hi Hk Hk' Hm Hm' Ha Ha') as Heq. rewrite Heq in Hk.
  simplify_eq. exfalso. apply NoDup_cons in Hnd as [Hni _]. apply Hni. by left.
Qed.

Lemma head_active_rows d m :
  ledger_inv d → head (order_by attempt_order (active_rows d m)) = head (active_rows d m).
Proof. intros Hi. destruct (active_rows_single d m Hi) as [->|(r & -> & _)]; done. Qed.

(** The last attempt of a memorial carries its greatest token. *)
Lemma chain_tokens d :
  ledger_inv d → ∀ (n : nat) k r k' r',
  execution_attempts d !! k = Some r → execution_attempts d !! k' = Some r' →
  a_memorial_id (at_lease r) = a_memorial_id (at_lease r') →
  attempt_no (at_lease r') = attempt_no (at_lease r) + Z.of_nat n →
  a_fencing_token (at_lease r) ≤ a_fencing_token (at_lease r') ∧
  (n ≠ 0%nat → a_status (at_lease r) = FAILED).
Proof.
  intros Hi. induction n as [|n IH]; intros k r k' r' Hk Hk' Hm Hn.
  - assert (k = k') as <-; [|simplify_eq; auto with lia].
    destruct (decide (k = k')) as [|Hne]; [done|].
    pose proof (li_unique d Hi _ _ _ _ Hk Hk' Hne) as Hc. unfold attempt_row_conflict in Hc.
    rewrite Hm, Hn, Z.add_0_r, Z.eqb_refl, bool_decide_eq_true_2 in Hc by done. done.
  - assert (1 ≤ attempt_no (at_lease r)) as Hpos.
    { pose proof (li_valid d Hi _ _ Hk). attempt_facts. done. }
    destruct (li_chain d Hi _ _ Hk') as (k2 & r2 & Hk2 & M2 & N2 & F2 & T2 & X2); [lia|].
    destruct (IH k r k2 r2) as [T F]; [done|done|congruence|lia|]. split; [lia|]. intros _.
    destruct n as [|n]; [|by apply F]. assert (k = k2) as <-; [|by simplify_eq].
    destruct (decide (k = k2)) as [|Hne]; [done|].
    pose proof (li_unique d Hi _ _ _ _ Hk Hk2 Hne) as Hc. unfold attempt_row_conflict in Hc.
    rewrite (bool_decide_eq_true_2 _) in Hc by congruence.
    rewrite (proj2 (Z.eqb_eq _ _)) in Hc by lia. done.
Qed.

Lemma active_is_top d k r k' r' :
  ledger_inv d → execution_attempts d !! k = Some r → execution_attempts d !! k' = Some r' →
  a_memorial_id (at_lease r) = a_memorial_id (at_lease r') →
  is_active (a_status (at_lease r')) = true →
  a_fencing_token (at_lease r) ≤ a_fencing_token (at_lease r') ∧
  attempt_no (at_lease r) ≤ attempt_no (at_lease r').
Proof.
  intros Hi Hk Hk' Hm Ha.
  destruct (Z.le_ge_cases (attempt_no (at_lease r)) (attempt_no (at_lease r'))) as [Hle|Hge].
  - split; [|done].
    eapply (chain_tokens d Hi (Z.to_nat (attempt_no (at_lease r') - attempt_no (at_lease r)))); [done..|lia].
  - destruct (chain_tokens d Hi (Z.to_nat (attempt_no (at_lease r) - attempt_no (at_lease r'))) k' r' k r)
      as [T F]; [done|done|done|lia|].
    destruct (decide (attempt_no (at_lease r) = attempt_no (at_lease r'))) as [Heq|Hne].
    + split; [|lia]. eapply (chain_tokens d Hi 0); [done..|lia].
    + rewrite F in Ha by lia. done.
Qed.

(** *** Claiming *)

(** The table after the row of an attempt is rewritten. *)
Definition put_lease (r : attempt_row) (a' : AttemptLeaseV1) (d : db) : db :=
  set_execution_attempts
    (<[attempt_id (at_lease r) := mkAttemptRow a' (at_correlation_id r)]> (execution_attempts d)) d.

Definition retry_of (fresh : string) (a : AttemptLeaseV1) (available created : Z) : AttemptLeaseV1 :=
  new_attempt fresh (a_memorial_id a) (attempt_no a + 1) (a_fencing_token a) available
    (max_attempts a) created.

(** What a claim does, by the state of the memorial's active attempt. *)
Inductive claim_spec (d : db) (m owner_id : string) (now expires : Z) (fresh : string) :
    option AttemptLeaseV1 → db → Prop :=
  | claim_no_attempt :
      active_rows d m = [] → claim_spec d m owner_id now expires fresh None d
  | claim_suspended r :
      active_rows d m = [r] → a_status (at_lease r) = SUSPENDED →
      claim_spec d m owner_id now expires fresh None d
  | claim_early r :
      active_rows d m = [r] → a_status (at_lease r) = CLAIMABLE →
      now < Models.available_at (at_lease r) →
      claim_spec d m owner_id now expires fresh None d
  | claim_held r l :
      active_rows d m = [r] → a_status (at_lease r) = CLAIMED →
      lease_expires_at (at_lease r) = Some l → now < l →
      claim_spec d m owner_id now expires fresh None d
  | claim_granted r :
      active_rows d m = [r] → a_status (at_lease r) = CLAIMABLE →
      Models.available_at (at_lease r) ≤ now →
      claim_spec d m owner_id now expires fresh
        (Some (granted owner_id now expires (at_lease r)))
        (put_lease r (granted owner_id now expires (at_lease r)) d)
  | claim_exhausted r l :
      active_rows d m = [r] → a_status (at_lease r) = CLAIMED →
      lease_expires_at (at_lease r) = Some l → l ≤ now →
      max_attempts (at_lease r) ≤ attempt_no (at_lease r) →
      claim_spec d m owner_id now expires fresh None (put_lease r (expired true now (at_lease r)) d)
  | claim_retried r l c :
      active_rows d m = [r] → a_status (at_lease r) = CLAIMED →
      lease_expires_at (at_lease r) = Some l → l ≤ now →
      attempt_no (at_lease r) < max_attempts (at_lease r) →
      execution_attempts d !! fresh = None → non_blank fresh = true → is_identifier c = true →
      let next := retry_of fresh (at_lease r) now now in
      let d1 := with_attempt next c (put_lease r (expired false now (at_lease r)) d) in
      claim_spec d m owner_id now expires fresh
        (Some (granted owner_id now expires next))
        (put_lease (mkAttemptRow next (Some c)) (granted owner_id now expires next) d1).

Lemma put_lease_change d r a' :
  execution_attempts d !! attempt_id (at_lease r) = Some r → transition (at_lease r) a' →
  change d (put_lease r a' d).
Proof. intros. by apply change_update. Qed.

Lemma grant_lease_eq d r owner_id now secs :
  ledger_inv d → execution_attempts d !! attempt_id (at_lease r) = Some r →
  a_status (at_lease r) = CLAIMABLE → Models.available_at (at_lease r) ≤ now → 0 < secs →
  non_blank owner_id = true → 0 ≤ now + secs * 1000000 < max_instant →
  let a' := granted owner_id now (now + secs * 1000000) (at_lease r) in
  transition (at_lease r) a' ∧
  grant_lease (at_lease r) owner_id now secs d = (Ok (Some a'), put_lease r a' d).
Proof.
  intros Hi Hk Hs Ha Hp Ho Hr a'.
  assert (Htr : transition (at_lease r) a').
  { apply granted_transition; try done; [by eapply li_valid|by eapply li_timed|lia]. }
  split; [done|]. unfold grant_lease, plus_seconds.
  rewrite (bind_Ok _ _ _ _ _ (checked_instant_Ok _ _ Hr)).
  erewrite bind_Ok by (apply transition_update; [done|exact Hk| |exact Htr];
    rewrite Hs, bool_decide_eq_true_2, Z.eqb_refl by done; cbn; by apply Z.leb_le).
  cbn. assert (Hi' : ledger_inv (put_lease r a' d)) by (by eapply change_inv, put_lease_change).
  rewrite (bind_Ok _ _ _ _ _ (select_attempt_eq _ (attempt_id (at_lease r)) Hi')).
  unfold put_lease. cbn. by rewrite lookup_insert_eq.
Qed.

Lemma grant_lease_Ok_inv d r owner_id now secs res d' :
  ledger_inv d → execution_attempts d !! attempt_id (at_lease r) = Some r →
  a_status (at_lease r) = CLAIMABLE → Models.available_at (at_lease r) ≤ now → 0 < secs →
  non_blank owner_id = true →
  grant_lease (at_lease r) owner_id now secs d = (Ok res, d') →
  let a' := granted owner_id now (now + secs * 1000000) (at_lease r) in
  transition (at_lease r) a' ∧ res = Some a' ∧ d' = put_lease r a' d.
Proof.
  intros Hi Hk Hs Ha Hp Ho H. pose proof H as H'. unfold grant_lease in H'. step_M H'.
  apply checked_instant_Ok_inv in E as (-> & -> & Hr).
  destruct (grant_lease_eq d r owner_id now secs) as [Htr Heq]; try done.
  rewrite Heq in H. simplify_eq. done.
Qed.

(** Expiring a claim: the retry is inserted after the failed row is written. *)
Lemma expire_claim_eq d r now l fresh :
  ledger_inv d → execution_attempts d !! attempt_id (at_lease r) = Some r →
  a_status (at_lease r) = CLAIMED → lease_expires_at (at_lease r) = Some l → l ≤ now →
  let exhausted := max_attempts (at_lease r) <=? attempt_no (at_lease r) in
  let a' := expired exhausted now (at_lease r) in
  transition (at_lease r) a' ∧
  expire_claim fresh (at_lease r) now d =
    (if exhausted then ret None
     else let! a := insert_retry_attempt fresh (at_lease r) now now in ret (Some a))
    (put_lease r a' d).
Proof.
  intros Hi Hk Hs Hl Hn exhausted a'.
  assert (Hv := li_valid d Hi _ _ Hk). assert (Ht := li_timed d Hi _ _ Hk).
  destruct (claimed_lease _ Hv Ht Hs) as (o & _ & _ & Eo & _).
  assert (Htr : transition (at_lease r) a') by (by eapply expired_transition).
  split; [done|]. unfold expire_claim.
  erewrite bind_Ok by (apply transition_update; [done|exact Hk| |exact Htr];
    rewrite Hs, Hl, Eo, !Z.eqb_refl; cbn; rewrite !bool_decide_eq_true_2 by done; cbn;
    by apply Z.leb_le).
  done.
Qed.

(** The retry of an expired attempt conflicts with no other row. *)
Lemma retry_unique d r a' fresh av cr c :
  ledger_inv d → execution_attempts d !! attempt_id (at_lease r) = Some r →
  is_active (a_status (at_lease r)) = true → same_attempt (at_lease r) a' →
  is_active (a_status a') = false →
  unique_ok (execution_attempts (put_lease r a' d)) fresh
    (mkAttemptRow (retry_of fresh (at_lease r) av cr) (Some c)) = true.
Proof.
  intros Hi Hk Ha (_ & Em & En & _) Hna. apply unique_ok_spec. intros k' r' Hk' _.
  unfold put_lease in Hk'. cbn in Hk'.
  change (attempt_row_conflict (mkAttemptRow (retry_of fresh (at_lease r) av cr) (Some c)) r' = false).
  apply lookup_insert_Some in Hk' as [[<- <-]|[Hne Hk']]; unfold attempt_row_conflict; cbn -[is_active].
  - rewrite Hna, andb_false_r, <-En, orb_false_r.
    rewrite (proj2 (Z.eqb_neq _ _)) by lia. by rewrite andb_false_r.
  - apply andb_false_iff. destruct (decide (a_memorial_id (at_lease r) = a_memorial_id (at_lease r'))) as [Hm|Hm].
    2: { left. by apply bool_decide_eq_false. }
    right. destruct (active_is_top d k' r' _ r Hi Hk' Hk) as [_ Hle]; [done|done|].
    rewrite (proj2 (Z.eqb_neq _ _)) by lia. cbn.
    destruct (is_active (a_status (at_lease r'))) eqn:Ha'; [|done].
    exfalso. apply Hne. by eapply (active_unique d (a_memorial_id (at_lease r')) _ r k' r').
Qed.

(** A retry inserted after its predecessor failed. *)
Lemma retry_inserted d r a' fresh av cr c :
  ledger_inv d → execution_attempts d !! attempt_id (at_lease r) = Some r →
  transition (at_lease r) a' → a_status a' = FAILED →
  a_fencing_token a' = a_fencing_token (at_lease r) →
  let next := retry_of fresh (at_lease r) av cr in
  execution_attempts d !! fresh = None → attempt_valid next = true → cr ≤ av →
  is_identifier c = true →
  change (put_lease r a' d) (with_attempt next c (put_lease r a' d)).
Proof.
  intros Hi Hk Htr Hf Htok next Hn Hv Hav Hc. pose proof (tr_same _ _ Htr) as (Eid & Em & En & Ex & _).
  assert (Hact := edge_active _ _ (tr_edge _ _ Htr)).
  apply change_insert; try done.
  - unfold put_lease. cbn. rewrite lookup_insert_ne; [done|]. intros <-. congruence.
  - attempt_goal; [lia|done].
  - by eapply (li_memorial d Hi).
  - eapply retry_unique; [done|done|done|by apply tr_same|by rewrite Hf].
  - intros _. exists (attempt_id (at_lease r)), (mkAttemptRow a' (at_correlation_id r)).
    unfold put_lease. cbn. rewrite lookup_insert_eq. split; [done|].
    unfold retried_by. cbn. repeat split; try done; try congruence; lia.
Qed.

Lemma put_lease_fresh d r a' fresh :
  execution_attempts (put_lease r a' d) !! fresh = None →
  execution_attempts d !! fresh = None.
Proof. unfold put_lease. cbn. by intros [? ?]%lookup_insert_None. Qed.

Lemma retry_lookup next c d :
  execution_attempts (with_attempt next c d) !! attempt_id next = Some (mkAttemptRow next (Some c)).
Proof. unfold with_attempt. cbn. by rewrite lookup_insert_eq. Qed.

Lemma claim_Ok_inv d m owner_id now secs fresh res d' :
  ledger_inv d → claim m owner_id now secs fresh d = (Ok res, d') →
  ∃ t, to_utc now d = (Ok t, d) ∧ 0 < secs ∧ non_blank owner_id = true ∧
       claim_spec d m owner_id t (t + secs * 1000000) fresh res d'.
Proof.
  intros Hi H. unfold claim, require_non_blank, require_positive in H. step_M H. step_M H.
  step_M H. pose proof (to_utc_Ok_inv _ _ _ _ E1) as [-> _]. step_M H. bools.
  apply try_raise_Ok_inv, atomically_Ok_inv in H.
  exists a. split; [done|]. split; [done|]. split; [done|].
  unfold claim_body in H. step_M H. step_M H. rewrite bind_sql_select in H.
  change (where_rows _ _) with (active_rows d m) in H.
  rewrite head_active_rows in H by done.
  destruct (active_rows_single d m Hi) as [Er|(r & Er & Hk & Hm & Ha)]; rewrite Er in H; cbn in H.
  { run_M H. by constructor. }
  apply bind_Ok_inv in H as (cur & d1 & Ed & H). unfold decode_attempt in Ed. run_M Ed.
  destruct (a_status (at_lease r)) eqn:Hs; try done.
  - destruct (_ <? _) eqn:El in H; bools.
    + run_M H. by eapply claim_early.
    + apply grant_lease_Ok_inv in H as (_ & -> & ->); try done. by apply claim_granted.
  - destruct (lease_expires_at (at_lease r)) as [l|] eqn:Hl; [|done].
    destruct (_ <? _) eqn:El in H; bools; [run_M H; by eapply claim_held|].
    destruct (expire_claim_eq d r a l fresh Hi Hk Hs Hl El) as [Htr Heq].
    apply bind_Ok_inv in H as (rep & d1 & Ee & H). rewrite Heq in Ee.
    destruct (_ <=? _) eqn:Ex; bools.
    + run_M Ee. run_M H. by eapply claim_exhausted.
    + apply bind_Ok_inv in Ee as (next & d2 & En & Ee).
      apply insert_retry_Ok_inv in En as (-> & Hv & c & Hc & -> & Hn & _). run_M Ee.
      cbn in H. rewrite (proj2 (Z.ltb_ge _ _)) in H by lia.
      apply put_lease_fresh in Hn.
      change (new_attempt _ _ _ _ _ _ _) with (retry_of fresh (at_lease r) a a) in H.
      assert (Hi2 : ledger_inv (with_attempt (retry_of fresh (at_lease r) a a) c
        (put_lease r (expired false a (at_lease r)) d))).
      { eapply change_inv; [by eapply change_inv, put_lease_change|].
        eapply retry_inserted; done. }
      apply (grant_lease_Ok_inv _ (mkAttemptRow (retry_of fresh (at_lease r) a a) (Some c))) in H
        as (_ & -> & ->); try done; [|apply retry_lookup].
      eapply claim_retried; try done. attempt_facts. done.
  - run_M H. by eapply claim_suspended.
Qed.

(** The active row of a memorial, with its invariants. *)
Lemma active_row_facts d m r :
  ledger_inv d → active_rows d m = [r] →
  execution_attempts d !! attempt_id (at_lease r) = Some r ∧ a_memorial_id (at_lease r) = m ∧
  attempt_valid (at_lease r) = true ∧ timed (at_lease r) = true.
Proof.
  intros Hi Er. destruct (active_rows_single d m Hi) as [E|(r' & E & Hk & Hm & _)]; [congruence|].
  rewrite Er in E. simplify_eq. split; [done|]. split; [done|].
  split; [by eapply li_valid|by eapply li_timed].
Qed.

Lemma retry_of_valid fresh a av cr :
  attempt_valid a = true → attempt_no a < max_attempts a → non_blank fresh = true →
  attempt_valid (retry_of fresh a av cr) = true.
Proof. unfold retry_of. intros. attempt_facts. bools_goal; auto; lia. Qed.

Lemma claim_spec_changes d m owner_id now expires fresh res d' :
  ledger_inv d → now < expires → non_blank owner_id = true →
  claim_spec d m owner_id now expires fresh res d' → rtc change d d'.
Proof.
  intros Hi Hn Ho H. destruct H as [| | | |r Er Hs Ha|r l Er Hs Hl Hle Hx|r l c Er Hs Hl Hle Hx Hf Hb Hc next d1];
    try done; destruct (active_row_facts _ _ _ Hi Er) as (Hk & Hm & Hv & Ht).
  - apply rtc_once, put_lease_change; [done|]. by apply granted_transition.
  - apply rtc_once, put_lease_change; [done|].
    rewrite <-(proj2 (Z.leb_le _ _) Hx). by eapply expired_transition.
  - assert (Htr : transition (at_lease r) (expired false now (at_lease r))).
    { rewrite <-(proj2 (Z.leb_gt _ _) Hx). by eapply expired_transition. }
    assert (Hnv : attempt_valid next = true) by (by apply retry_of_valid).
    eapply rtc_l; [by apply put_lease_change|]. eapply rtc_l; [by eapply retry_inserted|].
    apply rtc_once, put_lease_change; [apply retry_lookup|].
    apply granted_transition; try done. attempt_goal; [lia|done].
Qed.

Lemma claim_spec_granted d m owner_id now expires fresh l d' :
  ledger_inv d → claim_spec d m owner_id now expires fresh (Some l) d' →
  a_memorial_id l = m ∧ a_status l = CLAIMED ∧ a_owner_id l = Some owner_id ∧
  heartbeat_at l = Some now ∧ lease_expires_at l = Some expires ∧
  at_lease <$> execution_attempts d' !! attempt_id l = Some l ∧
  (∀ k r, execution_attempts d !! k = Some r → a_memorial_id (at_lease r) = m →
     a_fencing_token (at_lease r) < a_fencing_token l).
Proof.
  intros Hi H. inversion H as [| | | |r Er Hs Ha| |r l0 c Er Hs Hl Hle Hx Hf Hb Hc next d1]; subst;
    destruct (active_row_facts _ _ _ Hi Er) as (Hk & Hm & Hv & Ht);
    (split; [done|]); do 4 (split; [done|]); (split; [by cbn; rewrite lookup_insert_eq|]);
    intros k r' Hk' Hm'; destruct (active_is_top d k r' _ r Hi Hk' Hk) as [Htop _];
    try congruence; try (by rewrite Hs); cbn; lia.
Qed.

(** Inserting the retry of a failed attempt succeeds and keeps the invariant. *)
Lemma retry_inserted_Ok d r a' fresh av cr :
  ledger_inv d → execution_attempts d !! attempt_id (at_lease r) = Some r →
  transition (at_lease r) a' → a_status a' = FAILED →
  a_fencing_token a' = a_fencing_token (at_lease r) →
  execution_attempts d !! fresh = None → non_blank fresh = true → cr ≤ av →
  attempt_no (at_lease r) < max_attempts (at_lease r) →
  let next := retry_of fresh (at_lease r) av cr in
  ∃ c, insert_retry_attempt fresh (at_lease r) av cr (put_lease r a' d) =
         (Ok next, with_attempt next c (put_lease r a' d)) ∧
       ledger_inv (with_attempt next c (put_lease r a' d)).
Proof.
  intros Hi Hk Htr Hs Htok Hf Hb Hle Hx next. assert (Hv := li_valid d Hi _ _ Hk).
  assert (Hnv : attempt_valid next = true) by (by apply retry_of_valid).
  assert (Hi1 : ledger_inv (put_lease r a' d)) by (by eapply change_inv, put_lease_change).
  destruct (insert_retry_Ok fresh (at_lease r) av cr (put_lease r a' d)) as (c & Hc & Ei).
  - by apply li_correlations.
  - unfold put_lease. cbn. apply lookup_insert_None. split; [done|congruence].
  - by eapply (li_memorial d Hi).
  - done.
  - intros c. eapply retry_unique; [done|done|eapply edge_active, Htr|by apply tr_same|by rewrite Hs].
  - exists c. split; [exact Ei|]. eapply change_inv; [exact Hi1|]. by eapply retry_inserted.
Qed.

(** The one error claiming can raise on a root memorial whose inputs are in
    range is none: the claim always returns. *)
Lemma claim_total d m owner_id now secs fresh :
  ledger_inv d → non_blank m = true → non_blank owner_id = true → 0 < secs →
  0 ≤ now → now + secs * 1000000 < max_instant →
  match memorials d !! m with Some x => is_none (mm_dag_node_id x) | None => true end = true →
  execution_attempts d !! fresh = None → non_blank fresh = true →
  ∃ res d', claim m owner_id (utc_at now) secs fresh d = (Ok res, d').
Proof.
  intros Hi Hm Ho Hs Hn Hx Hroot Hf Hb.
  unfold claim, require_non_blank, require_positive. rewrite Hm, Ho, (proj2 (Z.ltb_lt _ _) Hs).
  unfold bind at 1 2. cbn [guard ret]. rewrite (bind_Ok _ _ _ _ _ (to_utc_utc_at now d ltac:(lia))).
  unfold bind at 1. cbn [guard ret].
  cut (∃ res d', claim_body m owner_id now secs fresh d = (Ok res, d')).
  { intros (res & d' & E). exists res, d'. by apply try_except_Ok, atomically_Ok. }
  unfold claim_body. rewrite bind_get_state, Hroot. unfold bind at 1. cbn [guard ret].
  rewrite bind_sql_select. change (where_rows _ _) with (active_rows d m).
  rewrite head_active_rows by done.
  destruct (active_rows_single d m Hi) as [Er|(r & Er & Hk & Hmm & Ha)]; rewrite Er; cbn [head].
  { unfold ret. eauto. }
  assert (Hv := li_valid d Hi _ _ Hk). unfold decode_attempt. rewrite Hv.
  change (bind (bind (guard true _ _) _) ?k d) with (k (at_lease r) d). cbn beta.
  destruct (a_status (at_lease r)) eqn:Est; try done.
  - destruct (_ <? _) eqn:El; [unfold ret; eauto|bools].
    destruct (grant_lease_eq d r owner_id now secs) as [_ ->]; eauto with lia.
  - destruct (claimed_lease _ Hv (li_timed d Hi _ _ Hk) Est) as (o & l & h & _ & Hl & _). rewrite Hl.
    destruct (_ <? _) eqn:El; [unfold ret; eauto|bools].
    destruct (expire_claim_eq d r now l fresh Hi Hk Est Hl El) as [Htr Heq].
    destruct (_ <=? _) eqn:Ex; bools.
    { rewrite (bind_Ok _ _ _ _ _ Heq). unfold ret. eauto. }
    destruct (retry_inserted_Ok d r (expired false now (at_lease r)) fresh now now) as (c & Ei & Hi2);
      try done.
    erewrite bind_Ok; [|rewrite Heq; erewrite bind_Ok by exact Ei; reflexivity].
    cbn [Models.available_at new_attempt]. rewrite Z.ltb_irrefl.
    destruct (grant_lease_eq _ (mkAttemptRow (retry_of fresh (at_lease r) now now) (Some c))
      owner_id now secs Hi2) as [_ Eg]; try done; [apply retry_lookup|lia|].
    change (new_attempt _ _ _ _ _ _ _) with (retry_of fresh (at_lease r) now now).
    cbn [at_lease] in Eg. rewrite Eg. eauto.
  - unfold ret. eauto.
Qed.

(** *** Heartbeats, completions and resumptions *)

(** An [UPDATE] guarded by [holds] and the version of the row just read hits
    exactly when the authority is current. *)
Lemma held_condition r owner_id token now :
  holds (at_lease r) owner_id token now = true →
  holds (at_lease r) owner_id token now && (a_version (at_lease r) =? a_version (at_lease r)) = true.
Proof. intros ->. by rewrite Z.eqb_refl. Qed.

Lemma require_authority_Ok_inv id owner_id token d u d' :
  require_authority id owner_id token d = (Ok u, d') →
  d' = d ∧ non_blank id = true ∧ non_blank owner_id = true ∧ 0 < token.
Proof.
  unfold require_authority, require_non_blank, require_positive. intros H. run_M H. bools. auto.
Qed.

Lemma require_authority_Ok id owner_id token d :
  non_blank id = true → non_blank owner_id = true → 0 < token →
  require_authority id owner_id token d = (Ok tt, d).
Proof.
  intros Hi Ho Ht. unfold require_authority, require_non_blank, require_positive.
  by rewrite Hi, Ho, (proj2 (Z.ltb_lt _ _) Ht).
Qed.

(** The row an authority holds in a ledger, if it is current. *)
Definition held_row (d : db) (id owner_id : string) (token now : Z) : option attempt_row :=
  match execution_attempts d !! id with
  | Some r => if holds (at_lease r) owner_id token now then Some r else None
  | None => None
  end.

Lemma held_row_Some d id owner_id token now r :
  held_row d id owner_id token now = Some r →
  execution_attempts d !! id = Some r ∧ holds (at_lease r) owner_id token now = true.
Proof. unfold held_row. intros. repeat case_match; naive_solver. Qed.

(** [require_current] returns exactly when the authority holds its row. *)
Lemma require_current_held id owner token now d u d' :
  require_current id owner token now d = (Ok u, d') →
  d' = d ∧ ∃ t, to_utc now d = (Ok t, d) ∧ is_Some (held_row d id owner token t).
Proof.
  unfold require_current. intros H.
  apply bind_Ok_inv in H as (u1 & d1 & H1 & H). apply require_authority_Ok_inv in H1 as (-> & _).
  apply bind_Ok_inv in H as (t & d1 & H1 & H). pose proof (to_utc_Ok_inv _ _ _ _ H1) as [-> _].
  rewrite bind_sql_get in H. apply guard_Ok_inv in H as [H ->]. split; [done|]. exists t. split; [done|].
  unfold held_row. cbn in H. destruct (execution_attempts d !! id) as [r|]; [|done]. rewrite H. eauto.
Qed.

(** What a heartbeat does: it extends the lease by its own duration. *)
Definition heartbeat_spec (d : db) (id owner_id : string) (token now : Z) : result bool * db :=
  match held_row d id owner_id token now with
  | Some r =>
      match lease_expires_at (at_lease r), heartbeat_at (at_lease r) with
      | Some l, Some h =>
          if representable (now + (l - h))
          then (Ok true, put_lease r (beaten now (now + (l - h)) (at_lease r)) d)
          else (Err (Exn OverflowError "date value out of range"), d)
      | _, _ => (Ok false, d)
      end
  | None => (Ok false, d)
  end.

Lemma heartbeat_eq d id owner_id token now t :
  ledger_inv d → non_blank id = true → non_blank owner_id = true → 0 < token →
  to_utc now d = (Ok t, d) →
  heartbeat id owner_id token now d = heartbeat_spec d id owner_id token t.
Proof.
  intros Hi Hid Ho Ht Hn. unfold heartbeat.
  rewrite (bind_Ok _ _ _ _ _ (require_authority_Ok _ _ _ d Hid Ho Ht)), (bind_Ok _ _ _ _ _ Hn).
  unfold atomically. rewrite (bind_Ok _ _ _ _ _ (select_attempt_eq d id Hi)).
  unfold heartbeat_spec, held_row in *.
  destruct (execution_attempts d !! id) as [r|] eqn:Hk; [|done]. cbn.
  destruct (holds _ _ _ _) eqn:Hh; [|done]. cbn.
  destruct (holds_inv _ _ _ _ Hh) as (_ & _ & _ & h & l & Eh & El & Hlt). rewrite Eh, El.
  assert (Eid := li_keyed d Hi _ _ Hk). rewrite <-Eid in Hk |- *.
  assert (Htr : transition (at_lease r) (beaten t (t + (l - h)) (at_lease r))).
  { eapply beaten_transition; try done; [by eapply li_valid|by eapply li_timed]. }
  unfold checked_instant. destruct (representable _); [|done].
  change (bind (bind (guard true _ _) _) ?k d) with (k (t + (l - h)) d). cbn beta.
  erewrite bind_Ok by (apply transition_update; [done|exact Hk|by apply held_condition|exact Htr]).
  cbn. erewrite bind_Ok; [|apply select_attempt_eq; by eapply change_inv, put_lease_change].
  unfold put_lease. cbn. by rewrite lookup_insert_eq.
Qed.

Lemma heartbeat_spec_change d id owner_id token t b d' :
  ledger_inv d → heartbeat_spec d id owner_id token t = (Ok b, d') → rtc change d d'.
Proof.
  intros Hi. unfold heartbeat_spec. destruct (held_row _ _ _ _ _) as [r|] eqn:Er; [|by intros [= <- <-]].
  apply held_row_Some in Er as [Hk Hh]. destruct (lease_expires_at _) as [l|] eqn:El; [|by intros [= <- <-]].
  destruct (heartbeat_at _) as [h|] eqn:Eh; [|by intros [= <- <-]].
  destruct (representable _); [|done]. intros [= <- <-].
  rewrite <-(li_keyed d Hi _ _ Hk) in Hk. apply rtc_once, put_lease_change; [done|].
  eapply beaten_transition; try done; [by eapply li_valid|by eapply li_timed].
Qed.

Lemma heartbeat_Ok_inv d id owner_id token now b d' :
  ledger_inv d → heartbeat id owner_id token now d = (Ok b, d') →
  ∃ t, to_utc now d = (Ok t, d) ∧ heartbeat_spec d id owner_id token t = (Ok b, d').
Proof.
  intros Hi H. pose proof H as H'. unfold heartbeat in H'.
  apply bind_Ok_inv in H' as (? & ? & (-> & Hid & Ho & Ht)%require_authority_Ok_inv & H').
  apply bind_Ok_inv in H' as (t & ? & Hn & _). pose proof (to_utc_Ok_inv _ _ _ _ Hn) as [-> _].
  exists t. split; [done|]. by rewrite <-(heartbeat_eq d id owner_id token now t).
Qed.

(** What a completion does. *)
Inductive complete_spec (d : db) (id owner_id : string) (token : Z) (o : AttemptOutcomeV1)
    (fresh : string) : bool → db → Prop :=
  | complete_stale :
      held_row d id owner_id token (Models.completed_at o) = None →
      complete_spec d id owner_id token o fresh false d
  | complete_final r :
      held_row d id owner_id token (Models.completed_at o) = Some r →
      retries (at_lease r) o = false →
      complete_spec d id owner_id token o fresh true (put_lease r (finished (at_lease r) o (at_lease r)) d)
  | complete_retry r at_ c :
      held_row d id owner_id token (Models.completed_at o) = Some r →
      retries (at_lease r) o = true → retry_at o = Some at_ →
      execution_attempts d !! fresh = None → non_blank fresh = true → is_identifier c = true →
      complete_spec d id owner_id token o fresh true
        (with_attempt (retry_of fresh (at_lease r) at_ (Models.completed_at o)) c
           (put_lease r (finished (at_lease r) o (at_lease r)) d)).

(** The update of a completion, for an authority that is current. *)
Lemma complete_current_eq d id owner_id token o fresh r :
  ledger_inv d → outcome_valid o = true → non_blank id = true → non_blank owner_id = true → 0 < token →
  held_row d id owner_id token (Models.completed_at o) = Some r →
  let a' := finished (at_lease r) o (at_lease r) in
  transition (at_lease r) a' ∧
  complete_current id owner_id token o fresh d =
    (if retries (at_lease r) o then
       match retry_at o with
       | None => raise AssertionError ""
       | Some at_ => insert_retry_attempt fresh (at_lease r) at_ (Models.completed_at o) ;;; ret true
       end
     else ret true) (put_lease r a' d).
Proof.
  intros Hi Hov Hid Ho Ht Hr a'. apply held_row_Some in Hr as [Hk Hh].
  assert (Eid := li_keyed d Hi _ _ Hk). 
  assert (Htr : transition (at_lease r) a').
  { eapply finished_transition; try done; [by eapply li_valid|by eapply li_timed]. }
  split; [done|]. unfold complete_current.
  rewrite (bind_Ok _ _ _ _ _ (require_authority_Ok _ _ _ d Hid Ho Ht)).
  rewrite (bind_Ok _ _ _ _ _ (select_attempt_eq d id Hi)). rewrite Hk. cbn. rewrite Hh. cbn.
  rewrite <-Eid in Hk |- *.
  erewrite bind_Ok by (apply transition_update; [done|exact Hk|by apply held_condition|exact Htr]).
  done.
Qed.

Lemma complete_current_stale d id owner_id token o fresh :
  ledger_inv d → non_blank id = true → non_blank owner_id = true → 0 < token →
  held_row d id owner_id token (Models.completed_at o) = None →
  complete_current id owner_id token o fresh d = (Ok false, d).
Proof.
  intros Hi Hid Ho Ht Hr. unfold complete_current.
  rewrite (bind_Ok _ _ _ _ _ (require_authority_Ok _ _ _ d Hid Ho Ht)).
  rewrite (bind_Ok _ _ _ _ _ (select_attempt_eq d id Hi)). unfold held_row in Hr.
  destruct (execution_attempts d !! id) as [r|]; [|done]. cbn. by destruct (holds _ _ _ _).
Qed.

Lemma retries_true a o :
  retries a o = true → outcome_valid o = true →
  completed_status a o = FAILED ∧ attempt_no a < max_attempts a ∧
  ∃ at_, retry_at o = Some at_ ∧ Models.completed_at o ≤ at_.
Proof.
  unfold retries, outcome_valid, completed_status. intros H Hov. bools. rewrite H in *.
  rewrite (proj2 (Z.leb_gt _ _)) by done.
  destruct (o_failure o), (retry_at o) as [at_|]; try done. bools. eauto.
Qed.

Lemma complete_current_Ok_inv d id owner_id token o fresh b d' :
  ledger_inv d → outcome_valid o = true → complete_current id owner_id token o fresh d = (Ok b, d') →
  complete_spec d id owner_id token o fresh b d'.
Proof.
  intros Hi Hov H. pose proof H as H'. unfold complete_current in H'.
  apply bind_Ok_inv in H' as (? & ? & (-> & Hid & Ho & Ht)%require_authority_Ok_inv & _).
  destruct (held_row d id owner_id token (Models.completed_at o)) as [r|] eqn:Er.
  2: { rewrite complete_current_stale in H by done. injection H as <- <-. by constructor. }
  destruct (complete_current_eq d id owner_id token o fresh r) as [Htr Heq]; try done.
  rewrite Heq in H. clear Heq. destruct (retries (at_lease r) o) eqn:Et.
  2: { run_M H. by econstructor. }
  destruct (retries_true _ _ Et Hov) as (_ & _ & at_ & Eat & _). rewrite Eat in H.
  apply bind_Ok_inv in H as (next & d1 & En & H).
  apply insert_retry_Ok_inv in En as (-> & Hv & c & Hc & -> & Hn & _). run_M H.
  apply put_lease_fresh in Hn. eapply complete_retry; try done. attempt_facts. done.
Qed.

Lemma complete_spec_changes d id owner_id token o fresh b d' :
  ledger_inv d → outcome_valid o = true → complete_spec d id owner_id token o fresh b d' →
  rtc change d d'.
Proof.
  intros Hi Hov H. destruct H as [|r Hr Et|r at_ c Hr Et Eat Hn Hb Hc]; [done| |];
    apply held_row_Some in Hr as [Hk Hh]; assert (Hk' := Hk); rewrite <-(li_keyed d Hi _ _ Hk) in Hk;
    assert (Htr : transition (at_lease r) (finished (at_lease r) o (at_lease r)))
      by (eapply finished_transition; try done; [by eapply li_valid|by eapply li_timed]).
  - by apply rtc_once, put_lease_change.
  - destruct (retries_true _ _ Et Hov) as (Ef & Hx & at' & Eat' & Hle). simplify_eq.
    eapply rtc_l; [by apply put_lease_change|]. apply rtc_once.
    eapply retry_inserted; try done. apply retry_of_valid; try done. by eapply li_valid.
Qed.

(** Completing always returns when a fresh identifier is available. *)
Lemma complete_total d id owner_id token o fresh :
  ledger_inv d → outcome_valid o = true → non_blank id = true → non_blank owner_id = true →
  0 < token → execution_attempts d !! fresh = None → non_blank fresh = true →
  ∃ b d', complete id owner_id token o fresh d = (Ok b, d').
Proof.
  intros Hi Hov Hid Ho Ht Hf Hb.
  cut (∃ b d', complete_current id owner_id token o fresh d = (Ok b, d')).
  { intros (b & d' & E). exists b, d'. by apply try_except_Ok, atomically_Ok. }
  destruct (held_row d id owner_id token (Models.completed_at o)) as [r|] eqn:Er.
  2: { rewrite complete_current_stale by done. eauto. }
  destruct (complete_current_eq d id owner_id token o fresh r) as [Htr ->]; try done.
  destruct (retries (at_lease r) o) eqn:Et; [|unfold ret; eauto].
  destruct (retries_true _ _ Et Hov) as (Ef & Hx & at_ & -> & Hle).
  apply held_row_Some in Er as [Hk _]. rewrite <-(li_keyed d Hi _ _ Hk) in Hk.
  destruct (retry_inserted_Ok d r (finished (at_lease r) o (at_lease r)) fresh at_ (Models.completed_at o))
    as (c & Ei & _); try done.
  rewrite (bind_Ok _ _ _ _ _ Ei). unfold ret. eauto.
Qed.

(** The row a resumption would rewrite. *)
Definition suspended_row (d : db) (id memorial_id : string) (version : Z) : option attempt_row :=
  match execution_attempts d !! id with
  | Some r => if bool_decide (a_memorial_id (at_lease r) = memorial_id) &&
                 bool_decide (a_status (at_lease r) = SUSPENDED) && (a_version (at_lease r) =? version)
              then Some r else None
  | None => None
  end.

Lemma resume_eq d id memorial_id version at_ t :
  ledger_inv d → non_blank id = true → non_blank memorial_id = true → 0 < version →
  to_utc at_ d = (Ok t, d) →
  (∀ r, suspended_row d id memorial_id version = Some r → a_created_at (at_lease r) ≤ t) →
  resume_suspended_current id memorial_id version at_ d =
    match suspended_row d id memorial_id version with
    | Some r => (Ok true, put_lease r (resumed t (at_lease r)) d)
    | None => (Ok false, d)
    end.
Proof.
  intros Hi Hid Hm Hv Ht Hc. unfold resume_suspended_current, require_non_blank, require_positive.
  rewrite Hid, Hm, (proj2 (Z.ltb_lt _ _) Hv). unfold bind at 1 2 3. cbn [guard ret].
  rewrite (bind_Ok _ _ _ _ _ Ht). unfold suspended_row in *.
  destruct (execution_attempts d !! id) as [r|] eqn:Hk.
  2: { unfold bind. rewrite sql_update_miss; [done|]. intros r' Hr'. cbn in Hr'. congruence. }
  destruct (_ && _ && _) eqn:Ec.
  - bools. assert (Eid := li_keyed d Hi _ _ Hk).
    assert (Htr : transition (at_lease r) (resumed t (at_lease r))).
    { apply resumed_transition; auto; [by eapply li_valid|by eapply li_timed]. }
    erewrite bind_Ok; [|apply transition_update; [done|exact Hk| |exact Htr]].
    + unfold put_lease. by rewrite Eid.
    + rewrite !bool_decide_eq_true_2, (proj2 (Z.eqb_eq _ _)) by done. done.
  - unfold bind. rewrite sql_update_miss; [done|]. intros r' Hr'. cbn in Hr'. by simplify_eq.
Qed.

Lemma resume_Ok_inv d id memorial_id version at_ b d' :
  ledger_inv d → resume_suspended_current id memorial_id version at_ d = (Ok b, d') →
  (∀ r t, suspended_row d id memorial_id version = Some r → to_utc at_ d = (Ok t, d) →
     a_created_at (at_lease r) ≤ t) →
  rtc change d d'.
Proof.
  intros Hi H Hc. pose proof H as H'.
  unfold resume_suspended_current, require_non_blank, require_positive in H'.
  step_M H'. step_M H'. step_M H'. apply bind_Ok_inv in H' as (t & ? & Ht & _).
  pose proof (to_utc_Ok_inv _ _ _ _ Ht) as [-> _]. bools.
  rewrite (resume_eq d id memorial_id version at_ t) in H by eauto.
  destruct (suspended_row d id memorial_id version) as [r|] eqn:Er; simplify_eq; [|done].
  specialize (Hc r t eq_refl Ht). unfold suspended_row in Er. repeat case_match; simplify_eq. bools.
  match goal with Hk : execution_attempts d !! _ = _ |- _ =>
    pose proof (li_valid d Hi _ _ Hk); pose proof (li_timed d Hi _ _ Hk);
    rewrite <-(li_keyed d Hi _ _ Hk) in Hk; apply rtc_once, put_lease_change; [done|] end.
  by apply resumed_transition.
Qed.

(** *** Enqueueing *)

(** The first attempt of a memorial, if it has one. *)
Definition first_row (d : db) (m : string) : option attempt_row :=
  head (where_rows (λ r, bool_decide (a_memorial_id (at_lease r) = m) && (attempt_no (at_lease r) =? 1))
          (execution_attempts d)).

Lemma first_row_Some d m r :
  ledger_inv d → first_row d m = Some r →
  execution_attempts d !! attempt_id (at_lease r) = Some r ∧
  a_memorial_id (at_lease r) = m ∧ attempt_no (at_lease r) = 1.
Proof.
  intros Hi H%head_Some_elem_of. apply elem_of_where_rows in H as [Hc [k Hk]]. bools.
  by rewrite (li_keyed d Hi _ _ Hk).
Qed.

Lemma first_row_is d m k r :
  ledger_inv d → execution_attempts d !! k = Some r → a_memorial_id (at_lease r) = m →
  attempt_no (at_lease r) = 1 → first_row d m = Some r.
Proof.
  intros Hi Hk Hm Hn. destruct (first_row d m) as [r'|] eqn:E.
  - apply first_row_Some in E as (Hk' & Hm' & Hn'); [|done].
    destruct (decide (k = attempt_id (at_lease r'))) as [->|Hne]; [congruence|].
    pose proof (li_unique d Hi _ _ _ _ Hk Hk' Hne) as Hc. unfold attempt_row_conflict in Hc.
    rewrite Hm, Hm', Hn, Hn', bool_decide_eq_true_2 in Hc by done. done.
  - exfalso. unfold first_row in E. apply head_None in E.
    assert (Hin : r ∈ where_rows (λ r, bool_decide (a_memorial_id (at_lease r) = m) &&
      (attempt_no (at_lease r) =? 1)) (execution_attempts d)).
    { apply elem_of_where_rows. split; [|by exists k]. by rewrite bool_decide_eq_true_2, Hn. }
    rewrite E in Hin. by apply elem_of_nil in Hin.
Qed.

(** A memorial without a first attempt has no attempt at all. *)
Lemma first_row_None d m k r :
  ledger_inv d → first_row d m = None → execution_attempts d !! k = Some r →
  a_memorial_id (at_lease r) ≠ m.
Proof.
  intros Hi Hf Hk Hm.
  assert (Hpos : 1 ≤ attempt_no (at_lease r)).
  { pose proof (li_valid d Hi _ _ Hk). attempt_facts. done. }
  assert (∀ n : nat, ∀ k r, execution_attempts d !! k = Some r → a_memorial_id (at_lease r) = m →
    attempt_no (at_lease r) = Z.of_nat n + 1 → False) as Hno.
  { induction n as [|n IH]; intros k2 r2 Hk2 Hm2 Hn2.
    - rewrite (first_row_is d m k2 r2 Hi Hk2 Hm2 ltac:(lia)) in Hf. done.
    - destruct (li_chain d Hi _ _ Hk2) as (k3 & r3 & Hk3 & M3 & N3 & _); [lia|].
      eapply (IH k3 r3); [done|congruence|lia]. }
  eapply (Hno (Z.to_nat (attempt_no (at_lease r) - 1)) k r); [done|done|lia].
Qed.

Definition replay_matches (a : AttemptLeaseV1) (available maxn : Z) (requested : option string) : bool :=
  (Models.available_at a =? available) && (max_attempts a =? maxn) &&
  match requested with Some i => bool_decide (attempt_id a = i) | None => true end.

Definition initial_attempt (id m : string) (available maxn clock_now : Z) : AttemptLeaseV1 :=
  new_attempt id m 1 0 available maxn (Z.min clock_now available).

(** What enqueueing does, for well-formed arguments and a root memorial. *)
Lemma enqueue_eq d m at_ t maxn requested clock_now fresh :
  ledger_inv d → non_blank m = true → optional_non_blank requested = true →
  to_utc at_ d = (Ok t, d) → 0 < maxn → is_root d m = true →
  enqueue_initial m at_ maxn requested clock_now fresh d =
    match first_row d m with
    | Some r =>
        if replay_matches (at_lease r) t maxn requested then (Ok (at_lease r), d)
        else (Err (Exn AttemptConflict "initial attempt replay does not match durable envelope"), d)
    | None =>
        (let id := default fresh requested in
         let! correlation_id := correlation_for_memorial m None in
         try_except
           (sql_insert id (mkAttemptRow (initial_attempt id m t maxn clock_now) (Some correlation_id)))
           IntegrityError (λ _, raise AttemptConflict "initial attempt identity conflict") ;;;
         let! created := select_attempt id in
         match created with
         | Some a => ret a
         | None => raise AttemptConflict "initial attempt disappeared"
         end) d
    end.
Proof.
  intros Hi Hm Hreq Ht Hmax Hroot. unfold enqueue_initial, require_non_blank, require_positive.
  rewrite Hm, (proj2 (Z.ltb_lt _ _) Hmax). unfold is_root in Hroot.
  unfold bind at 1. cbn [guard ret].
  replace (match requested with Some i => guard (non_blank i) ValueError ("attempt_id" +:+ " must be non-blank")
           | None => ret tt end) with (@ret db _ tt).
  2: { destruct requested as [i|]; [|done]. cbn in Hreq. by rewrite Hreq. }
  unfold bind at 1. cbn [ret]. rewrite (bind_Ok _ _ _ _ _ Ht). unfold bind at 1. cbn [guard ret].
  rewrite bind_get_state. destruct (memorials d !! m) as [x|]; [|done]. rewrite Hroot.
  unfold bind at 1. cbn [guard ret]. rewrite bind_sql_select.
  change (head (where_rows _ (tbl d))) with (first_row d m).
  destruct (first_row d m) as [r|] eqn:Er; [|done].
  apply first_row_Some in Er as (Hk & _); [|done].
  unfold decode_attempt. rewrite (li_valid d Hi _ _ Hk).
  change (bind (bind (guard true _ _) _) ?k d) with (k (at_lease r) d). cbn beta.
  unfold replay_matches. by destruct (_ && _ && _).
Qed.

(** A first attempt conflicts with nothing when the memorial has none. *)
Lemma initial_unique d m id a c :
  ledger_inv d → first_row d m = None → a_memorial_id a = m →
  unique_ok (execution_attempts d) id (mkAttemptRow a c) = true.
Proof.
  intros Hi Hf Hm. apply unique_ok_spec. intros k r Hk _.
  change (attempt_row_conflict (mkAttemptRow a c) r = false). unfold attempt_row_conflict. cbn.
  pose proof (first_row_None d m k r Hi Hf Hk). by rewrite bool_decide_eq_false_2 by congruence.
Qed.

Lemma enqueue_guards d m at_ maxn requested clock_now fresh a d' :
  enqueue_initial m at_ maxn requested clock_now fresh d = (Ok a, d') →
  non_blank m = true ∧ optional_non_blank requested = true ∧
  (∃ t, to_utc at_ d = (Ok t, d)) ∧ 0 < maxn ∧ is_root d m = true.
Proof.
  unfold enqueue_initial, require_non_blank, require_positive. intros H. step_M H.
  apply bind_Ok_inv in H as (u' & d1 & Hreq & H).
  assert (d1 = d ∧ optional_non_blank requested = true) as [-> Hr].
  { destruct requested; [|by run_M Hreq]. by apply guard_Ok_inv in Hreq as [? ->]. }
  apply bind_Ok_inv in H as (t & d2 & Ht & H). pose proof (to_utc_Ok_inv _ _ _ _ Ht) as [-> _].
  step_M H. step_M H. unfold is_root. destruct (memorials d !! m) as [x|]; [|done].
  step_M H. bools. eauto 10.
Qed.

Lemma enqueue_Ok_inv d m at_ maxn requested clock_now fresh a d' :
  ledger_inv d → enqueue_initial m at_ maxn requested clock_now fresh d = (Ok a, d') →
  a_memorial_id a = m ∧ attempt_no a = 1 ∧ max_attempts a = maxn ∧
  to_utc at_ d = (Ok (Models.available_at a), d) ∧
  (d' = d ∧ (∃ k r, execution_attempts d !! k = Some r ∧ at_lease r = a) ∨
   ∃ c, a = initial_attempt (default fresh requested) m (Models.available_at a) maxn clock_now ∧
        attempt_valid a = true ∧ first_row d m = None ∧ has_memorial d m = true ∧
        is_identifier c = true ∧ execution_attempts d !! attempt_id a = None ∧
        d' = with_attempt a c d).
Proof.
  intros Hi H. pose proof (enqueue_guards _ _ _ _ _ _ _ _ _ H) as (Hm & Hr & [t Ht] & Hx & Hroot).
  rewrite (enqueue_eq d m at_ t) in H by done.
  destruct (first_row d m) as [r|] eqn:Ef.
  - destruct (replay_matches _ _ _ _) eqn:Em; [|done]. injection H as <- <-.
    unfold replay_matches in Em. bools. subst t.
    apply first_row_Some in Ef as (Hk & ? & ?); [|done]. repeat split; try done. left. eauto.
  - apply bind_Ok_inv in H as (c & d1 & Hc & H). apply correlation_Ok_inv in Hc as [-> Hc].
    apply bind_Ok_inv in H as (u & d1 & Hs & H). apply try_raise_Ok_inv in Hs.
    apply sql_insert_Ok_inv in Hs as (Hn & Hck & Hu & ->).
    apply bind_Ok_inv in H as (created & d1 & Hsel & H). rewrite select_new in Hsel. cbn in Hsel.
    rewrite lookup_insert_eq in Hsel. destruct (attempt_valid _) eqn:Hv; [|done].
    injection Hsel as <- <-. run_M H. repeat split; try done. right. exists c.
    repeat split; try done. unfold is_root in Hroot. unfold has_memorial. by destruct (memorials d !! m).
Qed.

Lemma enqueue_changes d m at_ maxn requested clock_now fresh a d' :
  ledger_inv d → enqueue_initial m at_ maxn requested clock_now fresh d = (Ok a, d') →
  rtc change d d'.
Proof.
  intros Hi H. apply enqueue_Ok_inv in H as (Hm & Hn & _ & _ & Hcase); [|done].
  destruct Hcase as [[-> _]|(c & Ea & Hv & Hf & Hmm & Hc & Hk & ->)]; [done|].
  apply rtc_once, change_insert; try done; [| |by rewrite Hm|by eapply initial_unique|lia].
  - rewrite Ea. attempt_goal; [lia|done].
  - by rewrite Ea.
Qed.

(** ** Histories of the ledger *)

(** A call of the repository; connection-level methods run in their caller's
    transaction. *)
Inductive ledger_op :=
  | OpEnqueue (memorial_id : string) (available_at : datetime) (maxn : Z)
      (requested : option string) (clock_now : Z) (fresh : string)
  | OpClaim (memorial_id owner_id : string) (now : datetime) (lease_seconds : Z) (fresh : string)
  | OpHeartbeat (attempt_id owner_id : string) (token : Z) (now : datetime)
  | OpComplete (attempt_id owner_id : string) (token : Z) (outcome : AttemptOutcomeV1) (fresh : string)
  | OpResume (attempt_id memorial_id : string) (version : Z) (available_at : datetime).

(** A call's effect; its value is the lease it grants, if any. *)
Definition exec_op (op : ledger_op) : M db (option AttemptLeaseV1) :=
  match op with
  | OpEnqueue m at_ maxn requested now fresh =>
      atomically (enqueue_initial m at_ maxn requested now fresh) ;;; ret None
  | OpClaim m o now secs fresh => claim m o now secs fresh
  | OpHeartbeat i o token now => heartbeat i o token now ;;; ret None
  | OpComplete i o token outcome fresh => complete i o token outcome fresh ;;; ret None
  | OpResume i m version at_ => atomically (resume_suspended_current i m version at_) ;;; ret None
  end.

(** Outcomes are valid models; a resumption is not dated before the attempt
    was created (its only caller passes the current time). *)
Definition op_ok (d : db) (op : ledger_op) : bool :=
  match op with
  | OpComplete _ _ _ outcome _ => outcome_valid outcome
  | OpResume i m version at_ =>
      match suspended_row d i m version, to_utc at_ d with
      | Some r, (Ok t, _) => a_created_at (at_lease r) <=? t
      | _, _ => true
      end
  | _ => true
  end.

Lemma exec_op_Ok_changes d op res d' :
  ledger_inv d → op_ok d op = true → exec_op op d = (Ok res, d') → rtc change d d'.
Proof.
  intros Hi Hok. destruct op; cbn [exec_op op_ok] in *; intros H.
  - apply bind_Ok_inv in H as (a & d1 & H & H1). run_M H1. apply atomically_Ok_inv in H.
    by eapply enqueue_changes.
  - destruct (claim_Ok_inv _ _ _ _ _ _ _ _ Hi H) as (t & _ & Hs & Ho & Hc).
    eapply claim_spec_changes; [done| |done|exact Hc]. lia.
  - apply bind_Ok_inv in H as (a & d1 & H & H1). run_M H1.
    destruct (heartbeat_Ok_inv _ _ _ _ _ _ _ Hi H) as (t & _ & Hc). by eapply heartbeat_spec_change.
  - apply bind_Ok_inv in H as (a & d1 & H & H1). run_M H1.
    apply try_raise_Ok_inv, atomically_Ok_inv in H.
    eapply complete_spec_changes; [done|done|]. by apply complete_current_Ok_inv.
  - apply bind_Ok_inv in H as (a & d1 & H & H1). run_M H1. apply atomically_Ok_inv in H.
    eapply resume_Ok_inv; [done|done|]. intros r t Hr Ht. rewrite Hr, Ht in Hok. by bools.
Qed.

(** A call that raises leaves the tables as they were. *)
Lemma exec_op_Err d op e d' : exec_op op d = (Err e, d') → d' = d.
Proof.
  cut (err_keeps (exec_op op)); [intros Hk; apply Hk|]. clear.
  destruct op; cbn [exec_op];
    unfold claim, heartbeat, complete, require_authority, require_non_blank, require_positive;
    auto 12 with py.
Qed.

Lemma exec_op_step d op :
  ledger_inv d → op_ok d op = true → ledger_inv (exec_op op d).2 ∧ ledger_le d (exec_op op d).2.
Proof.
  intros Hi Hok. destruct (exec_op op d) as [[res|e] d'] eqn:E; cbn.
  - eapply changes_inv; [done|]. by eapply exec_op_Ok_changes.
  - by rewrite (exec_op_Err _ _ _ _ E).
Qed.

(** A history: calls in order, each on the tables the previous ones left, with
    the leases they granted. *)
Inductive history : db → list (option AttemptLeaseV1) → db → Prop :=
  | history_nil d : history d [] d
  | history_ok d op res d1 gs d2 :
      op_ok d op = true → exec_op op d = (Ok res, d1) → history d1 gs d2 → history d (res :: gs) d2
  | history_err d op e d1 gs d2 :
      op_ok d op = true → exec_op op d = (Err e, d1) → history d1 gs d2 → history d (None :: gs) d2.

(** Running a list of calls, and whether each was well formed when made. *)
Fixpoint run_ops (ops : list ledger_op) (d : db) : list (option AttemptLeaseV1) * db :=
  match ops with
  | [] => ([], d)
  | op :: ops' =>
      let '(r, d1) := exec_op op d in
      let '(gs, d2) := run_ops ops' d1 in
      (match r with Ok g => g | Err _ => None end :: gs, d2)
  end.
Fixpoint ops_ok (ops : list ledger_op) (d : db) : bool :=
  match ops with
  | [] => true
  | op :: ops' => op_ok d op && ops_ok ops' (exec_op op d).2
  end.

Lemma run_ops_history ops d :
  ops_ok ops d = true → history d (run_ops ops d).1 (run_ops ops d).2.
Proof.
  revert d. induction ops as [|op ops IH]; intros d Hok; [constructor|]. cbn in *. bools.
  destruct (exec_op op d) as [r d1] eqn:E. cbn in *. specialize (IH d1 ltac:(done)).
  destruct (run_ops ops d1) as [gs d2]. destruct r as [g|e]; [by eapply history_ok|by eapply history_err].
Qed.

Lemma history_step d gs d' : ledger_inv d → history d gs d' → ledger_inv d' ∧ ledger_le d d'.
Proof.
  intros Hi H. induction H as [d|d op res d1 gs d2 Hok E _ IH|d op e d1 gs d2 Hok E _ IH]; [done|..];
    destruct (exec_op_step d op Hi Hok) as [Hi1 Hl1]; rewrite E in Hi1, Hl1; cbn in Hi1, Hl1;
    destruct (IH Hi1) as [Hi2 Hl2]; (split; [done|]); by etransitivity.
Qed.

(** The state a granted lease was read from, and the one it left. *)
Lemma exec_op_granted d op l d1 :
  ledger_inv d → exec_op op d = (Ok (Some l), d1) →
  at_lease <$> execution_attempts d1 !! attempt_id l = Some l ∧ a_status l = CLAIMED ∧
  (∀ k r, execution_attempts d !! k = Some r → a_memorial_id (at_lease r) = a_memorial_id l →
     a_fencing_token (at_lease r) < a_fencing_token l).
Proof.
  intros Hi. destruct op; cbn [exec_op]; intros H;
    try (apply bind_Ok_inv in H as (? & ? & _ & H); by run_M H).
  destruct (claim_Ok_inv _ _ _ _ _ _ _ _ Hi H) as (t & _ & Hs & Ho & Hc).
  apply claim_spec_granted in Hc as (-> & Hcl & _ & _ & _ & Hl & Htop); [|done]. done.
Qed.

(** A grant of a history survives, with a token at least as great, in every
    later state; a later grant of the same memorial has a greater token. *)
Lemma history_grant d gs d' i l :
  ledger_inv d → history d gs d' → gs !! i = Some (Some l) →
  (∃ r, execution_attempts d' !! attempt_id l = Some r ∧
        a_memorial_id (at_lease r) = a_memorial_id l ∧
        0 < a_fencing_token l ≤ a_fencing_token (at_lease r)) ∧
  (∀ k r, execution_attempts d !! k = Some r → a_memorial_id (at_lease r) = a_memorial_id l →
     a_fencing_token (at_lease r) < a_fencing_token l).
Proof.
  intros Hi H. revert i. induction H as [d|d op res d1 gs d2 Hok E Hh IH|d op e d1 gs d2 Hok E Hh IH];
    intros i Hg; [by rewrite lookup_nil in Hg|..];
    destruct (exec_op_step d op Hi Hok) as [Hi1 Hl1]; rewrite E in Hi1, Hl1; cbn in Hi1, Hl1;
    destruct i as [|i]; cbn in Hg; simplify_eq.
  1: { destruct (exec_op_granted _ _ _ _ Hi E) as (Hr & Hcl & Htop). split; [|done].
       destruct (execution_attempts d1 !! attempt_id l) as [r|] eqn:Ek; [|done]. cbn in Hr. simplify_eq.
       destruct (history_step _ _ _ Hi1 Hh) as [_ Hl2]. destruct (Hl2 _ _ Ek) as (r' & Hk' & Hs & Ht).
       destruct (claimed_lease _ (li_valid d1 Hi1 _ _ Ek) (li_timed d1 Hi1 _ _ Ek) Hcl)
         as (_ & _ & _ & _ & _ & _ & _ & _ & Hpos & _).
       exists r'. unfold same_attempt in Hs. split; [done|]. split; [naive_solver congruence|done]. }
  all: destruct (IH Hi1 i Hg) as [Hr Htop]; split; [done|]; intros k r Hk Hm;
    destruct (Hl1 k r Hk) as (r1 & Hk1 & Hs & Ht); unfold same_attempt in Hs;
    destruct Hs as (_ & Em & _); specialize (Htop k r1 Hk1 ltac:(congruence)); lia.
Qed.

Lemma history_drop d gs d' i :
  ledger_inv d → history d gs d' → (i ≤ length gs)%nat →
  ∃ d1, history d (take i gs) d1 ∧ history d1 (drop i gs) d' ∧ ledger_inv d1.
Proof.
  intros Hi H. revert i. induction H as [d|d op res d1 gs d2 Hok E Hh IH|d op e d1 gs d2 Hok E Hh IH];
    intros i Hle; cbn in Hle.
  { exists d. destruct i; [|lia]. repeat constructor; apply Hi. }
  all: destruct i as [|i]; [exists d; split; [constructor|]; split; [by econstructor|done]|];
    destruct (exec_op_step d op Hi Hok) as [Hi1 _]; rewrite E in Hi1; cbn in Hi1;
    destruct (IH Hi1 i ltac:(lia)) as (dm & Ha & Hb & Him); exists dm; cbn;
    (split; [by econstructor|done]).
Qed.

Lemma grants_increase d gs d' i j l1 l2 :
  ledger_inv d → history d gs d' → (i < j)%nat →
  gs !! i = Some (Some l1) → gs !! j = Some (Some l2) → a_memorial_id l1 = a_memorial_id l2 →
  a_fencing_token l1 < a_fencing_token l2.
Proof.
  intros Hi H Hij H1 H2 Hm. pose proof (lookup_lt_Some _ _ _ H2) as Hj.
  destruct (history_drop _ _ _ j Hi H ltac:(lia)) as (dm & Ha & Hb & Him).
  destruct (history_grant _ _ _ i l1 Hi Ha) as [(r & Hr & Em & Hle) _].
  { rewrite lookup_take_lt by lia. done. }
  destruct (history_grant _ _ _ 0 l2 Him Hb) as [_ Htop].
  { by rewrite lookup_drop, Nat.add_0_r. }
  specialize (Htop _ _ Hr ltac:(congruence)). lia.
Qed.

(** A ledger without attempts. *)
Lemma ledger_inv_empty d : execution_attempts d = ∅ → correlations_ok d → ledger_inv d.
Proof. intros He Hc. split; try done; rewrite He; intros *; rewrite ?lookup_empty; done. Qed.
