(* ===== verification/Fencing.v ===== *)
(** * Correctness of the attempt ledger

    The properties of AttemptLedger.v: the invariant of the table, the
    functional behaviour of every operation, fencing over whole histories, and
    the retry budget. *)

From S2P Require Import Prelude.
From S2P Require Import Sql.
From S2P Require Import Canonical.
From S2P Require Import Timestamp.
From S2P Require Import UnitOfWork.
From S2P Require Import Models.
From S2P Require Import Schema.
From S2P Require Import Correlation.
From S2P Require Import AttemptLedger.

(** ** A concrete ledger *)

(** One root memorial of one edict, nothing enqueued. *)
Definition sample_db : db :=
  mkDb {["e" := mkEdictRow "title" "goal" "alice" false None None]} {["m" := mkMemorialRow "e" None new_columns]}
    ∅ ∅ ∅ ∅ ∅ ∅ ∅ ∅ ∅ ∅ (mkOrchestration ∅ ∅ ∅).

Lemma sample_inv : ledger_inv sample_db.
Proof. apply ledger_inv_empty; [done|]. by repeat split; apply map_Forall_empty. Qed.

(** Microseconds of a second of the sample timeline. *)
Definition at_s (n : Z) : Z := 63000000000000000 + n * 1000000.
Definition when (n : Z) : datetime := utc_at (at_s n).

Definition sample_ops : list ledger_op :=
  [OpEnqueue "m" (when 0) 3 None (at_s 0) "A1";
   OpClaim "m" "worker-1" (when 1) 10 "A2";
   OpHeartbeat "A1" "worker-1" 1 (when 5);
   OpClaim "m" "worker-2" (when 20) 10 "A2"].

Definition sample_end : db := (run_ops sample_ops sample_db).2.

(** ** Invariant *)

(** Every history of ledger calls keeps the ledger invariant; in particular every stored
    attempt still decodes as a valid AttemptLeaseV1 and satisfies the CHECK and UNIQUE
    constraints of its table. *)
Theorem ledger_invariant d gs d' :
  ledger_inv d → history d gs d' →
  ledger_inv d' ∧
  ∀ k r, execution_attempts d' !! k = Some r →
    attempt_valid (at_lease r) = true ∧ attempt_row_check d' r = true ∧
    unique_ok (execution_attempts d') k r = true.
Proof.
  intros Hi H. destruct (history_step _ _ _ Hi H) as [Hi' _]. split; [done|]. intros k r Hk.
  split; [by eapply li_valid|]. split.
  - apply valid_row_check; [by eapply li_valid|by eapply li_memorial].
  - apply unique_ok_spec. intros k' r' Hk' Hne. by eapply (li_unique d' Hi' k r k' r').
Qed.

Lemma ledger_invariant_witness :
  ledger_inv sample_end.
Proof.
  eapply (ledger_invariant sample_db (run_ops sample_ops sample_db).1); [apply sample_inv|].
  apply run_ops_history. vm_compute. reflexivity.
Defined.

(** ** Fencing *)

(** C2. Over any history of enqueue, claim, heartbeat, complete and resume calls, failed
    ones included, the fencing tokens of the leases granted to one memorial strictly
    increase. *)
Theorem fencing_tokens_increase d gs d' i j l1 l2 :
  ledger_inv d → history d gs d' → (i < j)%nat →
  gs !! i = Some (Some l1) → gs !! j = Some (Some l2) → a_memorial_id l1 = a_memorial_id l2 →
  a_fencing_token l1 < a_fencing_token l2.
Proof.
  apply grants_increase.
Qed.

(** The leases of the sample history: worker-1 is granted the first attempt
    under token 1; its lease runs out and worker-2 gets the retry under token 2. *)
Definition lease_1 : AttemptLeaseV1 :=
  granted "worker-1" (at_s 1) (at_s 11) (initial_attempt "A1" "m" (at_s 0) 3 (at_s 0)).
Definition lease_2 : AttemptLeaseV1 :=
  mkAttempt "A2" "m" 2 CLAIMED (Some "worker-2") 2 (Some (at_s 30)) (Some (at_s 20)) (at_s 20) 3
    None 2 (at_s 20) (at_s 20).

Lemma sample_grants : (run_ops sample_ops sample_db).1 = [None; Some lease_1; None; Some lease_2].
Proof. vm_compute. reflexivity. Qed.

Lemma sample_history : history sample_db [None; Some lease_1; None; Some lease_2] sample_end.
Proof. unfold sample_end. rewrite <-sample_grants. apply run_ops_history. vm_compute. reflexivity. Qed.

Lemma fencing_tokens_increase_witness : a_fencing_token lease_1 < a_fencing_token lease_2.
Proof.
  apply (fencing_tokens_increase _ _ _ 1 3 _ _ sample_inv sample_history); [lia|done..].
Defined.

(** An authority whose attempt carries a greater token, or whose memorial has
    been granted a greater one, holds no row. *)
Lemma fenced_off d l r id owner_id token now :
  ledger_inv d → execution_attempts d !! attempt_id l = Some r →
  a_memorial_id (at_lease r) = a_memorial_id l → a_fencing_token l ≤ a_fencing_token (at_lease r) →
  token < a_fencing_token l →
  (∀ r', execution_attempts d !! id = Some r' → a_memorial_id (at_lease r') = a_memorial_id l) →
  held_row d id owner_id token now = None.
Proof.
  intros Hi Hk Hm Hle Hlt Hmem. destruct (held_row d id owner_id token now) as [r'|] eqn:E; [|done].
  apply held_row_Some in E as [Hk' Hh]. apply holds_inv in Hh as (Hs & _ & Ht & _).
  destruct (active_is_top d _ r _ r' Hi Hk Hk') as [Htop _]; [|by rewrite Hs|lia].
  rewrite Hm. symmetry. by apply Hmem.
Qed.

(** The authority of an earlier grant of a memorial holds no row once a later
    one has been granted. *)
Lemma stale_not_held d gs d' i j l1 l2 owner_id now :
  ledger_inv d → history d gs d' → (i < j)%nat →
  gs !! i = Some (Some l1) → gs !! j = Some (Some l2) → a_memorial_id l1 = a_memorial_id l2 →
  held_row d' (attempt_id l1) owner_id (a_fencing_token l1) now = None.
Proof.
  intros Hi H Hij H1 H2 Hm. destruct (history_step _ _ _ Hi H) as [Hi' _].
  destruct (history_grant _ _ _ i l1 Hi H H1) as [(r1 & Hr1 & Em1 & Hp & Hle1) _].
  destruct (history_grant _ _ _ j l2 Hi H H2) as [(r2 & Hr2 & Em2 & _ & Hle2) _].
  pose proof (grants_increase _ _ _ _ _ _ _ Hi H Hij H1 H2 Hm) as Hlt.
  eapply (fenced_off d' l2 r2); try done. intros r' Hr'. simplify_eq. congruence.
Qed.

Lemma require_current_stale d id owner_id token now t :
  non_blank id = true → non_blank owner_id = true → 0 < token → to_utc now d = (Ok t, d) →
  held_row d id owner_id token t = None →
  require_current id owner_id token now d =
    (Err (Exn AttemptFenceLost "attempt authority is no longer current"), d).
Proof.
  intros Hi Ho Ht Hn Hr. unfold require_current.
  rewrite (bind_Ok _ _ _ _ _ (require_authority_Ok _ _ _ d Hi Ho Ht)), (bind_Ok _ _ _ _ _ Hn), bind_sql_get.
  unfold held_row in Hr. cbn. destruct (execution_attempts d !! id) as [r|]; [|done].
  by destruct (holds _ _ _ _).
Qed.

(** C1. Fencing: in a history of ledger calls from a consistent ledger, once a memorial has
    been granted a later lease, the authority of an earlier grant is dead for ever:
    require_current raises AttemptFenceLost for it, and heartbeat and complete return False
    and change nothing, whatever non-blank owner and convertible time are presented. The
    calls of the history are arbitrary, failed ones included, except that the outcomes they
    complete with are valid models and no resume is dated before its attempt was created
    (its one caller passes the current time); a backdated resume, which leaves a row the
    ledger cannot decode, is outside the statement. *)
Theorem stale_authority_is_fenced d gs d' i j l1 l2 owner_id now t outcome fresh :
  ledger_inv d → history d gs d' → (i < j)%nat →
  gs !! i = Some (Some l1) → gs !! j = Some (Some l2) → a_memorial_id l1 = a_memorial_id l2 →
  non_blank owner_id = true → to_utc now d' = (Ok t, d') →
  let stale := a_fencing_token l1 in
  require_current (attempt_id l1) owner_id stale now d' =
    (Err (Exn AttemptFenceLost "attempt authority is no longer current"), d') ∧
  heartbeat (attempt_id l1) owner_id stale now d' = (Ok false, d') ∧
  complete (attempt_id l1) owner_id stale outcome fresh d' = (Ok false, d').
Proof.
  intros Hi H Hij H1 H2 Hm Ho Hn stale. destruct (history_step _ _ _ Hi H) as [Hi' _].
  destruct (history_grant _ _ _ i l1 Hi H H1) as [(r1 & Hr1 & Em1 & Hp & Hle1) _].
  assert (Hnb : non_blank (attempt_id l1) = true).
  { pose proof (li_valid d' Hi' _ _ Hr1). rewrite <-(li_keyed d' Hi' _ _ Hr1). attempt_facts. done. }
  assert (Hnone : ∀ t, held_row d' (attempt_id l1) owner_id stale t = None)
    by (intros; exact (stale_not_held _ _ _ _ _ _ _ _ _ Hi H Hij H1 H2 Hm)).
  split; [by eapply require_current_stale|]. split.
  - rewrite (heartbeat_eq d' _ _ _ _ t) by done. unfold heartbeat_spec. by rewrite Hnone.
  - by apply try_except_Ok, atomically_Ok, complete_current_stale.
Qed.

Lemma stale_authority_is_fenced_witness :
  complete "A1" "worker-1" 1 (mkOutcome D_SUCCEEDED (at_s 21) None None) "A3" sample_end = (Ok false, sample_end).
Proof.
  apply (stale_authority_is_fenced sample_db _ sample_end 1 3 lease_1 lease_2 "worker-1" (when 21) (at_s 21)
    (mkOutcome D_SUCCEEDED (at_s 21) None None) "A3" sample_inv sample_history); [lia|done..|].
  apply to_utc_utc_at. vm_compute. done.
Defined.

(** Mutual exclusion: two authorities that require_current accepts for one memorial, at any
    two times, are the same attempt, owner and token. *)
Theorem current_authority_unique d id1 o1 t1 now1 id2 o2 t2 now2 r1 r2 :
  ledger_inv d →
  (require_current id1 o1 t1 now1 d).1 = Ok tt → (require_current id2 o2 t2 now2 d).1 = Ok tt →
  execution_attempts d !! id1 = Some r1 → execution_attempts d !! id2 = Some r2 →
  a_memorial_id (at_lease r1) = a_memorial_id (at_lease r2) →
  id1 = id2 ∧ o1 = o2 ∧ t1 = t2.
Proof.
  intros Hi H1 H2 Hk1 Hk2 Hm.
  assert (Hc : ∀ id o t now r, (require_current id o t now d).1 = Ok tt →
    execution_attempts d !! id = Some r → ∃ n, holds (at_lease r) o t n = true).
  { intros id o t now r H Hk. destruct (require_current id o t now d) as [res d'] eqn:E. cbn in H. subst.
    unfold require_current in E. apply bind_Ok_inv in E as (? & ? & (-> & _)%require_authority_Ok_inv & E).
    apply bind_Ok_inv in E as (n & ? & Ht & E). apply to_utc_Ok_inv in Ht as [-> _].
    rewrite bind_sql_get in E. apply guard_Ok_inv in E as [E _]. cbn in E. rewrite Hk in E. eauto. }
  destruct (Hc _ _ _ _ _ H1 Hk1) as [n1 (S1 & O1 & T1 & _)%holds_inv].
  destruct (Hc _ _ _ _ _ H2 Hk2) as [n2 (S2 & O2 & T2 & _)%holds_inv].
  assert (id1 = id2) as <-.
  { eapply (active_unique d _ id1 r1 id2 r2 Hi Hk1 Hk2 Hm); [done|by rewrite S1|by rewrite S2]. }
  simplify_eq. split; [done|]. split; congruence.
Qed.

Lemma current_authority_unique_witness :
  (require_current "A2" "worker-2" 2 (when 25) sample_end).1 = Ok tt ∧ "worker-2" = "worker-2".
Proof.
  assert (Hc : (require_current "A2" "worker-2" 2 (when 25) sample_end).1 = Ok tt).
  { vm_compute. reflexivity. }
  split; [exact Hc|].
  destruct (history_step _ _ _ sample_inv sample_history) as [Hi _].
  assert (Hr : ∃ r, execution_attempts sample_end !! "A2" = Some r).
  { eexists. vm_compute. reflexivity. }
  destruct Hr as [r Hr].
  apply (current_authority_unique sample_end "A2" "worker-2" 2 (when 25) "A2" "worker-2" 2 (when 25) r r Hi Hc Hc Hr Hr eq_refl).
Defined.

(** ** The operations *)

(** C3. claim on a root memorial with in-range inputs always returns, and its result and
    effect are exactly what claim_spec says for each state of the active attempt: none,
    suspended, not yet due, held, granted, out of retries (buried), or expired and retried
    under a new attempt; the ledger invariant is kept. *)
Theorem claim_correct d m owner_id now secs fresh :
  ledger_inv d → non_blank m = true → non_blank owner_id = true → 0 < secs →
  0 ≤ now → now + secs * 1000000 < max_instant → is_root d m = true →
  execution_attempts d !! fresh = None → non_blank fresh = true →
  ∃ res d', claim m owner_id (utc_at now) secs fresh d = (Ok res, d') ∧
            claim_spec d m owner_id now (now + secs * 1000000) fresh res d' ∧ ledger_inv d'.
Proof.
  intros Hi Hm Ho Hs Hn Hx Hroot Hf Hb.
  destruct (claim_total d m owner_id now secs fresh) as (res & d' & E); try done.
  { unfold is_root in Hroot. by destruct (memorials d !! m). }
  exists res, d'. split; [done|]. destruct (claim_Ok_inv _ _ _ _ _ _ _ _ Hi E) as (t & Ht & _ & _ & Hc).
  rewrite to_utc_utc_at in Ht by lia. simplify_eq. split; [done|].
  eapply changes_inv; [exact Hi|]. eapply claim_spec_changes; [done| |exact Ho|exact Hc]. lia.
Qed.

Lemma claim_correct_witness :
  let d := (run_ops (take 3 sample_ops) sample_db).2 in
  ∃ res d', claim "m" "worker-2" (when 20) 10 "A2" d = (Ok res, d') ∧ ledger_inv d'.
Proof.
  intros d.
  assert (Hi : ledger_inv d).
  { eapply (history_step sample_db); [apply sample_inv|]. apply run_ops_history. vm_compute. reflexivity. }
  destruct (claim_correct d "m" "worker-2" (at_s 20) 10 "A2" Hi) as (res & d' & E & _ & Hi');
    try (vm_compute; reflexivity); [vm_compute; done|eauto].
Defined.

(** complete always returns; it returns True exactly when the caller holds the lease at
    completed_at, moving the attempt to the status its disposition asks for and inserting
    the next attempt of a retry within the budget, and otherwise changes nothing. *)
Theorem complete_correct d id owner_id token o fresh :
  ledger_inv d → outcome_valid o = true → non_blank id = true → non_blank owner_id = true →
  0 < token → execution_attempts d !! fresh = None → non_blank fresh = true →
  ∃ b d', complete id owner_id token o fresh d = (Ok b, d') ∧
          complete_spec d id owner_id token o fresh b d' ∧ ledger_inv d' ∧
          (b = true ↔ ∃ r, held_row d id owner_id token (Models.completed_at o) = Some r).
Proof.
  intros Hi Hov Hid Ho Ht Hf Hb.
  destruct (complete_total d id owner_id token o fresh) as (b & d' & E); try done.
  exists b, d'. split; [done|]. apply try_raise_Ok_inv, atomically_Ok_inv in E.
  apply complete_current_Ok_inv in E; [|done..]. split; [done|]. split.
  - eapply changes_inv; [exact Hi|]. by eapply complete_spec_changes.
  - inversion E; subst; split; try done; eauto. intros [r Hr]. congruence.
Qed.

Lemma complete_correct_witness :
  let o := mkOutcome D_RETRY (at_s 25) (Some lease_expired_failure) (Some (at_s 60)) in
  ∃ b d', complete "A2" "worker-2" 2 o "A3" sample_end = (Ok b, d') ∧ ledger_inv d'.
Proof.
  intros o. destruct (history_step _ _ _ sample_inv sample_history) as [Hi _].
  destruct (complete_correct sample_end "A2" "worker-2" 2 o "A3" Hi) as (b & d' & E & _ & Hi' & _);
    try (vm_compute; reflexivity). eauto.
Defined.

(** A heartbeat of the current authority extends the lease by its own duration from now, and
    fails only when the new expiry leaves the range of datetime. *)
Theorem heartbeat_correct d id owner_id token now t r :
  ledger_inv d → to_utc now d = (Ok t, d) → held_row d id owner_id token t = Some r →
  ∃ h l, heartbeat_at (at_lease r) = Some h ∧ lease_expires_at (at_lease r) = Some l ∧
    heartbeat id owner_id token now d =
      if representable (t + (l - h))
      then (Ok true, put_lease r (beaten t (t + (l - h)) (at_lease r)) d)
      else (Err (Exn OverflowError "date value out of range"), d).
Proof.
  intros Hi Hn Hr. pose proof (held_row_Some _ _ _ _ _ _ Hr) as [Hk Hh].
  pose proof (li_valid d Hi _ _ Hk) as Hv. pose proof (li_keyed d Hi _ _ Hk) as Hid.
  apply holds_inv in Hh as (Hs & Ho & Ht & h & l & Eh & El & _).
  destruct (claimed_lease _ Hv (li_timed d Hi _ _ Hk) Hs) as (o & _ & _ & Eo & _ & _ & Hno & _ & Hp & _).
  exists h, l. split; [done|]. split; [done|]. rewrite (heartbeat_eq d id owner_id token now t); try done.
  - unfold heartbeat_spec. by rewrite Hr, Eh, El.
  - attempt_facts. congruence.
  - congruence.
  - lia.
Qed.

(** The row of the second attempt at the end of the sample history. *)
Definition sample_row : attempt_row :=
  mkAttemptRow lease_2 (Some (legacy_correlation "m")).

Lemma sample_held : held_row sample_end "A2" "worker-2" 2 (at_s 25) = Some sample_row.
Proof. vm_compute. reflexivity. Qed.
Lemma sample_now : to_utc (when 25) sample_end = (Ok (at_s 25), sample_end).
Proof. apply to_utc_utc_at. vm_compute. done. Qed.

Lemma heartbeat_correct_witness :
  heartbeat "A2" "worker-2" 2 (when 25) sample_end =
    (Ok true, put_lease sample_row (beaten (at_s 25) (at_s 35) lease_2) sample_end).
Proof.
  destruct (history_step _ _ _ sample_inv sample_history) as [Hi _].
  destruct (heartbeat_correct sample_end "A2" "worker-2" 2 (when 25) (at_s 25) sample_row Hi
    sample_now sample_held) as (h & l & Eh & El & E).
  injection Eh as <-. injection El as <-. exact E.
Defined.

(** ** The retry budget *)

(** In every reachable ledger the attempts of a memorial are numbered from 1 without gaps or
    duplicates and never beyond max_attempts, every attempt that has a successor is FAILED,
    and an attempt is dead-lettered only when it was the last one allowed. *)
Theorem retry_budget d gs d' k r k' r' :
  ledger_inv d → history d gs d' →
  execution_attempts d' !! k = Some r → execution_attempts d' !! k' = Some r' →
  a_memorial_id (at_lease r) = a_memorial_id (at_lease r') →
  (attempt_no (at_lease r) = attempt_no (at_lease r') → k = k') ∧
  (attempt_no (at_lease r) < attempt_no (at_lease r') → a_status (at_lease r) = FAILED) ∧
  1 ≤ attempt_no (at_lease r) ≤ max_attempts (at_lease r) ∧
  (a_status (at_lease r) = DEAD_LETTER → attempt_no (at_lease r) = max_attempts (at_lease r)) ∧
  (∀ n, 1 ≤ n ≤ attempt_no (at_lease r) → ∃ k2 r2, execution_attempts d' !! k2 = Some r2 ∧
     a_memorial_id (at_lease r2) = a_memorial_id (at_lease r) ∧ attempt_no (at_lease r2) = n).
Proof.
  intros Hi0 H Hk Hk' Hm. destruct (history_step _ _ _ Hi0 H) as [Hi _].
  pose proof (li_valid d' Hi _ _ Hk) as Hv. split; [|split; [|split; [|split]]].
  - intros Hn. destruct (decide (k = k')) as [|Hne]; [done|].
    pose proof (li_unique d' Hi _ _ _ _ Hk Hk' Hne) as Hc. unfold attempt_row_conflict in Hc.
    rewrite Hm, Hn, Z.eqb_refl, bool_decide_eq_true_2 in Hc by done. done.
  - intros Hn. eapply (chain_tokens d' Hi
      (Z.to_nat (attempt_no (at_lease r') - attempt_no (at_lease r))) k r k' r'); try done; lia.
  - attempt_facts. lia.
  - by eapply li_buried.
  - intros n Hn. remember (Z.to_nat (attempt_no (at_lease r) - n)) as i eqn:Ei.
    clear Hk' Hm Hv. revert k r n Hk Hn Ei. induction i as [|i IH]; intros k r n Hk Hn Ei.
    { exists k, r. repeat split; [done|lia]. }
    destruct (li_chain d' Hi _ _ Hk) as (k2 & r2 & Hk2 & M2 & N2 & _); [lia|].
    destruct (IH k2 r2 n Hk2) as (k3 & r3 & Hk3 & M3 & N3); [lia|lia|].
    exists k3, r3. repeat split; [done|congruence|done].
Qed.

Lemma retry_budget_witness :
  ∃ r1 r2, execution_attempts sample_end !! "A1" = Some r1 ∧ execution_attempts sample_end !! "A2" = Some r2 ∧
           a_status (at_lease r1) = FAILED.
Proof.
  assert (H1 : ∃ r, execution_attempts sample_end !! "A1" = Some r ∧ a_memorial_id (at_lease r) = "m" ∧
    attempt_no (at_lease r) = 1) by (eexists; vm_compute; repeat split).
  assert (H2 : ∃ r, execution_attempts sample_end !! "A2" = Some r ∧ a_memorial_id (at_lease r) = "m" ∧
    attempt_no (at_lease r) = 2) by (eexists; vm_compute; repeat split).
  destruct H1 as (r1 & K1 & M1 & N1), H2 as (r2 & K2 & M2 & N2). exists r1, r2.
  split; [done|]. split; [done|].
  apply (retry_budget sample_db _ sample_end "A1" r1 "A2" r2 sample_inv sample_history K1 K2); [congruence|lia].
Defined.

(** ** Dispatch *)

Definition due_rows (d : db) (now : Z) : list attempt_row :=
  where_rows (λ r, is_root d (a_memorial_id (at_lease r)) && due now (at_lease r)) (execution_attempts d).

Lemma list_dispatchable_eq d now limit :
  0 ≤ now < max_instant → 0 < limit →
  list_dispatchable_memorial_ids (utc_at now) limit d =
    (Ok ((λ r, a_memorial_id (at_lease r)) <$>
           take (Z.to_nat limit) (order_by attempt_order (due_rows d now))), d).
Proof.
  intros Hn Hl. unfold list_dispatchable_memorial_ids, require_positive.
  rewrite (bind_Ok _ _ _ _ _ (to_utc_utc_at now d Hn)), (proj2 (Z.ltb_lt _ _) Hl). done.
Qed.

(** A due attempt is its memorial's active one, claimable or with a lapsed lease. *)
Lemma due_active d now r k :
  ledger_inv d → execution_attempts d !! k = Some r → due now (at_lease r) = true →
  active_rows d (a_memorial_id (at_lease r)) = [r].
Proof.
  intros Hi Hk Hd.
  assert (Ha : is_active (a_status (at_lease r)) = true).
  { unfold due in Hd. by destruct (a_status (at_lease r)). }
  destruct (active_rows_single d (a_memorial_id (at_lease r)) Hi) as [E|(r' & E & Hk' & Hm & Ha')].
  - assert (Hin : r ∈ active_rows d (a_memorial_id (at_lease r))).
    { apply elem_of_where_rows. split; [|by exists k]. by rewrite bool_decide_eq_true_2, Ha. }
    rewrite E in Hin. by apply elem_of_nil in Hin.
  - pose proof (active_unique d _ k r _ r' Hi Hk Hk' eq_refl Hm Ha Ha') as Heq. congruence.
Qed.

Lemma in_take {A} (x : A) n l : x ∈ take n l → x ∈ l.
Proof. intros (i & Hi & _)%elem_of_take. by eapply list_elem_of_lookup_2. Qed.

(** A memorial that list_dispatchable_memorial_ids returns can be claimed at that time: the
    claim either grants a lease or buries an attempt that has used its last retry. *)
Theorem dispatchable_claim_progresses d now limit ids m owner_id secs fresh :
  ledger_inv d → 0 ≤ now → 0 < limit → 0 < secs → now + secs * 1000000 < max_instant →
  non_blank owner_id = true → execution_attempts d !! fresh = None → non_blank fresh = true →
  list_dispatchable_memorial_ids (utc_at now) limit d = (Ok ids, d) → m ∈ ids →
  (∃ l d', claim m owner_id (utc_at now) secs fresh d = (Ok (Some l), d')) ∨
  (∃ r, claim m owner_id (utc_at now) secs fresh d =
          (Ok None, put_lease r (expired true now (at_lease r)) d) ∧
        active_rows d m = [r] ∧ attempt_no (at_lease r) = max_attempts (at_lease r)).
Proof.
  intros Hi Hn Hlim Hs Hx Ho Hf Hb Hids Hm.
  rewrite list_dispatchable_eq in Hids by lia. injection Hids as <-.
  apply list_elem_of_fmap in Hm as (r & -> & Hr).
  apply in_take, elem_of_order_by in Hr. apply elem_of_where_rows in Hr as [Hc [k Hk]]. bools.
  rename H into Hroot, H0 into Hd. assert (Er := due_active d now r k Hi Hk Hd).
  assert (Hv := li_valid d Hi _ _ Hk).
  destruct (claim_total d (a_memorial_id (at_lease r)) owner_id now secs fresh) as (res & d' & E); try done.
  { attempt_facts. done. }
  { unfold is_root in Hroot. by destruct (memorials d !! _). }
  destruct (claim_Ok_inv _ _ _ _ _ _ _ _ Hi E) as (t & Ht & _ & _ & Hsp).
  rewrite to_utc_utc_at in Ht by lia. injection Ht as <-. unfold due in Hd.
  inversion Hsp; subst; rewrite Er in *; simplify_eq;
    repeat match goal with H : a_status _ = _ |- _ => rewrite H in Hd; clear H end;
    repeat match goal with H : lease_expires_at _ = _ |- _ => rewrite H in Hd; clear H end;
    bools; try lia; eauto.
  right. eexists. split; [done|]. split; [done|]. attempt_facts. lia.
Qed.

Definition sample_enqueued : db := (run_ops (take 1 sample_ops) sample_db).2.
Lemma sample_enqueued_inv : ledger_inv sample_enqueued.
Proof.
  eapply (history_step sample_db); [apply sample_inv|]. apply run_ops_history. vm_compute. reflexivity.
Qed.
Lemma sample_dispatchable :
  list_dispatchable_memorial_ids (when 1) 5 sample_enqueued = (Ok ["m"], sample_enqueued).
Proof. vm_compute. reflexivity. Qed.

Lemma dispatchable_claim_progresses_witness :
  ∃ l d', claim "m" "worker-1" (when 1) 10 "A9" sample_enqueued = (Ok (Some l), d').
Proof.
  destruct (dispatchable_claim_progresses sample_enqueued (at_s 1) 5 ["m"] "m" "worker-1" 10 "A9"
    sample_enqueued_inv) as [Hl|(r & _ & Hr & Hno)];
    [vm_compute; done|lia|lia|reflexivity|reflexivity|vm_compute; reflexivity|reflexivity
    |apply sample_dispatchable|by left|exact Hl|].
  exfalso. vm_compute in Hr. injection Hr as <-. vm_compute in Hno. discriminate Hno.
Defined.

(** list_dispatchable_memorial_ids returns no memorial twice and at most limit of them, only
    root memorials whose active attempt is due, and all of those when fewer than limit are
    returned. *)
Theorem dispatchable_complete d now limit ids :
  ledger_inv d → 0 ≤ now < max_instant → 0 < limit →
  list_dispatchable_memorial_ids (utc_at now) limit d = (Ok ids, d) →
  NoDup ids ∧ Z.of_nat (length ids) ≤ limit ∧
  (∀ m, m ∈ ids → is_root d m = true ∧
     ∃ r, active_rows d m = [r] ∧ due now (at_lease r) = true) ∧
  (Z.of_nat (length ids) < limit → ∀ k r, execution_attempts d !! k = Some r →
     is_root d (a_memorial_id (at_lease r)) = true → due now (at_lease r) = true →
     a_memorial_id (at_lease r) ∈ ids).
Proof.
  intros Hi Hn Hlim Hids. rewrite list_dispatchable_eq in Hids by done. injection Hids as <-.
  set (rows := order_by attempt_order (due_rows d now)).
  assert (Hrow : ∀ r, r ∈ rows → is_root d (a_memorial_id (at_lease r)) = true ∧
    due now (at_lease r) = true ∧ active_rows d (a_memorial_id (at_lease r)) = [r]).
  { intros r Hr. apply elem_of_order_by in Hr. apply elem_of_where_rows in Hr as [Hc [k Hk]]. bools.
    split; [done|]. split; [done|]. by eapply due_active. }
  assert (Hnd : NoDup rows).
  { unfold rows. rewrite order_by_perm. apply NoDup_filter, NoDup_rows, Hi. }
  assert (Hndt : NoDup (take (Z.to_nat limit) rows)) by (eapply sublist_NoDup; [done|apply sublist_take]).
  split; [|split; [|split]].
  - eapply NoDup_fmap_2_strong; [|done]. intros r r' Hr Hr' Hm. cbn in Hm.
    apply in_take, Hrow in Hr as (_ & _ & E). apply in_take, Hrow in Hr' as (_ & _ & E').
    rewrite Hm in E. congruence.
  - rewrite length_fmap, length_take. lia.
  - intros m (r & -> & Hr)%list_elem_of_fmap. apply in_take, Hrow in Hr as (? & ? & ?). eauto.
  - rewrite length_fmap, length_take. intros Hlt k r Hk Hroot Hd.
    rewrite take_ge by lia. apply list_elem_of_fmap. exists r. split; [done|].
    apply elem_of_order_by, elem_of_where_rows. split; [by rewrite Hroot, Hd|by exists k].
Qed.

Lemma dispatchable_complete_witness : NoDup ["m"].
Proof.
  eapply (dispatchable_complete sample_enqueued (at_s 1) 5 ["m"] sample_enqueued_inv);
    [vm_compute; done|lia|apply sample_dispatchable].
Defined.

(** ** Enqueueing *)

(** enqueue_initial is idempotent: repeating a successful call with the same envelope
    returns the same attempt and changes nothing, whatever the clock and the generated
    identifier. *)
Theorem enqueue_idempotent d m at_ maxn requested clock_now fresh a d' clock_now' fresh' :
  ledger_inv d → enqueue_initial m at_ maxn requested clock_now fresh d = (Ok a, d') →
  enqueue_initial m at_ maxn requested clock_now' fresh' d' = (Ok a, d').
Proof.
  intros Hi H. pose proof (enqueue_guards _ _ _ _ _ _ _ _ _ H) as (Hm & Hreq & [t Ht] & Hx & Hroot).
  pose proof (enqueue_changes _ _ _ _ _ _ _ _ _ Hi H) as Hch.
  destruct (changes_inv _ _ Hi Hch) as [Hi' _].
  pose proof (enqueue_Ok_inv _ _ _ _ _ _ _ _ _ Hi H) as (Em & En & Ex & Hav & Hcase).
  assert (Hav' : to_utc at_ d' = (Ok (Models.available_at a), d')).
  { unfold to_utc in *. destruct (utcoffset at_); [|done].
    apply checked_instant_Ok_inv in Hav as (-> & _ & Hr). by apply checked_instant_Ok. }
  assert (Hroot' : is_root d' m = true).
  { destruct Hcase as [[-> _]|(c & _ & _ & _ & _ & _ & _ & ->)]; done. }
  assert (Hrow : ∃ k r, execution_attempts d' !! k = Some r ∧ at_lease r = a).
  { destruct Hcase as [[-> Hr]|(c & _ & _ & _ & _ & _ & _ & ->)]; [done|].
    exists (attempt_id a), (mkAttemptRow a (Some c)). split; [apply retry_lookup|done]. }
  destruct Hrow as (k & r & Hk & Er).
  rewrite (enqueue_eq d' m at_ (Models.available_at a)) by done.
  rewrite (first_row_is d' m k r) by (done || congruence). rewrite Er.
  replace (replay_matches a (Models.available_at a) maxn requested) with true; [done|].
  symmetry. unfold replay_matches. rewrite Ex, !Z.eqb_refl. cbn.
  destruct requested as [i|]; [|done]. apply bool_decide_eq_true.
  destruct Hcase as [[-> _]|(c & Ea & _)]; [|by rewrite Ea].
  rewrite (enqueue_eq d m at_ t) in H by done.
  rewrite (first_row_is d m k r) in H by (done || congruence).
  unfold replay_matches in H. destruct (_ && _ && _) eqn:E; [|done]. injection H as <-. by bools.
Qed.

Lemma enqueue_idempotent_witness :
  (enqueue_initial "m" (when 0) 3 None (at_s 7) "ZZ" sample_enqueued).1 =
    Ok (initial_attempt "A1" "m" (at_s 0) 3 (at_s 0)).
Proof.
  erewrite (enqueue_idempotent sample_db "m" (when 0) 3 None (at_s 0) "A1"
    (initial_attempt "A1" "m" (at_s 0) 3 (at_s 0)) sample_enqueued); [done|apply sample_inv|].
  vm_compute. reflexivity.
Defined.

(** Replay is not idempotent across a suspension: after resume_suspended_current moved the
    first attempt to a later available_at, the same enqueue_initial call that replayed
    before now raises AttemptConflict. *)
Theorem enqueue_replay_after_resume d m at_ t maxn requested clock_now fresh r version back tb :
  ledger_inv d → non_blank m = true → optional_non_blank requested = true →
  to_utc at_ d = (Ok t, d) → 0 < maxn → is_root d m = true →
  first_row d m = Some r → replay_matches (at_lease r) t maxn requested = true →
  suspended_row d (attempt_id (at_lease r)) m version = Some r → 0 < version →
  to_utc back d = (Ok tb, d) → t < tb →
  enqueue_initial m at_ maxn requested clock_now fresh d = (Ok (at_lease r), d) ∧
  ∃ d', resume_suspended_current (attempt_id (at_lease r)) m version back d = (Ok true, d') ∧
    enqueue_initial m at_ maxn requested clock_now fresh d' =
      (Err (Exn AttemptConflict "initial attempt replay does not match durable envelope"), d').
Proof.
  intros Hi Hm Hreq Ht Hx Hroot Hf Hrep Hsus Hv Hb Hlt.
  split; [rewrite (enqueue_eq d m at_ t) by done; by rewrite Hf, Hrep|].
  destruct (first_row_Some d m r Hi Hf) as (Hk & Em & En).
  assert (Hval := li_valid d Hi _ _ Hk). assert (Htim := li_timed d Hi _ _ Hk).
  assert (Hst : a_status (at_lease r) = SUSPENDED).
  { unfold suspended_row in Hsus. rewrite Hk in Hsus. case_match; [|done]. by bools. }
  assert (Eav : Models.available_at (at_lease r) = t) by (unfold replay_matches in Hrep; by bools).
  assert (Hc : a_created_at (at_lease r) ≤ tb) by (unfold timed in Htim; bools; lia).
  eexists. split.
  { rewrite (resume_eq d _ m version back tb); try done.
    - by rewrite Hsus.
    - attempt_facts. done.
    - intros r' Hr'. by simplify_eq. }
  assert (Hi' : ledger_inv (put_lease r (resumed tb (at_lease r)) d)).
  { eapply change_inv; [done|]. apply put_lease_change; [done|]. by apply resumed_transition. }
  assert (Ht' : to_utc at_ (put_lease r (resumed tb (at_lease r)) d) =
    (Ok t, put_lease r (resumed tb (at_lease r)) d)).
  { unfold to_utc in *. destruct (utcoffset at_); [|done].
    apply checked_instant_Ok_inv in Ht as (-> & _ & Hr). by apply checked_instant_Ok. }
  rewrite (enqueue_eq _ m at_ t) by done.
  rewrite (first_row_is _ m (attempt_id (at_lease r))
    (mkAttemptRow (resumed tb (at_lease r)) (at_correlation_id r))); try done.
  - unfold replay_matches. cbn. by rewrite (proj2 (Z.eqb_neq _ _)) by lia.
  - unfold put_lease. cbn. by rewrite lookup_insert_eq.
Qed.

(** The first attempt claimed, then suspended by its owner. *)
Definition suspend_ops : list ledger_op :=
  [OpEnqueue "m" (when 0) 3 None (at_s 0) "A1";
   OpClaim "m" "worker-1" (when 1) 10 "A2";
   OpComplete "A1" "worker-1" 1 (mkOutcome D_SUSPENDED (at_s 5) None None) "A2"].
Definition sample_suspended : db := (run_ops suspend_ops sample_db).2.
Definition suspended_sample_row : attempt_row :=
  mkAttemptRow
    (mkAttempt "A1" "m" 1 SUSPENDED None 1 None (Some (at_s 1)) (at_s 0) 3 None 3 (at_s 0) (at_s 5))
    (Some (legacy_correlation "m")).
Lemma sample_suspended_inv : ledger_inv sample_suspended.
Proof.
  eapply (history_step sample_db); [apply sample_inv|]. apply run_ops_history. vm_compute. reflexivity.
Qed.

Lemma enqueue_replay_after_resume_witness :
  ∃ d', resume_suspended_current "A1" "m" 3 (when 9) sample_suspended = (Ok true, d') ∧
    enqueue_initial "m" (when 0) 3 None (at_s 0) "ZZ" d' =
      (Err (Exn AttemptConflict "initial attempt replay does not match durable envelope"), d').
Proof.
  apply (enqueue_replay_after_resume sample_suspended "m" (when 0) (at_s 0) 3 None (at_s 0) "ZZ"
    suspended_sample_row 3 (when 9) (at_s 9) sample_suspended_inv);
    try (vm_compute; reflexivity).
Defined.

(** On a concrete suspended attempt, a resumption dated before the creation of the attempt
    is accepted and leaves a row that violates AttemptLeaseV1: the next claim raises
    AttemptDecodeError. *)
Example backdated_resume_poisons :
  let '(resumed, d) :=
    resume_suspended_current "A1" "m" 3 (utc_at (at_s 0 - 1)) sample_suspended in
  resumed = Ok true ∧
  (claim "m" "worker-2" (when 20) 10 "A2" d).1 =
    Err (Exn AttemptDecodeError "persisted attempt violates the v1 contract").
Proof. vm_compute. split; reflexivity. Qed.
