(* ===== verification/RunStateRepo.v ===== *)
(** * Durable run states

    Models src/src/tianshu/storage/run_state_repo.py: loading, listing,
    creating, the compare-and-swap of a snapshot, and the recovery of a
    corrupted identity.  All methods run on the caller's transaction.
    [redact_text] is the text redactor of security/redact.py. *)

From S2P Require Import Prelude.
From S2P Require Import Sql.
From S2P Require Import Canonical.
From S2P Require Import SensitivePayload.
From S2P Require Import UnitOfWork.
From S2P Require Import Models.
From S2P Require Import Schema.
From S2P Require Import Correlation.

(** ** [model_dump(mode="python")]

    Timestamps and decimals stay Python objects in this mode; they are no
    string, mapping or sequence, and are dumped as numbers here. *)

Definition dump_opt (o : option string) : json :=
  match o with Some s => JStr s | None => JNull end.

Definition phase_value (p : RunPhase) : string :=
  match p with
  | P_SUBMITTED => "submitted" | P_PLANNING => "planning" | P_EXECUTING => "executing"
  | P_WAITING_DECISION => "waiting_decision" | P_PAUSED => "paused" | P_AUDITING => "auditing"
  | P_COMPLETED => "completed" | P_FAILED => "failed"
  end.

Definition usage_dump (u : PersistedUsageSummaryV1) : json :=
  JObj [("prompt_tokens", JInt (prompt_tokens u)); ("completion_tokens", JInt (completion_tokens u));
        ("total_tokens", JInt (total_tokens u)); ("cache_read_tokens", JInt (cache_read_tokens u));
        ("cost_cny", JFloat (cost_cny u)); ("actual_model", dump_opt (actual_model u));
        ("upstream_provider", dump_opt (upstream_provider u))].

Definition message_dump (m : PersistedChatMessageV1) : json :=
  JObj [("role", JStr (msg_role m));
        ("content", match msg_content m with
                    | ContentText t => JStr t
                    | ContentParts ps => JList (JObj <$> ps)
                    end);
        ("name", dump_opt (msg_name m)); ("tool_call_id", dump_opt (msg_tool_call_id m));
        ("tool_calls", match msg_tool_calls m with Some cs => JList (JObj <$> cs) | None => JNull end);
        ("reasoning_content", dump_opt (msg_reasoning_content m))].

Definition proposal_dump (p : ToolProposalV1) : json :=
  JObj [("tool_call_id", JStr (tp_tool_call_id p)); ("tool_name", JStr (tp_tool_name p));
        ("arguments", JObj (tp_arguments p)); ("arguments_hash", JStr (tp_arguments_hash p));
        ("tool_tier", JStr (tp_tool_tier p)); ("policy_rule_id", dump_opt (tp_policy_rule_id p));
        ("proposed_at", JInt (tp_proposed_at p))].

Definition revision_dump (v : PlanRevisionV1) : json :=
  JObj [("revision_id", JStr (revision_id v)); ("parent_revision_id", dump_opt (parent_revision_id v));
        ("plan_hash", JStr (v_plan_hash v)); ("reason_code", JStr (v_reason_code v));
        ("reason_summary", JStr (v_reason_summary v)); ("artifact_digest", JStr (artifact_digest v));
        ("created_at", JInt (v_created_at v))].

Definition agent_dump (a : AgentContinuationV1) : json :=
  JObj [("kind", JStr "agent"); ("messages", JList (message_dump <$> ac_messages a));
        ("pending_tool", match ac_pending_tool a with Some p => proposal_dump p | None => JNull end);
        ("iteration", JInt (ac_iteration a)); ("usage", usage_dump (ac_usage a));
        ("checkpoint_ref", dump_opt (ac_checkpoint_ref a));
        ("pending_decision_id", dump_opt (ac_pending_decision_id a));
        ("resolved_decision_id", dump_opt (ac_resolved_decision_id a));
        ("side_effect_cursor", JInt (ac_side_effect_cursor a));
        ("plan_ref", dump_opt (ac_plan_ref a)); ("plan_hash", dump_opt (ac_plan_hash a));
        ("plan_revision_id", dump_opt (ac_plan_revision_id a));
        ("plan_revisions", JList (revision_dump <$> ac_plan_revisions a));
        ("plan_snapshot", match ac_plan_snapshot a with Some s => JObj s | None => JNull end);
        ("scheduled_event_id", dump_opt (ac_scheduled_event_id a));
        ("scheduled_event_hash", dump_opt (ac_scheduled_event_hash a))].

Definition iteration_dump (i : IterationSummaryV1) : json :=
  JObj [("iteration", JInt (it_iteration i)); ("level", JStr (it_level i));
        ("output_artifact_ref", dump_opt (it_output_artifact_ref i));
        ("critic_verdict", dump_opt (it_critic_verdict i));
        ("critic_issue_class", dump_opt (it_critic_issue_class i));
        ("feedback", dump_opt (it_feedback i)); ("usage", usage_dump (it_usage i));
        ("completed_at", JInt (it_completed_at i))].

Definition outer_dump (o : OuterLoopContinuationV1) : json :=
  JObj [("kind", JStr "outer_loop"); ("level", JStr (oc_level o)); ("iteration", JInt (oc_iteration o));
        ("best_output", dump_opt (oc_best_output o)); ("feedback", dump_opt (oc_feedback o));
        ("steer", dump_opt (oc_steer o)); ("history", JList (iteration_dump <$> oc_history o));
        ("same_issue_streak", JInt (oc_same_issue_streak o));
        ("last_critic_issue_class", dump_opt (oc_last_critic_issue_class o));
        ("l1_rounds_used", JInt (oc_l1_rounds_used o)); ("l2_rounds_used", JInt (oc_l2_rounds_used o));
        ("consultation_advice", dump_opt (oc_consultation_advice o)); ("usage", usage_dump (oc_usage o));
        ("total_cost_cny", JInt (oc_total_cost_cny o).1);
        ("checkpoint_ref", dump_opt (oc_checkpoint_ref o));
        ("pending_decision_id", dump_opt (oc_pending_decision_id o));
        ("resolved_decision_id", dump_opt (oc_resolved_decision_id o));
        ("side_effect_cursor", JInt (oc_side_effect_cursor o));
        ("plan_continuation",
         match oc_plan_continuation o with Some a => agent_dump a | None => JNull end)].

Definition continuation_dump (c : ContinuationV1) : json :=
  match c with Agent a => agent_dump a | OuterLoop o => outer_dump o end.

Definition state_dump (s : RunStateV1) : json :=
  JObj [("memorial_id", JStr (rs_memorial_id s)); ("edict_id", JStr (rs_edict_id s));
        ("schema_version", JInt 1); ("phase", JStr (phase_value (rs_phase s)));
        ("continuation", continuation_dump (rs_continuation s));
        ("checkpoint_ref", dump_opt (rs_checkpoint_ref s));
        ("side_effect_cursor", JInt (rs_side_effect_cursor s)); ("version", JInt (rs_version s));
        ("created_at", JInt (rs_created_at s)); ("updated_at", JInt (rs_updated_at s))].

(** ** Guards *)

Definition plan_lineage (c : ContinuationV1) : list PlanRevisionV1 :=
  match agent_plan_continuation c with Some a => ac_plan_revisions a | None => [] end.
Definition scheduled_binding (c : ContinuationV1) : option string * option string :=
  match agent_plan_continuation c with
  | Some a => (ac_scheduled_event_id a, ac_scheduled_event_hash a)
  | None => (None, None)
  end.

(** [_require_immutable_plan_lineage]: whether it returns *)
Definition lineage_extends (current candidate : list PlanRevisionV1) : bool :=
  negb (bool_decide (length candidate < length current)%nat) &&
  negb (bool_decide (length current + 1 < length candidate)%nat) &&
  bool_decide (take (length current) candidate = current).

(** [_require_decision_binding]: whether it returns *)
Definition decision_bound (s : RunStateV1) : bool :=
  let pending := pending_decision_id (rs_continuation s) in
  let resolved := resolved_decision_id (rs_continuation s) in
  match resolved with Some r => non_blank r | None => true end &&
  match pending with Some p => non_blank p && is_none resolved | None => true end &&
  bool_decide (is_some pending = bool_decide (rs_phase s = P_WAITING_DECISION)).

Section run_state_repo.
Context (redact_text : string → string).

(** [_require_secret_free] *)
Definition secret_free (s : RunStateV1) : bool :=
  negb (contains_raw_sensitive_payload redact_text false (state_dump s)).

(** [_require_valid_plan_lineage]: whether it returns *)
Definition plan_lineage_valid (s : RunStateV1) : bool :=
  match agent_plan_continuation (rs_continuation s) with
  | Some a => agent_valid redact_text a
  | None => true
  end.

(** [_require_memorial_binding] *)
Definition require_memorial_binding (memorial_id edict_id : string) : M db unit :=
  let! d := get_state in
  guard (match memorials d !! memorial_id with
         | Some m => bool_decide (mm_edict_id m = edict_id)
         | None => false
         end)
    RunStateConflict "memorial does not belong to the RunState edict".

(** [_decode_state] *)
Definition decode_state (r : run_state_row) : M db RunStateV1 :=
  guard (run_state_valid redact_text (rn_state r)) RunStateDecodeError
    "persisted RunState violates the v1 contract" ;;;
  ret (rn_state r).

(** ** Reading *)

Definition load (memorial_id : string) : M db (option RunStateV1) :=
  let! row := sql_get (Row := run_state_row) memorial_id in
  match row with
  | Some r => let! s := decode_state r in ret (Some s)
  | None => ret None
  end.

(** [[_decode_state(row) for row in rows]] *)
Fixpoint decode_states (rows : list run_state_row) : M db (list RunStateV1) :=
  match rows with
  | [] => ret []
  | r :: rows' => let! s := decode_state r in let! l := decode_states rows' in ret (s :: l)
  end.

(** [ORDER BY updated_at DESC, memorial_id] *)
Definition state_order (r r' : run_state_row) : bool :=
  le_of (lex (rs_updated_at (rn_state r') ?= rs_updated_at (rn_state r))
             (text_compare (rs_memorial_id (rn_state r)) (rs_memorial_id (rn_state r')))).

Definition list_for_edict (edict_id : string) : M db (list RunStateV1) :=
  let! rows := sql_select (Row := run_state_row)
                 (λ r, bool_decide (rs_edict_id (rn_state r) = edict_id)) in
  decode_states (order_by state_order rows).

(** The join and filter of the active runs a submitter can see. *)
Definition active_for (d : db) (submitter : option string) (r : run_state_row) : bool :=
  match edicts d !! rs_edict_id (rn_state r) with
  | Some e =>
      match submitter with Some who => bool_decide (ed_submitter e = who) | None => true end &&
      negb (ed_archived e) &&
      negb (bool_decide (rs_phase (rn_state r) ∈ [P_COMPLETED; P_FAILED]))
  | None => false
  end.

Record ControlRunSummaryV1 := mkRunSummary {
  su_edict_id : string; su_edict_title : string; su_memorial_id : string;
  su_phase : RunPhase; su_updated_at : Z;
}.

(** [COALESCE(NULLIF(edict.title, ''), edict.goal)] *)
Definition edict_title (e : edict_row) : string :=
  if bool_decide (ed_title e = "") then ed_goal e else ed_title e.

Definition require_submitter (submitter : option string) : M db unit :=
  guard (optional_non_blank submitter) ValueError "submitter must not be blank".

Definition list_active_for_submitter (submitter : option string) (limit : Z) :
    M db (list ControlRunSummaryV1) :=
  require_submitter submitter ;;;
  guard (0 <? limit) ValueError "limit must be a positive integer" ;;;
  let! d := get_state in
  let! rows := sql_select (Row := run_state_row) (active_for d submitter) in
  let! states := decode_states (take (Z.to_nat limit) (order_by state_order rows)) in
  ret ((λ s, mkRunSummary (rs_edict_id s)
                (match edicts d !! rs_edict_id s with Some e => edict_title e | None => "" end)
                (rs_memorial_id s) (rs_phase s) (rs_updated_at s)) <$> states).

Definition count_active_for_submitter (submitter : option string) : M db Z :=
  require_submitter submitter ;;;
  let! d := get_state in
  let! rows := sql_select (Row := run_state_row) (active_for d submitter) in
  ret (Z.of_nat (length rows)).

(** ** Writing *)

Definition create (s : RunStateV1) : M db RunStateV1 :=
  guard (rs_version s =? 1) ValueError "new RunState must start at version 1" ;;;
  guard (decision_bound s) RunStateConflict "invalid RunState decision binding" ;;;
  guard (plan_lineage_valid s) RunStateConflict "invalid RunState plan revision lineage" ;;;
  require_memorial_binding (rs_memorial_id s) (rs_edict_id s) ;;;
  guard (secret_free s) RunStateSecretError "raw secret is not allowed in durable RunState" ;;;
  let! correlation_id := correlation_for_memorial (rs_memorial_id s) None in
  let! _ := of_result (canonical_json_bytes (continuation_dump (rs_continuation s))) in
  try_except (sql_insert (rs_memorial_id s) (mkRunStateRow s (Some correlation_id)))
    IntegrityError (λ _, raise RunStateConflict "RunState identity conflict") ;;;
  ret s.

(** The columns both updates write; the recovery also writes [edict_id]. *)
Definition swapped (s : RunStateV1) (edict_id : string) (r : run_state_row) : run_state_row :=
  let c := rn_state r in
  mkRunStateRow
    (mkRunState (rs_memorial_id c) edict_id (rs_phase s) (rs_continuation s) (rs_checkpoint_ref s)
       (rs_side_effect_cursor s) (rs_version s + 1) (rs_created_at c) (rs_updated_at s))
    (rn_correlation_id r).

(** The guards the two updates share, after the check of [edict_id]. *)
Definition require_successor (current s : RunStateV1) : M db unit :=
  require_memorial_binding (rs_memorial_id s) (rs_edict_id s) ;;;
  guard (rs_created_at current =? rs_created_at s) RunStateConflict
    "RunState created_at is immutable" ;;;
  guard (lineage_extends (plan_lineage (rs_continuation current)) (plan_lineage (rs_continuation s)))
    RunStateConflict "RunState plan revision lineage is immutable" ;;;
  guard (rs_updated_at current <=? rs_updated_at s) RunStateConflict
    "RunState updated_at must not move backwards" ;;;
  guard (secret_free s) RunStateSecretError "raw secret is not allowed in durable RunState".

Definition write_state (s : RunStateV1) (expected_version : Z)
    (edict_of : run_state_row → string) (conflict : string) : M db RunStateV1 :=
  let! _ := of_result (canonical_json_bytes (continuation_dump (rs_continuation s))) in
  let! rowcount := sql_update (Row := run_state_row) (rs_memorial_id s)
    (λ r, rs_version (rn_state r) =? expected_version)
    (λ r, swapped s (edict_of r) r) in
  guard (rowcount =? 1) RunStateConflict conflict ;;;
  let! durable := load (rs_memorial_id s) in
  match durable with
  | Some x => ret x
  | None => raise RunStateConflict "RunState disappeared after compare-and-swap"
  end.

Definition same_scheduled_binding (current s : RunStateV1) : bool :=
  bool_decide (scheduled_binding (rs_continuation s) = scheduled_binding (rs_continuation current)).

Definition compare_and_swap (s : RunStateV1) (expected_version : Z) : M db RunStateV1 :=
  guard (rs_version s =? expected_version) ValueError
    "RunState input version must equal expected_version" ;;;
  guard (decision_bound s) RunStateConflict "invalid RunState decision binding" ;;;
  let! found := load (rs_memorial_id s) in
  match found with
  | None => raise RunStateConflict "RunState compare-and-swap conflict"
  | Some current =>
      guard (same_scheduled_binding current s) RunStateConflict
        "RunState scheduled event binding is immutable" ;;;
      guard (plan_lineage_valid s) RunStateConflict "invalid RunState plan revision lineage" ;;;
      guard (bool_decide (rs_edict_id current = rs_edict_id s)) RunStateConflict
        "RunState edict_id is immutable" ;;;
      require_successor current s ;;;
      write_state s expected_version (λ r, rs_edict_id (rn_state r))
        "RunState compare-and-swap conflict"
  end.

Definition recover_terminal_identity (s : RunStateV1) (expected_version : Z) : M db RunStateV1 :=
  guard (bool_decide (rs_phase s = P_FAILED)) ValueError
    "RunState identity recovery requires a failed state" ;;;
  guard (rs_version s =? expected_version) ValueError
    "RunState input version must equal expected_version" ;;;
  guard (decision_bound s) RunStateConflict "invalid RunState decision binding" ;;;
  let! found := load (rs_memorial_id s) in
  match found with
  | None => raise RunStateConflict "RunState recovery compare-and-swap conflict"
  | Some current =>
      guard (rs_version current =? expected_version) RunStateConflict
        "RunState recovery compare-and-swap conflict" ;;;
      guard (same_scheduled_binding current s) RunStateConflict
        "RunState scheduled event binding is immutable" ;;;
      guard (plan_lineage_valid s) RunStateConflict "invalid RunState plan revision lineage" ;;;
      guard (negb (bool_decide (rs_edict_id current = rs_edict_id s))) RunStateConflict
        "RunState recovery requires an identity mismatch" ;;;
      require_successor current s ;;;
      write_state s expected_version (λ _, rs_edict_id s)
        "RunState recovery compare-and-swap conflict"
  end.

(** ** Invariant and progress of the table *)

Record run_inv (d : db) : Prop := {
  ri_keyed : ∀ k r, run_states d !! k = Some r → rs_memorial_id (rn_state r) = k;
  ri_valid : ∀ k r, run_states d !! k = Some r → run_state_valid redact_text (rn_state r) = true;
  ri_bound : ∀ k r, run_states d !! k = Some r → decision_bound (rn_state r) = true;
  ri_secret_free : ∀ k r, run_states d !! k = Some r → secret_free (rn_state r) = true;
}.

(** The state that replaces [current]: everything but the version is [s]'s. *)
Definition next_version (s : RunStateV1) : RunStateV1 :=
  mkRunState (rs_memorial_id s) (rs_edict_id s) (rs_phase s) (rs_continuation s)
    (rs_checkpoint_ref s) (rs_side_effect_cursor s) (rs_version s + 1) (rs_created_at s)
    (rs_updated_at s).

(** What a successful write keeps of the row it replaces. *)
Record succeeds (c c' : RunStateV1) : Prop := {
  su_version : rs_version c < rs_version c';
  su_lineage : plan_lineage (rs_continuation c) `prefix_of` plan_lineage (rs_continuation c');
  su_scheduled : scheduled_binding (rs_continuation c') = scheduled_binding (rs_continuation c);
  su_created : rs_created_at c' = rs_created_at c;
  su_updated : rs_updated_at c ≤ rs_updated_at c';
}.

(** Rows are never lost; a row with the same version is the same row. *)
Definition run_le (d d' : db) : Prop :=
  ∀ k r, run_states d !! k = Some r →
  ∃ r', run_states d' !! k = Some r' ∧ (r' = r ∨ succeeds (rn_state r) (rn_state r')).

#[export] Instance run_le_preorder : PreOrder run_le.
Proof.
  split; [intros d k r Hk; eauto|]. intros d1 d2 d3 H12 H23 k r Hk.
  destruct (H12 k r Hk) as (r2 & Hk2 & Hs2). destruct (H23 k r2 Hk2) as (r3 & Hk3 & Hs3).
  exists r3. split; [done|]. destruct Hs2 as [->|[]], Hs3 as [->|[]]; auto; right; split; auto;
    first [lia | by etransitivity | congruence].
Qed.

Lemma load_eq d m :
  run_inv d → load m d = (Ok (rn_state <$> run_states d !! m), d).
Proof.
  intros Hi. unfold load. rewrite bind_sql_get. cbn.
  destruct (run_states d !! m) as [r|] eqn:E; [|done].
  unfold decode_state. by rewrite (ri_valid d Hi _ _ E).
Qed.

Lemma load_Ok_inv d m o d' :
  load m d = (Ok o, d') → d' = d ∧ o = rn_state <$> run_states d !! m ∧
  ∀ r, run_states d !! m = Some r → run_state_valid redact_text (rn_state r) = true.
Proof.
  unfold load. rewrite bind_sql_get. cbn. destruct (run_states d !! m) as [r|] eqn:E; intros H.
  - apply bind_Ok_inv in H as (s & d1 & Hd & H). unfold decode_state in Hd. run_M Hd. run_M H.
    split; [done|]. split; [done|]. intros r' [= <-]. done.
  - run_M H. done.
Qed.

Lemma require_memorial_binding_Ok_inv m e d u d' :
  require_memorial_binding m e d = (Ok u, d') →
  d' = d ∧ ∃ row, memorials d !! m = Some row ∧ mm_edict_id row = e.
Proof.
  unfold require_memorial_binding. intros H. step_M H. apply guard_Ok_inv in H as [H ->].
  split; [done|]. destruct (memorials d !! m) as [row|]; [|done]. bools. eauto.
Qed.

Lemma lineage_extends_prefix l l' :
  lineage_extends l l' = true → l `prefix_of` l' ∧ (length l' ≤ length l + 1)%nat.
Proof.
  unfold lineage_extends. intros H. bools. split; [|lia].
  exists (drop (length l) l'). rewrite <-H0 at 1. by rewrite take_drop.
Qed.

Lemma require_successor_Ok_inv c s d u d' :
  require_successor c s d = (Ok u, d') →
  d' = d ∧ rs_created_at c = rs_created_at s ∧ rs_updated_at c ≤ rs_updated_at s ∧
  lineage_extends (plan_lineage (rs_continuation c)) (plan_lineage (rs_continuation s)) = true ∧
  secret_free s = true ∧
  ∃ row, memorials d !! rs_memorial_id s = Some row ∧ mm_edict_id row = rs_edict_id s.
Proof.
  unfold require_successor. intros H.
  apply bind_Ok_inv in H as (? & ? & (-> & Hb)%require_memorial_binding_Ok_inv & H).
  run_M H. bools. auto 10.
Qed.

Lemma secret_free_next s : secret_free (next_version s) = secret_free s.
Proof. reflexivity. Qed.

Lemma decision_bound_next s : decision_bound (next_version s) = decision_bound s.
Proof. reflexivity. Qed.

(** A successful write replaces the expected version by the next one. *)
Lemma write_state_Ok_inv s v edict_of msg d x d' :
  write_state s v edict_of msg d = (Ok x, d') →
  ∃ r, run_states d !! rs_memorial_id s = Some r ∧ rs_version (rn_state r) = v ∧
       x = rn_state (swapped s (edict_of r) r) ∧ run_state_valid redact_text x = true ∧
       d' = set_run_states (<[rs_memorial_id s := swapped s (edict_of r) r]> (run_states d)) d.
Proof.
  unfold write_state. intros H. apply bind_Ok_inv in H as (bytes & d1 & Hb & H).
  unfold of_result in Hb. injection Hb as _ <-.
  apply bind_Ok_inv in H as (n & d1 & Hu & H). step_M H. bools. subst n.
  apply sql_update_Ok_inv in Hu as [(_ & r & Hk & Hc & _ & _ & ->)|[? _]]; [|done]. bools.
  apply bind_Ok_inv in H as (o & d1 & (-> & -> & Hv)%load_Ok_inv & H). cbn in Hv, H.
  rewrite lookup_insert_eq in Hv, H. cbn in H. run_M H. exists r. repeat split; try done.
  exact (Hv _ eq_refl).
Qed.

(** One row of the table replaced by its successor, or a new row. *)
Inductive run_change (d : db) : db → Prop :=
  | run_inserted s c :
      run_states d !! rs_memorial_id s = None → rs_version s = 1 →
      run_state_valid redact_text s = true → decision_bound s = true → secret_free s = true →
      run_change d (set_run_states (<[rs_memorial_id s := mkRunStateRow s c]> (run_states d)) d)
  | run_swapped r s :
      run_states d !! rs_memorial_id s = Some r → rs_memorial_id s = rs_memorial_id (rn_state r) →
      run_state_valid redact_text s = true → decision_bound s = true → secret_free s = true →
      rs_version s = rs_version (rn_state r) + 1 → succeeds (rn_state r) s →
      run_change d (set_run_states
        (<[rs_memorial_id s := mkRunStateRow s (rn_correlation_id r)]> (run_states d)) d).

Lemma run_change_ok d d' : run_inv d → run_change d d' → run_inv d' ∧ run_le d d'.
Proof.
  intros [Hk Hv Hb Hs] H. split.
  - destruct H; split; cbn; intros k2 r2 [[<- <-]|[? Hx]]%lookup_insert_Some; cbn; eauto.
  - destruct H as [s c Hn|r s Hr]; intros k2 r2 Hk2; cbn.
    + exists r2. rewrite lookup_insert_ne by congruence. auto.
    + destruct (decide (k2 = rs_memorial_id s)) as [->|Hne].
      * simplify_eq. rewrite lookup_insert_eq. eexists. split; [done|]. by right.
      * rewrite lookup_insert_ne by done. eauto.
Qed.

(** What [swapped] stores when the guards passed: the caller's snapshot at the
    next version. *)
Lemma swapped_next s e r :
  rs_memorial_id (rn_state r) = rs_memorial_id s → e = rs_edict_id s →
  rs_created_at (rn_state r) = rs_created_at s →
  swapped s e r = mkRunStateRow (next_version s) (rn_correlation_id r).
Proof. unfold swapped, next_version. intros -> -> ->. done. Qed.

Lemma successor_succeeds c s v d u d' :
  require_successor c s d = (Ok u, d') → same_scheduled_binding c s = true →
  rs_version s = v → rs_version c = v → succeeds c (next_version s).
Proof.
  intros (-> & Hcr & Hup & Hl & _)%require_successor_Ok_inv Hsb Hs Hc.
  unfold same_scheduled_binding in Hsb. bools. apply lineage_extends_prefix in Hl as [Hl _].
  split; cbn; [lia|done|done|done|done].
Qed.

Lemma compare_and_swap_Ok_inv s v d x d' :
  run_inv d → compare_and_swap s v d = (Ok x, d') →
  rs_version s = v ∧ x = next_version s ∧
  ∃ r, run_states d !! rs_memorial_id s = Some r ∧ rs_version (rn_state r) = v ∧
       rs_edict_id (rn_state r) = rs_edict_id s ∧ succeeds (rn_state r) x ∧
       lineage_extends (plan_lineage (rs_continuation (rn_state r)))
         (plan_lineage (rs_continuation x)) = true ∧
       d' = set_run_states (<[rs_memorial_id s := mkRunStateRow x (rn_correlation_id r)]>
              (run_states d)) d ∧ run_change d d'.
Proof.
  intros Hi H. unfold compare_and_swap in H. step_M H. step_M H. bools. rename E0 into Hdb.
  rewrite (bind_Ok _ _ _ _ _ (load_eq d (rs_memorial_id s) Hi)) in H.
  destruct (run_states d !! rs_memorial_id s) as [r|] eqn:Hr; [|done]. cbn [fmap option_fmap option_map] in H.
  step_M H. step_M H. step_M H. bools. apply bind_Ok_inv in H as (u' & d1 & Hsu & H).
  pose proof (require_successor_Ok_inv _ _ _ _ _ Hsu) as (-> & Hcr & _ & Hl & Hsf & _).
  apply write_state_Ok_inv in H as (r' & Hr' & Hv & -> & Hval & ->). simplify_eq.
  assert (Hm := ri_keyed d Hi _ _ Hr).
  rewrite (swapped_next s (rs_edict_id (rn_state r)) r) in * by done. cbn [rn_state] in *.
  assert (Hsc : succeeds (rn_state r) (next_version s)) by (by eapply successor_succeeds).
  split; [done|]. split; [done|]. exists r. do 6 (split; [done|]).
  eapply (run_swapped d r (next_version s)); try done. cbn. lia.
Qed.

Lemma recover_Ok_inv s v d x d' :
  run_inv d → recover_terminal_identity s v d = (Ok x, d') →
  rs_version s = v ∧ rs_phase s = P_FAILED ∧ x = next_version s ∧
  ∃ r row, run_states d !! rs_memorial_id s = Some r ∧ rs_version (rn_state r) = v ∧
       rs_edict_id (rn_state r) ≠ rs_edict_id s ∧
       memorials d !! rs_memorial_id s = Some row ∧ mm_edict_id row = rs_edict_id s ∧
       run_change d d'.
Proof.
  intros Hi H. unfold recover_terminal_identity in H. step_M H. step_M H. step_M H. bools.
  rename E1 into Hdb.
  rewrite (bind_Ok _ _ _ _ _ (load_eq d (rs_memorial_id s) Hi)) in H.
  destruct (run_states d !! rs_memorial_id s) as [r|] eqn:Hr; [|done]. cbn [fmap option_fmap option_map] in H.
  step_M H. step_M H. step_M H. step_M H. bools. apply bind_Ok_inv in H as (u' & d1 & Hsu & H).
  pose proof (require_successor_Ok_inv _ _ _ _ _ Hsu) as (-> & Hcr & _ & Hl & Hsf & row & Hrow & Hre).
  apply write_state_Ok_inv in H as (r' & Hr' & Hv & -> & Hval & ->). simplify_eq.
  assert (Hm := ri_keyed d Hi _ _ Hr).
  rewrite (swapped_next s (rs_edict_id s) r) in * by done. cbn [rn_state] in *.
  assert (Hsc : succeeds (rn_state r) (next_version s)) by (by eapply successor_succeeds).
  do 3 (split; [done|]). exists r, row. do 5 (split; [done|]).
  eapply (run_swapped d r (next_version s)); try done. cbn. lia.
Qed.

Lemma create_Ok_inv s d x d' :
  run_state_valid redact_text s = true → create s d = (Ok x, d') →
  x = s ∧ run_states d !! rs_memorial_id s = None ∧ run_change d d' ∧
  ∃ c, is_identifier c = true ∧
       d' = set_run_states (<[rs_memorial_id s := mkRunStateRow s (Some c)]> (run_states d)) d.
Proof.
  intros Hval H. unfold create in H. step_M H. step_M H. step_M H. bools. rename E0 into Hdb.
  apply bind_Ok_inv in H as (? & ? & (-> & _)%require_memorial_binding_Ok_inv & H). step_M H.
  rename E0 into Hsf. apply bind_Ok_inv in H as (c & ? & (-> & Hc)%correlation_Ok_inv & H).
  apply bind_Ok_inv in H as (bytes & d1 & Hb & H). unfold of_result in Hb. injection Hb as _ <-.
  apply bind_Ok_inv in H as (? & ? & Hins & H). apply try_raise_Ok_inv in Hins.
  apply sql_insert_Ok_inv in Hins as (Hn & _ & _ & ->). run_M H.
  split; [done|]. split; [done|]. split; [by apply run_inserted|by exists c].
Qed.

(** ** Histories *)

Inductive run_op :=
  | RunCreate (s : RunStateV1)
  | RunSwap (s : RunStateV1) (expected_version : Z)
  | RunRecover (s : RunStateV1) (expected_version : Z).

(** A call inside its caller's transaction. *)
Definition exec_run (op : run_op) : M db RunStateV1 :=
  atomically match op with
             | RunCreate s => create s
             | RunSwap s v => compare_and_swap s v
             | RunRecover s v => recover_terminal_identity s v
             end.

(** A [RunStateV1] passed to [create] is a validated model. *)
Definition run_op_ok (op : run_op) : bool :=
  match op with RunCreate s => run_state_valid redact_text s | _ => true end.

Definition run_step (d d' : db) : Prop :=
  ∃ op, run_op_ok op = true ∧ (exec_run op d).2 = d'.

Lemma run_step_ok d d' : run_inv d → run_step d d' → run_inv d' ∧ run_le d d'.
Proof.
  intros Hi (op & Hok & <-). destruct (exec_run op d) as [[x|e] d'] eqn:E; cbn.
  - apply run_change_ok; [done|]. apply atomically_Ok_inv in E. destruct op.
    + by apply create_Ok_inv in E as (_ & _ & Hc & _).
    + apply compare_and_swap_Ok_inv in E as (_ & _ & r & _ & _ & _ & _ & _ & _ & Hc); done.
    + apply recover_Ok_inv in E as (_ & _ & _ & r & row & _ & _ & _ & _ & _ & Hc); done.
  - by apply atomically_Err in E as [-> _].
Qed.

Lemma run_steps_ok d d' : run_inv d → rtc run_step d d' → run_inv d' ∧ run_le d d'.
Proof.
  intros Hi. induction 1 as [d|d1 d2 d3 H12 _ IH]; [done|].
  destruct (run_step_ok _ _ Hi H12) as [Hi2 Hl2]. destruct (IH Hi2) as [Hi3 Hl3].
  split; [done|]. by etransitivity.
Qed.

(** Every run state a later load returns is a valid RunStateV1, is bound to a pending
    decision exactly when it waits for one, and contains no raw credential. *)
Theorem run_states_stay_safe d d' m s :
  run_inv d → rtc run_step d d' → load m d' = (Ok (Some s), d') →
  run_inv d' ∧ run_state_valid redact_text s = true ∧ decision_bound s = true ∧
  contains_raw_sensitive_payload redact_text false (state_dump s) = false.
Proof.
  intros Hi H Hl. destruct (run_steps_ok _ _ Hi H) as [Hi' _]. split; [done|].
  rewrite load_eq in Hl by done. destruct (run_states d' !! m) as [r|] eqn:E; [|done].
  injection Hl as <-. split; [by eapply ri_valid|]. split; [by eapply ri_bound|].
  apply negb_true_iff. by eapply (ri_secret_free d' Hi').
Qed.

(** C4. No lost update: if a snapshot was loaded and, after any writes by others,
    compare_and_swap with its version succeeds, then the stored state was still exactly that
    snapshot and is now the new one at the next version. *)
Theorem compare_and_swap_no_lost_update d d1 d2 s s0 x :
  run_inv d → load (rs_memorial_id s) d = (Ok (Some s0), d) → rtc run_step d d1 →
  compare_and_swap s (rs_version s0) d1 = (Ok x, d2) →
  load (rs_memorial_id s) d1 = (Ok (Some s0), d1) ∧
  x = next_version s ∧ load (rs_memorial_id s) d2 = (Ok (Some x), d2) ∧ succeeds s0 x.
Proof.
  intros Hi Hl H Hc. destruct (run_steps_ok _ _ Hi H) as [Hi1 Hle].
  rewrite load_eq in Hl by done.
  destruct (run_states d !! rs_memorial_id s) as [r|] eqn:Er; [|done]. injection Hl as <-.
  apply compare_and_swap_Ok_inv in Hc as (Hv & -> & r1 & Hr1 & Hv1 & _ & Hsu & _ & Hd2 & Hch); [|done].
  destruct (Hle _ _ Er) as (r' & Hr' & Hcase). simplify_eq.
  assert (r1 = r) as ->.
  { destruct Hcase as [->|[Hlt _]]; [done|]. lia. }
  destruct (run_change_ok _ _ Hi1 Hch) as [Hi2 _].
  split; [by rewrite load_eq, Hr1|]. split; [done|]. split; [|done].
  rewrite load_eq by done. cbn. by rewrite lookup_insert_eq.
Qed.

(** Of all compare_and_swap calls with one expected version of a memorial at most one ever
    succeeds, however many writes happen in between. *)
Theorem compare_and_swap_exclusive d d1 d2 s1 s2 v x :
  run_inv d → compare_and_swap s1 v d = (Ok x, d1) → rtc run_step d1 d2 →
  rs_memorial_id s2 = rs_memorial_id s1 →
  ∀ y d3, compare_and_swap s2 v d2 ≠ (Ok y, d3).
Proof.
  intros Hi H1 H Hm y d3 H2.
  apply compare_and_swap_Ok_inv in H1 as (Hv & -> & r & Hr & Hrv & _ & Hsu & _ & -> & Hch); [|done].
  destruct (run_change_ok _ _ Hi Hch) as [Hi1 _]. destruct (run_steps_ok _ _ Hi1 H) as [Hi2 Hle].
  apply compare_and_swap_Ok_inv in H2 as (_ & _ & r2 & Hr2 & Hv2 & _); [|done]. rewrite Hm in Hr2.
  destruct (Hle (rs_memorial_id s1) (mkRunStateRow (next_version s1) (rn_correlation_id r)))
    as (r' & Hr' & Hcase); [cbn; by rewrite lookup_insert_eq|].
  simplify_eq. destruct Hcase as [->|[Hlt _]]; cbn in *; lia.
Qed.

(** Along any sequence of create, compare_and_swap and recover_terminal_identity calls a
    stored run state is never lost, its plan revision lineage only grows at the end, its
    scheduled-event binding and creation time never change, its update time never moves
    back, and an unchanged version means an unchanged state. *)
Theorem plan_lineage_append_only d d' m s :
  run_inv d → rtc run_step d d' → load m d = (Ok (Some s), d) →
  ∃ s', load m d' = (Ok (Some s'), d') ∧ rs_version s ≤ rs_version s' ∧
    plan_lineage (rs_continuation s) `prefix_of` plan_lineage (rs_continuation s') ∧
    scheduled_binding (rs_continuation s') = scheduled_binding (rs_continuation s) ∧
    rs_created_at s' = rs_created_at s ∧ rs_updated_at s ≤ rs_updated_at s' ∧
    (rs_version s' = rs_version s → s' = s).
Proof.
  intros Hi H Hl. destruct (run_steps_ok _ _ Hi H) as [Hi' Hle]. rewrite load_eq in Hl by done.
  destruct (run_states d !! m) as [r|] eqn:Er; [|done]. injection Hl as <-.
  destruct (Hle _ _ Er) as (r' & Hr' & Hcase). exists (rn_state r').
  split; [by rewrite load_eq, Hr'|]. destruct Hcase as [->|[Hv Hpl Hsb Hcr Hup]]; [auto 10 with lia|].
  do 5 (split; [first [done|lia]|]). lia.
Qed.

(** compare_and_swap succeeds whenever its guards hold: a valid, secret-free successor of
    the stored state with the stored version is written and returned at the next version. *)
Theorem compare_and_swap_succeeds d s r row bytes :
  run_inv d → run_states d !! rs_memorial_id s = Some r → run_state_valid redact_text s = true →
  rs_version s = rs_version (rn_state r) → decision_bound s = true →
  same_scheduled_binding (rn_state r) s = true → rs_edict_id (rn_state r) = rs_edict_id s →
  memorials d !! rs_memorial_id s = Some row → mm_edict_id row = rs_edict_id s →
  has_edict d (rs_edict_id s) = true → rs_created_at (rn_state r) = rs_created_at s →
  lineage_extends (plan_lineage (rs_continuation (rn_state r))) (plan_lineage (rs_continuation s)) = true →
  rs_updated_at (rn_state r) ≤ rs_updated_at s → secret_free s = true →
  canonical_json_bytes (continuation_dump (rs_continuation s)) = Ok bytes →
  compare_and_swap s (rs_version s) d =
    (Ok (next_version s),
     set_run_states (<[rs_memorial_id s := mkRunStateRow (next_version s) (rn_correlation_id r)]>
       (run_states d)) d).
Proof.
  intros Hi Hr Hval Hv Hdb Hsb He Hrow Hre Hed Hcr Hl Hup Hsf Hbytes.
  assert (Hm := ri_keyed d Hi _ _ Hr).
  assert (Hplan : plan_lineage_valid s = true).
  { unfold run_state_valid, continuation_valid in Hval. bools. unfold plan_lineage_valid.
    destruct (rs_continuation s) as [a|o]; cbn; [done|]. unfold outer_valid in *. bools.
    by destruct (oc_plan_continuation o). }
  assert (Hnv : run_state_valid redact_text (next_version s) = true).
  { unfold run_state_valid in *. cbn. bools. bools_goal; try done; lia. }
  assert (Hi2 : run_inv (set_run_states
    (<[rs_memorial_id s := mkRunStateRow (next_version s) (rn_correlation_id r)]> (run_states d)) d)).
  { eapply run_change_ok; [exact Hi|]. eapply (run_swapped d r (next_version s)); try done; [cbn; lia|].
    unfold same_scheduled_binding in Hsb. bools. apply lineage_extends_prefix in Hl as [Hl _].
    split; cbn; try lia; done. }
  unfold compare_and_swap. rewrite Z.eqb_refl, Hdb. unfold bind at 1 2. cbn [guard ret].
  rewrite (bind_Ok _ _ _ _ _ (load_eq d (rs_memorial_id s) Hi)), Hr. cbn [fmap option_fmap option_map].
  rewrite Hsb, Hplan, He, bool_decide_eq_true_2 by done. unfold bind at 1 2 3. cbn [guard ret].
  unfold require_successor, require_memorial_binding, get_state. unfold bind at 1 2 3.
  rewrite Hrow, Hre, bool_decide_eq_true_2 by done. cbn [guard ret].
  rewrite Hcr, Z.eqb_refl, Hl, (proj2 (Z.leb_le _ _) Hup), Hsf. unfold bind at 1 2 3. cbn [guard ret].
  unfold write_state, of_result. rewrite Hbytes. unfold bind at 1.
  erewrite bind_Ok; [|apply sql_update_hit; [exact Hr|by rewrite Hv, Z.eqb_refl| | |done]].
  - cbv beta. rewrite (swapped_next s _ r) by done. change (1 =? 1) with true.
    unfold bind at 1. cbn [guard ret]. rewrite (bind_Ok _ _ _ _ _ (load_eq _ (rs_memorial_id s) Hi2)).
    cbn. by rewrite lookup_insert_eq.
  - cbv beta. rewrite (swapped_next s _ r) by done. cbn. unfold run_state_row_check. cbn.
    unfold run_state_valid in Hval. bools. unfold has_memorial. rewrite Hrow, Hed. cbn.
    bools_goal; try done; try lia. destruct (rs_continuation s) as [a|o]; [done|].
    unfold continuation_valid, outer_valid in *. by bools.
  - apply unique_ok_spec. done.
Qed.
End run_state_repo.

(** ** A concrete table *)

Module RunSample.
Definition usage : PersistedUsageSummaryV1 := mkUsage 10 5 15 0 (PyFloat (Some (0, 0)) "0.0") None None.
Definition agent (iteration : Z) : AgentContinuationV1 :=
  mkAgent [mkMessage "user" (ContentText "summarise the report") None None None None] None iteration
    usage None None None 0 None None None [] None None None.
Definition state (phase : RunPhase) (iteration version updated : Z) : RunStateV1 :=
  mkRunState "m" "e" phase (Agent (agent iteration)) None 0 version 100 updated.
Definition d0 : db :=
  mkDb {["e" := mkEdictRow "" "goal" "alice" false None None]} {["m" := mkMemorialRow "e" None new_columns]}
    ∅ ∅ ∅ ∅ ∅ ∅ ∅ ∅ ∅ ∅ (mkOrchestration ∅ ∅ ∅).
Definition plain (t : string) : string := t.
Definition d1 : db := (exec_run plain (RunCreate (state P_PLANNING 0 1 100)) d0).2.
Definition d2 : db := (exec_run plain (RunSwap (state P_EXECUTING 1 1 200) 1) d1).2.

Lemma run_inv0 : run_inv plain d0.
Proof. split; cbn; intros k r; by rewrite lookup_empty. Qed.
Lemma steps1 : rtc (run_step plain) d0 d1.
Proof.
  apply rtc_once. exists (RunCreate (state P_PLANNING 0 1 100)).
  split; [vm_compute; reflexivity|reflexivity].
Qed.
Lemma run_inv1 : run_inv plain d1.
Proof. exact (proj1 (run_steps_ok plain _ _ run_inv0 steps1)). Qed.
Lemma steps2 : rtc (run_step plain) d1 d2.
Proof.
  apply rtc_once. exists (RunSwap (state P_EXECUTING 1 1 200) 1). split; reflexivity.
Qed.
Lemma load1 : load plain "m" d1 = (Ok (Some (state P_PLANNING 0 1 100)), d1).
Proof. vm_compute. reflexivity. Qed.
Lemma load2 : load plain "m" d2 = (Ok (Some (next_version (state P_EXECUTING 1 1 200))), d2).
Proof. vm_compute. reflexivity. Qed.
Lemma swap1 : compare_and_swap plain (state P_EXECUTING 1 1 200) 1 d1 =
  (Ok (next_version (state P_EXECUTING 1 1 200)), d2).
Proof. vm_compute. reflexivity. Qed.
End RunSample.

Lemma run_states_stay_safe_witness :
  run_state_valid RunSample.plain (next_version (RunSample.state P_EXECUTING 1 1 200)) = true.
Proof.
  apply (run_states_stay_safe RunSample.plain _ _ _ _ RunSample.run_inv1 RunSample.steps2 RunSample.load2).
Defined.

Lemma compare_and_swap_no_lost_update_witness :
  succeeds (RunSample.state P_PLANNING 0 1 100) (next_version (RunSample.state P_EXECUTING 1 1 200)).
Proof.
  apply (compare_and_swap_no_lost_update RunSample.plain RunSample.d1 RunSample.d1 RunSample.d2
    (RunSample.state P_EXECUTING 1 1 200) _ _ RunSample.run_inv1 RunSample.load1 (rtc_refl _ _) RunSample.swap1).
Defined.

Lemma compare_and_swap_exclusive_witness :
  match compare_and_swap RunSample.plain (RunSample.state P_AUDITING 2 1 300) 1 RunSample.d2 with
  | (Ok _, _) => false
  | (Err _, _) => true
  end = true.
Proof.
  destruct (compare_and_swap RunSample.plain (RunSample.state P_AUDITING 2 1 300) 1 RunSample.d2)
    as [[y|e] d3] eqn:E; [|reflexivity].
  exfalso. exact (compare_and_swap_exclusive RunSample.plain RunSample.d1 RunSample.d2 RunSample.d2
    (RunSample.state P_EXECUTING 1 1 200) (RunSample.state P_AUDITING 2 1 300) 1 _ RunSample.run_inv1
    RunSample.swap1 (rtc_refl _ _) eq_refl y d3 E).
Defined.

Lemma plan_lineage_append_only_witness :
  ∃ s', load RunSample.plain "m" RunSample.d2 = (Ok (Some s'), RunSample.d2) ∧ rs_created_at s' = 100.
Proof.
  destruct (plan_lineage_append_only RunSample.plain _ _ _ _ RunSample.run_inv1 RunSample.steps2 RunSample.load1)
    as (s' & Hl & _ & _ & _ & Hc & _). eauto.
Defined.

Lemma compare_and_swap_succeeds_witness :
  let s := RunSample.state P_EXECUTING 1 1 200 in
  (compare_and_swap RunSample.plain s (rs_version s) RunSample.d1).1 =
    Ok (next_version (RunSample.state P_EXECUTING 1 1 200)).
Proof.
  cbv zeta. erewrite (compare_and_swap_succeeds RunSample.plain RunSample.d1 (RunSample.state P_EXECUTING 1 1 200)
    (mkRunStateRow (RunSample.state P_PLANNING 0 1 100) (Some (legacy_correlation "m")))
    (mkMemorialRow "e" None new_columns) _ RunSample.run_inv1);
    [reflexivity|vm_compute; reflexivity..|vm_compute; done|vm_compute; reflexivity|vm_compute; reflexivity].
Defined.
