(* ===== verification/DecisionRepo.v ===== *)
(** * Durable governance decisions

    Models src/src/tianshu/storage/decision_repo.py: the record of a request
    and its resolution, the queries, and the three writes [add_or_get],
    [resolve] and [expire].  All methods run on the caller's transaction and
    receive instants the callers have normalized to UTC.

    The abstract specification is the relation [decision_edge] on records: a
    decision is requested, then resolved by a call made before its deadline or
    expired by one made after it, and nothing else ever happens to it. *)

From S2P Require Import Prelude.
From S2P Require Import Sql.
From S2P Require Import Canonical.
From S2P Require Import SensitivePayload.
From S2P Require Import UnitOfWork.
From S2P Require Import Models.
From S2P Require Import Schema.
From S2P Require Import Correlation.

Definition status_value (s : DecisionStatus) : string :=
  match s with
  | PENDING => "pending" | RESOLVED => "resolved" | EXPIRED => "expired" | CANCELLED => "cancelled"
  end.
Definition kind_value (k : DecisionKind) : string :=
  match k with
  | K_TOOL => "tool" | K_OUTER_LOOP => "outer_loop" | K_PLAN_REVIEW => "plan_review"
  | K_GOVERNED_APPLY => "governed_apply"
  end.

(** [validate_resolution_payload] *)
Definition validate_resolution_payload {S} (kind : DecisionKind) (action : string)
    (payload : list (string * json)) : M S unit :=
  guard (resolution_payload_valid kind action payload) ValueError "invalid resolution payload".

(** ** Reading *)

(** The columns of [_SELECT_RECORD], as the models decode them. *)
Definition record_of (d : db) (r : decision_row) : DecisionRecordV1 :=
  let q := dc_request r in
  mkRecord q
    ((λ res, mkResolution (decision_request_id q) (r_action res) (r_reason res) (r_payload res)
               (actor_principal_id res) (actor_display_name res) (resolved_at res))
       <$> decision_resolutions d !! decision_request_id q).

Definition stored_record_valid (x : DecisionRecordV1) : bool :=
  decision_valid (rec_request x) &&
  match rec_resolution x with Some res => resolution_valid res | None => true end &&
  record_valid x.

Definition decode_record (r : decision_row) : M db DecisionRecordV1 :=
  let! d := get_state in
  guard (stored_record_valid (record_of d r)) DecisionDecodeError
    "persisted decision violates the v1 contract" ;;;
  ret (record_of d r).

(** The row of the edict the [JOIN] of [_SELECT_RECORD] needs. *)
Definition edict_of (d : db) (r : decision_row) : option edict_row :=
  edicts d !! d_edict_id (dc_request r).
Definition joined (d : db) (r : decision_row) : bool := is_some (edict_of d r).
Definition submitted_by (d : db) (submitter : string) (r : decision_row) : bool :=
  match edict_of d r with Some e => bool_decide (ed_submitter e = submitter) | None => false end.

Definition decode_optional (row : option decision_row) : M db (option DecisionRecordV1) :=
  match row with
  | Some r => let! x := decode_record r in ret (Some x)
  | None => ret None
  end.

Definition get (decision_request_id : string) : M db (option DecisionRecordV1) :=
  let! d := get_state in
  let! row := sql_get (Row := decision_row) decision_request_id in
  decode_optional (match row with Some r => if joined d r then Some r else None | None => None end).

Definition get_for_submitter (decision_request_id submitter : string) :
    M db (option DecisionRecordV1) :=
  guard (non_blank submitter) ValueError "submitter must not be blank" ;;;
  let! d := get_state in
  let! row := sql_get (Row := decision_row) decision_request_id in
  decode_optional
    (match row with Some r => if submitted_by d submitter r then Some r else None | None => None end).

Fixpoint decode_records (rows : list decision_row) : M db (list DecisionRecordV1) :=
  match rows with
  | [] => ret []
  | r :: rows' => let! x := decode_record r in let! l := decode_records rows' in ret (x :: l)
  end.

(** [ORDER BY request.created_at, request.decision_request_id] *)
Definition by_creation (r r' : decision_row) : bool :=
  let q := dc_request r in let q' := dc_request r' in
  le_of (lex (d_created_at q ?= d_created_at q')
             (text_compare (decision_request_id q) (decision_request_id q'))).
(** [ORDER BY request.expires_at, request.decision_request_id] *)
Definition by_deadline (r r' : decision_row) : bool :=
  let q := dc_request r in let q' := dc_request r' in
  le_of (lex (d_expires_at q ?= d_expires_at q')
             (text_compare (decision_request_id q) (decision_request_id q'))).
(** [ORDER BY request.expires_at, request.created_at, request.decision_request_id] *)
Definition by_urgency (r r' : decision_row) : bool :=
  let q := dc_request r in let q' := dc_request r' in
  le_of (lex (d_expires_at q ?= d_expires_at q') (lex (d_created_at q ?= d_created_at q')
             (text_compare (decision_request_id q) (decision_request_id q')))).

Definition list_for_edict (edict_id : string) : M db (list DecisionRecordV1) :=
  let! d := get_state in
  let! rows := sql_select (Row := decision_row)
    (λ r, joined d r && bool_decide (d_edict_id (dc_request r) = edict_id)) in
  decode_records (order_by by_creation rows).

Definition is_pending (r : decision_row) : bool := bool_decide (d_status (dc_request r) = PENDING).
Definition of_kind (kind : option DecisionKind) (r : decision_row) : bool :=
  match kind with Some k => bool_decide (d_kind (dc_request r) = k) | None => true end.

Definition list_pending (kind : option DecisionKind) : M db (list DecisionRequestV1) :=
  let! d := get_state in
  let! rows := sql_select (Row := decision_row) (λ r, joined d r && is_pending r && of_kind kind r) in
  let! records := decode_records (order_by by_creation rows) in
  ret (rec_request <$> records).

Definition positive_limit (limit : Z) : M db unit :=
  guard (0 <? limit) ValueError "limit must be a positive integer".

Definition list_pending_owned (submitter : string) (kind : option DecisionKind) (limit : Z) :
    M db (list DecisionRequestV1) :=
  guard (non_blank submitter) ValueError "submitter must not be blank" ;;;
  positive_limit limit ;;;
  let! d := get_state in
  let! rows := sql_select (Row := decision_row)
    (λ r, is_pending r && submitted_by d submitter r && of_kind kind r) in
  let! records := decode_records (take (Z.to_nat limit) (order_by by_creation rows)) in
  ret (rec_request <$> records).

(** The rows of the two control-center queries. *)
Definition pending_for (d : db) (submitter : option string) (r : decision_row) : bool :=
  is_pending r &&
  match edict_of d r with
  | Some e =>
      match submitter with Some who => bool_decide (ed_submitter e = who) | None => true end &&
      negb (ed_archived e)
  | None => false
  end.

Record ControlDecisionSummaryV1 := mkDecisionSummary {
  sm_decision_request_id : string; sm_edict_id : string; sm_edict_title : string;
  sm_memorial_id : string; sm_kind : DecisionKind; sm_expires_at : Z; sm_created_at : Z;
}.

(** [COALESCE(NULLIF(edict.title, ''), edict.goal)] *)
Definition title_of (d : db) (edict_id : string) : string :=
  match edicts d !! edict_id with
  | Some e => if bool_decide (ed_title e = "") then ed_goal e else ed_title e
  | None => ""
  end.

Definition list_pending_for_submitter (submitter : option string) (limit : Z) :
    M db (list ControlDecisionSummaryV1) :=
  guard (optional_non_blank submitter) ValueError "submitter must not be blank" ;;;
  positive_limit limit ;;;
  let! d := get_state in
  let! rows := sql_select (Row := decision_row) (pending_for d submitter) in
  let! records := decode_records (take (Z.to_nat limit) (order_by by_urgency rows)) in
  ret ((λ x, let q := rec_request x in
          mkDecisionSummary (decision_request_id q) (d_edict_id q) (title_of d (d_edict_id q))
            (d_memorial_id q) (d_kind q) (d_expires_at q) (d_created_at q)) <$> records).

Definition count_pending_for_submitter (submitter : option string) : M db Z :=
  guard (optional_non_blank submitter) ValueError "submitter must not be blank" ;;;
  let! d := get_state in
  let! rows := sql_select (Row := decision_row) (pending_for d submitter) in
  ret (Z.of_nat (length rows)).

(** The rows of [list_due]. *)
Definition due (d : db) (now : Z) (r : decision_row) : bool :=
  joined d r && is_pending r && (d_expires_at (dc_request r) <=? now).

Definition list_due (now limit : Z) : M db (list DecisionRequestV1) :=
  positive_limit limit ;;;
  let! d := get_state in
  let! rows := sql_select (Row := decision_row) (due d now) in
  let! records := decode_records (take (Z.to_nat limit) (order_by by_deadline rows)) in
  ret (rec_request <$> records).

(** ** Writing *)

(** [_require_memorial_binding] *)
Definition require_memorial_binding (memorial_id edict_id : string) : M db unit :=
  let! d := get_state in
  guard (match memorials d !! memorial_id with
         | Some m => bool_decide (mm_edict_id m = edict_id)
         | None => false
         end)
    DecisionIdentityConflict "memorial does not belong to the decision edict".

(** [WHERE memorial_id = ? AND kind = ? AND request_key = ?], [fetchone()] *)
Definition find_identity (q : DecisionRequestV1) : M db (option decision_row) :=
  let! d := get_state in
  let! rows := sql_select (Row := decision_row) (λ r, joined d r && same_identity (dc_request r) q) in
  ret (head rows).

(** The stored request stands for the new one when the payload is the same. *)
Definition replay (q : DecisionRequestV1) (r : decision_row) : M db DecisionRequestV1 :=
  let! x := decode_record r in
  let existing := rec_request x in
  if bool_decide (d_payload_hash existing = d_payload_hash q) then ret existing
  else raise_with DecisionIdentityConflict "decision request identity payload hash conflict"
         (Some (decision_request_id existing)).

Definition add_or_get (q : DecisionRequestV1) (correlation_id : option string) :
    M db DecisionRequestV1 :=
  guard (bool_decide (d_status q = PENDING) && (d_version q =? 1)) ValueError
    "new decisions must be pending at version 1" ;;;
  require_memorial_binding (d_memorial_id q) (d_edict_id q) ;;;
  let! durable_correlation := correlation_for_memorial (d_memorial_id q) correlation_id in
  let! existing_row := find_identity q in
  match existing_row with
  | Some r => replay q r
  | None =>
      let! _ := of_result (canonical_json_bytes (JObj (d_payload q))) in
      try_except
        (sql_insert (decision_request_id q) (mkDecisionRow q (Some durable_correlation)) ;;; ret q)
        IntegrityError
        (λ _, let! row := find_identity q in
              match row with
              | None => raise DecisionIdentityConflict "decision request identity conflict"
              | Some r => replay q r
              end)
  end.

(** [SET status = ?, version = version + 1, updated_at = ?] *)
Definition settled (q : DecisionRequestV1) (s : DecisionStatus) (at_ : Z) : DecisionRequestV1 :=
  mkDecision (decision_request_id q) (d_kind q) (d_edict_id q) (d_memorial_id q) (request_key q)
    (d_payload q) (d_payload_hash q) (requested_by q) (d_expires_at q) s (d_version q + 1)
    (d_created_at q) at_.
Definition settle_row (s : DecisionStatus) (at_ : Z) (r : decision_row) : decision_row :=
  mkDecisionRow (settled (dc_request r) s at_) (dc_correlation_id r).

(** The reason code for which a request cannot be resolved at [now]. *)
Definition refusal (q : DecisionRequestV1) (expected_version now : Z) : option string :=
  if negb (bool_decide (d_status q = PENDING)) then Some (status_value (d_status q))
  else if negb (d_version q =? expected_version) then Some "stale_version"
  else if d_expires_at q <=? now then Some "deadline_elapsed"
  else None.

Definition resolve (resolution : DecisionResolutionV1) (expected_version now : Z) :
    M db DecisionRecordV1 :=
  let id := r_decision_request_id resolution in
  let! found := get id in
  match found with
  | None => raise DecisionStateConflict "not_found"
  | Some x =>
      validate_resolution_payload (d_kind (rec_request x)) (r_action resolution)
        (r_payload resolution) ;;;
      match refusal (rec_request x) expected_version now with
      | Some reason => raise DecisionStateConflict reason
      | None =>
          let! rowcount := sql_update (Row := decision_row) id
            (λ r, is_pending r && (d_version (dc_request r) =? expected_version) &&
                  (now <? d_expires_at (dc_request r)))
            (settle_row RESOLVED (resolved_at resolution)) in
          if negb (rowcount =? 1) then
            let! current := get id in
            match current with
            | None => raise DecisionStateConflict "not_found"
            | Some c =>
                raise DecisionStateConflict (default "cas_lost" (refusal (rec_request c) expected_version now))
            end
          else
            let! _ := of_result (canonical_json_bytes (JObj (r_payload resolution))) in
            sql_insert id resolution ;;;
            let! saved := get id in
            match saved with
            | None => raise DecisionStateConflict "not_found"
            | Some s => ret s
            end
      end
  end.

Definition expire (decision_request_id : string) (expected_version now : Z) :
    M db (option DecisionRequestV1) :=
  let! rowcount := sql_update (Row := decision_row) decision_request_id
    (λ r, is_pending r && (d_version (dc_request r) =? expected_version) &&
          (d_expires_at (dc_request r) <=? now))
    (settle_row EXPIRED now) in
  if negb (rowcount =? 1) then ret None
  else
    let! record := get decision_request_id in
    match record with
    | None => raise DecisionStateConflict "not_found"
    | Some x => ret (Some (rec_request x))
    end.

(** ** Invariant of the two tables *)

Record decision_inv (d : db) : Prop := {
  di_keyed : ∀ k r, decision_requests d !! k = Some r → decision_request_id (dc_request r) = k;
  di_refs : ∀ k r, decision_requests d !! k = Some r →
    joined d r = true ∧ has_memorial d (d_memorial_id (dc_request r)) = true;
  di_valid : ∀ k r, decision_requests d !! k = Some r → stored_record_valid (record_of d r) = true;
  di_unique : ∀ k k' r r', decision_requests d !! k = Some r → decision_requests d !! k' = Some r' →
    same_identity (dc_request r) (dc_request r') = true → k' = k;
  di_resolved : ∀ k res, decision_resolutions d !! k = Some res →
    r_decision_request_id res = k ∧ is_Some (decision_requests d !! k);
}.

(** The record of a decision, as [get] returns it. *)
Definition decision_at (d : db) (id : string) : option DecisionRecordV1 :=
  record_of d <$> decision_requests d !! id.

Lemma decode_record_eq d k r :
  decision_inv d → decision_requests d !! k = Some r → decode_record r d = (Ok (record_of d r), d).
Proof. intros Hi Hk. unfold decode_record. rewrite bind_get_state. by rewrite (di_valid d Hi _ _ Hk). Qed.

Lemma get_eq d id : decision_inv d → get id d = (Ok (decision_at d id), d).
Proof.
  intros Hi. unfold get, decision_at. rewrite bind_get_state, bind_sql_get. cbn.
  destruct (decision_requests d !! id) as [r|] eqn:E; [|done].
  destruct (di_refs d Hi _ _ E) as [-> _]. unfold decode_optional.
  by rewrite (bind_Ok _ _ _ _ _ (decode_record_eq d id r Hi E)).
Qed.

Lemma reads_decode_record r : reads (decode_record r).
Proof. intros d. unfold decode_record. rewrite bind_get_state. by destruct (stored_record_valid _). Qed.
Lemma reads_decode_optional o : reads (decode_optional o).
Proof. destruct o; cbn; [apply reads_bind; [apply reads_decode_record|done]|done]. Qed.
Lemma reads_get id : reads (get id).
Proof. intros d. unfold get. rewrite bind_get_state, bind_sql_get. apply reads_decode_optional. Qed.
#[local] Hint Resolve reads_decode_record reads_get : py.

(** What [get] returned, without the invariant. *)
Lemma get_Ok_inv d id o d' :
  get id d = (Ok o, d') → d' = d ∧
  (∀ x, o = Some x → decision_at d id = Some x ∧ stored_record_valid x = true).
Proof.
  intros H. pose proof (reads_get id d) as Hr. rewrite H in Hr. cbn in Hr. subst. split; [done|].
  intros x ->. unfold get in H. rewrite bind_get_state, bind_sql_get in H. cbn in H. unfold decision_at.
  destruct (decision_requests d !! id) as [r|]; [|done]. destruct (joined d r); [|done].
  unfold decode_optional in H. step_M H. unfold decode_record in E. rewrite bind_get_state in E.
  run_M E. unfold ret in H. by simplify_eq.
Qed.

Lemma same_identity_refl q : same_identity q q = true.
Proof. unfold same_identity. by rewrite !bool_decide_eq_true_2. Qed.
Lemma same_identity_spec q q' :
  same_identity q q' = true ↔
  d_memorial_id q = d_memorial_id q' ∧ d_kind q = d_kind q' ∧ request_key q = request_key q'.
Proof. unfold same_identity. rewrite !andb_true_iff, !bool_decide_eq_true. tauto. Qed.

(** ** The abstract specification *)

(** An edge a call with the clock reading [now] may take. *)
Inductive decision_edge (now : Z) : option DecisionRecordV1 → DecisionRecordV1 → Prop :=
  | edge_request q :
      d_status q = PENDING → d_version q = 1 → decision_valid q = true →
      decision_edge now None (mkRecord q None)
  | edge_resolve q res :
      d_status q = PENDING → now < d_expires_at q →
      resolution_payload_valid (d_kind q) (r_action res) (r_payload res) = true →
      r_decision_request_id res = decision_request_id q →
      decision_edge now (Some (mkRecord q None)) (mkRecord (settled q RESOLVED (resolved_at res)) (Some res))
  | edge_expire q :
      d_status q = PENDING → d_expires_at q ≤ now →
      decision_edge now (Some (mkRecord q None)) (mkRecord (settled q EXPIRED now) None).

(** [id] moves along an edge and every other decision stays. *)
Definition moves (now : Z) (d d' : db) (id : string) : Prop :=
  (∃ x, decision_at d' id = Some x ∧ decision_edge now (decision_at d id) x) ∧
  ∀ id', id' ≠ id → decision_at d' id' = decision_at d id'.

Lemma pending_record d k r :
  decision_inv d → decision_requests d !! k = Some r → d_status (dc_request r) = PENDING →
  decision_resolutions d !! k = None ∧ record_of d r = mkRecord (dc_request r) None.
Proof.
  intros Hi Hk Hp. pose proof (di_valid d Hi _ _ Hk) as Hv. pose proof (di_keyed d Hi _ _ Hk) as Hid.
  unfold stored_record_valid, record_valid, record_of in *. cbn in *. rewrite Hid, Hp in *.
  destruct (decision_resolutions d !! k); [|done]. cbn in Hv. bools. done.
Qed.

(** The tables after a request, and after a settlement with or without a
    resolution. *)
Definition with_request (q : DecisionRequestV1) (c : option string) (d : db) : db :=
  set_decision_requests (<[decision_request_id q := mkDecisionRow q c]> (decision_requests d)) d.
Definition with_settled (k : string) (r : decision_row) (d : db) : db :=
  set_decision_requests (<[k := r]> (decision_requests d)) d.
Definition with_resolution (k : string) (res : DecisionResolutionV1) (d : db) : db :=
  set_decision_resolutions (<[k := res]> (decision_resolutions d)) d.

Lemma record_of_other d k r r' res :
  decision_inv d → decision_requests d !! k = Some r → decision_request_id (dc_request r) ≠ r' →
  record_of (with_resolution r' res d) r = record_of d r.
Proof. intros Hi Hk Hne. unfold record_of, with_resolution. cbn. by rewrite lookup_insert_ne. Qed.

Lemma request_ok d q c :
  decision_inv d → decision_requests d !! decision_request_id q = None →
  decision_row_check d (mkDecisionRow q c) = true →
  unique_ok (decision_requests d) (decision_request_id q) (mkDecisionRow q c) = true →
  decision_valid q = true → d_status q = PENDING → d_version q = 1 →
  decision_inv (with_request q c d) ∧
  ∀ now, moves now d (with_request q c d) (decision_request_id q).
Proof.
  intros Hi Hn Hrc Hu Hv Hp Hv1.
  assert (Hres : decision_resolutions d !! decision_request_id q = None).
  { destruct (decision_resolutions d !! _) eqn:E; [|done].
    apply (di_resolved d Hi) in E as [_ [? ?]]. congruence. }
  assert (Hrec : record_of (with_request q c d) (mkDecisionRow q c) = mkRecord q None).
  { unfold record_of. cbn. by rewrite Hres. }
  split; [split|]; cbn.
  - intros k r [[<- <-]|[_ Hk]]%lookup_insert_Some; [done|by apply (di_keyed d Hi)].
  - intros k r [[<- <-]|[_ Hk]]%lookup_insert_Some; [|by apply (di_refs d Hi k)].
    unfold decision_row_check in Hrc. cbn in Hrc. bools. split; done.
  - intros k r [[<- <-]|[_ Hk]]%lookup_insert_Some; [|by apply (di_valid d Hi k)].
    rewrite Hrec. unfold stored_record_valid, record_valid. cbn. by rewrite Hv, Hp.
  - intros k k' r r' Hk Hk' Hs. rewrite unique_ok_spec in Hu.
    apply lookup_insert_Some in Hk as [[<- <-]|[Hne Hk]];
      apply lookup_insert_Some in Hk' as [[<- <-]|[Hne' Hk']]; [done| | |by eapply (di_unique d Hi)].
    + specialize (Hu k' r' Hk' (not_eq_sym Hne')). cbn in Hu. unfold decision_row_conflict in Hu. by rewrite Hs in Hu.
    + specialize (Hu k r Hk (not_eq_sym Hne)). cbn in Hu. unfold decision_row_conflict in Hu.
      apply same_identity_spec in Hs as (H1 & H2 & H3). cbn in *.
      assert (same_identity q (dc_request r) = true) by (apply same_identity_spec; auto). congruence.
  - intros k res Hk. destruct (di_resolved d Hi _ _ Hk) as [? Hs]. split; [done|].
    by apply lookup_insert_is_Some; destruct (decide (decision_request_id q = k)); auto.
  - intros now. split.
    + unfold decision_at at 1. cbn. rewrite lookup_insert_eq. cbn. rewrite Hrec.
      eexists. split; [done|]. unfold decision_at. rewrite Hn. by constructor.
    + intros id' Hne. unfold decision_at. cbn. by rewrite lookup_insert_ne.
Qed.

(** A settlement of the pending decision [k]: what [resolve] and [expire] do
    to the tables. *)
Lemma decision_settle_ok now d d' k r s at_ :
  decision_inv d → decision_requests d !! k = Some r →
  edicts d' = edicts d → memorials d' = memorials d →
  decision_requests d' = <[k := settle_row s at_ r]> (decision_requests d) →
  (∀ k', k' ≠ k → decision_resolutions d' !! k' = decision_resolutions d !! k') →
  (∀ res, decision_resolutions d' !! k = Some res → r_decision_request_id res = k) →
  stored_record_valid (record_of d' (settle_row s at_ r)) = true →
  decision_edge now (decision_at d k) (record_of d' (settle_row s at_ r)) →
  decision_inv d' ∧ moves now d d' k.
Proof.
  intros Hi Hk He Hm Hq Hr Hrk Hv Hedge.
  assert (Hother : ∀ k' r', decision_requests d !! k' = Some r' → k' ≠ k →
    record_of d' r' = record_of d r').
  { intros k' r' Hk' Hne. unfold record_of. rewrite (di_keyed d Hi _ _ Hk'). by rewrite Hr. }
  split; [split|].
  - rewrite Hq. intros k' r' [[<- <-]|[_ Hk']]%lookup_insert_Some; cbn; by eapply (di_keyed d Hi).
  - rewrite Hq. unfold joined, edict_of, has_memorial. rewrite He, Hm.
    intros k' r' [[<- <-]|[_ Hk']]%lookup_insert_Some; cbn;
      [exact (di_refs d Hi _ _ Hk)|exact (di_refs d Hi _ _ Hk')].
  - rewrite Hq. intros k' r' [[<- <-]|[Hne Hk']]%lookup_insert_Some; [done|].
    rewrite (Hother k' r') by done. by eapply (di_valid d Hi).
  - rewrite Hq. intros k1 k2 r1 r2 H1 H2 Hs.
    assert (Hid : ∀ k0 r0, <[k := settle_row s at_ r]> (decision_requests d) !! k0 = Some r0 →
      ∃ r', decision_requests d !! k0 = Some r' ∧
        ∀ q, same_identity (dc_request r0) q = same_identity (dc_request r') q ∧
             same_identity q (dc_request r0) = same_identity q (dc_request r')).
    { intros k0 r0 [[<- <-]|[_ H0]]%lookup_insert_Some; eauto. }
    destruct (Hid _ _ H1) as (r1' & H1' & E1), (Hid _ _ H2) as (r2' & H2' & E2).
    eapply (di_unique d Hi _ _ _ _ H1' H2'). rewrite <-Hs, (proj1 (E1 _)), (proj2 (E2 _)). done.
  - intros k' res Hk'. destruct (decide (k' = k)) as [->|Hne].
    + split; [by apply Hrk|]. rewrite Hq. by rewrite lookup_insert_eq.
    + rewrite Hr in Hk' by done. destruct (di_resolved d Hi _ _ Hk') as [? Hs]. split; [done|].
      rewrite Hq. by rewrite lookup_insert_ne.
  - split.
    + exists (record_of d' (settle_row s at_ r)). split; [|done]. unfold decision_at. rewrite Hq.
      by rewrite lookup_insert_eq.
    + intros id' Hne. unfold decision_at. rewrite Hq, lookup_insert_ne by done.
      destruct (decision_requests d !! id') as [r'|] eqn:E; [|done]. cbn. f_equal. by eapply Hother.
Qed.

(** The row a settlement writes passes the constraints of the table. *)
Lemma settled_row_check d k r s at_ :
  decision_inv d → decision_requests d !! k = Some r →
  decision_row_check d (settle_row s at_ r) = true ∧
  unique_ok (decision_requests d) k (settle_row s at_ r) = true.
Proof.
  intros Hi Hk. destruct (di_refs d Hi _ _ Hk) as [Hj Hm].
  pose proof (di_valid d Hi _ _ Hk) as Hv. split.
  - unfold stored_record_valid, decision_valid, record_of in Hv. cbn in Hv. bools.
    unfold decision_row_check. cbn. unfold joined, edict_of in Hj. bools_goal; auto with py; lia.
  - apply unique_ok_spec. intros k' r' Hk' Hne. cbn. unfold decision_row_conflict.
    destruct (same_identity (dc_request (settle_row s at_ r)) (dc_request r')) eqn:Hs; [|done].
    exfalso. apply Hne. by eapply (di_unique d Hi _ _ _ _ Hk Hk').
Qed.

(** ** [resolve] on every branch *)

(** The stored form of a resolved decision, after the write. *)
Definition resolved_record (q : DecisionRequestV1) (res : DecisionResolutionV1) : DecisionRecordV1 :=
  mkRecord (settled q RESOLVED (resolved_at res)) (Some res).
Definition resolved_db (d : db) (r : decision_row) (res : DecisionResolutionV1) : db :=
  with_resolution (r_decision_request_id res) res
    (with_settled (r_decision_request_id res) (settle_row RESOLVED (resolved_at res) r) d).

(** What [resolve] promises inside its transaction: the first failing check
    decides the error; a decision that passes them is settled. *)
Definition resolve_spec (res : DecisionResolutionV1) (v now : Z) : M db DecisionRecordV1 := λ d,
  match decision_requests d !! r_decision_request_id res with
  | None => (Err (Exn DecisionStateConflict "not_found"), d)
  | Some r =>
      let q := dc_request r in
      if negb (resolution_payload_valid (d_kind q) (r_action res) (r_payload res))
      then (Err (Exn ValueError "invalid resolution payload"), d)
      else match refusal q v now with
      | Some reason => (Err (Exn DecisionStateConflict reason), d)
      | None =>
          match canonical_json_bytes (JObj (r_payload res)) with
          | Err e => (Err e, d)
          | Ok _ =>
              if d_created_at q <=? resolved_at res
              then (Ok (resolved_record q res), resolved_db d r res)
              else (Err (Exn DecisionDecodeError "persisted decision violates the v1 contract"), d)
          end
      end
  end.

Lemma resolution_eta (x : DecisionResolutionV1) :
  mkResolution (r_decision_request_id x) (r_action x) (r_reason x) (r_payload x)
    (actor_principal_id x) (actor_display_name x) (resolved_at x) = x.
Proof. by destruct x. Qed.

(** The record that [get] finds right after the two writes of [resolve]. *)
Lemma resolved_lookup d r res :
  decision_request_id (dc_request r) = r_decision_request_id res →
  record_of (resolved_db d r res) (settle_row RESOLVED (resolved_at res) r) =
    resolved_record (dc_request r) res.
Proof.
  intros Hid. unfold record_of, resolved_record. cbn. rewrite Hid, lookup_insert_eq. cbn.
  by rewrite resolution_eta.
Qed.

Lemma resolved_valid q res :
  decision_valid q = true → resolution_valid res = true →
  decision_request_id q = r_decision_request_id res →
  resolution_payload_valid (d_kind q) (r_action res) (r_payload res) = true →
  stored_record_valid (resolved_record q res) = (d_created_at q <=? resolved_at res).
Proof.
  intros Hq Hr Hid Hp. unfold stored_record_valid, record_valid, resolved_record, decision_valid in *.
  cbn. bools. rewrite Hr, Hp, <-Hid. rewrite !bool_decide_eq_true_2 by done.
  repeat match goal with H : ?x = true |- _ => rewrite H; clear H end.
  assert ((1 <=? d_version q + 1) = true) as -> by (apply Z.leb_le; lia).
  assert ((d_created_at q <? d_expires_at q) = true) as -> by (apply Z.ltb_lt; lia).
  cbn. by rewrite !andb_true_r.
Qed.

Lemma get_row d k r :
  decision_requests d !! k = Some r → joined d r = true →
  get k d = if stored_record_valid (record_of d r) then (Ok (Some (record_of d r)), d)
            else (Err (Exn DecisionDecodeError "persisted decision violates the v1 contract"), d).
Proof.
  intros Hk Hj. unfold get. rewrite bind_get_state, bind_sql_get. cbn. rewrite Hk, Hj.
  unfold decode_optional, decode_record, bind, get_state, guard.
  by destruct (stored_record_valid _).
Qed.

(** A request that is not refused matches the condition of the update. *)
Lemma refusal_None q v now :
  refusal q v now = None ↔ d_status q = PENDING ∧ d_version q = v ∧ now < d_expires_at q.
Proof.
  unfold refusal. destruct (bool_decide (d_status q = PENDING)) eqn:Ep; cbn; bools; [|naive_solver].
  destruct (d_version q =? v) eqn:Ev; cbn; bools; [|naive_solver].
  destruct (d_expires_at q <=? now) eqn:Ee; bools; [split; [done|lia]|naive_solver].
Qed.

Lemma settle_update d k r s at_ cond :
  decision_inv d → decision_requests d !! k = Some r → cond r = true →
  sql_update (Row := decision_row) k cond (settle_row s at_) d =
    (Ok 1, with_settled k (settle_row s at_ r) d).
Proof.
  intros Hi Hk Hc. destruct (settled_row_check d k r s at_ Hi Hk) as [H1 H2].
  exact (sql_update_hit k cond (settle_row s at_) d r Hk Hc H1 H2 eq_refl).
Qed.

Lemma resolution_insert d k r res s at_ :
  decision_inv d → resolution_valid res = true → decision_requests d !! k = Some r →
  d_status (dc_request r) = PENDING → r_decision_request_id res = k →
  sql_insert k res (with_settled k (settle_row s at_ r) d) =
    (Ok tt, with_resolution k res (with_settled k (settle_row s at_ r) d)).
Proof.
  intros Hi Hv Hk Hp Hid. refine (sql_insert_Ok (Row := DecisionResolutionV1) k res _ _ _ _); cbn.
  - by apply (pending_record d k r).
  - unfold resolution_row_check, resolution_valid in *. cbn. rewrite Hid, lookup_insert_eq. bools.
    bools_goal; auto with py.
  - by apply unique_ok_spec.
Qed.

Lemma resolve_eq res v now d :
  decision_inv d → resolution_valid res = true →
  atomically (resolve res v now) d = resolve_spec res v now d.
Proof.
  intros Hi Hv. unfold resolve_spec, atomically, resolve.
  rewrite (bind_Ok _ _ _ _ _ (get_eq d _ Hi)). unfold decision_at.
  destruct (decision_requests d !! r_decision_request_id res) as [r|] eqn:Hk; [|done].
  cbn [fmap option_fmap option_map]. cbn [rec_request record_of].
  unfold validate_resolution_payload. destruct (resolution_payload_valid _ _ _) eqn:Hp; [|done].
  rewrite (bind_Ok _ _ _ _ _ (guard_true _ _ d)). cbn [negb].
  destruct (refusal (dc_request r) v now) as [reason|] eqn:Hr; [done|].
  pose proof (proj1 (refusal_None _ _ _) Hr) as (Hst & Hver & Hexp).
  erewrite bind_Ok; [|apply (settle_update d _ r RESOLVED (resolved_at res) _ Hi Hk);
    unfold is_pending; rewrite bool_decide_eq_true_2, Hver, Z.eqb_refl by done; by apply Z.ltb_lt].
  change (negb (1 =? 1)) with false. cbv iota. unfold of_result at 1.
  destruct (canonical_json_bytes _) as [bytes|e]; [|done]. unfold bind at 1.
  rewrite (bind_Ok _ _ _ _ _ (resolution_insert d _ r res _ _ Hi Hv Hk Hst eq_refl)).
  fold (resolved_db d r res). pose proof (di_keyed d Hi _ _ Hk) as Hid.
  unfold bind at 1. rewrite (get_row (resolved_db d r res) _ (settle_row RESOLVED (resolved_at res) r)).
  - rewrite resolved_lookup by done.
    assert (Hq : decision_valid (dc_request r) = true).
    { pose proof (di_valid d Hi _ _ Hk) as Hd. unfold stored_record_valid in Hd. by bools. }
    rewrite (resolved_valid (dc_request r) res) by done.
    by destruct (d_created_at (dc_request r) <=? resolved_at res).
  - cbn. by rewrite lookup_insert_eq.
  - exact (proj1 (di_refs d Hi _ _ Hk)).
Qed.

Lemma resolve_Ok_inv res v now d x d' :
  decision_inv d → resolution_valid res = true → atomically (resolve res v now) d = (Ok x, d') →
  ∃ r, decision_requests d !! r_decision_request_id res = Some r ∧
    d_status (dc_request r) = PENDING ∧ d_version (dc_request r) = v ∧
    now < d_expires_at (dc_request r) ∧ d_created_at (dc_request r) ≤ resolved_at res ∧
    resolution_payload_valid (d_kind (dc_request r)) (r_action res) (r_payload res) = true ∧
    x = resolved_record (dc_request r) res ∧ d' = resolved_db d r res.
Proof.
  intros Hi Hv. rewrite resolve_eq by done. unfold resolve_spec.
  destruct (decision_requests d !! r_decision_request_id res) as [r|] eqn:Hk; [|done].
  destruct (resolution_payload_valid _ _ _) eqn:Hp; [|done]. cbn.
  destruct (refusal (dc_request r) v now) as [reason|] eqn:Hr; [done|].
  destruct (canonical_json_bytes _) as [bytes|e]; [|done].
  destruct (d_created_at (dc_request r) <=? resolved_at res) eqn:Ht; [|done]. intros [= <- <-]. bools.
  apply refusal_None in Hr as (? & ? & ?). exists r. auto 10.
Qed.

Lemma resolve_ok res v now d x d' :
  decision_inv d → resolution_valid res = true → atomically (resolve res v now) d = (Ok x, d') →
  decision_inv d' ∧ moves now d d' (r_decision_request_id res).
Proof.
  intros Hi Hv H. apply resolve_Ok_inv in H as (r & Hk & Hst & Hver & Hexp & Ht & Hp & -> & ->); [|done..].
  pose proof (di_keyed d Hi _ _ Hk) as Hid. pose proof (di_valid d Hi _ _ Hk) as Hd.
  unfold stored_record_valid in Hd. bools.
  eapply (decision_settle_ok now d _ _ r RESOLVED (resolved_at res)); try done.
  - intros k' Hne. cbn. by rewrite lookup_insert_ne.
  - intros res' Hres. cbn in Hres. rewrite lookup_insert_eq in Hres. by injection Hres as <-.
  - rewrite resolved_lookup by done. rewrite (resolved_valid (dc_request r) res) by done.
    by apply Z.leb_le.
  - rewrite resolved_lookup by done. unfold decision_at. rewrite Hk. cbn.
    rewrite (proj2 (pending_record d _ r Hi Hk Hst)). by apply (edge_resolve now (dc_request r) res).
Qed.

(** ** [expire] on every branch *)

Definition expirable (q : DecisionRequestV1) (v now : Z) : bool :=
  bool_decide (d_status q = PENDING) && (d_version q =? v) && (d_expires_at q <=? now).

Lemma expire_eq id v now d :
  decision_inv d →
  expire id v now d =
    match decision_requests d !! id with
    | Some r =>
        if expirable (dc_request r) v now
        then (Ok (Some (settled (dc_request r) EXPIRED now)), with_settled id (settle_row EXPIRED now r) d)
        else (Ok None, d)
    | None => (Ok None, d)
    end ∧
  ∀ r, decision_requests d !! id = Some r → expirable (dc_request r) v now = true →
    decision_inv (with_settled id (settle_row EXPIRED now r) d) ∧
    moves now d (with_settled id (settle_row EXPIRED now r) d) id.
Proof.
  intros Hi.
  assert (Hset : ∀ r, decision_requests d !! id = Some r → expirable (dc_request r) v now = true →
    let d' := with_settled id (settle_row EXPIRED now r) d in
    decision_inv d' ∧ moves now d d' id ∧
    record_of d' (settle_row EXPIRED now r) = mkRecord (settled (dc_request r) EXPIRED now) None).
  { intros r Hk He. unfold expirable in He. bools.
    destruct (pending_record d id r Hi Hk H) as [Hnone Hrec].
    pose proof (di_valid d Hi _ _ Hk) as Hd. rewrite Hrec in Hd.
    assert (Hrec' : record_of (with_settled id (settle_row EXPIRED now r) d) (settle_row EXPIRED now r)
      = mkRecord (settled (dc_request r) EXPIRED now) None).
    { unfold record_of. cbn. by rewrite (di_keyed d Hi _ _ Hk), Hnone. }
    cbv zeta. apply and_assoc. split; [|done].
    eapply (decision_settle_ok now d _ id r EXPIRED now); try done.
    - cbn. by intros res Hres; rewrite Hnone in Hres.
    - rewrite Hrec'. unfold stored_record_valid, decision_valid, record_valid in *. cbn in *. bools.
      bools_goal; try done; lia.
    - rewrite Hrec'. unfold decision_at. rewrite Hk. cbn. rewrite Hrec. by constructor. }
  split; [|intros r Hk He; destruct (Hset r Hk He) as (? & ? & _); auto].
  unfold expire. destruct (decision_requests d !! id) as [r|] eqn:Hk.
  - destruct (expirable (dc_request r) v now) eqn:He.
    + destruct (Hset r eq_refl He) as (Hi' & _ & Hrec).
      erewrite bind_Ok; [|exact (settle_update d id r EXPIRED now _ Hi Hk He)].
      change (negb (1 =? 1)) with false. cbv iota.
      rewrite (bind_Ok _ _ _ _ _ (get_eq _ id Hi')). unfold decision_at.
      change (decision_requests (with_settled id ?x d)) with (<[id := x]> (decision_requests d)).
      rewrite lookup_insert_eq. cbn [fmap option_fmap option_map]. by rewrite Hrec.
    + erewrite bind_Ok; [|apply sql_update_miss]; [done|]. intros r' Hr'. cbn in Hr'. by simplify_eq.
  - erewrite bind_Ok; [|apply sql_update_miss]; [done|]. intros r' Hr'. cbn in Hr'. by simplify_eq.
Qed.

(** ** [add_or_get] on every branch *)

Lemma find_identity_spec d q :
  ∃ o, find_identity q d = (Ok o, d) ∧
  match o with
  | Some r => joined d r = true ∧ same_identity (dc_request r) q = true ∧
              ∃ k, decision_requests d !! k = Some r
  | None => ∀ k r, decision_requests d !! k = Some r → joined d r = true →
              same_identity (dc_request r) q = false
  end.
Proof.
  unfold find_identity. rewrite bind_get_state, bind_sql_select. eexists. split; [done|].
  destruct (head _) as [r|] eqn:Eh.
  - apply head_Some_elem_of in Eh. apply elem_of_where_rows in Eh as [Hc Hk]. bools. auto.
  - apply head_None in Eh. intros k r Hk Hj.
    destruct (same_identity (dc_request r) q) eqn:Es; [|done].
    assert (Hin : r ∈ where_rows (λ r, joined d r && same_identity (dc_request r) q) (decision_requests d)).
    { apply elem_of_where_rows. rewrite Hj, Es. eauto. }
    cbn in Eh. rewrite Eh in Hin. by apply not_elem_of_nil in Hin.
Qed.

Lemma replay_eq d k r q :
  decision_inv d → decision_requests d !! k = Some r →
  replay q r d =
    (if bool_decide (d_payload_hash (dc_request r) = d_payload_hash q) then Ok (dc_request r)
     else Err (ExnWith DecisionIdentityConflict "decision request identity payload hash conflict" (Some k)), d).
Proof.
  intros Hi Hk. unfold replay. rewrite (bind_Ok _ _ _ _ _ (decode_record_eq d k r Hi Hk)).
  cbn [rec_request record_of]. rewrite (di_keyed d Hi _ _ Hk). by case_bool_decide.
Qed.

Lemma decision_binding_Ok_inv m e d u d' :
  require_memorial_binding m e d = (Ok u, d') →
  d' = d ∧ ∃ row, memorials d !! m = Some row ∧ mm_edict_id row = e.
Proof.
  unfold require_memorial_binding. rewrite bind_get_state. intros H. apply guard_Ok_inv in H as [H ->].
  split; [done|]. destruct (memorials d !! m) as [row|]; [|done]. bools. eauto.
Qed.

Lemma require_memorial_binding_Ok m e d row :
  memorials d !! m = Some row → mm_edict_id row = e → require_memorial_binding m e d = (Ok tt, d).
Proof.
  intros Hm He. unfold require_memorial_binding. rewrite bind_get_state, Hm, He.
  by rewrite bool_decide_eq_true_2.
Qed.

(** A request whose identity is stored: the stored request, or the conflict
    that names it. *)
Lemma add_or_get_stored d q c k r row x :
  decision_inv d → decision_requests d !! k = Some r → same_identity (dc_request r) q = true →
  d_status q = PENDING → d_version q = 1 →
  memorials d !! d_memorial_id q = Some row → mm_edict_id row = d_edict_id q →
  correlation_for_memorial (d_memorial_id q) c d = (Ok x, d) →
  add_or_get q c d =
    (if bool_decide (d_payload_hash (dc_request r) = d_payload_hash q) then Ok (dc_request r)
     else Err (ExnWith DecisionIdentityConflict "decision request identity payload hash conflict" (Some k)), d).
Proof.
  intros Hi Hk Hs Hp Hv1 Hrow He Hc. unfold add_or_get. rewrite Hp, Hv1, Z.eqb_refl.
  rewrite bool_decide_eq_true_2 by done. rewrite (bind_Ok _ _ _ _ _ (guard_true _ _ d)).
  rewrite (bind_Ok _ _ _ _ _ (require_memorial_binding_Ok _ _ _ _ Hrow He)), (bind_Ok _ _ _ _ _ Hc).
  destruct (find_identity_spec d q) as (o & Ho & Hcase). rewrite (bind_Ok _ _ _ _ _ Ho).
  destruct o as [r'|].
  - destruct Hcase as (_ & Hs' & k' & Hk').
    assert (k' = k) as ->.
    { eapply (di_unique d Hi _ _ _ _ Hk Hk'). apply same_identity_spec in Hs as (? & ? & ?).
      apply same_identity_spec in Hs' as (? & ? & ?). apply same_identity_spec. intuition congruence. }
    simplify_eq. by apply replay_eq.
  - rewrite (Hcase k r Hk (proj1 (di_refs d Hi _ _ Hk))) in Hs. done.
Qed.

(** A successful [add_or_get] found the identity or inserted it. *)
Lemma add_or_get_Ok_inv d q c x d' :
  decision_inv d → decision_valid q = true → add_or_get q c d = (Ok x, d') →
  (d' = d ∧ ∃ k r, decision_requests d !! k = Some r ∧ same_identity (dc_request r) q = true ∧
     x = dc_request r ∧ d_payload_hash x = d_payload_hash q) ∨
  (x = q ∧ (∃ cid, d' = with_request q cid d) ∧ decision_inv d' ∧
   ∀ now, moves now d d' (decision_request_id q)).
Proof.
  intros Hi Hval H. unfold add_or_get in H. step_M H. bools.
  apply bind_Ok_inv in H as (? & ? & (-> & _)%decision_binding_Ok_inv & H).
  apply bind_Ok_inv in H as (cid & ? & (-> & _)%correlation_Ok_inv & H).
  assert (Hfound : ∀ k r, decision_requests d !! k = Some r → same_identity (dc_request r) q = true →
    replay q r d = (Ok x, d') →
    d' = d ∧ ∃ k r, decision_requests d !! k = Some r ∧ same_identity (dc_request r) q = true ∧
      x = dc_request r ∧ d_payload_hash x = d_payload_hash q).
  { intros k r Hk Hs Hr. rewrite (replay_eq d k r q Hi Hk) in Hr. case_bool_decide; simplify_eq.
    split; [done|]. eauto 10. }
  destruct (find_identity_spec d q) as (o & Ho & Hcase). rewrite (bind_Ok _ _ _ _ _ Ho) in H.
  destruct o as [r|]; [destruct Hcase as (_ & Hs & k & Hk); left; eauto|].
  apply bind_Ok_inv in H as (bytes & ? & Hb & H). unfold of_result in Hb. injection Hb as _ <-.
  unfold try_except, bind at 1 in H.
  destruct (sql_insert (decision_request_id q) (mkDecisionRow q (Some cid)) d) as [[[]|e] d1] eqn:Hins.
  - cbn in H. injection H as <- <-. right.
    apply sql_insert_Ok_inv in Hins as (Hn & Hrc & Hu & ->). split; [done|].
    split; [by exists (Some cid)|]. by apply request_ok.
  - assert (d1 = d) as ->.
    { destruct (sql_insert_state (decision_request_id q) (mkDecisionRow q (Some cid)) d) as [E|E];
        rewrite Hins in E; cbn in E; [done|discriminate]. }
    destruct (subclass _ _); [|done]. rewrite (bind_Ok _ _ _ _ _ Ho) in H. done.
Qed.

(** ** Histories *)

Inductive decision_op :=
  | DecAdd (q : DecisionRequestV1) (correlation_id : option string)
  | DecResolve (res : DecisionResolutionV1) (expected_version now : Z)
  | DecExpire (id : string) (expected_version now : Z).

(** The calls receive validated models. *)
Definition decision_op_ok (op : decision_op) : bool :=
  match op with
  | DecAdd q _ => decision_valid q
  | DecResolve res _ _ => resolution_valid res
  | DecExpire _ _ _ => true
  end.

(** A call inside its caller's transaction; only the tables matter here. *)
Definition exec_decision (op : decision_op) (d : db) : db :=
  match op with
  | DecAdd q c => (atomically (add_or_get q c) d).2
  | DecResolve res v now => (atomically (resolve res v now) d).2
  | DecExpire id v now => (atomically (expire id v now) d).2
  end.
Definition decision_op_id (op : decision_op) : string :=
  match op with
  | DecAdd q _ => decision_request_id q
  | DecResolve res _ _ => r_decision_request_id res
  | DecExpire id _ _ => id
  end.
(** The clock the call decides by: the deadline is compared with it. *)
Definition decision_op_now (op : decision_op) : Z :=
  match op with
  | DecAdd q _ => d_created_at q
  | DecResolve _ _ now | DecExpire _ _ now => now
  end.
Definition decision_step (d d' : db) : Prop :=
  ∃ op, decision_op_ok op = true ∧ exec_decision op d = d'.

(** The tables the decision repository only reads. *)
Definition same_parents (d d' : db) : Prop := edicts d' = edicts d ∧ memorials d' = memorials d.
#[local] Hint Extern 1 (same_parents _ _) => split; reflexivity : core.

Lemma atomically_state {A} (m : M db A) d :
  (atomically m d).2 = d ∨ ∃ a, atomically m d = (Ok a, (atomically m d).2).
Proof. unfold atomically. destruct (m d) as [[a|e] d']; eauto. Qed.

Lemma exec_decision_ok op d :
  decision_inv d → decision_op_ok op = true →
  decision_inv (exec_decision op d) ∧ same_parents d (exec_decision op d) ∧
  (exec_decision op d = d ∨ moves (decision_op_now op) d (exec_decision op d) (decision_op_id op)).
Proof.
  intros Hi Hok. destruct op as [q c|res v now|id v now]; cbn in *.
  - destruct (atomically_state (add_or_get q c) d) as [->|[x Hx]]; [by auto|].
    apply atomically_Ok_inv in Hx. destruct (add_or_get_Ok_inv _ _ _ _ _ Hi Hok Hx)
      as [[-> _]|(_ & [cid Hd] & Hi' & Hm)]; [by auto|]. rewrite Hd in *. by auto.
  - destruct (atomically_state (resolve res v now) d) as [->|[x Hx]]; [by auto|].
    destruct (resolve_ok _ _ _ _ _ _ Hi Hok Hx) as [Hi' Hm].
    apply resolve_Ok_inv in Hx as (r & _ & _ & _ & _ & _ & _ & _ & Hd); [|done..]. rewrite Hd in *. by auto.
  - destruct (expire_eq id v now d Hi) as [Heq Hm]. unfold atomically. rewrite Heq.
    destruct (decision_requests d !! id) as [r|]; [|by auto].
    destruct (expirable (dc_request r) v now) eqn:He; [|by auto].
    destruct (Hm r eq_refl He) as [? ?]. by auto.
Qed.

(** What happens to one decision along a history. *)
Definition decision_le (o o' : option DecisionRecordV1) : Prop :=
  match o with
  | None => True
  | Some x => o' = Some x ∨
      (d_status (rec_request x) = PENDING ∧
       ∃ x', o' = Some x' ∧ d_status (rec_request x') ≠ PENDING ∧
         decision_request_id (rec_request x') = decision_request_id (rec_request x) ∧
         d_payload_hash (rec_request x') = d_payload_hash (rec_request x) ∧
         same_identity (rec_request x') (rec_request x) = true ∧
         d_edict_id (rec_request x') = d_edict_id (rec_request x))
  end.

Lemma decision_edge_le now o x : decision_edge now o x → decision_le o (Some x).
Proof.
  destruct 1; cbn; [done| |]; right; (split; [done|]); eexists; (split; [done|]);
    do 3 (split; [done|]); (split; [by apply same_identity_spec|done]).
Qed.

Lemma decision_le_trans o1 o2 o3 : decision_le o1 o2 → decision_le o2 o3 → decision_le o1 o3.
Proof.
  destruct o1 as [x1|]; [|done]. intros [->|(Hp & x2 & -> & Hn & E)] H23; [done|].
  destruct H23 as [->|[Hp2 _]]; [|done]. right. eauto.
Qed.

Lemma decision_steps_ok d d' :
  decision_inv d → rtc decision_step d d' →
  decision_inv d' ∧ same_parents d d' ∧ ∀ id, decision_le (decision_at d id) (decision_at d' id).
Proof.
  intros Hi. induction 1 as [d|d1 d2 d3 (op & Hok & <-) _ IH].
  { split; [done|]. split; [done|]. intros id. destruct (decision_at d id); cbn; auto. }
  destruct (exec_decision_ok op d1 Hi Hok) as (Hi2 & [Hp1 Hp2] & Hm).
  destruct (IH Hi2) as (Hi3 & [Hp3 Hp4] & Hl). split; [done|].
  split; [split; congruence|]. intros id. eapply decision_le_trans; [|apply Hl].
  destruct Hm as [->|[(x & Hx & He) Hother]]; [destruct (decision_at d1 id); cbn; auto|].
  destruct (decide (id = decision_op_id op)) as [->|Hne].
  - rewrite Hx. by eapply decision_edge_le.
  - rewrite Hother by done. destruct (decision_at d1 id); cbn; auto.
Qed.

(** C5. Every repository call on the decision tables, in its transaction, keeps the
    invariant and either changes nothing or moves exactly one decision along an edge of the
    specification at the call's own clock: requested, or settled once from pending at the
    next version, by a resolution made before its deadline or by its expiry after it; every
    other decision reads as before. *)
Theorem decision_calls_refine d op :
  decision_inv d → decision_op_ok op = true →
  let d' := exec_decision op d in
  decision_inv d' ∧
  (d' = d ∨
   (∃ x, get (decision_op_id op) d' = (Ok (Some x), d') ∧
         decision_edge (decision_op_now op) (decision_at d (decision_op_id op)) x) ∧
   ∀ id, id ≠ decision_op_id op → (get id d').1 = (get id d).1).
Proof.
  intros Hi Hok. destruct (exec_decision_ok op d Hi Hok) as (Hi' & _ & Hm). split; [done|].
  destruct Hm as [Hm|[(x & Hx & He) Hother]]; [by left|right]. split.
  - exists x. by rewrite get_eq, Hx.
  - intros id Hne. by rewrite !get_eq, Hother.
Qed.

(** resolve equals its specification on every branch: missing, payload not allowed for the
    kind and action, not pending, stale version, past the deadline, unserialisable payload,
    dated before the request, or settled with exactly the given resolution. *)
Theorem resolve_correct res v now d :
  decision_inv d → resolution_valid res = true →
  atomically (resolve res v now) d = resolve_spec res v now d.
Proof. apply resolve_eq. Qed.

(** A decision that is no longer pending never changes again, whatever calls follow: get
    keeps returning the same record, expire returns None and no resolve succeeds. *)
Theorem settled_decision_final d d' id x :
  decision_inv d → get id d = (Ok (Some x), d) → d_status (rec_request x) ≠ PENDING →
  rtc decision_step d d' →
  get id d' = (Ok (Some x), d') ∧
  (∀ v now, expire id v now d' = (Ok None, d')) ∧
  ∀ res v now y, r_decision_request_id res = id → resolution_valid res = true →
    (resolve res v now d').1 ≠ Ok y.
Proof.
  intros Hi Hg Hn H. destruct (decision_steps_ok _ _ Hi H) as (Hi' & _ & Hl).
  rewrite get_eq in Hg by done. injection Hg as Hg. specialize (Hl id). rewrite Hg in Hl.
  destruct Hl as [Hl|[Hp _]]; [|done]. split; [by rewrite get_eq, Hl|].
  unfold decision_at in Hl. destruct (decision_requests d' !! id) as [r|] eqn:Er; [|done].
  cbn in Hl. injection Hl as Hl. subst x. cbn in Hn. split.
  - intros v now. rewrite (proj1 (expire_eq id v now d' Hi')), Er.
    unfold expirable. by rewrite bool_decide_eq_false_2.
  - intros res v now y Hid Hv Hr.
    assert (Ha : atomically (resolve res v now) d' = (Ok y, (resolve res v now d').2)).
    { apply atomically_Ok. by destruct (resolve res v now d'); cbn in *; subst. }
    apply resolve_Ok_inv in Ha as (r' & Hr' & Hst & _); [|done..]. by simplify_eq.
Qed.

(** A repeated request with the same memorial, kind and key returns the stored decision in
    its current state, however it was settled meanwhile, and changes nothing; with another
    payload hash it raises DecisionIdentityConflict naming the stored request. *)
Theorem add_or_get_idempotent d d1 d2 q1 c1 q2 c2 x cid :
  decision_inv d → decision_valid q1 = true → add_or_get q1 c1 d = (Ok x, d1) →
  rtc decision_step d1 d2 →
  same_identity q1 q2 = true → d_edict_id q2 = d_edict_id q1 →
  d_status q2 = PENDING → d_version q2 = 1 →
  correlation_for_memorial (d_memorial_id q2) c2 d2 = (Ok cid, d2) →
  ∃ rec, get (decision_request_id x) d2 = (Ok (Some rec), d2) ∧
    add_or_get q2 c2 d2 =
      (if bool_decide (d_payload_hash q2 = d_payload_hash q1) then Ok (rec_request rec)
       else Err (ExnWith DecisionIdentityConflict "decision request identity payload hash conflict"
                   (Some (decision_request_id x))), d2).
Proof.
  intros Hi Hval Ha H Hs He Hp2 Hv2 Hc2.
  assert (Hrow : ∃ row, memorials d !! d_memorial_id q1 = Some row ∧ mm_edict_id row = d_edict_id q1).
  { unfold add_or_get in Ha. step_M Ha.
    by apply bind_Ok_inv in Ha as (? & ? & (-> & Hb)%decision_binding_Ok_inv & _). }
  assert (Hstored : decision_inv d1 ∧ memorials d1 = memorials d ∧
    ∃ r, decision_requests d1 !! decision_request_id x = Some r ∧ dc_request r = x ∧
         same_identity x q1 = true ∧ d_payload_hash x = d_payload_hash q1).
  { destruct (add_or_get_Ok_inv _ _ _ _ _ Hi Hval Ha)
      as [(-> & k & r & Hk & Hsr & -> & Hh)|(-> & [c ->] & Hi1 & _)].
    - split; [done|]. split; [done|]. exists r. by rewrite (di_keyed d Hi _ _ Hk).
    - split; [done|]. split; [done|]. eexists. cbn. rewrite lookup_insert_eq.
      split; [done|]. split; [done|]. by rewrite same_identity_refl. }
  destruct Hstored as (Hi1 & Hm1 & r & Hk & <- & Hsr & Hh).
  destruct (decision_steps_ok _ _ Hi1 H) as (Hi2 & [_ Hm2] & Hl).
  specialize (Hl (decision_request_id (dc_request r))). unfold decision_at in Hl at 1.
  rewrite Hk in Hl. cbn in Hl.
  assert (Hend : ∃ r2, decision_requests d2 !! decision_request_id (dc_request r) = Some r2 ∧
    same_identity (dc_request r2) (dc_request r) = true ∧
    d_payload_hash (dc_request r2) = d_payload_hash (dc_request r)).
  { unfold decision_at in Hl. destruct (decision_requests d2 !! _) as [r2|]; cbn in Hl.
    - exists r2. split; [done|]. destruct Hl as [[= Hl _]|(_ & x' & [= <-] & _ & _ & Hpay & Hid & _)]; [|done].
      rewrite Hl. by rewrite same_identity_refl.
    - destruct Hl as [?|(_ & x' & ? & _)]; done. }
  destruct Hend as (r2 & Hk2 & Hs2 & Hh2). exists (record_of d2 r2).
  split; [rewrite get_eq by done; unfold decision_at; by rewrite Hk2|].
  assert (Hmem : d_memorial_id q2 = d_memorial_id q1) by (apply same_identity_spec in Hs as (? & _); done).
  destruct Hrow as (row & Hrow & Hrow').
  rewrite (add_or_get_stored d2 q2 c2 _ r2 row cid Hi2 Hk2); try done.
  - cbn [rec_request record_of]. rewrite Hh2, Hh. repeat case_bool_decide; congruence.
  - apply same_identity_spec in Hs as (? & ? & ?). apply same_identity_spec in Hsr as (? & ? & ?).
    apply same_identity_spec in Hs2 as (? & ? & ?). apply same_identity_spec. intuition congruence.
  - by rewrite Hm2, Hm1, Hmem.
  - congruence.
Qed.

(** The deadline splits the life of a pending decision: from it on expire settles it and
    resolve raises deadline_elapsed; before it expire returns None and a valid resolution
    succeeds. *)
Theorem deadline_decides d id r now :
  decision_inv d → decision_requests d !! id = Some r → d_status (dc_request r) = PENDING →
  let q := dc_request r in
  if d_expires_at q <=? now
  then (expire id (d_version q) now d).1 = Ok (Some (settled q EXPIRED now)) ∧
       ∀ res, r_decision_request_id res = id → resolution_valid res = true →
         resolution_payload_valid (d_kind q) (r_action res) (r_payload res) = true →
         (resolve res (d_version q) now d).1 = Err (Exn DecisionStateConflict "deadline_elapsed")
  else expire id (d_version q) now d = (Ok None, d) ∧
       ∀ res bytes, r_decision_request_id res = id → resolution_valid res = true →
         resolution_payload_valid (d_kind q) (r_action res) (r_payload res) = true →
         canonical_json_bytes (JObj (r_payload res)) = Ok bytes → d_created_at q ≤ resolved_at res →
         (resolve res (d_version q) now d).1 = Ok (resolved_record q res).
Proof.
  intros Hi Hk Hp. cbv zeta.
  assert (Hex : expirable (dc_request r) (d_version (dc_request r)) now = (d_expires_at (dc_request r) <=? now)).
  { unfold expirable. by rewrite Hp, Z.eqb_refl, bool_decide_eq_true_2. }
  assert (Hre : refusal (dc_request r) (d_version (dc_request r)) now =
    if d_expires_at (dc_request r) <=? now then Some "deadline_elapsed" else None).
  { unfold refusal. by rewrite Hp, Z.eqb_refl. }
  assert (Hfst : ∀ (m : M db DecisionRecordV1), (m d).1 = (atomically m d).1).
  { intros m. unfold atomically. by destruct (m d) as [[]]. }
  rewrite (proj1 (expire_eq id (d_version (dc_request r)) now d Hi)), Hk, Hex.
  destruct (d_expires_at (dc_request r) <=? now); (split; [done|]); intros res.
  - intros Hid Hv Hpay. rewrite Hfst, resolve_eq by done. unfold resolve_spec.
    by rewrite Hid, Hk, Hpay, Hre.
  - intros bytes Hid Hv Hpay Hb Ht. rewrite Hfst, resolve_eq by done. unfold resolve_spec.
    rewrite Hid, Hk, Hpay, Hre, Hb. cbn. by rewrite (proj2 (Z.leb_le _ _) Ht).
Qed.

(** ** A concrete decision *)

Module DecisionSample.
Definition payload : list (string * json) := [("tool_name", JStr "web_fetch")].
Definition payload_digest : string :=
  Eval vm_compute in match canonical_sha256 (JObj payload) with Ok h => h | Err _ => "" end.
Definition request (id : string) (created : Z) : DecisionRequestV1 :=
  mkDecision id K_TOOL "e" "m" "call-1" payload payload_digest "agent" 500 PENDING 1 created created.
Definition approval : DecisionResolutionV1 :=
  mkResolution "q1" "approve" "reviewed" [("grant_scope", JStr "once"); ("schema_version", JInt 1)]
    "alice" "Alice" 300.
Definition d0 : db :=
  mkDb {["e" := mkEdictRow "" "goal" "alice" false None None]} {["m" := mkMemorialRow "e" None new_columns]}
    ∅ ∅ ∅ ∅ ∅ ∅ ∅ ∅ ∅ ∅ (mkOrchestration ∅ ∅ ∅).
Definition d1 : db := exec_decision (DecAdd (request "q1" 100) None) d0.
Definition d2 : db := exec_decision (DecResolve approval 1 300) d1.

Lemma decision_inv0 : decision_inv d0.
Proof.
  split; cbn.
  - intros k r H; by rewrite lookup_empty in H.
  - intros k r H; by rewrite lookup_empty in H.
  - intros k r H; by rewrite lookup_empty in H.
  - intros k k' r r' H; by rewrite lookup_empty in H.
  - intros k r H; by rewrite lookup_empty in H.
Qed.
Lemma request_ok1 : decision_valid (request "q1" 100) = true.
Proof. vm_compute. reflexivity. Qed.
Lemma approval_ok : resolution_valid approval = true.
Proof. vm_compute. reflexivity. Qed.
Lemma added : add_or_get (request "q1" 100) None d0 = (Ok (request "q1" 100), d1).
Proof. vm_compute. reflexivity. Qed.
Lemma decision_inv1 : decision_inv d1.
Proof. exact (proj1 (exec_decision_ok (DecAdd (request "q1" 100) None) d0 decision_inv0 request_ok1)). Qed.
Lemma decision_inv2 : decision_inv d2.
Proof. exact (proj1 (exec_decision_ok (DecResolve approval 1 300) d1 decision_inv1 approval_ok)). Qed.
Lemma decision_step12 : rtc decision_step d1 d2.
Proof. apply rtc_once. exists (DecResolve approval 1 300). split; [exact approval_ok|reflexivity]. Qed.
Lemma got2 : get "q1" d2 = (Ok (Some (resolved_record (request "q1" 100) approval)), d2).
Proof. vm_compute. reflexivity. Qed.
Definition row1 : decision_row := mkDecisionRow (request "q1" 100) (Some (legacy_correlation "m")).
Lemma decision_lookup1 : decision_requests d1 !! "q1" = Some row1.
Proof. vm_compute. reflexivity. Qed.
End DecisionSample.

Lemma decision_calls_refine_witness :
  decision_inv (exec_decision (DecResolve DecisionSample.approval 1 300) DecisionSample.d1).
Proof.
  exact (proj1 (decision_calls_refine DecisionSample.d1 (DecResolve DecisionSample.approval 1 300)
    DecisionSample.decision_inv1 DecisionSample.approval_ok)).
Defined.

Lemma resolve_correct_witness :
  (atomically (resolve DecisionSample.approval 1 300) DecisionSample.d1).1 =
    Ok (resolved_record (DecisionSample.request "q1" 100) DecisionSample.approval).
Proof.
  rewrite (resolve_correct DecisionSample.approval 1 300 DecisionSample.d1
    DecisionSample.decision_inv1 DecisionSample.approval_ok). vm_compute. reflexivity.
Defined.

Lemma settled_decision_final_witness :
  expire "q1" 2 900 DecisionSample.d2 = (Ok None, DecisionSample.d2).
Proof.
  assert (Hs : d_status (rec_request
    (resolved_record (DecisionSample.request "q1" 100) DecisionSample.approval)) ≠ PENDING) by discriminate.
  exact (proj1 (proj2 (settled_decision_final _ _ _ _ DecisionSample.decision_inv2 DecisionSample.got2 Hs
    (rtc_refl _ _))) 2 900).
Defined.

Lemma add_or_get_idempotent_witness :
  ∃ rec, add_or_get (DecisionSample.request "q2" 200) None DecisionSample.d2 =
           (Ok (rec_request rec), DecisionSample.d2).
Proof.
  destruct (add_or_get_idempotent _ _ _ _ _ (DecisionSample.request "q2" 200) None _
    (legacy_correlation "m") DecisionSample.decision_inv0 DecisionSample.request_ok1 DecisionSample.added
    DecisionSample.decision_step12 eq_refl eq_refl eq_refl eq_refl eq_refl) as (rec & _ & H).
  exists rec. exact H.
Defined.

Lemma deadline_decides_witness :
  (expire "q1" 1 500 DecisionSample.d1).1 =
    Ok (Some (settled (DecisionSample.request "q1" 100) EXPIRED 500)).
Proof.
  exact (proj1 (deadline_decides DecisionSample.d1 "q1" DecisionSample.row1 500 DecisionSample.decision_inv1
    DecisionSample.decision_lookup1 eq_refl)).
Defined.
