(* ===== verification/SystemAudit.v ===== *)
(** * The system audit chain

    Models src/src/tianshu/models/system_audit.py and
    src/src/tianshu/storage/system_audit_repo.py: an append-only table in
    which every row carries the SHA-256 of its columns and of the hash of the
    row before it.

    The row identifier ([str(ULID())]) and the clock of an append are
    arguments.  Three functions are parameters: [float_of], Python's
    [float()]; [lax_int] and [parse_datetime], pydantic's conversions of a
    float to an integer and of a text to a [datetime]. *)

From stdpp Require Import pretty.
From Stdlib Require Import Sorted.
From S2P Require Import Prelude.
From S2P Require Import Sql.
From S2P Require Import Canonical.
From S2P Require Import JsonParse.
From S2P Require Import Timestamp.
From S2P Require Import SensitivePayload.
From S2P Require Import UnitOfWork.
From S2P Require Import Models.
From S2P Require Import Schema.

(** ** Contracts *)

Definition GENESIS_SYSTEM_AUDIT_HASH : string :=
  "0000000000000000000000000000000000000000000000000000000000000000".
Definition MAX_SYSTEM_AUDIT_PAGE_SIZE : Z := 1000.

Definition system_audit_metadata_keys : list (string * list string) :=
  [("evolution.gate.evaluated", ["blocking_gate_count"; "gate_snapshot_version"]);
   ("evolution.promotion.start_canary", []);
   ("evolution.promotion.promote", []);
   ("evolution.promotion.rollback", []);
   ("skill.candidate.proposed", ["candidate_version"; "source_channel"]);
   ("skill.candidate.staged", ["candidate_version"; "source_channel"]);
   ("auth.token.issued", ["scope_count"; "token_type"]);
   ("auth.token.rotated", ["scope_count"; "token_type"]);
   ("auth.token.revoked", ["family_size"; "token_type"]);
   ("auth.session.denied", ["token_type"]);
   ("auth.session.rotated", ["family_size"]);
   ("auth.session.revoked", ["family_size"]);
   ("estop.engaged", ["frozen_tool_count"; "kill_all"; "network_kill"]);
   ("estop.resumed", ["frozen_tool_count"; "kill_all"; "network_kill"]);
   ("mcp.admission.denied", []);
   ("mcp.config.created", []);
   ("mcp.config.updated", []);
   ("mcp.config.deleted", []);
   ("policy.session_rule_created", []);
   ("policy.session_rule_revoked", []);
   ("secrets.master_key.rotated", []);
   ("decision.request.denied", ["kind"]);
   ("decision.resolve.denied", ["actual_version"; "expected_version"; "kind"; "status"]);
   ("notification.delivery.retry_scheduled", ["attempt_count"; "deadline_expired"; "max_attempts"]);
   ("notification.delivery.dead_lettered", ["attempt_count"; "deadline_expired"; "max_attempts"]);
   ("notification.delivery.delivered", ["attempt_count"; "deadline_expired"; "max_attempts"])].

(** [SYSTEM_AUDIT_METADATA_KEYS.get(action)] *)
Definition allowed_metadata_keys (action : string) : option (list string) :=
  snd <$> find (λ kv : string * list string, bool_decide (kv.1 = action)) system_audit_metadata_keys.

Definition canonical_system_audit_json (payload : json) : result string := canonical_json_bytes payload.
Definition hash_system_audit_payload (payload : json) : result string := canonical_sha256 payload.

Definition non_negative_int (v : json) : bool := match v with JInt z => 0 <=? z | _ => false end.
Definition str_in (v : json) (l : list string) : bool := match v with JStr s => member s l | _ => false end.
Definition is_json_bool (v : json) : bool := match v with JBool _ => true | _ => false end.

(** [_validate_metadata_value]: whether it returns *)
Definition metadata_value_valid (key : string) (v : json) : bool :=
  if bool_decide (key = "token_type") then str_in v ["pat"; "access"; "refresh"]
  else if member key ["blocking_gate_count"; "candidate_version"; "family_size"; "frozen_tool_count";
                      "gate_snapshot_version"; "scope_count"] then non_negative_int v
  else if member key ["attempt_count"; "max_attempts"] then non_negative_int v
  else if bool_decide (key = "deadline_expired") then is_json_bool v
  else if member key ["kill_all"; "network_kill"] then is_json_bool v
  else if member key ["actual_version"; "expected_version"] then non_negative_int v
  else if bool_decide (key = "kind") then
    str_in v ["tool"; "outer_loop"; "plan_review"; "governed_apply"]
  else if bool_decide (key = "status") then
    str_in v ["pending"; "resolved"; "expired"; "cancelled"; "missing"]
  else true.

(** [type(value) in (str, int, bool)] or [None] *)
Definition is_primitive (v : json) : bool :=
  match v with JNull | JBool _ | JInt _ | JStr _ => true | _ => false end.

Record AppendSystemAuditRequest := mkAppendRequest {
  aq_correlation_id : string;
  aq_actor_digest : string;
  aq_action : string;
  aq_outcome : string;
  aq_reason_code : string;
  aq_subject_kind : string;
  aq_subject_digest : string;
  aq_metadata : list (string * json);
}.

Definition outcomes : list string := ["allowed"; "denied"; "succeeded"; "failed"].

(** Field constraints and validators of [AppendSystemAuditRequest]. *)
Definition append_request_valid (q : AppendSystemAuditRequest) : bool :=
  is_identifier (aq_correlation_id q) &&
  hex64 (aq_actor_digest q) && hex64 (aq_subject_digest q) &&
  member (aq_outcome q) outcomes &&
  is_reason_code (aq_reason_code q) && is_reason_code (aq_subject_kind q) &&
  forallb (λ kv : string * json, is_primitive kv.2) (aq_metadata q) &&
  match allowed_metadata_keys (aq_action q) with
  | None => false
  | Some keys =>
      forallb (λ kv : string * json, member kv.1 keys && metadata_value_valid kv.1 kv.2) (aq_metadata q)
  end.

Record SystemAuditEventV1 := mkAuditEvent {
  se_id : string;
  se_sequence : Z;
  se_correlation_id : string;
  se_actor_digest : string;
  se_action : string;
  se_outcome : string;
  se_reason_code : string;
  se_subject_kind : string;
  se_subject_digest : string;
  se_metadata : list (string * json);
  se_previous_hash : string;
  se_event_hash : string;
  se_created_at : Z;
}.

(** Field constraints of [SystemAuditEventV1]; the metadata and the creation
    time are converted before. *)
Definition event_valid (e : SystemAuditEventV1) : bool :=
  (1 <=? se_sequence e) && member (se_outcome e) outcomes &&
  hex64 (se_actor_digest e) && hex64 (se_subject_digest e) &&
  hex64 (se_previous_hash e) && hex64 (se_event_hash e).

Record SystemAuditVerificationV1 := mkVerification {
  vf_verified : bool;
  vf_event_count : Z;
  vf_start_sequence : option Z;
  vf_end_sequence : option Z;
  vf_terminal_hash : string;
  vf_failure_sequence : option Z;
  vf_reason_code : string;
}.

Record SystemAuditExportV1 := mkAuditExport {
  ex_start_sequence : option Z;
  ex_end_sequence : option Z;
  ex_terminal_hash : string;
  ex_events : list SystemAuditEventV1;
}.

(** ** Rows *)

(** [SystemAuditIntegrityError(reason_code, sequence)]: the reason code is
    kept as the message, the sequence as the detail. *)
Definition integrity_error (reason_code : string) (sequence : Z) : exn :=
  ExnWith SystemAuditIntegrityError reason_code (Some (pretty sequence)).

(** [_row_hash_payload]; the column [schema_version] is the constant [1]. *)
Definition row_hash_payload (r : audit_row) : json :=
  JObj [("sequence", JInt (au_sequence r)); ("id", JStr (au_id r)); ("schema_version", JStr "1");
        ("correlation_id", JStr (au_correlation_id r)); ("actor_digest", JStr (au_actor_digest r));
        ("action", JStr (au_action r)); ("outcome", JStr (au_outcome r));
        ("reason_code", JStr (au_reason_code r)); ("subject_kind", JStr (au_subject_kind r));
        ("subject_digest", JStr (au_subject_digest r)); ("metadata_json", JStr (au_metadata_json r));
        ("previous_hash", JStr (au_previous_hash r)); ("created_at", JStr (au_created_at r))].

Section audit_rows.
Context (float_of : string → pyfloat) (lax_int : pyfloat → option Z)
        (parse_datetime : string → option datetime).

(** [dict[str, str | int | bool | None]] *)
Definition metadata_value (v : json) : option json :=
  match v with
  | JFloat f => JInt <$> lax_int f
  | _ => if is_primitive v then Some v else None
  end.
Definition metadata_values (m : list (string * json)) : option (list (string * json)) :=
  mapM (λ kv : string * json, pair kv.1 <$> metadata_value kv.2) m.

(** [_row_to_event] *)
Definition row_to_event (r : audit_row) : result SystemAuditEventV1 :=
  match loads float_of (au_metadata_json r) with
  | Some (JObj m) =>
      match metadata_values m, parse_datetime (au_created_at r) with
      | Some metadata, Some created =>
          match (to_utc created tt).1 with
          | Ok t =>
              let e := mkAuditEvent (au_id r) (au_sequence r) (au_correlation_id r) (au_actor_digest r)
                         (au_action r) (au_outcome r) (au_reason_code r) (au_subject_kind r)
                         (au_subject_digest r) metadata (au_previous_hash r) (au_event_hash r) t in
              if event_valid e then Ok e else Err (Exn ValueError "SystemAuditEventV1 validation failed")
          | Err x => Err x
          end
      | _, _ => Err (Exn ValueError "SystemAuditEventV1 validation failed")
      end
  | Some _ => Err (Exn ValueError "metadata_json must contain an object")
  | None => Err (Exn ValueError "metadata_json is not valid JSON")
  end.

(** [_validate_row] *)
Definition validate_row (r : audit_row) (expected_sequence : Z) (expected_previous_hash : option string) :
    result SystemAuditEventV1 :=
  if negb (au_sequence r =? expected_sequence) then Err (integrity_error "sequence_gap" expected_sequence)
  else if match expected_previous_hash with
          | Some h => negb (bool_decide (au_previous_hash r = h))
          | None => false
          end
  then Err (integrity_error "previous_hash_mismatch" (au_sequence r))
  else match hash_system_audit_payload (row_hash_payload r) with
  | Err x => Err x
  | Ok h =>
      if negb (bool_decide (au_event_hash r = h))
      then Err (integrity_error "event_hash_mismatch" (au_sequence r))
      else match row_to_event r with
      | Ok e => Ok e
      | Err x =>
          if subclass (exn_kind x) ValueError || subclass (exn_kind x) TypeError
          then Err (integrity_error "row_invalid" (au_sequence r)) else Err x
      end
  end.

(** The loop of [_verification]: the events validated so far, and the error
    that stopped it. *)
Fixpoint validate_rows (rows : list audit_row) (expected_sequence : Z) (previous_hash : string)
    (events : list SystemAuditEventV1) : list SystemAuditEventV1 * option exn :=
  match rows with
  | [] => (events, None)
  | r :: rows' =>
      match validate_row r expected_sequence (Some previous_hash) with
      | Ok e => validate_rows rows' (expected_sequence + 1) (se_event_hash e) (events ++ [e])
      | Err x => (events, Some x)
      end
  end.

Definition terminal_hash (events : list SystemAuditEventV1) : string :=
  match last events with Some e => se_event_hash e | None => GENESIS_SYSTEM_AUDIT_HASH end.

(** The [sequence] attribute of a [SystemAuditIntegrityError] raised while
    the row after [events] is validated: the expected sequence. *)
Definition failure_sequence (events : list SystemAuditEventV1) : Z := Z.of_nat (length events) + 1.

(** [_verification] *)
Definition verification (rows : list audit_row) :
    result (SystemAuditVerificationV1 * list SystemAuditEventV1) :=
  let '(events, failure) := validate_rows rows 1 GENESIS_SYSTEM_AUDIT_HASH [] in
  let count := Z.of_nat (length events) in
  let end_sequence := se_sequence <$> last events in
  match failure with
  | None =>
      Ok (mkVerification true count (se_sequence <$> head events) end_sequence (terminal_hash events)
            None "verified", events)
  | Some x =>
      if subclass (exn_kind x) SystemAuditIntegrityError then
        Ok (mkVerification false count (match rows with [] => None | _ => Some 1 end) end_sequence
              (terminal_hash events) (Some (failure_sequence events)) (exn_message x), events)
      else Err x
  end.

(** ** The repository *)

(** [ORDER BY sequence] *)
Definition by_sequence (r r' : audit_row) : bool := au_sequence r <=? au_sequence r'.
(** [ORDER BY sequence DESC] *)
Definition by_sequence_desc (r r' : audit_row) : bool := au_sequence r' <=? au_sequence r.

(** The hash the tail must point to: the genesis hash, or the hash of the
    validated row before it. *)
Definition predecessor_hash (sequence : Z) : M db (option string) :=
  if sequence =? 1 then ret (Some GENESIS_SYSTEM_AUDIT_HASH)
  else if 1 <? sequence then
    let! predecessor := sql_get (Row := audit_row) (sequence - 1) in
    match predecessor with
    | None => of_result (Err (integrity_error "sequence_gap" (sequence - 1)))
    | Some p =>
        let! predecessor_event := of_result (validate_row p (sequence - 1) None) in
        ret (Some (se_event_hash predecessor_event))
    end
  else ret None.

(** The sequence and the previous hash of the next row. *)
Definition next_position : M db (Z * string) :=
  let! rows := sql_select (Row := audit_row) (λ _, true) in
  match head (order_by by_sequence_desc rows) with
  | None => ret (1, GENESIS_SYSTEM_AUDIT_HASH)
  | Some tail =>
      let! expected_previous_hash := predecessor_hash (au_sequence tail) in
      let! tail_event := of_result (validate_row tail (au_sequence tail) expected_previous_hash) in
      ret (au_sequence tail + 1, se_event_hash tail_event)
  end.

(** [_append_system_audit_unlocked] *)
Definition append_system_audit_unlocked (new_id : string) (now : Z) (request : AppendSystemAuditRequest) :
    M db SystemAuditEventV1 :=
  let! tail := next_position in
  let '(sequence, previous_hash) := tail in
  let! metadata_json := of_result (canonical_system_audit_json (JObj (aq_metadata request))) in
  let payload := λ event_hash,
    mkAuditRow sequence new_id (aq_correlation_id request) (aq_actor_digest request) (aq_action request)
      (aq_outcome request) (aq_reason_code request) (aq_subject_kind request) (aq_subject_digest request)
      metadata_json previous_hash event_hash (isoformat now) in
  let! event_hash := of_result (hash_system_audit_payload (row_hash_payload (payload ""))) in
  sql_insert (Row := audit_row) sequence (payload event_hash) ;;;
  let! row := sql_get (Row := audit_row) sequence in
  match row with
  | None => of_result (Err (integrity_error "append_missing" sequence))
  | Some r => of_result (validate_row r sequence (Some previous_hash))
  end.

(** [append_system_audit]: one immediate transaction, committed on return *)
Definition append_system_audit (new_id : string) (now : Z) (request : AppendSystemAuditRequest) :
    M db SystemAuditEventV1 :=
  atomically (append_system_audit_unlocked new_id now request).

Definition verified_or_raise (v : SystemAuditVerificationV1) : M db unit :=
  if vf_verified v then ret tt
  else of_result (Err (integrity_error (vf_reason_code v) (default 1 (vf_failure_sequence v)))).

(** The hash the page after [after] must continue: the whole prefix is
    verified and must end at [after]. *)
Definition anchor_hash (after : Z) : M db string :=
  if 0 <? after then
    let! prefix_rows := sql_select (Row := audit_row) (λ r, au_sequence r <=? after) in
    let! checked := of_result (verification (order_by by_sequence prefix_rows)) in
    let '(v, prefix) := checked in
    verified_or_raise v ;;;
    match last prefix with
    | Some e =>
        if se_sequence e =? after then ret (se_event_hash e)
        else of_result (Err (integrity_error "missing_anchor" after))
    | None => of_result (Err (integrity_error "missing_anchor" after))
    end
  else ret GENESIS_SYSTEM_AUDIT_HASH.

(** [list_system_audit] *)
Definition list_system_audit (after limit : Z) : M db (list SystemAuditEventV1) :=
  guard (0 <=? after) ValueError "after must be a non-negative integer" ;;;
  guard ((1 <=? limit) && (limit <=? MAX_SYSTEM_AUDIT_PAGE_SIZE)) ValueError
    "limit must be between 1 and 1000" ;;;
  let! previous_hash := anchor_hash after in
  let! rows := sql_select (Row := audit_row) (λ r, after <? au_sequence r) in
  let '(events, failure) :=
    validate_rows (take (Z.to_nat limit) (order_by by_sequence rows)) (after + 1) previous_hash [] in
  match failure with
  | Some x => of_result (Err x)
  | None => ret events
  end.

(** [export_system_audit] *)
Definition export_system_audit : M db SystemAuditExportV1 :=
  let! rows := sql_select (Row := audit_row) (λ _, true) in
  let! checked := of_result (verification (order_by by_sequence rows)) in
  let '(v, events) := checked in
  verified_or_raise v ;;;
  ret (mkAuditExport (vf_start_sequence v) (vf_end_sequence v) (vf_terminal_hash v) events).

(** [verify_system_audit] *)
Definition verify_system_audit : M db SystemAuditVerificationV1 :=
  let! rows := sql_select (Row := audit_row) (λ _, true) in
  let! checked := of_result (verification (order_by by_sequence rows)) in
  ret checked.1.

(** ** Validated chains *)

(** The rows of the table in sequence order. *)
Definition audit_log (d : db) : list audit_row :=
  order_by by_sequence (where_rows (λ _, true) (system_audit_events d)).

(** [events] are what validating [rows] from [n] and [prev] gives. *)
Fixpoint chained (n : Z) (prev : string) (rows : list audit_row) (events : list SystemAuditEventV1) : Prop :=
  match rows, events with
  | [], [] => True
  | r :: rows', e :: events' =>
      validate_row r n (Some prev) = Ok e ∧ chained (n + 1) (se_event_hash e) rows' events'
  | _, _ => False
  end.

Lemma validate_row_Ok_inv r n prev e :
  validate_row r n prev = Ok e →
  au_sequence r = n ∧ (∀ h, prev = Some h → au_previous_hash r = h) ∧
  canonical_sha256 (row_hash_payload r) = Ok (au_event_hash r) ∧ row_to_event r = Ok e ∧
  se_event_hash e = au_event_hash r ∧ se_sequence e = n ∧ hex64 (au_event_hash r) = true.
Proof.
  unfold validate_row, hash_system_audit_payload. intros H.
  destruct (au_sequence r =? n) eqn:En; [|done]. cbn [negb] in H. bools.
  destruct (match prev with Some h => _ | None => _ end) eqn:Ep; [done|].
  destruct (canonical_sha256 _) as [h|]; [|done].
  destruct (bool_decide (au_event_hash r = h)) eqn:Eh; [|done]. cbn [negb] in H. bools. subst h.
  destruct (row_to_event r) as [e'|] eqn:Ee; [|by case_match]. injection H as ->.
  split; [done|]. split; [intros h' ->; by bools|]. split; [done|]. split; [done|].
  unfold row_to_event in Ee. repeat case_match; simplify_eq;
    unfold event_valid in *; cbn in *; bools; auto.
Qed.

Lemma validate_rows_chained rows n prev acc events :
  validate_rows rows n prev acc = (events, None) ↔ ∃ es, events = acc ++ es ∧ chained n prev rows es.
Proof.
  revert n prev acc. induction rows as [|r rows IH]; intros n prev acc; cbn.
  - split; [intros [= ->]; exists []; by rewrite app_nil_r|].
    intros ([|] & -> & ?); [by rewrite app_nil_r|done].
  - destruct (validate_row r n (Some prev)) as [e|x] eqn:E.
    + rewrite IH. split.
      * intros (es & -> & H). exists (e :: es). by rewrite <-app_assoc.
      * intros ([|e' es] & -> & H); [done|]. destruct H as [[= <-] H]. exists es. by rewrite <-app_assoc.
    + split; [done|]. intros ([|e' es] & -> & H); [done|]. by destruct H as [? _].
Qed.

Lemma verification_chained rows v events :
  verification rows = Ok (v, events) → vf_verified v = true →
  chained 1 GENESIS_SYSTEM_AUDIT_HASH rows events ∧ vf_terminal_hash v = terminal_hash events ∧
  vf_event_count v = Z.of_nat (length rows).
Proof.
  unfold verification. destruct (validate_rows rows 1 _ []) as [es failure] eqn:E. intros H Hv.
  destruct failure as [x|]; [destruct (subclass _ _); simplify_eq; done|]. injection H as <- <-.
  apply validate_rows_chained in E as (es' & -> & Hc). cbn. split; [done|]. split; [done|].
  clear Hv. f_equal. revert Hc. generalize 1 GENESIS_SYSTEM_AUDIT_HASH. clear. revert es'.
  induction rows as [|r rows IH]; intros [|e es] n p; cbn; try done. intros [_ Hc]. f_equal. by eapply IH.
Qed.

Lemma chained_verification rows events :
  chained 1 GENESIS_SYSTEM_AUDIT_HASH rows events →
  verification rows =
    Ok (mkVerification true (Z.of_nat (length events)) (se_sequence <$> head events)
          (se_sequence <$> last events) (terminal_hash events) None "verified", events).
Proof.
  intros Hc. unfold verification.
  rewrite (proj2 (validate_rows_chained rows 1 _ [] events)) by eauto. done.
Qed.

Lemma chained_app n prev rows1 rows2 es1 es2 :
  length rows1 = length es1 →
  chained n prev (rows1 ++ rows2) (es1 ++ es2) ↔
  chained n prev rows1 es1 ∧
  chained (n + Z.of_nat (length es1)) (default prev (se_event_hash <$> last es1)) rows2 es2.
Proof.
  revert n prev es1. induction rows1 as [|r rows1 IH]; intros n prev [|e es1]; cbn [length]; try done.
  - intros _. cbn. rewrite Z.add_0_r. tauto.
  - intros [= Hl]. cbn [app chained]. rewrite IH by done.
    replace (n + Z.of_nat (S (length es1))) with (n + 1 + Z.of_nat (length es1)) by lia.
    assert (default prev (se_event_hash <$> last (e :: es1)) =
            default (se_event_hash e) (se_event_hash <$> last es1)) as -> by (by destruct es1 as [|? ? _] using rev_ind; rewrite ?last_snoc, ?last_cons, ?last_snoc).
    tauto.
Qed.

(** ** Tamper evidence *)

(** Two different rows of the two lists with the same hash: their payloads
    are different texts with the same SHA-256. *)
Definition colliding (rows rows' : list audit_row) : Prop :=
  ∃ r r' b b', r ∈ rows ∧ r' ∈ rows' ∧
    canonical_json_bytes (row_hash_payload r) = Ok b ∧ canonical_json_bytes (row_hash_payload r') = Ok b' ∧
    b ≠ b' ∧ Sha256.hexdigest b = Sha256.hexdigest b'.
(** A row whose hash is the all-zero starting value. *)
Definition hits_genesis (rows : list audit_row) : Prop :=
  ∃ r, r ∈ rows ∧ canonical_sha256 (row_hash_payload r) = Ok GENESIS_SYSTEM_AUDIT_HASH.

Lemma row_hash_payload_inj r r' :
  sort_keys (row_hash_payload r) = sort_keys (row_hash_payload r') → au_event_hash r = au_event_hash r' →
  r = r'.
Proof. destruct r, r'. cbn. intros H ->. vm_compute in H. by simplify_eq. Qed.

Lemma row_hash_payload_bytes r : ∃ b, canonical_json_bytes (row_hash_payload r) = Ok b.
Proof. eexists. reflexivity. Qed.

(** Rows with the same hash are the same row, or their payloads collide. *)
Lemma same_hash_same_row r r' :
  canonical_sha256 (row_hash_payload r) = Ok (au_event_hash r) →
  canonical_sha256 (row_hash_payload r') = Ok (au_event_hash r') →
  au_event_hash r = au_event_hash r' → r = r' ∨ colliding [r] [r'].
Proof.
  destruct (row_hash_payload_bytes r) as [b Hb], (row_hash_payload_bytes r') as [b' Hb'].
  unfold canonical_sha256. rewrite Hb, Hb'. intros [= H1] [= H2] He.
  destruct (decide (b = b')) as [->|Hne].
  - left. apply row_hash_payload_inj; [|done].
    by apply (canonical_bytes_inj (λ _, None) _ _ b').
  - right. exists r, r', b, b'. rewrite !list_elem_of_singleton. do 5 (split; [done|]). congruence.
Qed.

Lemma colliding_mono l1 l1' l2 l2' : l1 ⊆ l2 → l1' ⊆ l2' → colliding l1 l1' → colliding l2 l2'.
Proof. intros H H' (r & r' & b & b' & Hr & Hr' & Hrest). exists r, r', b, b'. auto. Qed.

Lemma chained_length n prev rows es : chained n prev rows es → length rows = length es.
Proof.
  revert n prev es. induction rows as [|r rows IH]; intros n prev [|e es]; cbn; try done.
  intros [_ H]. f_equal. by eapply IH.
Qed.

(** The last row of a chain, and the chain before it. *)
Lemma chained_snoc rows r es :
  chained 1 GENESIS_SYSTEM_AUDIT_HASH (rows ++ [r]) es →
  ∃ es' e, es = es' ++ [e] ∧ chained 1 GENESIS_SYSTEM_AUDIT_HASH rows es' ∧
    validate_row r (1 + Z.of_nat (length rows)) (Some (terminal_hash es')) = Ok e.
Proof.
  intros H. pose proof (chained_length _ _ _ _ H) as Hl. rewrite length_app in Hl. cbn in Hl.
  destruct es as [|e es' _] using rev_ind; [cbn in Hl; lia|]. rewrite length_app in Hl. cbn in Hl.
  apply chained_app in H as [H1 H2]; [|lia]. exists es', e. split; [done|]. split; [done|].
  destruct H2 as [H2 _]. replace (length rows) with (length es') by lia. rewrite <-H2.
  unfold terminal_hash. by destruct (last es').
Qed.

Lemma terminal_hash_snoc es e : terminal_hash (es ++ [e]) = se_event_hash e.
Proof. unfold terminal_hash. by rewrite last_snoc. Qed.

Lemma chained_tamper rows rows' es es' :
  chained 1 GENESIS_SYSTEM_AUDIT_HASH rows es → chained 1 GENESIS_SYSTEM_AUDIT_HASH rows' es' →
  terminal_hash es = terminal_hash es' →
  rows = rows' ∨ colliding rows rows' ∨ hits_genesis (rows ++ rows').
Proof.
  revert rows' es es'. induction rows as [|r rows IH] using rev_ind; intros rows' es es' H H' Ht.
  - destruct rows' as [|r' rows' _] using rev_ind; [by left|]. right; right.
    apply chained_snoc in H' as (fs & f & -> & _ & Hf). destruct es; [|done].
    rewrite terminal_hash_snoc in Ht. apply validate_row_Ok_inv in Hf as (_ & _ & Hh & _ & Hfe & _).
    exists r'. split; [clear; set_solver|]. rewrite Hh. unfold terminal_hash in Ht. cbn in Ht. congruence.
  - apply chained_snoc in H as (fs & f & -> & Hc & Hf). rewrite terminal_hash_snoc in Ht.
    apply validate_row_Ok_inv in Hf as (_ & Hp & Hh & _ & Hfe & _). specialize (Hp _ eq_refl).
    destruct rows' as [|r' rows' _] using rev_ind.
    { right; right. destruct es'; [|done]. exists r. split; [clear; set_solver|]. rewrite Hh.
      unfold terminal_hash in Ht. cbn in Ht. congruence. }
    apply chained_snoc in H' as (fs' & f' & -> & Hc' & Hf'). rewrite terminal_hash_snoc in Ht.
    apply validate_row_Ok_inv in Hf' as (_ & Hp' & Hh' & _ & Hfe' & _). specialize (Hp' _ eq_refl).
    destruct (same_hash_same_row r r' Hh Hh' ltac:(congruence)) as [<-|Hcol].
    + destruct (IH rows' fs fs' Hc Hc' ltac:(congruence)) as [->|[Hcol|(x & Hx & Hg)]]; [by left|right; left|right; right].
      * eapply colliding_mono; [..|exact Hcol]; clear; set_solver.
      * exists x. split; [clear -Hx; set_solver|exact Hg].
    + right; left. eapply colliding_mono; [..|exact Hcol]; clear; set_solver.
Qed.

(** C23. Tamper evidence: two audit logs that both verify and end in the same hash are row
    for row equal, or exhibit a SHA-256 collision between two of their rows, or a row whose
    hash is the genesis constant. *)
Theorem audit_tamper_evident rows rows' v v' es es' :
  verification rows = Ok (v, es) → verification rows' = Ok (v', es') →
  vf_verified v = true → vf_verified v' = true → vf_terminal_hash v = vf_terminal_hash v' →
  rows = rows' ∨ colliding rows rows' ∨ hits_genesis (rows ++ rows').
Proof.
  intros H H' Hv Hv' Ht. apply verification_chained in H as (Hc & E & _); [|done].
  apply verification_chained in H' as (Hc' & E' & _); [|done]. eapply chained_tamper; [done|done|congruence].
Qed.

(** ** Appending *)

#[local] Opaque Sha256.hexdigest.

(** A table that holds a verified chain of [events]. *)
Record audit_inv (d : db) (events : list SystemAuditEventV1) : Prop := {
  ai_keyed : ∀ k r, system_audit_events d !! k = Some r → au_sequence r = k;
  ai_chain : chained 1 GENESIS_SYSTEM_AUDIT_HASH (audit_log d) events;
}.

Lemma elem_of_audit_log d r : r ∈ audit_log d ↔ ∃ k, system_audit_events d !! k = Some r.
Proof. unfold audit_log. rewrite elem_of_order_by, elem_of_where_rows. naive_solver. Qed.

Lemma by_sequence_sorted l : StronglySorted (λ a b, by_sequence a b = true) (order_by by_sequence l).
Proof.
  apply order_by_sorted; unfold by_sequence.
  - intros x y. rewrite !Z.leb_le. lia.
  - intros x y z. rewrite !Z.leb_le. lia.
Qed.

(** The row at position [i] of a chain that starts at [n]. *)
Lemma chained_lookup n prev rows es i r :
  chained n prev rows es → rows !! i = Some r →
  ∃ e, es !! i = Some e ∧
    validate_row r (n + Z.of_nat i) (Some (match i with
                                           | O => prev
                                           | S j => default prev (se_event_hash <$> es !! j)
                                           end)) = Ok e.
Proof.
  revert n prev es i. induction rows as [|x rows IH]; intros n prev [|e es] [|i] H Hi; try done.
  - cbn in Hi. injection Hi as <-. exists e. split; [done|]. rewrite Z.add_0_r. apply H.
  - destruct H as [_ H]. cbn in Hi. destruct (IH _ _ _ _ H Hi) as (e' & He & Hv). exists e'. split; [done|].
    replace (n + Z.of_nat (S i)) with (n + 1 + Z.of_nat i) by lia. rewrite <-Hv. do 2 f_equal.
    destruct i as [|i]; [done|]. cbn. destruct (es !! i) eqn:E; [done|].
    apply lookup_ge_None in E. apply chained_length in H. apply lookup_lt_Some in Hi. lia.
Qed.

Lemma chained_sequence n prev rows es i r :
  chained n prev rows es → rows !! i = Some r → au_sequence r = n + Z.of_nat i.
Proof. intros H Hi. destruct (chained_lookup _ _ _ _ _ _ H Hi) as (e & _ & Hv). by apply validate_row_Ok_inv in Hv as [? _]. Qed.

Lemma chained_keys n prev rows es : chained n prev rows es → NoDup (au_sequence <$> rows).
Proof.
  intros H. apply NoDup_alt. intros i j x Hi Hj. rewrite list_lookup_fmap in Hi, Hj.
  apply fmap_Some in Hi as (r & Hi & ->). apply fmap_Some in Hj as (r' & Hj & E).
  rewrite (chained_sequence _ _ _ _ _ _ H Hi), (chained_sequence _ _ _ _ _ _ H Hj) in E. lia.
Qed.

(** Any sorted arrangement of the same rows is the log. *)
Lemma audit_log_unique d es l :
  audit_inv d es → l ≡ₚ (map_to_list (system_audit_events d)).*2 →
  StronglySorted (λ a b, by_sequence a b = true) l → audit_log d = l.
Proof.
  intros Hi Hp Hs. apply (sorted_perm_unique au_sequence); [apply by_sequence_sorted|done| |].
  - unfold audit_log. by rewrite order_by_perm, Hp, where_all.
  - eapply chained_keys, (ai_chain d es Hi).
Qed.

(** The row of [ORDER BY sequence DESC LIMIT 1] is the last of the log. *)
Lemma tail_is_last d es :
  audit_inv d es →
  head (order_by by_sequence_desc (where_rows (λ _, true) (system_audit_events d))) = last (audit_log d).
Proof.
  intros Hi. pose proof (ai_chain d es Hi) as Hc.
  assert (Hp : order_by by_sequence_desc (where_rows (λ _, true) (system_audit_events d)) ≡ₚ audit_log d).
  { unfold audit_log. by rewrite !order_by_perm. }
  assert (Hs : StronglySorted (λ a b, by_sequence_desc a b = true)
    (order_by by_sequence_desc (where_rows (λ _, true) (system_audit_events d)))).
  { apply order_by_sorted; unfold by_sequence_desc; intros *; rewrite !Z.leb_le; lia. }
  destruct Hs as [|r l _ Hall].
  - apply Permutation_nil in Hp. by rewrite Hp.
  - cbn. destruct (last (audit_log d)) as [r'|] eqn:El;
      [|apply last_None in El; rewrite El in Hp; by apply Permutation_nil_r in Hp].
    f_equal. rewrite last_lookup in El.
    assert (Hr : r ∈ audit_log d) by (rewrite <-Hp; left).
    assert (Hr' : r' ∈ r :: l) by (rewrite Hp; by eapply list_elem_of_lookup_2).
    apply list_elem_of_lookup in Hr as [i Hi'].
    pose proof (chained_sequence _ _ _ _ _ _ Hc Hi') as S1. pose proof (chained_sequence _ _ _ _ _ _ Hc El) as S2.
    apply lookup_lt_Some in Hi' as Hlt.
    apply elem_of_cons in Hr' as [->|Hr']; [done|]. rewrite Forall_forall in Hall. specialize (Hall _ Hr').
    unfold by_sequence_desc in Hall. bools. assert (i = pred (length (audit_log d))) as -> by lia. congruence.
Qed.

Lemma validate_row_weaken r n h e : validate_row r n (Some h) = Ok e → validate_row r n None = Ok e.
Proof.
  unfold validate_row. destruct (negb (au_sequence r =? n)); [done|].
  by destruct (negb (bool_decide (au_previous_hash r = h))).
Qed.

(** The event that an append to the chain [events] creates, and its row. *)
Definition new_row (new_id : string) (now : Z) (q : AppendSystemAuditRequest) (metadata_json : string)
    (events : list SystemAuditEventV1) (event_hash : string) : audit_row :=
  mkAuditRow (Z.of_nat (length events) + 1) new_id (aq_correlation_id q) (aq_actor_digest q) (aq_action q)
    (aq_outcome q) (aq_reason_code q) (aq_subject_kind q) (aq_subject_digest q) metadata_json
    (terminal_hash events) event_hash (isoformat now).
Definition new_event (new_id : string) (now : Z) (q : AppendSystemAuditRequest)
    (events : list SystemAuditEventV1) (event_hash : string) : SystemAuditEventV1 :=
  mkAuditEvent new_id (Z.of_nat (length events) + 1) (aq_correlation_id q) (aq_actor_digest q) (aq_action q)
    (aq_outcome q) (aq_reason_code q) (aq_subject_kind q) (aq_subject_digest q)
    (order_by key_le (aq_metadata q)) (terminal_hash events) event_hash now.

(** An append finds the position and the hash to extend. *)
Lemma next_position_eq d es :
  audit_inv d es → next_position d = (Ok (Z.of_nat (length es) + 1, terminal_hash es), d).
Proof.
  intros Hi. pose proof (ai_chain d es Hi) as Hc. pose proof (chained_length _ _ _ _ Hc) as Hl.
  unfold next_position. rewrite bind_sql_select. cbn [tbl audit_table]. rewrite (tail_is_last d es Hi).
  assert (Hin : ∀ r, r ∈ audit_log d → system_audit_events d !! au_sequence r = Some r).
  { intros r Hr. apply elem_of_audit_log in Hr as [k Hk]. by rewrite (ai_keyed d es Hi _ _ Hk). }
  destruct (audit_log d) as [|r rows _] using rev_ind; [by destruct es|].
  rewrite last_snoc. destruct (chained_snoc rows r es Hc) as (es' & e & -> & Hc' & Hv).
  pose proof (validate_row_Ok_inv _ _ _ _ Hv) as (Hseq & _). rewrite Hseq.
  assert (Hprev : predecessor_hash (1 + Z.of_nat (length rows)) d = (Ok (Some (terminal_hash es')), d)).
  { destruct rows as [|p rows _] using rev_ind; [by destruct es'|]. unfold predecessor_hash.
    rewrite length_app. cbn [length]. rewrite (proj2 (Z.eqb_neq _ _)), (proj2 (Z.ltb_lt _ _)) by lia.
    destruct (chained_snoc rows p es' Hc') as (es2 & e2 & -> & _ & Hv2).
    pose proof (validate_row_Ok_inv _ _ _ _ Hv2) as (Hseq2 & _).
    replace (1 + Z.of_nat (length rows + 1) - 1) with (1 + Z.of_nat (length rows)) by lia.
    rewrite bind_sql_get. cbn [tbl audit_table]. rewrite <-Hseq2, (Hin p) by (clear; set_solver). rewrite Hseq2.
    unfold of_result, bind. rewrite (validate_row_weaken _ _ _ _ Hv2). by rewrite terminal_hash_snoc. }
  rewrite (bind_Ok _ _ _ _ _ Hprev). unfold of_result, bind. rewrite Hv. unfold ret.
  rewrite terminal_hash_snoc. pose proof (chained_length _ _ _ _ Hc') as Hl'. rewrite !length_app. cbn [length].
  repeat f_equal. lia.
Qed.

Lemma terminal_hash_hex64 d es : audit_inv d es → hex64 (terminal_hash es) = true.
Proof.
  intros Hi. pose proof (ai_chain d es Hi) as Hc.
  destruct (audit_log d) as [|r rows _] using rev_ind; [by destruct es|].
  apply chained_snoc in Hc as (es' & e & -> & _ & Hv). rewrite terminal_hash_snoc.
  by apply validate_row_Ok_inv in Hv as (_ & _ & _ & _ & -> & _ & ?).
Qed.

(** *** The stored metadata is read back *)

Lemma primitive_metadata m :
  forallb (λ kv : string * json, is_primitive kv.2) m = true →
  prod_map id sort_keys <$> m = m ∧ all_finite (JObj m) = true ∧
  (NoDup m.*1 → loadable float_of (JObj m) = true) ∧ metadata_values m = Some m.
Proof.
  induction m as [|[k v] m IH]; cbn; [auto|]. intros [Hv Hm]%andb_true_iff.
  destruct (IH Hm) as (E1 & E2 & E3 & E4). cbn in E2, E3.
  assert (Hval : sort_keys v = v ∧ all_finite v = true ∧ loadable float_of v = true ∧ metadata_value v = Some v)
    by (destruct v as [|[]| | | | |]; done).
  destruct Hval as (-> & -> & -> & Hmv). split; [by rewrite E1|]. split; [done|]. split.
  - intros Hn. apply andb_true_iff. split; [by apply bool_decide_eq_true|].
    apply NoDup_cons in Hn as [_ Hn]. specialize (E3 Hn). by bools.
  - unfold metadata_values. cbn. rewrite Hmv. cbn. fold (metadata_values m). by rewrite E4.
Qed.

Lemma stored_metadata_read_back m :
  forallb (λ kv : string * json, is_primitive kv.2) m = true → NoDup m.*1 →
  ∃ b, canonical_json_bytes (JObj m) = Ok b ∧ loads float_of b = Some (JObj (order_by key_le m)) ∧
       metadata_values (order_by key_le m) = Some (order_by key_le m).
Proof.
  intros Hm Hn. destruct (primitive_metadata m Hm) as (E1 & E2 & E3 & _).
  destruct (canonical_json_bytes (JObj m)) as [b|] eqn:Hb; [|unfold canonical_json_bytes in Hb; by rewrite E2 in Hb].
  exists b. split; [done|]. split.
  - rewrite (loads_canonical float_of _ b (E3 Hn) Hb). cbn. by rewrite E1.
  - apply primitive_metadata. by rewrite (forallb_perm _ _ _ (order_by_perm key_le m)).
Qed.

(** The row an append writes validates as the event it returns. *)
Lemma new_row_valid d es new_id now q mj h :
  audit_inv d es → append_request_valid q = true → representable now = true →
  parse_datetime (isoformat now) = Some (utc_at now) →
  loads float_of mj = Some (JObj (order_by key_le (aq_metadata q))) →
  metadata_values (order_by key_le (aq_metadata q)) = Some (order_by key_le (aq_metadata q)) →
  canonical_sha256 (row_hash_payload (new_row new_id now q mj es "")) = Ok h →
  validate_row (new_row new_id now q mj es h) (Z.of_nat (length es) + 1) (Some (terminal_hash es)) =
    Ok (new_event new_id now q es h).
Proof.
  intros Hi Hq Hr Hp Hl Hm Hh. pose proof (terminal_hash_hex64 d es Hi) as Ht.
  assert (Hh64 : hex64 h = true).
  { unfold canonical_sha256 in Hh. destruct (canonical_json_bytes _); [|done]. injection Hh as <-.
    apply hexdigest_hex64. }
  unfold validate_row, hash_system_audit_payload.
  change (row_hash_payload (new_row new_id now q mj es h)) with (row_hash_payload (new_row new_id now q mj es "")).
  cbn [au_sequence au_previous_hash au_event_hash new_row]. rewrite Z.eqb_refl, Hh.
  rewrite !bool_decide_eq_true_2 by done. cbn [negb].
  unfold row_to_event. cbn [au_metadata_json au_created_at new_row]. rewrite Hl, Hm, Hp.
  unfold representable in Hr. bools. rewrite to_utc_utc_at by done. cbn [fst].
  fold (new_event new_id now q es h). unfold append_request_valid in Hq. bools.
  assert (Hev : event_valid (new_event new_id now q es h) = true).
  { unfold event_valid. cbn. bools_goal; try done. lia. }
  cbn. unfold new_event in Hev. by rewrite Hev.
Qed.

(** The insert succeeds unless the hash is already taken. *)
Lemma new_row_insert d es new_id now q mj h :
  audit_inv d es → append_request_valid q = true → hex64 h = true →
  (∀ r, r ∈ audit_log d → au_id r ≠ new_id) →
  let R := new_row new_id now q mj es h in
  sql_insert (au_sequence R) R d =
    if bool_decide (h ∈ au_event_hash <$> audit_log d) then (Err (Exn IntegrityError "constraint failed"), d)
    else (Ok tt, set_system_audit_events (<[au_sequence R := R]> (system_audit_events d)) d).
Proof.
  intros Hi Hq Hh Hid. cbv zeta. set (R := new_row new_id now q mj es h).
  pose proof (ai_chain d es Hi) as Hc. pose proof (chained_length _ _ _ _ Hc) as Hl.
  assert (Hfree : system_audit_events d !! au_sequence R = None).
  { destruct (system_audit_events d !! au_sequence R) as [r|] eqn:E; [|done].
    assert (Hr : r ∈ audit_log d) by (apply elem_of_audit_log; eauto).
    apply list_elem_of_lookup in Hr as [i Hr]. pose proof (chained_sequence _ _ _ _ _ _ Hc Hr) as Hs.
    rewrite (ai_keyed d es Hi _ _ E) in Hs. apply lookup_lt_Some in Hr. cbn in Hs. lia. }
  assert (Hlen : ∀ s, hex64 s = true → bool_decide (String.length s = 64%nat) = true)
    by (intros s Hs; unfold hex64 in Hs; bools; by apply bool_decide_eq_true).
  assert (Hcheck : audit_row_check d R = true).
  { unfold append_request_valid in Hq. bools. unfold audit_row_check. subst R. cbn.
    rewrite (proj2 (Z.ltb_lt _ _)) by lia. rewrite !Hlen by (done || by eapply terminal_hash_hex64).
    rewrite andb_true_r. cbn. by rewrite !andb_true_r. }
  unfold sql_insert. cbn [tbl audit_table row_check set_tbl]. rewrite Hfree, Hcheck.
  assert (Hu : unique_ok (system_audit_events d) (au_sequence R) R =
    negb (bool_decide (h ∈ au_event_hash <$> audit_log d))).
  { apply eq_bool_prop_intro. rewrite !Is_true_true, unique_ok_spec, negb_true_iff, bool_decide_eq_false. split.
    - intros H (r & -> & Hr)%list_elem_of_fmap. pose proof Hr as Hr'. apply elem_of_audit_log in Hr as [k Hk].
      specialize (H k r Hk ltac:(congruence)). cbn in H. bools. subst R. by cbn in *.
    - intros H k r Hk _. assert (Hr : r ∈ audit_log d) by (apply elem_of_audit_log; eauto). cbn.
      apply orb_false_iff. split; apply bool_decide_eq_false.
      + intros E. by apply (Hid r Hr).
      + intros E. apply H, list_elem_of_fmap. exists r. split; [by subst R|done]. }
  cbn [andb]. rewrite Hu. by destruct (bool_decide (h ∈ _)).
Qed.

(** The log after the insert. *)
Lemma new_row_log d es new_id now q mj h :
  audit_inv d es →
  let R := new_row new_id now q mj es h in
  let d' := set_system_audit_events (<[au_sequence R := R]> (system_audit_events d)) d in
  validate_row R (Z.of_nat (length es) + 1) (Some (terminal_hash es)) = Ok (new_event new_id now q es h) →
  audit_log d' = audit_log d ++ [R] ∧ audit_inv d' (es ++ [new_event new_id now q es h]).
Proof.
  intros Hi. cbv zeta. set (R := new_row new_id now q mj es h). intros Hv.
  pose proof (ai_chain d es Hi) as Hc. pose proof (chained_length _ _ _ _ Hc) as Hl.
  assert (Hmax : ∀ r, r ∈ audit_log d → au_sequence r < au_sequence R).
  { intros r [i Hr]%list_elem_of_lookup. rewrite (chained_sequence _ _ _ _ _ _ Hc Hr).
    apply lookup_lt_Some in Hr. cbn. lia. }
  assert (Hfree : system_audit_events d !! au_sequence R = None).
  { destruct (system_audit_events d !! au_sequence R) as [r|] eqn:E; [|done].
    assert (Hr : r ∈ audit_log d) by (apply elem_of_audit_log; eauto).
    apply Hmax in Hr. rewrite (ai_keyed d es Hi _ _ E) in Hr. lia. }
  assert (Hchain : chained 1 GENESIS_SYSTEM_AUDIT_HASH (audit_log d ++ [R]) (es ++ [new_event new_id now q es h])).
  { apply chained_app; [done|]. split; [done|]. split; [|done]. rewrite <-Hv.
    replace (1 + Z.of_nat (length es)) with (Z.of_nat (length es) + 1) by lia. do 2 f_equal.
    unfold terminal_hash. by destruct (last es). }
  assert (Hperm : audit_log (set_system_audit_events (<[au_sequence R := R]> (system_audit_events d)) d) ≡ₚ
    audit_log d ++ [R]).
  { unfold audit_log at 1. cbn [system_audit_events set_system_audit_events].
    rewrite order_by_perm, where_all, map_to_list_insert by done.
    unfold audit_log. rewrite order_by_perm, where_all. cbn [fmap list_fmap snd]. apply Permutation_cons_append. }
  assert (Hlog : audit_log (set_system_audit_events (<[au_sequence R := R]> (system_audit_events d)) d) =
    audit_log d ++ [R]).
  { apply (sorted_perm_unique au_sequence); [apply by_sequence_sorted| |done|].
    - apply strongly_sorted_app; [apply by_sequence_sorted|by repeat constructor|].
      intros x y Hx ->%list_elem_of_singleton. apply Hmax in Hx. apply Z.leb_le. lia.
    - rewrite Hperm. exact (chained_keys _ _ _ _ Hchain). }
  split; [exact Hlog|]. split; [|by rewrite Hlog].
  cbn. intros k r [[<- <-]|[_ Hk]]%lookup_insert_Some; [done|by apply (ai_keyed d es Hi)].
Qed.

Lemma append_eq d es new_id now q :
  audit_inv d es → append_request_valid q = true → NoDup (aq_metadata q).*1 →
  representable now = true → parse_datetime (isoformat now) = Some (utc_at now) →
  (∀ r, r ∈ audit_log d → au_id r ≠ new_id) →
  ∃ mj h, canonical_json_bytes (JObj (aq_metadata q)) = Ok mj ∧
    let R := new_row new_id now q mj es h in
    canonical_sha256 (row_hash_payload R) = Ok h ∧
    if bool_decide (h ∈ au_event_hash <$> audit_log d)
    then append_system_audit new_id now q d = (Err (Exn IntegrityError "constraint failed"), d)
    else ∃ d', append_system_audit new_id now q d = (Ok (new_event new_id now q es h), d') ∧
      audit_log d' = audit_log d ++ [R] ∧ audit_inv d' (es ++ [new_event new_id now q es h]).
Proof.
  intros Hi Hq Hn Hr Hp Hid.
  destruct (stored_metadata_read_back (aq_metadata q)) as (mj & Hmj & Hl & Hmv);
    [unfold append_request_valid in Hq; by bools|done|].
  destruct (row_hash_payload_bytes (new_row new_id now q mj es "")) as [b Hb].
  assert (Hh : canonical_sha256 (row_hash_payload (new_row new_id now q mj es "")) = Ok (Sha256.hexdigest b))
    by (unfold canonical_sha256; by rewrite Hb).
  exists mj, (Sha256.hexdigest b). split; [done|]. cbv zeta. split; [exact Hh|].
  pose proof (new_row_valid d es new_id now q mj _ Hi Hq Hr Hp Hl Hmv Hh) as Hv.
  pose proof (new_row_insert d es new_id now q mj _ Hi Hq (hexdigest_hex64 b) Hid) as Hins. cbv zeta in Hins.
  destruct (new_row_log d es new_id now q mj _ Hi Hv) as [Hlog Hi'].
  set (R := new_row new_id now q mj es (Sha256.hexdigest b)) in *.
  assert (Hrun : append_system_audit_unlocked new_id now q d =
    (sql_insert (au_sequence R) R ;;;
     let! row := sql_get (Row := audit_row) (au_sequence R) in
     match row with
     | None => of_result (Err (integrity_error "append_missing" (au_sequence R)))
     | Some r => of_result (validate_row r (au_sequence R) (Some (terminal_hash es)))
     end) d).
  { unfold append_system_audit_unlocked. rewrite (bind_Ok _ _ _ _ _ (next_position_eq d es Hi)).
    unfold canonical_system_audit_json, hash_system_audit_payload. rewrite Hmj, bind_of_result. cbv zeta.
    fold (new_row new_id now q mj es ""). by rewrite Hh, bind_of_result. }
  unfold append_system_audit, atomically. rewrite Hrun. destruct (bool_decide _).
  - unfold bind at 1. by rewrite Hins.
  - rewrite (bind_Ok _ _ _ _ _ Hins), bind_sql_get. cbn [tbl audit_table system_audit_events set_system_audit_events].
    rewrite lookup_insert_eq. unfold of_result. subst R. cbn [au_sequence new_row] in *. rewrite Hv. eauto.
Qed.

(** ** Reading a verified chain *)

Lemma chained_filter_le n prev rows es a :
  chained n prev rows es → filter (λ r, (au_sequence r <=? a) = true) rows = take (Z.to_nat (a - n + 1)) rows.
Proof.
  revert n prev es. induction rows as [|r rows IH]; intros n prev [|e es] H; try done.
  { by rewrite take_nil. }
  pose proof (chained_sequence _ _ _ _ 0 r H eq_refl) as Hs. destruct H as [_ H]. specialize (IH _ _ _ H).
  destruct (decide (au_sequence r ≤ a)) as [Hle|Hgt].
  - rewrite filter_cons_True by (by apply Z.leb_le). replace (Z.to_nat (a - n + 1)) with (S (Z.to_nat (a - (n + 1) + 1))) by lia.
    cbn. by rewrite IH.
  - rewrite filter_cons_False by (rewrite Z.leb_le; lia). rewrite IH.
    replace (Z.to_nat (a - n + 1)) with 0%nat by lia. by replace (Z.to_nat (a - (n + 1) + 1)) with 0%nat by lia.
Qed.

Lemma chained_filter_gt n prev rows es a :
  chained n prev rows es → filter (λ r, (a <? au_sequence r) = true) rows = drop (Z.to_nat (a - n + 1)) rows.
Proof.
  revert n prev es. induction rows as [|r rows IH]; intros n prev [|e es] H; try done.
  { by rewrite drop_nil. }
  pose proof (chained_sequence _ _ _ _ 0 r H eq_refl) as Hs. destruct H as [_ H]. specialize (IH _ _ _ H).
  destruct (decide (au_sequence r ≤ a)) as [Hle|Hgt].
  - rewrite filter_cons_False by (rewrite Z.ltb_lt; lia).
    replace (Z.to_nat (a - n + 1)) with (S (Z.to_nat (a - (n + 1) + 1))) by lia. by rewrite IH.
  - rewrite filter_cons_True by (apply Z.ltb_lt; lia). rewrite IH.
    replace (Z.to_nat (a - n + 1)) with 0%nat by lia. by replace (Z.to_nat (a - (n + 1) + 1)) with 0%nat by lia.
Qed.

Lemma select_filter d es cond :
  audit_inv d es →
  order_by by_sequence (where_rows cond (system_audit_events d)) = filter (λ r, cond r = true) (audit_log d).
Proof.
  intros Hi. apply (sorted_perm_unique au_sequence).
  - apply by_sequence_sorted.
  - apply strongly_sorted_filter, by_sequence_sorted.
  - rewrite order_by_perm. unfold audit_log, where_rows at 1. rewrite (order_by_perm by_sequence), where_all. done.
  - rewrite order_by_perm. unfold where_rows. rewrite <-where_all.
    eapply sublist_NoDup; [|apply fmap_sublist, sublist_filter].
    rewrite <-(order_by_perm by_sequence). eapply chained_keys, (ai_chain d es Hi).
Qed.

Lemma chained_take n prev rows es k : chained n prev rows es → chained n prev (take k rows) (take k es).
Proof.
  revert n prev rows es. induction k as [|k IH]; intros n prev [|r rows] [|e es] H; try done.
  destruct H as [Hv H]. split; [done|]. by apply IH.
Qed.

Lemma chained_drop n prev rows es k :
  chained n prev rows es → (k ≤ length es)%nat →
  chained (n + Z.of_nat k) (default prev (se_event_hash <$> last (take k es))) (drop k rows) (drop k es).
Proof.
  intros H Hk. pose proof (chained_length _ _ _ _ H) as Hl.
  rewrite <-(take_drop k rows), <-(take_drop k es) in H.
  apply chained_app in H as [_ H]; [|by rewrite !length_take, Hl].
  rewrite length_take, Nat.min_l in H by done. exact H.
Qed.

Lemma validate_chained rows n prev es : chained n prev rows es → validate_rows rows n prev [] = (es, None).
Proof. intros H. apply validate_rows_chained. eauto. Qed.

Lemma anchor_hash_eq d es k :
  audit_inv d es → (k ≤ length es)%nat →
  anchor_hash (Z.of_nat k) d =
    (Ok (default GENESIS_SYSTEM_AUDIT_HASH (se_event_hash <$> last (take k es))), d).
Proof.
  intros Hi Hle. pose proof (ai_chain d es Hi) as Hc. pose proof (chained_length _ _ _ _ Hc) as Hlen.
  unfold anchor_hash. destruct (0 <? Z.of_nat k) eqn:E; bools; [|by replace k with 0%nat by lia].
  rewrite bind_sql_select. cbn [tbl audit_table]. rewrite (select_filter d es) by done.
  rewrite (chained_filter_le 1 GENESIS_SYSTEM_AUDIT_HASH _ es) by done.
  replace (Z.to_nat (Z.of_nat k - 1 + 1)) with k by lia.
  pose proof (chained_take _ _ _ _ k Hc) as Hk. rewrite (chained_verification _ _ Hk), bind_of_result.
  unfold verified_or_raise. cbn [vf_verified]. rewrite bind_ret.
  destruct (last (take k es)) as [e|] eqn:El; [|apply last_None in El; apply (f_equal length) in El;
    rewrite length_take in El; cbn in El; lia].
  rewrite last_lookup, length_take, Nat.min_l in El by lia.
  assert (Hr : is_Some (take k (audit_log d) !! pred k)).
  { apply lookup_lt_is_Some. rewrite length_take, Hlen. lia. }
  destruct Hr as [r Hr]. destruct (chained_lookup _ _ _ _ _ _ Hk Hr) as (e' & He & Hv). simplify_eq.
  apply validate_row_Ok_inv in Hv as (_ & _ & _ & _ & _ & Hs & _). rewrite Hs.
  rewrite (proj2 (Z.eqb_eq _ _)) by lia. done.
Qed.

Lemma anchor_hash_beyond d es after :
  audit_inv d es → Z.of_nat (length es) < after →
  anchor_hash after d = (Err (integrity_error "missing_anchor" after), d).
Proof.
  intros Hi Hgt. pose proof (ai_chain d es Hi) as Hc. pose proof (chained_length _ _ _ _ Hc) as Hlen.
  unfold anchor_hash. rewrite (proj2 (Z.ltb_lt _ _)) by lia.
  rewrite bind_sql_select. cbn [tbl audit_table]. rewrite (select_filter d es) by done.
  rewrite (chained_filter_le 1 GENESIS_SYSTEM_AUDIT_HASH _ es) by done. rewrite take_ge by lia.
  rewrite (chained_verification _ _ Hc), bind_of_result. unfold verified_or_raise. cbn [vf_verified]. rewrite bind_ret.
  destruct (last es) as [e|] eqn:El; [|done].
  rewrite last_lookup in El. destruct (lookup_lt_is_Some_2 (audit_log d) (pred (length es))) as [r Hr].
  { apply lookup_lt_Some in El. lia. }
  destruct (chained_lookup _ _ _ _ _ _ Hc Hr) as (e' & He & Hv). simplify_eq. apply lookup_lt_Some in El.
  apply validate_row_Ok_inv in Hv as (_ & _ & _ & _ & _ & Hs & _). rewrite Hs.
  by rewrite (proj2 (Z.eqb_neq _ _)) by lia.
Qed.

(** On a verified log a page is the requested slice of its events, an anchor beyond the end
    raises missing_anchor, and the export holds the whole log with its bounds and terminal
    hash. *)
Theorem audit_pages d es after limit :
  audit_inv d es → 0 ≤ after → 1 ≤ limit ≤ MAX_SYSTEM_AUDIT_PAGE_SIZE →
  list_system_audit after limit d =
    (if after <=? Z.of_nat (length es) then Ok (take (Z.to_nat limit) (drop (Z.to_nat after) es))
     else Err (integrity_error "missing_anchor" after), d) ∧
  export_system_audit d =
    (Ok (mkAuditExport (se_sequence <$> head es) (se_sequence <$> last es) (terminal_hash es) es), d).
Proof.
  intros Hi Ha Hl. pose proof (ai_chain d es Hi) as Hc. split.
  - unfold list_system_audit.
    rewrite (proj2 (Z.leb_le 0 after)), (proj2 (Z.leb_le 1 limit)), (proj2 (Z.leb_le limit _)) by lia.
    rewrite (bind_Ok _ _ _ _ _ (guard_true _ _ d)). cbn [andb]. rewrite (bind_Ok _ _ _ _ _ (guard_true _ _ d)).
    destruct (after <=? Z.of_nat (length es)) eqn:E; bools.
    + assert (Hk := anchor_hash_eq d es (Z.to_nat after) Hi ltac:(lia)). rewrite Z2Nat.id in Hk by done.
      rewrite (bind_Ok _ _ _ _ _ Hk), bind_sql_select. cbn [tbl audit_table].
      rewrite (select_filter d es), (chained_filter_gt 1 GENESIS_SYSTEM_AUDIT_HASH _ es) by done.
      replace (after - 1 + 1) with after by lia. replace (after + 1) with (1 + Z.of_nat (Z.to_nat after)) by lia.
      rewrite (validate_chained _ _ _ (take (Z.to_nat limit) (drop (Z.to_nat after) es))); [done|].
      apply chained_take, chained_drop; [done|lia].
    + unfold bind at 1. by rewrite (anchor_hash_beyond d es after) by (done || lia).
  - unfold export_system_audit. rewrite bind_sql_select. cbn [tbl audit_table]. fold (audit_log d).
    by rewrite (chained_verification _ _ Hc), bind_of_result.
Qed.

(** Appending a valid request to a verified log either returns the new event, extends the
    log by exactly its row, linked to the previous terminal hash, and leaves a log that
    verifies with one more event, or, when the hash is already stored, raises IntegrityError
    and changes nothing. *)
Theorem audit_append_extends d es new_id now q :
  audit_inv d es → append_request_valid q = true → NoDup (aq_metadata q).*1 →
  representable now = true → parse_datetime (isoformat now) = Some (utc_at now) →
  (∀ r, r ∈ audit_log d → au_id r ≠ new_id) →
  ∃ mj h, canonical_json_bytes (JObj (aq_metadata q)) = Ok mj ∧
    let R := new_row new_id now q mj es h in
    canonical_sha256 (row_hash_payload R) = Ok h ∧
    if bool_decide (h ∈ au_event_hash <$> audit_log d)
    then append_system_audit new_id now q d = (Err (Exn IntegrityError "constraint failed"), d)
    else ∃ d', append_system_audit new_id now q d = (Ok (new_event new_id now q es h), d') ∧
      audit_log d' = audit_log d ++ [R] ∧ audit_inv d' (es ++ [new_event new_id now q es h]) ∧
      ∃ v, verify_system_audit d' = (Ok v, d') ∧ vf_verified v = true ∧
           vf_event_count v = Z.of_nat (length es) + 1 ∧ vf_terminal_hash v = h.
Proof.
  intros Hi Hq Hn Hr Hp Hid. destruct (append_eq d es new_id now q Hi Hq Hn Hr Hp Hid) as (mj & h & Hmj & Hh & Ha).
  exists mj, h. split; [done|]. split; [exact Hh|]. destruct (bool_decide _); [done|].
  destruct Ha as (d' & Ha & Hlog & Hi'). exists d'. do 3 (split; [done|]).
  unfold verify_system_audit. rewrite bind_sql_select. cbn [tbl audit_table]. fold (audit_log d').
  rewrite (chained_verification _ _ (ai_chain d' _ Hi')), bind_of_result. eexists. split; [done|].
  cbn. rewrite terminal_hash_snoc, length_app. cbn. split; [done|]. split; [lia|done].
Qed.
End audit_rows.

(** ** A concrete chain *)

Module AuditSample.
Definition float_of (s : string) : pyfloat := PyFloat None s.
Definition lax_int (_ : pyfloat) : option Z := None.
Definition parse_datetime (s : string) : option datetime :=
  if bool_decide (s = isoformat 1000000) then Some (utc_at 1000000)
  else if bool_decide (s = isoformat 2500000) then Some (utc_at 2500000) else None.
Definition actor : string := Eval vm_compute in Sha256.hexdigest "alice".
Definition denial (reason : string) : AppendSystemAuditRequest :=
  mkAppendRequest "run-1" actor "decision.resolve.denied" "denied" reason "decision_request" actor
    [("status", JStr "pending"); ("kind", JStr "tool"); ("expected_version", JInt 2)].
Definition d0 : db := empty_db.
Definition first := append_system_audit float_of lax_int parse_datetime "ev-1" 1000000 (denial "decision_stale") d0.
Definition d1 : db := first.2.
Definition hash1 : string :=
  Eval vm_compute in match first.1 with Ok e => se_event_hash e | Err _ => "" end.
Definition e1 : SystemAuditEventV1 := new_event "ev-1" 1000000 (denial "decision_stale") [] hash1.

Lemma audit_inv0 : audit_inv float_of lax_int parse_datetime d0 [].
Proof. split; [intros k r H; cbn in H; by rewrite lookup_empty in H|done]. Qed.
Lemma denial_ok : append_request_valid (denial "decision_stale") = true.
Proof. vm_compute. reflexivity. Qed.
Lemma keys_distinct reason : NoDup (aq_metadata (denial reason)).*1.
Proof. apply (bool_decide_eq_true_1 _). vm_compute. reflexivity. Qed.
Lemma fresh0 r : r ∈ audit_log d0 → au_id r ≠ "ev-1".
Proof. intros [k Hk]%elem_of_audit_log. cbn in Hk. by rewrite lookup_empty in Hk. Qed.
Lemma audit_inv1 : audit_inv float_of lax_int parse_datetime d1 [e1].
Proof.
  destruct (append_eq float_of lax_int parse_datetime d0 [] "ev-1" 1000000 (denial "decision_stale")
    audit_inv0 denial_ok (keys_distinct _) eq_refl eq_refl fresh0) as (mj & h & Hmj & Hh & Ha).
  vm_compute in Hmj. injection Hmj as <-. vm_compute in Hh. injection Hh as <-.
  rewrite bool_decide_eq_false_2 in Ha.
  - destruct Ha as (d' & Ha & _ & Hi). unfold d1, first. rewrite Ha. exact Hi.
  - intros (r & _ & [k Hk]%elem_of_audit_log)%list_elem_of_fmap. cbn in Hk. by rewrite lookup_empty in Hk.
Qed.
Lemma verified1 : verification float_of lax_int parse_datetime (audit_log d1) =
  Ok (mkVerification true 1 (Some 1) (Some 1) hash1 None "verified", [e1]).
Proof. exact (chained_verification _ _ _ _ _ (ai_chain _ _ _ _ _ audit_inv1)). Qed.
End AuditSample.

Lemma audit_tamper_evident_witness :
  audit_log AuditSample.d1 = audit_log AuditSample.d1 ∨
  colliding (audit_log AuditSample.d1) (audit_log AuditSample.d1) ∨
  hits_genesis (audit_log AuditSample.d1 ++ audit_log AuditSample.d1).
Proof.
  exact (audit_tamper_evident _ _ _ _ _ _ _ _ _ AuditSample.verified1 AuditSample.verified1
    eq_refl eq_refl eq_refl).
Defined.

Lemma audit_append_extends_witness :
  ∃ mj h, canonical_json_bytes (JObj (aq_metadata (AuditSample.denial "decision_stale"))) = Ok mj ∧
    canonical_sha256 (row_hash_payload
      (new_row "ev-1" 1000000 (AuditSample.denial "decision_stale") mj [] h)) = Ok h.
Proof.
  destruct (audit_append_extends AuditSample.float_of AuditSample.lax_int AuditSample.parse_datetime
    AuditSample.d0 [] "ev-1" 1000000 (AuditSample.denial "decision_stale") AuditSample.audit_inv0
    AuditSample.denial_ok (AuditSample.keys_distinct _) eq_refl eq_refl AuditSample.fresh0)
    as (mj & h & Hmj & Hh & _).
  exists mj, h. split; [exact Hmj|exact Hh].
Defined.

Lemma audit_pages_witness :
  list_system_audit AuditSample.float_of AuditSample.lax_int AuditSample.parse_datetime 0 10 AuditSample.d1 =
    (Ok [AuditSample.e1], AuditSample.d1) ∧
  list_system_audit AuditSample.float_of AuditSample.lax_int AuditSample.parse_datetime 2 10 AuditSample.d1 =
    (Err (integrity_error "missing_anchor" 2), AuditSample.d1).
Proof.
  assert (H10 : 1 ≤ 10 ≤ MAX_SYSTEM_AUDIT_PAGE_SIZE) by (unfold MAX_SYSTEM_AUDIT_PAGE_SIZE; lia).
  split.
  - exact (proj1 (audit_pages _ _ _ _ _ 0 10 AuditSample.audit_inv1 ltac:(lia) H10)).
  - exact (proj1 (audit_pages _ _ _ _ _ 2 10 AuditSample.audit_inv1 ltac:(lia) H10)).
Defined.
