(* ===== verification/Outbox.v ===== *)
(** * The durable outbox

    Models src/src/tianshu/storage/outbox_repo.py: adding events, the
    submission idempotency records, claiming a batch under a lease, settling a
    claimed event, and recording consumptions.  An envelope carries the UTC
    instant of its timestamp.

    [add], [get], [get_submission] and [add_submission] run on the caller's
    transaction; the other operations open their own. *)

From stdpp Require Import pretty.
From S2P Require Import Prelude.
From S2P Require Import Sql.
From S2P Require Import Canonical.
From S2P Require Import Timestamp.
From S2P Require Import SensitivePayload.
From S2P Require Import UnitOfWork.
From S2P Require Import Models.
From S2P Require Import Schema.
From S2P Require Import Correlation.

(** [EventEnvelope] (models/events.py) *)
Record EventEnvelope := mkEvent {
  e_event_id : string;
  e_event_type : string;
  e_edict_id : option string;
  e_memorial_id : option string;
  e_attempt : sql_value;
  e_timestamp : Z;
  e_producer : string;
  e_payload : list (string * json);
}.

(** An [OutboxRecord] is the row with its correlation identity resolved. *)
Record OutboxRecord := mkOutboxRecord {
  or_row : outbox_row;
  or_correlation_id : string;
}.

Definition event_correlation (event_id : string) : string := "event:" +:+ Sha256.hexdigest event_id.

(** ** Adding *)

Definition add (event : EventEnvelope) : M db unit :=
  let! explicit :=
    match obj_get (e_payload event) "correlation_id" with
    | None | Some JNull => ret None
    | Some (JStr s) => ret (Some s)
    | Some _ => raise ValueError "event correlation_id must be text"
    end in
  let! correlation_id :=
    match e_memorial_id event with
    | Some m => correlation_for_memorial m explicit
    | None =>
        require_correlation_id
          (match explicit with
           | Some s => if bool_decide (s = "") then event_correlation (e_event_id event) else s
           | None => event_correlation (e_event_id event)
           end)
    end in
  let! payload_json := of_result (canonical_json_bytes (JObj (e_payload event))) in
  sql_insert (e_event_id event)
    (mkOutboxRow (e_event_id event) (e_event_type event)
       (match e_edict_id event with Some _ => "edict" | None => "system" end)
       (e_edict_id event) (e_memorial_id event) (e_producer event) payload_json
       (e_timestamp event) (e_timestamp event) OB_PENDING (SInt 0) 20 None None None None (SInt 1)
       (Some correlation_id)).

(** [_select_outbox_record] *)
Definition select_outbox_record (event_id : string) : M db (option OutboxRecord) :=
  let! row := sql_get (Row := outbox_row) event_id in
  match row with
  | None => ret None
  | Some r =>
      let! correlation_id :=
        match ob_correlation_id r with
        | Some c => ret c
        | None =>
            match ob_memorial_id r with
            | Some m => correlation_for_memorial m None
            | None => ret (event_correlation (ob_event_id r))
            end
        end in
      ret (Some (mkOutboxRecord r correlation_id))
  end.

Definition get (event_id : string) : M db (option OutboxRecord) := select_outbox_record event_id.

Definition get_submission (principal_id idempotency_key : string) : M db (option submission_row) :=
  sql_get (principal_id, idempotency_key).

Definition add_submission (principal_id idempotency_key : string) (record : submission_row) : M db unit :=
  sql_insert (principal_id, idempotency_key) record.

(** ** Claiming *)

(** [_utc_iso] *)
Definition utc_iso {S} (v : datetime) : M S Z :=
  guard (bool_decide (utcoffset v = Some 0)) ValueError
    "outbox timestamps must be timezone-aware UTC values" ;;;
  ret (wall v).

(** The [WHERE] of the candidates and of the compare-and-swap. *)
Definition claimable (now : Z) (r : outbox_row) : bool :=
  match ob_status r with
  | OB_PENDING | OB_RETRY_WAIT => ob_available_at r <=? now
  | OB_CLAIMED => match ob_lease_expires_at r with Some l => l <=? now | None => false end
  | _ => false
  end.

(** [ORDER BY available_at, occurred_at, event_id] *)
Definition claim_order (r r' : outbox_row) : bool :=
  le_of (lex (ob_available_at r ?= ob_available_at r')
        (lex (ob_occurred_at r ?= ob_occurred_at r')
             (text_compare (ob_event_id r) (ob_event_id r')))).

(** [CASE WHEN typeof(x) = 'integer' THEN x + 1 ELSE x END] *)
Definition increment (v : sql_value) : sql_value :=
  match v with SInt z => SInt (z + 1) | _ => v end.

Definition set_claimed (owner_id : string) (lease_expires_at : Z) (r : outbox_row) : outbox_row :=
  mkOutboxRow (ob_event_id r) (ob_event_type r) (ob_aggregate_type r) (ob_edict_id r) (ob_memorial_id r)
    (ob_producer r) (ob_payload_json r) (ob_occurred_at r) (ob_available_at r) OB_CLAIMED
    (increment (ob_attempt_count r)) (ob_max_attempts r) (Some owner_id) (Some lease_expires_at)
    (ob_last_error r) (ob_published_at r) (increment (ob_version r)) (ob_correlation_id r).

(** The loop over the candidates. *)
Fixpoint claim_candidates (owner_id : string) (now lease_expires_at : Z) (candidates : list outbox_row) :
    M db (list OutboxRecord) :=
  match candidates with
  | [] => ret []
  | c :: rest =>
      let! rowcount := sql_update (Row := outbox_row) (ob_event_id c)
        (λ r, bool_decide (ob_version r = ob_version c) && claimable now r)
        (set_claimed owner_id lease_expires_at) in
      let! claimed :=
        if negb (rowcount =? 1) then ret []
        else
          let! row := select_outbox_record (ob_event_id c) in
          ret (match row with Some r => [r] | None => [] end) in
      let! others := claim_candidates owner_id now lease_expires_at rest in
      ret (claimed ++ others)
  end.

Definition claim_batch (owner_id : string) (now : datetime) (limit lease_seconds : Z) :
    M db (list OutboxRecord) :=
  guard (non_blank owner_id) ValueError "owner_id must be non-blank" ;;;
  guard (0 <? limit) ValueError "limit must be positive" ;;;
  guard (0 <? lease_seconds) ValueError "lease_seconds must be a positive integer" ;;;
  let! now_at := utc_iso now in
  let! lease_expires_at := plus_seconds now_at lease_seconds in
  atomically
    (let! candidates := sql_select (Row := outbox_row) (claimable now_at) in
     claim_candidates owner_id now_at lease_expires_at
       (take (Z.to_nat limit) (order_by claim_order candidates))).

(** ** Settling a claimed event *)

(** [status = 'claimed' AND lease_owner = ? AND version = ?] *)
Definition held (owner_id : string) (version : sql_value) (r : outbox_row) : bool :=
  bool_decide (ob_status r = OB_CLAIMED) && bool_decide (ob_lease_owner r = Some owner_id) &&
  bool_decide (ob_version r = version).

Definition set_published (now : Z) (r : outbox_row) : outbox_row :=
  mkOutboxRow (ob_event_id r) (ob_event_type r) (ob_aggregate_type r) (ob_edict_id r) (ob_memorial_id r)
    (ob_producer r) (ob_payload_json r) (ob_occurred_at r) (ob_available_at r) OB_PUBLISHED
    (ob_attempt_count r) (ob_max_attempts r) None None None (Some now) (increment (ob_version r))
    (ob_correlation_id r).

(** [CASE WHEN attempt_count >= max_attempts THEN 'dead_letter' ELSE 'retry_wait' END] *)
Definition failed_status (r : outbox_row) : OutboxStatus :=
  if sql_ge (ob_attempt_count r) (ob_max_attempts r) then OB_DEAD_LETTER else OB_RETRY_WAIT.

Definition set_failed (error : RedactedError) (available_at : Z) (r : outbox_row) : outbox_row :=
  mkOutboxRow (ob_event_id r) (ob_event_type r) (ob_aggregate_type r) (ob_edict_id r) (ob_memorial_id r)
    (ob_producer r) (ob_payload_json r) (ob_occurred_at r) available_at (failed_status r)
    (ob_attempt_count r) (ob_max_attempts r) None None (Some error) (ob_published_at r)
    (increment (ob_version r)) (ob_correlation_id r).

Definition set_poisoned (error : RedactedError) (now : Z) (r : outbox_row) : outbox_row :=
  mkOutboxRow (ob_event_id r) (ob_event_type r) (ob_aggregate_type r) (ob_edict_id r) (ob_memorial_id r)
    (ob_producer r) (ob_payload_json r) (ob_occurred_at r) now OB_DEAD_LETTER
    (ob_attempt_count r) (ob_max_attempts r) None None (Some error) (ob_published_at r)
    (ob_version r) (ob_correlation_id r).

Definition mark_published (event_id owner_id : string) (expected_version : Z) (now : datetime) : M db bool :=
  atomically
    (let! now_at := utc_iso now in
     let! rowcount := sql_update (Row := outbox_row) event_id (held owner_id (SInt expected_version))
                        (set_published now_at) in
     ret (rowcount =? 1)).

Definition mark_failed (event_id owner_id : string) (expected_version : Z) (error : RedactedError)
    (available_at : datetime) : M db bool :=
  atomically
    (let! at_ := utc_iso available_at in
     let! rowcount := sql_update (Row := outbox_row) event_id (held owner_id (SInt expected_version))
                        (set_failed error at_) in
     ret (rowcount =? 1)).

(** The value and its storage class are compared together. *)
Definition mark_poisoned (event_id owner_id : string) (expected_version : sql_value) (error : RedactedError)
    (now : datetime) : M db bool :=
  atomically
    (let! now_at := utc_iso now in
     let! rowcount := sql_update (Row := outbox_row) event_id (held owner_id expected_version)
                        (set_poisoned error now_at) in
     ret (rowcount =? 1)).

(** ** Consumptions *)

(** [INSERT ... ON CONFLICT(event_id, consumer_name) DO NOTHING] *)
Definition insert_consumption (event_id consumer_name : string) (result_hash : option string) (now : Z) :
    M db Z := λ d,
  match outbox_consumptions d !! (event_id, consumer_name) with
  | Some _ => (Ok 0, d)
  | None =>
      if is_some (outbox_events d !! event_id)
      then (Ok 1, set_outbox_consumptions
                    (<[(event_id, consumer_name) := mkConsumption result_hash now]> (outbox_consumptions d)) d)
      else (Err (Exn IntegrityError "FOREIGN KEY constraint failed"), d)
  end.

Definition record_consumption (event_id consumer_name : string) (result_hash : option string) (now : Z) :
    M db bool :=
  guard (non_blank consumer_name) ValueError "consumer_name must be non-blank" ;;;
  atomically
    (let! rowcount := insert_consumption event_id consumer_name result_hash now in
     ret (rowcount =? 1)).

Definition consumed_consumers (event_id : string) : M db (gset string) := λ d,
  (Ok (list_to_set (omap (λ k : string * string, if bool_decide (k.1 = event_id) then Some k.2 else None)
                      (map_to_list (outbox_consumptions d)).*1)), d).

(** [submission_identities_for_edict] *)
Definition submission_identities_for_edict (edict_id : string) : M db (list (string * string)) :=
  let! rows := sql_select (Row := outbox_row)
    (λ r, bool_decide (ob_event_type r = "edict.submitted") && bool_decide (ob_edict_id r = Some edict_id) &&
          is_some (ob_memorial_id r)) in
  ret (omap (λ r, pair (ob_event_id r) <$> ob_memorial_id r) (order_by event_order rows)).

(** ** Invariant and progress *)

Definition leased (r : outbox_row) : bool := is_some (ob_lease_owner r) && is_some (ob_lease_expires_at r).
Definition final (r : outbox_row) : bool :=
  match ob_status r with OB_PUBLISHED | OB_DEAD_LETTER => true | _ => false end.

(** Every row is stored under its id, satisfies the table's constraints and
    carries a correlation identity, and exactly the claimed rows are leased. *)
Record outbox_inv (d : db) : Prop := {
  oi_keyed : ∀ k r, outbox_events d !! k = Some r → ob_event_id r = k;
  oi_check : ∀ k r, outbox_events d !! k = Some r → outbox_row_check d r = true;
  oi_leased : ∀ k r, outbox_events d !! k = Some r →
    leased r = bool_decide (ob_status r = OB_CLAIMED) ∧
    (ob_status r ≠ OB_CLAIMED → ob_lease_owner r = None ∧ ob_lease_expires_at r = None);
  oi_correlated : ∀ k r, outbox_events d !! k = Some r → is_Some (ob_correlation_id r);
}.

(** What can happen to a stored event: a final one never changes, and the
    version of the others only grows, except when they are poisoned. *)
Definition progress (r r' : outbox_row) : Prop :=
  (final r = true → r' = r) ∧
  ∀ a, ob_version r = SInt a →
    ∃ b, ob_version r' = SInt b ∧ (r' = r ∨ a < b ∨ (a ≤ b ∧ ob_status r' = OB_DEAD_LETTER)).

Lemma progress_refl r : progress r r.
Proof. split; [done|]. intros a Ha. eauto. Qed.
Lemma progress_trans r1 r2 r3 : progress r1 r2 → progress r2 r3 → progress r1 r3.
Proof.
  intros [F1 V1] [F2 V2]. split.
  - intros Hf. rewrite (F1 Hf) in *. auto.
  - intros a Ha. destruct (V1 a Ha) as (b & Hb & Hcase). destruct (V2 b Hb) as (c & Hc & Hcase2).
    exists c. split; [done|]. destruct Hcase as [->|[Hlt|[Hle Hdead]]].
    + rewrite Ha in Hb. injection Hb as ->. done.
    + right; left. destruct Hcase2 as [->|[?|[? ?]]]; [rewrite Hb in Hc; injection Hc|..]; lia.
    + assert (r3 = r2) as -> by (apply F2; unfold final; by rewrite Hdead).
      rewrite Hb in Hc. injection Hc as <-. auto.
Qed.

Definition outbox_le (d d' : db) : Prop :=
  ∀ k r, outbox_events d !! k = Some r → ∃ r', outbox_events d' !! k = Some r' ∧ progress r r'.
#[export] Instance outbox_le_preorder : PreOrder outbox_le.
Proof.
  split; [intros d k r Hk; eauto using progress_refl|].
  intros d1 d2 d3 H12 H23 k r Hk. destruct (H12 k r Hk) as (r2 & Hk2 & P2).
  destruct (H23 k r2 Hk2) as (r3 & Hk3 & P3). eauto using progress_trans.
Qed.

Definition with_outbox (k : string) (r : outbox_row) (d : db) : db :=
  set_outbox_events (<[k := r]> (outbox_events d)) d.

(** The four updates of a row keep what the invariant says of it. *)
Record good_update (d : db) (r r' : outbox_row) : Prop := {
  gu_id : ob_event_id r' = ob_event_id r;
  gu_check : outbox_row_check d r' = true;
  gu_leased : leased r' = bool_decide (ob_status r' = OB_CLAIMED) ∧
    (ob_status r' ≠ OB_CLAIMED → ob_lease_owner r' = None ∧ ob_lease_expires_at r' = None);
  gu_correlated : ob_correlation_id r' = ob_correlation_id r;
  gu_progress : progress r r';
}.

Lemma sql_positive_increment v : sql_positive v = true → sql_positive (increment v) = true.
Proof. destruct v; cbn; try done. intros H. bools. apply Z.ltb_lt. lia. Qed.
Lemma sql_ge_increment v : sql_ge v 0 = true → sql_ge (increment v) 0 = true.
Proof. destruct v; cbn; try done. intros H. bools. apply Z.leb_le. lia. Qed.

Lemma increment_version v a : v = SInt a → increment v = SInt (a + 1).
Proof. by intros ->. Qed.

Lemma claim_good d k r owner exp now :
  outbox_inv d → outbox_events d !! k = Some r → claimable now r = true →
  good_update d r (set_claimed owner exp r).
Proof.
  intros Hi Hk Hc. pose proof (oi_check d Hi _ _ Hk) as Hrc. unfold outbox_row_check in Hrc. bools.
  split; [done| |done|done|].
  - unfold outbox_row_check. cbn. bools_goal; auto using sql_positive_increment, sql_ge_increment.
  - split; [intros Hf; unfold final, claimable in *; by destruct (ob_status r)|].
    intros a Ha. cbn. rewrite Ha. eexists. split; [done|]. right; left. lia.
Qed.

Lemma settle_good d k r r' owner v :
  outbox_inv d → outbox_events d !! k = Some r → held owner v r = true →
  ob_event_id r' = ob_event_id r → ob_edict_id r' = ob_edict_id r → ob_memorial_id r' = ob_memorial_id r →
  ob_attempt_count r' = ob_attempt_count r → ob_max_attempts r' = ob_max_attempts r →
  ob_correlation_id r' = ob_correlation_id r →
  ob_lease_owner r' = None → ob_lease_expires_at r' = None → ob_status r' ≠ OB_CLAIMED →
  (ob_version r' = increment (ob_version r) ∨ (ob_version r' = ob_version r ∧ ob_status r' = OB_DEAD_LETTER)) →
  good_update d r r'.
Proof.
  intros Hi Hk Hh E1 E2 E3 E4 E5 E6 L1 L2 Hst Hver.
  pose proof (oi_check d Hi _ _ Hk) as Hrc. unfold outbox_row_check in Hrc. bools.
  unfold held in Hh. bools. split; [done| | |done|].
  - unfold outbox_row_check. rewrite E2, E3, E4, E5. bools_goal; try done.
    destruct Hver as [->|[-> _]]; auto using sql_positive_increment.
  - unfold leased. rewrite L1, L2. by rewrite bool_decide_eq_false_2.
  - split; [intros Hf; unfold final in Hf; by destruct (ob_status r)|].
    intros a Ha. destruct Hver as [->|[-> Hd]]; rewrite Ha; eexists; (split; [done|]).
    + right; left. lia.
    + right; right. split; [lia|done].
Qed.

Lemma good_update_ok d k r r' :
  outbox_inv d → outbox_events d !! k = Some r → good_update d r r' →
  outbox_inv (with_outbox k r' d) ∧ outbox_le d (with_outbox k r' d).
Proof.
  intros Hi Hk [E1 E2 E3 E4 E5]. split; [split|]; cbn.
  - intros k' x [[<- <-]|[_ Hx]]%lookup_insert_Some; [rewrite E1|]; by apply (oi_keyed d Hi).
  - intros k' x [[<- <-]|[_ Hx]]%lookup_insert_Some; [done|exact (oi_check d Hi _ _ Hx)].
  - intros k' x [[<- <-]|[_ Hx]]%lookup_insert_Some; [done|exact (oi_leased d Hi _ _ Hx)].
  - intros k' x [[<- <-]|[_ Hx]]%lookup_insert_Some; [rewrite E4|]; by eapply (oi_correlated d Hi).
  - intros k' x Hx. cbn. destruct (decide (k' = k)) as [->|Hne].
    + simplify_eq. rewrite lookup_insert_eq. eauto.
    + rewrite lookup_insert_ne by done. eauto using progress_refl.
Qed.

Lemma outbox_update d k r cond f :
  outbox_events d !! k = Some r → cond r = true → outbox_row_check d (f r) = true →
  sql_update (Row := outbox_row) k cond f d = (Ok 1, with_outbox k (f r) d).
Proof.
  intros Hk Hc Hrc. refine (sql_update_hit k cond f d r Hk Hc Hrc _ eq_refl). by apply unique_ok_spec.
Qed.

Lemma select_outbox_record_eq d k r c :
  outbox_events d !! k = Some r → ob_correlation_id r = Some c →
  select_outbox_record k d = (Ok (Some (mkOutboxRecord r c)), d).
Proof. intros Hk Hc. unfold select_outbox_record. rewrite bind_sql_get. cbn. by rewrite Hk, Hc. Qed.

(** ** Claiming a batch *)

Definition claimed_record (owner : string) (exp : Z) (r : outbox_row) : OutboxRecord :=
  mkOutboxRecord (set_claimed owner exp r) (default "" (ob_correlation_id r)).
Definition claim_rows (owner : string) (exp : Z) (rows : list outbox_row) (d : db) : db :=
  foldl (λ d r, with_outbox (ob_event_id r) (set_claimed owner exp r) d) d rows.

Lemma claim_rows_cons owner exp r rows d :
  claim_rows owner exp (r :: rows) d =
    claim_rows owner exp rows (with_outbox (ob_event_id r) (set_claimed owner exp r) d).
Proof. done. Qed.
Lemma with_outbox_lookup k r d k' :
  outbox_events (with_outbox k r d) !! k' = <[k := r]> (outbox_events d) !! k'.
Proof. done. Qed.

Lemma claim_rows_lookup owner exp rows d k :
  k ∉ ob_event_id <$> rows → outbox_events (claim_rows owner exp rows d) !! k = outbox_events d !! k.
Proof.
  revert d. induction rows as [|r rows IH]; intros d Hn; [done|]. rewrite fmap_cons in Hn.
  rewrite claim_rows_cons, IH by set_solver. by rewrite with_outbox_lookup, lookup_insert_ne by set_solver.
Qed.

Lemma claim_rows_lookup_in owner exp rows d r :
  NoDup (ob_event_id <$> rows) → r ∈ rows →
  outbox_events (claim_rows owner exp rows d) !! ob_event_id r = Some (set_claimed owner exp r).
Proof.
  revert d. induction rows as [|x rows IH]; intros d Hn Hr; [by apply not_elem_of_nil in Hr|].
  cbn in Hn. apply NoDup_cons in Hn as [Hx Hn]. apply elem_of_cons in Hr as [->|Hr]; rewrite claim_rows_cons.
  - rewrite claim_rows_lookup by done. by rewrite with_outbox_lookup, lookup_insert_eq.
  - by apply IH.
Qed.

Lemma claim_candidates_eq owner now exp rows d :
  outbox_inv d → NoDup (ob_event_id <$> rows) →
  (∀ r, r ∈ rows → outbox_events d !! ob_event_id r = Some r ∧ claimable now r = true) →
  claim_candidates owner now exp rows d =
    (Ok (claimed_record owner exp <$> rows), claim_rows owner exp rows d) ∧
  outbox_inv (claim_rows owner exp rows d) ∧ outbox_le d (claim_rows owner exp rows d).
Proof.
  revert d. induction rows as [|r rows IH]; intros d Hi Hn Hall; [done|].
  cbn [fmap list_fmap] in Hn. apply NoDup_cons in Hn as [Hnr Hn].
  destruct (Hall r) as [Hk Hc]; [left|].
  pose proof (claim_good d _ r owner exp now Hi Hk Hc) as Hg.
  destruct (good_update_ok d _ r _ Hi Hk Hg) as [Hi' Hle].
  destruct (oi_correlated d Hi _ _ Hk) as [c Hcor].
  destruct (IH (with_outbox (ob_event_id r) (set_claimed owner exp r) d) Hi' Hn) as (Hrun & Hi2 & Hle2).
  { intros x Hx. destruct (Hall x) as [Hxk Hxc]; [by right|]. split; [|done]. cbn.
    rewrite lookup_insert_ne; [done|]. intros E. apply Hnr. rewrite E. by apply list_elem_of_fmap_2. }
  split; [|split; [done|by etransitivity]].
  cbn [claim_candidates]. erewrite bind_Ok; [|eapply (outbox_update d _ r); [exact Hk| |exact (gu_check _ _ _ Hg)];
    by rewrite bool_decide_eq_true_2, Hc].
  change (negb (1 =? 1)) with false. cbv iota.
  assert (Hsel : select_outbox_record (ob_event_id r) (with_outbox (ob_event_id r) (set_claimed owner exp r) d) =
    (Ok (Some (claimed_record owner exp r)), with_outbox (ob_event_id r) (set_claimed owner exp r) d)).
  { unfold claimed_record. rewrite Hcor. apply select_outbox_record_eq; [cbn; by rewrite lookup_insert_eq|done]. }
  unfold bind at 1 2. rewrite Hsel. cbn [ret]. unfold bind, ret. by rewrite Hrun.
Qed.

Lemma claim_order_perm d now limit :
  take limit (order_by claim_order (where_rows (claimable now) (outbox_events d))) ⊆
  where_rows (claimable now) (outbox_events d).
Proof.
  intros r [i Hr]%list_elem_of_lookup. apply lookup_take_Some in Hr as [Hr%list_elem_of_lookup_2 _].
  by apply elem_of_order_by in Hr.
Qed.

Lemma where_rows_ids d cond :
  outbox_inv d → NoDup (ob_event_id <$> where_rows cond (outbox_events d)).
Proof.
  intros Hi. unfold where_rows. eapply sublist_NoDup; [|apply fmap_sublist, sublist_filter].
  assert (E : ob_event_id <$> (map_to_list (outbox_events d)).*2 = (map_to_list (outbox_events d)).*1).
  { rewrite <-list_fmap_compose. apply list_fmap_ext. intros i [k r] Hin%list_elem_of_lookup_2. cbn.
    apply elem_of_map_to_list in Hin. by apply (oi_keyed d Hi). }
  rewrite E. apply NoDup_fst_map_to_list.
Qed.

Lemma utc_iso_Ok {S} v (s : S) : utcoffset v = Some 0 → utc_iso v s = (Ok (wall v), s).
Proof. unfold utc_iso. intros ->. by rewrite bool_decide_eq_true_2. Qed.

(** The rows a batch claims, in order. *)
Definition batch (d : db) (now limit : Z) : list outbox_row :=
  take (Z.to_nat limit) (order_by claim_order (where_rows (claimable now) (outbox_events d))).

Lemma batch_spec d now limit :
  outbox_inv d →
  NoDup (ob_event_id <$> batch d now limit) ∧
  ∀ r, r ∈ batch d now limit → outbox_events d !! ob_event_id r = Some r ∧ claimable now r = true.
Proof.
  intros Hi. split.
  - unfold batch. eapply sublist_NoDup; [|apply fmap_sublist, sublist_take].
    rewrite order_by_perm. by apply where_rows_ids.
  - intros r Hr%claim_order_perm. apply elem_of_where_rows in Hr as [Hc [k Hk]].
    by rewrite (oi_keyed d Hi _ _ Hk).
Qed.

Lemma claim_batch_eq d owner now limit lease :
  outbox_inv d → non_blank owner = true → 0 < limit → 0 < lease → utcoffset now = Some 0 →
  representable (wall now + lease * 1000000) = true →
  let exp := wall now + lease * 1000000 in
  let rows := batch d (wall now) limit in
  claim_batch owner now limit lease d =
    (Ok (claimed_record owner exp <$> rows), claim_rows owner exp rows d) ∧
  outbox_inv (claim_rows owner exp rows d) ∧ outbox_le d (claim_rows owner exp rows d).
Proof.
  intros Hi Ho Hl Hs Hu Hr. cbv zeta. destruct (batch_spec d (wall now) limit Hi) as [Hn Hall].
  destruct (claim_candidates_eq owner (wall now) (wall now + lease * 1000000) _ d Hi Hn Hall) as (Hrun & H1 & H2).
  split; [|done]. unfold claim_batch. rewrite Ho, (proj2 (Z.ltb_lt _ _) Hl), (proj2 (Z.ltb_lt _ _) Hs).
  do 3 rewrite (bind_Ok _ _ _ _ _ (guard_true _ _ d)).
  rewrite (bind_Ok _ _ _ _ _ (utc_iso_Ok now d Hu)).
  assert (Hp : plus_seconds (wall now) lease d = (Ok (wall now + lease * 1000000), d))
    by (unfold plus_seconds, checked_instant; by rewrite Hr).
  rewrite (bind_Ok _ _ _ _ _ Hp). unfold atomically. rewrite bind_sql_select. cbn [tbl outbox_table].
  fold (batch d (wall now) limit). by rewrite Hrun.
Qed.

Lemma reads_utc_iso {S} v : reads (utc_iso (S := S) v).
Proof. unfold utc_iso. auto with py. Qed.
Lemma reads_plus_seconds {S} t n : reads (plus_seconds (S := S) t n).
Proof. unfold plus_seconds, checked_instant. auto with py. Qed.
#[local] Hint Resolve reads_utc_iso reads_plus_seconds : py.

(** A call that raises leaves the tables alone. *)
Lemma claim_batch_err_keeps owner now limit lease : err_keeps (claim_batch owner now limit lease).
Proof. unfold claim_batch. auto 10 with py. Qed.

Lemma claim_batch_ok d owner now limit lease :
  outbox_inv d → let d' := (claim_batch owner now limit lease d).2 in outbox_inv d' ∧ outbox_le d d'.
Proof.
  intros Hi. cbv zeta. destruct (claim_batch owner now limit lease d) as [[x|e] d'] eqn:E; cbn.
  - pose proof E as E0. unfold claim_batch in E. step_M E. step_M E. step_M E. bools.
    apply bind_Ok_inv in E as (t & d1 & Ht & E). unfold utc_iso in Ht. run_M Ht. bools.
    apply bind_Ok_inv in E as (exp & d1 & Hx & E). unfold plus_seconds in Hx.
    apply checked_instant_Ok_inv in Hx as (-> & -> & Hrep).
    destruct (claim_batch_eq d owner now limit lease) as (Heq & H1 & H2); try done.
    { unfold representable. bools_goal; lia. }
    rewrite Heq in E0. injection E0 as _ <-. done.
  - by rewrite (claim_batch_err_keeps _ _ _ _ _ _ _ E).
Qed.

(** ** Settling *)

(** The shape the three settlements share. *)
Definition settle (k owner : string) (v : sql_value) (f : Z → outbox_row → outbox_row) (now : datetime) :
    M db bool :=
  atomically
    (let! t := utc_iso now in
     let! rowcount := sql_update (Row := outbox_row) k (held owner v) (f t) in
     ret (rowcount =? 1)).

Lemma settle_eq d k owner v f now :
  outbox_inv d → utcoffset now = Some 0 →
  (∀ r, outbox_events d !! k = Some r → held owner v r = true → good_update d r (f (wall now) r)) →
  settle k owner v f now d =
    match outbox_events d !! k with
    | Some r => if held owner v r then (Ok true, with_outbox k (f (wall now) r) d) else (Ok false, d)
    | None => (Ok false, d)
    end.
Proof.
  intros Hi Hu Hg. unfold settle, atomically. rewrite (bind_Ok _ _ _ _ _ (utc_iso_Ok now d Hu)).
  destruct (outbox_events d !! k) as [r|] eqn:Hk.
  - destruct (held owner v r) eqn:Hh.
    + by rewrite (bind_Ok _ _ _ _ _ (outbox_update d k r _ _ Hk Hh (gu_check _ _ _ (Hg r eq_refl Hh)))).
    + erewrite bind_Ok; [|apply sql_update_miss; intros x Hx; cbn in Hx; simplify_eq; exact Hh]. done.
  - erewrite bind_Ok; [|apply sql_update_miss; intros x Hx; cbn in Hx; simplify_eq]. done.
Qed.

Lemma settle_good_cases d k r owner v t error :
  outbox_inv d → outbox_events d !! k = Some r → held owner v r = true →
  good_update d r (set_published t r) ∧ good_update d r (set_failed error t r) ∧
  good_update d r (set_poisoned error t r).
Proof.
  intros Hi Hk Hh. split_and!; (eapply settle_good; [exact Hi|exact Hk|exact Hh|done..|try done|]); cbn; auto.
  unfold failed_status. by destruct (sql_ge _ _).
Qed.

Lemma settle_ok d k owner v f now :
  outbox_inv d →
  (∀ r, outbox_events d !! k = Some r → held owner v r = true → good_update d r (f (wall now) r)) →
  let d' := (settle k owner v f now d).2 in outbox_inv d' ∧ outbox_le d d'.
Proof.
  intros Hi Hg. cbv zeta. destruct (decide (utcoffset now = Some 0)) as [Hu|Hu].
  - rewrite settle_eq by done. destruct (outbox_events d !! k) as [r|] eqn:Hk; [|done].
    destruct (held owner v r) eqn:Hh; [|done]. cbn. by eapply good_update_ok; [..|apply Hg].
  - unfold settle, atomically, utc_iso. rewrite bool_decide_eq_false_2 by done. done.
Qed.

(** ** Histories *)

Inductive outbox_op :=
  | OAdd (event : EventEnvelope)
  | OClaim (owner : string) (now : datetime) (limit lease_seconds : Z)
  | OPublish (event_id owner : string) (version : Z) (now : datetime)
  | OFail (event_id owner : string) (version : Z) (error : RedactedError) (available_at : datetime)
  | OPoison (event_id owner : string) (version : sql_value) (error : RedactedError) (now : datetime).

Definition exec_outbox (op : outbox_op) (d : db) : db :=
  match op with
  | OAdd e => (atomically (add e) d).2
  | OClaim o now l s => (claim_batch o now l s d).2
  | OPublish k o v now => (mark_published k o v now d).2
  | OFail k o v e t => (mark_failed k o v e t d).2
  | OPoison k o v e now => (mark_poisoned k o v e now d).2
  end.
Definition outbox_step (d d' : db) : Prop := ∃ op, exec_outbox op d = d'.

Lemma require_correlation_state c d x d' : require_correlation_id c d = (Ok x, d') → d' = d.
Proof. unfold require_correlation_id. intros H. by run_M H. Qed.

(** The row [add] writes. *)
Definition added_row (event : EventEnvelope) (payload_json correlation_id : string) : outbox_row :=
  mkOutboxRow (e_event_id event) (e_event_type event)
    (match e_edict_id event with Some _ => "edict" | None => "system" end)
    (e_edict_id event) (e_memorial_id event) (e_producer event) payload_json
    (e_timestamp event) (e_timestamp event) OB_PENDING (SInt 0) 20 None None None None (SInt 1)
    (Some correlation_id).

Lemma add_row_correlated event d u d' :
  add event d = (Ok u, d') →
  ∃ b c, canonical_json_bytes (JObj (e_payload event)) = Ok b ∧ is_identifier c = true ∧
    outbox_events d !! e_event_id event = None ∧ outbox_row_check d (added_row event b c) = true ∧
    d' = with_outbox (e_event_id event) (added_row event b c) d.
Proof.
  unfold add. intros (explicit & d1 & Hex & H)%bind_Ok_inv.
  assert (d1 = d) as ->
    by (destruct (obj_get (e_payload event) _) as [[]|]; unfold ret, raise in Hex; by injection Hex).
  apply bind_Ok_inv in H as (c & d1 & Hc & H).
  assert (d1 = d ∧ is_identifier c = true) as [-> Hid].
  { destruct (e_memorial_id event) as [m|]; [by eapply correlation_Ok_inv|].
    apply require_correlation_id_inv in Hc as [-> [[[= <-] ?]|]]; done. }
  apply bind_Ok_inv in H as (b & d1 & Hb & H). unfold of_result in Hb. injection Hb as Hb <-.
  apply sql_insert_Ok_inv in H as (Hn & Hrc & _ & ->). by exists b, c.
Qed.
Lemma add_row event d u d' :
  add event d = (Ok u, d') →
  ∃ b c, canonical_json_bytes (JObj (e_payload event)) = Ok b ∧ outbox_events d !! e_event_id event = None ∧
    outbox_row_check d (added_row event b c) = true ∧ d' = with_outbox (e_event_id event) (added_row event b c) d.
Proof. intros (b & c & ? & _ & ?)%add_row_correlated. by exists b, c. Qed.

Lemma outbox_step_ok d d' : outbox_inv d → outbox_step d d' → outbox_inv d' ∧ outbox_le d d'.
Proof.
  intros Hi (op & <-). destruct op as [e|o now l s|k o v now|k o v e t|k o v e now]; cbn.
  - destruct (atomically (add e) d) as [[u|x] d'] eqn:E; cbn; [|by apply atomically_Err in E as [-> _]].
    apply atomically_Ok_inv in E. apply add_row in E as (b & c & _ & Hn & Hrc & ->).
    split; [split|]; cbn.
    + intros k x [[<- <-]|[_ Hx]]%lookup_insert_Some; [done|by apply (oi_keyed d Hi)].
    + intros k x [[<- <-]|[_ Hx]]%lookup_insert_Some; [done|exact (oi_check d Hi _ _ Hx)].
    + intros k x [[<- <-]|[_ Hx]]%lookup_insert_Some; [done|exact (oi_leased d Hi _ _ Hx)].
    + intros k x [[<- <-]|[_ Hx]]%lookup_insert_Some; [by eexists|by eapply (oi_correlated d Hi)].
    + intros k x Hx. exists x. rewrite with_outbox_lookup, lookup_insert_ne by congruence.
      auto using progress_refl.
  - by apply claim_batch_ok.
  - apply (settle_ok d k o (SInt v) set_published now Hi). intros r Hk Hh.
    by apply (settle_good_cases d k r o _ _ (mkRedactedError "" "" false None) Hi Hk Hh).
  - apply (settle_ok d k o (SInt v) (set_failed e) t Hi). intros r Hk Hh.
    by apply (settle_good_cases d k r o _ _ e Hi Hk Hh).
  - apply (settle_ok d k o v (set_poisoned e) now Hi). intros r Hk Hh.
    by apply (settle_good_cases d k r o _ _ e Hi Hk Hh).
Qed.

Lemma outbox_steps_ok d d' : outbox_inv d → rtc outbox_step d d' → outbox_inv d' ∧ outbox_le d d'.
Proof.
  intros Hi. induction 1 as [d|d1 d2 d3 H12 _ IH]; [done|].
  destruct (outbox_step_ok _ _ Hi H12) as [Hi2 Hl2]. destruct (IH Hi2) as [Hi3 Hl3].
  split; [done|]. by etransitivity.
Qed.

(** Whether a settlement by [owner] at version [v] changed the event. *)
Inductive settlement :=
  | SPublish (now : datetime)
  | SFail (error : RedactedError) (available_at : datetime)
  | SPoison (error : RedactedError) (now : datetime).
Definition settle_by (s : settlement) (event_id owner : string) (v : Z) : M db bool :=
  match s with
  | SPublish now => mark_published event_id owner v now
  | SFail e t => mark_failed event_id owner v e t
  | SPoison e now => mark_poisoned event_id owner (SInt v) e now
  end.
Definition settlement_time (s : settlement) : datetime :=
  match s with SPublish now => now | SFail _ t => t | SPoison _ now => now end.
Definition settled_row (s : settlement) (r : outbox_row) : outbox_row :=
  match s with
  | SPublish now => set_published (wall now) r
  | SFail e t => set_failed e (wall t) r
  | SPoison e now => set_poisoned e (wall now) r
  end.

Lemma settle_by_eq s event_id owner v d :
  outbox_inv d → utcoffset (settlement_time s) = Some 0 →
  settle_by s event_id owner v d =
    match outbox_events d !! event_id with
    | Some r => if held owner (SInt v) r then (Ok true, with_outbox event_id (settled_row s r) d) else (Ok false, d)
    | None => (Ok false, d)
    end.
Proof.
  intros Hi Hu.
  destruct s as [now|e t|e now]; cbn in *.
  - apply (settle_eq d event_id owner (SInt v) set_published now Hi Hu). intros r Hk Hh.
    by apply (settle_good_cases d event_id r owner _ _ (mkRedactedError "" "" false None) Hi Hk Hh).
  - apply (settle_eq d event_id owner (SInt v) (set_failed e) t Hi Hu). intros r Hk Hh.
    by apply (settle_good_cases d event_id r owner _ _ e Hi Hk Hh).
  - apply (settle_eq d event_id owner (SInt v) (set_poisoned e) now Hi Hu). intros r Hk Hh.
    by apply (settle_good_cases d event_id r owner _ _ e Hi Hk Hh).
Qed.

Lemma held_spec owner v r :
  held owner v r = true ↔ ob_status r = OB_CLAIMED ∧ ob_lease_owner r = Some owner ∧ ob_version r = v.
Proof. unfold held. rewrite !andb_true_iff, !bool_decide_eq_true. tauto. Qed.

(** A row that was once held at version [v] and is held at [v] now is the
    same row. *)
Lemma held_unchanged d d' k r r' owner owner' v :
  outbox_le d d' → outbox_events d !! k = Some r → outbox_events d' !! k = Some r' →
  held owner (SInt v) r = true → held owner' (SInt v) r' = true → r' = r.
Proof.
  intros Hle Hk Hk' Hh Hh'. destruct (Hle k r Hk) as (x & Hx & _ & Hv). simplify_eq.
  unfold held in *. bools. destruct (Hv v) as (b & Hb & [->|[?|[? Hd]]]); [done|done| |]; simplify_eq.
  - rewrite Hb in *. simplify_eq. lia.
  - congruence.
Qed.

(** A settled row is never held at the settled version again. *)
Lemma settled_not_held s d d' k r r' owner owner' v :
  outbox_le (with_outbox k (settled_row s r) d) d' → held owner (SInt v) r = true →
  outbox_events d' !! k = Some r' → held owner' (SInt v) r' = false.
Proof.
  intros Hle Hh Hk'. destruct (Hle k (settled_row s r)) as (x & Hx & Hf & Hv); [by rewrite with_outbox_lookup, lookup_insert_eq|].
  assert (x = r') as -> by congruence. destruct (held owner' (SInt v) r') eqn:Hh'; [|done]. exfalso.
  apply held_spec in Hh as (S1 & _ & V1). apply held_spec in Hh' as (S2 & _ & V2).
  destruct s as [now|e t|e now]; cbn [settled_row] in *.
  - by rewrite (Hf eq_refl) in S2.
  - destruct (Hv (v + 1)) as (b & Hb & [E|[?|[? Hd]]]); [cbn; by rewrite V1| | |congruence].
    + rewrite E in V2. cbn in V2. rewrite V1 in V2. cbn in V2. simplify_eq. lia.
    + rewrite V2 in Hb. simplify_eq. lia.
  - by rewrite (Hf eq_refl) in S2.
Qed.

(** claim_batch returns exactly the first limit due events in its order, each moved to this
    owner with the attempt count and version advanced and the lease set, leaves every other
    event alone, and no later claim before the lease expires returns any of them. *)
Theorem claim_batch_correct d owner now limit lease :
  outbox_inv d → non_blank owner = true → 0 < limit → 0 < lease → utcoffset now = Some 0 →
  representable (wall now + lease * 1000000) = true →
  let exp := wall now + lease * 1000000 in
  let rows := batch d (wall now) limit in
  ∃ d', claim_batch owner now limit lease d = (Ok (claimed_record owner exp <$> rows), d') ∧
    outbox_inv d' ∧
    (∀ k, outbox_events d' !! k =
       if bool_decide (k ∈ ob_event_id <$> rows) then set_claimed owner exp <$> outbox_events d !! k
       else outbox_events d !! k) ∧
    ∀ now' limit', now' < exp → ∀ r, r ∈ batch d' now' limit' → ob_event_id r ∉ ob_event_id <$> rows.
Proof.
  intros Hi Ho Hl Hs Hu Hr. cbv zeta. destruct (claim_batch_eq d owner now limit lease) as (Heq & Hi' & _); try done.
  destruct (batch_spec d (wall now) limit Hi) as [Hn Hall].
  eexists. split; [exact Heq|]. split; [exact Hi'|]. split.
  - intros k. case_bool_decide as Hk; [|by apply claim_rows_lookup].
    apply list_elem_of_fmap in Hk as (r & -> & Hin). rewrite claim_rows_lookup_in by done.
    by rewrite (proj1 (Hall r Hin)).
  - intros now' limit' Hlt r Hin Hk. destruct (batch_spec _ now' limit' Hi') as [_ Hall'].
    destruct (Hall' r Hin) as [Hr' Hc]. apply list_elem_of_fmap in Hk as (r0 & E & Hin0).
    rewrite E, claim_rows_lookup_in in Hr' by done. injection Hr' as <-. unfold claimable in Hc. cbn in Hc.
    bools. lia.
Qed.

(** A claim is settled at most once: if its holder publishes, fails or poisons the event,
    then whatever calls happened in between the row was still the claimed one, and no later
    settlement with the same version succeeds, by anyone. *)
Theorem claim_settles_once s event_id owner v d d1 d2 d3 r :
  outbox_inv d → outbox_events d !! event_id = Some r → held owner (SInt v) r = true →
  rtc outbox_step d d1 → utcoffset (settlement_time s) = Some 0 →
  settle_by s event_id owner v d1 = (Ok true, d2) → rtc outbox_step d2 d3 →
  outbox_events d1 !! event_id = Some r ∧ outbox_events d2 !! event_id = Some (settled_row s r) ∧
  ∀ s' owner', utcoffset (settlement_time s') = Some 0 → settle_by s' event_id owner' v d3 = (Ok false, d3).
Proof.
  intros Hi Hk Hh H1 Hu Hs H3. destruct (outbox_steps_ok _ _ Hi H1) as [Hi1 Hle1].
  destruct (Hle1 _ _ Hk) as (r1 & Hk1 & _). rewrite settle_by_eq, Hk1 in Hs by done.
  destruct (held owner (SInt v) r1) eqn:Hh1; [|done]. injection Hs as <-.
  assert (r1 = r) as -> by exact (held_unchanged _ _ _ _ _ _ _ _ Hle1 Hk Hk1 Hh Hh1). split; [done|].
  split; [by rewrite with_outbox_lookup, lookup_insert_eq|]. intros s' owner' Hu'.
  assert (Hi2 : outbox_inv (with_outbox event_id (settled_row s r) d1)).
  { eapply good_update_ok; [done|exact Hk1|].
    destruct s as [now|e t|e now]; cbn;
      [destruct (settle_good_cases d1 event_id r owner (SInt v) (wall now) (mkRedactedError "" "" false None) Hi1 Hk1 Hh1)
        as (? & _ & _)
      |destruct (settle_good_cases d1 event_id r owner (SInt v) (wall t) e Hi1 Hk1 Hh1) as (_ & ? & _)
      |destruct (settle_good_cases d1 event_id r owner (SInt v) (wall now) e Hi1 Hk1 Hh1) as (_ & _ & ?)]; done. }
  destruct (outbox_steps_ok _ _ Hi2 H3) as [Hi3 Hle3]. rewrite settle_by_eq by done.
  destruct (outbox_events d3 !! event_id) as [r3|] eqn:Hk3; [|done].
  by rewrite (settled_not_held s d1 d3 event_id r r3 owner owner' v Hle3 Hh Hk3).
Qed.

(** A published or poisoned event never changes again: no claim returns it and no settlement
    succeeds on it, along any sequence of outbox calls. *)
Theorem delivered_event_final d d' event_id r :
  outbox_inv d → outbox_events d !! event_id = Some r → final r = true → rtc outbox_step d d' →
  outbox_events d' !! event_id = Some r ∧
  (∀ now limit, r ∉ batch d' now limit) ∧
  ∀ s owner v, utcoffset (settlement_time s) = Some 0 → settle_by s event_id owner v d' = (Ok false, d').
Proof.
  intros Hi Hk Hf H. destruct (outbox_steps_ok _ _ Hi H) as [Hi' Hle].
  destruct (Hle _ _ Hk) as (r' & Hk' & Hfin & _). rewrite (Hfin Hf) in Hk'. split; [done|]. split.
  - intros now limit Hin. destruct (batch_spec d' now limit Hi') as [_ Hall].
    destruct (Hall r Hin) as [_ Hc]. unfold claimable, final in *. by destruct (ob_status r).
  - intros s owner v Hu. rewrite settle_by_eq, Hk' by done.
    destruct (held owner (SInt v) r) eqn:Hh; [|done]. apply held_spec in Hh as (Hst & _).
    unfold final in Hf. by rewrite Hst in Hf.
Qed.

(** ** Consumptions *)

Definition consumers (d : db) (event_id : string) : gset string :=
  list_to_set (omap (λ k : string * string, if bool_decide (k.1 = event_id) then Some k.2 else None)
                 (map_to_list (outbox_consumptions d)).*1).

Lemma elem_of_consumers d event_id c :
  c ∈ consumers d event_id ↔ is_Some (outbox_consumptions d !! (event_id, c)).
Proof.
  unfold consumers. rewrite elem_of_list_to_set, list_elem_of_omap. split.
  - intros ([e c'] & Hin & Hx). cbn in Hx. case_bool_decide; simplify_eq.
    apply list_elem_of_fmap in Hin as ([k row] & E & Hin). cbn in E. simplify_eq.
    apply elem_of_map_to_list in Hin. eauto.
  - intros [row Hrow]. exists (event_id, c). cbn. rewrite bool_decide_eq_true_2 by done. split; [|done].
    apply list_elem_of_fmap. exists (event_id, c, row). split; [done|]. by apply elem_of_map_to_list.
Qed.

(** [record_consumption] adds the consumer to the consumed ones of the event
    and writes nothing else. *)
Lemma record_consumption_eq d event_id c h now :
  non_blank c = true → is_some (outbox_events d !! event_id) = true →
  ∃ m, record_consumption event_id c h now d =
         (Ok (negb (bool_decide (c ∈ consumers d event_id))), set_outbox_consumptions m d) ∧
    ∀ e, consumers (set_outbox_consumptions m d) e =
           if bool_decide (e = event_id) then {[c]} ∪ consumers d e else consumers d e.
Proof.
  intros Hc He. unfold record_consumption. rewrite Hc, (bind_Ok _ _ _ _ _ (guard_true _ _ d)).
  unfold atomically, insert_consumption, bind.
  destruct (outbox_consumptions d !! (event_id, c)) as [row|] eqn:Hrow.
  - exists (outbox_consumptions d). assert (Hin : c ∈ consumers d event_id) by (apply elem_of_consumers; by rewrite Hrow).
    rewrite bool_decide_eq_true_2 by done. split; [by destruct d|]. intros e.
    change (consumers (set_outbox_consumptions (outbox_consumptions d) d) e) with (consumers d e).
    case_bool_decide; [subst|done]. clear -Hin. set_solver.
  - exists (<[(event_id, c) := mkConsumption h now]> (outbox_consumptions d)).
    assert (Hin : c ∉ consumers d event_id) by (rewrite elem_of_consumers, Hrow; by intros [? ?]).
    rewrite bool_decide_eq_false_2, He by done. split; [done|]. intros e. apply set_eq. intros x.
    rewrite elem_of_consumers. cbn [outbox_consumptions set_outbox_consumptions].
    case_bool_decide as E; rewrite ?elem_of_union, elem_of_consumers; rewrite ?elem_of_singleton.
    + subst e. destruct (decide (x = c)) as [->|Hne]; [rewrite lookup_insert_eq; naive_solver|].
      rewrite lookup_insert_ne by congruence. naive_solver.
    + by rewrite lookup_insert_ne by congruence.
Qed.

(** record_consumption returns True exactly the first time for an event and a consumer, and
    afterwards the consumer is among the consumed ones of that event only. *)
Theorem consumption_recorded_once d event_id c h now h' now' :
  non_blank c = true → is_some (outbox_events d !! event_id) = true →
  ∃ d', record_consumption event_id c h now d = (Ok (negb (bool_decide (c ∈ consumers d event_id))), d') ∧
    consumed_consumers event_id d' = (Ok ({[c]} ∪ consumers d event_id), d') ∧
    (∀ e, e ≠ event_id → consumers d' e = consumers d e) ∧ outbox_events d' = outbox_events d ∧
    (record_consumption event_id c h' now' d').1 = Ok false.
Proof.
  intros Hc He. destruct (record_consumption_eq d event_id c h now Hc He) as (m & -> & Hm).
  exists (set_outbox_consumptions m d). split; [done|].
  assert (Hset : ∀ x d, consumed_consumers x d = (Ok (consumers d x), d)) by done.
  rewrite Hset, Hm, bool_decide_eq_true_2 by done. split; [done|].
  split; [intros e Hne; by rewrite Hm, bool_decide_eq_false_2|]. split; [done|].
  destruct (record_consumption_eq (set_outbox_consumptions m d) event_id c h' now' Hc He) as (m' & -> & _).
  cbn [fst]. rewrite bool_decide_eq_true_2; [done|]. rewrite Hm, bool_decide_eq_true_2 by done. clear. set_solver.
Qed.

(** ** A concrete outbox *)

Module OutboxSample.
Definition event (id : string) (at_ : Z) : EventEnvelope :=
  mkEvent id "edict.submitted" None None (SInt 1) at_ "api" [("title", JStr "report")].
Definition d0 : db := empty_db.
Definition d1 : db := exec_outbox (OAdd (event "ev-1" 100)) d0.
Definition d2 : db := exec_outbox (OClaim "worker-a" (utc_at 200) 10 30) d1.
Definition d3 : db := exec_outbox (OPublish "ev-1" "worker-a" 2 (utc_at 300)) d2.
Definition failure : RedactedError := mkRedactedError "late" "too late" true None.

Lemma outbox_inv0 : outbox_inv d0.
Proof. split; intros k r H; cbn in H; by rewrite lookup_empty in H. Qed.
Lemma step01 : outbox_step d0 d1.
Proof. by exists (OAdd (event "ev-1" 100)). Qed.
Lemma outbox_step12 : outbox_step d1 d2.
Proof. by exists (OClaim "worker-a" (utc_at 200) 10 30). Qed.
Lemma step23 : outbox_step d2 d3.
Proof. by exists (OPublish "ev-1" "worker-a" 2 (utc_at 300)). Qed.
Lemma outbox_inv1 : outbox_inv d1.
Proof. exact (proj1 (outbox_step_ok _ _ outbox_inv0 step01)). Qed.
Lemma outbox_inv2 : outbox_inv d2.
Proof. exact (proj1 (outbox_step_ok _ _ outbox_inv1 outbox_step12)). Qed.
Lemma outbox_inv3 : outbox_inv d3.
Proof. exact (proj1 (outbox_step_ok _ _ outbox_inv2 step23)). Qed.
Definition row1 : outbox_row :=
  mkOutboxRow "ev-1" "edict.submitted" "system" None None "api"
    (String.string_of_list_ascii (dumps (JObj [("title", JStr "report")]))) 100 100 OB_PENDING (SInt 0) 20
    None None None None (SInt 1) (Some (event_correlation "ev-1")).
Lemma outbox_lookup2 : outbox_events d2 !! "ev-1" = Some (set_claimed "worker-a" 30000200 row1).
Proof. vm_compute. reflexivity. Qed.
Lemma lookup3 :
  outbox_events d3 !! "ev-1" = Some (set_published 300 (set_claimed "worker-a" 30000200 row1)).
Proof. vm_compute. reflexivity. Qed.
Lemma published : settle_by (SPublish (utc_at 300)) "ev-1" "worker-a" 2 d2 = (Ok true, d3).
Proof. vm_compute. reflexivity. Qed.
End OutboxSample.

Lemma claim_batch_correct_witness :
  (claim_batch "worker-a" (utc_at 200) 10 30 OutboxSample.d1).1 =
    Ok [claimed_record "worker-a" 30000200 OutboxSample.row1].
Proof.
  assert (H1 : 0 < 10) by lia. assert (H2 : 0 < 30) by lia.
  destruct (claim_batch_correct OutboxSample.d1 "worker-a" (utc_at 200) 10 30 OutboxSample.outbox_inv1 eq_refl
    H1 H2 eq_refl eq_refl) as (d' & H & _).
  rewrite H. vm_compute. reflexivity.
Defined.

Lemma claim_settles_once_witness :
  settle_by (SFail OutboxSample.failure (utc_at 400)) "ev-1" "worker-b" 2 OutboxSample.d3 =
    (Ok false, OutboxSample.d3).
Proof.
  exact (proj2 (proj2 (claim_settles_once (SPublish (utc_at 300)) "ev-1" "worker-a" 2 OutboxSample.d2
    OutboxSample.d2 OutboxSample.d3 OutboxSample.d3 _ OutboxSample.outbox_inv2 OutboxSample.outbox_lookup2 eq_refl
    (rtc_refl _ _) eq_refl OutboxSample.published (rtc_refl _ _)))
    (SFail OutboxSample.failure (utc_at 400)) "worker-b" eq_refl).
Defined.

Lemma delivered_event_final_witness :
  settle_by (SPublish (utc_at 900)) "ev-1" "worker-a" 3 OutboxSample.d3 = (Ok false, OutboxSample.d3).
Proof.
  exact (proj2 (proj2 (delivered_event_final _ _ _ _ OutboxSample.outbox_inv3 OutboxSample.lookup3 eq_refl
    (rtc_refl _ _))) (SPublish (utc_at 900)) "worker-a" 3 eq_refl).
Defined.

Lemma consumption_recorded_once_witness :
  ∃ d', record_consumption "ev-1" "memorial_writer" None 500 OutboxSample.d2 =
          (Ok (negb (bool_decide ("memorial_writer" ∈ consumers OutboxSample.d2 "ev-1"))), d').
Proof.
  destruct (consumption_recorded_once OutboxSample.d2 "ev-1" "memorial_writer" None 500 None 600 eq_refl eq_refl)
    as (d' & H & _). exists d'. exact H.
Defined.
