(* ===== verification/DecisionService.v ===== *)
(** * The decision service

    Models src/src/tianshu/governance/decision_service.py: the service that
    owns the identity of a decision request, its resolution and expiry, and
    the audit rows and outbox events they write.  It composes the decision,
    run state, outbox and system audit repositories inside units of work, and
    several refusals commit an audit row before they raise, so its operations
    are computations on a [session].

    The clocks and the fresh identifiers ([str(ULID())]) of a call are its
    environment [env]. *)

From stdpp Require Import pretty.
From S2P Require Import Prelude.
From S2P Require Import Sql.
From S2P Require Import Canonical.
From S2P Require Import JsonParse.
From S2P Require Import Timestamp.
From S2P Require Import SensitivePayload.
From S2P Require Import UnitOfWork.
From S2P Require Import Models.
From S2P Require Import Schema.
From S2P Require Import Correlation.
From S2P Require Import RunStateRepo.
From S2P Require Import DecisionRepo.
From S2P Require Import SystemAudit.
From S2P Require Import Outbox.

(** Authenticated actors (models/principal.py). *)
Inductive PrincipalKind := PK_LOCAL | PK_HUMAN | PK_SERVICE | PK_WEBHOOK.
Inductive AuthenticationSource := TRUSTED_LOCAL | BEARER | SESSION_COOKIE | AS_WEBHOOK.
Inductive ClientKind := CK_WEB | CK_CLI | CK_MCP | CK_API | CK_WEBHOOK | CK_SYSTEM.
Record Principal := mkPrincipal {
  p_id : string;
  p_kind : PrincipalKind;
  p_display_name : string;
  p_scopes : list string;
}.
Record AuthContext := mkAuth {
  a_principal : Principal;
  a_source : AuthenticationSource;
  a_credential_id : option string;
  a_client_kind : ClientKind;
  a_correlation_id : string;
  a_remote_addr : option string;
}.

Record env := mkEnv {
  clock : datetime;            (* [self._clock()] *)
  audit_clock : Z;             (* the clock of an audit row *)
  request_ulid : string;
  audit_ulid : string;
  event_ulid : nat → string;   (* the identifiers of the events of one call *)
}.

Definition PRODUCER : string := "governance.decision_service.v1".

(** [_utc] *)
Definition service_utc {S} (v : datetime) : M S Z :=
  match utcoffset v with
  | None => raise DecisionValidationError "invalid_decision_timestamp"
  | Some off => checked_instant (wall v - off)
  end.

(** [_digest] *)
Definition digest (value : string) : string := Sha256.hexdigest value.

(** [_audit_request] *)
Definition audit_request (auth : AuthContext) (action reason_code decision_request_id : string)
    (metadata : list (string * json)) : result AppendSystemAuditRequest :=
  let q := mkAppendRequest (a_correlation_id auth) (digest (p_id (a_principal auth))) action "denied"
             reason_code "decision_request" (digest decision_request_id) metadata in
  if append_request_valid q then Ok q else Err (Exn ValueError "AppendSystemAuditRequest validation failed").

(** [_conflict_code] *)
Definition conflict_code (reason_code : string) : string :=
  let code s := bool_decide (reason_code = s) in
  if code "cancelled" then "decision_cancelled"
  else if code "deadline_elapsed" then "decision_expired"
  else if code "expired" then "decision_expired"
  else if code "resolved" then "decision_already_resolved"
  else if code "stale_version" then "decision_stale"
  else "decision_conflict".

(** [assert_can_grant(tool_name, "always")] (tools/policy_store.py): the
    message of the error it raises *)
Definition assert_can_grant (tool_name scope : string) : option string :=
  if bool_decide (scope = "always") && member tool_name ["shell_exec"; "bash"]
  then Some ("Cannot grant 'always' scope to bash-family tool '" +:+ tool_name +:+ "'")
  else None.

(** [_normalize_tool_resolution]: the payload of an approval is rebuilt from
    the requested scope and the stored tool name. *)
Definition normalize_tool_resolution (request : DecisionRequestV1) (command : ResolveDecisionCommand) :
    ResolveDecisionCommand :=
  if negb (bool_decide (d_kind request = K_TOOL)) || negb (bool_decide (vc_action command = "approve"))
  then command
  else
    let requested_scope :=
      match obj_get (vc_payload command) "grant_scope" with
      | Some v => if truthy v then v else JStr "once"
      | None => JStr "once"
      end in
    let tool_name := match obj_get (d_payload request) "tool_name" with Some (JStr s) => s | _ => "" end in
    let downgrade_reason :=
      if bool_decide (requested_scope = JStr "always") then assert_can_grant tool_name "always" else None in
    let effective_scope := match downgrade_reason with Some _ => JStr "once" | None => requested_scope end in
    mkResolveCommand (vc_action command) (vc_reason command)
      [("grant_downgrade_reason", match downgrade_reason with Some m => JStr m | None => JNull end);
       ("grant_downgraded", JBool (is_some downgrade_reason));
       ("grant_reason", default JNull (obj_get (vc_payload command) "grant_reason"));
       ("grant_scope", effective_scope);
       ("requested_grant_scope", requested_scope);
       ("schema_version", JInt 1)]
      (vc_expected_version command).

(** [_resolution_conflict] *)
Definition resolution_conflict (record : DecisionRecordV1) (command : ResolveDecisionCommand) (now : Z) :
    option string :=
  let q := rec_request record in
  if negb (bool_decide (d_status q = PENDING)) then Some (status_value (d_status q))
  else if negb (d_version q =? vc_expected_version command) then Some "stale_version"
  else if d_expires_at q <=? now then Some "deadline_elapsed"
  else None.

(** [_terminal_phase] *)
Definition terminal_phase (record : DecisionRecordV1) : RunPhase :=
  if negb (bool_decide (d_kind (rec_request record) = K_PLAN_REVIEW)) then P_EXECUTING
  else if bool_decide (d_status (rec_request record) = RESOLVED) &&
          match rec_resolution record with Some r => bool_decide (r_action r = "approve") | None => false end
  then P_PLANNING
  else P_FAILED.

(** [pending_tool.model_copy(update={"proposed_at": ...})], when there is one *)
Definition set_proposed_at (at_ : Z) (c : ContinuationV1) : ContinuationV1 :=
  match c with
  | Agent a =>
      Agent (mkAgent (ac_messages a)
        ((λ p, mkProposal (tp_tool_call_id p) (tp_tool_name p) (tp_arguments p) (tp_arguments_hash p)
                 (tp_tool_tier p) (tp_policy_rule_id p) at_) <$> ac_pending_tool a)
        (ac_iteration a) (ac_usage a) (ac_checkpoint_ref a) (ac_pending_decision_id a)
        (ac_resolved_decision_id a) (ac_side_effect_cursor a) (ac_plan_ref a) (ac_plan_hash a)
        (ac_plan_revision_id a) (ac_plan_revisions a) (ac_plan_snapshot a) (ac_scheduled_event_id a)
        (ac_scheduled_event_hash a))
  | OuterLoop o => c
  end.
(** [run_state.model_copy(update={...})] of the fields the service replaces *)
Definition set_state (phase : RunPhase) (c : ContinuationV1) (version created updated : Z) (s : RunStateV1) :
    RunStateV1 :=
  mkRunState (rs_memorial_id s) (rs_edict_id s) phase c (rs_checkpoint_ref s) (rs_side_effect_cursor s)
    version created updated.

(** Python's [==] on two states: numbers by value, decimals too. *)
Definition decimal_equal (x y : Z * Z) : bool :=
  let e := Z.min x.2 y.2 in x.1 * 10 ^ (x.2 - e) =? y.1 * 10 ^ (y.2 - e).
Definition states_equal (a b : RunStateV1) : bool :=
  py_eq (RunStateRepo.state_dump a) (RunStateRepo.state_dump b) &&
  match rs_continuation a, rs_continuation b with
  | OuterLoop x, OuterLoop y => decimal_equal (oc_total_cost_cny x) (oc_total_cost_cny y)
  | _, _ => true
  end.

Section decision_service.
Context (redact_text : string → string) (float_of : string → pyfloat) (lax_int : pyfloat → option Z)
        (parse_datetime : string → option datetime).

(** [_append_system_audit_unlocked] with the environment of the call *)
Definition append_audit (e : env) (q : AppendSystemAuditRequest) : M db SystemAuditEventV1 :=
  append_system_audit_unlocked float_of lax_int parse_datetime (audit_ulid e) (audit_clock e) q.

(** ** Requests *)

(** [_new_request] *)
Definition new_request (e : env) (command : RequestDecisionCommand) (auth : AuthContext) (now : Z) :
    M (session db) DecisionRequestV1 :=
  guard (now <? rc_expires_at command) DecisionValidationError "invalid_decision_expiry" ;;;
  let! payload_hash := of_result (canonical_sha256 (JObj (rc_payload command))) in
  let q := mkDecision (request_ulid e) (rc_kind command) (rc_edict_id command) (rc_memorial_id command)
             (rc_request_key command) (rc_payload command) payload_hash (p_id (a_principal auth))
             (rc_expires_at command) PENDING 1 now now in
  guard (decision_valid q) ValueError "DecisionRequestV1 validation failed" ;;;
  ret q.

(** The audit row of an identity conflict, on the caller's connection. *)
Definition audit_identity_conflict (e : env) (q : DecisionRequestV1) (command : RequestDecisionCommand)
    (auth : AuthContext) (existing_request_id : option string) : M db unit :=
  let id := match existing_request_id with
            | Some x => if bool_decide (x = "") then decision_request_id q else x
            | None => decision_request_id q
            end in
  let! r := of_result (audit_request auth "decision.request.denied" "decision_identity_conflict" id
                         [("kind", JStr (kind_value (rc_kind command)))]) in
  append_audit e r ;;; ret tt.

(** [_add_request] *)
Definition add_request (e : env) (q : DecisionRequestV1) (command : RequestDecisionCommand)
    (auth : AuthContext) : M (session db) DecisionRequestV1 :=
  try_except
    (on_connection (DecisionRepo.add_or_get q (Some (a_correlation_id auth))))
    DecisionIdentityConflict
    (λ x, on_connection (audit_identity_conflict e q command auth (exn_detail x)) ;;;
          uow_commit ;;;
          raise DecisionConflict "decision_identity_conflict").

(** [request] *)
Definition request (e : env) (command : RequestDecisionCommand) (auth : AuthContext) :
    M (session db) DecisionRequestV1 :=
  let! now := service_utc (clock e) in
  let! q := new_request e command auth now in
  with_uow (let! saved := add_request e q command auth in uow_commit ;;; ret saved).

(** [request_in_transaction]: on the caller's unit of work, which commits *)
Definition request_in_transaction (e : env) (command : RequestDecisionCommand) (auth : AuthContext) :
    M (session db) DecisionRequestV1 :=
  let! now := service_utc (clock e) in
  let! q := new_request e command auth now in
  try_except
    (on_connection (DecisionRepo.add_or_get q (Some (a_correlation_id auth))))
    DecisionIdentityConflict
    (λ x, on_connection (audit_identity_conflict e q command auth (exn_detail x)) ;;;
          raise DecisionConflict "decision_identity_conflict").

(** [continuation_matches_kind] *)
Definition continuation_matches_kind (command : RequestDecisionCommand) (c : ContinuationV1) :
    result bool :=
  match rc_kind command, c with
  | K_TOOL, Agent a => Ok (is_some (ac_pending_tool a) && is_none (ac_plan_ref a))
  | K_OUTER_LOOP, OuterLoop _ => Ok true
  | K_PLAN_REVIEW, Agent a =>
      match ac_plan_ref a, ac_plan_hash a with
      | Some ref, Some h =>
          if is_none (ac_pending_tool a) &&
             bool_decide (obj_get (rc_payload command) "plan_ref" = Some (JStr ref)) &&
             bool_decide (obj_get (rc_payload command) "plan_hash" = Some (JStr h))
          then match obj_get (rc_payload command) "plan" with
               | Some (JObj p) =>
                   match canonical_sha256 (JObj p) with
                   | Ok x => Ok (bool_decide (x = h))
                   | Err x => Err x
                   end
               | _ => Ok false
               end
          else Ok false
      | _, _ => Ok false
      end
  | _, _ => Ok false
  end.

(** [_require_terminal_replay] *)
Definition require_terminal_replay (saved requested : DecisionRequestV1) (s : RunStateV1) : M db unit :=
  let conflict := raise DecisionConflict "decision_run_state_conflict" in
  let! record := DecisionRepo.get (decision_request_id saved) in
  match record with
  | None => conflict
  | Some x =>
      let! found := RunStateRepo.load redact_text (d_memorial_id saved) in
      match found with
      | None => conflict
      | Some current =>
          let business := set_proposed_at (d_created_at saved) (rs_continuation s) in
          let copy phase c := set_state phase c (rs_version current) (rs_created_at current)
                                (rs_updated_at current) s in
          let waiting := copy P_WAITING_DECISION
                           (set_decisions (Some (decision_request_id saved)) None business) in
          let resumed := copy (terminal_phase x)
                           (set_decisions None (Some (decision_request_id saved)) business) in
          if negb (bool_decide (d_payload_hash saved = d_payload_hash requested)) ||
             negb (states_equal current waiting || states_equal current resumed)
          then conflict else ret tt
      end
  end.

(** The part of [request_with_run_state] that stores the waiting state of a
    pending decision. *)
Definition bind_run_state (saved : DecisionRequestV1) (s : RunStateV1) : M db unit :=
  let pending c := set_decisions (Some (decision_request_id saved)) (resolved_decision_id c) c in
  let continuation := set_proposed_at (d_created_at saved) (pending (rs_continuation s)) in
  let bound := set_state (rs_phase s) continuation (rs_version s) (d_created_at saved) (d_created_at saved) s in
  let! found := RunStateRepo.load redact_text (rs_memorial_id s) in
  match found with
  | None => RunStateRepo.create redact_text bound ;;; ret tt
  | Some current =>
      if states_equal current bound ||
         (bool_decide (rs_phase current = P_WAITING_DECISION) &&
          bool_decide (pending_decision_id (rs_continuation current) = Some (decision_request_id saved)) &&
          states_equal current (set_state (rs_phase bound) (rs_continuation bound) (rs_version current)
                                  (rs_created_at current) (rs_updated_at current) bound))
      then ret tt
      else if bool_decide (rs_phase current = P_EXECUTING) &&
              is_none (pending_decision_id (rs_continuation current)) &&
              is_some (resolved_decision_id (rs_continuation current))
      then
        RunStateRepo.compare_and_swap redact_text
          (set_state (rs_phase bound) (rs_continuation bound) (rs_version current) (rs_created_at current)
             (Z.max (rs_updated_at bound) (rs_updated_at current)) bound)
          (rs_version current) ;;;
        ret tt
      else raise DecisionConflict "decision_run_state_conflict"
  end.

(** [request_with_run_state] *)
Definition request_with_run_state (e : env) (command : RequestDecisionCommand) (s : RunStateV1)
    (auth : AuthContext) : M (session db) DecisionRequestV1 :=
  let! matches_kind := of_result (continuation_matches_kind command (rs_continuation s)) in
  guard (bool_decide (rs_phase s = P_WAITING_DECISION) &&
         bool_decide (rs_edict_id s = rc_edict_id command) &&
         bool_decide (rs_memorial_id s = rc_memorial_id command) && matches_kind)
    DecisionValidationError "invalid_decision_run_state" ;;;
  let! now := service_utc (clock e) in
  let! q := new_request e command auth now in
  with_uow
    (let! saved := add_request e q command auth in
     (if negb (bool_decide (d_status saved = PENDING))
      then on_connection (require_terminal_replay saved q s)
      else on_connection (bind_run_state saved s)) ;;;
     uow_commit ;;;
     ret saved).

(** [_mark_run_state_terminal], and the two methods that call it *)
Definition settle_run_state (decision_id : string) (allowed : list DecisionStatus) : M db RunStateV1 :=
  let conflict := raise DecisionConflict "decision_run_state_conflict" in
  let! found := DecisionRepo.get decision_id in
  match found with
  | None => conflict
  | Some record =>
      if negb (bool_decide (d_kind (rec_request record) ∈ [K_TOOL; K_OUTER_LOOP; K_PLAN_REVIEW])) ||
         negb (bool_decide (d_status (rec_request record) ∈ allowed))
      then conflict
      else
        let! loaded := RunStateRepo.load redact_text (d_memorial_id (rec_request record)) in
        match loaded with
        | None => conflict
        | Some current =>
            let c := rs_continuation current in
            if bool_decide (rs_phase current = terminal_phase record) && is_none (pending_decision_id c) &&
               bool_decide (resolved_decision_id c = Some decision_id)
            then ret current
            else if negb (bool_decide (rs_phase current = P_WAITING_DECISION)) ||
                    negb (bool_decide (pending_decision_id c = Some decision_id))
            then conflict
            else
              RunStateRepo.compare_and_swap redact_text
                (set_state (terminal_phase record) (set_decisions None (Some decision_id) c)
                   (rs_version current) (rs_created_at current)
                   (Z.max (rs_updated_at current)
                      (match rec_resolution record with
                       | Some r => resolved_at r
                       | None => d_updated_at (rec_request record)
                       end)) current)
                (rs_version current)
        end
  end.
Definition mark_run_state_resolved (decision_id : string) : M (session db) RunStateV1 :=
  with_uow (committing (settle_run_state decision_id [RESOLVED])).
Definition mark_run_state_terminal (decision_id : string) : M (session db) RunStateV1 :=
  with_uow (committing (settle_run_state decision_id [RESOLVED; EXPIRED; CANCELLED])).

(** [get], [get_for_submitter], [list_pending], [list_pending_owned] *)
Definition service_get (id : string) : M (session db) (option DecisionRecordV1) :=
  with_uow (committing (DecisionRepo.get id)).
Definition service_get_for_submitter (id submitter : string) : M (session db) (option DecisionRecordV1) :=
  with_uow (committing (DecisionRepo.get_for_submitter id submitter)).
Definition service_list_pending (kind : option DecisionKind) : M (session db) (list DecisionRequestV1) :=
  with_uow (committing (DecisionRepo.list_pending kind)).
Definition service_list_pending_owned (submitter : string) (kind : option DecisionKind) (limit : Z) :
    M (session db) (list DecisionRequestV1) :=
  with_uow (committing (DecisionRepo.list_pending_owned submitter kind limit)).

(** ** Resolution *)

(** The metadata of [_deny_resolution], in key order. *)
Definition denial_metadata (kind : option DecisionKind) (status : string)
    (expected_version actual_version : option Z) : list (string * json) :=
  match actual_version with Some v => [("actual_version", JInt v)] | None => [] end ++
  match expected_version with Some v => [("expected_version", JInt v)] | None => [] end ++
  match kind with Some k => [("kind", JStr (kind_value k))] | None => [] end ++
  [("status", JStr status)].

(** [_deny_resolution] *)
Definition audit_denial (e : env) (auth : AuthContext) (id reason_code : string) (kind : option DecisionKind)
    (status : string) (expected_version actual_version : option Z) : M db unit :=
  let! q := of_result (audit_request auth "decision.resolve.denied" reason_code id
                         (denial_metadata kind status expected_version actual_version)) in
  append_audit e q ;;; ret tt.
Definition deny_resolution (e : env) (auth : AuthContext) (id reason_code : string) (kind : option DecisionKind)
    (status : string) (expected_version actual_version : option Z) : M (session db) unit :=
  on_connection (audit_denial e auth id reason_code kind status expected_version actual_version) ;;;
  uow_commit.

(** [_deny_resolution(...)] of a stored request, then the error *)
Definition refuse {A} (e : env) (auth : AuthContext) (q : DecisionRequestV1) (expected_version : Z)
    (reason_code : string) (c : exn_class) : M (session db) A :=
  deny_resolution e auth (decision_request_id q) reason_code (Some (d_kind q)) (status_value (d_status q))
    (Some expected_version) (Some (d_version q)) ;;;
  raise c reason_code.

Definition resolved_event (e : env) (auth : AuthContext) (x : DecisionRecordV1) (action : string) (now : Z) :
    Outbox.EventEnvelope :=
  let q := rec_request x in
  Outbox.mkEvent (event_ulid e 0) "decision.resolved" (Some (d_edict_id q)) (Some (d_memorial_id q)) (SInt 1) now
    PRODUCER
    [("schema_version", JInt 1); ("decision_request_id", JStr (decision_request_id q));
     ("kind", JStr (kind_value (d_kind q))); ("action", JStr action);
     ("request_version", JInt (d_version q)); ("correlation_id", JStr (a_correlation_id auth))].

(** The accepted part of [resolve]: the compare-and-swap and the event. *)
Definition apply_resolution (e : env) (auth : AuthContext) (q : DecisionRequestV1)
    (resolution : DecisionResolutionV1) (expected_version now : Z) : M (session db) DecisionResolutionV1 :=
  let! resolved :=
    try_except (on_connection (DecisionRepo.resolve resolution expected_version now)) DecisionStateConflict
      (λ x, let code := if bool_decide (exn_message x = "not_found") then "decision_not_found"
                        else conflict_code (exn_message x) in
            refuse e auth q expected_version code
              (if bool_decide (code = "decision_not_found") then DecisionNotFound else DecisionConflict)) in
  on_connection (Outbox.add (resolved_event e auth resolved (r_action resolution) now)) ;;;
  uow_commit ;;;
  ret resolution.

(** The body of [resolve] inside its unit of work. *)
Definition resolve_body (e : env) (id : string) (command : ResolveDecisionCommand) (auth : AuthContext)
    (now : Z) : M (session db) DecisionResolutionV1 :=
  let! found := on_connection (DecisionRepo.get id) in
  match found with
  | None =>
      deny_resolution e auth id "decision_not_found" None "missing" (Some (vc_expected_version command)) None ;;;
      raise DecisionNotFound "decision_not_found"
  | Some record =>
      let q := rec_request record in
      if bool_decide (d_kind q = K_GOVERNED_APPLY) && negb (member "workspace:apply" (p_scopes (a_principal auth)))
      then refuse e auth q (vc_expected_version command) "workspace_apply_scope_required" DecisionAuthorizationError
      else if negb (resolution_payload_valid (d_kind q) (vc_action command) (vc_payload command))
      then refuse e auth q (vc_expected_version command) "invalid_decision_resolution" DecisionValidationError
      else
        let command := normalize_tool_resolution q command in
        match resolution_conflict record command now with
        | Some reason =>
            refuse e auth q (vc_expected_version command) (conflict_code reason) DecisionConflict
        | None =>
            let resolution := mkResolution id (vc_action command) (vc_reason command) (vc_payload command)
                                (p_id (a_principal auth)) (p_display_name (a_principal auth)) now in
            guard (resolution_valid resolution) ValueError "DecisionResolutionV1 validation failed" ;;;
            apply_resolution e auth q resolution (vc_expected_version command) now
        end
  end.

(** [resolve] *)
Definition service_resolve (e : env) (id : string) (command : ResolveDecisionCommand) (auth : AuthContext) :
    M (session db) DecisionResolutionV1 :=
  let! now := service_utc (clock e) in
  with_uow (resolve_body e id command auth now).

(** [deny_invalid_resolution] *)
Definition deny_invalid_resolution (e : env) (id : string) (auth : AuthContext) : M (session db) unit :=
  with_uow
    (let! found := on_connection (DecisionRepo.get id) in
     let q := rec_request <$> found in
     deny_resolution e auth id "invalid_decision_resolution" (d_kind <$> q)
       (match q with Some q => status_value (d_status q) | None => "missing" end) None (d_version <$> q)).

(** ** Expiry *)

Definition expired_event (e : env) (i : nat) (q : DecisionRequestV1) (now : Z) : Outbox.EventEnvelope :=
  Outbox.mkEvent (event_ulid e i) "decision.expired" (Some (d_edict_id q)) (Some (d_memorial_id q)) (SInt 1) now
    PRODUCER
    [("schema_version", JInt 1); ("decision_request_id", JStr (decision_request_id q));
     ("kind", JStr (kind_value (d_kind q))); ("request_version", JInt (d_version q))].

(** The loop of [expire_due]; the value is the number of expired requests. *)
Fixpoint expire_each (e : env) (i : nat) (now : Z) (due : list DecisionRequestV1) : M db Z :=
  match due with
  | [] => ret 0
  | q :: rest =>
      let! expired := DecisionRepo.expire (decision_request_id q) (d_version q) now in
      match expired with
      | None => expire_each e i now rest
      | Some x =>
          Outbox.add (expired_event e i x now) ;;;
          let! n := expire_each e (S i) now rest in
          ret (n + 1)
      end
  end.

(** [expire_due] *)
Definition expire_due (e : env) (now : option datetime) (limit : Z) : M (session db) Z :=
  let! effective_now := service_utc (default (clock e) now) in
  with_uow (committing
    (let! due := DecisionRepo.list_due effective_now limit in expire_each e 0 effective_now due)).

(** ** The service inside a unit of work *)

(** The session of an open unit of work, of a committed one, and at rest. *)
Definition active (s : session db) (w : db) : session db :=
  Session (committed s) w true (S (lock_depth s)) true false.
Definition committed_at (s : session db) (w : db) : session db :=
  Session w w false (S (lock_depth s)) true true.
Definition at_rest (s : session db) (w : db) (completed : bool) : session db :=
  Session w w false (lock_depth s) false completed.

Lemma with_uow_active {A} (body : M (session db) A) s :
  quiescent s = true → with_uow body s = let '(r, s') := body (active s (committed s)) in (r, uow_exit s').
Proof.
  unfold quiescent. intros H. bools. destruct s as [c w t n e k]. cbn in *. subst.
  unfold with_uow, uow_enter, active. done.
Qed.
Lemma on_connection_active {A} (m : M db A) s w :
  on_connection m (active s w) = let '(r, w') := m w in (r, active s w').
Proof. unfold on_connection, active. cbn. by destruct (m w). Qed.
Lemma uow_commit_active s w : uow_commit (active s w) = (Ok tt, committed_at s w).
Proof. done. Qed.
Lemma uow_exit_active s w : uow_exit (active s w) = at_rest s (committed s) false.
Proof. done. Qed.
Lemma uow_exit_committed s w : uow_exit (committed_at s w) = at_rest s w true.
Proof. done. Qed.

(** ** Refusals *)

Definition service_error (c : exn_class) : bool :=
  bool_decide (c ∈ [DecisionNotFound; DecisionConflict; DecisionValidationError; DecisionAuthorizationError]).
Definition not_service_error (c : exn_class) : bool := negb (service_error c).

Lemma raises_canonical v x : canonical_json_bytes v = Err x → exn_kind x = ValueError.
Proof. unfold canonical_json_bytes. destruct (all_finite v); [done|]. by intros [= <-]. Qed.
Lemma raises_sha256 v x : canonical_sha256 v = Err x → exn_kind x = ValueError.
Proof.
  unfold canonical_sha256. destruct (canonical_json_bytes v) eqn:E; [done|]. intros [= <-].
  by eapply raises_canonical.
Qed.

Lemma raises_row_to_event r x :
  row_to_event float_of lax_int parse_datetime r = Err x → exn_kind x = ValueError ∨ exn_kind x = OverflowError.
Proof.
  unfold row_to_event. destruct (loads float_of _) as [[]|]; try (intros [= <-]; auto).
  destruct (metadata_values _ _), (parse_datetime (au_created_at r)) as [t|]; try (intros [= <-]; auto).
  destruct (to_utc t tt) as [[u|y] []] eqn:E; cbn.
  - destruct (event_valid _); [done|]. intros [= <-]. auto.
  - intros [= <-]. unfold to_utc, checked_instant in E. destruct (utcoffset t); [|injection E as <-; auto].
    unfold bind, guard in E. destruct (representable _); [done|]. injection E as <-. auto.
Qed.

Lemma raises_validate_row r n p x :
  validate_row float_of lax_int parse_datetime r n p = Err x → not_service_error (exn_kind x) = true.
Proof.
  unfold validate_row, hash_system_audit_payload. destruct (negb _); [by intros [= <-]|].
  destruct (match p with Some _ => _ | None => _ end); [by intros [= <-]|].
  destruct (canonical_sha256 _) eqn:E; [|intros [= <-]; by rewrite (raises_sha256 _ _ E)].
  destruct (negb _); [by intros [= <-]|]. destruct (row_to_event _ _ _ r) as [|y] eqn:Er; [done|].
  destruct (_ || _); intros [= <-]; [done|]. by destruct (raises_row_to_event _ _ Er) as [->| ->].
Qed.
Lemma raises_of_validate_row r n p :
  raises not_service_error (of_result (S := db) (validate_row float_of lax_int parse_datetime r n p)).
Proof. apply raises_of_result. intros x. apply raises_validate_row. Qed.

Lemma raises_append_audit e q : raises not_service_error (append_audit e q).
Proof.
  unfold append_audit, append_system_audit_unlocked. apply raises_bind.
  - unfold next_position. apply raises_bind; [auto with py|]. intros rows.
    destruct (head _) as [tail|]; [|auto with py]. apply raises_bind.
    + unfold predecessor_hash. destruct (_ =? 1); [auto with py|]. destruct (1 <? _); [|auto with py].
      apply raises_bind; [auto with py|]. intros [p|]; [|apply raises_of_result; by intros x [= <-]].
      apply raises_bind; [apply raises_of_validate_row|auto with py].
    + intros h. apply raises_bind; [apply raises_of_validate_row|auto with py].
  - intros [n prev]. apply raises_bind.
    { apply raises_of_result. intros x E. by rewrite (raises_canonical _ _ E). }
    intros mj. apply raises_bind. { apply raises_of_result. intros x E. by rewrite (raises_sha256 _ _ E). }
    intros h. apply raises_bind; [auto with py|]. intros _. apply raises_bind; [auto with py|].
    intros [r|]; [apply raises_of_validate_row|apply raises_of_result; by intros x [= <-]].
Qed.

(** What an append that returned did to the tables. *)
Definition audit_appended (d d' : db) (q : AppendSystemAuditRequest) : Prop :=
  ∃ k row, system_audit_events d !! k = None ∧
    d' = set_system_audit_events (<[k := row]> (system_audit_events d)) d ∧ au_sequence row = k ∧
    au_action row = aq_action q ∧ au_outcome row = aq_outcome q ∧ au_reason_code row = aq_reason_code q ∧
    au_actor_digest row = aq_actor_digest q ∧ au_subject_digest row = aq_subject_digest q.

Lemma reads_of_result {S A} (r : result A) : reads (of_result (S := S) r).
Proof. done. Qed.
#[local] Hint Resolve reads_of_result : py.

Lemma append_audit_Ok_inv e q d v d' : append_audit e q d = (Ok v, d') → audit_appended d d' q.
Proof.
  unfold append_audit, append_system_audit_unlocked. intros H.
  apply bind_Ok_inv in H as ([n prev] & d1 & Hn & H).
  assert (d1 = d) as ->.
  { assert (Hr : reads (next_position float_of lax_int parse_datetime)).
    { unfold next_position. apply reads_bind; [done|]. intros rows. destruct (head _) as [t|]; [|done].
      apply reads_bind; [|intros h; apply reads_bind; done]. unfold predecessor_hash.
      destruct (_ =? 1); [done|]. destruct (1 <? _); [|done]. apply reads_bind; [done|].
      intros [p|]; [|done]. apply reads_bind; done. }
    specialize (Hr d). by rewrite Hn in Hr. }
  apply bind_Ok_inv in H as (mj & d1 & [_ ->]%of_result_Ok_inv & H).
  apply bind_Ok_inv in H as (h & d1 & [_ ->]%of_result_Ok_inv & H).
  apply bind_Ok_inv in H as (u & d1 & Hins & H). apply sql_insert_Ok_inv in Hins as (Hfree & _ & _ & ->).
  rewrite bind_sql_get in H.
  match type of H with (match ?o with _ => _ end) ?w = _ => assert (d' = w) as -> by
    (destruct o; apply of_result_Ok_inv in H as [_ ->]; reflexivity) end.
  eexists _, _. split; [exact Hfree|]. split; [reflexivity|]. cbn. auto 10.
Qed.

Lemma raises_audit_request auth a r i m x : audit_request auth a r i m = Err x → exn_kind x = ValueError.
Proof. unfold audit_request. destruct (append_request_valid _); [done|]. by intros [= <-]. Qed.

(** A denial committed one audit row for [id] with the given reason. *)
Definition denial_audited (d d' : db) (auth : AuthContext) (id reason : string) : Prop :=
  ∃ q, audit_appended d d' q ∧ aq_action q = "decision.resolve.denied" ∧ aq_outcome q = "denied" ∧
    aq_reason_code q = reason ∧ aq_actor_digest q = digest (p_id (a_principal auth)) ∧
    aq_subject_digest q = digest id.

Lemma audit_denial_cases e auth id reason kind st ev av d :
  match audit_denial e auth id reason kind st ev av d with
  | (Ok _, d') => denial_audited d d' auth id reason
  | (Err x, _) => not_service_error (exn_kind x) = true
  end.
Proof.
  unfold audit_denial. destruct (audit_request _ _ _ _ _) as [q|x] eqn:Eq.
  - rewrite bind_of_result. unfold bind. destruct (append_audit e q d) as [[v|x] d'] eqn:Ea.
    + cbn. exists q. unfold audit_request in Eq. destruct (append_request_valid _); [|done]. injection Eq as <-.
      split; [by eapply append_audit_Ok_inv|]. done.
    + by eapply raises_append_audit.
  - cbn. by rewrite (raises_audit_request _ _ _ _ _ _ Eq).
Qed.

(** The outcome of a refusal: the audit row is committed before the error is
    raised, or the audit itself failed and nothing is committed. *)
Lemma refused_outcome {A} e auth id reason kind st ev av (c : exn_class) s w :
  let '(r, s') := (deny_resolution e auth id reason kind st ev av ;;; raise (A := A) c reason) (active s w) in
  (r = Err (Exn c reason) ∧ ∃ w', s' = committed_at s w' ∧ denial_audited w w' auth id reason) ∨
  (∃ x w', r = Err x ∧ not_service_error (exn_kind x) = true ∧ s' = active s w').
Proof.
  unfold deny_resolution, bind at 1 2. rewrite on_connection_active.
  pose proof (audit_denial_cases e auth id reason kind st ev av w) as H.
  destruct (audit_denial e auth id reason kind st ev av w) as [[u|x] w'].
  - rewrite uow_commit_active. left. split; [done|]. eauto.
  - right. eauto.
Qed.

Lemma raises_correlation m x : raises not_service_error (correlation_for_memorial m x).
Proof.
  assert (Hr : ∀ c, raises not_service_error (require_correlation_id c)).
  { intros c. unfold require_correlation_id. auto with py. }
  intros d e d'. unfold correlation_for_memorial. repeat case_match; try (apply Hr); done.
Qed.
Lemma raises_outbox_add v : raises not_service_error (Outbox.add v).
Proof.
  unfold Outbox.add. apply raises_bind; [destruct (obj_get _ _) as [[]|]; auto with py|].
  intros c. apply raises_bind.
  { destruct (Outbox.e_memorial_id v); [apply raises_correlation|]. unfold require_correlation_id. auto with py. }
  intros c'. apply raises_bind.
  { apply raises_of_result. intros x E. by rewrite (raises_canonical _ _ E). }
  intros b. auto with py.
Qed.

(** An accepted resolution: the stored request was open at the expected
    version, the caller held the scope its kind needs, and the tables are those
    of the settled request with the event of [resolved_event] added. *)
Definition accepted (d : db) (e : env) (id : string) (command : ResolveDecisionCommand) (auth : AuthContext)
    (now : Z) (res : DecisionResolutionV1) (d2 : db) : Prop :=
  ∃ r, decision_requests d !! id = Some r ∧
    d_status (dc_request r) = PENDING ∧ d_version (dc_request r) = vc_expected_version command ∧
    now < d_expires_at (dc_request r) ∧
    (d_kind (dc_request r) = K_GOVERNED_APPLY → member "workspace:apply" (p_scopes (a_principal auth)) = true) ∧
    resolution_payload_valid (d_kind (dc_request r)) (vc_action command) (vc_payload command) = true ∧
    (let c := normalize_tool_resolution (dc_request r) command in
     res = mkResolution id (vc_action c) (vc_reason c) (vc_payload c)
             (p_id (a_principal auth)) (p_display_name (a_principal auth)) now) ∧
    Outbox.add (resolved_event e auth (DecisionRepo.resolved_record (dc_request r) res) (r_action res) now)
      (DecisionRepo.resolved_db d r res) = (Ok tt, d2).

(** The reason for a refusal and the error it is raised with, by the first
    condition that fails. *)
Definition settled_code (st : DecisionStatus) : string :=
  match st with
  | CANCELLED => "decision_cancelled" | EXPIRED => "decision_expired" | RESOLVED => "decision_already_resolved"
  | PENDING => "decision_conflict"
  end.
Definition scope_held (q : DecisionRequestV1) (auth : AuthContext) : Prop :=
  d_kind q = K_GOVERNED_APPLY → member "workspace:apply" (p_scopes (a_principal auth)) = true.
Inductive refused_for (d : db) (id : string) (command : ResolveDecisionCommand) (auth : AuthContext) (now : Z) :
    exn_class → string → Prop :=
  | refused_missing :
      decision_requests d !! id = None → refused_for d id command auth now DecisionNotFound "decision_not_found"
  | refused_scope r :
      decision_requests d !! id = Some r → ¬ scope_held (dc_request r) auth →
      refused_for d id command auth now DecisionAuthorizationError "workspace_apply_scope_required"
  | refused_payload r :
      decision_requests d !! id = Some r → scope_held (dc_request r) auth →
      resolution_payload_valid (d_kind (dc_request r)) (vc_action command) (vc_payload command) = false →
      refused_for d id command auth now DecisionValidationError "invalid_decision_resolution"
  | refused_conflict r code :
      decision_requests d !! id = Some r → scope_held (dc_request r) auth →
      resolution_payload_valid (d_kind (dc_request r)) (vc_action command) (vc_payload command) = true →
      (d_status (dc_request r) ≠ PENDING ∧ code = settled_code (d_status (dc_request r)) ∨
       d_status (dc_request r) = PENDING ∧ d_version (dc_request r) ≠ vc_expected_version command ∧ code = "decision_stale" ∨
       d_status (dc_request r) = PENDING ∧ d_version (dc_request r) = vc_expected_version command ∧
         d_expires_at (dc_request r) ≤ now ∧ code = "decision_expired") →
      refused_for d id command auth now DecisionConflict code.

(** What a resolution did, seen from the committed tables. *)
Inductive resolve_outcome (d : db) (e : env) (id : string) (command : ResolveDecisionCommand)
    (auth : AuthContext) (now : Z) : result DecisionResolutionV1 → db → Prop :=
  | outcome_accepted res d2 :
      accepted d e id command auth now res d2 → resolve_outcome d e id command auth now (Ok res) d2
  | outcome_refused c reason d2 :
      refused_for d id command auth now c reason → denial_audited d d2 auth id reason →
      resolve_outcome d e id command auth now (Err (Exn c reason)) d2
  | outcome_failed x :
      not_service_error (exn_kind x) = true → resolve_outcome d e id command auth now (Err x) d.

Lemma normalize_version q c : vc_expected_version (normalize_tool_resolution q c) = vc_expected_version c.
Proof. unfold normalize_tool_resolution. by destruct (_ || _). Qed.

Lemma conflict_reason x command now reason :
  resolution_conflict x command now = Some reason →
  let q := rec_request x in
  d_status q ≠ PENDING ∧ conflict_code reason = settled_code (d_status q) ∨
  d_status q = PENDING ∧ d_version q ≠ vc_expected_version command ∧ conflict_code reason = "decision_stale" ∨
  d_status q = PENDING ∧ d_version q = vc_expected_version command ∧ d_expires_at q ≤ now ∧
    conflict_code reason = "decision_expired".
Proof.
  unfold resolution_conflict. cbv zeta. case_bool_decide as Hp; cbn [negb].
  - destruct (Z.eqb_spec (d_version (rec_request x)) (vc_expected_version command)); cbn [negb].
    + destruct (Z.leb_spec (d_expires_at (rec_request x)) now); [|done]. intros [= <-]. right. right. by repeat split.
    + intros [= <-]. right. left. by repeat split.
  - intros [= <-]. left. split; [done|]. by destruct (d_status (rec_request x)).
Qed.
Lemma refuse_outcome {A} e auth q v reason c s d :
  let '(r, s') := refuse (A := A) e auth q v reason c (active s d) in
  (r = Err (Exn c reason) ∧ ∃ w, s' = committed_at s w ∧ denial_audited d w auth (decision_request_id q) reason) ∨
  (∃ x w, r = Err x ∧ not_service_error (exn_kind x) = true ∧ s' = active s w).
Proof. apply (refused_outcome (A := A) e auth (decision_request_id q) reason). Qed.

Lemma apply_resolution_outcome e auth r res v now s d :
  DecisionRepo.decision_inv d → resolution_valid res = true →
  decision_requests d !! r_decision_request_id res = Some r → refusal (dc_request r) v now = None →
  let '(y, s') := apply_resolution e auth (dc_request r) res v now (active s d) in
  (y = Ok res ∧ ∃ d2, s' = committed_at s d2 ∧
     Outbox.add (resolved_event e auth (DecisionRepo.resolved_record (dc_request r) res) (r_action res) now)
       (DecisionRepo.resolved_db d r res) = (Ok tt, d2)) ∨
  (∃ x w, y = Err x ∧ not_service_error (exn_kind x) = true ∧ s' = active s w).
Proof.
  intros Hi Hv Hk Hr. unfold apply_resolution, bind at 1, try_except. rewrite on_connection_active.
  pose proof (DecisionRepo.resolve_eq res v now d Hi Hv) as Heq. unfold atomically, DecisionRepo.resolve_spec in Heq.
  rewrite Hk, Hr in Heq. destruct (DecisionRepo.resolve res v now d) as [[x|x] d1] eqn:E.
  - destruct (negb _); [done|]. destruct (canonical_json_bytes _); [|done].
    destruct (_ <=? _); [|done]. injection Heq as -> ->. unfold bind at 1. rewrite on_connection_active.
    destruct (Outbox.add _ _) as [[[]|y] d2] eqn:Ea.
    + left. split; [done|]. by exists d2.
    + right. eexists _, _. split; [done|]. split; [|done]. by eapply raises_outbox_add.
  - assert (Hx : exn_kind x = ValueError ∨ exn_kind x = DecisionDecodeError).
    { destruct (negb _); [injection Heq as ->; auto|].
      destruct (canonical_json_bytes _) eqn:Eb; [destruct (_ <=? _); [done|]; injection Heq as ->; auto|].
      injection Heq as ->. left. by eapply raises_canonical. }
    destruct x as [c msg det]. cbn in Hx. destruct Hx as [-> | ->]; right; eauto.
Qed.

Lemma resolve_body_outcome e id command auth now s d :
  DecisionRepo.decision_inv d → committed s = d →
  let '(r, s') := resolve_body e id command auth now (active s d) in
  ∃ d2, resolve_outcome d e id command auth now r d2 ∧
    (s' = committed_at s d2 ∨ (d2 = d ∧ ∃ w, s' = active s w)).
Proof.
  intros Hi Hs. unfold resolve_body, bind at 1. rewrite on_connection_active, (DecisionRepo.get_eq d id Hi).
  unfold DecisionRepo.decision_at. destruct (decision_requests d !! id) as [r|] eqn:Hk; cbn [fmap option_fmap option_map].
  2: { pose proof (refused_outcome (A := DecisionResolutionV1) e auth id "decision_not_found" None "missing"
         (Some (vc_expected_version command)) None DecisionNotFound s d) as H.
       destruct ((_ ;;; _) _) as [y s']. destruct H as [(-> & w & -> & Ha)|(x & w & -> & Hx & ->)].
       - exists w. split; [by apply outcome_refused; [apply refused_missing|]|auto].
       - exists d. split; [by apply outcome_failed|eauto]. }
  pose proof (DecisionRepo.di_keyed d Hi _ _ Hk) as Hid. cbn [rec_request DecisionRepo.record_of].
  assert (Href : ∀ v reason c, refused_for d id command auth now c reason →
    let '(y, s') := refuse (A := DecisionResolutionV1) e auth (dc_request r) v reason c (active s d) in
    ∃ d2, resolve_outcome d e id command auth now y d2 ∧
      (s' = committed_at s d2 ∨ (d2 = d ∧ ∃ w, s' = active s w))).
  { intros v reason c Hc. pose proof (refuse_outcome (A := DecisionResolutionV1) e auth (dc_request r) v reason c s d) as H.
    destruct (refuse _ _ _ _ _ _ _) as [y s']. destruct H as [(-> & w & -> & Ha)|(x & w & -> & Hx & ->)].
    - rewrite Hid in Ha. exists w. split; [by apply outcome_refused|auto].
    - exists d. split; [by apply outcome_failed|eauto]. }
  destruct (bool_decide (d_kind (dc_request r) = K_GOVERNED_APPLY) && _) eqn:Hsc.
  { apply Href, (refused_scope _ _ _ _ _ r Hk). apply andb_true_iff in Hsc as [Hg%bool_decide_eq_true Hm%negb_true_iff].
    intros Hs'. rewrite (Hs' Hg) in Hm. discriminate Hm. }
  assert (Hscope : scope_held (dc_request r) auth).
  { intros Hg. rewrite Hg in Hsc. cbn in Hsc. by apply negb_false_iff in Hsc. }
  destruct (resolution_payload_valid _ _ _) eqn:Hpay; cbn [negb]; [|by apply Href, (refused_payload _ _ _ _ _ r Hk)].
  destruct (resolution_conflict _ _ now) as [reason|] eqn:Hcf.
  { apply Href, (refused_conflict _ _ _ _ _ r _ Hk Hscope Hpay). apply conflict_reason in Hcf.
    by rewrite normalize_version in Hcf. }
  assert (Hrf : refusal (dc_request r) (vc_expected_version (normalize_tool_resolution (dc_request r) command)) now = None)
    by exact Hcf.
  set (c := normalize_tool_resolution (dc_request r) command) in *.
  set (res := mkResolution id (vc_action c) (vc_reason c) (vc_payload c) (p_id (a_principal auth))
                (p_display_name (a_principal auth)) now).
  destruct (resolution_valid res) eqn:Hv; [|exists d; split; [by apply outcome_failed|cbn; eauto]].
  rewrite (bind_Ok _ _ _ _ _ (guard_true _ _ (active s d))).
  pose proof (apply_resolution_outcome e auth r res (vc_expected_version c) now s d Hi Hv Hk Hrf) as H.
  destruct (apply_resolution _ _ _ _ _ _ _) as [y s'].
  destruct H as [(-> & d2 & -> & Ha)|(x & w & -> & Hx & ->)]; [|exists d; split; [by apply outcome_failed|eauto]].
  exists d2. split; [|by left]. apply DecisionRepo.refusal_None in Hrf as (Hp & Hver & Hexp).
  apply outcome_accepted. exists r. split; [exact Hk|]. split; [exact Hp|].
  split; [by rewrite Hver; unfold c; rewrite normalize_version|]. split; [exact Hexp|].
  split; [exact Hscope|]. split; [exact Hpay|]. split; [reflexivity|exact Ha].
Qed.

Lemma service_resolve_eq e id command auth s off :
  quiescent s = true → DecisionRepo.decision_inv (committed s) →
  utcoffset (clock e) = Some off → representable (wall (clock e) - off) = true →
  let '(r, s') := service_resolve e id command auth s in
  resolve_outcome (committed s) e id command auth (wall (clock e) - off) r (committed s') ∧
  quiescent s' = true ∧ lock_depth s' = lock_depth s.
Proof.
  intros Hq Hi Hu Hr. unfold service_resolve, service_utc. rewrite Hu.
  assert (Hc : checked_instant (wall (clock e) - off) s = (Ok (wall (clock e) - off), s))
    by (unfold checked_instant; by rewrite Hr).
  rewrite (bind_Ok _ _ _ _ _ Hc), with_uow_active by done.
  pose proof (resolve_body_outcome e id command auth (wall (clock e) - off) s (committed s) Hi eq_refl) as H.
  destruct (resolve_body _ _ _ _ _ _) as [y s']. destruct H as (d2 & Ho & [->|(-> & w & ->)]).
  - rewrite uow_exit_committed. done.
  - rewrite uow_exit_active. done.
Qed.
End decision_service.

(** ** Theorems *)

Section claims.
Context (float_of : string → pyfloat) (lax_int : pyfloat → option Z) (parse_datetime : string → option datetime).

(** C24. resolve of the decision service, with its unit of work, on a consistent decision
    table and a clock with a time zone: it either commits the settled decision together with
    exactly one decision.resolved event, and only for an open decision, at the expected
    version, before the deadline, with a valid payload and with the scope its kind needs; or
    commits exactly one audit row naming the actor, the decision and the reason and raises
    the error that belongs to the first condition that fails, with the decision untouched:
    not found for a missing decision, not authorised for a missing scope, invalid for the
    payload, and a conflict whose code says whether the decision was cancelled, expired,
    resolved or at another version, or its deadline has passed; or commits nothing and
    raises none of these. The lock is released and the connection at rest in every case. *)
Theorem service_resolve_outcome e id command auth s off :
  quiescent s = true → DecisionRepo.decision_inv (committed s) →
  utcoffset (clock e) = Some off → representable (wall (clock e) - off) = true →
  let '(r, s') := service_resolve float_of lax_int parse_datetime e id command auth s in
  resolve_outcome (committed s) e id command auth (wall (clock e) - off) r (committed s') ∧
  quiescent s' = true ∧ lock_depth s' = lock_depth s.
Proof. apply service_resolve_eq. Qed.

(** The scope an approval of a bash-family tool records. *)
Lemma normalized_shell_scope q c t :
  d_kind q = K_TOOL → obj_get (d_payload q) "tool_name" = Some (JStr t) → t ∈ ["shell_exec"; "bash"] →
  vc_action c = "approve" →
  ∃ scope, obj_get (vc_payload (normalize_tool_resolution q c)) "grant_scope" = Some scope ∧
    scope ≠ JStr "always" ∧
    (obj_get (vc_payload c) "grant_scope" = Some (JStr "always") →
     scope = JStr "once" ∧
     obj_get (vc_payload (normalize_tool_resolution q c)) "grant_downgraded" = Some (JBool true)).
Proof.
  intros Hk Ht Hin Ha. unfold normalize_tool_resolution.
  rewrite Hk, Ha, !bool_decide_eq_true_2 by done. cbn [negb orb]. cbv zeta. rewrite Ht.
  assert (Hg : assert_can_grant t "always" = Some ("Cannot grant 'always' scope to bash-family tool '" +:+ t +:+ "'")).
  { unfold assert_can_grant. rewrite bool_decide_eq_true_2 by done. cbn [andb].
    unfold member. by rewrite bool_decide_eq_true_2. }
  set (w := match obj_get (vc_payload c) "grant_scope" with Some v => _ | None => _ end).
  destruct (bool_decide (w = JStr "always")) eqn:Hw.
  - rewrite Hg. exists (JStr "once"). done.
  - apply bool_decide_eq_false in Hw. exists w. split; [done|]. split; [done|].
    intros H. unfold w in Hw. rewrite H in Hw. by destruct Hw.
Qed.

(** An approval of a shell_exec or bash request never stores an always grant: the committed
    resolution carries another scope, and an always request is stored as once with the
    downgrade recorded. *)
Theorem shell_never_granted_always e id command auth s off r t res s' :
  quiescent s = true → DecisionRepo.decision_inv (committed s) →
  utcoffset (clock e) = Some off → representable (wall (clock e) - off) = true →
  decision_requests (committed s) !! id = Some r → d_kind (dc_request r) = K_TOOL →
  obj_get (d_payload (dc_request r)) "tool_name" = Some (JStr t) → t ∈ ["shell_exec"; "bash"] →
  vc_action command = "approve" →
  service_resolve float_of lax_int parse_datetime e id command auth s = (Ok res, s') →
  decision_resolutions (committed s') !! id = Some res ∧
  ∃ scope, obj_get (r_payload res) "grant_scope" = Some scope ∧ scope ≠ JStr "always" ∧
    (obj_get (vc_payload command) "grant_scope" = Some (JStr "always") →
     scope = JStr "once" ∧ obj_get (r_payload res) "grant_downgraded" = Some (JBool true)).
Proof.
  intros Hq Hi Hu Hr Hk Hkind Ht Hin Ha Hres.
  pose proof (service_resolve_eq float_of lax_int parse_datetime e id command auth s off Hq Hi Hu Hr) as H.
  rewrite Hres in H. destruct H as [Ho _]. inversion Ho as [? ? Hacc| |]; subst.
  destruct Hacc as (r' & Hk' & _ & _ & _ & _ & _ & Hpay & Hadd). rewrite Hk in Hk'. injection Hk' as <-.
  cbv zeta in Hpay. split.
  - apply Outbox.add_row in Hadd as (b & c & _ & _ & _ & ->). rewrite Hpay. cbn. apply lookup_insert_eq.
  - rewrite Hpay. cbn [r_payload]. by eapply normalized_shell_scope.
Qed.
End claims.

(** ** A sample run *)

Module ServiceSample.
Definition payload : list (string * json) := [("tool_name", JStr "bash")].
Definition payload_digest : string :=
  Eval vm_compute in match canonical_sha256 (JObj payload) with Ok h => h | Err _ => "" end.
Definition shell_request : DecisionRequestV1 :=
  mkDecision "q1" K_TOOL "e" "m" "call-1" payload payload_digest "agent" 500 PENDING 1 100 100.
Definition d1 : db :=
  DecisionRepo.exec_decision (DecisionRepo.DecAdd shell_request None) DecisionRepo.DecisionSample.d0.
Definition s1 : session db := Session d1 d1 false 0 false false.
Definition alice : AuthContext := 
  mkAuth (mkPrincipal "alice" PK_HUMAN "Alice" []) BEARER None CK_WEB (legacy_correlation "m") None.
Definition at_300 : env := mkEnv (utc_at 300) 1000000 "q9" "ev-1" (λ _, "event-1").
Definition always : ResolveDecisionCommand :=
  mkResolveCommand "approve" "reviewed" [("grant_scope", JStr "always"); ("schema_version", JInt 1)] 1.
Definition row1 : decision_row := mkDecisionRow shell_request (Some (legacy_correlation "m")).
Definition stored : DecisionResolutionV1 :=
  mkResolution "q1" "approve" "reviewed" (vc_payload (normalize_tool_resolution shell_request always))
    "alice" "Alice" 300.
Definition resolve_at (e : env) := service_resolve AuditSample.float_of AuditSample.lax_int AuditSample.parse_datetime e.
Definition s2 : session db := (resolve_at at_300 "q1" always alice s1).2.

Lemma service_inv1 : DecisionRepo.decision_inv (committed s1).
Proof.
  assert (H : decision_valid shell_request = true) by (vm_compute; reflexivity).
  exact (proj1 (DecisionRepo.exec_decision_ok (DecisionRepo.DecAdd shell_request None) _
    DecisionRepo.DecisionSample.decision_inv0 H)).
Qed.
Lemma service_lookup1 : decision_requests (committed s1) !! "q1" = Some row1.
Proof. vm_compute. reflexivity. Qed.
Lemma resolved1 : resolve_at at_300 "q1" always alice s1 = (Ok stored, s2).
Proof. vm_compute. reflexivity. Qed.
(** An unknown identifier is refused, and the refusal is in the audit log. *)
Example unknown_refused :
  (resolve_at at_300 "q2" always alice s1).1 = Err (Exn DecisionNotFound "decision_not_found") ∧
  length (audit_log (committed (resolve_at at_300 "q2" always alice s1).2)) = 1%nat.
Proof. vm_compute. split; reflexivity. Qed.
End ServiceSample.

Lemma service_resolve_outcome_witness :
  resolve_outcome (committed ServiceSample.s1) ServiceSample.at_300 "q1" ServiceSample.always
    ServiceSample.alice 300 (Ok ServiceSample.stored) (committed ServiceSample.s2).
Proof.
  pose proof (service_resolve_outcome AuditSample.float_of AuditSample.lax_int AuditSample.parse_datetime
    ServiceSample.at_300 "q1" ServiceSample.always ServiceSample.alice ServiceSample.s1 0 eq_refl
    ServiceSample.service_inv1 eq_refl eq_refl) as H.
  unfold ServiceSample.s2. pose proof ServiceSample.resolved1 as R. unfold ServiceSample.resolve_at in R.
  rewrite R in H. exact (proj1 H).
Defined.

Lemma shell_never_granted_always_witness :
  decision_resolutions (committed ServiceSample.s2) !! "q1" = Some ServiceSample.stored.
Proof.
  assert (Hin : "bash" ∈ ["shell_exec"; "bash"]) by (right; left).
  exact (proj1 (shell_never_granted_always AuditSample.float_of AuditSample.lax_int AuditSample.parse_datetime
    ServiceSample.at_300 "q1" ServiceSample.always ServiceSample.alice ServiceSample.s1 0 ServiceSample.row1
    "bash" ServiceSample.stored ServiceSample.s2 eq_refl ServiceSample.service_inv1 eq_refl eq_refl
    ServiceSample.service_lookup1 eq_refl eq_refl Hin eq_refl ServiceSample.resolved1)).
Defined.
