(* ===== verification/Dag.v ===== *)
(** * The task graph

    Models src/src/tianshu/dag/graph.py and src/src/tianshu/models/dag.py: the
    nodes of a DAG execution, the in-memory graph with its reverse edges,
    Kahn's algorithm, the detection of ready nodes, the status marks and the
    propagation of a failure to the nodes downstream.

    Python dictionaries keep insertion order and the order of a result depends
    on it, so they are association lists here.  The two [while queue] loops
    take fuel; [None] is "the fuel ran out", and [dag_loops_end] shows that it
    never does with the fuel the definitions give. *)

From stdpp Require Import relations.
From S2P Require Import Prelude.
From S2P Require Import Sql.

(** ** Data *)

Inductive DAGNodeStatus := N_PENDING | N_READY | N_RUNNING | N_COMPLETED | N_FAILED | N_CANCELLED.
#[export] Instance DAGNodeStatus_eq_dec : EqDecision DAGNodeStatus.
Proof. solve_decision. Defined.

Record DAGNode := mkNode {
  node_id : string;
  dag_execution_id : string;
  description : string;
  depends_on : list string;
  n_status : DAGNodeStatus;
  assigned_official : option string;
  assigned_worker : option string;
  tools_required : list string;
  n_memorial_id : option string;
  checkpoint_json : option string;
  n_started_at : option Z;
  n_completed_at : option Z;
  n_error : option string;
}.

Record DAGExecution := mkExecution {
  x_id : string;
  x_edict_id : string;
  plan_json : string;
  x_status : string;
  root_memorial_id : option string;
  max_concurrency : Z;
  x_created_at : Z;
  x_completed_at : option Z;
  x_nodes : list DAGNode;
}.

(** [node.status = s] and [node.error = e] *)
Definition set_node (s : DAGNodeStatus) (e : option string) (n : DAGNode) : DAGNode :=
  mkNode (node_id n) (dag_execution_id n) (description n) (depends_on n) s (assigned_official n)
    (assigned_worker n) (tools_required n) (n_memorial_id n) (checkpoint_json n) (n_started_at n)
    (n_completed_at n) e.
Definition set_status (s : DAGNodeStatus) (n : DAGNode) : DAGNode := set_node s (n_error n) n.

Record DAG := mkDAG { g_nodes : dict DAGNode; g_edges : dict (list string); g_reverse : dict (list string) }.

(** [self._reverse_edges.setdefault(dep, []).append(nid)] *)
Definition add_reverse (nid : string) (rev : dict (list string)) (dep : string) : dict (list string) :=
  dict_put rev dep (default [] (dict_get rev dep) ++ [nid]).
Definition reverse_edges (edges : dict (list string)) : dict (list string) :=
  foldl (λ rev '(nid, deps), foldl (add_reverse nid) rev deps) [] edges.

(** [DAG.__init__] *)
Definition make_dag (nodes : dict DAGNode) (edges : dict (list string)) : DAG :=
  mkDAG nodes edges (reverse_edges edges).

(** [dict.get(k, [])] *)
Definition successors (g : DAG) (nid : string) : list string := default [] (dict_get (g_reverse g) nid).
Definition predecessors (g : DAG) (nid : string) : list string := default [] (dict_get (g_edges g) nid).

(** [from_execution] *)
Definition dag_of_nodes (nodes : list DAGNode) : DAG :=
  make_dag (dict_of ((λ n, (node_id n, n)) <$> nodes)) (dict_of ((λ n, (node_id n, depends_on n)) <$> nodes)).
Definition from_execution (x : DAGExecution) : DAG := dag_of_nodes (x_nodes x).

(** ** Kahn's algorithm *)

(** [for child in ...: in_degree[child] -= 1; if it is 0: queue.append(child)] *)
Fixpoint relax (children : list string) (in_degree : dict Z) (queue : list string) :
    result (dict Z * list string) :=
  match children with
  | [] => Ok (in_degree, queue)
  | child :: rest =>
      match dict_get in_degree child with
      | None => Err (Exn KeyError child)
      | Some n =>
          relax rest (dict_put in_degree child (n - 1)) (if n - 1 =? 0 then queue ++ [child] else queue)
      end
  end.

(** [while queue: ...] *)
Fixpoint kahn (fuel : nat) (g : DAG) (in_degree : dict Z) (queue result : list string) :
    option (Prelude.result (list string)) :=
  match queue with
  | [] => Some (Ok result)
  | nid :: queue' =>
      match fuel with
      | O => None
      | S fuel' =>
          match relax (successors g nid) in_degree queue' with
          | Err e => Some (Err e)
          | Ok (in_degree', queue'') => kahn fuel' g in_degree' queue'' (result ++ [nid])
          end
      end
  end.

Definition in_degrees (g : DAG) : dict Z :=
  (λ nid, (nid, Z.of_nat (length (predecessors g nid)))) <$> (g_nodes g).*1.
Definition roots (in_degree : dict Z) : list string :=
  (filter (λ kv : string * Z, kv.2 = 0) in_degree).*1.

(** [topological_sort] *)
Definition topological_sort (g : DAG) : option (result (list string)) :=
  match kahn (length (g_nodes g)) g (in_degrees g) (roots (in_degrees g)) [] with
  | Some (Ok order) =>
      Some (if decide (length order = length (g_nodes g)) then Ok order
            else Err (Exn ValueError "Cycle detected in DAG"))
  | r => r
  end.

(** [validate_dag_structure] *)
Definition text_le (x y : string) : bool := le_of (text_compare x y).
Definition occ (x : string) (l : list string) : nat := length (filter (λ y, y = x) l).
Definition duplicate_ids (nodes : list DAGNode) : list string :=
  let ids := node_id <$> nodes in order_by text_le (filter (λ i, 1 < occ i ids)%nat (remove_dups ids)).
Definition unknown_ids (nodes : list DAGNode) : list string :=
  let ids := node_id <$> nodes in
  order_by text_le (filter (λ i, i ∉ ids) (remove_dups (nodes ≫= depends_on))).
Definition validate_dag_structure (nodes : list DAGNode) : option (result unit) :=
  match duplicate_ids nodes with
  | _ :: _ => Some (Err (Exn ValueError ("Duplicate DAG node ids: " +:+ String.concat ", " (duplicate_ids nodes))))
  | [] =>
      match unknown_ids nodes with
      | _ :: _ => Some (Err (Exn ValueError ("Unknown DAG dependencies: " +:+ String.concat ", " (unknown_ids nodes))))
      | [] =>
          match topological_sort (dag_of_nodes nodes) with
          | Some (Ok _) => Some (Ok tt)
          | Some (Err e) => Some (Err e)
          | None => None
          end
      end
  end.

(** ** The status of the nodes *)

(** [all(self._nodes[d].status == COMPLETED for d in deps)] *)
Fixpoint all_completed (nodes : dict DAGNode) (deps : list string) : result bool :=
  match deps with
  | [] => Ok true
  | d :: rest =>
      match dict_get nodes d with
      | None => Err (Exn KeyError d)
      | Some n => if decide (n_status n = N_COMPLETED) then all_completed nodes rest else Ok false
      end
  end.
Fixpoint ready_among (g : DAG) (nodes : dict DAGNode) : result (list DAGNode) :=
  match nodes with
  | [] => Ok []
  | (nid, n) :: rest =>
      if decide (n_status n ≠ N_PENDING) then ready_among g rest
      else match all_completed (g_nodes g) (predecessors g nid) with
      | Err e => Err e
      | Ok b =>
          match ready_among g rest with
          | Err e => Err e
          | Ok l => Ok (if b then n :: l else l)
          end
      end
  end.
(** [get_ready_nodes] *)
Definition get_ready_nodes (g : DAG) : result (list DAGNode) := ready_among g (g_nodes g).

(** [self._nodes[node_id] ...], updating the node *)
Definition with_nodes (nodes : dict DAGNode) (g : DAG) : DAG := mkDAG nodes (g_edges g) (g_reverse g).
Definition update_node (nid : string) (f : DAGNode → DAGNode) : M DAG unit := λ g,
  match dict_get (g_nodes g) nid with
  | None => (Err (Exn KeyError nid), g)
  | Some n => (Ok tt, with_nodes (dict_put (g_nodes g) nid (f n)) g)
  end.
Definition mark_running (nid : string) : M DAG unit := update_node nid (set_status N_RUNNING).
Definition mark_completed (nid : string) : M DAG unit := update_node nid (set_status N_COMPLETED).
Definition mark_failed (nid : string) (error : option string) : M DAG unit :=
  update_node nid (λ n,
    set_node N_FAILED (match error with
                       | Some e => if decide (e = "") then n_error n else Some e
                       | None => n_error n
                       end) n).

Definition cancellable (n : DAGNode) : bool := bool_decide (n_status n ∈ [N_PENDING; N_READY]).
(** The loop of [propagate_failure]. *)
Fixpoint cancel_loop (fuel : nat) (queue : list string) (visited : list string) (cancelled : list string)
    (g : DAG) : option (result (list string) * DAG) :=
  match queue with
  | [] => Some (Ok cancelled, g)
  | nid :: queue' =>
      match fuel with
      | O => None
      | S fuel' =>
          if decide (nid ∈ visited) then cancel_loop fuel' queue' visited cancelled g
          else match dict_get (g_nodes g) nid with
          | None => Some (Err (Exn KeyError nid), g)
          | Some n =>
              if cancellable n
              then cancel_loop fuel' (queue' ++ successors g nid) (visited ++ [nid]) (cancelled ++ [nid])
                     (with_nodes (dict_put (g_nodes g) nid (set_status N_CANCELLED n)) g)
              else cancel_loop fuel' queue' (visited ++ [nid]) cancelled g
          end
      end
  end.
(** The edges the loop can follow. *)
Definition edge_count (g : DAG) (nodes : list string) : nat :=
  sum_list_with (λ nid, length (successors g nid)) nodes.
(** [propagate_failure] *)
Definition propagate_failure (nid : string) (g : DAG) : option (result (list string) * DAG) :=
  cancel_loop (length (successors g nid) + edge_count g (g_nodes g).*1) (successors g nid) [] [] g.

Definition terminal (s : DAGNodeStatus) : bool := bool_decide (s ∈ [N_COMPLETED; N_FAILED; N_CANCELLED]).
(** [is_complete], [has_failures] *)
Definition is_complete (g : DAG) : bool := forallb (λ kv : string * DAGNode, terminal (n_status kv.2)) (g_nodes g).
Definition has_failures (g : DAG) : bool :=
  existsb (λ kv : string * DAGNode, bool_decide (n_status kv.2 = N_FAILED)) (g_nodes g).

(** ** Reverse edges *)

Lemma occ_cons x y l : occ x (y :: l) = ((if decide (y = x) then 1 else 0) + occ x l)%nat.
Proof. unfold occ. rewrite filter_cons. by case_decide. Qed.
Lemma occ_app x l l' : occ x (l ++ l') = (occ x l + occ x l')%nat.
Proof. unfold occ. by rewrite filter_app, length_app. Qed.
Lemma occ_replicate x y n : occ x (replicate n y) = if decide (y = x) then n else 0%nat.
Proof.
  induction n as [|n IH]; [by case_decide|].
  change (replicate (S n) y) with (y :: replicate n y). rewrite occ_cons, IH. by case_decide.
Qed.
Lemma occ_pos x l : (0 < occ x l)%nat ↔ x ∈ l.
Proof.
  induction l as [|y l IH]; [split; [cbn; lia|set_solver]|].
  rewrite occ_cons, elem_of_cons. destruct (decide (y = x)) as [->|]; [split; [auto|lia]|].
  rewrite <-IH. split; [auto|intros [?|?]; [congruence|done]].
Qed.
Lemma occ_zero x l : occ x l = 0%nat ↔ x ∉ l.
Proof. rewrite <-occ_pos. lia. Qed.

Lemma add_reverse_all nid deps rev x :
  default [] (dict_get (foldl (add_reverse nid) rev deps) x) =
  default [] (dict_get rev x) ++ replicate (occ x deps) nid.
Proof.
  revert rev. induction deps as [|d deps IH]; intros rev; [by rewrite app_nil_r|].
  cbn [foldl]. rewrite IH, occ_cons. unfold add_reverse. rewrite dict_get_put.
  destruct (decide (d = x)) as [->|]; [|done]. cbn. by rewrite <-(assoc_L (++)).
Qed.
Lemma reverse_edges_from rev edges x :
  default [] (dict_get (foldl (λ rev '(nid, deps), foldl (add_reverse nid) rev deps) rev edges) x) =
  default [] (dict_get rev x) ++ (edges ≫= λ '(nid, deps), replicate (occ x deps) nid).
Proof.
  revert rev. induction edges as [|[nid deps] edges IH]; intros rev; [by rewrite app_nil_r|].
  cbn [foldl]. rewrite IH, add_reverse_all. by rewrite <-(assoc_L (++)).
Qed.
(** The successors of [x] are the nodes that depend on it, as often as they do. *)
Lemma occ_successors nodes edges x c :
  NoDup edges.*1 →
  let g := make_dag nodes edges in occ c (successors g x) = occ x (predecessors g c).
Proof.
  intros Hd g. unfold successors, predecessors. cbn [g g_reverse g_edges make_dag]. unfold reverse_edges.
  rewrite reverse_edges_from. cbn [dict_get default app]. clear g. induction edges as [|[nid deps] edges IH]; [done|]. apply NoDup_cons in Hd as [Hn Hd].
  rewrite bind_cons, occ_app, occ_replicate, IH by done. cbn [dict_get].
  destruct (decide (nid = c)) as [->|]; [|done]. apply dict_get_None in Hn. cbn [fst] in Hn. rewrite Hn.
  apply Nat.add_0_r.
Qed.

(** ** Kahn's algorithm: the measure *)

(** The nodes the loop still has to reach. *)
Definition waiting (in_degree : dict Z) : nat := length (filter (λ kv : string * Z, 0 < kv.2) in_degree).

Lemma waiting_pos d k n : dict_get d k = Some n → 0 < n → (0 < waiting d)%nat.
Proof.
  intros E%dict_get_elem Hn. unfold waiting. destruct (filter _ d) eqn:Ef; [|cbn; lia].
  assert (H : (k, n) ∈ filter (λ kv : string * Z, 0 < kv.2) d) by (apply list_elem_of_filter; done).
  rewrite Ef in H. set_solver.
Qed.
Lemma waiting_put d k n m :
  dict_get d k = Some n →
  waiting (dict_put d k m) =
    (waiting d + (if decide (0 < m)%Z then 1 else 0) - (if decide (0 < n)%Z then 1 else 0))%nat.
Proof.
  unfold waiting. induction d as [|[j w] d IH]; [done|]. cbn [dict_put dict_get].
  destruct (decide (j = k)) as [->|]; intros H; rewrite !filter_cons.
  - injection H as ->. cbn [snd]. repeat case_decide; cbn [length]; lia.
  - specialize (IH H). cbn [snd].
    pose proof (waiting_pos _ _ _ H) as Hp. unfold waiting in Hp. repeat case_decide; cbn [length] in *; lia.
Qed.

Lemma relax_measure children d q d' q' :
  relax children d q = Ok (d', q') → (length q' + waiting d' = length q + waiting d)%nat.
Proof.
  revert d q. induction children as [|c rest IH]; intros d q; cbn; [by intros [= <- <-]|].
  destruct (dict_get d c) as [n|] eqn:E; [|done]. intros H. apply IH in H. rewrite H, (waiting_put _ _ _ _ E).
  pose proof (waiting_pos _ _ _ E).
  destruct (Z.eqb_spec (n - 1) 0); rewrite ?length_app; cbn [length]; repeat case_decide; lia.
Qed.

Lemma kahn_ends fuel g d q res :
  (length q + waiting d ≤ fuel)%nat →
  ∃ r, ∀ fuel', (fuel ≤ fuel')%nat → kahn fuel' g d q res = Some r.
Proof.
  revert d q res. induction fuel as [|fuel IH]; intros d [|nid q] res Hf.
  - eexists. by intros [].
  - cbn in Hf. lia.
  - eexists. by intros [].
  - destruct (relax (successors g nid) d q) as [[d' q']|e] eqn:E.
    + destruct (IH d' q' (res ++ [nid])) as [r Hr].
      { apply relax_measure in E. cbn in Hf. lia. }
      exists r. intros [|fuel'] Hle; [lia|]. cbn. rewrite E. apply Hr. lia.
    + exists (Err e). intros [|fuel'] Hle; [lia|]. cbn. by rewrite E.
Qed.

Lemma in_degrees_measure g :
  (length (roots (in_degrees g)) + waiting (in_degrees g) ≤ length (g_nodes g))%nat.
Proof.
  unfold roots, waiting. rewrite length_fmap.
  transitivity (length (in_degrees g)); [|unfold in_degrees; by rewrite !length_fmap].
  induction (in_degrees g) as [|[k n] l IH]; [done|]. rewrite !filter_cons. cbn [snd].
  repeat case_decide; cbn [length]; lia.
Qed.

(** ** Cycles *)

(** A finite set whose elements all point to one of them has a cycle: follow
    the relation until a visited node comes back. *)
Lemma chase (R : relation string) (rest : list string) (P : string → Prop) (vis : list string) x :
  (∀ y, P y → ∃ z, P z ∧ R y z) → P x → (∀ y, P y → y ∈ rest ∨ y ∈ x :: vis) →
  (∀ v, v ∈ vis → tc R v x) → ∃ y, tc R y y.
Proof.
  intros Hp. revert vis x. induction (Nat.lt_wf_0_projected length rest) as [rest _ IH]. intros vis x Hx Hall Hv.
  destruct (Hp x Hx) as (y & Hy & Hxy). destruct (decide (y ∈ x :: vis)) as [[->|Hin]%elem_of_cons|Hn].
  - exists x. by apply tc_once.
  - exists x. eapply tc_l; [exact Hxy|by apply Hv].
  - destruct (Hall y Hy) as [Hr|?]; [|done]. apply list_elem_of_split in Hr as (a & b & ->).
    apply (IH (a ++ b) ltac:(rewrite !length_app; cbn; lia) (x :: vis) y); [done| |].
    + intros z Hz. destruct (Hall z Hz) as [H|H]; [|right; by right].
      apply elem_of_app in H as [H|[->|H]%elem_of_cons]; [left; apply elem_of_app; auto|right; left|].
      left; apply elem_of_app; auto.
    + intros v [->|H]%elem_of_cons; [by apply tc_once|]. eapply tc_r; [by apply Hv|done].
Qed.

(** ** Kahn's algorithm: the order *)

Section kahn.
Context (nodes : dict DAGNode) (edges : dict (list string)).
Let g := make_dag nodes edges.
Let ids := nodes.*1.
Context (Hids : NoDup ids) (Hedges : NoDup edges.*1) (Hsub : edges.*1 ⊆ ids).
Let deps := predecessors g.
Context (Hclosed : ∀ c x, x ∈ deps c → x ∈ ids).

(** The dependencies of [c] that are not in [res] yet, repetitions counted. *)
Definition missing (res : list string) (c : string) : nat := length (filter (λ x, x ∉ res) (deps c)).

Lemma missing_snoc res nid c : nid ∉ res → (missing (res ++ [nid]) c + occ nid (deps c) = missing res c)%nat.
Proof.
  intros Hn. unfold missing, occ. induction (deps c) as [|x l IH]; [done|].
  rewrite !filter_cons. destruct (decide (x = nid)) as [->|].
  - rewrite (decide_False (P := nid ∉ res ++ [nid])) by set_solver. rewrite (decide_True (P := nid ∉ res)) by done.
    cbn [length]. lia.
  - destruct (decide (x ∉ res)); [rewrite decide_True by set_solver|rewrite decide_False by set_solver]; cbn [length]; lia.
Qed.
Lemma missing_zero res c : missing res c = 0%nat ↔ ∀ x, x ∈ deps c → x ∈ res.
Proof.
  unfold missing. rewrite length_zero_iff_nil. split.
  - intros H x Hx. destruct (decide (x ∈ res)); [done|].
    assert (x ∈ filter (λ x, x ∉ res) (deps c)) by (by apply list_elem_of_filter). rewrite H in *. set_solver.
  - intros H. destruct (filter _ _) as [|y l] eqn:E; [done|].
    assert (y ∈ filter (λ x, x ∉ res) (deps c)) as [Hy Hd]%list_elem_of_filter by (rewrite E; left). by apply H in Hd.
Qed.

(** What one pass over the children does. *)
Lemma relax_spec children d q :
  (∀ c, c ∈ children → ∃ n, dict_get d c = Some n ∧ Z.of_nat (occ c children) ≤ n) →
  ∃ d' new, relax children d q = Ok (d', q ++ new) ∧ NoDup new ∧
    (∀ c, dict_get d' c = (λ n, n - Z.of_nat (occ c children)) <$> dict_get d c) ∧
    (∀ c, c ∈ new ↔ c ∈ children ∧ dict_get d c = Some (Z.of_nat (occ c children))).
Proof.
  revert d q. induction children as [|c rest IH]; intros d q H.
  - exists d, []. rewrite app_nil_r. split; [done|]. split; [constructor|]. split; [|set_solver].
    intros c. destruct (dict_get d c); [|done]. cbn. f_equal. lia.
  - destruct (H c) as (n & Hn & Hle); [left|]. rewrite occ_cons, decide_True in Hle by done.
    destruct (IH (dict_put d c (n - 1)) (if n - 1 =? 0 then q ++ [c] else q)) as (d' & new & Hr & Hnd & Hget & Hnew).
    { intros x Hx. destruct (H x) as (m & Hm & Hlm); [by right|]. rewrite occ_cons in Hlm. rewrite dict_get_put.
      destruct (decide (c = x)) as [->|]; [|eauto]. rewrite Hn in Hm. injection Hm as <-. eexists. split; [done|]. lia. }
    cbn [relax]. rewrite Hn, Hr.
    assert (Hget' : ∀ x, dict_get d' x = (λ m, m - Z.of_nat (occ x (c :: rest))) <$> dict_get d x).
    { intros x. rewrite Hget, dict_get_put, occ_cons. destruct (decide (c = x)) as [->|]; [|done].
      rewrite Hn. cbn. f_equal. lia. }
    assert (Hnew' : ∀ x, x ≠ c → x ∈ new ↔ x ∈ c :: rest ∧ dict_get d x = Some (Z.of_nat (occ x (c :: rest)))).
    { intros x Hx. rewrite Hnew, dict_get_put, occ_cons, decide_False, (decide_False (P := c = x)) by congruence.
      cbn. set_solver. }
    assert (Hc : c ∈ new ↔ c ∈ rest ∧ n - 1 = Z.of_nat (occ c rest)).
    { rewrite Hnew, dict_get_put, decide_True by done. split; intros [? He]; (split; [done|congruence]). }
    pose proof (occ_pos c rest) as Hpos. destruct (Z.eqb_spec (n - 1) 0) as [Hz|Hz].
    + exists d', (c :: new). rewrite <-(assoc_L (++)). split; [done|]. split.
      { constructor; [|done]. rewrite Hc. intros [Hin _]. apply Hpos in Hin. lia. }
      split; [done|]. intros x. rewrite (elem_of_cons new x c). destruct (decide (x = c)) as [->|Hx].
      2: { rewrite <-(Hnew' x Hx). clear -Hx. tauto. }
      rewrite Hn, occ_cons, decide_True by done. split; [|auto]. intros _. split; [left|]. f_equal. lia.
    + exists d', new. split; [done|]. split; [done|]. split; [done|]. intros x.
      destruct (decide (x = c)) as [->|Hx]; [|by apply Hnew'].
      rewrite Hc, Hn, occ_cons, decide_True by done. split.
      * intros [Hin He]. split; [left|]. f_equal. lia.
      * intros [_ [= He]]. assert (Hr0 : (0 < occ c rest)%nat) by lia. split; [by apply Hpos|lia].
Qed.

(** The output so far lists every dependency before its dependents. *)
Definition topological (res : list string) : Prop :=
  ∀ l1 c l2, res = l1 ++ c :: l2 → ∀ x, x ∈ deps c → x ∈ l1.

Record kahn_inv (d : dict Z) (q res : list string) : Prop := {
  ki_nodup : NoDup (res ++ q);
  ki_ids : res ++ q ⊆ ids;
  ki_degree c : c ∈ ids → dict_get d c = Some (Z.of_nat (missing res c));
  ki_queued c : c ∈ ids → c ∈ res ++ q ↔ missing res c = 0%nat;
  ki_topological : topological res;
}.

Lemma deps_in_ids c x : x ∈ deps c → c ∈ ids.
Proof.
  unfold deps, predecessors. intros Hx. apply Hsub, dict_get_is_Some. cbn [g_edges make_dag g] in Hx.
  destruct (dict_get edges c); [eauto|]. cbn in Hx. set_solver.
Qed.
Lemma occ_children nid c : occ c (successors g nid) = occ nid (deps c).
Proof. by apply occ_successors. Qed.

Lemma topological_snoc res nid :
  topological res → (∀ x, x ∈ deps nid → x ∈ res) → topological (res ++ [nid]).
Proof.
  intros Ht Hn l1 c l2 E x Hx. destruct l2 as [|y l2 _] using rev_ind.
  - apply app_inj_tail in E as [-> ->]. by apply Hn.
  - rewrite app_comm_cons, (assoc_L (++)) in E. apply app_inj_tail in E as [-> _]. by eapply Ht.
Qed.

Lemma kahn_inv_step d nid q res :
  kahn_inv d (nid :: q) res →
  ∃ d' q', relax (successors g nid) d q = Ok (d', q') ∧ kahn_inv d' q' (res ++ [nid]).
Proof.
  intros [Hnd Hin Hdeg Hq Ht]. rewrite NoDup_app in Hnd. destruct Hnd as (Hres & Hdis & [Hnq Hnd]%NoDup_cons).
  assert (Hnid : nid ∉ res) by (intros H; apply (Hdis _ H); left).
  assert (Hnidin : nid ∈ ids) by (apply Hin; set_solver).
  assert (Hnidz : missing res nid = 0%nat) by (apply Hq; [done|set_solver]).
  destruct (relax_spec (successors g nid) d q) as (d1 & new & Hr & Hnn & Hget & Hnew).
  { intros c Hc%occ_pos. rewrite occ_children in *. assert (Hci : c ∈ ids).
    { apply (deps_in_ids c nid). by apply occ_pos. }
    rewrite (Hdeg c Hci). eexists. split; [done|]. pose proof (missing_snoc res nid c Hnid). lia. }
  exists d1, (q ++ new). split; [exact Hr|]. clear Hr.
  assert (Hm : ∀ c, (missing (res ++ [nid]) c + occ nid (deps c) = missing res c)%nat)
    by (intros c; by apply missing_snoc).
  assert (Hnew' : ∀ c, c ∈ ids → c ∈ new ↔ (0 < missing res c ∧ missing (res ++ [nid]) c = 0)%nat).
  { intros c Hc. rewrite Hnew, <-occ_pos, occ_children, (Hdeg c Hc). specialize (Hm c).
    split; [intros [Hp [= He]]|intros [Hp He]; split; [|f_equal]]; lia. }
  assert (Hnewids : ∀ c, c ∈ new → c ∈ ids).
  { intros c [Hc%occ_pos _]%Hnew. rewrite occ_children in Hc. apply (deps_in_ids c nid). by apply occ_pos. }
  split.
  - rewrite <-(assoc_L (++)). apply NoDup_app. split; [done|]. split.
    { intros x Hx Hx'. apply (Hdis x Hx). rewrite elem_of_cons. apply elem_of_cons in Hx' as [->|Hx']; [auto|].
      apply elem_of_app in Hx' as [Hx'|Hx']; [auto|]. exfalso.
      pose proof (proj1 (Hnew' x (Hnewids x Hx')) Hx') as [Hp _].
      assert (missing res x = 0%nat) by (apply Hq; [auto|set_solver]). lia. }
    constructor.
    { rewrite elem_of_app. intros [?|Hx]; [done|]. pose proof (proj1 (Hnew' nid Hnidin) Hx). lia. }
    apply NoDup_app. split; [done|]. split; [|done]. intros x Hx Hx'.
    pose proof (proj1 (Hnew' x (Hnewids x Hx')) Hx') as [Hp _].
    assert (missing res x = 0%nat) by (apply Hq; [auto|set_solver]). lia.
  - intros x. rewrite !elem_of_app. specialize (Hin x). set_solver.
  - intros c Hc. rewrite Hget, (Hdeg c Hc), occ_children. specialize (Hm c). cbn [fmap option_fmap option_map]. f_equal. lia.
  - intros c Hc. specialize (Hq c Hc). specialize (Hnew' c Hc). specialize (Hm c).
    rewrite !elem_of_app, list_elem_of_singleton. rewrite elem_of_app, elem_of_cons in Hq.
    assert (Hz : missing (res ++ [nid]) c = 0%nat ↔ missing res c = 0%nat ∨
      (0 < missing res c ∧ missing (res ++ [nid]) c = 0)%nat) by lia.
    rewrite Hz, <-Hq, <-Hnew'. clear. tauto.
  - apply topological_snoc; [done|]. by apply missing_zero.
Qed.

Lemma kahn_inv_run fuel d q res r :
  kahn_inv d q res → kahn fuel g d q res = Some r → ∃ d' res', r = Ok res' ∧ kahn_inv d' [] res'.
Proof.
  revert d q res. induction fuel as [|fuel IH]; intros d [|nid q] res Hi.
  - intros [= <-]. eauto.
  - done.
  - intros [= <-]. eauto.
  - destruct (kahn_inv_step _ _ _ _ Hi) as (d' & q' & E & Hi'). cbn [kahn]. rewrite E. by apply IH.
Qed.

Lemma in_degrees_keys : (in_degrees g).*1 = ids.
Proof. unfold in_degrees. rewrite <-list_fmap_compose. apply list_fmap_id. Qed.
Lemma in_degrees_get c : c ∈ ids → dict_get (in_degrees g) c = Some (Z.of_nat (length (deps c))).
Proof.
  intros Hc. apply dict_elem_get; [by rewrite in_degrees_keys|]. apply list_elem_of_fmap. by exists c.
Qed.
Lemma missing_nil c : missing [] c = length (deps c).
Proof.
  unfold missing. f_equal. induction (deps c) as [|x l IH]; [done|].
  rewrite filter_cons, decide_True by (clear; set_solver). by rewrite IH.
Qed.

Lemma kahn_inv_init : kahn_inv (in_degrees g) (roots (in_degrees g)) [].
Proof.
  assert (Hr : ∀ c, c ∈ roots (in_degrees g) ↔ c ∈ ids ∧ deps c = []).
  { intros c. unfold roots. rewrite list_elem_of_fmap. split.
    - intros ([k n] & -> & [Hn Hin]%list_elem_of_filter). cbn in Hn. subst n.
      unfold in_degrees in Hin. apply list_elem_of_fmap in Hin as (k' & [= -> Hl] & Hk). split; [done|].
      apply length_zero_iff_nil. symmetry in Hl. by apply Nat2Z.inj.
    - intros [Hc Hd]. exists (c, 0). split; [done|]. apply list_elem_of_filter. split; [done|].
      apply dict_get_elem. by rewrite in_degrees_get, Hd. }
  split; cbn [app].
  - apply nodup_keys_filter. by rewrite in_degrees_keys.
  - intros c Hc. by apply Hr.
  - intros c Hc. by rewrite missing_nil, in_degrees_get.
  - intros c Hc. rewrite Hr, missing_nil, length_zero_iff_nil. naive_solver.
  - intros [] c l2 E; discriminate E.
Qed.

(** *** Cycles *)

Definition depends (x y : string) : Prop := y ∈ deps x.
Definition acyclic : Prop := ∀ x, ¬ tc depends x x.

Lemma topological_before res x y :
  topological res → tc depends x y → ∀ l1 l2, res = l1 ++ x :: l2 → y ∈ l1.
Proof.
  intros Ht Hxy. induction Hxy as [x y H|x z y H _ IH]; intros l1 l2 E; [by eapply Ht|].
  assert (Hz : z ∈ l1) by (by eapply Ht). apply list_elem_of_split in Hz as (a & b & ->).
  apply elem_of_app. left. apply (IH a (b ++ x :: l2)). by rewrite E, <-(assoc_L (++)).
Qed.
Lemma topological_acyclic res : NoDup res → topological res → ids ⊆ res → acyclic.
Proof.
  intros Hnd Ht Hin x Hx. assert (Hxi : x ∈ res).
  { apply Hin. inversion Hx as [? ? H|? ? ? H]; subst; by eapply deps_in_ids. }
  apply list_elem_of_split in Hxi as (l1 & l2 & E).
  pose proof (topological_before res x x Ht Hx l1 l2 E) as H. subst. apply NoDup_app in Hnd as (_ & Hnd & _).
  apply (Hnd x H). left.
Qed.

Lemma kahn_stuck d res : kahn_inv d [] res → length res ≠ length ids → ∃ x, tc depends x x.
Proof.
  intros [Hnd Hin _ Hq _] Hl. rewrite app_nil_r in *. assert (Hx : ∃ x, x ∈ ids ∧ x ∉ res).
  { destruct (decide (Exists (λ x, x ∉ res) ids)) as [[x Hx]%Exists_exists|Hn]; [eauto|].
    exfalso. apply Hl. apply Permutation_length, NoDup_Permutation; [done..|]. intros x. split; [apply Hin|].
    intros Hx. destruct (decide (x ∈ res)); [done|]. exfalso. apply Hn, Exists_exists. eauto. }
  destruct Hx as (x & Hx & Hxr).
  apply (chase depends ids (λ y, y ∈ ids ∧ y ∉ res) [] x); [|done|intros y [Hy _]; auto|set_solver].
  intros y [Hy Hyr]. assert (Hm : missing res y ≠ 0%nat) by (by rewrite <-(Hq y Hy)).
  destruct (decide (Exists (λ z, z ∉ res) (deps y))) as [(z & Hz & Hzr)%Exists_exists|Hn].
  - exists z. split; [|done]. split; [by eapply Hclosed|done].
  - exfalso. apply Hm, missing_zero. intros z Hz. destruct (decide (z ∈ res)); [done|].
    exfalso. apply Hn, Exists_exists. eauto.
Qed.

(** [topological_sort] on a graph whose dependencies are all nodes. *)
Lemma topological_sort_eq :
  (∃ order, topological_sort g = Some (Ok order) ∧ order ≡ₚ ids ∧ topological order ∧ acyclic) ∨
  (topological_sort g = Some (Err (Exn ValueError "Cycle detected in DAG")) ∧ ∃ x, tc depends x x).
Proof.
  unfold topological_sort. pose proof (in_degrees_measure g) as Hm.
  destruct (kahn_ends _ g (in_degrees g) (roots (in_degrees g)) [] Hm) as [r Hr]. rewrite Hr by done.
  destruct (kahn_inv_run _ _ _ _ _ kahn_inv_init (Hr _ (Nat.le_refl _))) as (d' & order & -> & Hi).
  assert (Hlen : length (g_nodes g) = length ids) by (unfold ids; by rewrite length_fmap). rewrite Hlen.
  destruct (decide (length order = length ids)) as [Hl|Hl]; [left|right; eauto using kahn_stuck].
  destruct Hi as [Hnd Hin _ _ Ht]. rewrite app_nil_r in *. exists order. split; [done|].
  assert (Hp : order ≡ₚ ids).
  { apply submseteq_length_Permutation; [by apply NoDup_submseteq|lia]. }
  split; [done|]. split; [done|]. apply (topological_acyclic order Hnd Ht). by rewrite Hp.
Qed.
End kahn.

(** ** Graphs of node lists *)

Definition ids_of (nodes : list DAGNode) : list string := node_id <$> nodes.
(** [y] is a dependency of the node [x]. *)
Definition node_depends (nodes : list DAGNode) (x y : string) : Prop :=
  ∃ n, n ∈ nodes ∧ node_id n = x ∧ y ∈ depends_on n.
(** Every dependency names a node of the list. *)
Definition closed (nodes : list DAGNode) : Prop := ∀ x y, node_depends nodes x y → y ∈ ids_of nodes.

Lemma pairs_keys {A} (f : DAGNode → A) nodes : ((λ n, (node_id n, f n)) <$> nodes).*1 = ids_of nodes.
Proof. by rewrite <-list_fmap_compose. Qed.
Lemma dag_of_nodes_eq nodes :
  NoDup (ids_of nodes) →
  dag_of_nodes nodes = make_dag ((λ n, (node_id n, n)) <$> nodes) ((λ n, (node_id n, depends_on n)) <$> nodes).
Proof. intros H. unfold dag_of_nodes. by rewrite !dict_of_nodup by (by rewrite pairs_keys). Qed.
Lemma dag_of_nodes_keys nodes : NoDup (ids_of nodes) → (g_nodes (dag_of_nodes nodes)).*1 = ids_of nodes.
Proof. intros H. rewrite dag_of_nodes_eq by done. apply pairs_keys. Qed.
Lemma dag_of_nodes_depends nodes x y :
  NoDup (ids_of nodes) → y ∈ predecessors (dag_of_nodes nodes) x ↔ node_depends nodes x y.
Proof.
  intros H. rewrite dag_of_nodes_eq by done. unfold predecessors. cbn [g_edges make_dag]. split.
  - destruct (dict_get _ x) as [l|] eqn:E; [|cbn; set_solver]. apply dict_get_elem in E.
    apply list_elem_of_fmap in E as (n & [= -> ->] & Hn). cbn. intros Hy. by exists n.
  - intros (n & Hn & <- & Hy). rewrite (dict_elem_get _ (node_id n) (depends_on n)); [done|by rewrite pairs_keys|].
    apply list_elem_of_fmap. by exists n.
Qed.

Lemma elem_of_sorted_text x (l : list string) : x ∈ order_by text_le l ↔ x ∈ l.
Proof. by rewrite (order_by_perm text_le l). Qed.
Lemma elem_of_duplicate_ids nodes i : i ∈ duplicate_ids nodes ↔ (1 < occ i (ids_of nodes))%nat.
Proof.
  unfold duplicate_ids. rewrite elem_of_sorted_text, list_elem_of_filter, elem_of_remove_dups, <-occ_pos.
  unfold ids_of. lia.
Qed.
Lemma elem_of_unknown_ids nodes i :
  i ∈ unknown_ids nodes ↔ (∃ x, node_depends nodes x i) ∧ i ∉ ids_of nodes.
Proof.
  unfold unknown_ids, node_depends. rewrite elem_of_sorted_text, list_elem_of_filter, elem_of_remove_dups, list_elem_of_bind.
  unfold ids_of. naive_solver.
Qed.
Lemma occ_nodup l : NoDup l ↔ ∀ i, (occ i l ≤ 1)%nat.
Proof.
  induction l as [|x l IH].
  - split; [intros _ i; change (occ i []) with 0%nat; lia|constructor].
  - rewrite NoDup_cons, IH, <-(occ_zero x l). setoid_rewrite occ_cons. split.
    + intros [Hx H] i. specialize (H i). case_decide; subst; lia.
    + intros H. split; [specialize (H x); rewrite decide_True in H by done; lia|].
      intros i. specialize (H i). lia.
Qed.
Lemma no_duplicate_ids nodes : duplicate_ids nodes = [] ↔ NoDup (ids_of nodes).
Proof.
  rewrite occ_nodup. split.
  - intros H i. pose proof (elem_of_duplicate_ids nodes i) as Hi. rewrite H in Hi.
    destruct (decide (1 < occ i (ids_of nodes))%nat) as [?%Hi|]; [set_solver|lia].
  - intros H. destruct (duplicate_ids nodes) as [|i l] eqn:E; [done|].
    assert (Hi : i ∈ duplicate_ids nodes) by (rewrite E; left). apply elem_of_duplicate_ids in Hi.
    specialize (H i). lia.
Qed.
Lemma no_unknown_ids nodes : unknown_ids nodes = [] ↔ closed nodes.
Proof.
  split.
  - intros H x y Hxy. destruct (decide (y ∈ ids_of nodes)); [done|]. exfalso.
    assert (Hy : y ∈ unknown_ids nodes) by (apply elem_of_unknown_ids; eauto). rewrite H in Hy. set_solver.
  - intros H. destruct (unknown_ids nodes) as [|i l] eqn:E; [done|].
    assert (Hi : i ∈ unknown_ids nodes) by (rewrite E; left). apply elem_of_unknown_ids in Hi as [[x Hx] Hn].
    by apply H in Hx.
Qed.

Lemma tc_congruence {A} (R R' : relation A) : (∀ x y, R x y ↔ R' x y) → ∀ x y, tc R x y ↔ tc R' x y.
Proof. intros H x y. split; induction 1; econstructor; try done; by apply H. Qed.

(** [topological_sort] on the graph of a closed list of distinct nodes. *)
Lemma sort_nodes_eq nodes :
  NoDup (ids_of nodes) → closed nodes →
  (∃ order, topological_sort (dag_of_nodes nodes) = Some (Ok order) ∧ order ≡ₚ ids_of nodes ∧
     (∀ l1 c l2, order = l1 ++ c :: l2 → ∀ x, node_depends nodes c x → x ∈ l1) ∧
     ∀ x, ¬ tc (node_depends nodes) x x) ∨
  (topological_sort (dag_of_nodes nodes) = Some (Err (Exn ValueError "Cycle detected in DAG")) ∧
   ∃ x, tc (node_depends nodes) x x).
Proof.
  intros Hn Hc. pose proof (dag_of_nodes_depends nodes) as Hd. rewrite (dag_of_nodes_eq nodes Hn) in *.
  set (ns := (λ n, (node_id n, n)) <$> nodes) in *. set (es := (λ n, (node_id n, depends_on n)) <$> nodes) in *.
  assert (Hk : ns.*1 = ids_of nodes) by apply pairs_keys. assert (He : es.*1 = ids_of nodes) by apply pairs_keys.
  assert (Heq : ∀ x y, depends ns es x y ↔ node_depends nodes x y) by (intros x y; by apply Hd).
  destruct (topological_sort_eq ns es) as [(order & Hs & Hp & Ht & Ha)|[Hs [x Hx]]].
  - by rewrite Hk.
  - by rewrite He.
  - by rewrite He, Hk.
  - intros c x Hx. rewrite Hk. apply (Hc c x). by apply Heq.
  - left. exists order. split; [done|]. split; [by rewrite <-Hk|]. split.
    + intros l1 c l2 E x Hx. apply (Ht l1 c l2 E x). by apply Heq.
    + intros x Hx. apply (Ha x). by apply (tc_congruence _ _ Heq).
  - right. split; [done|]. exists x. by apply (tc_congruence _ _ Heq).
Qed.

(** ** The propagation of a failure *)

(** The edges that leave cancellable nodes. *)
Definition open_edges (g : DAG) (nodes : dict DAGNode) : nat :=
  sum_list_with (λ kv : string * DAGNode, if cancellable kv.2 then length (successors g kv.1) else 0%nat) nodes.

Lemma open_edges_bound g nodes : (open_edges g nodes ≤ edge_count g nodes.*1)%nat.
Proof.
  unfold open_edges, edge_count. induction nodes as [|[k n] nodes IH]; [done|]. cbn. destruct (cancellable n); lia.
Qed.
Lemma not_cancellable n : cancellable (set_status N_CANCELLED n) = false.
Proof. done. Qed.
Lemma open_edges_cancel g nodes nid n :
  dict_get nodes nid = Some n → cancellable n = true →
  (open_edges g (dict_put nodes nid (set_status N_CANCELLED n)) + length (successors g nid) =
   open_edges g nodes)%nat.
Proof.
  intros H Hc. unfold open_edges. induction nodes as [|[k m] nodes IH]; [done|]. cbn [dict_get dict_put] in *.
  destruct (decide (k = nid)) as [->|]; cbn [sum_list_with fst snd].
  - injection H as ->. rewrite Hc, not_cancellable. lia.
  - specialize (IH H). lia.
Qed.
Lemma successors_with_nodes nodes g nid : successors (with_nodes nodes g) nid = successors g nid.
Proof. done. Qed.
Lemma open_edges_with_nodes nodes g l : open_edges (with_nodes nodes g) l = open_edges g l.
Proof. done. Qed.

Lemma cancel_loop_ends fuel q vis can g :
  (length q + open_edges g (g_nodes g) ≤ fuel)%nat →
  ∃ r, ∀ fuel', (fuel ≤ fuel')%nat → cancel_loop fuel' q vis can g = Some r.
Proof.
  revert q vis can g. induction fuel as [|fuel IH]; intros [|nid q] vis can g Hf.
  - eexists. by intros [].
  - cbn in Hf. lia.
  - eexists. by intros [].
  - cbn [length] in Hf. assert (Hstep : ∀ q' vis' can' g', (length q' + open_edges g' (g_nodes g') ≤ fuel)%nat →
      ∃ r, ∀ fuel', (S fuel ≤ fuel')%nat → cancel_loop (pred fuel') q' vis' can' g' = Some r).
    { intros q' vis' can' g' Hle. destruct (IH q' vis' can' g' Hle) as [r Hr]. exists r. intros [|f]; [lia|].
      intros Hle'. apply Hr. lia. }
    assert (Hred : ∀ o, (∃ r, ∀ fuel', (S fuel ≤ fuel')%nat → o fuel' = Some r) →
      (∀ f, o (S f) = cancel_loop (S f) (nid :: q) vis can g) →
      ∃ r, ∀ fuel', (S fuel ≤ fuel')%nat → cancel_loop fuel' (nid :: q) vis can g = Some r).
    { intros o [r Hr] Ho. exists r. intros [|f] Hle; [lia|]. rewrite <-Ho. by apply Hr. }
    destruct (decide (nid ∈ vis)) as [Hin|Hin].
    { apply (Hred _ (Hstep q vis can g ltac:(lia))). intros f. cbn [cancel_loop pred]. by rewrite decide_True. }
    destruct (dict_get (g_nodes g) nid) as [n|] eqn:E.
    2: { eexists. intros [|f] Hle; [lia|]. cbn [cancel_loop]. by rewrite decide_False, E. }
    destruct (cancellable n) eqn:Hc.
    + eapply Hred; [eapply (Hstep (q ++ successors g nid) (vis ++ [nid]) (can ++ [nid])
        (with_nodes (dict_put (g_nodes g) nid (set_status N_CANCELLED n)) g))|].
      * rewrite open_edges_with_nodes. cbn [g_nodes with_nodes]. rewrite length_app.
        pose proof (open_edges_cancel g _ _ _ E Hc). lia.
      * intros f. cbn [cancel_loop pred]. by rewrite decide_False, E, Hc.
    + apply (Hred _ (Hstep q (vis ++ [nid]) can g ltac:(lia))).
      intros f. cbn [cancel_loop pred]. by rewrite decide_False, E, Hc.
Qed.

(** The nodes a failure of [x] reaches along cancellable nodes. *)
Definition cancellable_at (g : DAG) (c : string) : Prop :=
  ∃ n, dict_get (g_nodes g) c = Some n ∧ cancellable n = true.
Inductive downstream (g : DAG) (x : string) : string → Prop :=
  | downstream_one c : c ∈ successors g x → cancellable_at g c → downstream g x c
  | downstream_more y c : downstream g x y → c ∈ successors g y → cancellable_at g c → downstream g x c.

(** The nodes of [g] with those of [can] cancelled. *)
Definition cancelled_nodes (g : DAG) (can : list string) (nodes : dict DAGNode) : Prop :=
  nodes.*1 = (g_nodes g).*1 ∧
  ∀ c, dict_get nodes c =
    if decide (c ∈ can) then set_status N_CANCELLED <$> dict_get (g_nodes g) c else dict_get (g_nodes g) c.

Record cancel_inv (g : DAG) (x : string) (q vis can : list string) (h : DAG) : Prop := {
  ci_edges : g_edges h = g_edges g ∧ g_reverse h = g_reverse g;
  ci_nodes : cancelled_nodes g can (g_nodes h);
  ci_visited : can ⊆ vis;
  ci_nodup : NoDup can;
  ci_sound c : c ∈ can → downstream g x c;
  ci_queue c : c ∈ q → c ∈ successors g x ∨ ∃ y, y ∈ can ∧ c ∈ successors g y;
  ci_frontier c : c ∈ successors g x ∨ (∃ y, y ∈ can ∧ c ∈ successors g y) → c ∈ q ∨ c ∈ vis;
  ci_left c : c ∈ vis → c ∈ can ∨ ¬ cancellable_at g c;
}.

Lemma cancel_inv_done g x vis can h c : cancel_inv g x [] vis can h → c ∈ can ↔ downstream g x c.
Proof.
  intros Hi. split; [apply (ci_sound _ _ _ _ _ _ Hi)|]. intros Hd.
  assert (Hstep : ∀ z, z ∈ successors g x ∨ (∃ y, y ∈ can ∧ z ∈ successors g y) → cancellable_at g z → z ∈ can).
  { intros z Hz Hc. destruct (ci_frontier _ _ _ _ _ _ Hi z Hz) as [?|Hv]; [set_solver|].
    by destruct (ci_left _ _ _ _ _ _ Hi z Hv). }
  induction Hd as [z Hz Hc|y z Hy IH Hz Hc]; apply Hstep; eauto.
Qed.

(** Every successor is a node, so the loop never raises [KeyError]. *)
Definition successors_known (g : DAG) : Prop := ∀ y c, c ∈ successors g y → c ∈ (g_nodes g).*1.

Lemma cancel_inv_node g x nid q vis can h :
  successors_known g → cancel_inv g x (nid :: q) vis can h → nid ∉ vis →
  ∃ n, dict_get (g_nodes g) nid = Some n ∧ dict_get (g_nodes h) nid = Some n.
Proof.
  intros Hk Hi Hv. assert (Hin : nid ∈ (g_nodes g).*1).
  { destruct (ci_queue _ _ _ _ _ _ Hi nid) as [H|(y & _ & H)]; [left|by eapply Hk|by eapply Hk]. }
  apply dict_get_is_Some in Hin as [n Hn]. exists n. split; [done|].
  rewrite (proj2 (ci_nodes _ _ _ _ _ _ Hi)), decide_False; [done|].
  intros Hc. by apply Hv, (ci_visited _ _ _ _ _ _ Hi).
Qed.

Lemma cancel_inv_skip g x nid q vis can h :
  cancel_inv g x (nid :: q) vis can h → nid ∈ vis → cancel_inv g x q vis can h.
Proof.
  intros [He Hn Hv Hd Hs Hq Hf Hl] Hin. split; try done.
  - intros c Hc. apply Hq. by right.
  - intros c Hc. destruct (Hf c Hc) as [[->|H]%elem_of_cons|H]; auto.
Qed.
Lemma cancel_inv_pass g x nid n q vis can h :
  cancel_inv g x (nid :: q) vis can h → dict_get (g_nodes g) nid = Some n → cancellable n = false →
  cancel_inv g x q (vis ++ [nid]) can h.
Proof.
  intros [He Hn Hv Hd Hs Hq Hf Hl] Hg Hc. split; try done.
  - intros c H. apply elem_of_app. left. by apply Hv.
  - intros c H. apply Hq. by right.
  - intros c H. rewrite elem_of_app, list_elem_of_singleton. destruct (Hf c H) as [[->|?]%elem_of_cons|?]; auto.
  - intros c [H| ->%list_elem_of_singleton]%elem_of_app; [by apply Hl|]. right. intros (m & Hm & Hcm).
    rewrite Hg in Hm. injection Hm as <-. by rewrite Hc in Hcm.
Qed.
Lemma cancel_inv_cancel g x nid n q vis can h :
  cancel_inv g x (nid :: q) vis can h → nid ∉ vis → dict_get (g_nodes g) nid = Some n →
  dict_get (g_nodes h) nid = Some n → cancellable n = true →
  cancel_inv g x (q ++ successors g nid) (vis ++ [nid]) (can ++ [nid])
    (with_nodes (dict_put (g_nodes h) nid (set_status N_CANCELLED n)) h).
Proof.
  intros [He [Hkeys Hn] Hv Hd Hs Hq Hf Hl] Hnv Hg Hh Hc.
  assert (Hds : downstream g x nid).
  { destruct (Hq nid ltac:(left)) as [H|(y & Hy & H)];
      [apply downstream_one|eapply downstream_more; [by apply Hs|..]]; try done; by exists n. }
  split; try done; cbn [g_nodes with_nodes].
  - split.
    + rewrite dict_put_present; [done|]. apply dict_get_is_Some. eauto.
    + intros c. rewrite dict_get_put, Hn. destruct (decide (nid = c)) as [<-|Hne].
      * rewrite decide_True by (apply elem_of_app; right; left). by rewrite Hg.
      * destruct (decide (c ∈ can)); [by rewrite decide_True by (apply elem_of_app; auto)|].
        rewrite decide_False; [done|]. rewrite elem_of_app, list_elem_of_singleton. intros [?|?]; congruence.
  - intros c. rewrite !elem_of_app. intros [H|H]; [left; by apply Hv|auto].
  - apply NoDup_app. split; [done|]. split; [|apply NoDup_singleton].
    intros c Hin ->%list_elem_of_singleton. by apply Hnv, Hv.
  - intros c [H| ->%list_elem_of_singleton]%elem_of_app; [by apply Hs|done].
  - intros c [H|H]%elem_of_app.
    + destruct (Hq c ltac:(by right)) as [?|(y & Hy & ?)]; [auto|]. right. exists y.
      split; [apply elem_of_app; auto|done].
    + right. exists nid. split; [apply elem_of_app; right; left|done].
  - intros c H. rewrite !elem_of_app, list_elem_of_singleton.
    assert (Hcase : c ∈ successors g nid ∨ c ∈ successors g x ∨ ∃ y, y ∈ can ∧ c ∈ successors g y).
    { destruct H as [H|(y & [Hy| ->%list_elem_of_singleton]%elem_of_app & H)]; eauto. }
    destruct Hcase as [Hcase|Hcase]; [auto|]. destruct (Hf c Hcase) as [[->|?]%elem_of_cons|?]; auto.
  - intros c. rewrite !elem_of_app, list_elem_of_singleton. intros [H| ->]; [|auto].
    destruct (Hl c H); auto.
Qed.

Lemma cancel_inv_run fuel g x q vis can h r :
  successors_known g → cancel_inv g x q vis can h → cancel_loop fuel q vis can h = Some r →
  ∃ vis' can' h', r = (Ok can', h') ∧ cancel_inv g x [] vis' can' h'.
Proof.
  intros Hk. revert q vis can h. induction fuel as [|fuel IH]; intros [|nid q] vis can h Hi.
  - intros [= <-]. eauto 10.
  - done.
  - intros [= <-]. eauto 10.
  - cbn [cancel_loop]. destruct (decide (nid ∈ vis)) as [Hv|Hv]; [by apply IH; eapply cancel_inv_skip|].
    destruct (cancel_inv_node _ _ _ _ _ _ _ Hk Hi Hv) as (n & Hg & Hh). rewrite Hh.
    destruct (cancellable n) eqn:Hc; [|by apply IH; eapply cancel_inv_pass].
    apply IH. assert (Hs : successors h nid = successors g nid).
    { unfold successors. by rewrite (proj2 (ci_edges _ _ _ _ _ _ Hi)). }
    rewrite Hs. by apply cancel_inv_cancel.
Qed.

Lemma propagate_failure_eq x g :
  successors_known g →
  ∃ can nodes, propagate_failure x g = Some (Ok can, with_nodes nodes g) ∧ NoDup can ∧
    (∀ c, c ∈ can ↔ downstream g x c) ∧ cancelled_nodes g can nodes.
Proof.
  intros Hk. unfold propagate_failure.
  set (fuel := (length (successors g x) + edge_count g (g_nodes g).*1)%nat).
  destruct (cancel_loop_ends fuel (successors g x) [] [] g) as [r Hr].
  { unfold fuel. pose proof (open_edges_bound g (g_nodes g)). lia. }
  specialize (Hr fuel (Nat.le_refl _)). rewrite Hr.
  destruct (cancel_inv_run fuel g x (successors g x) [] [] g r Hk) as (vis & can & h & -> & Hi); [|done|].
  { split; try done.
    - constructor.
    - clear; set_solver.
    - auto.
    - intros c [H|(y & H & _)]; [auto|clear -H; set_solver].
    - clear; set_solver. }
  exists can, (g_nodes h). destruct h as [hn he hr]. destruct (ci_edges _ _ _ _ _ _ Hi) as [He Hrv]. cbn in *. subst.
  split; [done|]. split; [apply (ci_nodup _ _ _ _ _ _ Hi)|]. split; [intros c; by eapply cancel_inv_done|].
  apply (ci_nodes _ _ _ _ _ _ Hi).
Qed.

(** ** Runs

    How executor/dag_scheduler.py drives a graph: it starts ready nodes, marks
    a finished node completed, and marks a node that failed or was cancelled
    and propagates that. *)

Section runs.
Context (nodes : list DAGNode) (Hnodup : NoDup (ids_of nodes)) (Hclosed : closed nodes).
Let g0 := dag_of_nodes nodes.
Let ids := ids_of nodes.
Let dep := node_depends nodes.

(** A graph with the nodes and the edges of the list, whatever the statuses. *)
Definition same_graph (g : DAG) : Prop :=
  (g_nodes g).*1 = ids ∧ g_edges g = g_edges g0 ∧ g_reverse g = g_reverse g0.
Definition status_of (g : DAG) (c : string) : option DAGNodeStatus := n_status <$> dict_get (g_nodes g) c.

Inductive ending := Failed (error : option string) | Cancelled (error : string).
(** The marks of [on_node_complete] on a node that did not succeed. *)
Definition mark_ending (nid : string) (e : ending) : M DAG unit :=
  match e with
  | Failed error => mark_failed nid error
  | Cancelled error => update_node nid (set_node N_CANCELLED (Some error))
  end.

Inductive dag_step (g : DAG) : DAG → Prop :=
  | step_start l n g' :
      get_ready_nodes g = Ok l → n ∈ l → mark_running (node_id n) g = (Ok tt, g') → dag_step g g'
  | step_complete nid g' :
      status_of g nid = Some N_RUNNING → mark_completed nid g = (Ok tt, g') → dag_step g g'
  | step_end nid e g1 can g' :
      status_of g nid = Some N_RUNNING → mark_ending nid e g = (Ok tt, g1) →
      propagate_failure nid g1 = Some (Ok can, g') → dag_step g g'.

(** Work starts only after every dependency completed; nothing below a node
    that failed or was cancelled is left to run. *)
Record run_inv (g : DAG) : Prop := {
  ri_graph : same_graph g;
  ri_keyed c n : dict_get (g_nodes g) c = Some n → node_id n = c;
  ri_ready c : status_of g c ≠ Some N_READY;
  ri_started c s x : status_of g c = Some s → s ∈ [N_RUNNING; N_COMPLETED; N_FAILED] → dep c x →
    status_of g x = Some N_COMPLETED;
  ri_blocked c x s : dep c x → status_of g x = Some s → s ∈ [N_FAILED; N_CANCELLED] →
    status_of g c = Some N_CANCELLED;
}.

Lemma status_is_Some g c : same_graph g → is_Some (status_of g c) ↔ c ∈ ids.
Proof. intros [<- _]. unfold status_of. by rewrite fmap_is_Some, dict_get_is_Some. Qed.
Lemma dep_ids c x : dep c x → c ∈ ids ∧ x ∈ ids.
Proof.
  intros H. split; [|by eapply Hclosed]. destruct H as (n & Hn & <- & _). apply list_elem_of_fmap. eauto.
Qed.
Lemma predecessors_dep g c x : same_graph g → x ∈ predecessors g c ↔ dep c x.
Proof.
  intros (_ & He & _). unfold predecessors. rewrite He. apply (dag_of_nodes_depends nodes c x Hnodup).
Qed.
Lemma successors_dep g c x : same_graph g → c ∈ successors g x ↔ dep c x.
Proof.
  intros Hg. pose proof Hg as (_ & _ & Hr). rewrite <-(predecessors_dep g0 c x).
  - rewrite <-!occ_pos. unfold successors. rewrite Hr. fold (successors g0 x). unfold g0.
    rewrite dag_of_nodes_eq by done. rewrite occ_successors; [done|]. by rewrite pairs_keys.
  - split; [by apply dag_of_nodes_keys|done].
Qed.
Lemma same_graph_known g : same_graph g → successors_known g.
Proof. intros Hg y c Hc. rewrite (proj1 Hg). apply (successors_dep _ _ _ Hg) in Hc. by apply dep_ids in Hc as [? _]. Qed.

Lemma update_node_eq nid f g :
  same_graph g → nid ∈ ids →
  ∃ n g', dict_get (g_nodes g) nid = Some n ∧ update_node nid f g = (Ok tt, g') ∧ same_graph g' ∧
    ∀ c, dict_get (g_nodes g') c = if decide (nid = c) then Some (f n) else dict_get (g_nodes g) c.
Proof.
  intros Hg Hin. pose proof Hg as (Hk & He & Hr). rewrite <-Hk in Hin. pose proof Hin as [n Hn]%dict_get_is_Some.
  exists n. unfold update_node. rewrite Hn. eexists. split; [done|]. split; [done|]. split.
  - split; [|done]. cbn. by rewrite dict_put_present.
  - intros c. apply dict_get_put.
Qed.

(** The status of every node after an update that sets one status. *)
Lemma update_status nid f s g g' :
  same_graph g → (∀ n, n_status (f n) = s) → (∀ n, node_id (f n) = node_id n) →
  update_node nid f g = (Ok tt, g') →
  same_graph g' ∧ (∀ c, status_of g' c = if decide (nid = c) then Some s else status_of g c) ∧
  ((∀ c n, dict_get (g_nodes g) c = Some n → node_id n = c) →
   ∀ c n, dict_get (g_nodes g') c = Some n → node_id n = c).
Proof.
  intros Hg Hs Hid Hu. assert (Hin : nid ∈ ids).
  { rewrite <-(proj1 Hg). apply dict_get_is_Some. unfold update_node in Hu. destruct (dict_get _ nid); [eauto|done]. }
  destruct (update_node_eq nid f g Hg Hin) as (n & g1 & Hn & Hu' & Hg1 & Hget). rewrite Hu in Hu'.
  injection Hu' as <-. split; [done|]. split.
  - intros c. unfold status_of. rewrite Hget. case_decide; [|done]. cbn. by rewrite Hs.
  - intros Hk c m. rewrite Hget. case_decide as Hc; [|apply Hk]. intros [= <-]. rewrite Hid. subst. by apply Hk.
Qed.

Definition deps_completed (g : DAG) (c : string) : Prop := ∀ x, dep c x → status_of g x = Some N_COMPLETED.

Lemma all_completed_eq g deps :
  deps ⊆ (g_nodes g).*1 →
  ∃ b, all_completed (g_nodes g) deps = Ok b ∧
    (b = true ↔ ∀ x, x ∈ deps → status_of g x = Some N_COMPLETED).
Proof.
  induction deps as [|d deps IH]; intros Hin; [exists true; split; [done|]; split; [set_solver|done]|].
  assert (Hd : d ∈ (g_nodes g).*1) by (apply Hin; left). apply dict_get_is_Some in Hd as [n Hn].
  destruct IH as (b & Hb & Hiff); [intros x Hx; apply Hin; by right|]. cbn [all_completed]. rewrite Hn.
  assert (Hs : status_of g d = Some (n_status n)) by (unfold status_of; by rewrite Hn).
  destruct (decide (n_status n = N_COMPLETED)) as [Hc|Hc].
  - exists b. split; [done|]. rewrite Hiff. split; [|intros H x Hx; apply H; by right].
    intros H x [->|Hx]%elem_of_cons; [by rewrite Hs, Hc|by apply H].
  - exists false. split; [done|]. split; [done|]. intros H. specialize (H d ltac:(left)). congruence.
Qed.

Lemma ready_among_eq g ns :
  same_graph g →
  ∃ l, ready_among g ns = Ok l ∧
    ∀ n, n ∈ l ↔ ∃ c, (c, n) ∈ ns ∧ n_status n = N_PENDING ∧ deps_completed g c.
Proof.
  intros Hg. induction ns as [|[c m] ns (l & Hl & Hiff)].
  { exists []. split; [done|]. intros n. split; [set_solver|]. intros (c & H & _). set_solver. }
  cbn [ready_among]. destruct (all_completed_eq g (predecessors g c)) as (b & Hb & Hb').
  { intros x Hx. rewrite (proj1 Hg). apply (predecessors_dep g c x Hg) in Hx. by apply dep_ids in Hx as [_ ?]. }
  assert (Hd : b = true ↔ deps_completed g c).
  { rewrite Hb'. unfold deps_completed. by setoid_rewrite (predecessors_dep g c _ Hg). }
  assert (Hcons : ∀ n, (∃ k, (k, n) ∈ (c, m) :: ns ∧ n_status n = N_PENDING ∧ deps_completed g k) ↔
    (n = m ∧ n_status m = N_PENDING ∧ deps_completed g c) ∨ n ∈ l).
  { intros n. rewrite Hiff. setoid_rewrite elem_of_cons. split.
    - intros (k & [[= -> ->]|H] & Hp & Hk); [left|right]; eauto.
    - intros [(-> & Hp & Hk)|(k & H & Hp & Hk)]; eauto 10. }
  setoid_rewrite Hcons. destruct (decide (n_status m ≠ N_PENDING)) as [Hp|Hp].
  { exists l. split; [done|]. intros n. split; [auto|]. by intros [(_ & ? & _)|?]. }
  rewrite Hb, Hl. eexists. split; [done|]. intros n. destruct b.
  - rewrite elem_of_cons. split; [|intros [(-> & _)|?]; auto].
    intros [->|?]; [|auto]. left. split; [done|]. split; [|by apply Hd]. by apply dec_stable.
  - split; [auto|]. intros [(_ & _ & Hf%Hd)|?]; [discriminate Hf|done].
Qed.
Lemma get_ready_nodes_eq g :
  run_inv g →
  ∃ l, get_ready_nodes g = Ok l ∧
    ∀ n, n ∈ l ↔ dict_get (g_nodes g) (node_id n) = Some n ∧ n_status n = N_PENDING ∧ deps_completed g (node_id n).
Proof.
  intros Hi. pose proof (ri_graph g Hi) as Hg. destruct (ready_among_eq g (g_nodes g) Hg) as (l & Hl & Hiff).
  exists l. split; [done|]. intros n. rewrite Hiff.
  assert (Hnd : NoDup (g_nodes g).*1) by (by rewrite (proj1 Hg)). split.
  - intros (c & Hin & Hp & Hd). apply (dict_elem_get _ _ _ Hnd) in Hin. pose proof (ri_keyed g Hi _ _ Hin) as <-. done.
  - intros (Hget & Hp & Hd). exists (node_id n). by apply dict_get_elem in Hget.
Qed.

Lemma update_status_inv nid f s g g' :
  run_inv g → (∀ n, n_status (f n) = s) → (∀ n, node_id (f n) = node_id n) →
  update_node nid f g = (Ok tt, g') → s ∈ [N_RUNNING; N_COMPLETED] →
  status_of g nid ≠ Some N_COMPLETED → (∀ x, dep nid x → status_of g x = Some N_COMPLETED) →
  run_inv g'.
Proof.
  intros Hi Hs Hid Hu Hin Hnc Hdeps. pose proof (ri_graph g Hi) as Hg.
  destruct (update_status nid f s g g' Hg Hs Hid Hu) as (Hg' & Hst & Hk).
  assert (Hself : ¬ dep nid nid) by (intros H; apply Hdeps in H; done).
  assert (Hs' : s = N_RUNNING ∨ s = N_COMPLETED) by (clear -Hin; set_solver).
  split.
  - done.
  - apply Hk, (ri_keyed g Hi).
  - intros c. rewrite Hst. case_decide; [destruct Hs' as [-> | ->]; done|apply (ri_ready g Hi)].
  - intros c t x Ht Hin' Hd. rewrite Hst in Ht |- *. destruct (decide (nid = x)) as [->|Hx].
    + exfalso. destruct (decide (x = c)) as [->|]; [done|].
      by apply Hnc, (ri_started g Hi c t x).
    + destruct (decide (nid = c)) as [->|]; [by apply Hdeps|]. by apply (ri_started g Hi c t x).
  - intros c x t Hd Ht Hin'. rewrite Hst in Ht |- *. destruct (decide (nid = x)) as [->|Hx].
    { injection Ht as <-. clear -Hs' Hin'. destruct Hs' as [-> | ->]; set_solver. }
    destruct (decide (nid = c)) as [->|]; [|by apply (ri_blocked g Hi c x t)].
    rewrite (Hdeps x Hd) in Ht. injection Ht as <-. clear -Hin'. set_solver.
Qed.

Lemma cancellable_status g c :
  cancellable_at g c ↔ status_of g c = Some N_PENDING ∨ status_of g c = Some N_READY.
Proof.
  unfold cancellable_at, status_of, cancellable. split.
  - intros (n & -> & Hn%bool_decide_eq_true). cbn. destruct (n_status n); cbn in Hn; auto; exfalso; set_solver.
  - destruct (dict_get _ c) as [n|]; cbn; [|intros [?|?]; done]. intros H. exists n. split; [done|].
    destruct H as [[= ->]|[= ->]]; done.
Qed.
Lemma downstream_cancellable g x c : downstream g x c → cancellable_at g c.
Proof. by destruct 1. Qed.

(** The effect of a propagation on the statuses. *)
Lemma propagate_status nid g can g' :
  same_graph g → propagate_failure nid g = Some (Ok can, g') →
  same_graph g' ∧ (∀ c, c ∈ can ↔ downstream g nid c) ∧
  (∀ c, status_of g' c = if decide (c ∈ can) then Some N_CANCELLED else status_of g c) ∧
  ((∀ c n, dict_get (g_nodes g) c = Some n → node_id n = c) →
   ∀ c n, dict_get (g_nodes g') c = Some n → node_id n = c).
Proof.
  intros Hg Hp. destruct (propagate_failure_eq nid g (same_graph_known g Hg)) as (can' & ns & He & _ & Hd & Hk & Hn).
  rewrite Hp in He. injection He as -> ->. split.
  { destruct Hg as (Hk' & He & Hr). split; [|done]. cbn. by rewrite Hk. }
  split; [done|]. split.
  - intros c. unfold status_of. cbn [g_nodes with_nodes]. rewrite Hn. destruct (decide (c ∈ can')) as [Hc|]; [|done].
    apply Hd, downstream_cancellable in Hc as (n & -> & _). done.
  - intros Hkey c n. cbn [g_nodes with_nodes]. rewrite Hn. case_decide; [|apply Hkey].
    destruct (dict_get (g_nodes g) c) as [m|] eqn:E; [|done]. intros [= <-]. exact (Hkey c m E).
Qed.

Definition ended_status (e : ending) : DAGNodeStatus := match e with Failed _ => N_FAILED | Cancelled _ => N_CANCELLED end.
Lemma mark_ending_status nid e g g' :
  same_graph g → mark_ending nid e g = (Ok tt, g') →
  same_graph g' ∧ (∀ c, status_of g' c = if decide (nid = c) then Some (ended_status e) else status_of g c) ∧
  ((∀ c n, dict_get (g_nodes g) c = Some n → node_id n = c) →
   ∀ c n, dict_get (g_nodes g') c = Some n → node_id n = c).
Proof.
  intros Hg Hm. destruct e; cbn [mark_ending] in Hm; unfold mark_failed in Hm;
    refine (update_status nid _ _ g g' Hg _ _ Hm); done.
Qed.

(** A dependent of a running node, or of one that waits, has not started. *)
Lemma dependent_waits g c x :
  run_inv g → dep c x → status_of g x ≠ Some N_COMPLETED →
  status_of g c = Some N_PENDING ∨ status_of g c = Some N_CANCELLED.
Proof.
  intros Hi Hd Hx. pose proof (proj1 (dep_ids c x Hd)) as Hc.
  apply (status_is_Some g c (ri_graph g Hi)) in Hc as [s Hs]. rewrite Hs.
  destruct s; auto; exfalso; [by apply (ri_ready g Hi c)|..]; apply Hx; eapply (ri_started g Hi); try done; set_solver.
Qed.

Lemma step_end_inv nid e g g1 can g' :
  run_inv g → status_of g nid = Some N_RUNNING → mark_ending nid e g = (Ok tt, g1) →
  propagate_failure nid g1 = Some (Ok can, g') → run_inv g'.
Proof.
  intros Hi Hrun Hm Hp. pose proof (ri_graph g Hi) as Hg.
  destruct (mark_ending_status _ _ _ _ Hg Hm) as (Hg1 & Hs1 & Hk1).
  destruct (propagate_status _ _ _ _ Hg1 Hp) as (Hg' & Hcan & Hs' & Hk').
  assert (Hpend : ∀ c, c ∈ can → status_of g c = Some N_PENDING ∧ nid ≠ c).
  { intros c Hc. apply Hcan, downstream_cancellable, cancellable_status in Hc. rewrite Hs1 in Hc.
    destruct (decide (nid = c)); [destruct e; destruct Hc as [Hc|Hc]; discriminate Hc|].
    destruct Hc as [Hc|Hc]; [done|]. by apply (ri_ready g Hi) in Hc. }
  assert (Hnew : ∀ c x, dep c x → x = nid ∨ x ∈ can → status_of g' c = Some N_CANCELLED).
  { intros c x Hd Hx. assert (Hxs : status_of g x ≠ Some N_COMPLETED).
    { destruct Hx as [->|Hx]; [by rewrite Hrun|]. by rewrite (proj1 (Hpend x Hx)). }
    rewrite Hs'. destruct (decide (c ∈ can)) as [|Hnc]; [done|]. rewrite Hs1.
    destruct (dependent_waits g c x Hi Hd Hxs) as [Hw|Hw].
    - exfalso. apply Hnc, Hcan. assert (Hcc : cancellable_at g1 c).
      { apply cancellable_status. rewrite Hs1, decide_False; [auto|]. congruence. }
      apply (successors_dep g1 c x Hg1) in Hd. destruct Hx as [->|Hx]; [by apply downstream_one|].
      apply (downstream_more g1 nid x); [by apply Hcan|done..].
    - rewrite decide_False; [done|]. congruence. }
  assert (Hold : ∀ c s, status_of g' c = Some s → c ∉ can → nid ≠ c → status_of g c = Some s).
  { intros c s. rewrite Hs', Hs1. intros H Hc Hn. by rewrite decide_False, decide_False in H. }
  assert (Hkeep : ∀ x, status_of g x = Some N_COMPLETED → status_of g' x = Some N_COMPLETED).
  { intros x Hx. rewrite Hs', Hs1, !decide_False; [done|congruence|]. intros Hc%Hpend. destruct Hc. congruence. }
  split.
  - done.
  - apply Hk', Hk1, (ri_keyed g Hi).
  - intros c. rewrite Hs', Hs1. repeat case_decide; [done|by destruct e|apply (ri_ready g Hi)].
  - intros c s x Hs Hin Hd. apply Hkeep. destruct (decide (c ∈ can)) as [Hc|Hc].
    { rewrite Hs', decide_True in Hs by done. injection Hs as <-. clear -Hin. set_solver. }
    destruct (decide (nid = c)) as [<-|Hn].
    + apply (ri_started g Hi nid N_RUNNING x Hrun); [left|done].
    + apply (ri_started g Hi c s x); [by apply Hold|done..].
  - intros c x s Hd Hs Hin. destruct (decide (x ∈ can)) as [Hc|Hc]; [by eapply Hnew; eauto|].
    destruct (decide (nid = x)) as [<-|Hn]; [by eapply Hnew; eauto|].
    assert (Hcs : status_of g c = Some N_CANCELLED) by (apply (ri_blocked g Hi c x s); [done|by apply Hold|done]).
    rewrite Hs', Hs1. destruct (decide (c ∈ can)); [done|]. rewrite decide_False; [done|congruence].
Qed.

Lemma dag_step_inv g g' : run_inv g → dag_step g g' → run_inv g'.
Proof.
  intros Hi [l n h Hl Hn Hm|nid h Hr Hm|nid e g1 can h Hr Hm Hp].
  - destruct (get_ready_nodes_eq g Hi) as (l' & Hl' & Hiff). rewrite Hl in Hl'. injection Hl' as <-.
    apply Hiff in Hn as (Hget & Hpend & Hdeps).
    eapply (update_status_inv (node_id n) (set_status N_RUNNING) N_RUNNING); try done; [left|].
    unfold status_of. rewrite Hget. cbn. by rewrite Hpend.
  - eapply (update_status_inv nid (set_status N_COMPLETED) N_COMPLETED); try done; [right; left| |].
    + by rewrite Hr.
    + intros x Hx. eapply (ri_started g Hi); [exact Hr|left|done].
  - by eapply step_end_inv.
Qed.

(** An acyclic relation on a finite set has a minimal element of any
    inhabited decidable subset; here, of the nodes that wait. *)
Lemma first_waiting g c :
  run_inv g → (∀ x, ¬ tc dep x x) → status_of g c = Some N_PENDING →
  (∀ x, status_of g x ≠ Some N_RUNNING) →
  ∃ x, status_of g x = Some N_PENDING ∧ deps_completed g x.
Proof.
  intros Hi Ha Hc Hr.
  destruct (decide (Exists (λ x, status_of g x = Some N_PENDING ∧
    Forall (λ y, status_of g y = Some N_COMPLETED) (predecessors g x)) ids)) as [H|H].
  { apply Exists_exists in H as (x & _ & Hx & Hd). exists x. split; [done|]. intros y Hy.
    rewrite Forall_forall in Hd. apply Hd. by apply (predecessors_dep g x y (ri_graph g Hi)). }
  exfalso. destruct (chase dep ids (λ x, status_of g x = Some N_PENDING) [] c) as [y Hy].
  - intros x Hx. assert (Hxi : x ∈ ids) by (apply (status_is_Some g x (ri_graph g Hi)); eauto).
    destruct (decide (Forall (λ y, status_of g y = Some N_COMPLETED) (predecessors g x))) as [Hf|Hf].
    { exfalso. apply H, Exists_exists. eauto. }
    apply not_Forall_Exists in Hf; [|intros y; apply _]. apply Exists_exists in Hf as (y & Hy & Hn).
    apply (predecessors_dep g x y (ri_graph g Hi)) in Hy. exists y. split; [|done].
    pose proof (proj2 (dep_ids x y Hy)) as Hyi. apply (status_is_Some g y (ri_graph g Hi)) in Hyi as [s Hs].
    rewrite Hs. destruct s; try done; exfalso.
    + by apply (ri_ready g Hi y).
    + by apply (Hr y).
    + pose proof (ri_blocked g Hi x y _ Hy Hs ltac:(left)). congruence.
    + pose proof (ri_blocked g Hi x y _ Hy Hs ltac:(right; left)). congruence.
  - done.
  - intros y Hy. left. apply (status_is_Some g y (ri_graph g Hi)). eauto.
  - clear; set_solver.
  - by apply (Ha y).
Qed.
End runs.

(** ** Theorems *)

Lemma validate_cases nodes :
  validate_dag_structure nodes = Some (Ok tt) ↔
  NoDup (ids_of nodes) ∧ closed nodes ∧ ∀ x, ¬ tc (node_depends nodes) x x.
Proof.
  unfold validate_dag_structure. pose proof (no_duplicate_ids nodes) as Hd. pose proof (no_unknown_ids nodes) as Hu.
  destruct (duplicate_ids nodes) as [|i l]; [|split; [done|]; intros (H%Hd & _); done].
  destruct (unknown_ids nodes) as [|i l]; [|split; [done|]; intros (_ & H%Hu & _); done].
  assert (Hn : NoDup (ids_of nodes)) by (by apply Hd). assert (Hc : closed nodes) by (by apply Hu).
  destruct (sort_nodes_eq nodes Hn Hc) as [(order & -> & _ & _ & Ha)|[-> [x Hx]]]; [done|].
  split; [done|]. intros (_ & _ & H). by apply H in Hx.
Qed.

(** C39. The two while-queue loops of the graph end for every graph, cyclic and malformed
    ones included: topological_sort leaves its loop within as many rounds as there are
    nodes; propagate_failure leaves its loop within as many rounds as the node has
    successors and the graph has edges together (the successors of a node on a cycle can be
    met twice); and more rounds give the same results. *)
Theorem dag_loops_end g nid :
  (∃ r, topological_sort g = Some r) ∧
  (∀ fuel, (length (g_nodes g) ≤ fuel)%nat →
     kahn fuel g (in_degrees g) (roots (in_degrees g)) [] =
     kahn (length (g_nodes g)) g (in_degrees g) (roots (in_degrees g)) []) ∧
  (∃ r, propagate_failure nid g = Some r) ∧
  (∀ fuel, (length (successors g nid) + edge_count g (g_nodes g).*1 ≤ fuel)%nat →
     cancel_loop fuel (successors g nid) [] [] g = propagate_failure nid g).
Proof.
  destruct (kahn_ends _ g (in_degrees g) (roots (in_degrees g)) [] (in_degrees_measure g)) as [r Hr].
  destruct (cancel_loop_ends (length (successors g nid) + edge_count g (g_nodes g).*1)
    (successors g nid) [] [] g) as [r' Hr']; [pose proof (open_edges_bound g (g_nodes g)); lia|].
  split_and!.
  - unfold topological_sort. rewrite Hr by done. destruct r; eauto.
  - intros fuel Hf. by rewrite !Hr.
  - exists r'. by apply Hr'.
  - intros fuel Hf. unfold propagate_failure. by rewrite !Hr'.
Qed.

(** C38. validate_dag_structure accepts a node list exactly when the ids are distinct, every
    dependency is a node and the dependency relation has no cycle; otherwise it raises the
    ValueError of the first check that fails, listing exactly the repeated ids or exactly
    the unknown dependencies. *)
Theorem validate_dag_structure_correct nodes :
  (validate_dag_structure nodes = Some (Ok tt) ↔
   NoDup (ids_of nodes) ∧ closed nodes ∧ ∀ x, ¬ tc (node_depends nodes) x x) ∧
  (¬ NoDup (ids_of nodes) →
   validate_dag_structure nodes =
     Some (Err (Exn ValueError ("Duplicate DAG node ids: " +:+ String.concat ", " (duplicate_ids nodes))))) ∧
  (NoDup (ids_of nodes) → ¬ closed nodes →
   validate_dag_structure nodes =
     Some (Err (Exn ValueError ("Unknown DAG dependencies: " +:+ String.concat ", " (unknown_ids nodes))))) ∧
  (NoDup (ids_of nodes) → closed nodes → (∃ x, tc (node_depends nodes) x x) →
   validate_dag_structure nodes = Some (Err (Exn ValueError "Cycle detected in DAG"))) ∧
  (∀ i, i ∈ duplicate_ids nodes ↔ (1 < occ i (ids_of nodes))%nat) ∧
  (∀ i, i ∈ unknown_ids nodes ↔ (∃ x, node_depends nodes x i) ∧ i ∉ ids_of nodes).
Proof.
  split; [apply validate_cases|]. unfold validate_dag_structure.
  pose proof (no_duplicate_ids nodes) as Hd. pose proof (no_unknown_ids nodes) as Hu.
  split; [|split; [|split; [|split; [apply elem_of_duplicate_ids|apply elem_of_unknown_ids]]]].
  - intros H. destruct (duplicate_ids nodes); [|done]. by destruct H; apply Hd.
  - intros H1 H2. rewrite (proj2 Hd H1). destruct (unknown_ids nodes); [|done]. by destruct H2; apply Hu.
  - intros H1 H2 [x Hx]. rewrite (proj2 Hd H1), (proj2 Hu H2).
    destruct (sort_nodes_eq nodes H1 H2) as [(order & _ & _ & _ & Ha)|[-> _]]; [by apply Ha in Hx|done].
Qed.

(** On a validated list topological_sort returns the ids of the nodes, each once, every
    dependency before its dependents. *)
Theorem topological_order nodes :
  validate_dag_structure nodes = Some (Ok tt) →
  ∃ order, topological_sort (dag_of_nodes nodes) = Some (Ok order) ∧ order ≡ₚ ids_of nodes ∧
    ∀ l1 c l2, order = l1 ++ c :: l2 → ∀ x, node_depends nodes c x → x ∈ l1.
Proof.
  intros (H1 & H2 & Ha)%validate_cases.
  destruct (sort_nodes_eq nodes H1 H2) as [(order & Hs & Hp & Ht & _)|[_ [x Hx]]]; [eauto|by apply Ha in Hx].
Qed.

(** propagate_failure cancels exactly the pending and ready nodes reachable from the node
    along pending and ready nodes, each once, and changes nothing else. *)
Theorem propagate_failure_exact x g :
  successors_known g →
  ∃ can nodes, propagate_failure x g = Some (Ok can, with_nodes nodes g) ∧ NoDup can ∧
    (∀ c, c ∈ can ↔ downstream g x c) ∧ cancelled_nodes g can nodes.
Proof. apply propagate_failure_eq. Qed.

(** On a graph built from a list with distinct ids and known dependencies no operation
    raises KeyError for a node of the list: get_ready_nodes and propagate_failure return
    nodes of the list, the marks succeed on its ids and raise KeyError on any other, and the
    node set and the edges never change. *)
Theorem dag_operations_typed nodes g nid e :
  NoDup (ids_of nodes) → closed nodes → run_inv nodes g →
  (∃ l, get_ready_nodes g = Ok l ∧ (node_id <$> l) ⊆ ids_of nodes) ∧
  (∃ can g', propagate_failure nid g = Some (Ok can, g') ∧ can ⊆ ids_of nodes ∧ same_graph nodes g') ∧
  (∀ m, m ∈ [mark_running nid; mark_completed nid; mark_failed nid e] →
   if decide (nid ∈ ids_of nodes)
   then ∃ g', m g = (Ok tt, g') ∧ same_graph nodes g'
   else m g = (Err (Exn KeyError nid), g)).
Proof.
  intros H1 H2 Hi. pose proof (ri_graph _ g Hi) as Hg. split; [|split].
  - destruct (get_ready_nodes_eq nodes H1 H2 g Hi) as (l & Hl & Hiff). exists l. split; [done|].
    intros c (n & -> & Hn)%list_elem_of_fmap. apply Hiff in Hn as (Hn & _). rewrite <-(proj1 Hg).
    apply dict_get_is_Some. eauto.
  - destruct (propagate_failure_eq nid g (same_graph_known nodes H1 H2 g Hg)) as (can & ns & Hp & _ & Hd & _).
    exists can, (with_nodes ns g). split; [done|]. destruct (propagate_status nodes H1 H2 nid g can _ Hg Hp) as [Hg' _].
    split; [|done]. intros c (n & Hn & _)%Hd%downstream_cancellable. rewrite <-(proj1 Hg). apply dict_get_is_Some. eauto.
  - intros m Hm. assert (Hu : ∃ f, m = update_node nid f).
    { unfold mark_running, mark_completed, mark_failed in Hm. rewrite !elem_of_cons in Hm.
      destruct Hm as [->|[->|[->|Hm]]]; [eauto..|clear -Hm; set_solver]. }
    destruct Hu as [f ->]. destruct (decide (nid ∈ ids_of nodes)) as [Hin|Hin].
    + destruct (update_node_eq nodes nid f g Hg Hin) as (n & g' & _ & Hu & Hg' & _). eauto.
    + unfold update_node. rewrite <-(proj1 Hg) in Hin. apply dict_get_None in Hin. by rewrite Hin.
Qed.

Lemma blocked_downstream nodes g c x s :
  run_inv nodes g → tc (node_depends nodes) c x → status_of g x = Some s → s ∈ [N_FAILED; N_CANCELLED] →
  status_of g c = Some N_CANCELLED.
Proof.
  intros Hi Hcx Hs Hin. induction Hcx as [c x Hd|c y x Hd _ IH]; [by eapply (ri_blocked _ g Hi)|].
  eapply (ri_blocked _ g Hi); [exact Hd|by apply IH|right; left].
Qed.
Lemma dag_steps_inv nodes g g' :
  NoDup (ids_of nodes) → closed nodes → run_inv nodes g → rtc (dag_step) g g' → run_inv nodes g'.
Proof. intros H1 H2 Hi Hr. induction Hr; [done|]. eauto using dag_step_inv. Qed.

(** Over any run of the scheduler on a validated graph a node is running, completed or
    failed only if all its dependencies are completed, and every node below one that failed
    or was cancelled, at any distance, is cancelled. *)
Theorem dag_run_safe nodes g g' :
  validate_dag_structure nodes = Some (Ok tt) → run_inv nodes g → rtc dag_step g g' →
  (∀ c s x, status_of g' c = Some s → s ∈ [N_RUNNING; N_COMPLETED; N_FAILED] → node_depends nodes c x →
     status_of g' x = Some N_COMPLETED) ∧
  (∀ c x s, tc (node_depends nodes) c x → status_of g' x = Some s → s ∈ [N_FAILED; N_CANCELLED] →
     status_of g' c = Some N_CANCELLED) ∧
  run_inv nodes g'.
Proof.
  intros (H1 & H2 & _)%validate_cases Hi Hr. pose proof (dag_steps_inv nodes g g' H1 H2 Hi Hr) as Hi'.
  split; [apply (ri_started _ g' Hi')|]. split; [|done]. intros c x s. by apply blocked_downstream.
Qed.

(** A run never stalls: when a validated graph is not complete and nothing is running,
    get_ready_nodes returns a node and it can be started. *)
Theorem dag_run_progress nodes g :
  validate_dag_structure nodes = Some (Ok tt) → run_inv nodes g →
  is_complete g = false → (∀ c, status_of g c ≠ Some N_RUNNING) →
  ∃ l n g', get_ready_nodes g = Ok l ∧ n ∈ l ∧ mark_running (node_id n) g = (Ok tt, g').
Proof.
  intros (H1 & H2 & Ha)%validate_cases Hi Hc Hr. pose proof (ri_graph _ g Hi) as Hg.
  assert (Hp : ∃ c, status_of g c = Some N_PENDING).
  { unfold is_complete in Hc. apply not_true_iff_false in Hc. rewrite forallb_Forall in Hc.
    apply not_Forall_Exists in Hc; [|intros y; apply _]. apply Exists_exists in Hc as ([c n] & Hin & Hn).
    apply dict_elem_get in Hin; [|by rewrite (proj1 Hg)]. exists c. unfold status_of. rewrite Hin. cbn in *.
    assert (Hs : status_of g c = Some (n_status n)) by (unfold status_of; by rewrite Hin).
    destruct (n_status n); try done; [by apply (ri_ready _ g Hi) in Hs|by apply Hr in Hs]. }
  destruct Hp as [c Hp]. destruct (first_waiting nodes H1 H2 g c Hi Ha Hp Hr) as (x & Hx & Hd).
  unfold status_of in Hx. destruct (dict_get (g_nodes g) x) as [n|] eqn:En; [|done]. injection Hx as Hx.
  pose proof (ri_keyed _ g Hi _ _ En) as <-. destruct (get_ready_nodes_eq nodes H1 H2 g Hi) as (l & Hl & Hiff).
  destruct (update_node_eq nodes (node_id n) (set_status N_RUNNING) g Hg) as (m & g' & _ & Hu & _).
  { rewrite <-(proj1 Hg). apply dict_get_is_Some. eauto. }
  exists l, n, g'. split; [done|]. split; [by apply Hiff|done].
Qed.

(** ** A sample graph *)

(** A fresh graph satisfies the invariant of runs. *)
Lemma run_inv_init nodes :
  NoDup (ids_of nodes) → Forall (λ n, n_status n = N_PENDING) nodes → run_inv nodes (dag_of_nodes nodes).
Proof.
  intros Hn Hall. assert (Hst : ∀ c s, status_of (dag_of_nodes nodes) c = Some s → s = N_PENDING).
  { intros c s. rewrite dag_of_nodes_eq by done. unfold status_of. cbn [g_nodes make_dag].
    destruct (dict_get _ c) as [n|] eqn:E; [|done]. apply dict_get_elem in E.
    apply list_elem_of_fmap in E as (m & [= -> ->] & Hm). rewrite Forall_forall in Hall. cbn.
    intros [= <-]. by apply Hall. }
  split.
  - split; [by apply dag_of_nodes_keys|done].
  - intros c n. rewrite dag_of_nodes_eq by done. cbn [g_nodes make_dag]. intros E%dict_get_elem.
    by apply list_elem_of_fmap in E as (m & [= -> ->] & Hm).
  - by intros c Hc%Hst.
  - intros c s x Hs%Hst Hin. subst. clear -Hin. set_solver.
  - intros c x s _ Hs%Hst Hin. subst. clear -Hin. set_solver.
Qed.

Module DagSample.
Definition node (id : string) (deps : list string) : DAGNode :=
  mkNode id "x1" "task" deps N_PENDING None None [] None None None None None.
Definition nodes : list DAGNode :=
  [node "report" ["fetch"; "clean"]; node "clean" ["fetch"]; node "fetch" []; node "notify" ["report"]].
Definition g0 : DAG := dag_of_nodes nodes.

Lemma valid : validate_dag_structure nodes = Some (Ok tt).
Proof. vm_compute. reflexivity. Qed.
Example order : topological_sort g0 = Some (Ok ["fetch"; "clean"; "report"; "notify"]).
Proof. vm_compute. reflexivity. Qed.
Example cycle :
  validate_dag_structure [node "a" ["b"]; node "b" ["a"]] = Some (Err (Exn ValueError "Cycle detected in DAG")).
Proof. vm_compute. reflexivity. Qed.
Example unknown :
  validate_dag_structure [node "a" ["c"; "b"]] = Some (Err (Exn ValueError "Unknown DAG dependencies: b, c")).
Proof. vm_compute. reflexivity. Qed.
Lemma nodup : NoDup (ids_of nodes).
Proof. exact (proj1 (proj1 (validate_cases nodes) valid)). Qed.
Lemma closed_nodes : closed nodes.
Proof. exact (proj1 (proj2 (proj1 (validate_cases nodes) valid))). Qed.
Lemma fresh_inv : run_inv nodes g0.
Proof. apply run_inv_init; [exact nodup|]. repeat constructor. Qed.
Lemma idle c : status_of g0 c ≠ Some N_RUNNING.
Proof.
  unfold status_of. destruct (dict_get (g_nodes g0) c) as [n|] eqn:E; [|done]. apply dict_get_elem in E.
  repeat (apply elem_of_cons in E as [[= _ ->]|E]; [done|]). clear -E. set_solver.
Qed.
(** "fetch" starts and fails. *)
Definition g1 : DAG := (mark_running "fetch" g0).2.
Definition g2 : DAG := (mark_failed "fetch" (Some "boom") g1).2.
Definition g3 : DAG := match propagate_failure "fetch" g2 with Some (_, g) => g | None => g2 end.
Lemma failed_run : rtc dag_step g0 g3.
Proof.
  apply (rtc_l _ g0 g1); [|apply rtc_once].
  - apply (step_start g0 [node "fetch" []] (node "fetch" []) g1); [vm_compute; reflexivity|left|reflexivity].
  - apply (step_end g1 "fetch" (Failed (Some "boom")) g2 ["report"; "clean"; "notify"] g3);
      vm_compute; reflexivity.
Qed.
Lemma notify_below : tc (node_depends nodes) "notify" "fetch".
Proof.
  apply (tc_l _ _ "report"); [|apply tc_once].
  - exists (node "notify" ["report"]). split; [do 3 right; left|split; [done|left]].
  - exists (node "report" ["fetch"; "clean"]). split; [left|split; [done|left]].
Qed.
End DagSample.

Lemma topological_order_witness :
  ∃ order, topological_sort (dag_of_nodes DagSample.nodes) = Some (Ok order) ∧ order ≡ₚ ids_of DagSample.nodes.
Proof.
  destruct (topological_order DagSample.nodes DagSample.valid) as (order & Hs & Hp & _). exists order.
  split; [exact Hs|exact Hp].
Defined.

Lemma propagate_failure_exact_witness :
  ∃ can nodes, propagate_failure "clean" DagSample.g0 = Some (Ok can, with_nodes nodes DagSample.g0) ∧ NoDup can.
Proof.
  destruct (propagate_failure_exact "clean" DagSample.g0
    (same_graph_known _ DagSample.nodup DagSample.closed_nodes _ (ri_graph _ _ DagSample.fresh_inv)))
    as (can & nodes & Hp & Hn & _).
  exists can, nodes. split; [exact Hp|exact Hn].
Defined.

Lemma dag_operations_typed_witness :
  ∃ l, get_ready_nodes DagSample.g0 = Ok l ∧ (node_id <$> l) ⊆ ids_of DagSample.nodes.
Proof.
  exact (proj1 (dag_operations_typed DagSample.nodes DagSample.g0 "clean" None
    DagSample.nodup DagSample.closed_nodes DagSample.fresh_inv)).
Defined.

Lemma dag_run_safe_witness : status_of DagSample.g3 "notify" = Some N_CANCELLED.
Proof.
  assert (Hin : N_FAILED ∈ [N_FAILED; N_CANCELLED]) by left.
  exact (proj1 (proj2 (dag_run_safe DagSample.nodes DagSample.g0 DagSample.g3 DagSample.valid DagSample.fresh_inv
    DagSample.failed_run)) "notify" "fetch" N_FAILED DagSample.notify_below eq_refl Hin).
Defined.

Lemma dag_run_progress_witness :
  ∃ l n g', get_ready_nodes DagSample.g0 = Ok l ∧ n ∈ l ∧ mark_running (node_id n) DagSample.g0 = (Ok tt, g').
Proof.
  exact (dag_run_progress DagSample.nodes DagSample.g0 DagSample.valid DagSample.fresh_inv eq_refl DagSample.idle).
Defined.
