(* ===== verification/DagRepo.v ===== *)
(** * The DAG repository and partial retries

    Models src/src/tianshu/storage/dag_repo.py, the executions and nodes of
    task graphs and the transaction that claims a retry, and
    src/src/tianshu/executor/retry.py, the retrier on an execution in memory.

    A row of [dag_executions] is an execution without nodes, a row of
    [dag_nodes] a node: the columns as storage/mappers.py decodes them.  The
    nodes are listed in the order of the table.  Of the memorials the columns
    that the statements read are kept, and a memorial is returned as those.  The
    order in which Python iterates a set is a parameter of the retrier. *)

From stdpp Require Import relations.
From S2P Require Import Prelude.
From S2P Require Import Sql.
From S2P Require Import UnitOfWork.
From S2P Require Import Models.
From S2P Require Import Dag.

(** ** Tables *)

Record dag_memorial := mkDagMemorial {
  dm_edict_id : string;
  dm_parent_memorial_id : option string;
  dm_attempt : Z;
  dm_status : TaskStatus;
  dm_dag_node_id : option string;
  dm_created_at : Z;
}.
Record dag_db := mkDagDb {
  dag_executions : gmap string DAGExecution;
  dag_nodes : list DAGNode;
  dag_memorials : gmap string dag_memorial;
}.
Definition set_executions (t : gmap string DAGExecution) (d : dag_db) : dag_db := mkDagDb t (dag_nodes d) (dag_memorials d).
Definition set_dag_nodes (t : list DAGNode) (d : dag_db) : dag_db := mkDagDb (dag_executions d) t (dag_memorials d).

Definition without_nodes (x : DAGExecution) : DAGExecution :=
  mkExecution (x_id x) (x_edict_id x) (plan_json x) (x_status x) (root_memorial_id x) (max_concurrency x)
    (x_created_at x) (x_completed_at x) [].
Definition with_rows (x : DAGExecution) (nodes : list DAGNode) : DAGExecution :=
  mkExecution (x_id x) (x_edict_id x) (plan_json x) (x_status x) (root_memorial_id x) (max_concurrency x)
    (x_created_at x) (x_completed_at x) nodes.
Definition in_execution (dag_id : string) (n : DAGNode) : bool := bool_decide (dag_execution_id n = dag_id).
Definition is_row (dag_id node : string) (n : DAGNode) : bool :=
  in_execution dag_id n && bool_decide (node_id n = node).
Definition belongs_to (dag_id : string) (n : DAGNode) : DAGNode :=
  mkNode (node_id n) dag_id (description n) (depends_on n) (n_status n) (assigned_official n) (assigned_worker n)
    (tools_required n) (n_memorial_id n) (checkpoint_json n) (n_started_at n) (n_completed_at n) (n_error n).

(** [UPDATE dag_nodes SET f WHERE cond]; the value is [cursor.rowcount]. *)
Definition update_nodes (cond : DAGNode → bool) (f : DAGNode → DAGNode) : M dag_db Z := λ d,
  (Ok (Z.of_nat (length (filter (λ n, cond n = true) (dag_nodes d)))),
   set_dag_nodes ((λ n, if cond n then f n else n) <$> dag_nodes d) d).
Definition update_execution (dag_id : string) (cond : DAGExecution → bool) (f : DAGExecution → DAGExecution) :
    M dag_db Z := λ d,
  match dag_executions d !! dag_id with
  | Some x => if cond x then (Ok 1, set_executions (<[dag_id := f x]> (dag_executions d)) d) else (Ok 0, d)
  | None => (Ok 0, d)
  end.

(** ** Saving and loading *)

(** The primary key is the pair of identifiers. *)
Definition insert_node (n : DAGNode) : M dag_db unit := λ d,
  if existsb (is_row (dag_execution_id n) (node_id n)) (dag_nodes d)
  then (Err (Exn IntegrityError "UNIQUE constraint failed"), d)
  else (Ok tt, set_dag_nodes (dag_nodes d ++ [n]) d).
Fixpoint insert_nodes (dag_id : string) (nodes : list DAGNode) : M dag_db unit :=
  match nodes with
  | [] => ret tt
  | n :: rest => insert_node (belongs_to dag_id n) ;;; insert_nodes dag_id rest
  end.
Definition save_dag_execution (x : DAGExecution) : M dag_db unit :=
  atomically (
    let! d := get_state in
    guard (is_none (dag_executions d !! x_id x)) IntegrityError "UNIQUE constraint failed" ;;;
    put_state (set_executions (<[x_id x := without_nodes x]> (dag_executions d)) d) ;;;
    insert_nodes (x_id x) (x_nodes x)).

(** [dict.setdefault]: the first node of each identifier *)
Fixpoint first_of_each (seen : list string) (nodes : list DAGNode) : list DAGNode :=
  match nodes with
  | [] => []
  | n :: rest =>
      if bool_decide (node_id n ∈ seen) then first_of_each seen rest
      else n :: first_of_each (node_id n :: seen) rest
  end.
Definition save_failed_dag_execution (x : DAGExecution) : M dag_db unit :=
  guard (bool_decide (x_status x = "failed") && is_some (x_completed_at x)) ValueError
    "failed DAG persistence requires a completed failed execution" ;;;
  save_dag_execution (with_rows x (first_of_each [] (x_nodes x))).

Definition rows_of (dag_id : string) (d : dag_db) : list DAGNode := filter (λ n, in_execution dag_id n = true) (dag_nodes d).
Definition get_dag_nodes (dag_id : string) : M dag_db (list DAGNode) := λ d, (Ok (rows_of dag_id d), d).
Definition get_dag_execution (dag_id : string) : M dag_db (option DAGExecution) := λ d,
  (Ok ((λ x, with_rows x (rows_of dag_id d)) <$> dag_executions d !! dag_id), d).
(** [ORDER BY created_at DESC LIMIT 1] *)
Definition newest_execution (x x' : DAGExecution) : bool := x_created_at x' <=? x_created_at x.
Definition get_dag_by_edict (edict_id : string) : M dag_db (option DAGExecution) := λ d,
  let found := filter (λ x, x_edict_id x = edict_id) (map_to_list (dag_executions d)).*2 in
  (Ok ((λ x, with_rows x (rows_of (x_id x) d)) <$> head (order_by newest_execution found)), d).

(** ** Updates *)

Definition set_x_status (status : string) (completed_at : option Z) (x : DAGExecution) : DAGExecution :=
  mkExecution (x_id x) (x_edict_id x) (plan_json x) status (root_memorial_id x) (max_concurrency x)
    (x_created_at x) (match completed_at with Some _ => completed_at | None => x_completed_at x end) (x_nodes x).
Definition update_dag_execution_status (dag_id status : string) (completed_at : option Z) : M dag_db unit :=
  update_execution dag_id (λ _, true) (set_x_status status completed_at) ;;; ret tt.

(** The columns [update_dag_node_status] writes. *)
Definition status_columns (status : DAGNodeStatus) (error : option string) (now : Z) (n : DAGNode) : DAGNode :=
  let put started completed err :=
    mkNode (node_id n) (dag_execution_id n) (description n) (depends_on n) status (assigned_official n)
      (assigned_worker n) (tools_required n) (n_memorial_id n) (checkpoint_json n) started completed err in
  match status with
  | N_RUNNING => put (Some now) (n_completed_at n) (n_error n)
  | N_COMPLETED | N_FAILED | N_CANCELLED => put (n_started_at n) (Some now) error
  | N_PENDING | N_READY => put (n_started_at n) (n_completed_at n) error
  end.
Definition update_dag_node_status (dag_id node : string) (status : DAGNodeStatus) (error : option string) (now : Z) :
    M dag_db unit :=
  update_nodes (is_row dag_id node) (status_columns status error now) ;;; ret tt.

Definition set_memorial (m : string) (n : DAGNode) : DAGNode :=
  mkNode (node_id n) (dag_execution_id n) (description n) (depends_on n) (n_status n) (assigned_official n)
    (assigned_worker n) (tools_required n) (Some m) (checkpoint_json n) (n_started_at n) (n_completed_at n) (n_error n).
(** The condition of the [EXISTS]. *)
Definition child_memorial (d : dag_db) (dag_id node memorial_id : string) : bool :=
  match dag_executions d !! dag_id, dag_memorials d !! memorial_id with
  | Some x, Some m =>
      bool_decide (dm_edict_id m = x_edict_id x) && bool_decide (dm_dag_node_id m = Some node) &&
      match root_memorial_id x with None => true | Some root => bool_decide (dm_parent_memorial_id m = Some root) end
  | _, _ => false
  end.
Definition update_dag_node_memorial (dag_id node memorial_id : string) : M dag_db bool :=
  let! d := get_state in
  let! rowcount := update_nodes (λ n, is_row dag_id node n && child_memorial d dag_id node memorial_id)
    (set_memorial memorial_id) in
  ret (rowcount =? 1).

Definition set_checkpoint (c : option string) (n : DAGNode) : DAGNode :=
  mkNode (node_id n) (dag_execution_id n) (description n) (depends_on n) (n_status n) (assigned_official n)
    (assigned_worker n) (tools_required n) (n_memorial_id n) c (n_started_at n) (n_completed_at n) (n_error n).
Definition update_dag_node_checkpoint (dag_id node : string) (c : option string) : M dag_db unit :=
  update_nodes (is_row dag_id node) (set_checkpoint c) ;;; ret tt.

(** [INSERT OR REPLACE]: the row with the key is deleted first *)
Definition save_dag_node (n : DAGNode) : M dag_db unit := λ d,
  (Ok tt, set_dag_nodes
            (filter (λ m, is_row (dag_execution_id n) (node_id n) m = false) (dag_nodes d) ++ [n]) d).

(** ** Evidence of completed nodes *)

(** A row was created after another, by time and then by identifier. *)
Definition after (a b : Z * string) : bool :=
  (b.1 <? a.1) || ((a.1 =? b.1) && match text_compare a.2 b.2 with Gt => true | _ => false end).
Definition newest_memorial (a b : string * dag_memorial) : bool :=
  negb (after (dm_created_at b.2, b.1) (dm_created_at a.2, a.1)).
(** The condition both statements share. *)
Definition node_evidence (x : DAGExecution) (node : string) (m : dag_memorial) : bool :=
  bool_decide (dm_edict_id m = x_edict_id x) && bool_decide (dm_dag_node_id m = Some node) &&
  bool_decide (dm_status m = T_COMPLETED).
(** No later execution of the edict was created before the memorial. *)
Definition latest_before (d : dag_db) (dag_id : string) (x : DAGExecution) (m : string * dag_memorial) : bool :=
  forallb (λ later : string * DAGExecution,
    negb (bool_decide (x_edict_id later.2 = x_edict_id x) &&
          after (x_created_at later.2, later.1) (x_created_at x, dag_id) &&
          after (dm_created_at m.2, m.1) (x_created_at later.2, later.1)))
    (map_to_list (dag_executions d)).
Definition legacy_evidence (d : dag_db) (dag_id : string) (x : DAGExecution) (node : string)
    (m : string * dag_memorial) : bool :=
  node_evidence x node m.2 && after (dm_created_at m.2, m.1) (x_created_at x, dag_id) && latest_before d dag_id x m.

(** The memorial with its identifier. *)
Definition get_completed_dag_node_memorial (dag_id node : string) : M dag_db (option (string * dag_memorial)) := λ d,
  let completed := filter (λ n, is_row dag_id node n && bool_decide (n_status n = N_COMPLETED) = true) (dag_nodes d) in
  match dag_executions d !! dag_id with
  | None => (Ok None, d)
  | Some x =>
      let bound := omap (λ n, i ← n_memorial_id n; m ← dag_memorials d !! i;
                              if node_evidence x node m then Some (i, m) else None) completed in
      let legacy := completed ≫= λ n,
        if is_none (n_memorial_id n)
        then filter (λ m, legacy_evidence d dag_id x node m = true) (map_to_list (dag_memorials d)) else [] in
      (Ok (match bound with m :: _ => Some m | [] => head (order_by newest_memorial legacy) end), d)
  end.

(** ** [claim_dag_retry] *)

Definition retryable (n : DAGNode) : bool := bool_decide (n_status n ∈ [N_FAILED; N_CANCELLED]).

(** One pass of the [for] loop of the closure. *)
Definition reset_row (acc : gset string) (n : DAGNode) : gset string :=
  if bool_decide (node_id n ∈ acc) || negb (retryable n) then acc
  else if existsb (λ dep, bool_decide (dep ∈ acc)) (depends_on n) then {[node_id n]} ∪ acc else acc.
Definition reset_pass (rows : list DAGNode) (acc : gset string) : gset string := foldl reset_row acc rows.
(** [while changed]: a pass that adds nothing ends the loop *)
Fixpoint reset_closure (fuel : nat) (rows : list DAGNode) (acc : gset string) : gset string :=
  let acc' := reset_pass rows acc in
  match fuel with
  | O => acc'
  | S fuel' => if bool_decide (acc' = acc) then acc' else reset_closure fuel' rows acc'
  end.

Definition sorted_ids (s : gset string) : list string := order_by text_le (elements s).

Definition failed_ids (rows : list DAGNode) : gset string :=
  list_to_set (node_id <$> filter (λ n, n_status n = N_FAILED) rows).

(** The retry root: a submitted child of the ended root, its next attempt. *)
Definition retry_root (d : dag_db) (parent_id child_id edict_id : string) : bool :=
  match dag_memorials d !! child_id, dag_memorials d !! parent_id with
  | Some child, Some parent =>
      bool_decide (dm_edict_id child = edict_id) && bool_decide (dm_parent_memorial_id child = Some parent_id) &&
      (dm_attempt child =? dm_attempt parent + 1) && bool_decide (dm_status child = T_SUBMITTED) &&
      bool_decide (dm_edict_id parent = dm_edict_id child) && bool_decide (dm_status parent ∈ [T_FAILED; T_CANCELLED])
  | _, _ => false
  end.

Definition ended (x : DAGExecution) : bool := bool_decide (x_status x ∈ ["failed"; "cancelled"]).
Definition rooted (root : string) (x : DAGExecution) : bool := bool_decide (root_memorial_id x = Some root).
Definition claimed_by (root : string) (x : DAGExecution) : DAGExecution :=
  mkExecution (x_id x) (x_edict_id x) (plan_json x) "pending" (Some root) (max_concurrency x) (x_created_at x) None
    (x_nodes x).
Definition reset_node (n : DAGNode) : DAGNode :=
  mkNode (node_id n) (dag_execution_id n) (description n) (depends_on n) N_PENDING (assigned_official n)
    (assigned_worker n) (tools_required n) (n_memorial_id n) (checkpoint_json n) None None None.

Definition retry_targets (rows : list DAGNode) (from_node_ids : option (list string)) : M dag_db (gset string) :=
  match from_node_ids with
  | None => ret (failed_ids rows)
  | Some ids =>
      let unknown := (list_to_set ids : gset string) ∖ list_to_set (node_id <$> rows) in
      guard (bool_decide (unknown = ∅)) ValueError ("unknown DAG nodes: " +:+ String.concat ", " (sorted_ids unknown)) ;;;
      ret (list_to_set ids)
  end.
(** From the closure on; the claimed execution and its nodes change together. *)
Definition claim_reset (dag_id expected_root root : string) (x : DAGExecution) (rows : list DAGNode)
    (targets : gset string) : M dag_db (option (list string)) :=
  let reset_ids := reset_closure (length rows) rows targets in
  let! d := get_state in
  if negb (retry_root d expected_root root (x_edict_id x)) then ret None
  else
    let! claimed := update_execution dag_id (λ x, rooted expected_root x && ended x) (claimed_by root) in
    if negb (claimed =? 1) then ret None
    else
      let! rowcount := update_nodes (λ n, in_execution dag_id n && bool_decide (node_id n ∈ reset_ids)) reset_node in
      guard (rowcount =? Z.of_nat (length (sorted_ids reset_ids))) RuntimeError
        "DAG retry reset set changed during claim" ;;;
      ret (Some (sorted_ids reset_ids)).
Definition claim_dag_retry (dag_id expected_root root : string) (from_node_ids : option (list string)) :
    M dag_db (option (list string)) :=
  atomically (
    let! d := get_state in
    match dag_executions d !! dag_id with
    | None => ret None
    | Some x =>
        if negb (ended x && rooted expected_root x) then ret None
        else
          let rows := rows_of dag_id d in
          let! targets := retry_targets rows from_node_ids in
          if bool_decide (targets = ∅) then ret (Some [])
          else claim_reset dag_id expected_root root x rows targets
    end).

(** ** [PartialRetrier] (executor/retry.py) *)

(** [_collect_downstream]: the nested calls share the set; each of them adds a
    node first. *)
Fixpoint collect_downstream (fuel : nat) (nodes : dict DAGNode) (node : string) (result : gset string) : gset string :=
  match fuel with
  | O => result
  | S fuel' =>
      foldl (λ acc kv,
        if bool_decide (kv.1 ∈ acc) then acc
        else if bool_decide (node ∈ depends_on kv.2) && retryable kv.2
        then collect_downstream fuel' nodes kv.1 ({[kv.1]} ∪ acc) else acc) result nodes
  end.
Definition collect_all (nodes : dict DAGNode) (targets : list string) : gset string :=
  foldl (λ acc nid, collect_downstream (S (length nodes)) nodes nid ({[nid]} ∪ acc)) ∅ targets.

(** The objects of the graph are those of the execution: of two nodes with one
    identifier, the graph has the last. *)
Fixpoint reset_objects (ids : gset string) (nodes : list DAGNode) : list DAGNode :=
  match nodes with
  | [] => []
  | n :: rest =>
      (if bool_decide (node_id n ∈ ids) && negb (bool_decide (node_id n ∈ node_id <$> rest)) then reset_node n else n)
        :: reset_objects ids rest
  end.

Section retrier.
(** The order in which a set is iterated. *)
Context (iter : gset string → list string).

Fixpoint reset_stored (g : DAG) (dag_id : string) (ids : list string) (now : Z) : M dag_db unit :=
  match ids with
  | [] => ret tt
  | nid :: rest =>
      guard (is_some (dict_get (g_nodes g) nid)) KeyError nid ;;;
      update_dag_node_status dag_id nid N_PENDING None now ;;;
      reset_stored g dag_id rest now
  end.

(** The returned execution is the object [prepare_retry] changed in place. *)
Definition prepare_retry (x : DAGExecution) (from_node_ids : option (list string)) (now : Z) :
    M dag_db (list string * DAGExecution) :=
  let g := from_execution x in
  let targets :=
    match from_node_ids with
    | Some (i :: ids) => i :: ids
    | _ => node_id <$> filter (λ n, n_status n = N_FAILED) (x_nodes x)
    end in
  match targets with
  | [] => ret ([], x)
  | _ =>
      let reset_ids := collect_all (g_nodes g) targets in
      reset_stored g (x_id x) (iter reset_ids) now ;;;
      update_dag_execution_status (x_id x) "pending" None ;;;
      ret (iter reset_ids,
           mkExecution (x_id x) (x_edict_id x) (plan_json x) "pending" (root_memorial_id x) (max_concurrency x)
             (x_created_at x) None (reset_objects reset_ids (x_nodes x)))
  end.
End retrier.

(** ** The slice of a retry *)

(** The nodes a retry of [targets] resets: the targets, and every failed or
    cancelled node below one that is reset. *)
Inductive retry_slice (rows : list DAGNode) (targets : gset string) : string → Prop :=
  | slice_target i : i ∈ targets → retry_slice rows targets i
  | slice_below n dep :
      n ∈ rows → retryable n = true → dep ∈ depends_on n → retry_slice rows targets dep →
      retry_slice rows targets (node_id n).

(** A set that a pass does not extend. *)
Definition downward (rows : list DAGNode) (acc : gset string) : Prop :=
  ∀ n dep, n ∈ rows → retryable n = true → dep ∈ depends_on n → dep ∈ acc → node_id n ∈ acc.

Lemma slice_least rows targets acc i : targets ⊆ acc → downward rows acc → retry_slice rows targets i → i ∈ acc.
Proof. intros Ht Hd. induction 1; [by apply Ht|by eapply Hd]. Qed.

Lemma existsb_dep deps (acc : gset string) :
  existsb (λ dep, bool_decide (dep ∈ acc)) deps = true ↔ ∃ dep, dep ∈ deps ∧ dep ∈ acc.
Proof.
  rewrite existsb_exists. split; intros (x & Hx & H); exists x.
  - by apply bool_decide_eq_true in H; rewrite <-list_elem_of_In in Hx.
  - by rewrite bool_decide_eq_true, <-list_elem_of_In.
Qed.

Lemma reset_row_grows acc n : acc ⊆ reset_row acc n.
Proof. unfold reset_row. repeat case_match; set_solver. Qed.
Lemma reset_pass_grows rows acc : acc ⊆ reset_pass rows acc.
Proof.
  revert acc. induction rows as [|n rows IH]; intros acc; [done|]. cbn.
  etransitivity; [apply (reset_row_grows acc n)|apply IH].
Qed.

Lemma reset_row_sound rows targets acc n :
  n ∈ rows → (∀ i, i ∈ acc → retry_slice rows targets i) → ∀ i, i ∈ reset_row acc n → retry_slice rows targets i.
Proof.
  intros Hn Ha i. unfold reset_row. destruct (_ || _) eqn:E; [apply Ha|]. bools.
  destruct (existsb _ _) eqn:Ed; [|apply Ha]. apply existsb_dep in Ed as (dep & Hdep & Hin).
  rewrite elem_of_union, elem_of_singleton. intros [->|Hi]; [|by apply Ha]. eapply slice_below; eauto.
Qed.
Lemma reset_pass_sound rows targets acc :
  (∀ i, i ∈ acc → retry_slice rows targets i) → ∀ i, i ∈ reset_pass rows acc → retry_slice rows targets i.
Proof.
  unfold reset_pass. assert (Hin : rows ⊆ rows) by done. revert Hin acc. generalize rows at 1 4 as l.
  induction l as [|n l IH]; intros Hl acc Ha; [done|]. cbn. apply IH; [set_solver|].
  apply reset_row_sound; [set_solver|done].
Qed.
Lemma reset_closure_sound fuel rows targets acc :
  (∀ i, i ∈ acc → retry_slice rows targets i) → ∀ i, i ∈ reset_closure fuel rows acc → retry_slice rows targets i.
Proof.
  revert acc. induction fuel as [|fuel IH]; intros acc Ha i; cbn [reset_closure]; [by apply reset_pass_sound|].
  case_bool_decide; [by apply reset_pass_sound|]. apply IH. by apply reset_pass_sound.
Qed.

(** A pass that adds nothing has found a closed set. *)
Lemma pass_fixed_downward rows acc : reset_pass rows acc = acc → downward rows acc.
Proof.
  intros Hfix n dep Hn Hr Hdep Hin. apply list_elem_of_split in Hn as (l1 & l2 & ->).
  unfold reset_pass in Hfix. rewrite foldl_app in Hfix. cbn in Hfix.
  pose proof (reset_pass_grows l1 acc) as G1. set (a1 := foldl reset_row acc l1) in *. fold (reset_pass l1 acc) in a1.
  pose proof (reset_row_grows a1 n) as G2. pose proof (reset_pass_grows l2 (reset_row a1 n)) as G3.
  unfold reset_pass in G1, G3. fold a1 in G1. rewrite Hfix in G3. apply G3. unfold reset_row.
  destruct (bool_decide (node_id n ∈ a1)) eqn:E; cbn [orb]; [by bools|]. rewrite Hr. cbn [negb].
  rewrite (proj2 (existsb_dep _ _)); [set_solver|]. exists dep. split; [done|by apply G1].
Qed.

(** Every pass but the last adds a row. *)
Definition outside (rows : list DAGNode) (acc : gset string) : nat := length (filter (λ n, node_id n ∉ acc) rows).

Lemma outside_le rows acc acc' : acc ⊆ acc' → (outside rows acc' ≤ outside rows acc)%nat.
Proof.
  intros H. unfold outside. induction rows as [|n rows IH]; [done|]. rewrite !filter_cons.
  repeat case_decide; cbn; try lia. set_solver.
Qed.
Lemma reset_row_outside rows acc n :
  n ∈ rows → reset_row acc n = acc ∨ (outside rows (reset_row acc n) < outside rows acc)%nat.
Proof.
  intros Hn. unfold reset_row. destruct (_ || _) eqn:E; [by left|]. bools. destruct (existsb _ _); [|by left]. right.
  apply list_elem_of_split in Hn as (l1 & l2 & ->). unfold outside. rewrite !filter_app, !filter_cons, !length_app.
  rewrite decide_False by set_solver. rewrite decide_True by done. cbn.
  pose proof (outside_le l1 acc ({[node_id n]} ∪ acc) ltac:(set_solver)).
  pose proof (outside_le l2 acc ({[node_id n]} ∪ acc) ltac:(set_solver)). unfold outside in *. lia.
Qed.
Lemma reset_pass_outside rows acc :
  reset_pass rows acc = acc ∨ (outside rows (reset_pass rows acc) < outside rows acc)%nat.
Proof.
  unfold reset_pass. assert (Hin : rows ⊆ rows) by done. revert Hin acc. generalize rows at 1 3 5 as l.
  induction l as [|n l IH]; intros Hl acc; [by left|]. cbn.
  destruct (IH ltac:(set_solver) (reset_row acc n)) as [E|Hlt];
    destruct (reset_row_outside rows acc n ltac:(set_solver)) as [E'|Hlt'].
  - left. congruence.
  - right. rewrite E. lia.
  - right. rewrite E' in *. lia.
  - right. lia.
Qed.

Lemma outside_zero rows acc : outside rows acc = 0%nat → reset_pass rows acc = acc.
Proof.
  intros H0. destruct (reset_pass_outside rows acc) as [|Hlt]; [done|]. lia.
Qed.
Lemma reset_closure_fixed fuel rows acc :
  (outside rows acc ≤ fuel)%nat → reset_pass rows (reset_closure fuel rows acc) = reset_closure fuel rows acc.
Proof.
  revert acc. induction fuel as [|fuel IH]; intros acc Hf; cbn [reset_closure].
  - rewrite (outside_zero rows acc) by lia. apply outside_zero. lia.
  - case_bool_decide as E; [by rewrite !E|]. apply IH. destruct (reset_pass_outside rows acc) as [|Hlt]; [done|lia].
Qed.
Lemma reset_closure_grows fuel rows acc : acc ⊆ reset_closure fuel rows acc.
Proof.
  revert acc. induction fuel as [|fuel IH]; intros acc; cbn [reset_closure]; [apply reset_pass_grows|].
  case_bool_decide; [apply reset_pass_grows|]. etransitivity; [apply (reset_pass_grows rows)|apply IH].
Qed.

(** The loop ends with exactly the slice. *)
Lemma reset_closure_exact rows targets i :
  i ∈ reset_closure (length rows) rows targets ↔ retry_slice rows targets i.
Proof.
  split.
  - apply reset_closure_sound. intros j Hj. by apply slice_target.
  - apply slice_least; [apply reset_closure_grows|]. apply pass_fixed_downward, reset_closure_fixed.
    unfold outside. apply length_filter.
Qed.

(** ** The retrier finds the same slice *)

Section collect.
Context (nodes : dict DAGNode) (Hkeyed : ∀ kv, kv ∈ nodes → kv.1 = node_id kv.2).
Let rows := nodes.*2.

(** The nodes a retry adds because of [d]. *)
Definition covered (d : string) (acc : gset string) : Prop :=
  ∀ n, n ∈ rows → retryable n = true → d ∈ depends_on n → node_id n ∈ acc.

Record collected (targets : gset string) (start : list string) (acc acc' : gset string) : Prop := {
  co_grows : acc ⊆ acc';
  co_sound : (∀ i, i ∈ acc → retry_slice rows targets i) → (∀ i, i ∈ start → retry_slice rows targets i) →
    ∀ i, i ∈ acc' → retry_slice rows targets i;
  co_covered d : d ∈ start ∨ (d ∈ acc' ∧ d ∉ acc) → covered d acc';
}.

Lemma covered_mono d acc acc' : acc ⊆ acc' → covered d acc → covered d acc'.
Proof. intros H Hc n Hn Hr Hd. by apply H, Hc. Qed.

Lemma rows_in kv : kv ∈ nodes → kv.2 ∈ rows.
Proof. intros H. apply list_elem_of_fmap. eauto. Qed.

Lemma outside_add kv acc : kv ∈ nodes → kv.1 ∉ acc → (outside rows ({[kv.1]} ∪ acc) < outside rows acc)%nat.
Proof.
  intros Hin Hno. pose proof (rows_in kv Hin) as Hr. rewrite (Hkeyed kv Hin) in *.
  apply list_elem_of_split in Hr as (l1 & l2 & Hl). unfold outside. rewrite Hl, !filter_app, !filter_cons, !length_app.
  rewrite decide_False by set_solver. rewrite decide_True by done. cbn.
  pose proof (outside_le l1 acc ({[node_id kv.2]} ∪ acc) ltac:(set_solver)).
  pose proof (outside_le l2 acc ({[node_id kv.2]} ∪ acc) ltac:(set_solver)). unfold outside in *. lia.
Qed.

Definition collect_row (fuel : nat) (node : string) (acc : gset string) (kv : string * DAGNode) : gset string :=
  if bool_decide (kv.1 ∈ acc) then acc
  else if bool_decide (node ∈ depends_on kv.2) && retryable kv.2
  then collect_downstream fuel nodes kv.1 ({[kv.1]} ∪ acc) else acc.

Lemma collect_row_spec fuel node targets acc kv :
  (∀ nid acc, (outside rows acc < fuel)%nat → retry_slice rows targets nid →
     collected targets [nid] acc (collect_downstream fuel nodes nid acc)) →
  kv ∈ nodes → (outside rows acc ≤ fuel)%nat → retry_slice rows targets node →
  let acc' := collect_row fuel node acc kv in
  collected targets [] acc acc' ∧ (retryable kv.2 = true → node ∈ depends_on kv.2 → kv.1 ∈ acc').
Proof.
  intros IH Hin Hf Hnode acc'. unfold acc', collect_row.
  case_bool_decide as H1; [split; [split; [done|done|set_solver]|done]|].
  destruct (bool_decide (node ∈ depends_on kv.2) && retryable kv.2) eqn:H2.
  - bools. pose proof (outside_add kv acc Hin H1) as Hlt.
    assert (Hkv : retry_slice rows targets kv.1).
    { rewrite (Hkeyed kv Hin). eapply slice_below; eauto using rows_in. }
    destruct (IH kv.1 ({[kv.1]} ∪ acc) ltac:(lia) Hkv) as [G S C]. split; [split|].
    + set_solver.
    + intros Ha _ i Hi. apply S; [|set_solver|done]. intros j. rewrite elem_of_union, elem_of_singleton. intros [->|]; auto.
    + intros d [Hd|[Hd Hno]]; [set_solver|]. apply C. destruct (decide (d = kv.1)); [left; set_solver|right; set_solver].
    + intros _ _. set_solver.
  - split; [split; [done|done|set_solver]|]. intros Hr Hd. rewrite Hr, andb_true_r in H2. by bools.
Qed.

Lemma collect_rows_spec fuel node targets l acc :
  (∀ nid acc, (outside rows acc < fuel)%nat → retry_slice rows targets nid →
     collected targets [nid] acc (collect_downstream fuel nodes nid acc)) →
  l ⊆ nodes → (outside rows acc ≤ fuel)%nat → retry_slice rows targets node →
  let acc' := foldl (collect_row fuel node) acc l in
  collected targets [] acc acc' ∧ (∀ kv, kv ∈ l → retryable kv.2 = true → node ∈ depends_on kv.2 → kv.1 ∈ acc').
Proof.
  intros IH. revert acc. induction l as [|kv l IHl]; intros acc Hl Hf Hnode; cbn.
  - split; [split; [done|done|set_solver]|set_solver].
  - destruct (collect_row_spec fuel node targets acc kv IH) as [[G1 S1 C1] K1]; [set_solver|done|done|].
    set (a1 := collect_row fuel node acc kv) in *.
    destruct (IHl a1) as [[G2 S2 C2] K2]; [set_solver| |done|].
    { pose proof (outside_le rows acc a1 G1). lia. }
    split; [split|].
    + set_solver.
    + intros Ha Hs. apply S2; [|done]. by apply S1.
    + intros d [Hd|[Hd Hno]]; [set_solver|]. destruct (decide (d ∈ a1)) as [H1|H1].
      * eapply covered_mono; [exact G2|]. apply C1. by right.
      * apply C2. by right.
    + intros kv' [->|Hin]%elem_of_cons Hr Hd; [|by apply K2]. by apply G2, K1.
Qed.

Lemma collect_spec fuel targets nid acc :
  (outside rows acc < fuel)%nat → retry_slice rows targets nid →
  collected targets [nid] acc (collect_downstream fuel nodes nid acc).
Proof.
  revert nid acc. induction fuel as [|fuel IH]; intros nid acc Hf Hnid; [lia|]. cbn [collect_downstream].
  destruct (collect_rows_spec fuel nid targets nodes acc IH) as [[G S C] K]; [done|lia|done|].
  change (foldl _ acc nodes) with (foldl (collect_row fuel nid) acc nodes). split; [done| |].
  - intros Ha _. apply S; [done|set_solver].
  - intros d [Hd|Hd]; [|apply C; by right]. apply list_elem_of_singleton in Hd as ->.
    intros n Hn Hr Hdep. apply list_elem_of_fmap in Hn as (kv & -> & Hkv). rewrite <-(Hkeyed kv Hkv). by apply K.
Qed.

Lemma collect_all_from targets ids acc :
  (∀ i, i ∈ ids → i ∈ targets) → (∀ i, i ∈ acc → retry_slice rows targets i) → (∀ d, d ∈ acc → covered d acc) →
  let acc' := foldl (λ acc nid, collect_downstream (S (length nodes)) nodes nid ({[nid]} ∪ acc)) acc ids in
  acc ⊆ acc' ∧ (∀ i, i ∈ ids → i ∈ acc') ∧ (∀ i, i ∈ acc' → retry_slice rows targets i) ∧
  (∀ d, d ∈ acc' → covered d acc').
Proof.
  revert acc. induction ids as [|nid ids IH]; intros acc Ht Hs Hc; cbn [foldl]; [by split_and!; [|set_solver|..]|].
  assert (Hnid : retry_slice rows targets nid) by (apply slice_target, Ht; left).
  destruct (collect_spec (S (length nodes)) targets nid ({[nid]} ∪ acc)) as [G S C]; [|done|].
  { unfold outside, rows. pose proof (length_filter (λ n, node_id n ∉ {[nid]} ∪ acc) nodes.*2) as Hle.
    rewrite length_fmap in Hle. lia. }
  set (a1 := collect_downstream _ nodes nid _) in *.
  destruct (IH a1) as (G2 & T2 & S2 & C2).
  - intros i Hi. apply Ht. by right.
  - apply S; [|intros i Hi; by apply list_elem_of_singleton in Hi as ->]. intros i. rewrite elem_of_union, elem_of_singleton.
    intros [->|]; auto.
  - intros d Hd. destruct (decide (d ∈ {[nid]} ∪ acc)) as [Hin|Hno]; [|apply C; by right].
    apply elem_of_union in Hin as [Hn%elem_of_singleton|Hin]; [subst; apply C; left; left|].
    eapply covered_mono; [|by apply Hc]. set_solver.
  - split_and!; [set_solver| |done|done]. intros i [->|Hi]%elem_of_cons; [apply G2, G; set_solver|by apply T2].
Qed.

Lemma collect_all_exact targets i :
  i ∈ collect_all nodes targets ↔ retry_slice rows (list_to_set targets) i.
Proof.
  destruct (collect_all_from (list_to_set targets) targets ∅) as (_ & T & S & C); [set_solver..|].
  fold (collect_all nodes targets) in *. split; [apply S|]. apply slice_least.
  - intros j. rewrite elem_of_list_to_set. apply T.
  - intros n dep Hn Hr Hdep Hin. by apply (C dep Hin n).
Qed.
End collect.

(** ** Claiming a retry *)

Definition targets_of (rows : list DAGNode) (from_node_ids : option (list string)) : gset string :=
  match from_node_ids with None => failed_ids rows | Some ids => list_to_set ids end.
(** The primary key of [dag_nodes]. *)
Definition keys_ok (d : dag_db) : Prop := NoDup ((λ n, (dag_execution_id n, node_id n)) <$> dag_nodes d).
(** The tables after the slice [ids] of an execution was claimed for a retry. *)
Definition retried_db (dag_id root : string) (x : DAGExecution) (ids : list string) (d : dag_db) : dag_db :=
  mkDagDb (<[dag_id := claimed_by root x]> (dag_executions d))
    ((λ n, if in_execution dag_id n && bool_decide (node_id n ∈ ids) then reset_node n else n) <$> dag_nodes d)
    (dag_memorials d).

Lemma elem_of_sorted_ids s i : i ∈ sorted_ids s ↔ i ∈ s.
Proof. unfold sorted_ids. rewrite elem_of_order_by. apply elem_of_elements. Qed.
Lemma rows_nodup dag_id d : keys_ok d → NoDup (ids_of (rows_of dag_id d)).
Proof.
  unfold keys_ok, ids_of, rows_of. intros H. induction (dag_nodes d) as [|n l IH]; [constructor|].
  rewrite fmap_cons, NoDup_cons in H. destruct H as [Hn Hl]. rewrite filter_cons.
  case_decide as Hx; [|by apply IH]. rewrite fmap_cons. apply NoDup_cons. split; [|by apply IH].
  intros (m & Em & Hm)%list_elem_of_fmap. apply list_elem_of_filter in Hm as [Hmx Hm]. apply Hn.
  apply list_elem_of_fmap. exists m. split; [|done]. unfold in_execution in *. bools. congruence.
Qed.

Lemma slice_known rows targets i :
  targets ⊆ list_to_set (ids_of rows) → retry_slice rows targets i → i ∈ ids_of rows.
Proof.
  intros Ht H. destruct H as [i Hi|n dep Hn]; [by apply Ht, elem_of_list_to_set in Hi|].
  apply list_elem_of_fmap. eauto.
Qed.

Lemma failed_known rows : failed_ids rows ⊆ list_to_set (ids_of rows).
Proof.
  intros i. unfold failed_ids, ids_of. rewrite !elem_of_list_to_set. intros (n & -> & Hn)%list_elem_of_fmap.
  apply list_elem_of_filter in Hn as [_ Hn]. apply list_elem_of_fmap. eauto.
Qed.

Lemma nodup_fmap_filter {A B} (f : A → B) (P : A → Prop) `{!∀ a, Decision (P a)} l :
  NoDup (f <$> l) → NoDup (f <$> filter P l).
Proof.
  induction l as [|a l IH]; [done|]. rewrite fmap_cons, NoDup_cons, filter_cons. intros [Ha Hl].
  case_decide; [|by apply IH]. rewrite fmap_cons. apply NoDup_cons. split; [|by apply IH].
  intros (b & E & Hb)%list_elem_of_fmap. apply list_elem_of_filter in Hb as [_ Hb]. apply Ha.
  apply list_elem_of_fmap. eauto.
Qed.

(** The statement that resets the slice touches one row per identifier. *)
Lemma reset_count dag_id d (s : gset string) :
  keys_ok d → s ⊆ list_to_set (ids_of (rows_of dag_id d)) →
  length (filter (λ n, (in_execution dag_id n && bool_decide (node_id n ∈ s)) = true) (dag_nodes d)) = length (sorted_ids s).
Proof.
  intros Hk Hs. pose proof (rows_nodup dag_id d Hk) as Hn.
  replace (filter (λ n, (in_execution dag_id n && bool_decide (node_id n ∈ s)) = true) (dag_nodes d))
    with (filter (λ n, node_id n ∈ s) (rows_of dag_id d)).
  2: { unfold rows_of. rewrite list_filter_filter. apply list_filter_iff. intros n. rewrite andb_true_iff, bool_decide_eq_true.
       naive_solver. }
  unfold sorted_ids. rewrite (Permutation_length (order_by_perm text_le (elements s))).
  rewrite <-(length_fmap node_id). apply Permutation_length, NoDup_Permutation.
  - by apply nodup_fmap_filter.
  - apply NoDup_elements.
  - intros i. rewrite elem_of_elements, list_elem_of_fmap. split.
    + intros (n & -> & Hf). by apply list_elem_of_filter in Hf as [? _].
    + intros Hi. pose proof (Hs i Hi) as Hx. apply elem_of_list_to_set in Hx.
      unfold ids_of in Hx. apply list_elem_of_fmap in Hx as (n & -> & Hin). exists n. split; [done|].
      by apply list_elem_of_filter.
Qed.

Lemma retry_targets_cases rows from_node_ids d :
  (∃ ids i e, from_node_ids = Some ids ∧ i ∈ ids ∧ (i ∉ ids_of rows) ∧ exn_kind e = ValueError ∧
     retry_targets rows from_node_ids d = (Err e, d)) ∨
  (targets_of rows from_node_ids ⊆ list_to_set (ids_of rows) ∧
   retry_targets rows from_node_ids d = (Ok (targets_of rows from_node_ids), d)).
Proof.
  unfold retry_targets, targets_of. destruct from_node_ids as [ids|]; [|right; split; [apply failed_known|done]].
  unfold bind, guard. case_bool_decide as He; [right|left].
  - split; [|done]. intros i Hi. destruct (decide (i ∈ ids_of rows)) as [Hin|Hno]; [by apply elem_of_list_to_set|].
    assert (Hx : i ∈ (list_to_set ids : gset string) ∖ list_to_set (node_id <$> rows))
      by (apply elem_of_difference; split; [done|by rewrite elem_of_list_to_set]). rewrite He in Hx. set_solver.
  - apply set_choose_L in He as [i Hi]. apply elem_of_difference in Hi as [Hi Hno]. rewrite elem_of_list_to_set in Hi, Hno.
    eexists ids, i, _. split; [done|]. split; [done|]. split; [exact Hno|]. split; [|reflexivity]. done.
Qed.

Lemma claim_reset_eq dag_id expected root x targets d :
  keys_ok d → dag_executions d !! dag_id = Some x → ended x = true → rooted expected x = true →
  targets ⊆ list_to_set (ids_of (rows_of dag_id d)) →
  let ids := sorted_ids (reset_closure (length (rows_of dag_id d)) (rows_of dag_id d) targets) in
  claim_reset dag_id expected root x (rows_of dag_id d) targets d =
    if retry_root d expected root (x_edict_id x) then (Ok (Some ids), retried_db dag_id root x ids d) else (Ok None, d).
Proof.
  intros Hk Hx He Hr Ht ids. unfold claim_reset. rewrite bind_get_state.
  destruct (retry_root d expected root (x_edict_id x)); cbn [negb]; [|done].
  assert (Hu : update_execution dag_id (λ x, rooted expected x && ended x) (claimed_by root) d =
    (Ok 1, set_executions (<[dag_id := claimed_by root x]> (dag_executions d)) d)).
  { unfold update_execution. by rewrite Hx, Hr, He. }
  rewrite (bind_Ok _ _ _ _ _ Hu). change (negb (1 =? 1)) with false. cbv iota.
  unfold bind, update_nodes, guard. cbn [dag_nodes set_executions]. cbn beta.
  rewrite reset_count; [|done|].
  2: { intros i Hi. apply reset_closure_exact in Hi. apply elem_of_list_to_set. by eapply slice_known. }
  fold ids. rewrite Z.eqb_refl. cbn. unfold retried_db, set_dag_nodes, ret. cbn. do 2 f_equal.
  apply list_fmap_ext. intros _ n _. unfold ids. by rewrite (bool_decide_ext _ _ (elem_of_sorted_ids _ (node_id n))).
Qed.

(** The outcomes of a claim. *)
Lemma claim_outcome d dag_id expected root from_node_ids :
  keys_ok d →
  let rows := rows_of dag_id d in
  let '(out, d') := claim_dag_retry dag_id expected root from_node_ids d in
  match out with
  | Ok (Some (i :: ids)) =>
      targets_of rows from_node_ids ⊆ list_to_set (ids_of rows) ∧ NoDup (i :: ids) ∧
      ∃ x, dag_executions d !! dag_id = Some x ∧ ended x = true ∧ rooted expected x = true ∧
        retry_root d expected root (x_edict_id x) = true ∧
        (∀ j, j ∈ i :: ids ↔ retry_slice rows (targets_of rows from_node_ids) j) ∧
        i :: ids = sorted_ids (list_to_set (i :: ids)) ∧ d' = retried_db dag_id root x (i :: ids) d
  | Ok _ => d' = d
  | Err e => d' = d ∧ exn_kind e = ValueError ∧ ∃ ids j, from_node_ids = Some ids ∧ j ∈ ids ∧ j ∉ ids_of rows
  end.
Proof.
  intros Hk rows. unfold claim_dag_retry, atomically. rewrite bind_get_state.
  destruct (dag_executions d !! dag_id) as [x|] eqn:Hx; [|done].
  destruct (ended x) eqn:He, (rooted expected x) eqn:Hr; cbn [andb negb]; try done. fold rows.
  destruct (retry_targets_cases rows from_node_ids d) as [(ids & i & e & Hf & Hi & Hno & Hv & Hcl)|[Hsub Hcl]].
  { unfold bind. rewrite Hcl. split; [done|]. split; [done|]. by exists ids, i. }
  rewrite (bind_Ok _ _ _ _ _ Hcl). case_bool_decide as Hemp; [done|].
  pose proof (claim_reset_eq dag_id expected root x _ d Hk Hx He Hr Hsub) as Hcr. cbv zeta in Hcr. fold rows in Hcr.
  rewrite Hcr. clear Hcr.
  destruct (retry_root d expected root (x_edict_id x)) eqn:Hroot; [|done].
  set (s := reset_closure (length rows) rows (targets_of rows from_node_ids)).
  assert (Hs : ∀ j, j ∈ sorted_ids s ↔ retry_slice rows (targets_of rows from_node_ids) j).
  { intros j. rewrite elem_of_sorted_ids. apply reset_closure_exact. }
  destruct (sorted_ids s) as [|i ids] eqn:Eids.
  { exfalso. apply set_choose_L in Hemp as [j Hj]. apply (slice_target rows) in Hj. apply Hs in Hj. set_solver. }
  split; [done|]. split.
  { rewrite <-Eids. unfold sorted_ids. rewrite order_by_perm. apply NoDup_elements. }
  exists x. do 4 (split; [done|]). split; [exact Hs|]. split; [|done].
  replace (list_to_set (i :: ids)) with s; [done|]. apply leibniz_equiv. intros j.
    by rewrite elem_of_list_to_set, <-Eids, elem_of_sorted_ids.
Qed.

(** C28. A retry claims exactly its slice, once. claim_dag_retry returns the sorted
    identifiers of the targets and of every failed or cancelled node below a node of the
    result, and has then set exactly those nodes of the execution back to pending without
    error and times and handed the execution to the new root, which is the submitted next
    attempt of the ended root it expected; a second claim of that execution returns None and
    changes nothing. Every other outcome leaves the tables as they were; the call raises
    only for a target that is no node of the execution. *)
Theorem claim_dag_retry_exact d dag_id expected root from_node_ids :
  keys_ok d →
  let rows := rows_of dag_id d in
  let '(out, d') := claim_dag_retry dag_id expected root from_node_ids d in
  match out with
  | Ok (Some (i :: ids)) =>
      ∃ x, dag_executions d !! dag_id = Some x ∧ ended x = true ∧ rooted expected x = true ∧
        retry_root d expected root (x_edict_id x) = true ∧
        (∀ j, j ∈ i :: ids ↔ retry_slice rows (targets_of rows from_node_ids) j) ∧
        i :: ids = sorted_ids (list_to_set (i :: ids)) ∧ d' = retried_db dag_id root x (i :: ids) d ∧
        ∀ expected' root' from', claim_dag_retry dag_id expected' root' from' d' = (Ok None, d')
  | Ok _ => d' = d
  | Err e => d' = d ∧ exn_kind e = ValueError ∧ ∃ ids j, from_node_ids = Some ids ∧ j ∈ ids ∧ j ∉ ids_of rows
  end.
Proof.
  intros Hk rows. pose proof (claim_outcome d dag_id expected root from_node_ids Hk) as H. cbv zeta in H. fold rows in H.
  destruct (claim_dag_retry dag_id expected root from_node_ids d) as [[[[|i ids]|]|e] d']; try done.
  destruct H as (_ & _ & x & Hx & He & Hr & Hroot & Hs & Hso & ->). exists x. split_and!; try done.
  intros expected' root' from'. unfold claim_dag_retry, atomically. rewrite bind_get_state.
  cbn [retried_db dag_executions]. by rewrite lookup_insert_eq.
Qed.

(** The rows of the claimed execution. *)
Lemma retried_rows dag_id root x ids d :
  rows_of dag_id (retried_db dag_id root x ids d) =
    (λ n, if bool_decide (node_id n ∈ ids) then reset_node n else n) <$> rows_of dag_id d.
Proof.
  unfold rows_of, retried_db. cbn [dag_nodes]. induction (dag_nodes d) as [|n l IH]; [done|].
  rewrite fmap_cons, !filter_cons. destruct (in_execution dag_id n) eqn:E; cbn [andb].
  - rewrite (decide_True (P := true = true)) by done. rewrite decide_True.
    + rewrite fmap_cons. by f_equal.
    + by case_bool_decide.
  - rewrite (decide_False (P := false = true)) by done. rewrite decide_False by (by rewrite E). exact IH.
Qed.

Lemma reset_objects_nodup ids nodes :
  NoDup (ids_of nodes) →
  reset_objects ids nodes = (λ n, if bool_decide (node_id n ∈ ids) then reset_node n else n) <$> nodes.
Proof.
  induction nodes as [|n l IH]; [done|]. unfold ids_of. rewrite fmap_cons, NoDup_cons. intros [Hn Hl].
  cbn [reset_objects]. rewrite (bool_decide_eq_false_2 _ Hn), andb_true_r, fmap_cons. f_equal. by apply IH.
Qed.

(** ** The two retriers *)

Lemma graph_rows nodes : NoDup (ids_of nodes) → (g_nodes (dag_of_nodes nodes)).*2 = nodes.
Proof.
  intros Hn. rewrite dag_of_nodes_eq by done. cbn [g_nodes make_dag]. rewrite <-list_fmap_compose. by apply list_fmap_id.
Qed.
Lemma graph_keyed nodes kv : NoDup (ids_of nodes) → kv ∈ g_nodes (dag_of_nodes nodes) → kv.1 = node_id kv.2.
Proof. intros Hn. rewrite dag_of_nodes_eq by done. intros (n & -> & _)%list_elem_of_fmap. done. Qed.

(** The stored rows after the loop of [prepare_retry]. *)
Lemma reset_stored_eq g dag_id ids now d :
  (∀ i, i ∈ ids → is_Some (dict_get (g_nodes g) i)) →
  reset_stored g dag_id ids now d =
    (Ok tt, set_dag_nodes ((λ n, if in_execution dag_id n && bool_decide (node_id n ∈ ids)
                                 then status_columns N_PENDING None now n else n) <$> dag_nodes d) d).
Proof.
  revert d. induction ids as [|i ids IH]; intros d Hk; cbn [reset_stored].
  - unfold ret. f_equal. replace (_ <$> dag_nodes d) with (dag_nodes d); [by destruct d|].
    rewrite <-(list_fmap_id (dag_nodes d)) at 1. apply list_fmap_ext. intros _ n _. by rewrite andb_false_r.
  - rewrite (proj2 (is_some_true _)) by (apply Hk; left).
    unfold bind at 1. cbn [guard ret]. unfold update_dag_node_status, bind, update_nodes. cbn [ret].
    rewrite IH by (intros j Hj; apply Hk; by right). unfold set_dag_nodes. cbn [dag_nodes dag_executions dag_memorials]. do 2 f_equal.
    rewrite <-list_fmap_compose. apply list_fmap_ext. intros _ n _. unfold compose, is_row.
    destruct (in_execution dag_id n) eqn:E; cbn [andb].
    + destruct (decide (node_id n = i)) as [Hi|Hi].
      * rewrite (bool_decide_eq_true_2 _ Hi), (bool_decide_eq_true_2 (node_id n ∈ i :: ids)) by (rewrite Hi; left).
        cbv iota. change (in_execution dag_id (status_columns N_PENDING None now n)) with (in_execution dag_id n). rewrite E.
        cbn [andb]. by case_bool_decide.
      * rewrite (bool_decide_eq_false_2 _ Hi), E. cbn [andb]. do 2 case_bool_decide; try done; set_solver.
    + by rewrite E.
Qed.

(** C29. The retrier in memory and the claim in the store agree. When claim_dag_retry claims
    a retry, prepare_retry on the execution loaded before it, with the same node
    identifiers, returns the same identifiers in some order, leaves the execution object
    with exactly the nodes the claim stores, and leaves the stored nodes with the same
    statuses and errors. *)
Theorem retriers_agree iter d dag_id expected root from_node_ids x i ids d1 now :
  keys_ok d → (∀ s, iter s ≡ₚ elements s) → dag_executions d !! dag_id = Some x → x_id x = dag_id →
  from_node_ids ≠ Some [] →
  claim_dag_retry dag_id expected root from_node_ids d = (Ok (Some (i :: ids)), d1) →
  ∃ ids' x' d2,
    prepare_retry iter (with_rows x (rows_of dag_id d)) from_node_ids now d = (Ok (ids', x'), d2) ∧
    ids' ≡ₚ i :: ids ∧ x_nodes x' = rows_of dag_id d1 ∧
    (λ n, (node_id n, n_status n, n_error n)) <$> rows_of dag_id d2 =
      (λ n, (node_id n, n_status n, n_error n)) <$> rows_of dag_id d1.
Proof.
  intros Hk Hiter Hx Hid Hne H. pose proof (rows_nodup dag_id d Hk) as Hn. set (rows := rows_of dag_id d) in *.
  pose proof (claim_outcome d dag_id expected root from_node_ids Hk) as Hc. rewrite H in Hc. cbv zeta in Hc.
  fold rows in Hc. destruct Hc as (Hsub & Hnd & x0 & Hx0 & _ & _ & _ & Hs & _ & ->).
  rewrite Hx in Hx0. injection Hx0 as <-.
  unfold prepare_retry. cbn [x_nodes with_rows x_id from_execution].
  set (targets := match from_node_ids with Some (i :: ids) => i :: ids | _ => node_id <$> filter _ rows end).
  assert (Ht : list_to_set targets = targets_of rows from_node_ids).
  { unfold targets, targets_of, failed_ids. by destruct from_node_ids as [[|? ?]|]. }
  destruct targets as [|t ts] eqn:Et.
  { exfalso. rewrite <-Ht in Hs. assert (Hi : i ∈ i :: ids) by left. apply Hs in Hi.
    assert (∅ ⊆ (∅ : gset string)) as He by done. eapply (slice_least rows ∅ ∅ i He) in Hi; [set_solver|].
    intros n dep _ _ _ Hin. set_solver. }
  set (s := collect_all (g_nodes (dag_of_nodes rows)) (t :: ts)).
  assert (Hall : ∀ j, j ∈ s ↔ j ∈ i :: ids).
  { intros j. unfold s. rewrite (collect_all_exact (g_nodes (dag_of_nodes rows))) by (intros kv; by apply graph_keyed).
    by rewrite graph_rows, Ht, Hs. }
  assert (Hknown : ∀ j, j ∈ iter s → is_Some (dict_get (g_nodes (dag_of_nodes rows)) j)).
  { intros j Hj. rewrite Hiter, elem_of_elements in Hj. apply Hall, Hs, slice_known in Hj; [|done].
    apply dict_get_is_Some. by rewrite dag_of_nodes_keys. }
  rewrite Hid. unfold bind. rewrite (reset_stored_eq _ _ _ _ _ Hknown).
  unfold update_dag_execution_status, bind, update_execution. cbn [dag_executions set_dag_nodes]. rewrite Hx. cbn [ret].
  eexists _, _, _. split; [reflexivity|]. split; [|split].
  - apply NoDup_Permutation; [rewrite Hiter; apply NoDup_elements|done|]. intros j.
    by rewrite Hiter, elem_of_elements.
  - cbn [x_nodes]. rewrite retried_rows, reset_objects_nodup by done. apply list_fmap_ext. intros _ n _.
    by rewrite (bool_decide_ext _ _ (Hall (node_id n))).
  - rewrite retried_rows. unfold rows_of at 1. cbn [dag_nodes set_executions set_dag_nodes].
    assert (Hit : ∀ j, j ∈ iter s ↔ j ∈ i :: ids) by (intros j; rewrite Hiter, elem_of_elements; apply Hall).
    unfold rows, rows_of. induction (dag_nodes d) as [|n l IH]; [done|].
    rewrite fmap_cons, !filter_cons. rewrite (bool_decide_ext _ _ (Hit (node_id n))).
    destruct (in_execution dag_id n) eqn:E; cbn [andb].
    + rewrite (decide_True (P := true = true)) by done. rewrite decide_True by (by case_bool_decide).
      rewrite !fmap_cons. f_equal; [by case_bool_decide|exact IH].
    + rewrite (decide_False (P := false = true)) by done. rewrite decide_False by (by rewrite E). exact IH.
Qed.

(** ** Evidence belongs to one execution *)

Lemma after_total a b : after a b = true ∨ after b a = true ∨ a = b.
Proof.
  destruct a as [t i], b as [t' i']. unfold after. cbn [fst snd]. destruct (Z.lt_trichotomy t t') as [H|[->|H]].
  - right. left. apply orb_true_iff. left. by apply Z.ltb_lt.
  - rewrite Z.ltb_irrefl, Z.eqb_refl. cbn. rewrite (text_compare_antisym i' i).
    destruct (text_compare i i') eqn:E; cbn; [|by right; left|by left]. apply text_compare_eq in E as ->. by right; right.
  - left. apply orb_true_iff. left. by apply Z.ltb_lt.
Qed.

(** What the two statements return. *)
Lemma evidence_cases d dag_id node i m d' :
  get_completed_dag_node_memorial dag_id node d = (Ok (Some (i, m)), d') →
  d' = d ∧ ∃ x n, dag_executions d !! dag_id = Some x ∧ n ∈ dag_nodes d ∧ is_row dag_id node n = true ∧
    n_status n = N_COMPLETED ∧ dag_memorials d !! i = Some m ∧ node_evidence x node m = true ∧
    (n_memorial_id n = Some i ∨ (n_memorial_id n = None ∧ legacy_evidence d dag_id x node (i, m) = true)).
Proof.
  unfold get_completed_dag_node_memorial. destruct (dag_executions d !! dag_id) as [x|] eqn:Hx; [|done].
  set (completed := filter _ (dag_nodes d)).
  assert (Hc : ∀ n, n ∈ completed → n ∈ dag_nodes d ∧ is_row dag_id node n = true ∧ n_status n = N_COMPLETED).
  { intros n [H Hn]%list_elem_of_filter. bools. done. }
  set (bound := omap _ completed). set (legacy := completed ≫= _).
  destruct bound as [|p bound'] eqn:Eb.
  - destruct (order_by newest_memorial legacy) as [|q l] eqn:El; [done|]. cbn. intros [= -> <-].
    assert (Hq : (i, m) ∈ legacy) by (rewrite <-(order_by_perm newest_memorial legacy), El; left).
    apply list_elem_of_bind in Hq as (n & Hq & Hn). destruct (n_memorial_id n) eqn:En; cbn in Hq; [by apply elem_of_nil in Hq|].
    apply list_elem_of_filter in Hq as [Hl Hm%elem_of_map_to_list]. apply Hc in Hn as (? & ? & ?).
    split; [done|]. exists x, n. split_and!; try done; [|by right].
    unfold legacy_evidence in Hl. by bools.
  - intros [= -> <-]. assert (Hp : (i, m) ∈ bound) by (rewrite Eb; left).
    apply list_elem_of_omap in Hp as (n & Hn & Hp). destruct (n_memorial_id n) as [i'|] eqn:En; [|done]. cbn in Hp.
    destruct (dag_memorials d !! i') as [m'|] eqn:Em; [|done]. cbn in Hp. destruct (node_evidence x node m') eqn:Ev; [|done].
    injection Hp as -> ->. apply Hc in Hn as (? & ? & ?). split; [done|]. exists x, n. split_and!; try done. by left.
Qed.

(** Two executions do not both reach a memorial by its creation time. *)
Lemma legacy_unique d a b x y node node' p :
  dag_executions d !! a = Some x → dag_executions d !! b = Some y → x_edict_id x = x_edict_id y →
  legacy_evidence d a x node p = true → legacy_evidence d b y node' p = true → a = b.
Proof.
  assert (Hone : ∀ a b x y node node', dag_executions d !! b = Some y → x_edict_id x = x_edict_id y →
    legacy_evidence d a x node p = true → legacy_evidence d b y node' p = true →
    after (x_created_at y, b) (x_created_at x, a) = true → False).
  { intros a' b' x' y' n' n'' Hy He Ha Hb Hlt. unfold legacy_evidence, latest_before in Ha, Hb.
    apply andb_true_iff in Ha as [_ Ha], Hb as [Hb _]. apply andb_true_iff in Hb as [_ Hb].
    rewrite forallb_Forall, Forall_forall in Ha. specialize (Ha (b', y')). cbn [fst snd] in Ha.
    rewrite Hlt, Hb, bool_decide_eq_true_2 in Ha by done. cbn in Ha. discriminate Ha. by apply elem_of_map_to_list. }
  intros Hx Hy He Ha Hb. destruct (after_total (x_created_at x, a) (x_created_at y, b)) as [H|[H|[= _ ->]]]; [| |done].
  - exfalso. by eapply (Hone b a y x).
  - exfalso. by eapply (Hone a b x y).
Qed.

(** A memorial is evidence of one execution. The memorial get_completed_dag_node_memorial
    returns is a completed memorial of the execution's edict and of that node, and the node
    is completed; when two executions get the same memorial without a node bound to it, by
    its creation time, they are the same execution. The call changes nothing. *)
Theorem node_evidence_once d a b node node' i m m' d1 d2 :
  get_completed_dag_node_memorial a node d = (Ok (Some (i, m)), d1) →
  get_completed_dag_node_memorial b node' d = (Ok (Some (i, m')), d2) →
  d1 = d ∧ d2 = d ∧ dag_memorials d !! i = Some m ∧ m' = m ∧ node = node' ∧ dm_status m = T_COMPLETED ∧
  dm_dag_node_id m = Some node ∧
  (∃ n x, n ∈ dag_nodes d ∧ is_row a node n = true ∧ n_status n = N_COMPLETED ∧
     dag_executions d !! a = Some x ∧ dm_edict_id m = x_edict_id x) ∧
  (a = b ∨ ∃ n, n ∈ dag_nodes d ∧ n_memorial_id n = Some i ∧ (is_row a node n || is_row b node n) = true).
Proof.
  intros (-> & x & n & Hx & Hn & Hr & Hs & Hm & He & Hc)%evidence_cases
         (-> & y & n' & Hy & Hn' & Hr' & Hs' & Hm' & He' & Hc')%evidence_cases.
  rewrite Hm in Hm'. injection Hm' as <-. pose proof He as H1. pose proof He' as H2. unfold node_evidence in H1, H2. bools.
  assert (node = node') as <- by congruence. split_and!; try done.
  - by exists n, x.
  - destruct Hc as [Hc|[_ Hc]]; [right; exists n; by rewrite Hr|].
    destruct Hc' as [Hc'|[_ Hc']]; [right; exists n'; by rewrite Hr', orb_true_r|].
    left. eapply (legacy_unique d a b x y node node (i, m)); try done. congruence.
Qed.

(** ** Running the retried graph *)

Lemma status_of_rows rows c s :
  NoDup (ids_of rows) →
  status_of (dag_of_nodes rows) c = Some s ↔ ∃ n, n ∈ rows ∧ node_id n = c ∧ n_status n = s.
Proof.
  intros Hn. unfold status_of. rewrite dag_of_nodes_eq by done. cbn [g_nodes make_dag]. split.
  - destruct (dict_get _ c) as [n|] eqn:E; [|done]. intros [= <-]. apply dict_get_elem in E.
    apply list_elem_of_fmap in E as (m & [= -> ->] & Hm). eauto.
  - intros (n & Hin & <- & <-). rewrite (dict_elem_get _ (node_id n) n); [done|by rewrite pairs_keys|].
    apply list_elem_of_fmap. eauto.
Qed.

Section reset.
Context (rows : list DAGNode) (ids : list string).
Let f n := if bool_decide (node_id n ∈ ids) then reset_node n else n.
Lemma reset_ids_of : ids_of (f <$> rows) = ids_of rows.
Proof. unfold ids_of. rewrite <-list_fmap_compose. apply list_fmap_ext. intros _ n _. unfold f. cbn. by case_bool_decide. Qed.
Lemma reset_depends x y : node_depends (f <$> rows) x y ↔ node_depends rows x y.
Proof.
  unfold node_depends. split.
  - intros (n & (m & -> & Hm)%list_elem_of_fmap & <- & Hy). exists m. unfold f in *. by case_bool_decide.
  - intros (n & Hn & <- & Hy). exists (f n). split; [apply list_elem_of_fmap; eauto|]. unfold f. by case_bool_decide.
Qed.
Lemma reset_valid : validate_dag_structure rows = Some (Ok tt) → validate_dag_structure (f <$> rows) = Some (Ok tt).
Proof.
  rewrite !validate_cases, reset_ids_of. intros (H1 & H2 & H3). split; [done|]. split.
  - intros x y Hd%reset_depends. rewrite reset_ids_of. by eapply H2.
  - intros x. rewrite (tc_congruence _ (node_depends rows) reset_depends). apply H3.
Qed.
End reset.

Lemma node_unique rows m n : NoDup (ids_of rows) → m ∈ rows → n ∈ rows → node_id m = node_id n → m = n.
Proof.
  intros Hn Hm Hin E. apply list_elem_of_lookup in Hm as [i Hi], Hin as [j Hj].
  assert (i = j) as <-; [|congruence]. apply (NoDup_lookup (ids_of rows) i j (node_id n)); [done| |].
  - unfold ids_of. by rewrite list_lookup_fmap, Hi, <-E.
  - unfold ids_of. by rewrite list_lookup_fmap, Hj.
Qed.

(** Below a failed node everything is cancelled, so the slice reaches it. *)
Lemma slice_reaches rows c x :
  run_inv rows (dag_of_nodes rows) → NoDup (ids_of rows) → tc (node_depends rows) c x →
  status_of (dag_of_nodes rows) x = Some N_FAILED → retry_slice rows (failed_ids rows) c.
Proof.
  intros Hi Hn Hcx Hx.
  assert (Hbase : retry_slice rows (failed_ids rows) x).
  { apply slice_target. apply status_of_rows in Hx as (n & Hin & <- & Hs); [|done]. unfold failed_ids.
    apply elem_of_list_to_set, list_elem_of_fmap. exists n. split; [done|]. by apply list_elem_of_filter. }
  assert (Hcan : ∀ c, tc (node_depends rows) c x → status_of (dag_of_nodes rows) c = Some N_CANCELLED).
  { intros c' Hc'. eapply blocked_downstream; [exact Hi|exact Hc'|exact Hx|left]. }
  assert (Hstep : ∀ c y, node_depends rows c y → tc (node_depends rows) c x → retry_slice rows (failed_ids rows) y →
    retry_slice rows (failed_ids rows) c).
  { intros c' y (n & Hin & <- & Hy) Ht Hsl. eapply slice_below; [exact Hin| |exact Hy|exact Hsl].
    apply Hcan, status_of_rows in Ht as (m & Hm & Em & Hs); [|done].
    assert (m = n) as -> by (by eapply node_unique).
    unfold retryable. rewrite Hs. done. }
  induction Hcx as [c x Hd|c y x Hd Hyx IH]; [by eapply Hstep; [exact Hd|by apply tc_once|]|].
  eapply Hstep; [exact Hd|by eapply tc_l|]. by apply IH.
Qed.

(** A graph in which nothing has failed and the dependencies of what is
    complete are complete can run. *)
Lemma run_inv_partial nodes :
  NoDup (ids_of nodes) → Forall (λ n, n_status n ∈ [N_PENDING; N_COMPLETED]) nodes →
  (∀ c x, node_depends nodes c x → status_of (dag_of_nodes nodes) c = Some N_COMPLETED →
     status_of (dag_of_nodes nodes) x = Some N_COMPLETED) →
  run_inv nodes (dag_of_nodes nodes).
Proof.
  intros Hn Hall Hd.
  assert (Hst : ∀ c s, status_of (dag_of_nodes nodes) c = Some s → s = N_PENDING ∨ s = N_COMPLETED).
  { intros c s (n & Hin & _ & <-)%status_of_rows; [|done]. rewrite Forall_forall in Hall. apply Hall in Hin. set_solver. }
  split.
  - split; [by apply dag_of_nodes_keys|done].
  - intros c n. rewrite dag_of_nodes_eq by done. cbn [g_nodes make_dag]. intros E%dict_get_elem.
    by apply list_elem_of_fmap in E as (m & [= -> ->] & Hm).
  - by intros c [|]%Hst.
  - intros c s x Hs Hin Hcx. apply (Hd c x Hcx). destruct (Hst c s Hs) as [->| ->]; [|done]. clear -Hin. set_solver.
  - intros c x s _ [->| ->]%Hst Hin; clear -Hin; set_solver.
Qed.

Section retried.
Context (rows : list DAGNode) (ids : list string).
Let g := dag_of_nodes rows.
Context (Hn : NoDup (ids_of rows)) (Hinv : run_inv rows g).
Context (Hids : ∀ j, j ∈ ids ↔ retry_slice rows (failed_ids rows) j).
Context (Hended : Forall (λ n, terminal (n_status n) = true) rows).
Context (Habove : ∀ c, status_of g c = Some N_CANCELLED →
  ∃ x, tc (node_depends rows) c x ∧ status_of g x = Some N_FAILED).
Let rows' := (λ n, if bool_decide (node_id n ∈ ids) then reset_node n else n) <$> rows.

(** The nodes reset are those that are not complete. *)
Lemma reset_incomplete n : n ∈ rows → node_id n ∈ ids ↔ n_status n ≠ N_COMPLETED.
Proof.
  intros Hin. rewrite Hids. split.
  - intros Hs Hc. inversion Hs as [i Ht Ei|m dep Hm Hr _ _ Em].
    + unfold failed_ids in Ht. apply elem_of_list_to_set, list_elem_of_fmap in Ht as (m & Em & [Hf Hm]%list_elem_of_filter).
      assert (n = m) as -> by (by eapply node_unique). congruence.
    + assert (m = n) as -> by (by eapply node_unique). unfold retryable in Hr. rewrite Hc in Hr. done.
  - intros Hc. rewrite Forall_forall in Hended. pose proof (Hended n Hin) as Ht.
    assert (Hs : status_of g (node_id n) = Some (n_status n)) by (apply status_of_rows; eauto).
    destruct (n_status n) eqn:E; try done.
    + apply slice_target. unfold failed_ids. apply elem_of_list_to_set, list_elem_of_fmap. exists n.
      split; [done|]. by apply list_elem_of_filter.
    + apply Habove in Hs as (x & Hx & Hf). by eapply slice_reaches.
Qed.
Lemma retried_status c s :
  status_of (dag_of_nodes rows') c = Some s ↔
    (s = N_COMPLETED ∧ status_of g c = Some N_COMPLETED) ∨
    (s = N_PENDING ∧ c ∈ ids_of rows ∧ status_of g c ≠ Some N_COMPLETED).
Proof.
  rewrite status_of_rows by (unfold rows'; by rewrite reset_ids_of). unfold g. rewrite status_of_rows by done. split.
  - intros (n' & (n & -> & Hin)%list_elem_of_fmap & Hc & Hs). pose proof (reset_incomplete n Hin) as Hr.
    case_bool_decide as Hd; cbn in Hc, Hs; subst c s.
    + right. split; [done|]. split; [apply list_elem_of_fmap; eauto|].
      intros (m & Hm & Em & Hs). assert (m = n) as -> by (by eapply node_unique). by apply Hr in Hd.
    + left. assert (n_status n = N_COMPLETED) as E by (apply dec_stable; intros ?; by apply Hd, Hr). eauto.
  - intros [[-> (n & Hin & <- & Hs)]|(-> & (n & -> & Hin)%list_elem_of_fmap & Hne)].
    + exists n. split; [|done]. apply list_elem_of_fmap. exists n. split; [|done].
      rewrite bool_decide_eq_false_2; [done|]. rewrite reset_incomplete by done. by intros [].
    + exists (reset_node n). split; [|done]. apply list_elem_of_fmap. exists n. split; [|done].
      rewrite bool_decide_eq_true_2; [done|]. apply reset_incomplete; [done|]. intros E. apply Hne. eauto.
Qed.
Lemma retried_run_inv : run_inv rows' (dag_of_nodes rows').
Proof.
  apply run_inv_partial; [unfold rows'; by rewrite reset_ids_of| |].
  - apply Forall_fmap, Forall_forall. intros n Hin. cbn. pose proof (reset_incomplete n Hin) as Hr.
    case_bool_decide as Hd; [left|]. assert (n_status n = N_COMPLETED) as -> by (apply dec_stable; intros ?; by apply Hd, Hr).
    right. left.
  - intros c x Hcx%reset_depends. rewrite !retried_status. intros [[_ Hc]|(? & _)]; [|done]. left. split; [done|].
    eapply (ri_started _ _ Hinv c _ x Hc); [set_solver|done].
Qed.
End retried.

(** C30. A retry of what failed runs again. After a run of a validated graph in which every
    node has ended and every cancelled node is below a failed one, a claim of the failed
    nodes leaves a validated graph that satisfies the invariant of runs: exactly the
    completed nodes are still complete, every other node is pending, and get_ready_nodes
    returns at least one node, so that the retried execution starts. *)
Theorem retry_restarts d dag_id expected root i ids d1 :
  keys_ok d →
  let rows := rows_of dag_id d in
  validate_dag_structure rows = Some (Ok tt) → run_inv rows (dag_of_nodes rows) →
  is_complete (dag_of_nodes rows) = true →
  (∀ c, status_of (dag_of_nodes rows) c = Some N_CANCELLED →
    ∃ x, tc (node_depends rows) c x ∧ status_of (dag_of_nodes rows) x = Some N_FAILED) →
  claim_dag_retry dag_id expected root None d = (Ok (Some (i :: ids)), d1) →
  let rows' := rows_of dag_id d1 in
  validate_dag_structure rows' = Some (Ok tt) ∧ run_inv rows' (dag_of_nodes rows') ∧
  (∀ c s, status_of (dag_of_nodes rows') c = Some s ↔
     (s = N_COMPLETED ∧ status_of (dag_of_nodes rows) c = Some N_COMPLETED) ∨
     (s = N_PENDING ∧ c ∈ ids_of rows ∧ status_of (dag_of_nodes rows) c ≠ Some N_COMPLETED)) ∧
  ∃ n l, get_ready_nodes (dag_of_nodes rows') = Ok (n :: l).
Proof.
  intros Hk rows Hv Hi Hc Ha H. pose proof (rows_nodup dag_id d Hk) as Hn.
  pose proof (claim_outcome d dag_id expected root None Hk) as Ho. rewrite H in Ho. cbv zeta in Ho. fold rows in Ho, Hn.
  destruct Ho as (Hsub & _ & x & _ & _ & _ & _ & Hs & _ & ->). cbv zeta. rewrite retried_rows. fold rows.
  assert (Hended : Forall (λ n, terminal (n_status n) = true) rows).
  { unfold is_complete in Hc. rewrite forallb_Forall in Hc. rewrite <-(graph_rows rows Hn) at 1. by rewrite Forall_fmap. }
  pose proof (reset_valid rows (i :: ids) Hv) as Hv'. split; [done|].
  pose proof (retried_run_inv rows (i :: ids) Hn Hi Hs Hended Ha) as Hi'. split; [done|].
  pose proof (retried_status rows (i :: ids) Hn Hi Hs Hended Ha) as Hst. split; [exact Hst|].
  set (rows' := _ <$> rows) in *. apply validate_cases in Hv' as (H1 & H2 & Hacyc).
  assert (Hp : status_of (dag_of_nodes rows') i = Some N_PENDING).
  { apply Hst. right. split; [done|]. assert (Hin : i ∈ i :: ids) by left. apply Hs in Hin as Hsl.
    assert (Hr : i ∈ ids_of rows) by (by eapply slice_known). split; [done|].
    intros (n & Hn' & <- & Hst')%status_of_rows; [|done].
    by apply (reset_incomplete rows (node_id n :: ids) Hn Hi Hs Hended Ha n Hn') in Hin. }
  destruct (first_waiting rows' H1 H2 _ i Hi' Hacyc Hp) as (y & Hy & Hd).
  { intros c. rewrite Hst. by intros [[? _]|[? _]]. }
  destruct (get_ready_nodes_eq rows' H1 H2 _ Hi') as (l & Hl & Hiff). unfold status_of in Hy.
  destruct (dict_get (g_nodes (dag_of_nodes rows')) y) as [n|] eqn:En; [|done]. injection Hy as Hy.
  pose proof (ri_keyed _ _ Hi' _ _ En) as <-. assert (Hin : n ∈ l) by (by apply Hiff).
  destruct l as [|m l]; [set_solver|]. eauto.
Qed.

(** ** A sample store *)

(** The invariant of runs as a check of the rows. *)
Definition rows_runnable (rows : list DAGNode) : bool :=
  forallb (λ n,
    let deps s := forallb (λ x, bool_decide (status_of (dag_of_nodes rows) x ∈ s)) (depends_on n) in
    match n_status n with
    | N_READY => false
    | N_RUNNING | N_COMPLETED | N_FAILED => deps [Some N_COMPLETED]
    | N_PENDING => deps [Some N_PENDING; Some N_RUNNING; Some N_COMPLETED]
    | N_CANCELLED => true
    end) rows.
Lemma rows_runnable_inv rows : NoDup (ids_of rows) → rows_runnable rows = true → run_inv rows (dag_of_nodes rows).
Proof.
  unfold rows_runnable. rewrite forallb_Forall, Forall_forall. intros Hn Hall.
  assert (Hdep : ∀ c x s, node_depends rows c x → status_of (dag_of_nodes rows) c = Some s →
    ∃ n, n ∈ rows ∧ n_status n = s ∧ x ∈ depends_on n).
  { intros c x s (n & Hin & <- & Hx) (m & Hm & Em & Hs)%status_of_rows; [|done].
    assert (m = n) as -> by (by eapply node_unique). eauto. }
  assert (Hst : ∀ x (s : list (option DAGNodeStatus)) l, x ∈ l → forallb (λ x, bool_decide (status_of (dag_of_nodes rows) x ∈ s)) l = true →
    status_of (dag_of_nodes rows) x ∈ s).
  { intros x s l Hx. rewrite forallb_Forall, Forall_forall. intros H. apply H in Hx. by bools. }
  split.
  - split; [by apply dag_of_nodes_keys|done].
  - intros c n. rewrite dag_of_nodes_eq by done. cbn [g_nodes make_dag]. intros E%dict_get_elem.
    by apply list_elem_of_fmap in E as (m & [= -> ->] & Hm).
  - intros c (n & Hin & _ & Hs)%status_of_rows; [|done]. apply Hall in Hin. by rewrite Hs in Hin.
  - intros c s x Hs Hin Hcx. destruct (Hdep c x s Hcx Hs) as (n & Hn' & En & Hx). apply Hall in Hn'. rewrite En in Hn'.
    assert (Hc : status_of (dag_of_nodes rows) x ∈ [Some N_COMPLETED]).
    { destruct s; try (clear -Hin; set_solver); by eapply Hst. }
    set_solver.
  - intros c x s (n & Hn' & <- & Hx) Hs Hin. apply status_of_rows; [done|]. exists n. split; [done|]. split; [done|].
    apply Hall in Hn'. destruct (n_status n); try done; exfalso;
      (apply (Hst x) in Hn'; [|done]); rewrite Hs in Hn'; clear -Hin Hn'; set_solver.
Qed.

Module DagRepoSample.
Definition node (id : string) (deps : list string) (s : DAGNodeStatus) (error : option string) : DAGNode :=
  mkNode id "x1" "task" deps s None None [] None None (Some 10) (Some 20) error.
Definition execution : DAGExecution := mkExecution "x1" "e1" "{}" "failed" (Some "m1") 4 1 (Some 21) [].
Definition memorials : gmap string dag_memorial :=
  {[ "m1" := mkDagMemorial "e1" None 1 T_FAILED None 1; "m2" := mkDagMemorial "e1" (Some "m1") 2 T_SUBMITTED None 30 ]}.
Definition store (nodes : list DAGNode) : dag_db := mkDagDb {[ "x1" := execution ]} nodes memorials.

(** "fetch" failed and "clean" and "report" below it were cancelled; "load"
    completed. *)
Definition rows : list DAGNode :=
  [node "report" ["clean"; "load"] N_CANCELLED None; node "clean" ["fetch"] N_CANCELLED None;
   node "fetch" ["load"] N_FAILED (Some "boom"); node "load" [] N_COMPLETED None].
Definition d0 : dag_db := store rows.
Definition d1 : dag_db := (claim_dag_retry "x1" "m1" "m2" None d0).2.

Lemma claimed : claim_dag_retry "x1" "m1" "m2" None d0 = (Ok (Some ["clean"; "fetch"; "report"]), d1).
Proof. vm_compute. reflexivity. Qed.
Lemma keys : keys_ok d0.
Proof. unfold keys_ok. apply (bool_decide_unpack _). vm_compute. exact I. Qed.
Lemma rows_eq : rows_of "x1" d0 = rows.
Proof. vm_compute. reflexivity. Qed.
Lemma rows_valid : validate_dag_structure rows = Some (Ok tt).
Proof. vm_compute. reflexivity. Qed.
Lemma sample_nodup : NoDup (ids_of rows).
Proof. apply (bool_decide_unpack _). vm_compute. exact I. Qed.
Lemma runnable : run_inv rows (dag_of_nodes rows).
Proof. apply rows_runnable_inv; [exact sample_nodup|]. vm_compute. reflexivity. Qed.
Lemma depends x y l s e : node x l s e ∈ rows → y ∈ l → node_depends rows x y.
Proof. intros H Hy. by exists (node x l s e). Qed.
Lemma cancelled_below c :
  status_of (dag_of_nodes rows) c = Some N_CANCELLED →
  ∃ x, tc (node_depends rows) c x ∧ status_of (dag_of_nodes rows) x = Some N_FAILED.
Proof.
  assert (Hc : node_depends rows "clean" "fetch") by (eapply depends; [right; left|left]).
  intros (n & Hin & <- & Hs)%status_of_rows; [|exact sample_nodup]. exists "fetch". split; [|vm_compute; reflexivity].
  repeat (apply elem_of_cons in Hin as [->|Hin]; [try done|]).
  - apply (tc_l _ _ "clean"); [|by apply tc_once]. eapply depends; [left|left].
  - by apply tc_once.
  - clear -Hin. set_solver.
Qed.
End DagRepoSample.

(** The claim of the sample, and a second one. *)
Lemma claim_dag_retry_exact_witness :
  keys_ok DagRepoSample.d0 ∧
  claim_dag_retry "x1" "m2" "m2" None DagRepoSample.d1 = (Ok None, DagRepoSample.d1).
Proof.
  split; [exact DagRepoSample.keys|].
  pose proof (claim_dag_retry_exact DagRepoSample.d0 "x1" "m1" "m2" None DagRepoSample.keys) as H.
  rewrite DagRepoSample.claimed in H. destruct H as (x & _ & _ & _ & _ & _ & _ & _ & H). apply H.
Defined.

Lemma retriers_agree_witness :
  claim_dag_retry "x1" "m1" "m2" None DagRepoSample.d0 = (Ok (Some ["clean"; "fetch"; "report"]), DagRepoSample.d1) ∧
  ∃ ids x d2,
    prepare_retry elements (with_rows DagRepoSample.execution (rows_of "x1" DagRepoSample.d0)) None 40 DagRepoSample.d0 =
      (Ok (ids, x), d2) ∧ ids ≡ₚ ["clean"; "fetch"; "report"].
Proof.
  split; [exact DagRepoSample.claimed|].
  destruct (retriers_agree elements DagRepoSample.d0 "x1" "m1" "m2" None DagRepoSample.execution "clean"
              ["fetch"; "report"] DagRepoSample.d1 40 DagRepoSample.keys (λ s, ltac:(done)) ltac:(vm_compute; reflexivity)
              eq_refl ltac:(done) DagRepoSample.claimed) as (ids & x & d2 & H & Hp & _).
  exists ids, x, d2. by split.
Defined.

Lemma retry_restarts_witness :
  let rows' := rows_of "x1" DagRepoSample.d1 in
  run_inv rows' (dag_of_nodes rows') ∧ ∃ n l, get_ready_nodes (dag_of_nodes rows') = Ok (n :: l).
Proof.
  pose proof (retry_restarts DagRepoSample.d0 "x1" "m1" "m2" "clean" ["fetch"; "report"] DagRepoSample.d1
    DagRepoSample.keys) as H.
  cbv zeta in H. rewrite DagRepoSample.rows_eq in H.
  destruct (H DagRepoSample.rows_valid DagRepoSample.runnable ltac:(vm_compute; reflexivity) DagRepoSample.cancelled_below
    DagRepoSample.claimed) as (_ & Hi & _ & Hr).
  split; [exact Hi|exact Hr].
Defined.

(** A node cancelled at run time is not reset with the nodes that failed: the
    retried graph runs out of ready nodes before it is complete, and nothing is
    running, so that nothing ends the run. *)
Example retry_stalls :
  let rows :=
    [DagRepoSample.node "x" [] N_CANCELLED (Some "Cancelled"); DagRepoSample.node "y" [] N_FAILED (Some "boom");
     DagRepoSample.node "c" ["x"; "y"] N_CANCELLED None] in
  let '(out, d) := claim_dag_retry "x1" "m1" "m2" None (DagRepoSample.store rows) in
  let g := dag_of_nodes (rows_of "x1" d) in
  let g1 := (mark_completed "y" (mark_running "y" g).2).2 in
  is_complete (dag_of_nodes rows) = true ∧ out = Ok (Some ["c"; "y"]) ∧
  n_status <$> rows_of "x1" d = [N_CANCELLED; N_PENDING; N_PENDING] ∧
  match get_ready_nodes g with Ok l => node_id <$> l = ["y"] | Err _ => False end ∧
  get_ready_nodes g1 = Ok [] ∧ is_complete g1 = false ∧
  n_status <$> (g_nodes g1).*2 = [N_CANCELLED; N_COMPLETED; N_PENDING].
Proof. vm_compute. repeat split. Qed.

(** The retrier in memory leaves the times of the ended attempt in the store,
    where the claim clears them. *)
Example retrier_keeps_times :
  let stored d := (λ n, (n_status n, n_started_at n, n_completed_at n)) <$> rows_of "x1" d in
  let times d := x_completed_at <$> dag_executions d !! "x1" in
  let d := DagRepoSample.store [DagRepoSample.node "y" [] N_FAILED (Some "boom")] in
  let d1 := (claim_dag_retry "x1" "m1" "m2" None d).2 in
  let d2 := (prepare_retry elements (with_rows DagRepoSample.execution (rows_of "x1" d)) None 40 d).2 in
  stored d1 = [(N_PENDING, None, None)] ∧ times d1 = Some None ∧
  stored d2 = [(N_PENDING, Some 10, Some 20)] ∧ times d2 = Some (Some 21).
Proof. vm_compute. repeat split. Qed.

(** An empty list of nodes: the claim has no target, the retrier takes the nodes
    that failed. *)
Example retriers_differ_on_no_nodes :
  let d := DagRepoSample.d0 in
  (claim_dag_retry "x1" "m1" "m2" (Some []) d).1 = Ok (Some []) ∧
  match (prepare_retry elements (with_rows DagRepoSample.execution (rows_of "x1" d)) (Some []) 40 d).1 with
  | Ok (ids, _) => length ids = 3%nat
  | Err _ => False
  end.
Proof. vm_compute. repeat split. Qed.

(** A later execution of the edict whose node is bound to the memorial of the
    first one. *)
Module EvidenceSample.
Definition row (dag_id : string) (memorial : option string) : DAGNode :=
  mkNode "load" dag_id "task" [] N_COMPLETED None None [] memorial None (Some 10) (Some 20) None.
Definition memorial : dag_memorial := mkDagMemorial "e1" (Some "m1") 1 T_COMPLETED (Some "load") 15.
Definition d : dag_db :=
  mkDagDb {[ "x1" := DagRepoSample.execution; "x2" := mkExecution "x2" "e1" "{}" "running" (Some "m2") 4 30 None [] ]}
    [row "x1" None; row "x2" (Some "m5")] {[ "m5" := memorial ]}.
End EvidenceSample.

Lemma node_evidence_once_witness :
  get_completed_dag_node_memorial "x1" "load" EvidenceSample.d =
    (Ok (Some ("m5", EvidenceSample.memorial)), EvidenceSample.d) ∧
  ("x1" = "x2" ∨ ∃ n, n ∈ dag_nodes EvidenceSample.d ∧ n_memorial_id n = Some "m5" ∧
     (is_row "x1" "load" n || is_row "x2" "load" n) = true).
Proof.
  split; [vm_compute; reflexivity|].
  destruct (node_evidence_once EvidenceSample.d "x1" "x2" "load" "load" "m5" EvidenceSample.memorial
    EvidenceSample.memorial EvidenceSample.d EvidenceSample.d) as (_ & _ & _ & _ & _ & _ & _ & _ & H);
    [vm_compute; reflexivity|vm_compute; reflexivity|exact H].
Defined.

(** Without the binding the later execution does not get it. *)
Example later_execution_gets_none :
  let d := set_dag_nodes [EvidenceSample.row "x1" None; EvidenceSample.row "x2" None] EvidenceSample.d in
  (get_completed_dag_node_memorial "x2" "load" d).1 = Ok None.
Proof. vm_compute. reflexivity. Qed.
