(* ===== verification/DagScheduler.v ===== *)
(** * The DAG scheduler, its worker pool and its lanes

    Models src/src/tianshu/executor/dag_scheduler.py (the scheduling of a run,
    from the validation to the aggregation; not the binding of plan revisions),
    src/src/tianshu/executor/worker_pool.py, src/src/tianshu/executor/lanes.py
    and src/src/tianshu/executor/cancel.py.

    A run is a sequence of events on the graph in memory, the stored rows, the
    tasks and the semaphores.  An event is what the event loop runs between two
    suspensions: a task takes a slot of the pool or of a lane, its worker ends
    and the first half of [on_node_complete] runs, the fan-out of the node's
    event returns and the second half runs, a task is cancelled, the run is
    cancelled, the cascade canceller stores a row.  The pool and the lanes are those
    of one run: other runs of the process that share them are not modelled.  Tasks
    take free semaphores in any order.  What a worker returns
    is chosen by the event; the clock is read once per event. *)

From stdpp Require Import relations.
From S2P Require Import Prelude.
From S2P Require Import Sql.
From S2P Require Import Models.
From S2P Require Import Canonical.
From S2P Require Import UnitOfWork.
From S2P Require Import Dag.
From S2P Require Import DagRepo.

(** ** State *)

(** Where a task is: it waits for the slot of the pool, for the session lane,
    for the global lane, it runs the worker, or it waits for the fan-out of
    the event of its node. *)
Inductive phase := Queued | Slotted | Laned | Working | Reporting.
#[export] Instance phase_eq_dec : EqDecision phase.
Proof. solve_decision. Defined.

Record sched := mkSched {
  sc_graph : DAG;
  sc_store : dag_db;
  sc_tasks : gmap string phase;          (* the tasks that are not done, by node *)
  sc_slots : Z;                          (* the value of the pool's semaphore *)
  sc_session : option Z;                 (* of the session lane, where there is one *)
  sc_global : option Z;
  sc_results : dict string;
  sc_usage : dict PersistedUsageSummaryV1;
  sc_completion : bool;
  sc_stopping : bool;
  sc_completed_count : Z;
  sc_failed_count : Z;
  sc_events : list (string * string * option string);
}.

Definition set_graph g (s : sched) := mkSched g (sc_store s) (sc_tasks s) (sc_slots s) (sc_session s) (sc_global s)
  (sc_results s) (sc_usage s) (sc_completion s) (sc_stopping s) (sc_completed_count s) (sc_failed_count s) (sc_events s).
Definition set_store d (s : sched) := mkSched (sc_graph s) d (sc_tasks s) (sc_slots s) (sc_session s) (sc_global s)
  (sc_results s) (sc_usage s) (sc_completion s) (sc_stopping s) (sc_completed_count s) (sc_failed_count s) (sc_events s).
Definition set_tasks t (s : sched) := mkSched (sc_graph s) (sc_store s) t (sc_slots s) (sc_session s) (sc_global s)
  (sc_results s) (sc_usage s) (sc_completion s) (sc_stopping s) (sc_completed_count s) (sc_failed_count s) (sc_events s).
Definition set_slots v (s : sched) := mkSched (sc_graph s) (sc_store s) (sc_tasks s) v (sc_session s) (sc_global s)
  (sc_results s) (sc_usage s) (sc_completion s) (sc_stopping s) (sc_completed_count s) (sc_failed_count s) (sc_events s).
Definition set_lanes v w (s : sched) := mkSched (sc_graph s) (sc_store s) (sc_tasks s) (sc_slots s) v w
  (sc_results s) (sc_usage s) (sc_completion s) (sc_stopping s) (sc_completed_count s) (sc_failed_count s) (sc_events s).
Definition set_outputs r u (s : sched) := mkSched (sc_graph s) (sc_store s) (sc_tasks s) (sc_slots s) (sc_session s)
  (sc_global s) r u (sc_completion s) (sc_stopping s) (sc_completed_count s) (sc_failed_count s) (sc_events s).
Definition set_completion (s : sched) := mkSched (sc_graph s) (sc_store s) (sc_tasks s) (sc_slots s) (sc_session s)
  (sc_global s) (sc_results s) (sc_usage s) true (sc_stopping s) (sc_completed_count s) (sc_failed_count s) (sc_events s).
Definition set_stopping (s : sched) := mkSched (sc_graph s) (sc_store s) (sc_tasks s) (sc_slots s) (sc_session s)
  (sc_global s) (sc_results s) (sc_usage s) (sc_completion s) true (sc_completed_count s) (sc_failed_count s) (sc_events s).
Definition set_counts c f (s : sched) := mkSched (sc_graph s) (sc_store s) (sc_tasks s) (sc_slots s) (sc_session s)
  (sc_global s) (sc_results s) (sc_usage s) (sc_completion s) (sc_stopping s) c f (sc_events s).
Definition add_event e (s : sched) := mkSched (sc_graph s) (sc_store s) (sc_tasks s) (sc_slots s) (sc_session s)
  (sc_global s) (sc_results s) (sc_usage s) (sc_completion s) (sc_stopping s) (sc_completed_count s) (sc_failed_count s)
  (sc_events s ++ [e]).

Definition on_graph {A} (m : M DAG A) : M sched A := λ s,
  let '(r, g) := m (sc_graph s) in (r, set_graph g s).
Definition on_dag_store {A} (m : M dag_db A) : M sched A := λ s,
  let '(r, d) := m (sc_store s) in (r, set_store d s).
Definition modify (f : sched → sched) : M sched unit := λ s, (Ok tt, f s).

(** ** [on_node_complete] and [_schedule_ready] *)

Section scheduler.
Context (dag_id : string).

Definition propagate (nid : string) : M DAG (list string) := λ g,
  match propagate_failure nid g with
  | Some r => r
  | None => (Err (Exn RuntimeError "out of fuel"), g)
  end.
Fixpoint store_cancelled (cancelled : list string) (now : Z) : M sched unit :=
  match cancelled with
  | [] => ret tt
  | cid :: rest => on_dag_store (update_dag_node_status dag_id cid N_CANCELLED None now) ;;; store_cancelled rest now
  end.

(** [if error:] *)
Definition truthy (error : option string) : option string :=
  match error with Some e => if bool_decide (e = "") then None else Some e | None => None end.
(** Until the [await] of the event. *)
Definition node_ended (nid : string) (error : option string) (now : Z) : M sched unit :=
  match truthy error with
  | Some e =>
      let cancelled_by_runtime := bool_decide (e = "Cancelled") in
      on_graph (mark_ending nid (if cancelled_by_runtime then Cancelled e else Failed (Some e))) ;;;
      let! cancelled := on_graph (propagate nid) in
      store_cancelled cancelled now ;;;
      on_dag_store (update_dag_node_status dag_id nid (if cancelled_by_runtime then N_CANCELLED else N_FAILED)
                      (Some e) now) ;;;
      modify (add_event (if cancelled_by_runtime then "dag.node.cancelled" else "dag.node.failed", nid, Some e))
  | None =>
      on_graph (mark_completed nid) ;;;
      on_dag_store (update_dag_node_status dag_id nid N_COMPLETED None now) ;;;
      modify (add_event ("dag.node.completed", nid, None))
  end.

Definition set_started (now : Z) (n : DAGNode) : DAGNode :=
  mkNode (node_id n) (dag_execution_id n) (description n) (depends_on n) (n_status n) (assigned_official n)
    (assigned_worker n) (tools_required n) (n_memorial_id n) (checkpoint_json n) (Some now) (n_completed_at n) (n_error n).
(** [WorkerPool.submit] creates the task and does not suspend. *)
Definition submit (nid : string) : M sched unit := modify (λ s, set_tasks (<[nid := Queued]> (sc_tasks s)) s).
Fixpoint start_nodes (ready : list DAGNode) (now : Z) : M sched unit :=
  match ready with
  | [] => ret tt
  | n :: rest =>
      on_graph (mark_running (node_id n)) ;;;
      on_graph (update_node (node_id n) (set_started now)) ;;;
      on_dag_store (update_dag_node_status dag_id (node_id n) N_RUNNING None now) ;;;
      submit (node_id n) ;;;
      start_nodes rest now
  end.
Definition schedule_ready (now : Z) : M sched unit :=
  let! s := get_state in
  if sc_stopping s then ret tt
  else
    let! ready := of_result (get_ready_nodes (sc_graph s)) in
    start_nodes ready now.
(** After the [await] of the event. *)
Definition node_reported (now : Z) : M sched unit :=
  let! s := get_state in
  if is_complete (sc_graph s) then modify set_completion
  else if negb (sc_stopping s) then schedule_ready now else ret tt.

(** ** Workers *)

Record agent_result := mkAgentResult {
  ar_status : TaskStatus; ar_result : option string; ar_usage : PersistedUsageSummaryV1; ar_error : option string;
}.
(** How [execute_node] ends. *)
Inductive outcome := Returned (r : agent_result) | Raised (message : string) | Interrupted.

(** [_run_node] writes the outputs; what [_run] hands to [on_complete]. *)
Definition record_outputs (nid : string) (o : outcome) : M sched unit :=
  match o with
  | Returned r =>
      modify (λ s, set_outputs (match truthy (ar_result r) with
                                | Some t => dict_put (sc_results s) nid t
                                | None => sc_results s
                                end) (dict_put (sc_usage s) nid (ar_usage r)) s)
  | _ => ret tt
  end.
Definition worker_error (o : outcome) : option string :=
  match o with
  | Returned r =>
      match ar_status r with
      | T_FAILED => Some (match truthy (ar_error r) with Some e => e | None => "Node execution failed" end)
      | T_CANCELLED => Some "Cancelled"
      | _ => None
      end
  | Raised message => Some message
  | Interrupted => Some "Cancelled"
  end.
(** [_completed_count], [_failed_count]; a cancelled item counts as neither *)
Definition count_outcome (o : outcome) : M sched unit :=
  modify (λ s,
    match o with
    | Returned r =>
        match ar_status r with
        | T_FAILED => set_counts (sc_completed_count s) (sc_failed_count s + 1) s
        | T_CANCELLED => s
        | _ => set_counts (sc_completed_count s + 1) (sc_failed_count s) s
        end
    | Raised _ => set_counts (sc_completed_count s) (sc_failed_count s + 1) s
    | Interrupted => s
    end).

Definition set_phase (nid : string) (p : phase) : M sched unit :=
  modify (λ s, set_tasks (<[nid := p]> (sc_tasks s)) s).
Definition task_done (nid : string) : M sched unit := modify (λ s, set_tasks (delete nid (sc_tasks s)) s).
Definition release_lanes : M sched unit :=
  modify (λ s, set_lanes (Z.succ <$> sc_session s) (Z.succ <$> sc_global s) s).
Definition release_slot : M sched unit := modify (λ s, set_slots (sc_slots s + 1) s).

(** ** Events *)

(** The last two are the writes of [CascadeCanceller.cancel], which runs next to
    the run on a graph of its own and stores the statuses it decides on (DagCancel.v
    has all of it); the requests it makes to the pool are [CancelTask]s. *)
Inductive event :=
  | TakeSlot (nid : string)
  | TakeSession (nid : string)
  | TakeGlobal (nid : string)
  | WorkerEnds (nid : string) (o : outcome) (now : Z)
  | EventSent (nid : string) (now : Z)
  | CancelTask (nid : string) (now : Z)
  | StopRun
  | CancelRow (nid : string) (error : option string) (now : Z)
  | CancelExecution (now : Z).

Definition lane_free (lane : option Z) : bool := match lane with Some v => 0 <? v | None => true end.
Definition at_phase (s : sched) (nid : string) (p : phase) : bool := bool_decide (sc_tasks s !! nid = Some p).
Definition enabled (s : sched) (e : event) : bool :=
  match e with
  | TakeSlot nid => at_phase s nid Queued && (0 <? sc_slots s)
  | TakeSession nid => at_phase s nid Slotted && lane_free (sc_session s)
  | TakeGlobal nid => at_phase s nid Laned && lane_free (sc_global s)
  | WorkerEnds nid _ _ => at_phase s nid Working
  | EventSent nid _ => at_phase s nid Reporting
  | CancelTask nid _ => is_some (sc_tasks s !! nid)
  | StopRun => true
  | CancelRow _ _ _ | CancelExecution _ => true
  end.
(** The canceller only writes rows of the nodes in [K]. *)
Definition writes_in (K : gset string) (e : event) : Prop :=
  match e with CancelRow nid _ _ => nid ∈ K | _ => True end.
(** The [CancelledError] of a task: [_run] is left where it waits, without
    [on_complete] before the slot is taken, and out of the fan-out of the event;
    [_run_node] takes its lanes before its [try]. *)
Definition cancel_task (nid : string) (now : Z) : M sched unit :=
  let! s := get_state in
  match sc_tasks s !! nid with
  | Some Queued => task_done nid
  | Some Slotted | Some Laned => node_ended nid (Some "Cancelled") now ;;; set_phase nid Reporting
  | Some Working => release_lanes ;;; node_ended nid (Some "Cancelled") now ;;; set_phase nid Reporting
  | Some Reporting => release_slot ;;; task_done nid
  | None => ret tt
  end.
Definition perform (e : event) : M sched unit :=
  match e with
  | TakeSlot nid => modify (λ s, set_slots (sc_slots s - 1) s) ;;; set_phase nid Slotted
  | TakeSession nid => modify (λ s, set_lanes (Z.pred <$> sc_session s) (sc_global s) s) ;;; set_phase nid Laned
  | TakeGlobal nid => modify (λ s, set_lanes (sc_session s) (Z.pred <$> sc_global s) s) ;;; set_phase nid Working
  | WorkerEnds nid o now =>
      record_outputs nid o ;;; release_lanes ;;; count_outcome o ;;;
      node_ended nid (worker_error o) now ;;; set_phase nid Reporting
  | EventSent nid now => node_reported now ;;; release_slot ;;; task_done nid
  | CancelTask nid now => cancel_task nid now
  | StopRun => modify set_stopping
  | CancelRow nid error now => on_dag_store (update_dag_node_status dag_id nid N_CANCELLED error now)
  | CancelExecution now => on_dag_store (update_dag_execution_status dag_id "cancelled" (Some now))
  end.
Definition sched_step (K : gset string) (s s' : sched) : Prop :=
  ∃ e, enabled s e = true ∧ writes_in K e ∧ perform e s = (Ok tt, s').

(** ** The run *)

(** The first scheduling, before the [wait]. *)
Definition begin_run (now : Z) : M sched unit :=
  schedule_ready now ;;;
  modify (λ s, if bool_decide (sc_tasks s = ∅) && is_complete (sc_graph s) then set_completion s else s).
(** From the validation to the [wait]; [results] and [usage] are those of the
    nodes an earlier run completed. *)
Definition start_run (results : dict string) (usage : dict PersistedUsageSummaryV1) (slots : Z)
    (session global : option Z) (x : DAGExecution) (now : Z) (d : dag_db) : result sched :=
  match validate_dag_structure (x_nodes x) with
  | Some (Ok tt) =>
      let s := mkSched (from_execution x) d ∅ slots session global results usage false false 0 0 [] in
      match (on_dag_store (update_dag_execution_status dag_id "running" None) ;;;
             modify (add_event ("dag.started", dag_id, None)) ;;;
             begin_run now) s with
      | (Ok _, s') => Ok s'
      | (Err e, _) => Err e
      end
  | Some (Err e) => Err (Exn ValueError ("DAG validation failed: " +:+ exn_message e))
  | None => Err (Exn RuntimeError "out of fuel")
  end.

(** The status of the execution when the run is over. *)
Definition final_status (g : DAG) : string :=
  if has_failures g then "failed"
  else if existsb (λ kv : string * DAGNode, bool_decide (n_status kv.2 = N_CANCELLED)) (g_nodes g) then "cancelled"
  else "completed".
Definition finish_run (now : Z) : M sched string :=
  let! s := get_state in
  let status := final_status (sc_graph s) in
  on_dag_store (update_dag_execution_status dag_id status (Some now)) ;;;
  ret status.
(** [except asyncio.CancelledError], once the tasks are drained *)
Definition cancel_run (now : Z) : M sched unit :=
  on_dag_store (update_dag_execution_status dag_id "cancelled" (Some now)).
End scheduler.

(** ** The root memorial *)

Definition zero_cost : pyfloat := PyFloat (Some (0, 0)) "0.0".
Definition add_usage (t u : PersistedUsageSummaryV1) : PersistedUsageSummaryV1 :=
  mkUsage (prompt_tokens t + prompt_tokens u) (completion_tokens t + completion_tokens u)
    (total_tokens t + total_tokens u) 0 zero_cost None None.
Definition no_usage : PersistedUsageSummaryV1 := mkUsage 0 0 0 0 zero_cost None None.
Definition total_usage (usage : dict PersistedUsageSummaryV1) : PersistedUsageSummaryV1 := foldl add_usage no_usage usage.*2.

Definition newline : string := String (Ascii.ascii_of_nat 10) EmptyString.
Definition separator : string := newline +:+ newline +:+ "---" +:+ newline +:+ newline.
Definition node_output (results : dict string) (n : DAGNode) : option string := truthy (dict_get results (node_id n)).
Definition joined_parts (parts : list string) : option string :=
  match parts with [] => None | _ => Some (String.concat separator parts) end.
Definition combined_result (results : dict string) (nodes : list DAGNode) : option string :=
  joined_parts (omap (λ n, (λ r, "## " +:+ node_id n +:+ ": " +:+ description n +:+ newline +:+ newline +:+ r)
                             <$> node_output results n) nodes).
(** The outputs of the nodes no other node depends on. *)
Definition leaves (nodes : list DAGNode) : list DAGNode :=
  filter (λ n, node_id n ∉ nodes ≫= depends_on) nodes.
Definition final_output (results : dict string) (nodes : list DAGNode) : option string :=
  joined_parts (omap (node_output results) (leaves nodes)).
Definition root_status (status : string) : TaskStatus :=
  if bool_decide (status = "completed") then T_COMPLETED
  else if bool_decide (status = "cancelled") then T_CANCELLED else T_FAILED.
(** The fields of the root memorial that the end of a run sets. *)
Record root_columns := mkRootColumns {
  rc_usage : PersistedUsageSummaryV1; rc_result : option string; rc_final_output : option string;
  rc_status : TaskStatus; rc_completed_at : Z;
}.
Definition root_outcome (nodes : list DAGNode) (s : sched) (status : string) (now : Z) : root_columns :=
  mkRootColumns (total_usage (sc_usage s)) (combined_result (sc_results s) nodes) (final_output (sc_results s) nodes)
    (root_status status) now.

(** ** Counting tasks *)

Definition count (P : phase → bool) (t : gmap string phase) : nat := size (filter (λ kv, P kv.2 = true) t).
Definition weight (P : phase → bool) (p : phase) : nat := if P p then 1%nat else 0%nat.

Lemma count_insert P t c p : t !! c = None → count P (<[c := p]> t) = (weight P p + count P t)%nat.
Proof.
  intros Hc. unfold count, weight. destruct (P p) eqn:E.
  - rewrite map_filter_insert_True by done. rewrite map_size_insert_None; [done|].
    apply map_lookup_filter_None. by left.
  - rewrite map_filter_insert_False by (cbn; congruence). by rewrite delete_id.
Qed.
Lemma count_delete P t c p : t !! c = Some p → (count P (delete c t) + weight P p = count P t)%nat.
Proof.
  intros Hc. rewrite <-(insert_delete_id t c p Hc) at 2. rewrite count_insert by apply lookup_delete_eq. lia.
Qed.
Lemma count_update P t c p q :
  t !! c = Some p → (count P (<[c := q]> t) + weight P p = count P t + weight P q)%nat.
Proof.
  intros Hc. rewrite <-(insert_delete_eq t c q), count_insert by apply lookup_delete_eq.
  pose proof (count_delete P t c p Hc). lia.
Qed.
Lemma count_pos P t c p : t !! c = Some p → P p = true → (0 < count P t)%nat.
Proof. intros Hc HP. pose proof (count_delete P t c p Hc) as H. unfold weight in H. rewrite HP in H. lia. Qed.
Lemma count_empty P : count P ∅ = 0%nat.
Proof. done. Qed.

(** ** The store follows the graph *)

Section agreement.
Context (K : gset string) (dag_id : string) (nodes : list DAGNode).
Context (Hnodup : NoDup (ids_of nodes)) (Hclosed : closed nodes).
Abbreviation dep := (node_depends nodes).

Definition stored (d : dag_db) (c : string) : option DAGNodeStatus := status_of (dag_of_nodes (rows_of dag_id d)) c.
(** The graph can run, and the rows of the execution have its statuses, but for
    the nodes in [K] whose row was cancelled from outside. *)
Record agrees (g : DAG) (d : dag_db) : Prop := {
  ag_run : run_inv nodes g;
  ag_ids : ids_of (rows_of dag_id d) = ids_of nodes;
  ag_status c : stored d c = status_of g c ∨ (c ∈ K ∧ stored d c = Some N_CANCELLED);
}.

Lemma updated_rows nid (f : DAGNode → DAGNode) d n0 d' :
  (∀ n, dag_execution_id (f n) = dag_execution_id n) →
  update_nodes (is_row dag_id nid) f d = (Ok n0, d') →
  rows_of dag_id d' = (λ n, if bool_decide (node_id n = nid) then f n else n) <$> rows_of dag_id d.
Proof.
  intros Hf [= _ <-]. unfold rows_of, is_row. cbn [dag_nodes set_dag_nodes].
  induction (dag_nodes d) as [|n l IH]; [done|]. rewrite fmap_cons, !filter_cons.
  destruct (in_execution dag_id n) eqn:E; cbn [andb].
  - rewrite (decide_True (P := true = true)) by done. rewrite decide_True; [by rewrite fmap_cons, IH|].
    case_bool_decide; [|done]. unfold in_execution in *. by rewrite Hf.
  - rewrite (decide_False (P := false = true)) by done. rewrite decide_False; [exact IH|by rewrite E].
Qed.
Lemma status_columns_key st e now n :
  node_id (status_columns st e now n) = node_id n ∧ dag_execution_id (status_columns st e now n) = dag_execution_id n ∧
  n_status (status_columns st e now n) = st.
Proof. by destruct st. Qed.

(** Storing a status of a node of the graph. *)
Lemma store_status nid st e now d :
  ids_of (rows_of dag_id d) = ids_of nodes → nid ∈ ids_of nodes →
  ∃ d', update_dag_node_status dag_id nid st e now d = (Ok tt, d') ∧ ids_of (rows_of dag_id d') = ids_of nodes ∧
    ∀ c, stored d' c = if decide (nid = c) then Some st else stored d c.
Proof.
  intros Hids Hin. unfold update_dag_node_status, bind.
  destruct (update_nodes (is_row dag_id nid) (status_columns st e now) d) as [r d'] eqn:E.
  assert (Hr : ∃ z, r = Ok z) by (injection E as <- _; eauto). destruct Hr as [z ->]. exists d'. split; [done|].
  apply updated_rows in E; [|intros n; apply status_columns_key].
  assert (Hi : ids_of (rows_of dag_id d') = ids_of nodes).
  { rewrite E, <-Hids. unfold ids_of. rewrite <-list_fmap_compose. apply list_fmap_ext. intros _ n _. cbn.
    case_bool_decide; [apply status_columns_key|done]. }
  split; [done|]. intros c. unfold stored. apply option_eq. intros t.
  rewrite (status_of_rows (rows_of dag_id d')) by (by rewrite Hi).
  destruct (decide (nid = c)) as [<-|Hne].
  - rewrite <-Hids in Hin. apply list_elem_of_fmap in Hin as (n & Hn & Hin'). split.
    + intros (m & Hm & Em & <-). rewrite E in Hm. apply list_elem_of_fmap in Hm as (k & -> & _).
      case_bool_decide as Hk; [by rewrite (proj2 (proj2 (status_columns_key _ _ _ _)))|congruence].
    + intros [= <-]. exists (status_columns st e now n). rewrite E. split; [|rewrite Hn; split; apply status_columns_key].
      apply list_elem_of_fmap. exists n. by rewrite bool_decide_eq_true_2.
  - rewrite status_of_rows by (by rewrite Hids). split; intros (m & Hm & Em & Hs).
    + rewrite E in Hm. apply list_elem_of_fmap in Hm as (k & -> & Hk). case_bool_decide as Hk'; [|eauto].
      rewrite (proj1 (status_columns_key _ _ _ _)) in Em. congruence.
    + exists m. rewrite E. split; [|done]. apply list_elem_of_fmap. exists m.
      rewrite bool_decide_eq_false_2 by congruence. done.
Qed.
(** Storing a status of any identifier. *)
Lemma store_any nid st e now d :
  ids_of (rows_of dag_id d) = ids_of nodes →
  ∃ d', update_dag_node_status dag_id nid st e now d = (Ok tt, d') ∧ ids_of (rows_of dag_id d') = ids_of nodes ∧
    ∀ c, stored d' c = if decide (nid = c ∧ c ∈ ids_of nodes) then Some st else stored d c.
Proof.
  intros Hids. destruct (decide (nid ∈ ids_of nodes)) as [Hin|Hin].
  - destruct (store_status nid st e now d Hids Hin) as (d' & Hd & Hi & Hs). exists d'. split; [done|]. split; [done|].
    intros c. rewrite Hs. repeat case_decide; naive_solver.
  - unfold update_dag_node_status, bind.
    destruct (update_nodes (is_row dag_id nid) (status_columns st e now) d) as [r d'] eqn:E.
    assert (Hr : ∃ z, r = Ok z) by (injection E as <- _; eauto). destruct Hr as [z ->]. exists d'. split; [done|].
    apply updated_rows in E; [|intros n; apply status_columns_key].
    assert (Hsame : rows_of dag_id d' = rows_of dag_id d).
    { rewrite E. etransitivity; [|apply list_fmap_id]. apply list_fmap_ext. intros i n Hn. rewrite bool_decide_eq_false_2; [done|].
      intros <-. apply Hin. rewrite <-Hids. apply list_elem_of_fmap. exists n. split; [done|]. by eapply list_elem_of_lookup_2. }
    split; [by rewrite Hsame|]. intros c. rewrite decide_False; [unfold stored; by rewrite Hsame|]. by intros [-> ?].
Qed.
Lemma on_dag_store_eq {A} (m : M dag_db A) s r d' : m (sc_store s) = (r, d') → on_dag_store m s = (r, set_store d' s).
Proof. unfold on_dag_store. by intros ->. Qed.
Lemma on_graph_eq {A} (m : M DAG A) s r g' : m (sc_graph s) = (r, g') → on_graph m s = (r, set_graph g' s).
Proof. unfold on_graph. by intros ->. Qed.

Lemma store_cancelled_eq can now s :
  ids_of (rows_of dag_id (sc_store s)) = ids_of nodes → (∀ c, c ∈ can → c ∈ ids_of nodes) →
  ∃ d', store_cancelled dag_id can now s = (Ok tt, set_store d' s) ∧ ids_of (rows_of dag_id d') = ids_of nodes ∧
    ∀ c, stored d' c = if decide (c ∈ can) then Some N_CANCELLED else stored (sc_store s) c.
Proof.
  revert s. induction can as [|i can IH]; intros s Hids Hin; cbn [store_cancelled].
  - exists (sc_store s). split; [by destruct s|]. split; [done|]. intros c. by rewrite decide_False by set_solver.
  - destruct (store_status i N_CANCELLED None now (sc_store s) Hids) as (d1 & H1 & Hi1 & Hs1); [apply Hin; left|].
    rewrite (bind_Ok _ _ _ _ _ (on_dag_store_eq _ _ _ _ H1)).
    destruct (IH (set_store d1 s) Hi1) as (d2 & H2 & Hi2 & Hs2); [intros c Hc; apply Hin; by right|].
    exists d2. rewrite H2. split; [done|]. split; [done|]. intros c. rewrite Hs2. cbn [sc_store set_store]. rewrite Hs1.
    destruct (decide (c ∈ can)), (decide (c ∈ i :: can)), (decide (i = c)); try done; set_solver.
Qed.

(** A change of a node that keeps its status and identifier. *)
Lemma update_kept nid f g :
  (∀ n, n_status (f n) = n_status n) → (∀ n, node_id (f n) = node_id n) → run_inv nodes g → nid ∈ ids_of nodes →
  ∃ g', update_node nid f g = (Ok tt, g') ∧ run_inv nodes g' ∧ ∀ c, status_of g' c = status_of g c.
Proof.
  intros Hs Hid Hi Hin. destruct (update_node_eq nodes nid f g (ri_graph _ _ Hi) Hin) as (n & g' & Hn & Hu & Hg & Hget).
  assert (Hst : ∀ c, status_of g' c = status_of g c).
  { intros c. unfold status_of. rewrite Hget. case_decide as Hc; [|done]. subst c. rewrite Hn. cbn. by rewrite Hs. }
  exists g'. split; [done|]. split; [|done]. split; [done|..]; try setoid_rewrite Hst; try apply Hi.
  intros c m. rewrite Hget. case_decide as Hc; [|apply Hi]. intros [= <-]. rewrite Hid. subst c. by apply Hi.
Qed.
Lemma running_known g c s : run_inv nodes g → status_of g c = Some s → c ∈ ids_of nodes.
Proof. intros Hi Hs. apply (status_is_Some nodes g c (ri_graph _ _ Hi)). eauto. Qed.

(** What the end of a node does to the statuses. *)
Definition ended_node (nid : string) (g g' : DAG) : Prop :=
  (∃ st, status_of g' nid = Some st ∧ terminal st = true) ∧
  (∀ c st, nid ≠ c → status_of g c = Some st → st ≠ N_PENDING → status_of g' c = Some st) ∧
  (∀ c st, status_of g' c = Some st → terminal st = true ∨ (nid ≠ c ∧ status_of g c = Some st)).

Lemma completed_ok nid now s :
  agrees (sc_graph s) (sc_store s) → status_of (sc_graph s) nid = Some N_RUNNING →
  ∃ g' d', on_graph (mark_completed nid) s = (Ok tt, set_graph g' s) ∧
    on_dag_store (update_dag_node_status dag_id nid N_COMPLETED None now) (set_graph g' s) =
      (Ok tt, set_store d' (set_graph g' s)) ∧ agrees g' d' ∧ ended_node nid (sc_graph s) g'.
Proof.
  intros [Hi Hids Hag] Hr. pose proof (running_known _ _ _ Hi Hr) as Hin. pose proof (ri_graph _ _ Hi) as Hg.
  destruct (update_node_eq nodes nid (set_status N_COMPLETED) _ Hg Hin) as (n & g' & _ & Hu & _).
  destruct (update_status nodes nid (set_status N_COMPLETED) N_COMPLETED _ _ Hg (λ _, eq_refl) (λ _, eq_refl) Hu) as (Hg' & Hst & _).
  destruct (store_status nid N_COMPLETED None now (sc_store s) Hids Hin) as (d' & Hd & Hids' & Hsd).
  exists g', d'. split; [by apply on_graph_eq|]. split; [by apply on_dag_store_eq|]. split.
  - split; [|done|by intros c; rewrite Hsd, Hst; case_decide; [by left|apply Hag]].
    eapply (update_status_inv nodes nid (set_status N_COMPLETED) N_COMPLETED); try done.
    + right. left.
    + by rewrite Hr.
    + intros y Hy. eapply (ri_started _ _ Hi); [exact Hr|left|done].
  - split; [exists N_COMPLETED; by rewrite Hst, decide_True|]. split.
    + intros c st Hne Hc _. by rewrite Hst, decide_False.
    + intros c st. rewrite Hst. case_decide; [intros [= <-]; by left|]. by right.
Qed.

Lemma failed_ok nid e now s :
  agrees (sc_graph s) (sc_store s) → status_of (sc_graph s) nid = Some N_RUNNING →
  ∃ g1 can g' d1, on_graph (mark_ending nid e) s = (Ok tt, set_graph g1 s) ∧
    on_graph (propagate nid) (set_graph g1 s) = (Ok can, set_graph g' s) ∧
    store_cancelled dag_id can now (set_graph g' s) = (Ok tt, set_store d1 (set_graph g' s)) ∧
    (∀ err, ∃ d', on_dag_store (update_dag_node_status dag_id nid (ended_status e) err now)
       (set_store d1 (set_graph g' s)) = (Ok tt, set_store d' (set_graph g' s)) ∧ agrees g' d') ∧
    ended_node nid (sc_graph s) g'.
Proof.
  intros [Hi Hids Hag] Hr. pose proof (running_known _ _ _ Hi Hr) as Hin. pose proof (ri_graph _ _ Hi) as Hg.
  assert (Hm : ∃ g1, mark_ending nid e (sc_graph s) = (Ok tt, g1)).
  { destruct e; cbn [mark_ending]; unfold mark_failed;
      (edestruct (update_node_eq nodes nid) as (n & g1 & _ & Hu & _); [done|done|exists g1; exact Hu]). }
  destruct Hm as [g1 Hm]. destruct (mark_ending_status _ _ _ _ _ Hg Hm) as (Hg1 & Hs1 & _).
  destruct (propagate_failure_eq nid g1 (same_graph_known nodes Hnodup Hclosed g1 Hg1)) as (can & ns & Hp & _).
  set (g' := with_nodes ns g1) in *.
  destruct (propagate_status nodes Hnodup Hclosed _ _ _ _ Hg1 Hp) as (Hg' & Hcan & Hs' & _).
  assert (Hpend : ∀ c, c ∈ can → status_of (sc_graph s) c = Some N_PENDING ∧ nid ≠ c).
  { intros c Hc. apply Hcan, downstream_cancellable, (cancellable_status nodes Hnodup Hclosed) in Hc. rewrite Hs1 in Hc.
    destruct (decide (nid = c)); [destruct e; destruct Hc as [Hc|Hc]; discriminate Hc|].
    destruct Hc as [Hc|Hc]; [done|]. by apply (ri_ready _ _ Hi) in Hc. }
  assert (Hi' : run_inv nodes g') by (by eapply (step_end_inv nodes Hnodup Hclosed nid e)).
  destruct (store_cancelled_eq can now (set_graph g' s) Hids) as (d1 & Hd1 & Hids1 & Hsd1).
  { intros c Hc. apply Hpend in Hc as [Hc _]. exact (running_known _ _ _ Hi Hc). }
  exists g1, can, g', d1. split; [by apply on_graph_eq|]. split.
  { unfold on_graph, propagate. cbn [sc_graph set_graph]. by rewrite Hp. }
  split; [done|]. split.
  - intros err. destruct (store_status nid (ended_status e) err now d1 Hids1 Hin) as (d' & Hd & Hids' & Hsd).
    exists d'. split; [exact (on_dag_store_eq _ (set_store d1 (set_graph g' s)) _ _ Hd)|]. split; [done|done|].
    intros c. rewrite Hsd, Hsd1, Hs', Hs1. cbn [sc_store set_graph].
    destruct (decide (nid = c)), (decide (c ∈ can)) as [Hc|]; try (by left); [|apply Hag].
    apply Hpend in Hc. by destruct Hc.
  - split; [|split].
    + exists (ended_status e). rewrite Hs', Hs1, decide_False, decide_True; [by destruct e|done|]. intros Hc%Hpend. by destruct Hc.
    + intros c st Hne Hc Hnp. rewrite Hs', Hs1, decide_False, decide_False; [done| |intros [Hc' _]%Hpend; congruence].
      done.
    + intros c st. rewrite Hs', Hs1. repeat case_decide; [intros [= <-]; by left|intros [= <-]; left; by destruct e|].
      by right.
Qed.

(** The first half of [on_node_complete] returns, and the store still follows
    the graph. *)
Lemma node_ended_ok nid error now s :
  agrees (sc_graph s) (sc_store s) → status_of (sc_graph s) nid = Some N_RUNNING →
  ∃ g' d' ev, node_ended dag_id nid error now s = (Ok tt, add_event ev (set_store d' (set_graph g' s))) ∧
    agrees g' d' ∧ ended_node nid (sc_graph s) g'.
Proof.
  intros Ha Hr. unfold node_ended. destruct (truthy error) as [e|].
  - set (end_ := if bool_decide (e = "Cancelled") then Cancelled e else Failed (Some e)).
    destruct (failed_ok nid end_ now s Ha Hr) as (g1 & can & g' & d1 & H1 & H2 & H3 & H4 & He).
    destruct (H4 (Some e)) as (d' & Hd & Ha'). exists g', d'. eexists. split; [|done].
    rewrite (bind_Ok _ _ _ _ _ H1), (bind_Ok _ _ _ _ _ H2), (bind_Ok _ _ _ _ _ H3).
    replace (if bool_decide (e = "Cancelled") then N_CANCELLED else N_FAILED) with (ended_status end_)
      by (unfold end_; by case_bool_decide).
    by rewrite (bind_Ok _ _ _ _ _ Hd).
  - destruct (completed_ok nid now s Ha Hr) as (g' & d' & H1 & H2 & Ha' & He). exists g', d'. eexists. split; [|done].
    by rewrite (bind_Ok _ _ _ _ _ H1), (bind_Ok _ _ _ _ _ H2).
Qed.

(** Starting one waiting node. *)
Lemma started_ok nid now s :
  agrees (sc_graph s) (sc_store s) → status_of (sc_graph s) nid = Some N_PENDING →
  deps_completed nodes (sc_graph s) nid →
  ∃ g1 g' d', on_graph (mark_running nid) s = (Ok tt, set_graph g1 s) ∧
    on_graph (update_node nid (set_started now)) (set_graph g1 s) = (Ok tt, set_graph g' s) ∧
    on_dag_store (update_dag_node_status dag_id nid N_RUNNING None now) (set_graph g' s) =
      (Ok tt, set_store d' (set_graph g' s)) ∧ agrees g' d' ∧
    ∀ c, status_of g' c = if decide (nid = c) then Some N_RUNNING else status_of (sc_graph s) c.
Proof.
  intros [Hi Hids Hag] Hp Hdeps. pose proof (running_known _ _ _ Hi Hp) as Hin. pose proof (ri_graph _ _ Hi) as Hg.
  destruct (update_node_eq nodes nid (set_status N_RUNNING) _ Hg Hin) as (n & g1 & _ & Hu & _).
  destruct (update_status nodes nid (set_status N_RUNNING) N_RUNNING _ _ Hg (λ _, eq_refl) (λ _, eq_refl) Hu)
    as (Hg1 & Hst & _).
  assert (Hi1 : run_inv nodes g1).
  { eapply (update_status_inv nodes nid (set_status N_RUNNING) N_RUNNING); try done; [left|by rewrite Hp]. }
  destruct (update_kept nid (set_started now) g1 (λ _, eq_refl) (λ _, eq_refl) Hi1 Hin) as (g' & Hu' & Hi' & Hst').
  destruct (store_status nid N_RUNNING None now (sc_store s) Hids Hin) as (d' & Hd & Hids' & Hsd).
  exists g1, g', d'. split; [by apply on_graph_eq|].
  split; [exact (on_graph_eq _ (set_graph g1 s) _ _ Hu')|].
  split; [exact (on_dag_store_eq _ (set_graph g' s) _ _ Hd)|].
  assert (Hall : ∀ c, status_of g' c = if decide (nid = c) then Some N_RUNNING else status_of (sc_graph s) c).
  { intros c. by rewrite Hst', Hst. }
  split; [|done]. split; [done|done|]. intros c. rewrite Hsd, Hall. case_decide; [by left|apply Hag].
Qed.

(** Starting a list of nodes: they run, and each has a task that waits. *)
Lemma start_nodes_ok l now s :
  agrees (sc_graph s) (sc_store s) → NoDup (ids_of l) →
  (∀ c, c ∈ ids_of l → status_of (sc_graph s) c = Some N_PENDING ∧ deps_completed nodes (sc_graph s) c ∧
     sc_tasks s !! c = None) →
  ∃ g' d' t', start_nodes dag_id l now s = (Ok tt, set_tasks t' (set_store d' (set_graph g' s))) ∧ agrees g' d' ∧
    (∀ c, status_of g' c = if decide (c ∈ ids_of l) then Some N_RUNNING else status_of (sc_graph s) c) ∧
    (∀ c, t' !! c = if decide (c ∈ ids_of l) then Some Queued else sc_tasks s !! c) ∧
    ∀ P, count P t' = (length l * weight P Queued + count P (sc_tasks s))%nat.
Proof.
  revert s. induction l as [|n l IH]; intros s Ha Hn Hl; cbn [start_nodes].
  { exists (sc_graph s), (sc_store s), (sc_tasks s). split; [by destruct s|]. split; [done|].
    split; [intros c; by rewrite decide_False by set_solver|].
    split; [intros c; by rewrite decide_False by set_solver|]. done. }
  unfold ids_of in Hn. rewrite fmap_cons, NoDup_cons in Hn. destruct Hn as [Hn Hnd].
  destruct (Hl (node_id n) ltac:(left)) as (Hp & Hdeps & Ht).
  destruct (started_ok (node_id n) now s Ha Hp Hdeps) as (g1 & g' & d' & H1 & H2 & H3 & Ha' & Hst).
  rewrite (bind_Ok _ _ _ _ _ H1), (bind_Ok _ _ _ _ _ H2), (bind_Ok _ _ _ _ _ H3).
  set (s1 := set_tasks (<[node_id n := Queued]> (sc_tasks s)) (set_store d' (set_graph g' s))).
  change (bind (submit (node_id n)) _ _) with (start_nodes dag_id l now s1).
  destruct (IH s1 Ha' Hnd) as (g2 & d2 & t2 & H & Ha2 & Hst2 & Ht2 & Hc2).
  { intros c Hc. assert (Hne : node_id n ≠ c) by (intros <-; done). destruct (Hl c ltac:(by right)) as (Hpc & Hdc & Htc).
    unfold s1. cbn [sc_graph sc_tasks set_tasks set_store set_graph]. split; [by rewrite Hst, decide_False|]. split.
    - intros y Hy. rewrite Hst. rewrite decide_False; [by apply Hdc|]. intros <-. apply Hdc in Hy. congruence.
    - by rewrite lookup_insert_ne. }
  exists g2, d2, t2. split; [exact H|]. split; [done|]. split; [|split].
  - intros c. rewrite Hst2. cbn [sc_graph s1 set_tasks set_store set_graph]. rewrite Hst.
    destruct (decide (c ∈ ids_of l)), (decide (c ∈ ids_of (n :: l))), (decide (node_id n = c)); try done; set_solver.
  - intros c. rewrite Ht2. cbn [sc_tasks s1 set_tasks set_store set_graph].
    destruct (decide (node_id n = c)) as [<-|Hne].
    + rewrite lookup_insert_eq, (decide_True (P := node_id n ∈ ids_of (n :: l))) by left. by case_decide.
    + rewrite lookup_insert_ne by done. destruct (decide (c ∈ ids_of l)), (decide (c ∈ ids_of (n :: l))); try done; set_solver.
  - intros P. rewrite Hc2. cbn [sc_tasks s1 set_tasks set_store set_graph]. rewrite count_insert by done. cbn [length]. lia.
Qed.

Lemma ready_sublist g ns l : ready_among g ns = Ok l → l `sublist_of` ns.*2.
Proof.
  revert l. induction ns as [|[c n] ns IH]; intros l; cbn [ready_among]; [by intros [= <-]|].
  rewrite fmap_cons. destruct (decide _); [intros H; by apply sublist_cons, IH|].
  destruct (all_completed _ _) as [b|]; [|done]. destruct (ready_among g ns) as [l'|]; [|done].
  specialize (IH l' eq_refl). intros [= <-]. destruct b; [by apply sublist_skip|by apply sublist_cons].
Qed.

(** A pass of [_schedule_ready] starts exactly the ready nodes. *)
Lemma schedule_ready_ok now s :
  agrees (sc_graph s) (sc_store s) → sc_stopping s = false →
  (∀ c, status_of (sc_graph s) c = Some N_PENDING → sc_tasks s !! c = None) →
  ∃ l g' d' t', schedule_ready dag_id now s = (Ok tt, set_tasks t' (set_store d' (set_graph g' s))) ∧ agrees g' d' ∧
    NoDup (ids_of l) ∧
    (∀ c, c ∈ ids_of l ↔ status_of (sc_graph s) c = Some N_PENDING ∧ deps_completed nodes (sc_graph s) c) ∧
    (∀ c, status_of g' c = if decide (c ∈ ids_of l) then Some N_RUNNING else status_of (sc_graph s) c) ∧
    (∀ c, t' !! c = if decide (c ∈ ids_of l) then Some Queued else sc_tasks s !! c) ∧
    ∀ P, count P t' = (length l * weight P Queued + count P (sc_tasks s))%nat.
Proof.
  intros Ha Hs Ht. pose proof (ag_run _ _ Ha) as Hi. destruct (get_ready_nodes_eq nodes Hnodup Hclosed _ Hi) as (l & Hl & Hiff).
  assert (Hids : ∀ c, c ∈ ids_of l ↔ status_of (sc_graph s) c = Some N_PENDING ∧ deps_completed nodes (sc_graph s) c).
  { intros c. unfold ids_of. rewrite list_elem_of_fmap. split.
    - intros (n & -> & (Hget & Hp & Hd)%Hiff). split; [|done]. unfold status_of. by rewrite Hget, <-Hp.
    - intros [Hp Hd]. unfold status_of in Hp. destruct (dict_get _ c) as [n|] eqn:En; [|done]. injection Hp as Hp.
      exists n. pose proof (ri_keyed _ _ Hi _ _ En) as <-. split; [done|]. by apply Hiff. }
  assert (Hnd : NoDup (ids_of l)).
  { eapply sublist_NoDup; [|apply fmap_sublist, (ready_sublist _ _ _ Hl)].
    replace (node_id <$> (g_nodes (sc_graph s)).*2) with (g_nodes (sc_graph s)).*1.
    - by rewrite (proj1 (ri_graph _ _ Hi)).
    - rewrite <-list_fmap_compose. apply list_fmap_ext. intros i [c n] Hin. cbn. symmetry. apply (ri_keyed _ _ Hi).
      apply dict_elem_get; [by rewrite (proj1 (ri_graph _ _ Hi))|]. by eapply list_elem_of_lookup_2. }
  destruct (start_nodes_ok l now s Ha Hnd) as (g' & d' & t' & H & Ha' & Hst & Ht' & Hc).
  { intros c [Hp Hd]%Hids. auto. }
  exists l, g', d', t'. split; [|done]. unfold schedule_ready. rewrite bind_get_state, Hs.
  unfold bind, of_result. by rewrite Hl.
Qed.
End agreement.

(** ** The invariant of a run *)

Lemma count_inv P t : (0 < count P t)%nat → ∃ c p, t !! c = Some p ∧ P p = true.
Proof.
  intros H. destruct (map_choose (filter (λ kv, P kv.2 = true) t)) as (c & p & Hc).
  - intros E. unfold count in H. rewrite E, map_size_empty in H. lia.
  - apply map_lookup_filter_Some in Hc as [Hc HP]. eauto.
Qed.

Definition in_slot (p : phase) : bool := match p with Queued => false | _ => true end.
Definition in_session (p : phase) : bool := match p with Laned | Working => true | _ => false end.
Definition in_global (p : phase) : bool := match p with Working => true | _ => false end.
Definition is_queued (p : phase) : bool := match p with Queued => true | _ => false end.
Definition is_slotted (p : phase) : bool := match p with Slotted => true | _ => false end.
Definition is_laned (p : phase) : bool := match p with Laned => true | _ => false end.
Definition is_reporting (p : phase) : bool := match p with Reporting => true | _ => false end.

(** The value of a lane of capacity [cap] of which [held] units are taken and
    [lost] were never given back. *)
Definition lane_inv (lane cap : option Z) (held : nat) (lost : Z) : Prop :=
  match lane, cap with
  | Some v, Some c => 0 ≤ v ∧ v + Z.of_nat held + lost = c
  | None, None => True
  | _, _ => False
  end.

Lemma status_keeps_rows dag_id status completed d :
  ∃ d', update_dag_execution_status dag_id status completed d = (Ok tt, d') ∧ dag_nodes d' = dag_nodes d ∧
    dag_executions d' !! dag_id = set_x_status status completed <$> dag_executions d !! dag_id.
Proof.
  unfold update_dag_execution_status, bind, update_execution. destruct (dag_executions d !! dag_id) as [x|] eqn:E.
  - eexists. split; [done|]. split; [done|]. cbn. by rewrite lookup_insert_eq.
  - exists d. by rewrite E.
Qed.

Section invariant.
Context (K : gset string) (dag_id : string) (nodes : list DAGNode).
Context (Hnodup : NoDup (ids_of nodes)) (Hclosed : closed nodes).
Context (cap : Z) (scap gcap : option Z).

Record sched_inv (lost : Z) (s : sched) : Prop := {
  si_agrees : agrees K dag_id nodes (sc_graph s) (sc_store s);
  si_active c p : sc_tasks s !! c = Some p → p ≠ Reporting → status_of (sc_graph s) c = Some N_RUNNING;
  si_reporting c : sc_tasks s !! c = Some Reporting → ∃ st, status_of (sc_graph s) c = Some st ∧ terminal st = true;
  si_slots : 0 ≤ sc_slots s ∧ sc_slots s + Z.of_nat (count in_slot (sc_tasks s)) = cap;
  si_session : lane_inv (sc_session s) scap (count in_session (sc_tasks s)) lost;
  si_global : lane_inv (sc_global s) gcap (count in_global (sc_tasks s)) 0;
}.
(** Without lost cancellations: every running node has a task, and a run
    without tasks has been completed. *)
Record calm_inv (s : sched) : Prop := {
  ci_inv : sched_inv 0 s;
  ci_running c : status_of (sc_graph s) c = Some N_RUNNING → ∃ p, sc_tasks s !! c = Some p ∧ p ≠ Reporting;
  ci_done : sc_tasks s = ∅ → sc_completion s = true;
  ci_complete : sc_completion s = true → is_complete (sc_graph s) = true;
  ci_going : sc_stopping s = false;
}.

(** The units of the session lane an event loses. *)
Definition lost_by (s : sched) (e : event) : Z :=
  match e with CancelTask nid _ => if at_phase s nid Laned then 1 else 0 | _ => 0 end.
(** The events that keep the run alive: no cancellation of a task that has no
    slot, holds a lane but not the next, or waits for the fan-out. *)
Definition calm (s : sched) (e : event) : bool :=
  match e with
  | CancelTask nid _ => at_phase s nid Slotted || at_phase s nid Working
  | StopRun | CancelRow _ _ _ | CancelExecution _ => false
  | _ => true
  end.
(** The events of the run itself, each of which leaves less to do. *)
Definition advances (e : event) : bool :=
  match e with StopRun | CancelRow _ _ _ | CancelExecution _ => false | _ => true end.

(** What is left to do. *)
Definition pending_nodes (g : DAG) : list string := filter (λ c, status_of g c = Some N_PENDING) (ids_of nodes).
Definition tasks_rank (t : gmap string phase) : nat :=
  (5 * count is_queued t + 4 * count is_slotted t + 3 * count is_laned t + 2 * count in_global t +
   count is_reporting t)%nat.
Definition rank (s : sched) : nat := (6 * length (pending_nodes (sc_graph s)) + tasks_rank (sc_tasks s))%nat.
Definition phase_rank (p : phase) : nat :=
  match p with Queued => 5 | Slotted => 4 | Laned => 3 | Working => 2 | Reporting => 1 end.

Lemma tasks_rank_update t c p q :
  t !! c = Some p → (tasks_rank (<[c := q]> t) + phase_rank p = tasks_rank t + phase_rank q)%nat.
Proof.
  intros Hc. pose proof (λ P, count_update P t c p q Hc) as H. unfold tasks_rank.
  pose proof (H is_queued). pose proof (H is_slotted). pose proof (H is_laned). pose proof (H in_global).
  pose proof (H is_reporting). clear H. unfold weight in *.
  destruct p, q; cbn in *; lia.
Qed.
Lemma tasks_rank_delete t c p : t !! c = Some p → (tasks_rank (delete c t) + phase_rank p = tasks_rank t)%nat.
Proof.
  intros Hc. pose proof (λ P, count_delete P t c p Hc) as H. unfold tasks_rank.
  pose proof (H is_queued). pose proof (H is_slotted). pose proof (H is_laned). pose proof (H in_global).
  pose proof (H is_reporting). clear H. unfold weight in *.
  destruct p; cbn in *; lia.
Qed.
Lemma pending_started g g' (l : list string) :
  NoDup l → (∀ c, c ∈ l → status_of g c = Some N_PENDING ∧ status_of g' c ≠ Some N_PENDING ∧ c ∈ ids_of nodes) →
  (∀ c, status_of g' c = Some N_PENDING → status_of g c = Some N_PENDING) →
  (length (pending_nodes g') + length l ≤ length (pending_nodes g))%nat.
Proof.
  intros Hl Hin Hle. rewrite <-length_app. apply submseteq_length, NoDup_submseteq.
  - apply NoDup_app. split; [by apply NoDup_filter|]. split; [|done].
    intros c [Hc _]%list_elem_of_filter Hcl. by apply Hin in Hcl as (_ & ? & _).
  - intros c [[Hp Hc]%list_elem_of_filter|Hc]%elem_of_app; apply list_elem_of_filter.
    + auto.
    + apply Hin in Hc as (? & _ & ?). done.
Qed.

Lemma complete_status g c st :
  run_inv nodes g → is_complete g = true → status_of g c = Some st → terminal st = true.
Proof.
  intros Hi Hc. unfold status_of. destruct (dict_get (g_nodes g) c) as [n|] eqn:E; [|done]. intros [= <-].
  unfold is_complete in Hc. rewrite forallb_Forall, Forall_forall in Hc. apply dict_get_elem in E. exact (Hc _ E).
Qed.
(** When nothing runs and the graph is not complete, a node is ready. *)
Lemma idle_ready g :
  (∀ x, ¬ tc (node_depends nodes) x x) → run_inv nodes g → is_complete g = false →
  (∀ c, status_of g c ≠ Some N_RUNNING) → ∃ c, status_of g c = Some N_PENDING ∧ deps_completed nodes g c.
Proof.
  intros Ha Hi Hc Hr. assert (Hp : ∃ c, status_of g c = Some N_PENDING).
  { unfold is_complete in Hc. apply not_true_iff_false in Hc. rewrite forallb_Forall in Hc.
    apply not_Forall_Exists in Hc; [|intros y; apply _]. apply Exists_exists in Hc as ([c n] & Hin & Hn).
    apply dict_elem_get in Hin; [|by rewrite (proj1 (ri_graph _ _ Hi))]. exists c.
    assert (Hs : status_of g c = Some (n_status n)) by (unfold status_of; by rewrite Hin).
    rewrite Hs. cbn in Hn. destruct (n_status n); try done; [by apply (ri_ready _ _ Hi) in Hs|by apply Hr in Hs]. }
  destruct Hp as [c Hp]. by apply (first_waiting nodes Hnodup Hclosed g c).
Qed.

(** A task that takes a semaphore. *)
Lemma moved_inv lost s nid p q slots v w :
  sched_inv lost s → sc_tasks s !! nid = Some p → p ≠ Reporting → q ≠ Reporting →
  let t := <[nid := q]> (sc_tasks s) in
  0 ≤ slots → slots + Z.of_nat (count in_slot t) = cap → lane_inv v scap (count in_session t) lost →
  lane_inv w gcap (count in_global t) 0 →
  sched_inv lost (set_tasks t (set_lanes v w (set_slots slots s))).
Proof.
  intros Hi Ht Hp Hq t Hs Hc Hv Hw. split; cbn; try done; [apply Hi| |].
  - intros c r. unfold t. rewrite lookup_insert. case_decide; [intros [= <-] _; subst; by eapply si_active|by apply Hi].
  - intros c. unfold t. rewrite lookup_insert. case_decide; [by intros [= ->]|by apply Hi].
Qed.
Lemma moved_calm s nid p q slots v w :
  calm_inv s → sc_tasks s !! nid = Some p → p ≠ Reporting → q ≠ Reporting →
  let s' := set_tasks (<[nid := q]> (sc_tasks s)) (set_lanes v w (set_slots slots s)) in
  sched_inv 0 s' → calm_inv s'.
Proof.
  intros Hi Ht Hp Hq s' Hs'. split; cbn; try done; [|intros H; by apply insert_non_empty in H|apply Hi|apply Hi].
  intros c (r & Hr & Hr')%(ci_running _ Hi). rewrite lookup_insert. case_decide; eauto.
Qed.

(** A node that ended, whose task still has its slot. *)
Lemma ended_inv lost lost' s s1 nid p g' d' ev :
  sched_inv lost s → sc_tasks s !! nid = Some p → p ∉ [Queued; Reporting] →
  agrees K dag_id nodes g' d' → ended_node nid (sc_graph s) g' →
  sc_tasks s1 = sc_tasks s → sc_slots s1 = sc_slots s →
  lane_inv (sc_session s1) scap (count in_session (<[nid := Reporting]> (sc_tasks s))) lost' →
  lane_inv (sc_global s1) gcap (count in_global (<[nid := Reporting]> (sc_tasks s))) 0 →
  sched_inv lost' (set_tasks (<[nid := Reporting]> (sc_tasks s1)) (add_event ev (set_store d' (set_graph g' s1)))).
Proof.
  intros Hi Ht Hp Ha (Hnid & Hkeep & _) Hts Hsl Hv Hw. split; cbn; rewrite ?Hts; try done.
  - intros c r. rewrite lookup_insert. case_decide; [by intros [= <-]|]. intros Hc Hr.
    apply Hkeep; [done|by eapply si_active|done].
  - intros c. rewrite lookup_insert. case_decide; [by intros; subst|].
    intros (st & Hst & Hter)%(si_reporting _ _ Hi). exists st. split; [|done]. apply Hkeep; [done|done|by intros ->].
  - rewrite Hsl. destruct (si_slots _ _ Hi) as [H0 H1]. split; [done|]. rewrite <-H1.
    pose proof (count_update in_slot _ _ _ Reporting Ht) as H. unfold weight in H.
    assert (in_slot p = true) as E by (destruct p; [set_solver|done..]). rewrite E in H. cbn in H. lia.
Qed.
Lemma ended_calm s s1 nid p g' d' ev :
  calm_inv s → sc_tasks s !! nid = Some p → p ≠ Reporting → ended_node nid (sc_graph s) g' →
  sc_tasks s1 = sc_tasks s → sc_completion s1 = sc_completion s → sc_stopping s1 = sc_stopping s →
  let s' := set_tasks (<[nid := Reporting]> (sc_tasks s1)) (add_event ev (set_store d' (set_graph g' s1))) in
  sched_inv 0 s' → calm_inv s'.
Proof.
  intros Hi Ht Hp (_ & _ & Hst) Hts Hc Hg s' Hs'. pose proof (si_active _ _ (ci_inv _ Hi) nid p Ht Hp) as Hr.
  split; cbn; rewrite ?Hts, ?Hc, ?Hg; try done; [|intros H; by apply insert_non_empty in H| |apply Hi].
  - intros c [|[Hne Hc']]%Hst; [done|]. apply (ci_running _ Hi) in Hc' as (r & Hr' & ?). exists r.
    by rewrite lookup_insert_ne.
  - intros Hd%(ci_complete _ Hi). pose proof (complete_status _ _ _ (ag_run _ _ _ _ _ (si_agrees _ _ (ci_inv _ Hi))) Hd Hr). done.
Qed.

(** A task that ends with its slot. *)
Definition left_task (nid : string) (s : sched) : sched :=
  set_tasks (delete nid (sc_tasks s)) (set_slots (sc_slots s + 1) s).
Lemma left_inv lost s nid : sched_inv lost s → sc_tasks s !! nid = Some Reporting → sched_inv lost (left_task nid s).
Proof.
  intros Hi Ht. pose proof (λ P, count_delete P _ _ _ Ht) as Hc. unfold weight in Hc. split; cbn.
  - apply Hi.
  - intros c p. rewrite lookup_delete. case_decide; [done|]. apply Hi.
  - intros c. rewrite lookup_delete. case_decide; [done|]. apply Hi.
  - pose proof (Hc in_slot) as H. cbn in H. pose proof (si_slots _ _ Hi). lia.
  - pose proof (Hc in_session) as H. cbn in H. rewrite Nat.add_0_r in H. rewrite H. apply Hi.
  - pose proof (Hc in_global) as H. cbn in H. rewrite Nat.add_0_r in H. rewrite H. apply Hi.
Qed.

(** Tasks for the ready nodes. *)
Lemma scheduled_inv lost s l g' d' t' :
  sched_inv lost s → agrees K dag_id nodes g' d' →
  (∀ c, c ∈ l ↔ status_of (sc_graph s) c = Some N_PENDING ∧ deps_completed nodes (sc_graph s) c) →
  (∀ c, status_of g' c = if decide (c ∈ l) then Some N_RUNNING else status_of (sc_graph s) c) →
  (∀ c, t' !! c = if decide (c ∈ l) then Some Queued else sc_tasks s !! c) →
  (∀ P, count P t' = (length l * weight P Queued + count P (sc_tasks s))%nat) →
  sched_inv lost (set_tasks t' (set_store d' (set_graph g' s))).
Proof.
  intros Hi Ha Hl Hst Ht Hc. split; cbn; [done| | | | |].
  - intros c p. rewrite Ht, Hst. case_decide; [done|]. apply Hi.
  - intros c. rewrite Ht, Hst. case_decide; [done|]. apply Hi.
  - rewrite Hc. unfold weight, in_slot. rewrite Nat.mul_0_r. apply Hi.
  - rewrite Hc. unfold weight, in_session. rewrite Nat.mul_0_r. apply Hi.
  - rewrite Hc. unfold weight, in_global. rewrite Nat.mul_0_r. apply Hi.
Qed.
Lemma waiting_free lost s c : sched_inv lost s → status_of (sc_graph s) c = Some N_PENDING → sc_tasks s !! c = None.
Proof.
  intros Hi Hp. destruct (sc_tasks s !! c) as [p|] eqn:E; [exfalso|done]. destruct (decide (p = Reporting)) as [->|Hne].
  - apply (si_reporting _ _ Hi) in E as (st & Hst & Hter). rewrite Hp in Hst. injection Hst as <-. done.
  - apply (si_active _ _ Hi) in E; [congruence|done].
Qed.

(** The second half of [on_node_complete]. *)
Lemma reported_ok lost s now :
  sched_inv lost s →
  ∃ s', node_reported dag_id now s = (Ok tt, s') ∧ sched_inv lost s' ∧
    (∀ c, sc_tasks s !! c = Some Reporting → sc_tasks s' !! c = Some Reporting) ∧ (rank s' ≤ rank s)%nat ∧
    (calm_inv s → (∀ x, ¬ tc (node_depends nodes) x x) →
     (∀ c, status_of (sc_graph s') c = Some N_RUNNING → ∃ p, sc_tasks s' !! c = Some p ∧ p ≠ Reporting) ∧
     (sc_completion s' = true → is_complete (sc_graph s') = true) ∧ sc_stopping s' = false ∧
     ((∀ c p, sc_tasks s' !! c = Some p → p = Reporting) → sc_completion s' = true)).
Proof.
  intros Hi. unfold node_reported. rewrite bind_get_state. pose proof (si_agrees _ _ Hi) as Ha.
  destruct (is_complete (sc_graph s)) eqn:Hc.
  { exists (set_completion s). split; [done|]. split; [by destruct Hi; split|]. split; [done|]. split; [done|].
    intros Hci _. split; [apply Hci|]. by split; [|split; [apply Hci|]]. }
  destruct (sc_stopping s) eqn:Hs; cbn [negb].
  { exists s. split; [done|]. split; [done|]. split; [done|]. split; [done|]. intros Hci. by rewrite (ci_going _ Hci) in Hs. }
  destruct (schedule_ready_ok K dag_id nodes Hnodup Hclosed now s Ha Hs) as (l & g' & d' & t' & H & Ha' & Hnd & Hl & Hst & Ht & Hcnt).
  { intros c. by apply (waiting_free lost). }
  eexists. split; [exact H|]. cbn [sc_tasks sc_graph sc_completion sc_stopping set_tasks set_store set_graph].
  split; [eapply (scheduled_inv lost s (ids_of l)); try done; intros P; unfold ids_of; by rewrite Hcnt, length_fmap|]. split.
  { intros c Hr. rewrite Ht. rewrite decide_False; [done|]. intros [Hp _]%Hl. by rewrite (waiting_free _ _ _ Hi Hp) in Hr. }
  split.
  { assert (Hlen : (length (pending_nodes g') + length l ≤ length (pending_nodes (sc_graph s)))%nat).
    { rewrite <-(length_fmap node_id l). apply pending_started; [done| |].
      - intros c Hin. split; [by apply Hl|]. rewrite Hst, decide_True by done. split; [done|].
        apply Hl in Hin as [Hp _]. exact (running_known nodes _ _ _ (ag_run _ _ _ _ _ Ha) Hp).
      - intros c. rewrite Hst. by case_decide. }
    unfold rank, tasks_rank. cbn [sc_graph sc_tasks set_tasks set_store set_graph]. rewrite !Hcnt. cbn [weight]. unfold weight. cbn. lia. }
  intros Hci Hacyc. split; [|split; [|split; [done|]]].
  - intros c. rewrite Hst, Ht. case_decide; [by exists Queued|apply Hci].
  - intros Hd%(ci_complete _ Hci). congruence.
  - intros Hall. exfalso. destruct (idle_ready (sc_graph s) Hacyc (ag_run _ _ _ _ _ Ha) Hc) as (c & Hp & Hd).
    + intros c (p & Hp & Hne)%(ci_running _ Hci). apply Hne, (Hall c). rewrite Ht, decide_False; [done|].
      intros [Hpe _]%Hl. by rewrite (waiting_free _ _ _ Hi Hpe) in Hp.
    + assert (Hin : c ∈ ids_of l) by (by apply Hl). specialize (Hall c Queued). rewrite Ht, decide_True in Hall by done.
      by specialize (Hall eq_refl).
Qed.

(** ** Every event keeps the invariant *)

Definition ended_state (nid : string) (s1 : sched) (g' : DAG) (d' : dag_db) (ev : string * string * option string) : sched :=
  set_tasks (<[nid := Reporting]> (sc_tasks s1)) (add_event ev (set_store d' (set_graph g' s1))).
Lemma ends_shape nid err now s s1 :
  agrees K dag_id nodes (sc_graph s) (sc_store s) → status_of (sc_graph s) nid = Some N_RUNNING →
  sc_graph s1 = sc_graph s → sc_store s1 = sc_store s →
  ∃ g' d' ev, (node_ended dag_id nid err now ;;; set_phase nid Reporting) s1 = (Ok tt, ended_state nid s1 g' d' ev) ∧
    agrees K dag_id nodes g' d' ∧ ended_node nid (sc_graph s) g'.
Proof.
  intros Ha Hr Hg Hd. rewrite <-Hg, <-Hd in Ha. rewrite <-Hg in Hr |- *.
  destruct (node_ended_ok K dag_id nodes Hnodup Hclosed nid err now s1 Ha Hr) as (g' & d' & ev & H & Ha' & He).
  exists g', d', ev. split; [|done]. by rewrite (bind_Ok _ _ _ _ _ H).
Qed.

(** The state in which a worker's end reaches [on_complete]. *)
Definition worker_out (nid : string) (o : outcome) (s : sched) : sched :=
  ((record_outputs nid o ;;; release_lanes ;;; count_outcome o) s).2.
Definition released (s : sched) : sched := set_lanes (Z.succ <$> sc_session s) (Z.succ <$> sc_global s) s.
Lemma worker_out_fields nid o s :
  let s1 := worker_out nid o s in
  (∀ now, perform dag_id (WorkerEnds nid o now) s =
     (node_ended dag_id nid (worker_error o) now ;;; set_phase nid Reporting) s1) ∧
  sc_graph s1 = sc_graph s ∧ sc_store s1 = sc_store s ∧ sc_tasks s1 = sc_tasks s ∧ sc_slots s1 = sc_slots s ∧
  sc_session s1 = sc_session (released s) ∧ sc_global s1 = sc_global (released s) ∧
  sc_completion s1 = sc_completion s ∧ sc_stopping s1 = sc_stopping s.
Proof. destruct o as [[[] ? ? ?]|?|]; cbn; repeat split. Qed.

Lemma lane_take lane c held held' lost :
  lane_inv lane c held lost → lane_free lane = true → held' = S held → lane_inv (Z.pred <$> lane) c held' lost.
Proof. intros H Hf ->. destruct lane as [v|], c as [c|]; cbn in *; try done. apply Z.ltb_lt in Hf. lia. Qed.
Lemma lane_release lane c held held' lost :
  lane_inv lane c held lost → held = S held' → lane_inv (Z.succ <$> lane) c held' lost.
Proof. intros H ->. destruct lane as [v|], c as [c|]; cbn in *; try done. lia. Qed.
Lemma lane_lost lane c held held' lost : lane_inv lane c held lost → held = S held' → lane_inv lane c held' (lost + 1).
Proof. intros H ->. destruct lane as [v|], c as [c|]; cbn in *; try done. lia. Qed.
Lemma lane_kept lane c held held' lost : lane_inv lane c held lost → held = held' → lane_inv lane c held' lost.
Proof. by intros ? <-. Qed.

(** The events of a task that ended, by the phase it was in. *)
Lemma ended_core lost s s1 nid p g' d' ev k :
  sched_inv lost s → sc_tasks s !! nid = Some p → p ∉ [Queued; Reporting] →
  agrees K dag_id nodes g' d' → ended_node nid (sc_graph s) g' → sc_tasks s1 = sc_tasks s → sc_slots s1 = sc_slots s →
  (p = Slotted ∧ k = 0 ∧ sc_session s1 = sc_session s ∧ sc_global s1 = sc_global s ∨
   p = Laned ∧ k = 1 ∧ sc_session s1 = sc_session s ∧ sc_global s1 = sc_global s ∨
   p = Working ∧ k = 0 ∧ sc_session s1 = sc_session (released s) ∧ sc_global s1 = sc_global (released s)) →
  sched_inv (lost + k) (ended_state nid s1 g' d' ev) ∧ (rank (ended_state nid s1 g' d' ev) < rank s)%nat.
Proof.
  intros Hi Ht Hp Ha He Hts Hsl Hk. split.
  - pose proof (count_update in_session _ _ _ Reporting Ht) as Hss. pose proof (count_update in_global _ _ _ Reporting Ht) as Hgg.
    pose proof (si_session _ _ Hi) as Hse. pose proof (si_global _ _ Hi) as Hgl.
    eapply (ended_inv lost); try done; destruct Hk as [(-> & -> & E1 & E2)|[(-> & -> & E1 & E2)|(-> & -> & E1 & E2)]];
      unfold weight in *; cbn in Hss, Hgg; rewrite ?E1, ?E2, ?Z.add_0_r.
    + eapply lane_kept; [done|lia].
    + eapply lane_lost; [done|lia].
    + eapply lane_release; [done|lia].
    + eapply lane_kept; [done|lia].
    + eapply lane_kept; [done|lia].
    + eapply lane_release; [done|lia].
  - unfold rank, ended_state. cbn [sc_graph sc_tasks set_tasks add_event set_store set_graph]. rewrite Hts.
    pose proof (tasks_rank_update _ _ _ Reporting Ht) as Hr.
    assert (Hpr : (phase_rank Reporting < phase_rank p)%nat) by (destruct p; cbn; [lia..|set_solver]).
    pose proof (pending_started (sc_graph s) g' [] (NoDup_nil_2) ltac:(set_solver)) as Hpe. cbn in Hpe.
    assert (Hle : ∀ c, status_of g' c = Some N_PENDING → status_of (sc_graph s) c = Some N_PENDING).
    { destruct He as (_ & _ & He). intros c [|[_ ?]]%He; done. }
    specialize (Hpe Hle). lia.
Qed.

Lemma at_phase_true s nid p : at_phase s nid p = true ↔ sc_tasks s !! nid = Some p.
Proof. unfold at_phase. by rewrite bool_decide_eq_true. Qed.

(** The events of a task that takes a semaphore. *)
Definition taken (nid : string) (q : phase) (slots : Z) (v w : option Z) (s : sched) : sched :=
  set_tasks (<[nid := q]> (sc_tasks s)) (set_lanes v w (set_slots slots s)).
Lemma taken_core lost s nid p q slots v w :
  sched_inv lost s → sc_tasks s !! nid = Some p → (phase_rank q < phase_rank p)%nat → q ≠ Reporting →
  (p = Queued ∧ q = Slotted ∧ 0 < sc_slots s ∧ slots = sc_slots s - 1 ∧ v = sc_session s ∧ w = sc_global s ∨
   p = Slotted ∧ q = Laned ∧ lane_free (sc_session s) = true ∧ slots = sc_slots s ∧ v = Z.pred <$> sc_session s ∧
     w = sc_global s ∨
   p = Laned ∧ q = Working ∧ lane_free (sc_global s) = true ∧ slots = sc_slots s ∧ v = sc_session s ∧
     w = Z.pred <$> sc_global s) →
  sched_inv lost (taken nid q slots v w s) ∧ (rank (taken nid q slots v w s) < rank s)%nat.
Proof.
  intros Hi Ht Hr Hq Hk. split.
  - pose proof (count_update in_slot _ _ _ q Ht) as H1. pose proof (count_update in_session _ _ _ q Ht) as H2.
    pose proof (count_update in_global _ _ _ q Ht) as H3. pose proof (si_slots _ _ Hi). pose proof (si_session _ _ Hi).
    pose proof (si_global _ _ Hi). unfold weight in *.
    destruct Hk as [(-> & -> & Hf & -> & -> & ->)|[(-> & -> & Hf & -> & -> & ->)|(-> & -> & Hf & -> & -> & ->)]];
      cbn in H1, H2, H3; apply (moved_inv lost s nid _ _ _ _ _ Hi Ht); try done; try lia;
      first [eapply lane_kept; [done|lia] | eapply lane_take; [done|done|lia]].
  - unfold rank, taken. cbn [sc_graph sc_tasks set_tasks set_lanes set_slots].
    pose proof (tasks_rank_update _ _ _ q Ht). lia.
Qed.

Lemma cancel_core lost s nid now p :
  sched_inv lost s → sc_tasks s !! nid = Some p →
  ∃ s', cancel_task dag_id nid now s = (Ok tt, s') ∧ sched_inv (lost + lost_by s (CancelTask nid now)) s' ∧
    (rank s' < rank s)%nat.
Proof.
  intros Hi Ht. unfold cancel_task. rewrite bind_get_state, Ht. pose proof (si_agrees _ _ Hi) as Ha.
  unfold lost_by, at_phase. rewrite Ht.
  assert (Hrun : p ≠ Reporting → status_of (sc_graph s) nid = Some N_RUNNING) by (by apply (si_active _ _ Hi)).
  pose proof (tasks_rank_delete _ _ _ Ht) as Hrank. destruct p; cbn [bool_decide decide decide_rel].
  - eexists. split; [reflexivity|]. pose proof (λ P, count_delete P _ _ _ Ht) as Hc. unfold weight in Hc.
    pose proof (Hc in_slot) as C1. pose proof (Hc in_session) as C2. pose proof (Hc in_global) as C3. cbn in C1, C2, C3.
    rewrite (bool_decide_eq_false_2 (Some Queued = Some Laned)) by done. rewrite Z.add_0_r. split.
    + split; cbn; [apply Hi| | | | |].
      * intros c p. rewrite lookup_delete. case_decide; [done|]. apply Hi.
      * intros c. rewrite lookup_delete. case_decide; [done|]. apply Hi.
      * pose proof (si_slots _ _ Hi). lia.
      * eapply lane_kept; [apply Hi|lia].
      * eapply lane_kept; [apply Hi|lia].
    + unfold rank. cbn in *. lia.
  - destruct (ends_shape nid (Some "Cancelled") now s s Ha) as (g' & d' & ev & H & Ha' & He); [by apply Hrun|done|done|].
    eexists. split; [exact H|]. rewrite (bool_decide_eq_false_2 (Some Slotted = Some Laned)) by done.
    eapply ended_core; try done; [set_solver|]. by left.
  - destruct (ends_shape nid (Some "Cancelled") now s s Ha) as (g' & d' & ev & H & Ha' & He); [by apply Hrun|done|done|].
    eexists. split; [exact H|]. rewrite (bool_decide_eq_true_2 (Some Laned = Some Laned)) by done.
    eapply ended_core; try done; [set_solver|]. by right; left.
  - destruct (ends_shape nid (Some "Cancelled") now s (released s) Ha) as (g' & d' & ev & H & Ha' & He);
      [by apply Hrun|done|done|].
    eexists. split; [exact H|]. rewrite (bool_decide_eq_false_2 (Some Working = Some Laned)) by done.
    eapply ended_core; try done; [set_solver|]. by right; right.
  - exists (left_task nid s). split; [done|].
    rewrite (bool_decide_eq_false_2 (Some Reporting = Some Laned)), Z.add_0_r by done. split; [by apply left_inv|].
    unfold rank, left_task. cbn in *. lia.
Qed.

(** An enabled event returns, keeps the invariant and leaves less to do. *)
Lemma perform_core lost s e :
  sched_inv lost s → enabled s e = true → writes_in K e →
  ∃ s', perform dag_id e s = (Ok tt, s') ∧ sched_inv (lost + lost_by s e) s' ∧ (advances e = true → (rank s' < rank s)%nat).
Proof.
  intros Hi He Hk. destruct e as [nid|nid|nid|nid o now|nid now|nid now| |nid err now|now]; cbn [enabled] in He;
    try (apply andb_true_iff in He as [Ht Hf]; apply at_phase_true in Ht); try (apply at_phase_true in He);
    cbn [lost_by]; rewrite ?Z.add_0_r.
  - exists (taken nid Slotted (sc_slots s - 1) (sc_session s) (sc_global s) s). split; [done|]. apply Z.ltb_lt in Hf.
    destruct (taken_core lost s nid Queued Slotted (sc_slots s - 1) (sc_session s) (sc_global s) Hi Ht) as [? ?];
      [cbn; lia|done|by left|done].
  - exists (taken nid Laned (sc_slots s) (Z.pred <$> sc_session s) (sc_global s) s). split; [done|].
    destruct (taken_core lost s nid Slotted Laned (sc_slots s) (Z.pred <$> sc_session s) (sc_global s) Hi Ht) as [? ?];
      [cbn; lia|done|by right; left|done].
  - exists (taken nid Working (sc_slots s) (sc_session s) (Z.pred <$> sc_global s) s). split; [done|].
    destruct (taken_core lost s nid Laned Working (sc_slots s) (sc_session s) (Z.pred <$> sc_global s) Hi Ht) as [? ?];
      [cbn; lia|done|by right; right|done].
  - destruct (worker_out_fields nid o s) as (Hpf & Hg & Hd & Hts & Hsl & Hse & Hgl & _).
    destruct (ends_shape nid (worker_error o) now s (worker_out nid o s) (si_agrees _ _ Hi)) as (g' & d' & ev & H & Ha & Hn);
      [by apply (si_active _ _ Hi nid Working)|done|done|].
    rewrite Hpf, H. eexists. split; [done|].
    destruct (ended_core lost s (worker_out nid o s) nid Working g' d' ev 0) as [H1 H2]; try done; [set_solver|by right; right|].
    rewrite Z.add_0_r in H1. done.
  - destruct (reported_ok lost s now Hi) as (s' & H & Hi' & Hrep & Hrank & _). apply Hrep in He as Hn.
    exists (left_task nid s'). split; [cbn [perform]; by rewrite (bind_Ok _ _ _ _ _ H)|]. split; [by apply left_inv|].
    intros _. pose proof (tasks_rank_delete _ _ _ Hn). unfold rank in *. cbn in *. lia.
  - unfold is_some in He. destruct (sc_tasks s !! nid) as [p|] eqn:Ht; [|done].
    destruct (cancel_core lost s nid now p Hi Ht) as (s' & H & Hi' & Hr). exists s'. split; [exact H|]. by split.
  - exists (set_stopping s). split; [done|]. split; [|done]. by destruct Hi; split.
  - pose proof (si_agrees _ _ Hi) as [Hri Hids Hag].
    destruct (store_any dag_id nodes Hnodup nid N_CANCELLED err now (sc_store s) Hids) as (d' & Hd & Hids' & Hsd).
    exists (set_store d' s). split; [by apply on_dag_store_eq|]. split; [|done]. destruct Hi. split; cbn; try done.
    split; [done|done|]. intros c. rewrite Hsd. case_decide as Hc; [|apply Hag]. destruct Hc as [-> _]. by right.
  - destruct (status_keeps_rows dag_id "cancelled" (Some now) (sc_store s)) as (d' & Hd & Hrows & _).
    exists (set_store d' s). split; [by apply on_dag_store_eq|]. split; [|done]. pose proof (si_agrees _ _ Hi) as [Hri Hids Hag].
    destruct Hi. split; cbn; try done.
    assert (Hr : rows_of dag_id d' = rows_of dag_id (sc_store s)) by (unfold rows_of; by rewrite Hrows).
    split; [done|by rewrite Hr|]. intros c. unfold stored. rewrite Hr. apply Hag.
Qed.

(** ** Runs without lost cancellations *)

Context (Hacyclic : ∀ x, ¬ tc (node_depends nodes) x x).

Lemma perform_calm s e s' : calm_inv s → enabled s e = true → calm s e = true → perform dag_id e s = (Ok tt, s') → calm_inv s'.
Proof.
  intros Hc He Hcalm Hp. pose proof (ci_inv _ Hc) as Hi.
  assert (Hw : writes_in K e) by (by destruct e).
  destruct (perform_core 0 s e Hi He Hw) as (s'' & Hp' & Hi' & _). rewrite Hp in Hp'. injection Hp' as <-.
  assert (Hl : lost_by s e = 0).
  { destruct e as [| | | | |nid now| | |]; try done. cbn in *. unfold at_phase in *.
    destruct (sc_tasks s !! nid) as [[]|]; done. }
  rewrite Hl in Hi'. cbn in Hi'.
  destruct e as [nid|nid|nid|nid o now|nid now|nid now| | |]; cbn [enabled calm] in He, Hcalm; [..|done|done|done];
    try (apply andb_true_iff in He as [Ht Hf]; apply at_phase_true in Ht); try (apply at_phase_true in He as Ht).
  - injection Hp as <-. eapply (moved_calm s nid Queued Slotted (sc_slots s - 1) (sc_session s) (sc_global s)); done.
  - injection Hp as <-. eapply (moved_calm s nid Slotted Laned (sc_slots s) (Z.pred <$> sc_session s) (sc_global s)); done.
  - injection Hp as <-. eapply (moved_calm s nid Laned Working (sc_slots s) (sc_session s) (Z.pred <$> sc_global s)); done.
  - destruct (worker_out_fields nid o s) as (Hpf & Hg & Hd & Hts & _ & _ & _ & Hco & Hst).
    destruct (ends_shape nid (worker_error o) now s (worker_out nid o s) (si_agrees _ _ Hi)) as (g' & d' & ev & H & Ha & Hn);
      [by apply (si_active _ _ Hi nid Working)|done|done|].
    rewrite Hpf, H in Hp. injection Hp as <-. by eapply (ended_calm s (worker_out nid o s) nid Working).
  - destruct (reported_ok 0 s now Hi) as (s1 & H & _ & Hrep & _ & Hall). apply Hrep in Ht as Hn.
    destruct (Hall Hc Hacyclic) as (Hrun & Hcom & Hgo & Hdone). clear Hall.
    cbn [perform] in Hp. rewrite (bind_Ok _ _ _ _ _ H) in Hp. injection Hp as <-. split; cbn; try done.
    + intros c (p & Hp & Hne)%Hrun. exists p. rewrite lookup_delete_ne; [done|]. intros ->. congruence.
    + intros Hemp. apply Hdone. intros c p Hc'. destruct (decide (nid = c)) as [->|Hne]; [congruence|].
      rewrite <-(lookup_delete_ne _ nid c) in Hc' by done. by rewrite Hemp in Hc'.
  - assert (Hk : sc_tasks s !! nid = Some Slotted ∨ sc_tasks s !! nid = Some Working).
    { apply orb_true_iff in Hcalm as [H|H]; apply at_phase_true in H; auto. }
    cbn [perform] in Hp. unfold cancel_task in Hp. rewrite bind_get_state in Hp. destruct Hk as [Ht|Ht]; rewrite Ht in Hp.
    + destruct (ends_shape nid (Some "Cancelled") now s s (si_agrees _ _ Hi)) as (g' & d' & ev & H & Ha & Hn);
        [by apply (si_active _ _ Hi nid Slotted)|done|done|].
      rewrite H in Hp. injection Hp as <-. by eapply (ended_calm s s nid Slotted).
    + destruct (ends_shape nid (Some "Cancelled") now s (released s) (si_agrees _ _ Hi)) as (g' & d' & ev & H & Ha & Hn);
        [by apply (si_active _ _ Hi nid Working)|done|done|].
      change ((node_ended dag_id nid (Some "Cancelled") now ;;; set_phase nid Reporting) (released s) = (Ok tt, s')) in Hp.
      rewrite H in Hp. injection Hp as <-. by eapply (ended_calm s (released s) nid Working).
Qed.

Definition lane_cap_ok (c : option Z) : Prop := match c with Some v => 1 ≤ v | None => True end.
Lemma lane_idle lane c : lane_inv lane c 0 0 → lane_cap_ok c → lane_free lane = true.
Proof. destruct lane as [v|], c as [c|]; cbn; try done. intros [_ <-] H. apply Z.ltb_lt. lia. Qed.

(** A task that is not done can always go on, or another can. *)
Lemma calm_progress s :
  calm_inv s → 1 ≤ cap → lane_cap_ok scap → lane_cap_ok gcap → sc_tasks s ≠ ∅ →
  ∃ e, enabled s e = true ∧ calm s e = true.
Proof.
  intros Hc Hcap Hs Hg Hne. pose proof (ci_inv _ Hc) as Hi.
  assert (Hsome : ∀ P, count P (sc_tasks s) ≠ 0%nat → ∃ c p, sc_tasks s !! c = Some p ∧ P p = true).
  { intros P Hn. apply count_inv. lia. }
  destruct (decide (count in_global (sc_tasks s) = 0%nat)) as [Hw|(c & p & Ht & Hp)%Hsome].
  2: { exists (WorkerEnds c Interrupted 0). destruct p; try done. cbn. split; [by apply at_phase_true|done]. }
  destruct (decide (count is_reporting (sc_tasks s) = 0%nat)) as [Hr|(c & p & Ht & Hp)%Hsome].
  2: { exists (EventSent c 0). destruct p; try done. cbn. split; [by apply at_phase_true|done]. }
  destruct (decide (count in_session (sc_tasks s) = 0%nat)) as [Hl|(c & p & Ht & Hp)%Hsome].
  2: { destruct p; try done; [|by eapply (count_pos in_global) in Ht; [lia|]]. exists (TakeGlobal c). cbn.
       rewrite (proj2 (at_phase_true _ _ _) Ht). split; [|done]. pose proof (si_global _ _ Hi) as H. rewrite Hw in H.
       by eapply lane_idle. }
  destruct (decide (count in_slot (sc_tasks s) = 0%nat)) as [Hq|(c & p & Ht & Hp)%Hsome].
  2: { destruct p; try done; [|by eapply (count_pos in_session) in Ht; [lia|]..|by eapply (count_pos is_reporting) in Ht; [lia|]].
       exists (TakeSession c). cbn. rewrite (proj2 (at_phase_true _ _ _) Ht). split; [|done].
       pose proof (si_session _ _ Hi) as H. rewrite Hl in H. by eapply lane_idle. }
  apply map_choose in Hne as (c & p & Ht). exists (TakeSlot c). split; [|done]. cbn.
  destruct p; [|by eapply (count_pos in_slot) in Ht; [lia|]..].
  rewrite (proj2 (at_phase_true _ _ _) Ht). apply Z.ltb_lt. pose proof (si_slots _ _ Hi). lia.
Qed.
End invariant.

(** ** The start of a run *)

(** The execution was loaded from the store, and no row of it is running. *)
Record run_ready (dag_id : string) (x : DAGExecution) (d : dag_db) : Prop := {
  rr_rows : x_nodes x = rows_of dag_id d;
  rr_valid : validate_dag_structure (x_nodes x) = Some (Ok tt);
  rr_inv : run_inv (x_nodes x) (dag_of_nodes (x_nodes x));
  rr_idle c : status_of (dag_of_nodes (x_nodes x)) c ≠ Some N_RUNNING;
}.
Definition lane_start (c : option Z) : Prop := match c with Some v => 0 ≤ v | None => True end.

Section start.
Context (K : gset string) (dag_id : string) (x : DAGExecution) (d : dag_db) (results : dict string) (usage : dict PersistedUsageSummaryV1).
Context (slots : Z) (session global : option Z) (now : Z).
Context (Hready : run_ready dag_id x d).
Context (Hslots : 0 ≤ slots) (Hsession : lane_start session) (Hglobal : lane_start global).
Let nodes := x_nodes x.

Lemma lane_fresh c : lane_start c → lane_inv c c 0 0.
Proof. destruct c as [v|]; cbn; [lia|done]. Qed.

Lemma start_run_ok :
  ∃ s, start_run dag_id results usage slots session global x now d = Ok s ∧
    calm_inv K dag_id nodes slots session global s ∧ (rank nodes s ≤ 6 * length nodes)%nat.
Proof.
  destruct Hready as [Hrows Hv Hi Hidle]. pose proof Hv as (Hnd & Hcl & Hacyc)%validate_cases. fold nodes in Hrows, Hv, Hi, Hidle, Hnd, Hcl, Hacyc.
  unfold start_run. fold nodes. rewrite Hv.
  destruct (status_keeps_rows dag_id "running" None d) as (d1 & Hd1 & Hr1 & _).
  assert (Hrows1 : rows_of dag_id d1 = nodes) by (rewrite Hrows; unfold rows_of; by rewrite Hr1).
  set (s0 := mkSched (from_execution x) d ∅ slots session global results usage false false 0 0 []).
  rewrite (bind_Ok _ _ _ _ _ (on_dag_store_eq _ s0 _ _ Hd1)).
  set (s1 := add_event ("dag.started", dag_id, None) (set_store d1 s0)).
  change (bind (modify (add_event ("dag.started", dag_id, None))) ?k (set_store d1 s0)) with (k tt s1). cbv beta. unfold begin_run.
  assert (Ha : agrees K dag_id nodes (sc_graph s1) (sc_store s1)).
  { split; [exact Hi|cbn; by rewrite Hrows1|]. intros c. left. unfold stored. cbn. by rewrite Hrows1. }
  destruct (schedule_ready_ok K dag_id nodes Hnd Hcl now s1 Ha eq_refl) as (l & g' & d' & t' & H & Ha' & Hndl & Hl & Hst & Ht & Hc).
  { intros c _. cbn. apply lookup_empty. }
  rewrite (bind_Ok _ _ _ _ _ H). cbn [modify]. eexists. split; [reflexivity|].
  set (s2 := set_tasks t' (set_store d' (set_graph g' s1))).
  assert (Hinv1 : sched_inv K dag_id nodes slots session global 0 s1).
  { split; cbn; [exact Ha|by intros c p; rewrite lookup_empty|by intros c; rewrite lookup_empty|..];
      rewrite count_empty; [lia|by apply lane_fresh..]. }
  assert (Hinv : sched_inv K dag_id nodes slots session global 0 s2).
  { eapply (scheduled_inv K dag_id nodes slots session global 0 s1 (ids_of l)); try done. intros P. unfold ids_of.
    by rewrite Hc, length_fmap. }
  assert (Hdone : t' = ∅ → is_complete g' = true).
  { intros Hemp. apply not_false_is_true. intros Hnc.
    assert (Hempty : ∀ c, c ∉ ids_of l).
    { intros c Hin. specialize (Ht c). rewrite decide_True, Hemp, lookup_empty in Ht by done. discriminate Ht. }
    destruct (idle_ready nodes Hnd Hcl g' Hacyc (ag_run _ _ _ _ _ Ha') Hnc) as (c & Hp & Hdc).
    - intros c. rewrite Hst, decide_False by apply Hempty. apply Hidle.
    - apply (Hempty c), Hl. rewrite Hst, decide_False in Hp by apply Hempty. split; [done|]. intros y Hy.
      apply Hdc in Hy. by rewrite Hst, decide_False in Hy by apply Hempty. }
  assert (Hrun : ∀ c, status_of g' c = Some N_RUNNING → ∃ p, t' !! c = Some p ∧ p ≠ Reporting).
  { intros c. rewrite Hst, Ht. case_decide; [by exists Queued|]. intros Hr. by apply Hidle in Hr. }
  assert (Hrank : (rank nodes s2 ≤ 6 * length nodes)%nat).
  { assert (Hlen : (length (pending_nodes nodes g') + length l ≤ length (pending_nodes nodes (sc_graph s1)))%nat).
    { rewrite <-(length_fmap node_id l). apply pending_started; [done|done| |].
      - intros c Hin. split; [by apply Hl|]. rewrite Hst, decide_True by done. split; [done|].
        apply Hl in Hin as [Hp _]. exact (running_known nodes _ _ _ Hi Hp).
      - intros c. rewrite Hst. by case_decide. }
    assert (Hall : (length (pending_nodes nodes (sc_graph s1)) ≤ length nodes)%nat).
    { unfold pending_nodes, ids_of. rewrite length_filter, length_fmap. done. }
    unfold rank, tasks_rank. cbn [sc_graph sc_tasks s2 set_tasks set_store set_graph]. rewrite !Hc. cbn [sc_tasks s1 add_event set_store s0].
    rewrite !count_empty. unfold weight. cbn -[Nat.mul]. lia. }
  fold s2. change (sc_tasks s2) with t'. change (sc_graph s2) with g'.
  destruct (bool_decide (t' = ∅) && is_complete g') eqn:E.
  - apply andb_true_iff in E as [_ E].
    split; [|exact Hrank]. split; [by destruct Hinv; split|exact Hrun|done|done|done].
  - split; [|exact Hrank]. split; [done|exact Hrun| |done|done].
    intros Hemp. cbn in Hemp. pose proof (Hdone Hemp) as Hd. rewrite (bool_decide_eq_true_2 _ Hemp), Hd in E. discriminate E.
Qed.
End start.

(** ** Theorems on runs *)

Definition calm_step (dag_id : string) (s s' : sched) : Prop :=
  ∃ e, enabled s e = true ∧ calm s e = true ∧ perform dag_id e s = (Ok tt, s').

Section reach.
Context (K : gset string) (dag_id : string) (nodes : list DAGNode).
Context (Hnodup : NoDup (ids_of nodes)) (Hclosed : closed nodes) (Hacyclic : ∀ x, ¬ tc (node_depends nodes) x x).
Context (cap : Z) (scap gcap : option Z).

Lemma lost_nonneg s e : 0 ≤ lost_by s e.
Proof. destruct e; cbn; try lia. case_match; lia. Qed.
Lemma steps_inv lost s s' :
  sched_inv K dag_id nodes cap scap gcap lost s → rtc (sched_step dag_id K) s s' →
  ∃ lost', lost ≤ lost' ∧ sched_inv K dag_id nodes cap scap gcap lost' s'.
Proof.
  intros Hi Hr. revert lost Hi. induction Hr as [s|s s1 s2 (e & He & Hk & Hp) _ IH]; intros lost Hi; [by exists lost|].
  destruct (perform_core K dag_id nodes Hnodup Hclosed cap scap gcap lost s e Hi He Hk) as (s1' & Hp' & Hi' & _).
  rewrite Hp in Hp'. injection Hp' as <-. destruct (IH _ Hi') as (k & Hle & Hik). exists k. split; [|done].
  pose proof (lost_nonneg s e). lia.
Qed.
Lemma calm_steps_inv n s s' :
  calm_inv K dag_id nodes cap scap gcap s → nsteps (calm_step dag_id) n s s' →
  calm_inv K dag_id nodes cap scap gcap s' ∧ (n + rank nodes s' ≤ rank nodes s)%nat.
Proof.
  intros Hi Hr. induction Hr as [s|n s s1 s2 (e & He & Hc & Hp) _ IH]; [done|].
  pose proof (perform_calm K dag_id nodes Hnodup Hclosed cap scap gcap Hacyclic s e s1 Hi He Hc Hp) as Hi1.
  destruct (perform_core K dag_id nodes Hnodup Hclosed cap scap gcap 0 s e) as (s1' & Hp' & _ & Hr1); [apply Hi|done|by destruct e|].
  rewrite Hp in Hp'. injection Hp' as <-. destruct (IH Hi1) as [Hi2 Hr2]. split; [done|].
  assert (advances e = true) as Hne by (by destruct e). specialize (Hr1 Hne). lia.
Qed.
Lemma lane_bound lane c held lost : lane_inv lane c held lost → 0 ≤ lost → ∀ v, c = Some v → Z.of_nat held ≤ v.
Proof. intros H Hl v ->. destruct lane; cbn in H; [lia|done]. Qed.
End reach.

Lemma some_status g st :
  NoDup (g_nodes g).*1 →
  existsb (λ kv : string * DAGNode, bool_decide (n_status kv.2 = st)) (g_nodes g) = true ↔ ∃ c, status_of g c = Some st.
Proof.
  intros Hn. rewrite existsb_exists. split.
  - intros ([c n] & Hin & H). exists c. unfold status_of. rewrite <-list_elem_of_In in Hin.
    rewrite (dict_elem_get _ _ _ Hn Hin). apply bool_decide_eq_true in H. cbn in *. by rewrite H.
  - intros [c Hs]. unfold status_of in Hs. destruct (dict_get (g_nodes g) c) as [n|] eqn:E; [|done]. injection Hs as Hs.
    exists (c, n). rewrite <-list_elem_of_In, bool_decide_eq_true. by apply dict_get_elem in E.
Qed.
(** The status of the execution says what happened to its nodes. *)
Lemma final_status_cases nodes g :
  NoDup (ids_of nodes) → run_inv nodes g → is_complete g = true →
  (final_status g = "completed" ↔ ∀ c, c ∈ ids_of nodes → status_of g c = Some N_COMPLETED) ∧
  (final_status g = "failed" ↔ ∃ c, status_of g c = Some N_FAILED).
Proof.
  intros Hnd Hi Hc. assert (Hn : NoDup (g_nodes g).*1) by (by rewrite (proj1 (ri_graph _ _ Hi))).
  pose proof (some_status g N_FAILED Hn) as Hf. pose proof (some_status g N_CANCELLED Hn) as Hca.
  unfold final_status, has_failures. destruct (existsb _ _) eqn:Ef.
  { apply proj1 in Hf. destruct (Hf eq_refl) as [c Hs]. split; [|split; [eauto|done]]. split; [done|].
    intros H. rewrite H in Hs; [discriminate Hs|]. exact (running_known nodes g c _ Hi Hs). }
  assert (Hnf : ¬ ∃ c, status_of g c = Some N_FAILED) by (intros H; by apply Hf in H).
  clear Ef Hf. destruct (existsb _ _) eqn:Ec.
  { apply proj1 in Hca. destruct (Hca eq_refl) as [c Hs]. split; [|by split]. split; [done|].
    intros H. rewrite H in Hs; [discriminate Hs|]. exact (running_known nodes g c _ Hi Hs). }
  assert (Hnc : ¬ ∃ c, status_of g c = Some N_CANCELLED) by (intros H; by apply Hca in H).
  split; [|by split]. split; [|done]. intros _ c Hin. apply (status_is_Some nodes g c (ri_graph _ _ Hi)) in Hin as [st Hs].
  pose proof (complete_status nodes g c st Hi Hc Hs) as Ht. destruct st; try done; exfalso; [apply Hnf|apply Hnc]; eauto.
Qed.

(** C18. The store follows the scheduler. From the start of a run on a validated execution
    whose rows are consistent (none is ready or running, one is completed or failed only
    over completed dependencies, and what depends on a failed or cancelled one is
    cancelled), with a pool and lanes that no other run uses, after any sequence of events
    (workers that end in any way and order, tasks and runs that are cancelled at any point,
    rows and executions that the cascade canceller stores as cancelled in between, K being
    the nodes whose rows it writes), every stored node has the status it has in memory, or
    it is one of K and stored as cancelled; in particular the two agree throughout while no
    canceller writes. A node is running, completed or failed in memory only if its
    dependencies are completed there; at most as many tasks as the pool has slots are past
    its semaphore, and as many as a lane has units are in the lane; a node whose worker has
    not ended is running; and every event that can occur is handled without an error. *)
Theorem scheduler_follows dag_id x d results usage slots session global now :
  run_ready dag_id x d → 0 ≤ slots → lane_start session → lane_start global →
  ∃ s, start_run dag_id results usage slots session global x now d = Ok s ∧
  ∀ K s', rtc (sched_step dag_id K) s s' →
    (∀ c, stored dag_id (sc_store s') c = status_of (sc_graph s') c ∨
          c ∈ K ∧ stored dag_id (sc_store s') c = Some N_CANCELLED) ∧
    (∀ c st y, status_of (sc_graph s') c = Some st → st ∈ [N_RUNNING; N_COMPLETED; N_FAILED] →
       node_depends (x_nodes x) c y → status_of (sc_graph s') y = Some N_COMPLETED) ∧
    Z.of_nat (count in_slot (sc_tasks s')) ≤ slots ∧
    (∀ v, session = Some v → Z.of_nat (count in_session (sc_tasks s')) ≤ v) ∧
    (∀ v, global = Some v → Z.of_nat (count in_global (sc_tasks s')) ≤ v) ∧
    (∀ c p, sc_tasks s' !! c = Some p → p ≠ Reporting → status_of (sc_graph s') c = Some N_RUNNING) ∧
    ∀ e, enabled s' e = true → ∃ s'', perform dag_id e s' = (Ok tt, s'').
Proof.
  intros Hr H0 H1 H2. pose proof (rr_valid _ _ _ Hr) as (Hnd & Hcl & _)%validate_cases.
  destruct (start_run_ok ∅ dag_id x d results usage slots session global now Hr H0 H1 H2) as (s & Hs & Hi & _).
  exists s. split; [done|]. intros K s' Hsteps.
  assert (Hi0 : sched_inv K dag_id (x_nodes x) slots session global 0 s).
  { destruct (ci_inv _ _ _ _ _ _ _ Hi) as [[R I S] A P C1 C2 C3]. split; try done. split; [done|done|].
    intros c. destruct (S c) as [?|[? _]]; [by left|set_solver]. }
  destruct (steps_inv K dag_id _ Hnd Hcl _ _ _ 0 s s' Hi0 Hsteps) as (k & Hk & Hi').
  pose proof (si_agrees _ _ _ _ _ _ _ _ Hi') as Ha. split; [apply Ha|]. split; [apply (ri_started _ _ (ag_run _ _ _ _ _ Ha))|].
  split; [pose proof (si_slots _ _ _ _ _ _ _ _ Hi'); lia|].
  split; [by eapply lane_bound; [apply Hi'|]|]. split; [by eapply lane_bound; [apply Hi'|]|].
  split; [apply (si_active _ _ _ _ _ _ _ _ Hi')|]. intros e He.
  set (K' := K ∪ match e with CancelRow nid _ _ => {[nid]} | _ => ∅ end).
  assert (Hall : sched_inv K' dag_id (x_nodes x) slots session global k s').
  { destruct Hi' as [[R I S] A P C1 C2 C3]. split; try done. split; [done|done|]. intros c. destruct (S c); set_solver. }
  destruct (perform_core _ dag_id _ Hnd Hcl _ _ _ k s' e Hall He) as (s'' & Hp & _); [destruct e; set_solver|eauto].
Qed.

(** C19. A run ends. From the start of a run on a validated execution whose rows are
    consistent (none is ready or running, one is completed or failed only over completed
    dependencies, and what depends on a failed or cancelled one is cancelled), with a pool
    of at least one slot and lanes of at least one unit that no other run uses, and while
    the run is not stopped, no canceller writes its rows, and no task is cancelled without a
    slot, between its lanes or during the fan-out of its event: a run of n nodes has at most
    6n events; as long as a task is left an event can occur, so that the semaphores never
    block the run; and when none is left the completion event is set, every node has ended,
    and the status then stored for the execution is completed exactly when every node
    completed and failed exactly when one failed. *)
Theorem scheduler_ends dag_id x d results usage slots session global now :
  run_ready dag_id x d → 1 ≤ slots → lane_cap_ok session → lane_cap_ok global →
  ∃ s, start_run dag_id results usage slots session global x now d = Ok s ∧
  ∀ n s', nsteps (calm_step dag_id) n s s' →
    (n ≤ 6 * length (x_nodes x))%nat ∧
    (sc_tasks s' ≠ ∅ → ∃ s'', calm_step dag_id s' s'') ∧
    (sc_tasks s' = ∅ →
       sc_completion s' = true ∧ is_complete (sc_graph s') = true ∧
       ∀ at_, ∃ s'', finish_run dag_id at_ s' = (Ok (final_status (sc_graph s')), s'') ∧
         (x_status <$> dag_executions (sc_store s'') !! dag_id =
           (λ _, final_status (sc_graph s')) <$> dag_executions (sc_store s') !! dag_id) ∧
         (final_status (sc_graph s') = "completed" ↔
            ∀ c, c ∈ ids_of (x_nodes x) → status_of (sc_graph s') c = Some N_COMPLETED) ∧
         (final_status (sc_graph s') = "failed" ↔ ∃ c, status_of (sc_graph s') c = Some N_FAILED)).
Proof.
  intros Hr H0 H1 H2. pose proof (rr_valid _ _ _ Hr) as (Hnd & Hcl & Hac)%validate_cases.
  assert (Hls : ∀ c, lane_cap_ok c → lane_start c) by (intros [v|]; cbn; [lia|done]).
  destruct (start_run_ok ∅ dag_id x d results usage slots session global now Hr ltac:(lia) (Hls _ H1) (Hls _ H2))
    as (s & Hs & Hi & Hrank).
  exists s. split; [done|]. intros n s' Hsteps.
  destruct (calm_steps_inv ∅ dag_id _ Hnd Hcl Hac _ _ _ n s s' Hi Hsteps) as [Hi' Hn]. split; [lia|]. split.
  - intros Hne. destruct (calm_progress _ _ _ _ _ _ s' Hi' H0 H1 H2 Hne) as (e & He & Hc).
    destruct (perform_core ∅ dag_id _ Hnd Hcl _ _ _ 0 s' e (ci_inv _ _ _ _ _ _ _ Hi') He ltac:(by destruct e)) as (s'' & Hp & _).
    exists s'', e. done.
  - intros Hemp. pose proof (ci_done _ _ _ _ _ _ _ Hi' Hemp) as Hd. pose proof (ci_complete _ _ _ _ _ _ _ Hi' Hd) as Hc.
    split; [done|]. split; [done|]. intros at_.
    destruct (status_keeps_rows dag_id (final_status (sc_graph s')) (Some at_) (sc_store s')) as (d' & Hu & _ & Hx).
    exists (set_store d' s'). split.
    { unfold finish_run. by rewrite bind_get_state, (bind_Ok _ _ _ _ _ (on_dag_store_eq _ s' _ _ Hu)). }
    split; [cbn; rewrite Hx; by destruct (dag_executions (sc_store s') !! dag_id)|].
    apply final_status_cases; [done| |done]. apply (ag_run _ _ _ _ _ (si_agrees _ _ _ _ _ _ _ _ (ci_inv _ _ _ _ _ _ _ Hi'))).
Qed.

(** ** Sample runs *)

Module SchedulerSample.
Definition node (id : string) (deps : list string) : DAGNode :=
  mkNode id "x1" "task" deps N_PENDING None None [] None None None None None.
Definition load (nodes : list DAGNode) : DAGExecution := mkExecution "x1" "e1" "{}" "pending" (Some "m1") 4 1 None nodes.
Definition store (nodes : list DAGNode) : dag_db := mkDagDb {[ "x1" := load [] ]} nodes ∅.
Definition start (slots : Z) (session global : option Z) (nodes : list DAGNode) : result sched :=
  start_run "x1" [] [] slots session global (load nodes) 5 (store nodes).
(** The events in order, while they are enabled. *)
Fixpoint play (events : list event) (s : sched) : option sched :=
  match events with
  | [] => Some s
  | e :: rest =>
      if enabled s e then match perform "x1" e s with (Ok _, s') => play rest s' | (Err _, _) => None end else None
  end.
Definition usage : PersistedUsageSummaryV1 := mkUsage 10 20 30 4 (PyFloat (Some (5, -1)) "0.5") None None.
Definition success : outcome := Returned (mkAgentResult T_COMPLETED (Some "done") usage None).
Definition work (nid : string) : list event :=
  [TakeSlot nid; TakeSession nid; TakeGlobal nid; WorkerEnds nid success 6; EventSent nid 7].
(** Statuses in memory, tasks left, the completion event. *)
Definition outlook (s : sched) : list (string * DAGNodeStatus) * bool * bool :=
  ((λ kv : string * DAGNode, (kv.1, n_status kv.2)) <$> g_nodes (sc_graph s), bool_decide (sc_tasks s = ∅), sc_completion s).
Definition after (events : list event) (r : result sched) : option sched :=
  match r with Ok s => play events s | Err _ => None end.

(** "a", then "b" which depends on it. *)
Definition chain : list DAGNode := [node "a" []; node "b" ["a"]].
Lemma chain_ready : run_ready "x1" (load chain) (store chain).
Proof.
  assert (Hn : NoDup (ids_of chain)) by (apply (bool_decide_unpack _); vm_compute; exact I).
  split; [vm_compute; reflexivity|vm_compute; reflexivity| |].
  - apply rows_runnable_inv; [exact Hn|vm_compute; reflexivity].
  - intros c (n & Hin & _ & Hs)%status_of_rows; [|exact Hn].
    repeat (apply elem_of_cons in Hin as [->|Hin]; [done|]). clear -Hin. set_solver.
Qed.
End SchedulerSample.

Lemma scheduler_follows_witness :
  run_ready "x1" (SchedulerSample.load SchedulerSample.chain) (SchedulerSample.store SchedulerSample.chain) ∧
  ∃ s, SchedulerSample.start 1 (Some 1) None SchedulerSample.chain = Ok s ∧
    ∀ c, stored "x1" (sc_store s) c = status_of (sc_graph s) c.
Proof.
  split; [exact SchedulerSample.chain_ready|].
  destruct (scheduler_follows "x1" (SchedulerSample.load SchedulerSample.chain)
    (SchedulerSample.store SchedulerSample.chain) [] [] 1 (Some 1) None 5 SchedulerSample.chain_ready
    ltac:(lia) ltac:(cbn; lia) I) as (s & Hs & H).
  exists s. split; [exact Hs|]. intros c. destruct (proj1 (H ∅ s (rtc_refl _ _)) c) as [E|[E _]]; [exact E|].
  by apply elem_of_empty in E.
Defined.

Lemma scheduler_ends_witness :
  run_ready "x1" (SchedulerSample.load SchedulerSample.chain) (SchedulerSample.store SchedulerSample.chain) ∧
  ∃ s, SchedulerSample.start 1 (Some 1) None SchedulerSample.chain = Ok s ∧
    ∀ n s', nsteps (calm_step "x1") n s s' → (n ≤ 12)%nat.
Proof.
  split; [exact SchedulerSample.chain_ready|].
  destruct (scheduler_ends "x1" (SchedulerSample.load SchedulerSample.chain)
    (SchedulerSample.store SchedulerSample.chain) [] [] 1 (Some 1) None 5 SchedulerSample.chain_ready
    ltac:(lia) ltac:(cbn; lia) I) as (s & Hs & H).
  exists s. split; [exact Hs|]. intros n s' Hn. apply (H n s' Hn).
Defined.

Example chain_runs :
  SchedulerSample.outlook <$>
    SchedulerSample.after (SchedulerSample.work "a" ++ SchedulerSample.work "b")
      (SchedulerSample.start 1 (Some 1) (Some 1) SchedulerSample.chain) =
  Some ([("a", N_COMPLETED); ("b", N_COMPLETED)], true, true).
Proof. vm_compute. reflexivity. Qed.

(** The root gets the parts of both nodes and the output of the leaf. *)
Example chain_root :
  (λ s, let c := root_outcome SchedulerSample.chain s (final_status (sc_graph s)) 9 in
        (rc_final_output c, rc_status c, total_tokens (rc_usage c))) <$>
    SchedulerSample.after (SchedulerSample.work "a" ++ SchedulerSample.work "b")
      (SchedulerSample.start 1 (Some 1) (Some 1) SchedulerSample.chain) =
  Some (Some "done", T_COMPLETED, 60).
Proof. vm_compute. reflexivity. Qed.

(** A task cancelled while it waits for a slot of the pool ends without
    [on_complete]: its node stays running and the completion event is never
    set. *)
Example cancelled_in_queue_hangs :
  SchedulerSample.outlook <$>
    SchedulerSample.after ([TakeSlot "a"; CancelTask "b" 6; TakeSession "a"; TakeGlobal "a";
                            WorkerEnds "a" SchedulerSample.success 7; EventSent "a" 8])
      (SchedulerSample.start 1 None None [SchedulerSample.node "a" []; SchedulerSample.node "b" []]) =
  Some ([("a", N_COMPLETED); ("b", N_RUNNING)], true, false).
Proof. vm_compute. reflexivity. Qed.

(** A task cancelled while it waits for the global lane keeps the session
    lane: no task is left and no unit of it is free. *)
Example session_lane_is_lost :
  (λ s, (SchedulerSample.outlook s, sc_session s)) <$>
    SchedulerSample.after [TakeSlot "a"; TakeSession "a"; CancelTask "a" 6; EventSent "a" 7]
      (SchedulerSample.start 4 (Some 1) (Some 0) [SchedulerSample.node "a" []]) =
  Some ([("a", N_CANCELLED)], true, true, Some 0).
Proof. vm_compute. reflexivity. Qed.

(** The cost and the cache reads of the nodes are not in the sum. *)
Example total_usage_drops_cost :
  total_usage [("a", SchedulerSample.usage); ("b", SchedulerSample.usage)] = mkUsage 20 40 60 0 zero_cost None None.
Proof. vm_compute. reflexivity. Qed.

(** A worker that raises without a message counts as a failure of the pool,
    and its node is completed. *)
Example empty_message_completes :
  (λ s, (SchedulerSample.outlook s, sc_failed_count s)) <$>
    SchedulerSample.after [TakeSlot "a"; TakeSession "a"; TakeGlobal "a"; WorkerEnds "a" (Raised EmptyString) 6; EventSent "a" 7]
      (SchedulerSample.start 1 None None [SchedulerSample.node "a" []]) =
  Some ([("a", N_COMPLETED)], true, true, 1).
Proof. vm_compute. reflexivity. Qed.
