(* ===== verification/DagCancel.v ===== *)
(** * The cascade of a cancellation

    Models src/src/tianshu/executor/cancel.py: [CascadeCanceller.cancel] on the
    execution loaded from the store, next to the scheduler of the run, which has
    its own graph.  [WorkerPool.cancel] only asks a task to stop: the requests
    are listed, and each is a [CancelTask] of DagScheduler.v later. *)

From stdpp Require Import relations.
From S2P Require Import Prelude.
From S2P Require Import Sql.
From S2P Require Import Models.
From S2P Require Import UnitOfWork.
From S2P Require Import Dag.
From S2P Require Import DagRepo.
From S2P Require Import DagScheduler.

Record canceller := mkCanceller { cn_graph : DAG; cn_store : dag_db; cn_requests : list string }.
Definition in_graph {A} (m : M DAG A) : M canceller A := λ s,
  let '(r, g) := m (cn_graph s) in (r, mkCanceller g (cn_store s) (cn_requests s)).
Definition in_store {A} (m : M dag_db A) : M canceller A := λ s,
  let '(r, d) := m (cn_store s) in (r, mkCanceller (cn_graph s) d (cn_requests s)).
Definition request (nid : string) : M canceller unit := λ s,
  (Ok tt, mkCanceller (cn_graph s) (cn_store s) (cn_requests s ++ [nid])).

Section cancel.
Context (dag_id : string) (now : Z).

Fixpoint store_all (ids : list string) : M canceller unit :=
  match ids with
  | [] => ret tt
  | i :: rest => in_store (update_dag_node_status dag_id i N_CANCELLED None now) ;;; store_all rest
  end.
(** The body of the loop; the value is what it adds to [cancelled]. *)
Definition cancel_node (nid : string) : M canceller (list string) :=
  let! s := get_state in
  match status_of (cn_graph s) nid with
  | Some N_RUNNING =>
      request nid ;;;
      in_graph (mark_failed nid (Some "Cancelled by user")) ;;;
      in_store (update_dag_node_status dag_id nid N_CANCELLED (Some "Cancelled by user") now) ;;;
      let! downstream := in_graph (propagate nid) in
      store_all downstream ;;;
      ret (nid :: downstream)
  | Some N_PENDING | Some N_READY =>
      in_graph (update_node nid (set_status N_CANCELLED)) ;;;
      in_store (update_dag_node_status dag_id nid N_CANCELLED None now) ;;;
      ret [nid]
  | _ => ret []
  end.
Fixpoint cancel_nodes (ids : list string) : M canceller (list string) :=
  match ids with
  | [] => ret []
  | i :: rest => let! l := cancel_node i in let! ls := cancel_nodes rest in ret (l ++ ls)
  end.
(** [cancel]; the returned list is a set *)
Definition cancel (x : DAGExecution) (d : dag_db) : result (gset string) * canceller :=
  (let! cancelled := cancel_nodes (node_id <$> x_nodes x) in
   in_store (update_dag_execution_status dag_id "cancelled" (Some now)) ;;;
   ret (list_to_set cancelled)) (mkCanceller (from_execution x) d []).
End cancel.

(** ** Every node that has not ended is cancelled *)

Section proofs.
Context (dag_id : string) (now : Z) (nodes : list DAGNode).
Context (Hnodup : NoDup (ids_of nodes)) (Hclosed : closed nodes).
Context (execs : gmap string DAGExecution).
Let g0 := dag_of_nodes nodes.
Let old := status_of g0.

Definition open_at (c : string) : Prop := ∃ st, old c = Some st ∧ terminal st = false.
(** During the loop, with the nodes cancelled so far. *)
Record cancel_inv (done : list string) (s : canceller) : Prop := {
  cv_graph : same_graph nodes (cn_graph s);
  cv_ids : ids_of (rows_of dag_id (cn_store s)) = ids_of nodes;
  cv_done c : c ∈ done → open_at c ∧ ∃ st, status_of (cn_graph s) c = Some st ∧ terminal st = true;
  cv_rest c : c ∉ done → status_of (cn_graph s) c = old c;
  cv_stored c : stored dag_id (cn_store s) c = if decide (c ∈ done) then Some N_CANCELLED else old c;
  cv_execs : dag_executions (cn_store s) = execs;
}.

Lemma node_keeps_executions nid st e d d' :
  update_dag_node_status dag_id nid st e now d = (Ok tt, d') → dag_executions d' = dag_executions d.
Proof. by intros [= <-]. Qed.
Lemma in_store_eq {A} (m : M dag_db A) s r d :
  m (cn_store s) = (r, d) → in_store m s = (r, mkCanceller (cn_graph s) d (cn_requests s)).
Proof. unfold in_store. by intros ->. Qed.
Lemma in_graph_eq {A} (m : M DAG A) s r g :
  m (cn_graph s) = (r, g) → in_graph m s = (r, mkCanceller g (cn_store s) (cn_requests s)).
Proof. unfold in_graph. by intros ->. Qed.

Lemma known_id s c st : same_graph nodes (cn_graph s) → status_of (cn_graph s) c = Some st → c ∈ ids_of nodes.
Proof. intros Hg Hs. apply (status_is_Some nodes (cn_graph s) c Hg). eauto. Qed.

Lemma store_all_eq ids g d q :
  ids_of (rows_of dag_id d) = ids_of nodes → (∀ c, c ∈ ids → c ∈ ids_of nodes) →
  ∃ d', store_all dag_id now ids (mkCanceller g d q) = (Ok tt, mkCanceller g d' q) ∧
    ids_of (rows_of dag_id d') = ids_of nodes ∧ dag_executions d' = dag_executions d ∧
    ∀ c, stored dag_id d' c = if decide (c ∈ ids) then Some N_CANCELLED else stored dag_id d c.
Proof.
  revert d. induction ids as [|i ids IH]; intros d Hids Hin; cbn [store_all].
  - exists d. split; [done|]. split; [done|]. split; [done|]. intros c. by rewrite decide_False by set_solver.
  - destruct (store_status dag_id nodes Hnodup i N_CANCELLED None now d Hids) as (d1 & H1 & Hi1 & Hs1); [apply Hin; left|].
    rewrite (bind_Ok _ _ _ _ _ (in_store_eq _ (mkCanceller g d q) _ _ H1)). cbn [cn_graph cn_requests].
    destruct (IH d1 Hi1) as (d2 & H2 & Hi2 & He2 & Hs2); [intros c Hc; apply Hin; by right|].
    exists d2. rewrite H2. split; [done|]. split; [done|].
    split; [by rewrite He2; eapply node_keeps_executions|]. intros c. rewrite Hs2, Hs1.
    destruct (decide (c ∈ ids)), (decide (c ∈ i :: ids)), (decide (i = c)); try done; set_solver.
Qed.

Lemma cancel_extend done s l g' d' q' :
  cancel_inv done s → same_graph nodes g' → ids_of (rows_of dag_id d') = ids_of nodes →
  dag_executions d' = dag_executions (cn_store s) →
  (∀ c, c ∈ l → ∃ st, status_of (cn_graph s) c = Some st ∧ terminal st = false) →
  (∀ c, c ∈ l → ∃ st, status_of g' c = Some st ∧ terminal st = true) →
  (∀ c, c ∉ l → status_of g' c = status_of (cn_graph s) c) →
  (∀ c, stored dag_id d' c = if decide (c ∈ l) then Some N_CANCELLED else stored dag_id (cn_store s) c) →
  cancel_inv (done ++ l) (mkCanceller g' d' q').
Proof.
  intros [Hg Hids Hdone Hrest Hst Hex] Hg' Hids' Hex' Hopen Hter Hsame Hst'. split; cbn [cn_graph cn_store]; try done.
  - intros c [Hc|Hc]%elem_of_app.
    + destruct (Hdone c Hc) as [Ho (st & Hs & Ht)]. split; [done|].
      destruct (decide (c ∈ l)) as [Hl|Hl]; [by apply Hter|]. exists st. by rewrite Hsame.
    + split; [|by apply Hter]. destruct (Hopen c Hc) as (st & Hs & Ht). exists st. split; [|done].
      rewrite <-Hrest; [done|]. intros (_ & st' & Hs' & Ht')%Hdone. congruence.
  - intros c [Hd Hl]%not_elem_of_app. rewrite Hsame by done. by apply Hrest.
  - intros c. rewrite Hst', Hst. destruct (decide (c ∈ l)), (decide (c ∈ done)), (decide (c ∈ done ++ l)); try done; set_solver.
  - congruence.
Qed.

Lemma cancel_running done s nid :
  cancel_inv done s → status_of (cn_graph s) nid = Some N_RUNNING →
  ∃ l g' d', cancel_node dag_id now nid s = (Ok l, mkCanceller g' d' (cn_requests s ++ [nid])) ∧
    cancel_inv (done ++ l) (mkCanceller g' d' (cn_requests s ++ [nid])) ∧
    (∃ st, status_of g' nid = Some st ∧ terminal st = true) ∧
    ∀ c, status_of g' c = Some N_RUNNING ↔ status_of (cn_graph s) c = Some N_RUNNING ∧ c ≠ nid.
Proof.
  intros Hi Hr. pose proof (cv_graph _ _ Hi) as Hg. pose proof (cv_ids _ _ Hi) as Hids. pose proof (known_id _ _ _ Hg Hr) as Hin.
  assert (Hm : ∃ g1, mark_failed nid (Some "Cancelled by user") (cn_graph s) = (Ok tt, g1)).
  { unfold mark_failed. edestruct (update_node_eq nodes nid) as (n & g1 & _ & Hu & _); [done|done|exists g1; exact Hu]. }
  destruct Hm as [g1 Hm].
  destruct (mark_ending_status nodes nid (Failed (Some "Cancelled by user")) _ _ Hg Hm) as (Hg1 & Hs1 & _).
  destruct (store_status dag_id nodes Hnodup nid N_CANCELLED (Some "Cancelled by user") now (cn_store s) Hids Hin)
    as (d1 & Hd1 & Hids1 & Hsd1).
  destruct (propagate_failure_eq nid g1 (same_graph_known nodes Hnodup Hclosed g1 Hg1)) as (can & ns & Hp & _).
  set (g' := with_nodes ns g1) in *.
  destruct (propagate_status nodes Hnodup Hclosed _ _ _ _ Hg1 Hp) as (Hg' & Hcan & Hs' & _).
  assert (Hpend : ∀ c, c ∈ can → nid ≠ c ∧ ∃ st, status_of (cn_graph s) c = Some st ∧ terminal st = false ∧ st ≠ N_RUNNING).
  { intros c Hc. apply Hcan, downstream_cancellable, (cancellable_status nodes Hnodup Hclosed) in Hc. rewrite Hs1 in Hc.
    destruct (decide (nid = c)); [by destruct Hc|]. split; [done|]. destruct Hc; eauto. }
  destruct (store_all_eq can g' d1 (cn_requests s ++ [nid]) Hids1) as (d2 & Hd2 & Hids2 & He2 & Hsd2).
  { intros c Hc. apply Hpend in Hc as (_ & st & Hs & _). by eapply known_id. }
  assert (Hst : ∀ c, status_of g' c = if decide (c ∈ nid :: can) then
      Some (if decide (nid = c) then N_FAILED else N_CANCELLED) else status_of (cn_graph s) c).
  { intros c. rewrite Hs', Hs1. cbn [ended_status].
    destruct (decide (c ∈ can)) as [Hc|], (decide (nid = c)), (decide (c ∈ nid :: can)); try done; try set_solver. }
  exists (nid :: can), g', d2. split; [|split; [|split]].
  - unfold cancel_node. rewrite bind_get_state, Hr.
    set (s1 := mkCanceller (cn_graph s) (cn_store s) (cn_requests s ++ [nid])).
    change (bind (request nid) ?k s) with (k tt s1). cbv beta.
    rewrite (bind_Ok _ _ _ _ _ (in_graph_eq _ s1 _ _ Hm)). cbn [cn_store cn_requests s1].
    rewrite (bind_Ok _ _ _ _ _ (in_store_eq _ (mkCanceller g1 (cn_store s) (cn_requests s ++ [nid])) _ _ Hd1)).
    cbn [cn_graph cn_requests]. assert (Hpr : propagate nid g1 = (Ok can, g')) by (unfold propagate; by rewrite Hp).
    rewrite (bind_Ok _ _ _ _ _ (in_graph_eq _ (mkCanceller g1 d1 (cn_requests s ++ [nid])) _ _ Hpr)).
    cbn [cn_store cn_requests]. by rewrite (bind_Ok _ _ _ _ _ Hd2).
  - apply (cancel_extend done s); try done.
    + rewrite He2. by eapply node_keeps_executions.
    + intros c [->|Hc]%elem_of_cons; [eauto|]. apply Hpend in Hc as (_ & st & ? & ? & _). eauto.
    + intros c Hc. rewrite Hst, decide_True by done. case_decide; eauto.
    + intros c Hc. by rewrite Hst, decide_False.
    + intros c. rewrite Hsd2, Hsd1.
      destruct (decide (c ∈ can)), (decide (nid = c)), (decide (c ∈ nid :: can)); try done; set_solver.
  - exists N_FAILED. by rewrite Hst, decide_True, decide_True by (done || left).
  - intros c. rewrite Hst. destruct (decide (c ∈ nid :: can)) as [Hc|Hc].
    + split; [by case_decide|]. intros [Hrc Hne]. apply elem_of_cons in Hc as [->|Hc]; [done|].
      apply Hpend in Hc as (_ & st & Hs & _ & Hn). congruence.
    + split; [|by intros []]. intros H. split; [done|]. intros ->. apply Hc. left.
Qed.

Lemma cancel_waiting done s nid :
  cancel_inv done s → status_of (cn_graph s) nid ∈ [Some N_PENDING; Some N_READY] →
  ∃ g' d', cancel_node dag_id now nid s = (Ok [nid], mkCanceller g' d' (cn_requests s)) ∧
    cancel_inv (done ++ [nid]) (mkCanceller g' d' (cn_requests s)) ∧
    ∀ c, status_of g' c = if decide (nid = c) then Some N_CANCELLED else status_of (cn_graph s) c.
Proof.
  intros Hi Hr. pose proof (cv_graph _ _ Hi) as Hg. pose proof (cv_ids _ _ Hi) as Hids.
  assert (Hst : ∃ st, status_of (cn_graph s) nid = Some st ∧ terminal st = false).
  { apply elem_of_cons in Hr as [Hr|Hr]; [eauto|]. apply list_elem_of_singleton in Hr. eauto. }
  pose proof Hst as (st & Hs & _). pose proof (known_id _ _ _ Hg Hs) as Hin.
  destruct (update_node_eq nodes nid (set_status N_CANCELLED) _ Hg Hin) as (n & g' & _ & Hu & _).
  destruct (update_status nodes nid (set_status N_CANCELLED) N_CANCELLED _ _ Hg (λ _, eq_refl) (λ _, eq_refl) Hu)
    as (Hg' & Hs' & _).
  destruct (store_status dag_id nodes Hnodup nid N_CANCELLED None now (cn_store s) Hids Hin) as (d' & Hd & Hids' & Hsd).
  exists g', d'. split; [|split; [|done]].
  - unfold cancel_node. rewrite bind_get_state.
    assert (Hgo : (in_graph (update_node nid (set_status N_CANCELLED)) ;;;
                   in_store (update_dag_node_status dag_id nid N_CANCELLED None now) ;;; ret [nid]) s =
                  (Ok [nid], mkCanceller g' d' (cn_requests s))).
    { rewrite (bind_Ok _ _ _ _ _ (in_graph_eq _ s _ _ Hu)).
      by rewrite (bind_Ok _ _ _ _ _ (in_store_eq _ (mkCanceller g' (cn_store s) (cn_requests s)) _ _ Hd)). }
    apply elem_of_cons in Hr as [Hr|Hr]; [by rewrite Hr|]. apply list_elem_of_singleton in Hr. by rewrite Hr.
  - apply (cancel_extend done s); try done.
    + by eapply node_keeps_executions.
    + intros c ->%list_elem_of_singleton. done.
    + intros c ->%list_elem_of_singleton. rewrite Hs', decide_True by done. eauto.
    + intros c Hc. rewrite Hs', decide_False; [done|]. intros ->. apply Hc. left.
    + intros c. rewrite Hsd. destruct (decide (nid = c)), (decide (c ∈ [nid])); try done; set_solver.
Qed.

(** One node of the loop. *)
Lemma cancel_node_ok done s nid :
  cancel_inv done s → nid ∈ ids_of nodes →
  ∃ l s', cancel_node dag_id now nid s = (Ok l, s') ∧ cancel_inv (done ++ l) s' ∧
    (∃ st, status_of (cn_graph s') nid = Some st ∧ terminal st = true) ∧
    cn_requests s' = cn_requests s ++ (if decide (status_of (cn_graph s) nid = Some N_RUNNING) then [nid] else []) ∧
    ∀ c, c ≠ nid → status_of (cn_graph s') c = Some N_RUNNING ↔ status_of (cn_graph s) c = Some N_RUNNING.
Proof.
  intros Hi Hin. pose proof Hin as [st Hs]%(status_is_Some nodes (cn_graph s) nid (cv_graph _ _ Hi)).
  destruct (decide (st = N_RUNNING)) as [->|Hr].
  { destruct (cancel_running done s nid Hi Hs) as (l & g' & d' & H & Hi' & Ht & Hrun). exists l. eexists.
    split; [exact H|]. split; [done|]. split; [done|]. split; [by rewrite decide_True|].
    intros c Hne. cbn. rewrite Hrun. naive_solver. }
  rewrite decide_False by congruence. rewrite app_nil_r. destruct (terminal st) eqn:Ht.
  { exists [], s. rewrite app_nil_r. unfold cancel_node. rewrite bind_get_state, Hs. split; [by destruct st|].
    split; [done|]. split; [by exists st|]. by split. }
  destruct (cancel_waiting done s nid Hi) as (g' & d' & H & Hi' & Hst).
  { rewrite Hs. destruct st; try done; set_solver. }
  exists [nid]. eexists. split; [exact H|]. split; [done|]. split; [exists N_CANCELLED; cbn; by rewrite Hst, decide_True|].
  split; [done|]. intros c Hne. cbn. by rewrite Hst, decide_False.
Qed.
Lemma ended_stays done l s s' c st :
  cancel_inv done s → cancel_inv (done ++ l) s' → status_of (cn_graph s) c = Some st → terminal st = true →
  ∃ st', status_of (cn_graph s') c = Some st' ∧ terminal st' = true.
Proof.
  intros Hi Hi' Hs Ht. destruct (decide (c ∈ done ++ l)) as [Hd|Hd]; [by apply (cv_done _ _ Hi')|].
  exists st. split; [|done]. rewrite (cv_rest _ _ Hi' c Hd), <-(cv_rest _ _ Hi c); [done|set_solver].
Qed.

Lemma cancel_nodes_ok ids done s :
  NoDup ids → cancel_inv done s → ids ⊆ ids_of nodes →
  (∀ c, c ∈ ids → status_of (cn_graph s) c = Some N_RUNNING ↔ old c = Some N_RUNNING) →
  ∃ l s', cancel_nodes dag_id now ids s = (Ok l, s') ∧ cancel_inv (done ++ l) s' ∧
    (∀ c, c ∈ ids → ∃ st, status_of (cn_graph s') c = Some st ∧ terminal st = true) ∧
    cn_requests s' = cn_requests s ++ filter (λ c, old c = Some N_RUNNING) ids.
Proof.
  revert done s. induction ids as [|i ids IH]; intros done s Hn Hi Hin Hrun; cbn [cancel_nodes].
  { exists [], s. rewrite !app_nil_r. split; [done|]. split; [done|]. split; [|done]. intros c Hc. set_solver. }
  apply NoDup_cons in Hn as [Hni Hn].
  destruct (cancel_node_ok done s i Hi) as (l & s1 & H1 & Hi1 & Hter & Hreq & Hr1); [apply Hin; left|].
  destruct (IH (done ++ l) s1 Hn Hi1) as (l2 & s2 & H2 & Hi2 & Hter2 & Hreq2).
  { intros c Hc. apply Hin. by right. }
  { intros c Hc. rewrite Hr1 by (intros ->; done). apply Hrun. by right. }
  exists (l ++ l2), s2. rewrite (bind_Ok _ _ _ _ _ H1), (bind_Ok _ _ _ _ _ H2), (assoc_L (++)).
  split; [done|]. split; [done|]. split.
  - intros c [->|Hc]%elem_of_cons; [|by apply Hter2]. destruct Hter as (st & Hs & Ht). exact (ended_stays (done ++ l) l2 s1 s2 i st Hi1 Hi2 Hs Ht).
  - rewrite Hreq2, Hreq, <-(assoc_L (++)). f_equal. rewrite filter_cons. specialize (Hrun i ltac:(left)).
    repeat case_decide; try done; exfalso; naive_solver.
Qed.
End proofs.

(** ** The canceller next to a run *)

(** The writes of the canceller are events of the scheduler's runs. *)
Section next_to_a_run.
Context (dag_id : string) (now : Z).

Definition row_write (K : gset string) (d d' : dag_db) : Prop :=
  ∃ nid e, nid ∈ K ∧ update_dag_node_status dag_id nid N_CANCELLED e now d = (Ok tt, d').
Definition writes_rows {A} (m : M canceller A) : Prop :=
  ∀ c r c', m c = (r, c') → ∃ K, rtc (row_write K) (cn_store c) (cn_store c').

Lemma rtc_row_write_mono K K' d d' : K ⊆ K' → rtc (row_write K) d d' → rtc (row_write K') d d'.
Proof.
  intros HK. apply rtc_subrel. intros x y (nid & e & Hin & H). exists nid, e. split; [by apply HK|done].
Qed.
Lemma writes_none {A} (m : M canceller A) : (∀ c, cn_store (m c).2 = cn_store c) → writes_rows m.
Proof. intros H c r c' E. exists ∅. specialize (H c). rewrite E in H. cbn in H. rewrite H. apply rtc_refl. Qed.
Lemma cancel_writes_bind {A B} (m : M canceller A) (k : A → M canceller B) :
  writes_rows m → (∀ a, writes_rows (k a)) → writes_rows (bind m k).
Proof.
  intros Hm Hk c r c' E. unfold bind in E. destruct (m c) as [[a|e] c1] eqn:Ec.
  - destruct (Hm _ _ _ Ec) as [K1 H1]. destruct (Hk a _ _ _ E) as [K2 H2]. exists (K1 ∪ K2).
    etransitivity; [eapply rtc_row_write_mono; [|exact H1]|eapply rtc_row_write_mono; [|exact H2]]; set_solver.
  - simplify_eq. by eapply Hm.
Qed.
Lemma writes_row nid e : writes_rows (in_store (update_dag_node_status dag_id nid N_CANCELLED e now)).
Proof.
  intros c r c' E. unfold in_store in E. destruct (update_dag_node_status _ _ _ _ _ (cn_store c)) as [r1 d1] eqn:Eu.
  simplify_eq. exists {[nid]}. cbn. apply rtc_once. exists nid, e. split; [set_solver|]. rewrite Eu. f_equal.
  by injection Eu as <- _.
Qed.
Lemma writes_graph {A} (m : M DAG A) : writes_rows (in_graph m).
Proof. apply writes_none. intros c. unfold in_graph. by destruct (m (cn_graph c)). Qed.
Lemma writes_ret {A} (a : A) : writes_rows (ret a).
Proof. by apply writes_none. Qed.
Lemma writes_store_all ids : writes_rows (store_all dag_id now ids).
Proof. induction ids as [|i ids IH]; [apply writes_ret|]. apply cancel_writes_bind; [apply writes_row|]. by intros _. Qed.
Lemma writes_cancel_node nid : writes_rows (cancel_node dag_id now nid).
Proof.
  unfold cancel_node. apply cancel_writes_bind; [by apply writes_none|]. intros s.
  assert (Hwait : writes_rows (in_graph (update_node nid (set_status N_CANCELLED)) ;;;
      in_store (update_dag_node_status dag_id nid N_CANCELLED None now) ;;; ret [nid])).
  { apply cancel_writes_bind; [apply writes_graph|]. intros _. apply cancel_writes_bind; [apply writes_row|]. intros _. apply writes_ret. }
  destruct (status_of _ nid) as [[]|]; try apply writes_ret; try exact Hwait.
  apply cancel_writes_bind; [by apply writes_none|]. intros _. apply cancel_writes_bind; [apply writes_graph|]. intros _.
  apply cancel_writes_bind; [apply writes_row|]. intros _. apply cancel_writes_bind; [apply writes_graph|]. intros l.
  apply cancel_writes_bind; [apply writes_store_all|]. intros _. apply writes_ret.
Qed.
Lemma writes_cancel_nodes ids : writes_rows (cancel_nodes dag_id now ids).
Proof.
  induction ids as [|i ids IH]; [apply writes_ret|]. apply cancel_writes_bind; [apply writes_cancel_node|]. intros l.
  apply cancel_writes_bind; [done|]. intros ls. apply writes_ret.
Qed.

Lemma row_writes_steps K s d : rtc (row_write K) (sc_store s) d → rtc (sched_step dag_id K) s (set_store d s).
Proof.
  intros H. remember (sc_store s) as d0 eqn:Ed. revert s Ed. induction H as [d0|d0 d1 d2 (nid & e & Hin & Hu) _ IH]; intros s ->.
  - by destruct s.
  - eapply rtc_l; [|exact (IH (set_store d1 s) eq_refl)]. exists (CancelRow nid e now). split; [done|]. split; [done|].
    by apply on_dag_store_eq.
Qed.
(** Whatever the canceller does, it does to a run by [CancelRow] and
    [CancelExecution] events on some nodes. *)
Lemma canceller_steps s x r c :
  cancel dag_id now x (sc_store s) = (r, c) → ∃ K, rtc (sched_step dag_id K) s (set_store (cn_store c) s).
Proof.
  unfold cancel. intros E. unfold bind at 1 in E.
  destruct (cancel_nodes dag_id now _ _) as [[l|e] c1] eqn:Ec; destruct (writes_cancel_nodes _ _ _ _ Ec) as [K HK]; exists K.
  - apply row_writes_steps in HK. destruct (status_keeps_rows dag_id "cancelled" (Some now) (cn_store c1)) as (d' & Hd & _).
    rewrite (bind_Ok _ _ _ _ _ (in_store_eq _ c1 _ _ Hd)) in E. injection E as _ <-. eapply rtc_r; [exact HK|].
    exists (CancelExecution now). split; [done|]. split; [done|]. exact (on_dag_store_eq _ (set_store (cn_store c1) s) _ _ Hd).
  - simplify_eq. by apply row_writes_steps.
Qed.
End next_to_a_run.

(** C31. A cancellation reaches every open node. On an execution loaded from the store with
    distinct and known identifiers, CascadeCanceller.cancel stores cancelled for exactly the
    nodes that had not ended and returns them, leaves the status of the others as it was,
    asks exactly the tasks of the running nodes to stop, and stores the execution as
    cancelled. *)
Theorem cascade_cancels x d now :
  x_nodes x = rows_of (x_id x) d → NoDup (ids_of (x_nodes x)) → closed (x_nodes x) →
  let old := status_of (dag_of_nodes (x_nodes x)) in
  ∃ ids s, cancel (x_id x) now x d = (Ok ids, s) ∧
    (∀ c, c ∈ ids ↔ ∃ st, old c = Some st ∧ terminal st = false) ∧
    (∀ c, stored (x_id x) (cn_store s) c = if decide (c ∈ ids) then Some N_CANCELLED else old c) ∧
    cn_requests s = filter (λ c, old c = Some N_RUNNING) (ids_of (x_nodes x)) ∧
    x_status <$> dag_executions (cn_store s) !! x_id x = (λ _, "cancelled") <$> dag_executions d !! x_id x.
Proof.
  intros Hrows Hn Hc old. set (nodes := x_nodes x) in *. set (s0 := mkCanceller (from_execution x) d []).
  assert (Hi0 : cancel_inv (x_id x) nodes (dag_executions d) [] s0).
  { split; cbn [cn_graph cn_store s0]; try done.
    - split; [by apply dag_of_nodes_keys|done].
    - by rewrite <-Hrows.
    - intros c H. by apply elem_of_nil in H.
    - intros c. rewrite decide_False by set_solver. unfold stored. by rewrite <-Hrows. }
  destruct (cancel_nodes_ok (x_id x) now nodes Hn Hc (dag_executions d) (ids_of nodes) [] s0 Hn Hi0) as (l & s1 & H & Hi & Hter & Hreq);
    [done|done|]. cbn [app] in Hi.
  destruct (status_keeps_rows (x_id x) "cancelled" (Some now) (cn_store s1)) as (d' & Hu & Hd & Hx).
  assert (Hl : ∀ c, c ∈ l ↔ ∃ st, old c = Some st ∧ terminal st = false).
  { intros c. split; [intros Hcl; by apply (cv_done _ _ _ _ _ Hi) in Hcl as [? _]|]. intros (st & Hs & Ht).
    apply dec_stable. intros Hn'. destruct (Hter c) as (st' & Hs' & Ht').
    - apply (status_is_Some nodes (dag_of_nodes nodes) c); [|by exists st]. split; [by apply dag_of_nodes_keys|done].
    - rewrite (cv_rest _ _ _ _ _ Hi c Hn') in Hs'. unfold old in Hs. congruence. }
  exists (list_to_set l), (mkCanceller (cn_graph s1) d' (cn_requests s1)). split; [|split; [|split; [|split]]].
  - unfold cancel. fold s0 nodes. unfold ids_of in H. by rewrite (bind_Ok _ _ _ _ _ H), (bind_Ok _ _ _ _ _ (in_store_eq _ s1 _ _ Hu)).
  - intros c. by rewrite elem_of_list_to_set.
  - intros c. cbn [cn_store]. replace (stored (x_id x) d' c) with (stored (x_id x) (cn_store s1) c)
      by (unfold stored, rows_of; by rewrite Hd).
    rewrite (cv_stored _ _ _ _ _ Hi). destruct (decide (c ∈ l)), (decide (c ∈ (list_to_set l : gset string))); set_solver.
  - by rewrite Hreq.
  - cbn [cn_store]. rewrite Hx.
    rewrite (cv_execs _ _ _ _ _ Hi). by destruct (dag_executions d !! x_id x).
Qed.

(** "fetch" runs, "clean" waits for it, "load" has ended. *)
Module CancelSample.
Definition node (id : string) (deps : list string) (s : DAGNodeStatus) : DAGNode :=
  mkNode id "x1" "task" deps s None None [] None None None None None.
Definition rows : list DAGNode := [node "clean" ["fetch"] N_PENDING; node "fetch" ["load"] N_RUNNING; node "load" [] N_COMPLETED].
Definition x : DAGExecution := mkExecution "x1" "e1" "{}" "running" (Some "m1") 4 1 None rows.
Definition d : dag_db := mkDagDb {[ "x1" := without_nodes x ]} rows ∅.
Lemma ids_nodup : NoDup (ids_of rows).
Proof. apply (bool_decide_unpack _). vm_compute. exact I. Qed.
Lemma closed_rows : closed rows.
Proof. by apply no_unknown_ids; vm_compute. Qed.
End CancelSample.

Lemma cascade_cancels_witness :
  ∃ ids s, cancel "x1" 9 CancelSample.x CancelSample.d = (Ok ids, s) ∧ cn_requests s = ["fetch"] ∧
    stored "x1" (cn_store s) "clean" = Some N_CANCELLED.
Proof.
  destruct (cascade_cancels CancelSample.x CancelSample.d 9) as (ids & s & H & Hids & Hst & Hreq & _);
    [vm_compute; reflexivity|exact CancelSample.ids_nodup|exact CancelSample.closed_rows|].
  exists ids, s. split; [exact H|]. split; [rewrite Hreq; vm_compute; reflexivity|].
  change (x_id CancelSample.x) with "x1" in Hst. rewrite Hst, decide_True; [done|].
  apply Hids. exists N_PENDING. split; vm_compute; reflexivity.
Defined.

(** A cancellation between the end of a node and the return of its event's
    fan-out: the scheduler then starts the node that was cancelled, and the
    execution that was cancelled ends as completed. *)
Example cancelled_node_starts :
  let started :=
    SchedulerSample.after (take 4 (SchedulerSample.work "a"))
      (SchedulerSample.start 1 None None SchedulerSample.chain) in
  let look s := (n_status <$> rows_of "x1" (sc_store s), x_status <$> dag_executions (sc_store s) !! "x1") in
  match started with
  | None => False
  | Some s =>
      let loaded := SchedulerSample.load (rows_of "x1" (sc_store s)) in
      let '(ids, c) := cancel "x1" 8 loaded (sc_store s) in
      let s1 := set_store (cn_store c) s in
      ids = Ok {[ "b" ]} ∧ cn_requests c = [] ∧ look s1 = ([N_COMPLETED; N_CANCELLED], Some "cancelled") ∧
      look <$> SchedulerSample.play [EventSent "a" 9] s1 = Some ([N_COMPLETED; N_RUNNING], Some "cancelled") ∧
      (λ s, look (finish_run "x1" 12 s).2) <$> SchedulerSample.play (EventSent "a" 9 :: SchedulerSample.work "b") s1 =
        Some ([N_COMPLETED; N_COMPLETED], Some "completed")
  end.
Proof. vm_compute. repeat split. Qed.
