(* ===== verification/SideEffectJournal.v ===== *)
(** * The side-effect journal

    Models src/src/tianshu/storage/side_effect_journal.py: the journal that
    records the intent of an external effect before it happens and its receipt
    or its uncertainty afterwards.  Every write is fenced by the attempt
    ledger: the caller presents an attempt, an owner and a fencing token, and
    [require_current] of AttemptLedger.v decides whether they are current.

    The [_current] methods run on the connection of the caller's unit of work;
    the others open a unit of work of their own.  [redact_text] is the text
    redactor the credential check of the contracts uses. *)

From S2P Require Import Prelude.
From S2P Require Import Sql.
From S2P Require Import Canonical.
From S2P Require Import Timestamp.
From S2P Require Import SensitivePayload.
From S2P Require Import UnitOfWork.
From S2P Require Import Models.
From S2P Require Import Schema.
From S2P Require Import Correlation.
From S2P Require Import AttemptLedger.
From S2P Require Import Fencing.

(** Python's [==] on two intents and on two receipts: metadata compare as dicts. *)
Definition intents_equal (i j : SideEffectIntentV1) : bool :=
  py_eq (JObj (request_metadata i)) (JObj (request_metadata j)) &&
  bool_decide (i = mkIntent (intent_id j) (effect_id j) (i_edict_id j) (i_memorial_id j) (i_attempt_id j)
                     (i_owner_id j) (i_fencing_token j) (sequence_no j) (boundary j) (operation j)
                     (semantics j) (provider_idempotency_key j) (request_metadata i) (request_hash j)
                     (intent_hash j) (i_status j) (i_reason_code j) (i_version j) (i_created_at j)
                     (i_updated_at j)).
Definition receipts_equal (x y : SideEffectReceiptV1) : bool :=
  py_eq (JObj (result_metadata x)) (JObj (result_metadata y)) &&
  bool_decide (x = mkReceipt (rc_intent_id y) (rc_effect_id y) (rct_edict_id y) (rct_memorial_id y)
                     (rc_attempt_id y) (rc_owner_id y) (rc_fencing_token y) (provider_receipt_id y)
                     (result_metadata x) (result_hash y) (rc_version y) (effective_at y) (recorded_at y)).

(** The row [begin_intent_current] inserts. *)
Definition fresh_row (i : SideEffectIntentV1) (correlation_id : string) : journal_row :=
  mkJournalRow
    (mkIntent (intent_id i) (effect_id i) (i_edict_id i) (i_memorial_id i) (i_attempt_id i) (i_owner_id i)
       (i_fencing_token i) (sequence_no i) (boundary i) (operation i) (semantics i)
       (provider_idempotency_key i) (request_metadata i) (request_hash i) (intent_hash i) INTENDED None 1
       (i_created_at i) (i_updated_at i))
    None None (Some correlation_id).
(** The columns [UPDATE ... SET status = ?] writes on the intent. *)
Definition set_intent (s : SideEffectStatus) (reason : option string) (at_ : Z) (i : SideEffectIntentV1) :
    SideEffectIntentV1 :=
  mkIntent (intent_id i) (effect_id i) (i_edict_id i) (i_memorial_id i) (i_attempt_id i) (i_owner_id i)
    (i_fencing_token i) (sequence_no i) (boundary i) (operation i) (semantics i)
    (provider_idempotency_key i) (request_metadata i) (request_hash i) (intent_hash i) s reason
    (i_version i + 1) (i_created_at i) at_.
Definition set_receipted (x : SideEffectReceiptV1) (r : journal_row) : journal_row :=
  mkJournalRow (set_intent RECEIPTED (i_reason_code (j_intent r)) (recorded_at x) (j_intent r))
    (j_uncertainty_decision_id r)
    (Some (mkReceiptColumns (rc_attempt_id x) (rc_owner_id x) (rc_fencing_token x) (provider_receipt_id x)
             (result_metadata x) (result_hash x) (effective_at x) (recorded_at x)))
    (j_correlation_id r).
Definition set_uncertain (reason decision : string) (at_ : Z) (r : journal_row) : journal_row :=
  mkJournalRow (set_intent UNCERTAIN (Some reason) at_ (j_intent r)) (Some decision) (j_receipt r)
    (j_correlation_id r).
(** [WHERE ... status='intended' AND version=?] *)
Definition intended_at (version : Z) (r : journal_row) : bool :=
  bool_decide (i_status (j_intent r) = INTENDED) && (i_version (j_intent r) =? version).

(** The receipt the columns of a row hold. *)
Definition receipt_of (i : SideEffectIntentV1) (c : receipt_columns) : SideEffectReceiptV1 :=
  mkReceipt (intent_id i) (effect_id i) (i_edict_id i) (i_memorial_id i) (receipt_attempt_id c)
    (receipt_owner_id c) (receipt_fencing_token c) (j_provider_receipt_id c) (receipt_metadata c)
    (j_result_hash c) (i_version i) (j_effective_at c) (j_recorded_at c).

(** [_require_current_authority] *)
Definition require_current_authority (attempt_id owner_id : string) (token : Z) (now : datetime) : M db unit :=
  try_except (require_current attempt_id owner_id token now) AttemptFenceLost
    (λ _, raise SideEffectConflict "side-effect execution fence is no longer current").

(** [_require_current_origin] *)
Definition require_current_origin (i : SideEffectIntentV1) : M db unit :=
  let! d := get_state in
  let! attempt := sql_get (Row := attempt_row) (i_attempt_id i) in
  guard (match memorials d !! i_memorial_id i, attempt with
         | Some m, Some a =>
             bool_decide (mm_edict_id m = i_edict_id i) &&
             bool_decide (a_memorial_id (at_lease a) = i_memorial_id i)
         | _, _ => false
         end) SideEffectConflict "side-effect root identity conflict" ;;;
  require_current_authority (i_attempt_id i) (i_owner_id i) (i_fencing_token i) (utc_at (i_created_at i)).

(** [_require_current_receipt] *)
Definition require_current_receipt (x : SideEffectReceiptV1) : M db unit :=
  let! attempt := sql_get (Row := attempt_row) (rc_attempt_id x) in
  guard (match attempt with
         | Some a => bool_decide (a_memorial_id (at_lease a) = rct_memorial_id x)
         | None => false
         end) SideEffectConflict "side-effect receipt root conflict" ;;;
  require_current_authority (rc_attempt_id x) (rc_owner_id x) (rc_fencing_token x) (utc_at (recorded_at x)).

(** [require_reconciliation_authority_current] *)
Definition require_reconciliation_authority_current (origin : SideEffectIntentV1)
    (attempt_id owner_id : string) (token : Z) (now : datetime) : M db unit :=
  require_current_authority attempt_id owner_id token now ;;;
  let! origin_row := sql_get (Row := attempt_row) (i_attempt_id origin) in
  let! current_row := sql_get (Row := attempt_row) attempt_id in
  match origin_row, current_row with
  | Some o, Some c =>
      let o := at_lease o in let c := at_lease c in
      guard (bool_decide (a_memorial_id o = i_memorial_id origin) &&
             bool_decide (a_memorial_id c = i_memorial_id origin) &&
             (i_fencing_token origin <=? a_fencing_token o) && (a_fencing_token o <=? token))
        SideEffectConflict "side-effect reconciliation root or origin conflict" ;;;
      let exact_origin :=
        bool_decide (attempt_id = i_attempt_id origin) && bool_decide (owner_id = i_owner_id origin) &&
        (token =? i_fencing_token origin) in
      let reclaimed_origin :=
        bool_decide (attempt_id = i_attempt_id origin) && (i_fencing_token origin <? token) in
      let! lineage := sql_select (Row := attempt_row)
        (λ r, bool_decide (a_memorial_id (at_lease r) = i_memorial_id origin) &&
              (attempt_no o <=? attempt_no (at_lease r)) && (attempt_no (at_lease r) <? attempt_no c)) in
      let descendant :=
        (attempt_no o <? attempt_no c) && (i_fencing_token origin <? token) &&
        (Z.of_nat (length lineage) =? attempt_no c - attempt_no o) &&
        forallb (λ r, bool_decide (a_status (at_lease r) = FAILED)) lineage in
      guard (exact_origin || reclaimed_origin || descendant) SideEffectConflict
        "side-effect reconciliation authority is unrelated"
  | _, _ => raise SideEffectConflict "side-effect reconciliation root or origin conflict"
  end.

Section journal.
Context (redact_text : string → string).

(** [_decode_intent] *)
Definition decode_intent (r : journal_row) : M db SideEffectIntentV1 :=
  guard (intent_valid redact_text (j_intent r)) SideEffectDecodeError
    "persisted side-effect intent violates v1" ;;;
  ret (j_intent r).

(** [_decode_receipt] *)
Definition decode_receipt (r : journal_row) : M db (option SideEffectReceiptV1) :=
  if negb (bool_decide (i_status (j_intent r) = RECEIPTED)) then ret None
  else match j_receipt r with
  | None => raise SideEffectDecodeError "receipt_metadata_json is not text"
  | Some c =>
      guard (receipt_valid redact_text (receipt_of (j_intent r) c) && is_none (i_reason_code (j_intent r)))
        SideEffectDecodeError "persisted side-effect receipt violates v1" ;;;
      ret (Some (receipt_of (j_intent r) c))
  end.

Definition decode_first (row : option journal_row) : M db (option SideEffectIntentV1) :=
  match row with
  | None => ret None
  | Some r => let! i := decode_intent r in ret (Some i)
  end.

(** [load_intent_current] *)
Definition load_intent_current (intent_id : string) : M db (option SideEffectIntentV1) :=
  let! row := sql_get (Row := journal_row) intent_id in decode_first row.
(** [load_by_position_current], [load_by_effect_current]: unique columns *)
Definition load_by_position_current (memorial_id : string) (n : Z) : M db (option SideEffectIntentV1) :=
  let! rows := sql_select (Row := journal_row)
    (λ r, bool_decide (i_memorial_id (j_intent r) = memorial_id) && (sequence_no (j_intent r) =? n)) in
  decode_first (head rows).
Definition load_by_effect_current (e : string) : M db (option SideEffectIntentV1) :=
  let! rows := sql_select (Row := journal_row) (λ r, bool_decide (effect_id (j_intent r) = e)) in
  decode_first (head rows).
(** [load_receipt_current] *)
Definition load_receipt_current (intent_id : string) : M db (option SideEffectReceiptV1) :=
  let! row := sql_get (Row := journal_row) intent_id in
  match row with
  | None => ret None
  | Some r => decode_receipt r
  end.
(** [uncertainty_decision_id_current] *)
Definition uncertainty_decision_id_current (intent_id : string) : M db (option string) :=
  let! row := sql_get (Row := journal_row) intent_id in
  ret (match row with Some r => j_uncertainty_decision_id r | None => None end).

(** The rows that share an identity with an intent. *)
Definition same_effect (i : SideEffectIntentV1) (r : journal_row) : bool :=
  let j := j_intent r in
  bool_decide (intent_id j = intent_id i) || bool_decide (effect_id j = effect_id i) ||
  (bool_decide (i_memorial_id j = i_memorial_id i) && (sequence_no j =? sequence_no i)).

(** [begin_intent_current] *)
Definition begin_intent_current (i : SideEffectIntentV1) : M db SideEffectIntentV1 :=
  guard (bool_decide (i_status i = INTENDED) && (i_version i =? 1)) ValueError
    "new side-effect intent must be intended at version 1" ;;;
  let! rows := sql_select (Row := journal_row) (same_effect i) in
  match head rows with
  | Some r =>
      let! existing := decode_intent r in
      if intents_equal existing i then ret existing
      else raise SideEffectConflict "side-effect intent identity conflict"
  | None =>
      require_current_origin i ;;;
      let! correlation_id := correlation_for_memorial (i_memorial_id i) None in
      try_except
        (let! _ := of_result (canonical_json_bytes (JObj (request_metadata i))) in
         sql_insert (intent_id i) (fresh_row i correlation_id))
        IntegrityError (λ _, raise SideEffectConflict "side-effect intent identity conflict") ;;;
      ret i
  end.

(** [record_receipt_current] *)
Definition record_receipt_current (x : SideEffectReceiptV1) (expected_version : Z) : M db SideEffectReceiptV1 :=
  let! row := sql_get (Row := journal_row) (rc_intent_id x) in
  match row with
  | None => raise SideEffectConflict "side-effect receipt intent is missing"
  | Some r =>
      let! existing_receipt := decode_receipt r in
      match existing_receipt with
      | Some y =>
          if receipts_equal y x && (expected_version <? rc_version y) then ret y
          else raise SideEffectConflict "side-effect receipt conflict"
      | None =>
          let! i := decode_intent r in
          guard (bool_decide (i_status i = INTENDED) && (i_version i =? expected_version) &&
                 (rc_version x =? expected_version + 1) && bool_decide (rc_effect_id x = effect_id i) &&
                 bool_decide (rct_edict_id x = i_edict_id i) && bool_decide (rct_memorial_id x = i_memorial_id i))
            SideEffectConflict "side-effect receipt identity or version conflict" ;;;
          require_current_receipt x ;;;
          let! _ := of_result (canonical_json_bytes (JObj (result_metadata x))) in
          let! rowcount := sql_update (Row := journal_row) (rc_intent_id x) (intended_at expected_version)
                             (set_receipted x) in
          guard (rowcount =? 1) SideEffectConflict "side-effect receipt compare-and-swap conflict" ;;;
          let! durable := load_receipt_current (rc_intent_id x) in
          match durable with
          | None => raise SideEffectConflict "side-effect receipt disappeared"
          | Some y => ret y
          end
      end
  end.

(** [mark_uncertain_current]; the instant of [updated_at] is what its ISO text
    denotes. *)
Definition mark_uncertain_current (id attempt_id owner_id : string) (token expected_version : Z)
    (reason decision : string) (updated_at : datetime) : M db SideEffectIntentV1 :=
  let! found := load_intent_current id in
  match found with
  | None => raise SideEffectConflict "side-effect intent is missing"
  | Some current =>
      if bool_decide (i_status current = UNCERTAIN) then
        let! existing_decision := uncertainty_decision_id_current id in
        if bool_decide (i_reason_code current = Some reason) &&
           bool_decide (existing_decision = Some decision) && (expected_version <? i_version current)
        then ret current
        else raise SideEffectConflict "side-effect uncertainty conflict"
      else
        guard (bool_decide (i_status current = INTENDED) && (i_version current =? expected_version))
          SideEffectConflict "side-effect uncertainty version conflict" ;;;
        require_current_authority attempt_id owner_id token updated_at ;;;
        let! at_ := to_utc updated_at in
        let! rowcount := sql_update (Row := journal_row) id (intended_at expected_version)
                           (set_uncertain reason decision at_) in
        guard (rowcount =? 1) SideEffectConflict "side-effect uncertainty compare-and-swap conflict" ;;;
        let! durable := load_intent_current id in
        match durable with
        | None => raise SideEffectConflict "side-effect uncertainty disappeared"
        | Some i => ret i
        end
  end.

(** The methods that own their transaction. *)
Definition load_intent (id : string) : M (session db) (option SideEffectIntentV1) :=
  with_uow (committing (load_intent_current id)).
Definition load_by_position (memorial_id : string) (n : Z) : M (session db) (option SideEffectIntentV1) :=
  with_uow (committing (load_by_position_current memorial_id n)).
Definition load_receipt (id : string) : M (session db) (option SideEffectReceiptV1) :=
  with_uow (committing (load_receipt_current id)).
Definition begin_intent (i : SideEffectIntentV1) : M (session db) SideEffectIntentV1 :=
  with_uow (committing (begin_intent_current i)).
Definition record_receipt (x : SideEffectReceiptV1) (expected_version : Z) : M (session db) SideEffectReceiptV1 :=
  with_uow (committing (record_receipt_current x expected_version)).
(** [_require_current_authority_in_uow] *)
Definition require_current_authority_in_uow (attempt_id owner_id : string) (token : Z) (now : datetime) :
    M (session db) unit :=
  with_uow (committing (require_current_authority attempt_id owner_id token now)).
(** [mark_uncertain] *)
Definition mark_uncertain (id attempt_id owner_id : string) (token expected_version : Z) (reason : string)
    (decision : option string) (updated_at : datetime) : M (session db) SideEffectIntentV1 :=
  match decision with
  | None =>
      require_current_authority_in_uow attempt_id owner_id token updated_at ;;;
      raise SideEffectConflict "side-effect uncertainty requires a durable decision"
  | Some q =>
      with_uow (committing (mark_uncertain_current id attempt_id owner_id token expected_version reason q updated_at))
  end.

(** ** The invariant *)

Record journal_inv (d : db) : Prop := {
  ji_keyed k r : side_effect_journal d !! k = Some r → intent_id (j_intent r) = k;
  ji_check k r : side_effect_journal d !! k = Some r → journal_row_check d r = true;
  ji_valid k r : side_effect_journal d !! k = Some r → intent_valid redact_text (j_intent r) = true;
  ji_receipt k r c : side_effect_journal d !! k = Some r → i_status (j_intent r) = RECEIPTED →
    j_receipt r = Some c → receipt_valid redact_text (receipt_of (j_intent r) c) = true;
  ji_unique k k' r r' : side_effect_journal d !! k = Some r → side_effect_journal d !! k' = Some r' → k ≠ k' →
    journal_row_conflict r r' = false;
}.

Definition with_journal (k : string) (r : journal_row) (d : db) : db :=
  set_side_effect_journal (<[k := r]> (side_effect_journal d)) d.

Lemma row_conflict_sym r r' : journal_row_conflict r r' = journal_row_conflict r' r.
Proof.
  unfold journal_row_conflict. apply eq_bool_prop_intro. rewrite !Is_true_true, !orb_true_iff, !andb_true_iff.
  rewrite !bool_decide_eq_true, !Z.eqb_eq, !is_some_true.
  split; intros [[H|[H H']]|[[H H''] H']]; [left; left|left; right|right|left; left|left; right|right];
    try split; try split; congruence || (rewrite ?H' in *; rewrite <-?H' in *; done).
Qed.

Lemma journal_put_inv d k r :
  journal_inv d → intent_id (j_intent r) = k → journal_row_check d r = true →
  unique_ok (side_effect_journal d) k r = true → intent_valid redact_text (j_intent r) = true →
  (∀ c, i_status (j_intent r) = RECEIPTED → j_receipt r = Some c →
     receipt_valid redact_text (receipt_of (j_intent r) c) = true) →
  journal_inv (with_journal k r d).
Proof.
  intros Hi Hk Hc Hu Hv Hr. rewrite unique_ok_spec in Hu. unfold with_journal.
  assert (Hl : ∀ k' r', side_effect_journal (set_side_effect_journal (<[k:=r]> (side_effect_journal d)) d) !! k' = Some r' →
    (k' = k ∧ r' = r) ∨ (k' ≠ k ∧ side_effect_journal d !! k' = Some r')).
  { intros k' r' H. cbn in H. destruct (decide (k' = k)) as [->|]; [rewrite lookup_insert_eq in H; left|
      rewrite lookup_insert_ne in H by done; right]; (split; [done|congruence]). }
  split.
  - intros k' r' [[-> ->]|[_ H]]%Hl; [done|by apply (ji_keyed d Hi)].
  - intros k' r' [[-> ->]|[_ H]]%Hl; [exact Hc|exact (ji_check d Hi _ _ H)].
  - intros k' r' [[-> ->]|[_ H]]%Hl; [exact Hv|exact (ji_valid d Hi _ _ H)].
  - intros k' r' c [[-> ->]|[_ H]]%Hl; [exact (Hr c)|exact (ji_receipt d Hi _ _ c H)].
  - intros k1 k2 r1 r2 [[-> ->]|[N1 H1]]%Hl [[-> ->]|[N2 H2]]%Hl Hne; [done| | |].
    + by apply (Hu k2).
    + rewrite row_conflict_sym. by apply (Hu k1).
    + by apply (ji_unique d Hi k1 k2).
Qed.

(** ** Authority *)

(** The authority presented holds its attempt at the given time. *)
Definition current (d : db) (attempt owner : string) (token : Z) : Prop :=
  ∃ t, is_Some (held_row d attempt owner token t).

Lemma require_current_Ok_inv id owner token now d u d' :
  require_current_authority id owner token now d = (Ok u, d') →
  d' = d ∧ ∃ t, to_utc now d = (Ok t, d) ∧ is_Some (held_row d id owner token t).
Proof.
  unfold require_current_authority. intros H%try_raise_Ok_inv. by apply require_current_held in H.
Qed.

Lemma require_origin_Ok_inv i d u d' :
  require_current_origin i d = (Ok u, d') →
  d' = d ∧ current d (i_attempt_id i) (i_owner_id i) (i_fencing_token i).
Proof.
  unfold require_current_origin. intros H. rewrite bind_get_state, bind_sql_get in H.
  apply bind_Ok_inv in H as (u1 & d1 & [_ ->]%guard_Ok_inv & H).
  apply require_current_Ok_inv in H as (-> & t & _ & Hr). split; [done|]. by exists t.
Qed.
Lemma require_receipt_Ok_inv x d u d' :
  require_current_receipt x d = (Ok u, d') →
  d' = d ∧ current d (rc_attempt_id x) (rc_owner_id x) (rc_fencing_token x).
Proof.
  unfold require_current_receipt. intros H. rewrite bind_sql_get in H.
  apply bind_Ok_inv in H as (u1 & d1 & [_ ->]%guard_Ok_inv & H).
  apply require_current_Ok_inv in H as (-> & t & _ & Hr). split; [done|]. by exists t.
Qed.

(** ** Beginning an intent *)

Lemma intent_reason i :
  intent_valid redact_text i = true → i_status i ≠ UNCERTAIN → i_reason_code i = None.
Proof.
  unfold intent_valid. rewrite !andb_true_iff. intros [_ H] Hs. apply bool_decide_eq_true in H.
  rewrite bool_decide_eq_false_2 in H by done. by destruct (i_reason_code i).
Qed.
Lemma fresh_row_intent i c :
  intent_valid redact_text i = true → i_status i = INTENDED → i_version i = 1 → j_intent (fresh_row i c) = i.
Proof.
  intros Hv Hs Hn. assert (Hr : i_reason_code i = None) by (apply intent_reason; [exact Hv|by rewrite Hs]).
  clear Hv. destruct i. cbn in *. by subst.
Qed.

(** Two rows of the journal that share an identity with one intent, one of
    them equal to it, are the same row. *)
Lemma same_effect_unique d i k k' r r' :
  journal_inv d → side_effect_journal d !! k = Some r → side_effect_journal d !! k' = Some r' →
  intents_equal (j_intent r) i = true → same_effect i r' = true → r' = r.
Proof.
  intros Hi Hk Hk' He Hs. unfold intents_equal in He. apply andb_true_iff in He as [_ He].
  apply bool_decide_eq_true in He.
  assert (Hf : intent_id (j_intent r) = intent_id i ∧ effect_id (j_intent r) = effect_id i ∧
    i_memorial_id (j_intent r) = i_memorial_id i ∧ sequence_no (j_intent r) = sequence_no i) by (by rewrite He).
  clear He. destruct Hf as (F1 & F2 & F3 & F4).
  destruct (decide (k = k')) as [->|Hne]; [congruence|]. exfalso.
  pose proof (ji_unique d Hi _ _ _ _ Hk Hk' Hne) as Hc. unfold journal_row_conflict in Hc.
  apply orb_false_iff in Hc as [[Hc1 Hc2]%orb_false_iff _]. apply bool_decide_eq_false in Hc1.
  unfold same_effect in Hs. apply orb_true_iff in Hs as [[Hs|Hs]%orb_true_iff|Hs].
  - apply bool_decide_eq_true in Hs. apply Hne.
    rewrite <-(ji_keyed d Hi _ _ Hk), <-(ji_keyed d Hi _ _ Hk'). congruence.
  - apply bool_decide_eq_true in Hs. congruence.
  - apply andb_true_iff in Hs as [Hs1%bool_decide_eq_true Hs2%Z.eqb_eq].
    apply andb_false_iff in Hc2 as [Hc2|Hc2]; bools; congruence.
Qed.

Lemma decode_intent_eq d k r :
  journal_inv d → side_effect_journal d !! k = Some r → decode_intent r d = (Ok (j_intent r), d).
Proof. intros Hi Hk. unfold decode_intent. by rewrite (ji_valid d Hi _ _ Hk). Qed.

(** Any row that shares an identity with the intent decides the call. *)
Lemma begin_existing d i k r :
  journal_inv d → i_status i = INTENDED → i_version i = 1 →
  side_effect_journal d !! k = Some r → same_effect i r = true →
  begin_intent_current i d =
    (if intents_equal (j_intent r) i then Ok (j_intent r)
     else Err (Exn SideEffectConflict "side-effect intent identity conflict"), d).
Proof.
  intros Hi Hs Hv Hk Hsame. unfold begin_intent_current.
  assert (Hg : bool_decide (i_status i = INTENDED) && (i_version i =? 1) = true).
  { rewrite bool_decide_eq_true_2 by done. by apply Z.eqb_eq. }
  rewrite Hg, (bind_Ok _ _ _ _ _ (guard_true _ _ d)), bind_sql_select.
  destruct (where_rows (same_effect i) (tbl d)) as [|r1 rows] eqn:E.
  { assert (Hin : r ∈ where_rows (same_effect i) (side_effect_journal d)) by (apply elem_of_where_rows; eauto).
    cbn in E. rewrite E in Hin. set_solver. }
  assert (Hr1 : r1 ∈ where_rows (same_effect i) (side_effect_journal d)) by (cbn in E; rewrite E; left).
  apply elem_of_where_rows in Hr1 as [Hs1 [k1 Hk1]]. cbn [head].
  rewrite (bind_Ok _ _ _ _ _ (decode_intent_eq d k1 r1 Hi Hk1)).
  destruct (intents_equal (j_intent r) i) eqn:Er.
  - pose proof (same_effect_unique d i k k1 r r1 Hi Hk Hk1 Er Hs1) as ->. by rewrite Er.
  - destruct (intents_equal (j_intent r1) i) eqn:Er1; [|done].
    pose proof (same_effect_unique d i k1 k r1 r Hi Hk1 Hk Er1 Hsame) as ->. congruence.
Qed.

Lemma begin_Ok_inv d i j d' :
  begin_intent_current i d = (Ok j, d') →
  i_status i = INTENDED ∧ i_version i = 1 ∧
  ((d' = d ∧ ∃ k r, side_effect_journal d !! k = Some r ∧ intents_equal (j_intent r) i = true) ∨
   (∃ c, side_effect_journal d !! intent_id i = None ∧ j = i ∧ d' = with_journal (intent_id i) (fresh_row i c) d ∧
      journal_row_check d (fresh_row i c) = true ∧
      unique_ok (side_effect_journal d) (intent_id i) (fresh_row i c) = true ∧
      current d (i_attempt_id i) (i_owner_id i) (i_fencing_token i))).
Proof.
  unfold begin_intent_current. intros H. apply bind_Ok_inv in H as (u & d1 & [Hg ->]%guard_Ok_inv & H).
  apply andb_true_iff in Hg as [Hs%bool_decide_eq_true Hv%Z.eqb_eq]. split; [done|]. split; [done|].
  rewrite bind_sql_select in H. destruct (head _) as [r|] eqn:Hh.
  - left. apply head_Some in Hh as [rows Hh].
    assert (Hin : r ∈ where_rows (same_effect i) (side_effect_journal d)) by (cbn in Hh; rewrite Hh; left).
    apply elem_of_where_rows in Hin as [_ [k Hk]]. apply bind_Ok_inv in H as (e & d1 & H1 & H). unfold decode_intent in H1.
    apply bind_Ok_inv in H1 as (u1 & d2 & [_ ->]%guard_Ok_inv & [-> ->]%ret_Ok_inv).
    destruct (intents_equal _ _) eqn:He; [apply ret_Ok_inv in H as [_ ->]|done]. split; [done|]. by exists k, r.
  - right. apply bind_Ok_inv in H as (u1 & d1 & [-> Hcur]%require_origin_Ok_inv & H).
    apply bind_Ok_inv in H as (c & d1 & Hc & H). pose proof (correlation_state (i_memorial_id i) None d) as Hst.
    rewrite Hc in Hst. cbn in Hst. subst d1. apply bind_Ok_inv in H as (u2 & d1 & Hins & [-> ->]%ret_Ok_inv).
    apply try_raise_Ok_inv in Hins. apply bind_Ok_inv in Hins as (b & d2 & [_ ->]%of_result_Ok_inv & Hins).
    apply sql_insert_Ok_inv in Hins as (Hn & Hck & Hu & ->). exists c. done.
Qed.

(** ** Receipts and uncertainty *)

Lemma decode_receipt_eq d k r :
  journal_inv d → side_effect_journal d !! k = Some r →
  decode_receipt r d =
    (Ok (if bool_decide (i_status (j_intent r) = RECEIPTED) then receipt_of (j_intent r) <$> j_receipt r else None), d).
Proof.
  intros Hi Hk. unfold decode_receipt. destruct (bool_decide_reflect (i_status (j_intent r) = RECEIPTED)) as [Hs|Hs]; [|done].
  cbn [negb]. pose proof (ji_check d Hi _ _ Hk) as Hc. unfold journal_row_check in Hc. rewrite Hs in Hc.
  apply andb_true_iff in Hc as [_ Hc]. apply andb_true_iff in Hc as [Hc Hj]. apply andb_true_iff in Hc as [Hc _].
  destruct (j_receipt r) as [c|] eqn:Er; [|done]. by rewrite (ji_receipt d Hi _ _ c Hk Hs Er), Hc.
Qed.
Lemma decode_receipt_state r d y d' : decode_receipt r d = (Ok y, d') → d' = d.
Proof.
  unfold decode_receipt. destruct (negb _); [by intros [_ ->]%ret_Ok_inv|]. destruct (j_receipt r); [|done].
  intros H. apply bind_Ok_inv in H as (u & d1 & [_ ->]%guard_Ok_inv & [_ ->]%ret_Ok_inv). done.
Qed.

Lemma record_Ok_inv d x v y d' :
  journal_inv d → record_receipt_current x v d = (Ok y, d') →
  (d' = d ∧ ∃ r, side_effect_journal d !! rc_intent_id x = Some r ∧ i_status (j_intent r) = RECEIPTED) ∨
  (∃ r, side_effect_journal d !! rc_intent_id x = Some r ∧ intended_at v r = true ∧
     y = receipt_of (j_intent (set_receipted x r))
           (mkReceiptColumns (rc_attempt_id x) (rc_owner_id x) (rc_fencing_token x) (provider_receipt_id x)
              (result_metadata x) (result_hash x) (effective_at x) (recorded_at x)) ∧
     receipt_valid redact_text y = true ∧
     rc_version x = v + 1 ∧ rc_effect_id x = effect_id (j_intent r) ∧
     rct_edict_id x = i_edict_id (j_intent r) ∧ rct_memorial_id x = i_memorial_id (j_intent r) ∧
     d' = with_journal (rc_intent_id x) (set_receipted x r) d ∧
     journal_row_check d (set_receipted x r) = true ∧
     unique_ok (side_effect_journal d) (rc_intent_id x) (set_receipted x r) = true ∧
     current d (rc_attempt_id x) (rc_owner_id x) (rc_fencing_token x)).
Proof.
  intros Hi H. unfold record_receipt_current in H. rewrite bind_sql_get in H. cbn in H.
  destruct (side_effect_journal d !! rc_intent_id x) as [r|] eqn:Hk; [|done].
  apply bind_Ok_inv in H as (o & d1 & Ho & H). pose proof (decode_receipt_state _ _ _ _ Ho) as ->.
  destruct o as [z|].
  { left. rewrite (decode_receipt_eq d _ r Hi Hk) in Ho.
    destruct (bool_decide_reflect (i_status (j_intent r) = RECEIPTED)) as [Hs|]; [|done].
    destruct (_ && _); [apply ret_Ok_inv in H as [_ ->]|done]. split; [done|]. by exists r. }
  rewrite (bind_Ok _ _ _ _ _ (decode_intent_eq d _ r Hi Hk)) in H.
  apply bind_Ok_inv in H as (u & d1 & [Hg ->]%guard_Ok_inv & H).
  apply bind_Ok_inv in H as (u1 & d1 & [-> Hcur]%require_receipt_Ok_inv & H).
  apply bind_Ok_inv in H as (b & d1 & [_ ->]%of_result_Ok_inv & H).
  apply bind_Ok_inv in H as (n & d1 & Hup & H). apply bind_Ok_inv in H as (u2 & d2 & [Hn ->]%guard_Ok_inv & H).
  apply Z.eqb_eq in Hn. subst n. apply sql_update_Ok_inv in Hup as [(_ & r' & Hk' & Hcond & Hck & Hu & ->)|[? _]]; [|done].
  cbn in Hk'. rewrite Hk in Hk'. injection Hk' as <-. right. exists r. split; [done|]. split; [exact Hcond|].
  rewrite !andb_true_iff in Hg. destruct Hg as [[[[[_ _] Hv%Z.eqb_eq] He%bool_decide_eq_true] Hed%bool_decide_eq_true]
    Hm%bool_decide_eq_true].
  apply bind_Ok_inv in H as (o & d2 & Hl & H). unfold load_receipt_current in Hl. rewrite bind_sql_get in Hl.
  cbn in Hl. rewrite lookup_insert_eq in Hl. unfold decode_receipt in Hl. cbn [negb bool_decide] in Hl.
  change (bool_decide (i_status (j_intent (set_receipted x r)) = RECEIPTED)) with true in Hl. cbn [negb] in Hl.
  cbn [set_receipted j_receipt] in Hl. apply bind_Ok_inv in Hl as (u3 & d3 & [Hval ->]%guard_Ok_inv & [-> ->]%ret_Ok_inv).
  apply ret_Ok_inv in H as [-> ->]. apply andb_true_iff in Hval as [Hval _].
  repeat split; done.
Qed.

Lemma mark_Ok_inv d id attempt owner token v reason decision at_ j d' :
  journal_inv d → mark_uncertain_current id attempt owner token v reason decision at_ d = (Ok j, d') →
  (d' = d ∧ ∃ r, side_effect_journal d !! id = Some r ∧ i_status (j_intent r) = UNCERTAIN) ∨
  (∃ r t, side_effect_journal d !! id = Some r ∧ intended_at v r = true ∧ to_utc at_ d = (Ok t, d) ∧
     j = j_intent (set_uncertain reason decision t r) ∧ intent_valid redact_text j = true ∧
     d' = with_journal id (set_uncertain reason decision t r) d ∧
     journal_row_check d (set_uncertain reason decision t r) = true ∧
     unique_ok (side_effect_journal d) id (set_uncertain reason decision t r) = true ∧
     current d attempt owner token).
Proof.
  intros Hi H. unfold mark_uncertain_current in H. unfold load_intent_current at 1 in H.
  apply bind_Ok_inv in H as (o & d1 & Ho & H). rewrite bind_sql_get in Ho. cbn in Ho.
  destruct (side_effect_journal d !! id) as [r|] eqn:Hk; [|by apply ret_Ok_inv in Ho as [-> ->]].
  cbn [decode_first] in Ho. rewrite (bind_Ok _ _ _ _ _ (decode_intent_eq d _ r Hi Hk)) in Ho.
  apply ret_Ok_inv in Ho as [-> ->]. destruct (bool_decide_reflect (i_status (j_intent r) = UNCERTAIN)) as [Hst|_].
  { left. split; [|by exists r]. apply bind_Ok_inv in H as (q & d1 & Hq & H). unfold uncertainty_decision_id_current in Hq.
    rewrite bind_sql_get in Hq. apply ret_Ok_inv in Hq as [_ ->].
    destruct (_ && _); [by apply ret_Ok_inv in H as [_ ->]|done]. }
  right. apply bind_Ok_inv in H as (u & d1 & [Hg ->]%guard_Ok_inv & H).
  apply bind_Ok_inv in H as (u1 & d1 & (-> & t & Ht & Hcur)%require_current_Ok_inv & H).
  rewrite (bind_Ok _ _ _ _ _ Ht) in H.
  apply bind_Ok_inv in H as (n & d1 & Hup & H). apply bind_Ok_inv in H as (u2 & d2 & [Hn ->]%guard_Ok_inv & H).
  apply Z.eqb_eq in Hn. subst n. apply sql_update_Ok_inv in Hup as [(_ & r' & Hk' & Hcond & Hck & Hu & ->)|[? _]]; [|done].
  cbn in Hk'. rewrite Hk in Hk'. injection Hk' as <-. exists r, t. split; [done|]. split; [exact Hcond|].
  split; [exact Ht|]. apply bind_Ok_inv in H as (o & d2 & Hl & H). unfold load_intent_current in Hl.
  rewrite bind_sql_get in Hl. cbn in Hl. rewrite lookup_insert_eq in Hl. unfold decode_first, decode_intent in Hl.
  apply bind_Ok_inv in Hl as (i & d3 & Hl & [-> ->]%ret_Ok_inv).
  apply bind_Ok_inv in Hl as (u3 & d4 & [Hval ->]%guard_Ok_inv & [-> ->]%ret_Ok_inv). apply ret_Ok_inv in H as [-> ->].
  split; [done|]. split; [exact Hval|]. split; [done|]. split; [exact Hck|]. split; [exact Hu|]. by exists t.
Qed.

Lemma receipted_valid i at_ :
  intent_valid redact_text i = true → i_status i = INTENDED → i_created_at i ≤ at_ →
  intent_valid redact_text (set_intent RECEIPTED (i_reason_code i) at_ i) = true.
Proof.
  intros Hv Hs Ht. assert (Hr : i_reason_code i = None) by (apply intent_reason; [exact Hv|by rewrite Hs]).
  unfold intent_valid in *. rewrite Hr in *.
  change (intent_payload (set_intent RECEIPTED None at_ i)) with (intent_payload i). cbn [set_intent
    intent_id effect_id i_edict_id i_memorial_id i_attempt_id i_owner_id i_fencing_token sequence_no boundary
    operation semantics provider_idempotency_key request_metadata request_hash intent_hash i_status
    i_reason_code i_version i_created_at i_updated_at].
  rewrite !andb_true_iff in Hv |- *.
  destruct Hv as [[[[[[[[[[[[[[[[[[[[[A1 A2] A3] A4] A5] A6] A7] A8] A9] A10] A11] A12] A13] A14] A15] A16] A17]
    A18] A19] A20] A21] A22].
  apply Z.leb_le in A6. repeat split; try assumption; try exact eq_refl; apply Z.leb_le; lia.
Qed.

(** ** Calls, in their transactions *)

Inductive journal_op :=
  | JBegin (i : SideEffectIntentV1)
  | JReceipt (x : SideEffectReceiptV1) (expected_version : Z)
  | JUncertain (id attempt owner : string) (token expected_version : Z) (reason decision : string) (at_ : datetime).

(** The authority a call presents. *)
Definition op_authority (op : journal_op) : string * string * Z :=
  match op with
  | JBegin i => (i_attempt_id i, i_owner_id i, i_fencing_token i)
  | JReceipt x _ => (rc_attempt_id x, rc_owner_id x, rc_fencing_token x)
  | JUncertain _ attempt owner token _ _ _ _ => (attempt, owner, token)
  end.
(** Arguments are valid contracts, and a receipt is not recorded before its
    intent was created. *)
Definition journal_op_ok (d : db) (op : journal_op) : Prop :=
  match op with
  | JBegin i => intent_valid redact_text i = true
  | JReceipt x _ =>
      ∀ r, side_effect_journal d !! rc_intent_id x = Some r → i_created_at (j_intent r) ≤ recorded_at x
  | JUncertain _ _ _ _ _ _ _ _ => True
  end.
Definition exec_journal (op : journal_op) (d : db) : db :=
  match op with
  | JBegin i => (atomically (begin_intent_current i) d).2
  | JReceipt x v => (atomically (record_receipt_current x v) d).2
  | JUncertain id attempt owner token v reason decision at_ =>
      (atomically (mark_uncertain_current id attempt owner token v reason decision at_) d).2
  end.

(** The life of a journal row. *)
Inductive journal_edge : option journal_row → journal_row → Prop :=
  | edge_begin i c : i_status i = INTENDED → i_version i = 1 → journal_edge None (fresh_row i c)
  | edge_receipt r x : i_status (j_intent r) = INTENDED → journal_edge (Some r) (set_receipted x r)
  | edge_uncertain r reason decision t :
      i_status (j_intent r) = INTENDED → journal_edge (Some r) (set_uncertain reason decision t r).

Lemma exec_cases {A} (m : M db A) d : (atomically m d).2 = d ∨ ∃ a d', m d = (Ok a, d') ∧ (atomically m d).2 = d'.
Proof. unfold atomically. destruct (m d) as [[a|e] d'] eqn:E; [right; eauto|by left]. Qed.

Lemma exec_journal_ok op d :
  journal_inv d → journal_op_ok d op →
  let d' := exec_journal op d in
  journal_inv d' ∧
  (d' = d ∨ ∃ k r', d' = with_journal k r' d ∧ journal_edge (side_effect_journal d !! k) r' ∧
     (let '(attempt, owner, token) := op_authority op in current d attempt owner token)).
Proof.
  intros Hi Hok. destruct op as [i|x v|id attempt owner token v reason decision at_]; cbn [exec_journal op_authority].
  - destruct (exec_cases (begin_intent_current i) d) as [->|(j & d' & H & ->)]; [by split; [|left]|].
    apply begin_Ok_inv in H as (Hs & Hv & [[-> _]|(c & Hn & -> & -> & Hck & Hu & Hcur)]); [by split; [|left]|].
    pose proof (fresh_row_intent i c Hok Hs Hv) as Hf. split.
    + apply journal_put_inv; [done|by rewrite Hf|exact Hck|exact Hu|rewrite Hf; exact Hok|]. rewrite Hf. congruence.
    + right. exists (intent_id i), (fresh_row i c). split; [done|]. split; [|exact Hcur]. rewrite Hn. by apply edge_begin.
  - destruct (exec_cases (record_receipt_current x v) d) as [->|(y & d' & H & ->)]; [by split; [|left]|].
    apply record_Ok_inv in H as [[-> _]|(r & Hk & Hin & Hy & Hval & _ & _ & _ & _ & -> & Hck & Hu & Hcur)]; [by split; [|left]| |done].
    apply andb_true_iff in Hin as [Hs%bool_decide_eq_true _]. split.
    + apply journal_put_inv; [done|exact (ji_keyed d Hi _ _ Hk)|exact Hck|exact Hu| |].
      * apply receipted_valid; [exact (ji_valid d Hi _ _ Hk)|done|by apply Hok].
      * intros c _ [= <-]. rewrite <-Hy. exact Hval.
    + right. exists (rc_intent_id x), (set_receipted x r). split; [done|]. split; [|exact Hcur]. rewrite Hk. by apply edge_receipt.
  - destruct (exec_cases (mark_uncertain_current id attempt owner token v reason decision at_) d) as [->|(j & d' & H & ->)];
      [by split; [|left]|].
    apply mark_Ok_inv in H as [[-> _]|(r & t & Hk & Hin & _ & -> & Hval & -> & Hck & Hu & Hcur)]; [by split; [|left]| |done].
    apply andb_true_iff in Hin as [Hs%bool_decide_eq_true _]. split.
    + apply journal_put_inv; [done|exact (ji_keyed d Hi _ _ Hk)|exact Hck|exact Hu|exact Hval|]. intros c H. discriminate H.
    + right. exists id, (set_uncertain reason decision t r). split; [done|]. split; [|exact Hcur]. rewrite Hk. by apply edge_uncertain.
Qed.

Definition journal_step (d d' : db) : Prop := ∃ op, journal_op_ok d op ∧ exec_journal op d = d'.

(** A settled row stays as it is; every row keeps its identity. *)
Definition same_intent (r r' : journal_row) : Prop :=
  journal_row_frozen r r' = true ∧ i_version (j_intent r) ≤ i_version (j_intent r') ∧
  (i_status (j_intent r) ≠ INTENDED → r' = r).
Definition journal_le (d d' : db) : Prop :=
  ∀ k r, side_effect_journal d !! k = Some r → ∃ r', side_effect_journal d' !! k = Some r' ∧ same_intent r r'.

Lemma frozen_refl r : journal_row_frozen r r = true.
Proof.
  unfold journal_row_frozen. rewrite !andb_true_iff, !bool_decide_eq_true, !Z.eqb_eq. repeat split.
Qed.
Lemma frozen_trans r1 r2 r3 :
  journal_row_frozen r1 r2 = true → journal_row_frozen r2 r3 = true → journal_row_frozen r1 r3 = true.
Proof.
  unfold journal_row_frozen. rewrite !andb_true_iff, !bool_decide_eq_true, !Z.eqb_eq.
  intros H H'. repeat match goal with H : _ ∧ _ |- _ => destruct H end. repeat split; congruence.
Qed.
Lemma same_intent_refl r : same_intent r r.
Proof. split; [apply frozen_refl|]. split; [lia|done]. Qed.
Lemma same_intent_trans r1 r2 r3 : same_intent r1 r2 → same_intent r2 r3 → same_intent r1 r3.
Proof.
  intros (F1 & V1 & S1) (F2 & V2 & S2). split; [by eapply frozen_trans|]. split; [lia|].
  intros H. rewrite (S1 H) in *. by apply S2.
Qed.
Lemma edge_same_intent r r' : journal_edge (Some r) r' → same_intent r r'.
Proof.
  inversion 1 as [|? x Hs|? reason decision t Hs]; subst; (split; [exact (frozen_refl r)|]); (split; [cbn; lia|done]).
Qed.

Lemma journal_step_ok d d' : journal_inv d → journal_step d d' → journal_inv d' ∧ journal_le d d'.
Proof.
  intros Hi (op & Hok & <-). destruct (exec_journal_ok op d Hi Hok) as [Hi' H]. split; [exact Hi'|].
  intros k r Hk. destruct H as [->|(k' & r' & -> & He & _)]; [exists r; split; [done|apply same_intent_refl]|].
  destruct (decide (k' = k)) as [->|Hne].
  - exists r'. split; [apply lookup_insert_eq|]. rewrite Hk in He. by apply edge_same_intent.
  - exists r. split; [|apply same_intent_refl]. cbn. by rewrite lookup_insert_ne.
Qed.
Lemma journal_steps_ok d d' : journal_inv d → rtc journal_step d d' → journal_inv d' ∧ journal_le d d'.
Proof.
  intros Hi H. induction H as [d|d d1 d2 H1 _ IH].
  - split; [done|]. intros k r Hk. exists r. split; [done|apply same_intent_refl].
  - destruct (journal_step_ok d d1 Hi H1) as [Hi1 L1]. destruct (IH Hi1) as [Hi2 L2]. split; [done|].
    intros k r Hk. destruct (L1 k r Hk) as (r1 & Hk1 & S1). destruct (L2 k r1 Hk1) as (r2 & Hk2 & S2).
    exists r2. split; [done|]. by eapply same_intent_trans.
Qed.
End journal.

(** ** Theorems *)

Section claims.
Context (redact_text : string → string).

(** Every journal call, in its transaction, keeps the invariant and either changes nothing
    or moves exactly one row along an edge of the specification: a fresh intent, or an
    intended one receipted or marked uncertain at the next version, and then only for an
    authority that currently holds its attempt. *)
Theorem journal_calls_refine op d :
  journal_inv redact_text d → journal_op_ok redact_text d op →
  let d' := exec_journal redact_text op d in
  journal_inv redact_text d' ∧
  (d' = d ∨ ∃ k r', d' = with_journal k r' d ∧ journal_edge (side_effect_journal d !! k) r' ∧
     (let '(attempt, owner, token) := op_authority op in current d attempt owner token)).
Proof. apply exec_journal_ok. Qed.

(** The evidence of a settled effect never changes: a receipted or uncertain row stays as it
    is along any sequence of calls; a receipted effect keeps returning its receipt, accepts
    only a repetition of that receipt and cannot be marked uncertain. *)
Theorem settled_effect_final d d' k r :
  journal_inv redact_text d → side_effect_journal d !! k = Some r → i_status (j_intent r) ≠ INTENDED →
  rtc (journal_step redact_text) d d' →
  side_effect_journal d' !! k = Some r ∧
  (i_status (j_intent r) = RECEIPTED →
   ∃ y, load_receipt_current redact_text k d' = (Ok (Some y), d') ∧
     (∀ x v, rc_intent_id x = k →
        record_receipt_current redact_text x v d' =
          (if receipts_equal y x && (v <? rc_version y) then Ok y
           else Err (Exn SideEffectConflict "side-effect receipt conflict"), d')) ∧
     ∀ attempt owner token v reason decision at_,
       mark_uncertain_current redact_text k attempt owner token v reason decision at_ d' =
         (Err (Exn SideEffectConflict "side-effect uncertainty version conflict"), d')).
Proof.
  intros Hi Hk Hs Hr. destruct (journal_steps_ok redact_text d d' Hi Hr) as [Hi' Hle].
  destruct (Hle k r Hk) as (r' & Hk' & _ & _ & Hsame). rewrite (Hsame Hs) in Hk'. split; [exact Hk'|]. intros Hrec.
  pose proof (decode_receipt_eq redact_text d' k r Hi' Hk') as Hd. rewrite bool_decide_eq_true_2 in Hd by done.
  pose proof (ji_check _ d' Hi' _ _ Hk') as Hc. unfold journal_row_check in Hc. rewrite Hrec in Hc.
  apply andb_true_iff in Hc as [_ Hc]. apply andb_true_iff in Hc as [_ Hc].
  destruct (j_receipt r) as [c|]; [|done]. cbn [fmap option_fmap option_map] in Hd.
  exists (receipt_of (j_intent r) c). split; [|split].
  - unfold load_receipt_current. rewrite bind_sql_get. cbn. rewrite Hk'. exact Hd.
  - intros x v <-. unfold record_receipt_current. rewrite bind_sql_get. cbn [tbl journal_table]. rewrite Hk'.
    rewrite (bind_Ok _ _ _ _ _ Hd). destruct (receipts_equal _ x && _); reflexivity.
  - intros attempt owner token v reason decision at_. unfold mark_uncertain_current, load_intent_current at 1.
    unfold bind at 1. rewrite bind_sql_get. cbn [tbl journal_table]. rewrite Hk'. unfold decode_first.
    rewrite (bind_Ok _ _ _ _ _ (decode_intent_eq redact_text d' k r Hi' Hk')). cbn [ret].
    rewrite Hrec. rewrite !bool_decide_eq_false_2 by done. done.
Qed.

(** Whichever row that shares the intent id, the effect id or the position with a new intent
    is found first, the outcome is the same: the stored intent when it is equal,
    SideEffectConflict otherwise. *)
Theorem begin_decided_by_any_row d i k r :
  journal_inv redact_text d → i_status i = INTENDED → i_version i = 1 →
  side_effect_journal d !! k = Some r → same_effect i r = true →
  begin_intent_current redact_text i d =
    (if intents_equal (j_intent r) i then Ok (j_intent r)
     else Err (Exn SideEffectConflict "side-effect intent identity conflict"), d).
Proof. apply begin_existing. Qed.

(** Fencing reaches the journal: once a memorial has been granted a later lease, no call
    that presents the attempt and token of an earlier grant changes the journal: it cannot
    begin an intent, record a receipt or mark an effect uncertain. *)
Theorem stale_authority_cannot_journal d0 gs d i j l1 l2 op owner :
  ledger_inv d0 → history d0 gs d → (i < j)%nat →
  gs !! i = Some (Some l1) → gs !! j = Some (Some l2) → a_memorial_id l1 = a_memorial_id l2 →
  journal_inv redact_text d → journal_op_ok redact_text d op →
  op_authority op = (attempt_id l1, owner, a_fencing_token l1) →
  exec_journal redact_text op d = d.
Proof.
  intros Hl Hh Hij H1 H2 Hm Hi Hok Ha. destruct (exec_journal_ok redact_text op d Hi Hok) as [_ [H|(k & r' & _ & _ & Hc)]]; [done|].
  exfalso. rewrite Ha in Hc. destruct Hc as [t [r Hc]].
  by rewrite (stale_not_held _ _ _ _ _ _ _ owner t Hl Hh Hij H1 H2 Hm) in Hc.
Qed.
End claims.

(** ** A sample journal *)

(** worker-2 holds attempt A2 of the memorial "m" under token 2 from second 20
    to second 30; worker-1 lost attempt A1 and its token 1. *)
Module JournalSample.
Definition redact (s : string) : string := s.
Definition built (attempt owner : string) (token n : Z) : result SideEffectIntentV1 :=
  build_side_effect_intent redact "send-report" "e" "m" attempt owner token 0 "email" "send" PROVIDER_IDEMPOTENT
    [("to", JStr "team")] (at_s n) None.
Definition dummy : SideEffectIntentV1 :=
  mkIntent "" "" "" "" "" "" 0 0 "" "" OPAQUE_CLI None [] "" "" INTENDED None 1 0 0.
Definition intent : SideEffectIntentV1 :=
  Eval vm_compute in match built "A2" "worker-2" 2 21 with Ok i => i | Err _ => dummy end.
Definition stale : SideEffectIntentV1 :=
  Eval vm_compute in match built "A1" "worker-1" 1 21 with Ok i => i | Err _ => dummy end.
Definition result_digest : string :=
  Eval vm_compute in match canonical_sha256 (JObj [("accepted", JBool true)]) with Ok h => h | Err _ => "" end.
Definition receipt (n : Z) : SideEffectReceiptV1 :=
  mkReceipt (intent_id intent) "send-report" "e" "m" "A2" "worker-2" 2 "msg-17" [("accepted", JBool true)]
    result_digest 2 (at_s n) (at_s n).
Definition d1 : db := exec_journal redact (JBegin intent) sample_end.
Definition d2 : db := exec_journal redact (JReceipt (receipt 22) 1) d1.

Lemma journal_inv0 : journal_inv redact sample_end.
Proof.
  assert (He : side_effect_journal sample_end = ∅) by (vm_compute; reflexivity).
  split; intros *; rewrite He, lookup_empty; discriminate.
Qed.
Lemma intent_ok : intent_valid redact intent = true.
Proof. vm_compute. reflexivity. Qed.
Lemma stale_ok : intent_valid redact stale = true.
Proof. vm_compute. reflexivity. Qed.
Lemma journal_inv1 : journal_inv redact d1.
Proof. exact (proj1 (exec_journal_ok redact (JBegin intent) sample_end journal_inv0 intent_ok)). Qed.
Definition row1 : journal_row := fresh_row intent (legacy_correlation "m").
Lemma journal_lookup1 : side_effect_journal d1 !! intent_id intent = Some row1.
Proof. vm_compute. reflexivity. Qed.
Lemma receipt_ok : journal_op_ok redact d1 (JReceipt (receipt 22) 1).
Proof.
  intros r Hr. pose proof journal_lookup1 as H. change (rc_intent_id (receipt 22)) with (intent_id intent) in Hr.
  rewrite H in Hr. injection Hr as <-. vm_compute. discriminate.
Qed.
Lemma journal_inv2 : journal_inv redact d2.
Proof. exact (proj1 (exec_journal_ok redact (JReceipt (receipt 22) 1) d1 journal_inv1 receipt_ok)). Qed.
Lemma journal_lookup2 : side_effect_journal d2 !! intent_id intent = Some (set_receipted (receipt 22) row1).
Proof. vm_compute. reflexivity. Qed.

(** A receipt dated before the creation of its intent is accepted while the
    lease is held, and leaves an intent that no longer decodes. *)
Example backdated_receipt :
  let '(r, d) := record_receipt_current redact (receipt 20) 1 d1 in
  r = Ok (receipt 20) ∧
  (load_intent_current redact (intent_id intent) d).1 =
    Err (Exn SideEffectDecodeError "persisted side-effect intent violates v1").
Proof. vm_compute. split; reflexivity. Qed.
End JournalSample.

Lemma journal_calls_refine_witness : journal_inv JournalSample.redact JournalSample.d2.
Proof.
  exact (proj1 (journal_calls_refine JournalSample.redact (JReceipt (JournalSample.receipt 22) 1) JournalSample.d1
    JournalSample.journal_inv1 JournalSample.receipt_ok)).
Defined.

Lemma settled_effect_final_witness :
  side_effect_journal JournalSample.d2 !! intent_id JournalSample.intent =
    Some (set_receipted (JournalSample.receipt 22) JournalSample.row1).
Proof.
  assert (Hs : i_status (j_intent (set_receipted (JournalSample.receipt 22) JournalSample.row1)) ≠ INTENDED)
    by discriminate.
  exact (proj1 (settled_effect_final JournalSample.redact _ _ _ _ JournalSample.journal_inv2 JournalSample.journal_lookup2 Hs
    (rtc_refl _ _))).
Defined.

Lemma begin_decided_by_any_row_witness :
  begin_intent_current JournalSample.redact JournalSample.stale JournalSample.d1 =
    (Err (Exn SideEffectConflict "side-effect intent identity conflict"), JournalSample.d1).
Proof.
  exact (begin_decided_by_any_row JournalSample.redact JournalSample.d1 JournalSample.stale _ JournalSample.row1
    JournalSample.journal_inv1 eq_refl eq_refl JournalSample.journal_lookup1 eq_refl).
Defined.

Lemma stale_authority_cannot_journal_witness :
  exec_journal JournalSample.redact (JBegin JournalSample.stale) sample_end = sample_end.
Proof.
  assert (Hij : (1 < 3)%nat) by lia.
  exact (stale_authority_cannot_journal JournalSample.redact sample_db _ sample_end 1 3 lease_1 lease_2
    (JBegin JournalSample.stale) "worker-1" sample_inv sample_history Hij eq_refl eq_refl eq_refl
    JournalSample.journal_inv0 JournalSample.stale_ok eq_refl).
Defined.
