(* ===== verification/EventBus.v ===== *)
(** * The event bus

    Models src/src/tianshu/bus/event_bus.py: named consumers per event type,
    kept in priority order, local best-effort subscribers, and the dispatch
    that reports the outcome of every consumer.

    A handler is an object that is compared by identity; what it does is the
    parameter [invoke], a computation on a world [W] the bus is a part of, so a
    handler may register or remove consumers while it runs.  [dispatch], [emit]
    and [fire] take their entries when they are called. *)

From Stdlib Require Import Sorted.
From S2P Require Import Prelude.
From S2P Require Import Sql.
From S2P Require Import Schema.
From S2P Require Import Outbox.

(** The identity of a handler object. *)
Definition handler : Type := positive.
#[export] Instance handler_eq_dec : EqDecision handler.
Proof. unfold handler. apply _. Defined.

(** [_HandlerEntry] *)
Record HandlerEntry := mkHandlerEntry {
  he_consumer_name : string;
  he_handler : handler;
  he_priority : Z;
}.
#[export] Instance HandlerEntry_eq_dec : EqDecision HandlerEntry.
Proof. solve_decision. Defined.

(** [_LocalHandlerEntry] *)
Record LocalHandlerEntry := mkLocalHandlerEntry {
  lh_handler : handler;
  lh_priority : Z;
}.
#[export] Instance LocalHandlerEntry_eq_dec : EqDecision LocalHandlerEntry.
Proof. solve_decision. Defined.

Inductive bus_entry :=
  | Durable (e : HandlerEntry)
  | Local_ (e : LocalHandlerEntry).
Definition entry_handler (e : bus_entry) : handler :=
  match e with Durable e => he_handler e | Local_ e => lh_handler e end.
Definition entry_priority (e : bus_entry) : Z :=
  match e with Durable e => he_priority e | Local_ e => lh_priority e end.

Record ConsumerDispatchResult := mkDispatchResult {
  dr_consumer_name : string;
  dr_succeeded : bool;
  dr_error : option exn;
}.
Record DispatchReport := mkReport {
  rp_event_id : string;
  rp_results : list ConsumerDispatchResult;
}.

(** A background task is the fan-out it still has to run. *)
Record EventBus := mkBus {
  handlers : gmap string (list HandlerEntry);
  local_handlers : gmap string (list LocalHandlerEntry);
  background_tasks : list (EventEnvelope * list bus_entry);
}.
Definition make_bus : EventBus := mkBus ∅ ∅ [].

(** [d.get(k, ())] *)
Definition lookup_list {A} (m : gmap string (list A)) (k : string) : list A := default [] (m !! k).
(** [sorted(entries, key=lambda entry: entry.priority)] *)
Definition by_priority {A} (priority : A → Z) : list A → list A :=
  order_by (λ a b, priority a <=? priority b).

(** ** Registration *)

Definition set_handlers (m : gmap string (list HandlerEntry)) (b : EventBus) : EventBus :=
  mkBus m (local_handlers b) (background_tasks b).
Definition set_local_handlers (m : gmap string (list LocalHandlerEntry)) (b : EventBus) : EventBus :=
  mkBus (handlers b) m (background_tasks b).

(** [_consumer_name_is_registered] *)
Definition consumer_name_is_registered (event_type consumer_name : string) (b : EventBus) : bool :=
  let named := λ e, bool_decide (he_consumer_name e = consumer_name) in
  if bool_decide (event_type = "*")
  then existsb named (concat (map_to_list (handlers b)).*2)
  else existsb named (lookup_list (handlers b) "*" ++ lookup_list (handlers b) event_type).

Definition on (event_type : string) (h : handler) (consumer_name : string) (priority : Z) : M EventBus unit :=
  guard (non_blank consumer_name) ValueError "consumer_name must be non-blank" ;;;
  let! b := get_state in
  guard (negb (consumer_name_is_registered event_type consumer_name b)) ValueError
    ("consumer_name '" +:+ consumer_name +:+ "' is already registered for '" +:+ event_type +:+ "'") ;;;
  put_state (set_handlers
    (<[event_type := by_priority he_priority
         (lookup_list (handlers b) event_type ++ [mkHandlerEntry consumer_name h priority])]> (handlers b)) b).

Definition off (event_type : string) (h : handler) : M EventBus unit :=
  let! b := get_state in
  put_state (set_handlers
    (<[event_type := filter (λ e, he_handler e ≠ h) (lookup_list (handlers b) event_type)]> (handlers b)) b).

Definition on_local (event_type : string) (h : handler) (priority : Z) : M EventBus unit :=
  let! b := get_state in
  put_state (set_local_handlers
    (<[event_type := by_priority lh_priority
         (lookup_list (local_handlers b) event_type ++ [mkLocalHandlerEntry h priority])]> (local_handlers b)) b).

Definition off_local (event_type : string) (h : handler) : M EventBus unit :=
  let! b := get_state in
  put_state (set_local_handlers
    (<[event_type := filter (λ e, lh_handler e ≠ h) (lookup_list (local_handlers b) event_type)]>
       (local_handlers b)) b).

Definition local_subscriber_count (event_type : string) (b : EventBus) : nat :=
  length (lookup_list (local_handlers b) event_type).

(** ** Fan-out *)

(** [_entries_for] *)
Definition entries_for (event_type : string) (b : EventBus) : list HandlerEntry :=
  if bool_decide (event_type = "*") then lookup_list (handlers b) event_type
  else by_priority he_priority (lookup_list (handlers b) "*" ++ lookup_list (handlers b) event_type).

(** [_best_effort_entries_for] *)
Definition best_effort_entries_for (event_type : string) (b : EventBus) : list bus_entry :=
  by_priority entry_priority
    ((Durable <$> entries_for event_type b) ++ (Local_ <$> lookup_list (local_handlers b) event_type)).

(** [except Exception]: everything but the cancellation of the task. *)
Definition is_exception (e : exn) : bool := negb (bool_decide (exn_kind e = CancelledError)).
Definition except_exception {S A} (m : M S A) (h : exn → M S A) : M S A := λ s,
  match m s with
  | (Ok a, s') => (Ok a, s')
  | (Err e, s') => if is_exception e then h e s' else (Err e, s')
  end.

Section fan_out.
Context {W : Type} (bus_of : W → EventBus) (set_bus : EventBus → W → W).
Context (invoke : handler → EventEnvelope → M W unit).

(** The loop of [dispatch]. *)
Fixpoint run_consumers (event : EventEnvelope) (skipped : gset string) (entries : list HandlerEntry) :
    M W (list ConsumerDispatchResult) :=
  match entries with
  | [] => ret []
  | e :: rest =>
      if bool_decide (he_consumer_name e ∈ skipped) then run_consumers event skipped rest
      else
        let! result :=
          except_exception
            (invoke (he_handler e) event ;;; ret (mkDispatchResult (he_consumer_name e) true None))
            (λ exc, ret (mkDispatchResult (he_consumer_name e) false (Some exc))) in
        let! results := run_consumers event skipped rest in
        ret (result :: results)
  end.

Definition dispatch (event : EventEnvelope) (skip_consumers : gset string) : M W DispatchReport :=
  let! w := get_state in
  let! results := run_consumers event skip_consumers (entries_for (e_event_type event) (bus_of w)) in
  ret (mkReport (e_event_id event) results).

(** [_run_handlers] *)
Fixpoint run_handlers (event : EventEnvelope) (entries : list bus_entry) : M W unit :=
  match entries with
  | [] => ret tt
  | e :: rest =>
      except_exception (invoke (entry_handler e) event) (λ _, ret tt) ;;; run_handlers event rest
  end.

Definition emit (event : EventEnvelope) : M W unit :=
  let! w := get_state in
  run_handlers event (best_effort_entries_for (e_event_type event) (bus_of w)).

Definition fire (event : EventEnvelope) : M W unit :=
  let! w := get_state in
  let b := bus_of w in
  put_state (set_bus
    (mkBus (handlers b) (local_handlers b)
       (background_tasks b ++ [(event, best_effort_entries_for (e_event_type event) b)])) w).

(** The event loop runs the oldest background task; its done callback removes
    it from the set. *)
Definition run_background : M W unit := λ w,
  match background_tasks (bus_of w) with
  | [] => (Ok tt, w)
  | (event, entries) :: _ =>
      let '(_, w') := run_handlers event entries w in
      let b := bus_of w' in
      (Ok tt, set_bus (mkBus (handlers b) (local_handlers b) (drop 1 (background_tasks b))) w')
  end.
End fan_out.

(** ** Registrations *)

Inductive bus_op :=
  | BOn (event_type : string) (h : handler) (consumer_name : string) (priority : Z)
  | BOff (event_type : string) (h : handler)
  | BOnLocal (event_type : string) (h : handler) (priority : Z)
  | BOffLocal (event_type : string) (h : handler).
Definition exec_bus (b : EventBus) (op : bus_op) : EventBus :=
  match op with
  | BOn t h n p => (on t h n p b).2
  | BOff t h => (off t h b).2
  | BOnLocal t h p => (on_local t h p b).2
  | BOffLocal t h => (off_local t h b).2
  end.

Definition sorted_by {A} (priority : A → Z) (l : list A) : Prop :=
  StronglySorted (λ a b, (priority a <=? priority b) = true) l.

(** Consumers that receive an event together have distinct names that are not
    blank, and every stored list is in priority order. *)
Record bus_inv (b : EventBus) : Prop := {
  bi_any : ∀ t, NoDup (he_consumer_name <$> lookup_list (handlers b) t);
  bi_apart : ∀ t e e', t ≠ "*" → e ∈ lookup_list (handlers b) "*" → e' ∈ lookup_list (handlers b) t →
    he_consumer_name e ≠ he_consumer_name e';
  bi_named : ∀ t e, e ∈ lookup_list (handlers b) t → non_blank (he_consumer_name e) = true;
  bi_sorted : ∀ t, sorted_by he_priority (lookup_list (handlers b) t);
  bi_local_sorted : ∀ t, sorted_by lh_priority (lookup_list (local_handlers b) t);
}.

Lemma by_priority_perm {A} (priority : A → Z) l : by_priority priority l ≡ₚ l.
Proof. apply order_by_perm. Qed.
Lemma by_priority_sorted {A} (priority : A → Z) l : sorted_by priority (by_priority priority l).
Proof.
  apply order_by_sorted; [intros x y|intros x y z]; rewrite ?Z.leb_le; lia.
Qed.
Lemma lookup_list_insert {A} (m : gmap string (list A)) k l k' :
  lookup_list (<[k := l]> m) k' = if decide (k = k') then l else lookup_list m k'.
Proof.
  unfold lookup_list. case_decide as E; [subst; by rewrite lookup_insert_eq|by rewrite lookup_insert_ne].
Qed.
Lemma elem_of_values {A} (m : gmap string (list A)) x :
  x ∈ concat (map_to_list m).*2 ↔ ∃ t, x ∈ lookup_list m t.
Proof.
  rewrite list_elem_of_In, in_concat. split.
  - intros (l & Hl%list_elem_of_In & Hx%list_elem_of_In).
    apply list_elem_of_fmap in Hl as ([t l'] & -> & Hl). apply elem_of_map_to_list in Hl.
    exists t. unfold lookup_list. by rewrite Hl.
  - intros [t Ht]. unfold lookup_list in Ht. destruct (m !! t) as [l|] eqn:E; [|by apply not_elem_of_nil in Ht].
    exists l. rewrite <-!list_elem_of_In. split; [|done]. apply list_elem_of_fmap.
    exists (t, l). by rewrite elem_of_map_to_list.
Qed.

Lemma registered_spec t n b :
  consumer_name_is_registered t n b = true ↔
  ∃ t' e, (t = "*" ∨ t' = "*" ∨ t' = t) ∧ e ∈ lookup_list (handlers b) t' ∧ he_consumer_name e = n.
Proof.
  unfold consumer_name_is_registered. case_bool_decide as Ht; rewrite existsb_exists; setoid_rewrite <-list_elem_of_In;
    setoid_rewrite bool_decide_eq_true.
  - setoid_rewrite elem_of_values. split.
    + intros (e & [t' He] & En). exists t', e. auto.
    + intros (t' & e & _ & He & En). exists e. eauto.
  - setoid_rewrite elem_of_app. split.
    + intros (e & [He|He] & En); [exists "*", e|exists t, e]; auto.
    + intros (t' & e & [?|[->| ->]] & He & En); [done|exists e; auto..].
Qed.

(** What [on] does on each branch. *)
Lemma on_eq t h n p b :
  on t h n p b =
    if negb (non_blank n) then (Err (Exn ValueError "consumer_name must be non-blank"), b)
    else if consumer_name_is_registered t n b then
      (Err (Exn ValueError ("consumer_name '" +:+ n +:+ "' is already registered for '" +:+ t +:+ "'")), b)
    else (Ok tt, set_handlers
      (<[t := by_priority he_priority (lookup_list (handlers b) t ++ [mkHandlerEntry n h p])]> (handlers b)) b).
Proof.
  unfold on, guard. destruct (non_blank n); [|done]. cbn [negb]. rewrite bind_ret, bind_get_state.
  by destruct (consumer_name_is_registered t n b).
Qed.

(** Replacing the list of one type by entries that keep the rules. *)
Lemma bus_inv_replace b t l :
  bus_inv b → NoDup (he_consumer_name <$> l) → sorted_by he_priority l →
  (∀ e, e ∈ l → non_blank (he_consumer_name e) = true ∧
     (e ∈ lookup_list (handlers b) t ∨
      ∀ t' e', (t = "*" ∨ t' = "*") → t ≠ t' → e' ∈ lookup_list (handlers b) t' →
        he_consumer_name e' ≠ he_consumer_name e)) →
  bus_inv (set_handlers (<[t := l]> (handlers b)) b).
Proof.
  intros Hi Hn Hs He. split; cbn; try setoid_rewrite lookup_list_insert.
  - intros t'. case_decide; [done|]. apply (bi_any b Hi).
  - intros t' e e' Ht'. destruct (decide (t = "*")) as [->|Hw].
    + rewrite decide_False by done. intros Hin Hin'. destruct (He e Hin) as [_ [Hold|Hnew]].
      * by apply (bi_apart b Hi t').
      * intros E. by apply (Hnew t' e'); [left| |done|].
    + intros Hin Hin'. destruct (decide (t = t')) as [->|]; [|by apply (bi_apart b Hi t')].
      destruct (He e' Hin') as [_ [Hold|Hnew]]; [by apply (bi_apart b Hi t')|]. apply (Hnew "*"); auto.
  - intros t' e. case_decide; [|apply (bi_named b Hi)]. intros Hin. apply (He e Hin).
  - intros t'. case_decide; [done|]. apply (bi_sorted b Hi).
  - apply (bi_local_sorted b Hi).
Qed.

Lemma on_keeps_inv t h n p b : bus_inv b → bus_inv (on t h n p b).2.
Proof.
  intros Hi. rewrite on_eq. destruct (non_blank n) eqn:Hb; [|done]. cbn [negb].
  destruct (consumer_name_is_registered t n b) eqn:Hr; [done|]. cbn [snd].
  apply not_true_iff_false in Hr. rewrite registered_spec in Hr.
  apply bus_inv_replace; [done| |apply by_priority_sorted|].
  - rewrite by_priority_perm, fmap_app. apply NoDup_app. split; [apply (bi_any b Hi)|].
    split; [|apply NoDup_singleton]. intros x (e & -> & He)%list_elem_of_fmap Hx. cbn in Hx.
    apply list_elem_of_singleton in Hx. apply Hr. exists t, e. auto.
  - intros e. rewrite by_priority_perm, elem_of_app, list_elem_of_singleton. intros [He| ->].
    + split; [by apply (bi_named b Hi t)|by left].
    + cbn. split; [done|]. right. intros t' e' Hw Hne He' E. apply Hr. exists t', e'. naive_solver.
Qed.

Lemma off_keeps_inv t h b : bus_inv b → bus_inv (off t h b).2.
Proof.
  intros Hi. cbn. apply bus_inv_replace; [done| | |].
  - eapply sublist_NoDup; [apply (bi_any b Hi t)|]. apply fmap_sublist, sublist_filter.
  - apply strongly_sorted_filter, (bi_sorted b Hi).
  - intros e [_ He]%list_elem_of_filter. split; [by apply (bi_named b Hi t)|by left].
Qed.

Lemma set_local_keeps_inv b t l :
  bus_inv b → sorted_by lh_priority l → bus_inv (set_local_handlers (<[t := l]> (local_handlers b)) b).
Proof.
  intros [H1 H2 H3 H4 H5] Hs. split; cbn; [done..|]. intros t'. rewrite lookup_list_insert. by case_decide.
Qed.

Lemma bus_inv_exec ops b : bus_inv b → bus_inv (foldl exec_bus b ops).
Proof.
  revert b. induction ops as [|op ops IH]; intros b Hi; [done|]. apply IH. destruct op; cbn [exec_bus].
  - by apply on_keeps_inv.
  - by apply off_keeps_inv.
  - by apply set_local_keeps_inv, by_priority_sorted.
  - apply set_local_keeps_inv; [done|]. apply strongly_sorted_filter, (bi_local_sorted b Hi).
Qed.
Lemma bus_inv_empty : bus_inv make_bus.
Proof. split; intros; cbn in *; try set_solver; constructor. Qed.

(** ** Entries *)

Lemma elem_of_entries_for t b e :
  e ∈ entries_for t b ↔ e ∈ lookup_list (handlers b) "*" ∨ e ∈ lookup_list (handlers b) t.
Proof.
  unfold entries_for. case_bool_decide as Ht; [subst; tauto|]. by rewrite by_priority_perm, elem_of_app.
Qed.

Lemma entries_for_names t b : bus_inv b → NoDup (he_consumer_name <$> entries_for t b).
Proof.
  intros Hi. unfold entries_for. case_bool_decide as Ht; [apply (bi_any b Hi)|].
  rewrite by_priority_perm, fmap_app. apply NoDup_app. split; [apply (bi_any b Hi)|].
  split; [|apply (bi_any b Hi)]. intros x (e & -> & He)%list_elem_of_fmap (e' & E & He')%list_elem_of_fmap.
  by apply (bi_apart b Hi t e e').
Qed.

Lemma entries_for_sorted t b : bus_inv b → sorted_by he_priority (entries_for t b).
Proof.
  intros Hi. unfold entries_for. case_bool_decide; [apply (bi_sorted b Hi)|apply by_priority_sorted].
Qed.

Lemma entries_for_named t b e : bus_inv b → e ∈ entries_for t b → non_blank (he_consumer_name e) = true.
Proof. intros Hi [He|He]%elem_of_entries_for; by eapply (bi_named b Hi). Qed.

Lemma filter_fmap_key {A B} (f : A → B) (key : B → Z) (p : Z) (l : list A) :
  filter (λ y, key y = p) (f <$> l) = f <$> filter (λ x, key (f x) = p) l.
Proof.
  induction l as [|x l IH]; [done|]. rewrite fmap_cons, !filter_cons, IH. by case_decide.
Qed.

(** The wildcard entries that join those of a type. *)
Definition wildcard_entries (t : string) (b : EventBus) : list HandlerEntry :=
  if bool_decide (t = "*") then [] else lookup_list (handlers b) "*".

(** Among entries of one priority the order is wildcard, exact, local, each
    in the order of its own list. *)
Lemma best_effort_order t b p :
  filter (λ e, entry_priority e = p) (best_effort_entries_for t b) =
    (Durable <$> filter (λ e, he_priority e = p) (wildcard_entries t b ++ lookup_list (handlers b) t)) ++
    (Local_ <$> filter (λ e, lh_priority e = p) (lookup_list (local_handlers b) t)).
Proof.
  unfold best_effort_entries_for, by_priority. rewrite order_by_stable, filter_app, !filter_fmap_key. f_equal.
  f_equal. unfold entries_for, wildcard_entries. case_bool_decide; [done|]. apply (order_by_stable he_priority).
Qed.

(** [on] accepts a name exactly when no consumer that would receive an event
    together with the new one has it. *)
Lemma on_accepts t h n p b :
  (on t h n p b).1 = Ok tt ↔
  non_blank n = true ∧ ∀ t', t = "*" ∨ t' = t → n ∉ he_consumer_name <$> entries_for t' b.
Proof.
  rewrite on_eq. destruct (non_blank n); [|naive_solver]. cbn [negb].
  destruct (consumer_name_is_registered t n b) eqn:Hr; cbn [fst].
  - split; [done|]. intros [_ H]. exfalso. apply registered_spec in Hr as (t' & e & Ht & He & <-).
    destruct (decide (t = "*")) as [->|Hne].
    + apply (H t'); [by left|]. apply list_elem_of_fmap. exists e. rewrite elem_of_entries_for. auto.
    + apply (H t); [by right|]. apply list_elem_of_fmap. exists e. rewrite elem_of_entries_for.
      destruct Ht as [?|[->| ->]]; [done|auto..].
  - split; [|done]. intros _. split; [done|]. intros t' Ht (e & -> & He)%list_elem_of_fmap.
    apply not_true_iff_false in Hr. apply Hr, registered_spec.
    apply elem_of_entries_for in He as [He|He]; [exists "*", e|exists t', e]; naive_solver.
Qed.

(** Registration order and names: after any sequence of registrations and removals the
    consumers of an event have distinct, non-blank names and come in priority order, a
    best-effort fan-out keeps wildcard, exact and local order among equal priorities, and a
    registration is accepted exactly when its name is non-blank and new to every event it
    would receive. *)
Theorem registrations_ordered ops t :
  let b := foldl exec_bus make_bus ops in
  NoDup (he_consumer_name <$> entries_for t b) ∧
  (∀ e, e ∈ entries_for t b → non_blank (he_consumer_name e) = true) ∧
  sorted_by he_priority (entries_for t b) ∧ sorted_by entry_priority (best_effort_entries_for t b) ∧
  (∀ p, filter (λ e, entry_priority e = p) (best_effort_entries_for t b) =
     (Durable <$> filter (λ e, he_priority e = p) (wildcard_entries t b ++ lookup_list (handlers b) t)) ++
     (Local_ <$> filter (λ e, lh_priority e = p) (lookup_list (local_handlers b) t))) ∧
  ∀ h n p, (on t h n p b).1 = Ok tt ↔
    non_blank n = true ∧ ∀ t', t = "*" ∨ t' = t → n ∉ he_consumer_name <$> entries_for t' b.
Proof.
  cbv zeta. pose proof (bus_inv_exec ops make_bus bus_inv_empty) as Hi.
  split; [by apply entries_for_names|]. split; [intros e; by apply entries_for_named|].
  split; [by apply entries_for_sorted|]. split; [apply by_priority_sorted|].
  split; [apply best_effort_order|]. intros h n p. apply on_accepts.
Qed.

(** ** Outcomes of a dispatch *)

Section outcomes.
Context {W : Type} (bus_of : W → EventBus).

(** The consumers a dispatch calls. *)
Definition unskipped (skipped : gset string) (entries : list HandlerEntry) : list HandlerEntry :=
  filter (λ e, he_consumer_name e ∉ skipped) entries.

Lemma run_consumers_skip invoke event skipped entries :
  run_consumers (W := W) invoke event skipped entries =
  run_consumers invoke event ∅ (unskipped skipped entries).
Proof.
  induction entries as [|e entries IH]; [done|]. unfold unskipped in *. cbn [run_consumers]. rewrite filter_cons.
  case_bool_decide as Hs.
  - rewrite decide_False by tauto. done.
  - rewrite decide_True by done. cbn [run_consumers]. by rewrite IH, bool_decide_eq_false_2 by set_solver.
Qed.

(** The call of one consumer. *)
Definition call_consumer (invoke : handler → EventEnvelope → M W unit) (event : EventEnvelope) (e : HandlerEntry) :
    M W ConsumerDispatchResult :=
  except_exception
    (invoke (he_handler e) event ;;; ret (mkDispatchResult (he_consumer_name e) true None))
    (λ exc, ret (mkDispatchResult (he_consumer_name e) false (Some exc))).

Lemma run_consumers_cons invoke event e entries :
  run_consumers (W := W) invoke event ∅ (e :: entries) =
  (let! result := call_consumer invoke event e in
   let! results := run_consumers invoke event ∅ entries in ret (result :: results)).
Proof. cbn [run_consumers]. by rewrite bool_decide_eq_false_2 by set_solver. Qed.

(** The result a call reports. *)
Lemma call_consumer_eq invoke event e w :
  call_consumer invoke event e w =
    match invoke (he_handler e) event w with
    | (Ok _, w') => (Ok (mkDispatchResult (he_consumer_name e) true None), w')
    | (Err x, w') =>
        if is_exception x then (Ok (mkDispatchResult (he_consumer_name e) false (Some x)), w') else (Err x, w')
    end.
Proof.
  unfold call_consumer, except_exception, bind, ret. destruct (invoke (he_handler e) event w) as [[u|x] w']; [done|].
  by destruct (is_exception x).
Qed.

(** The reported results name the called consumers in order, with an error
    exactly when the handler raised. *)
Lemma run_consumers_results invoke event entries w results w' :
  run_consumers (W := W) invoke event ∅ entries w = (Ok results, w') →
  dr_consumer_name <$> results = he_consumer_name <$> entries ∧
  Forall (λ r, dr_succeeded r = is_none (dr_error r)) results.
Proof.
  revert w results w'. induction entries as [|e entries IH]; intros w results w'; [by intros [= <- <-]|].
  rewrite run_consumers_cons. intros (r & w1 & Hr & H)%bind_Ok_inv.
  apply bind_Ok_inv in H as (rs & w2 & Hrs & H). apply ret_Ok_inv in H as [-> ->].
  destruct (IH _ _ _ Hrs) as [E F]. rewrite call_consumer_eq in Hr.
  destruct (invoke _ _ _) as [[u|x] w3]; [|destruct (is_exception x); [|done]]; injection Hr as <- <-;
    by split; [rewrite !fmap_cons, E|constructor].
Qed.

Lemma run_consumers_err invoke event entries w e w' :
  run_consumers (W := W) invoke event ∅ entries w = (Err e, w') → is_exception e = false.
Proof.
  revert w. induction entries as [|x entries IH]; intros w; [done|]. rewrite run_consumers_cons.
  intros [Hc|(r & w1 & _ & H)]%bind_Err_inv.
  - rewrite call_consumer_eq in Hc. destruct (invoke _ _ _) as [[u|y] w3]; [done|].
    destruct (is_exception y) eqn:E; [done|]. by injection Hc as <- <-.
  - apply bind_Err_inv in H as [H|(? & ? & _ & H)]; [by eapply IH|done].
Qed.

Lemma run_consumers_agree f g event entries w :
  (∀ e, e ∈ entries → f (he_handler e) = g (he_handler e)) →
  run_consumers (W := W) f event ∅ entries w = run_consumers g event ∅ entries w.
Proof.
  revert w. induction entries as [|e entries IH]; intros w Hfg; [done|]. rewrite !run_consumers_cons.
  unfold bind at 1 3. rewrite !call_consumer_eq, (Hfg e) by left.
  assert (IH' : ∀ w, run_consumers f event ∅ entries w = run_consumers g event ∅ entries w)
    by (intros; apply IH; intros; apply Hfg; by right).
  destruct (g _ _ w) as [[u|x] w1]; [|destruct (is_exception x); [|done]]; unfold bind; by rewrite IH'.
Qed.

(** A dispatch depends only on the handlers it calls. *)
Lemma dispatch_agree f g event skip w :
  (∀ e, e ∈ unskipped skip (entries_for (e_event_type event) (bus_of w)) → f (he_handler e) = g (he_handler e)) →
  dispatch bus_of f event skip w = dispatch bus_of g event skip w.
Proof.
  intros H. unfold dispatch. rewrite !bind_get_state. unfold bind.
  by rewrite (run_consumers_skip f), (run_consumers_skip g), (run_consumers_agree f g).
Qed.

(** Exception isolation: whatever the handlers do, dispatch raises nothing but a
    cancellation; when it returns, the report names every consumer registered for the event
    at the time of the call and not skipped, once each and in priority order, and marks it
    failed exactly when it carries an error; and the handler of a skipped consumer is never
    called: replacing it changes nothing. *)
Theorem dispatch_isolates invoke event skip w :
  bus_inv (bus_of w) →
  let called := unskipped skip (entries_for (e_event_type event) (bus_of w)) in
  (∀ e w', dispatch bus_of invoke event skip w = (Err e, w') → exn_kind e = CancelledError) ∧
  (∀ report w', dispatch bus_of invoke event skip w = (Ok report, w') →
     rp_event_id report = e_event_id event ∧
     dr_consumer_name <$> rp_results report = he_consumer_name <$> called ∧
     NoDup (dr_consumer_name <$> rp_results report) ∧ sorted_by he_priority called ∧
     Forall (λ r, dr_succeeded r = is_none (dr_error r)) (rp_results report)) ∧
  ∀ invoke', (∀ e, e ∈ called → invoke' (he_handler e) = invoke (he_handler e)) →
    dispatch bus_of invoke' event skip w = dispatch bus_of invoke event skip w.
Proof.
  intros Hi. cbv zeta. split_and!; [..|intros invoke'; apply dispatch_agree];
    unfold dispatch; setoid_rewrite bind_get_state; setoid_rewrite run_consumers_skip.
  - intros e w' [H%run_consumers_err|(? & ? & _ & H)]%bind_Err_inv; [|done].
    unfold is_exception in H. by bools.
  - intros report w' (rs & w1 & Hrs & H)%bind_Ok_inv. apply ret_Ok_inv in H as [-> ->]. cbn.
    apply run_consumers_results in Hrs as [E F]. rewrite E. split; [done|]. split; [done|]. split_and!; [| |done].
    + eapply sublist_NoDup; [by apply entries_for_names|]. apply fmap_sublist, sublist_filter.
    + by apply strongly_sorted_filter, entries_for_sorted.
Qed.
End outcomes.

(** ** A concrete bus *)

Module BusSample.
Definition bus : EventBus :=
  foldl exec_bus make_bus
    [BOn "edict.submitted" 1%positive "planner" 50; BOn "*" 2%positive "audit" 10;
     BOn "edict.submitted" 3%positive "audit" 70; BOnLocal "edict.submitted" 4%positive 50].
Lemma bus_inv1 : bus_inv bus.
Proof. apply bus_inv_exec, bus_inv_empty. Qed.
Definition event : EventEnvelope :=
  mkEvent "ev-1" "edict.submitted" None None (SInt 1) 100 "api" [].
(** The planner fails; the world is the log of the calls. *)
Definition invoke (h : handler) (e : EventEnvelope) : M (list handler) unit := λ log,
  (if decide (h = 1%positive) then Err (Exn RuntimeError "no plan") else Ok tt, log ++ [h]).
Definition skip : gset string := {["audit"]}.
Definition report : DispatchReport :=
  mkReport "ev-1" [mkDispatchResult "planner" false (Some (Exn RuntimeError "no plan"))].
End BusSample.

Lemma dispatch_isolates_witness :
  dispatch (λ _, BusSample.bus) BusSample.invoke BusSample.event BusSample.skip [] = (Ok BusSample.report, [1%positive]) ∧
  NoDup (dr_consumer_name <$> rp_results BusSample.report).
Proof.
  split; [vm_compute; reflexivity|].
  exact (proj1 (proj2 (proj2 (proj1 (proj2
    (dispatch_isolates (λ _, BusSample.bus) BusSample.invoke BusSample.event BusSample.skip [] BusSample.bus_inv1))
    BusSample.report [1%positive] ltac:(vm_compute; reflexivity))))).
Defined.
