(* ===== verification/OutboxDispatcher.v ===== *)
(** * The outbox dispatcher

    Models [OutboxDispatcher] of src/src/tianshu/application/outbox.py over the
    outbox repository and the event bus: a drain claims a batch, rebuilds each
    envelope from its row, calls the consumers that have not consumed it yet,
    records the consumptions, and publishes, retries or poisons the row.

    The world holds the tables, the bus and whatever else the handlers touch.
    The handlers, the clocks, the float parser, the texts of exceptions and of
    the errors of [json.loads] are the fields of [environment].  The row keeps
    the instant its [occurred_at] text denotes, so that text is always a valid
    UTC time here; the polling task around [drain_once] is not modelled. *)

From S2P Require Import Prelude.
From S2P Require Import Sql.
From S2P Require Import Canonical.
From S2P Require Import JsonParse.
From S2P Require Import Timestamp.
From S2P Require Import UnitOfWork.
From S2P Require Import Models.
From S2P Require Import Schema.
From S2P Require Import Correlation.
From S2P Require Import Outbox.
From S2P Require Import EventBus.

(** ** Numbers

    A finite float is [m * 2 ^ e], as in [float_value]. *)

Definition dyadic_le (x y : Z * Z) : bool :=
  let e := Z.min x.2 y.2 in x.1 * 2 ^ (x.2 - e) <=? y.1 * 2 ^ (y.2 - e).

(** [min(x, y)] *)
Definition dyadic_min (x y : Z * Z) : Z * Z := if dyadic_le x y then x else y.

(** Division by a positive number, rounded to the nearest, ties to even. *)
Definition round_div (n d : Z) : Z :=
  let q := n / d in
  match 2 * (n mod d) ?= d with
  | Lt => q
  | Gt => q + 1
  | Eq => if Z.even q then q else q + 1
  end.

(** [float(z)]: 53 significant bits; [None] when it is out of range. *)
Definition float_of_int (z : Z) : option (Z * Z) :=
  let bits := Z.log2 (Z.abs z) + 1 in
  if bits <=? 53 then Some (z, 0)
  else
    let s := bits - 53 in
    let q := round_div (Z.abs z) (2 ^ s) in
    if 1024 <? Z.log2 q + 1 + s then None else Some (Z.sgn z * q, s).

(** [timedelta(seconds=x)] in microseconds, rounded half to even *)
Definition seconds_to_us (x : Z * Z) : Z :=
  if 0 <=? x.2 then x.1 * 2 ^ x.2 * 1000000 else round_div (x.1 * 1000000) (2 ^ (- x.2)).

(** [t + timedelta(seconds=x)] *)
Definition plus_timedelta {S} (t : datetime) (x : Z * Z) : M S datetime :=
  let us := seconds_to_us x in
  guard ((-999999999 <=? us / us_per_day) && (us / us_per_day <=? 999999999)) OverflowError
    "days out of range; must have magnitude <= 999999999" ;;;
  let! w := checked_instant (wall t + us) in
  ret (DT w (utcoffset t)).

(** ** Configuration *)

Record OutboxDispatcher := mkDispatcher {
  owner_id : string;
  lease_seconds : Z;
  base_backoff_seconds : Z * Z;
  max_backoff_seconds : Z * Z;
  poll_interval_seconds : Z * Z;
  shutdown_timeout_seconds : Z * Z;
}.

(** [_exact_positive_integer]; [None] is a value whose type is not [int]. *)
Definition exact_positive_integer {S} (value : option Z) (field_name : string) : M S Z :=
  match value with
  | None => raise ValueError (field_name +:+ " must be an integer")
  | Some z => guard (0 <? z) ValueError (field_name +:+ " must be positive") ;;; ret z
  end.
Definition json_int (v : json) : option Z := match v with JInt z => Some z | _ => None end.
Definition sql_int (v : sql_value) : option Z := match v with SInt z => Some z | _ => None end.

(** [_finite_positive_number] *)
Definition finite_positive_number {S} (value : json) (field_name : string) : M S (Z * Z) :=
  let! normalized :=
    match value with
    | JInt z =>
        match float_of_int z with
        | Some x => ret (Some x)
        | None => raise OverflowError "int too large to convert to float"
        end
    | JFloat f => ret (float_value f)
    | _ => raise ValueError (field_name +:+ " must be a number")
    end in
  match normalized with
  | Some x =>
      guard (0 <? x.1) ValueError (field_name +:+ " must be finite and positive") ;;; ret x
  | None => raise ValueError (field_name +:+ " must be finite and positive")
  end.

(** [__init__] *)
Definition make_dispatcher {S} (owner : string) (lease base maximum poll shutdown : json) :
    M S OutboxDispatcher :=
  guard (non_blank owner) ValueError "owner_id must be non-blank" ;;;
  let! validated_lease := exact_positive_integer (json_int lease) "lease_seconds" in
  let! validated_base := finite_positive_number base "base_backoff_seconds" in
  let! validated_max := finite_positive_number maximum "max_backoff_seconds" in
  let! validated_poll := finite_positive_number poll "poll_interval_seconds" in
  let! validated_shutdown := finite_positive_number shutdown "shutdown_timeout_seconds" in
  guard (dyadic_le validated_base validated_max) ValueError
    "max_backoff_seconds must be at least base_backoff_seconds" ;;;
  ret (mkDispatcher owner validated_lease validated_base validated_max validated_poll validated_shutdown).

(** [_backoff_seconds]: scaling a float by a power of two is exact; a product
    beyond the float range is infinite, and the minimum is the same. *)
Definition backoff_seconds (self : OutboxDispatcher) (attempt_count : Z) : Z * Z :=
  let exponent := Z.min (Z.max (attempt_count - 1) 0) 30 in
  dyadic_min ((base_backoff_seconds self).1, (base_backoff_seconds self).2 + exponent)
    (max_backoff_seconds self).

(** ** The world *)

Record world (X : Type) := mkWorld { w_db : db; w_bus : EventBus; w_rest : X }.
Arguments mkWorld {X}.
Arguments w_db {X}.
Arguments w_bus {X}.
Arguments w_rest {X}.

(** A repository call, in its own transaction. *)
Definition on_db {X A} (m : M db A) : M (world X) A := λ w,
  let '(r, d) := m (w_db w) in (r, mkWorld d (w_bus w) (w_rest w)).

Record environment (X : Type) := mkEnvironment {
  invoke : handler → EventEnvelope → M (world X) unit;
  clock : M (world X) datetime;
  utc_now : M (world X) Z;
  float_of : string → pyfloat;
  loads_error : string → string;
  type_name : exn → string;
  exn_text : exn → option string;
}.
Arguments mkEnvironment {X}.
Arguments invoke {X}.
Arguments clock {X}.
Arguments utc_now {X}.
Arguments float_of {X}.
Arguments loads_error {X}.
Arguments type_name {X}.
Arguments exn_text {X}.

(** [try: a = m except ... as error: handler; return], then [k a] *)
Definition try_return {S A B} (m : result A) (caught : exn → bool) (handler : exn → M S B) (k : A → M S B) :
    M S B :=
  match m with
  | Ok a => k a
  | Err e => if caught e then handler e else of_result (Err e)
  end.

(** A computation that uses no state. *)
Definition run_pure {A} (m : M () A) : result A := (m tt).1.

(** The first [n] characters of a UTF-8 text: a character starts at every byte
    that is not a continuation byte. *)
Fixpoint take_chars (n : nat) (s : string) : string :=
  match s with
  | EmptyString => EmptyString
  | String a r =>
      let continues := bool_decide (128 ≤ ord a < 192)%nat in
      match n with
      | O => if continues then String a (take_chars O r) else EmptyString
      | S n' => String a (take_chars (if continues then n else n') r)
      end
  end.

(** ** Rebuilding the envelope *)

(** [_validate_dispatch_control] *)
Definition validate_dispatch_control {S} (record : OutboxRecord) : M S unit :=
  let! attempt_count := exact_positive_integer (sql_int (ob_attempt_count (or_row record))) "attempt_count" in
  let! max_attempts := exact_positive_integer (Some (ob_max_attempts (or_row record))) "max_attempts" in
  exact_positive_integer (sql_int (ob_version (or_row record))) "version" ;;;
  guard (attempt_count <=? max_attempts) ValueError "attempt_count must not exceed max_attempts".

(** [_required_text] of a text *)
Definition required_text {S} (value field_name : string) (allow_blank : bool) : M S string :=
  guard (allow_blank || non_blank value) ValueError (field_name +:+ " must be non-blank") ;;; ret value.
(** [_optional_text] *)
Definition optional_text {S} (value : option string) (field_name : string) : M S (option string) :=
  match value with
  | None => ret None
  | Some v => let! v := required_text v field_name false in ret (Some v)
  end.

(** [_validate_json_value] on what [json.loads] returns *)
Fixpoint validate_json_value (v : json) : bool :=
  match v with
  | JNull | JStr _ | JBool _ | JInt _ => true
  | JFloat f => is_some (float_value f)
  | JList l => forallb validate_json_value l
  | JObj items => forallb (λ kv, validate_json_value kv.2) items
  end.

(** [payload.setdefault(k, v)] *)
Definition setdefault (items : list (string * json)) (k : string) (v : json) : list (string * json) :=
  match obj_get items k with Some _ => items | None => items ++ [(k, v)] end.

Section dispatcher.
Context {X : Type} (env : environment X) (self : OutboxDispatcher).

(** [_event_from_record] *)
Definition event_from_record {S} (record : OutboxRecord) : M S EventEnvelope :=
  let r := or_row record in
  let! event_id := required_text (ob_event_id r) "event_id" false in
  let! event_type := required_text (ob_event_type r) "event_type" false in
  let! aggregate_type := required_text (ob_aggregate_type r) "aggregate_type" false in
  let! producer := required_text (ob_producer r) "producer" false in
  let! edict_id := optional_text (ob_edict_id r) "edict_id" in
  let! memorial_id := optional_text (ob_memorial_id r) "memorial_id" in
  guard (negb (is_some memorial_id && is_none edict_id)) ValueError "memorial_id requires edict_id" ;;;
  guard (bool_decide (aggregate_type = match edict_id with Some _ => "edict" | None => "system" end))
    ValueError "aggregate_type does not match envelope identity" ;;;
  let! payload_json := required_text (ob_payload_json r) "payload_json" true in
  match loads_with false (float_of env) payload_json with
  | None => raise ValueError (loads_error env payload_json)
  | Some (JObj payload) =>
      guard (validate_json_value (JObj payload)) ValueError "payload numbers must be finite" ;;;
      ret (mkEvent event_id event_type edict_id memorial_id (ob_attempt_count r) (ob_occurred_at r) producer
             (setdefault payload "correlation_id" (JStr (or_correlation_id record))))
  | Some _ => raise TypeError "payload_json must contain an object"
  end.

(** ** Dispatching *)

(** [_bounded_error_hash] *)
Definition bounded_error_hash (error : exn) : string :=
  let detail := default "unprintable error" (exn_text env error) in
  Sha256.hexdigest (type_name env error +:+ ":" +:+ take_chars 4096 detail).

(** The fields that [_validate_dispatch_control] has checked. *)
Definition attempts (record : OutboxRecord) : Z := default 0 (sql_int (ob_attempt_count (or_row record))).
Definition version (record : OutboxRecord) : Z := default 0 (sql_int (ob_version (or_row record))).

(** [_mark_failure] *)
Definition mark_failure (record : OutboxRecord) (error : exn) (code message : string) (retryable : bool) :
    M (world X) unit :=
  let! now := clock env in
  let! available_at := plus_timedelta now (backoff_seconds self (attempts record)) in
  on_db (mark_failed (ob_event_id (or_row record)) (owner_id self) (version record)
    (mkRedactedError code message retryable (Some (bounded_error_hash error))) available_at) ;;;
  ret tt.

(** The loop over the results: consumptions are recorded, failures returned. *)
Fixpoint record_results (event_id : string) (results : list ConsumerDispatchResult) :
    M (world X) (list exn) :=
  match results with
  | [] => ret []
  | r :: rest =>
      let! failed :=
        if dr_succeeded r then
          let! now := utc_now env in
          on_db (record_consumption event_id (dr_consumer_name r) None now) ;;; ret []
        else ret (match dr_error r with Some e => [e] | None => [] end) in
      let! failures := record_results event_id rest in
      ret (failed ++ failures)
  end.

(** [except (TypeError, ValueError)] and, for the envelope, also
    [OverflowError]; [RecursionError] does not occur in the model. *)
Definition malformed_control (e : exn) : bool := bool_decide (exn_kind e ∈ [TypeError; ValueError]).
Definition malformed_envelope (e : exn) : bool :=
  bool_decide (exn_kind e ∈ [TypeError; ValueError; OverflowError]).

(** [_dispatch_record] *)
Definition dispatch_record (record : OutboxRecord) : M (world X) unit :=
  let event_id := ob_event_id (or_row record) in
  try_return (run_pure (validate_dispatch_control record)) malformed_control
    (λ error,
      let! now := clock env in
      on_db (mark_poisoned event_id (owner_id self) (ob_version (or_row record))
        (mkRedactedError "malformed_outbox_event" "durable dispatch control is invalid" false
           (Some (bounded_error_hash error))) now) ;;;
      ret tt)
    (λ _,
  try_return (run_pure (event_from_record record)) malformed_envelope
    (λ error, mark_failure record error "malformed_outbox_event" "durable event envelope is invalid" false)
    (λ event,
      let! skip_consumers := on_db (consumed_consumers event_id) in
      let! report := dispatch w_bus (invoke env) event skip_consumers in
      let! failures := record_results event_id (rp_results report) in
      match failures with
      | failure :: _ =>
          mark_failure record failure "consumer_dispatch_failed" "one or more consumers failed" true
      | [] =>
          let! now := clock env in
          on_db (mark_published event_id (owner_id self) (version record) now) ;;; ret tt
      end)).

Fixpoint dispatch_records (records : list OutboxRecord) : M (world X) unit :=
  match records with
  | [] => ret tt
  | record :: rest => dispatch_record record ;;; dispatch_records rest
  end.

Definition drain_once (limit : Z) : M (world X) Z :=
  let! now := clock env in
  let! records := on_db (claim_batch (owner_id self) now limit (lease_seconds self)) in
  dispatch_records records ;;;
  ret (Z.of_nat (length records)).
End dispatcher.

(** ** Backoff *)

Lemma dyadic_le_at x y k :
  k ≤ x.2 → k ≤ y.2 → dyadic_le x y = true ↔ x.1 * 2 ^ (x.2 - k) ≤ y.1 * 2 ^ (y.2 - k).
Proof.
  intros Hx Hy. unfold dyadic_le. rewrite Z.leb_le. set (e := Z.min x.2 y.2).
  replace (x.2 - k) with ((x.2 - e) + (e - k)) by lia. replace (y.2 - k) with ((y.2 - e) + (e - k)) by lia.
  rewrite !Z.pow_add_r, !Z.mul_assoc by lia. apply Z.mul_le_mono_pos_r. apply Z.pow_pos_nonneg; lia.
Qed.
Lemma dyadic_le_refl x : dyadic_le x x = true.
Proof. unfold dyadic_le. apply Z.leb_refl. Qed.
Lemma dyadic_le_trans x y z : dyadic_le x y = true → dyadic_le y z = true → dyadic_le x z = true.
Proof.
  set (k := Z.min x.2 (Z.min y.2 z.2)). rewrite !(dyadic_le_at _ _ k) by lia. lia.
Qed.
Lemma dyadic_le_total x y : dyadic_le x y = true ∨ dyadic_le y x = true.
Proof. set (k := Z.min x.2 y.2). rewrite !(dyadic_le_at _ _ k) by lia. lia. Qed.
Lemma dyadic_min_l x y : dyadic_le (dyadic_min x y) x = true.
Proof. unfold dyadic_min. destruct (dyadic_le x y) eqn:E; [apply dyadic_le_refl|]. destruct (dyadic_le_total x y); congruence. Qed.
Lemma dyadic_min_r x y : dyadic_le (dyadic_min x y) y = true.
Proof. unfold dyadic_min. by destruct (dyadic_le x y) eqn:E; [|apply dyadic_le_refl]. Qed.
Lemma dyadic_min_glb z x y : dyadic_le z x = true → dyadic_le z y = true → dyadic_le z (dyadic_min x y) = true.
Proof. unfold dyadic_min. by destruct (dyadic_le x y). Qed.
Lemma dyadic_scale m e a b : 0 ≤ m → a ≤ b → dyadic_le (m, e + a) (m, e + b) = true.
Proof.
  intros Hm Hab. apply (dyadic_le_at _ _ (e + a)); cbn; [lia..|].
  apply Z.mul_le_mono_nonneg_l; [done|]. apply Z.pow_le_mono_r; lia.
Qed.
#[local] Hint Resolve dyadic_le_refl dyadic_min_l dyadic_min_r dyadic_min_glb dyadic_scale : py.

Lemma finite_positive_number_pos {S} v name (s : S) x s' :
  finite_positive_number v name s = (Ok x, s') → s' = s ∧ 0 < x.1.
Proof.
  unfold finite_positive_number. intros (n & s1 & Hn & H)%bind_Ok_inv.
  assert (s1 = s) as ->.
  { destruct v as [| |z|f| | |]; try done; [destruct (float_of_int z); [|done]|]; by injection Hn. }
  destruct n as [y|]; [|done]. run_M H. bools. auto.
Qed.

(** The delay before a retry starts at base_backoff_seconds, doubles with every attempt
    until it reaches max_backoff_seconds and never leaves these bounds, for every dispatcher
    its constructor accepts. *)
Theorem backoff_bounded owner lease base maximum poll shutdown self n n' :
  make_dispatcher (S := ()) owner lease base maximum poll shutdown tt = (Ok self, tt) → n ≤ n' →
  dyadic_le (base_backoff_seconds self) (backoff_seconds self n) = true ∧
  dyadic_le (backoff_seconds self n) (backoff_seconds self n') = true ∧
  dyadic_le (backoff_seconds self n') (max_backoff_seconds self) = true ∧
  (1 ≤ n ≤ 31 → backoff_seconds self n =
     dyadic_min ((base_backoff_seconds self).1, (base_backoff_seconds self).2 + (n - 1))
       (max_backoff_seconds self)).
Proof.
  intros H Hn. unfold make_dispatcher in H. step_M H. step_M H. step_M H. step_M H. step_M H. step_M H. step_M H.
  apply ret_Ok_inv in H as [-> _]. apply finite_positive_number_pos in E1 as [_ Hpos]. cbn in *.
  destruct a0 as [m e]. cbn in *. set (x := Z.min (Z.max (n - 1) 0) 30). set (x' := Z.min (Z.max (n' - 1) 0) 30).
  assert (Hm : 0 ≤ m) by lia.
  unfold backoff_seconds. cbn. fold x x'. split_and!.
  - apply dyadic_min_glb; [|done]. replace (m, e) with (m, e + 0) at 1 by (f_equal; lia). auto with py lia.
  - apply dyadic_min_glb; [|auto with py]. eapply dyadic_le_trans; [apply dyadic_min_l|]. apply dyadic_scale; lia.
  - auto with py.
  - intros Hr. subst x. do 2 f_equal. lia.
Qed.
Lemma backoff_bounded_witness :
  backoff_seconds (mkDispatcher "worker-a" 30 (1, 0) (300, 0) (1, 0) (5, 0)) 4 = (1, 3) ∧
  dyadic_le (backoff_seconds (mkDispatcher "worker-a" 30 (1, 0) (300, 0) (1, 0) (5, 0)) 50) (300, 0) = true.
Proof.
  destruct (backoff_bounded "worker-a" (JInt 30) (JInt 1) (JInt 300) (JInt 1) (JInt 5)
    (mkDispatcher "worker-a" 30 (1, 0) (300, 0) (1, 0) (5, 0)) 4 50 eq_refl ltac:(lia)) as (_ & _ & H & H').
  split; [exact (H' ltac:(lia))|exact H].
Defined.

(** ** Delivery *)

(** What the dispatcher expects of the clocks: UTC times, and no effect on the
    tables or the bus. *)
Record clocks_ok {X} (env : environment X) : Prop := {
  clock_utc : ∀ w, ∃ t x, clock env w = (Ok (utc_at t), mkWorld (w_db w) (w_bus w) x);
  now_utc : ∀ w, ∃ t x, utc_now env w = (Ok t, mkWorld (w_db w) (w_bus w) x);
}.

(** Nobody else settles the event or records consumptions of it while its
    handlers run: they keep the invariant of the tables, its row and its
    consumptions.  They may add events and write any other table. *)
Definition leaves {X} (env : environment X) (event_id : string) : Prop :=
  ∀ h event w, outbox_inv (w_db w) →
    let d' := w_db (invoke env h event w).2 in
    outbox_inv d' ∧ outbox_events d' !! event_id = outbox_events (w_db w) !! event_id ∧
    consumers d' event_id = consumers (w_db w) event_id.

(** Two worlds agree on an event: its row and its consumptions. *)
Definition same_event {X} (id : string) (w w' : world X) : Prop :=
  outbox_events (w_db w') !! id = outbox_events (w_db w) !! id ∧
  consumers (w_db w') id = consumers (w_db w) id.

Section delivery.
Context {X : Type} (env : environment X) (self : OutboxDispatcher).
Context (Hclocks : clocks_ok env).

#[local] Instance same_event_preorder id : PreOrder (same_event (X := X) id).
Proof. unfold same_event. split; [done|]. intros a b c [? ?] [? ?]. split; by etransitivity. Qed.

Lemma bind_clock {A} (k : datetime → M (world X) A) w :
  ∃ t x, bind (clock env) k w = k (utc_at t) (mkWorld (w_db w) (w_bus w) x).
Proof. destruct (clock_utc env Hclocks w) as (t & x & H). exists t, x. unfold bind. by rewrite H. Qed.

Lemma on_db_bind {A B} (m : M db A) (k : A → M (world X) B) w :
  bind (on_db m) k w =
    match m (w_db w) with
    | (Ok a, d) => k a (mkWorld d (w_bus w) (w_rest w))
    | (Err e, d) => (Err e, mkWorld d (w_bus w) (w_rest w))
    end.
Proof. unfold bind, on_db. by destruct (m (w_db w)) as [[a|e] d]. Qed.

Lemma run_consumers_leaves id event entries w :
  leaves env id → outbox_inv (w_db w) →
  let w' := (run_consumers (invoke env) event ∅ entries w).2 in outbox_inv (w_db w') ∧ same_event id w w'.
Proof.
  intros Hl. revert w. induction entries as [|e entries IH]; intros w Hi; [by split|].
  rewrite run_consumers_cons. unfold bind at 1. rewrite call_consumer_eq.
  destruct (Hl (he_handler e) event w Hi) as [Hi' Hs].
  destruct (invoke env _ event w) as [[u|x] w1]; cbn in Hi', Hs |- *;
    [|destruct (is_exception x); [|done]]; destruct (IH w1 Hi') as [Hi2 Hs2]; unfold bind;
    destruct (run_consumers _ _ _ entries w1) as [[rs|y] w2]; cbn in *; (split; [done|by etransitivity]).
Qed.

(** The consumers a report marks as done, and the errors of the others. *)
Definition succeeded (results : list ConsumerDispatchResult) : gset string :=
  list_to_set (dr_consumer_name <$> filter (λ r, dr_succeeded r = true) results).
Definition failures (results : list ConsumerDispatchResult) : list exn :=
  omap (λ r, if dr_succeeded r then None else dr_error r) results.

Lemma set_consumptions_inv m d : outbox_inv d → outbox_inv (set_outbox_consumptions m d).
Proof. intros [H1 H2 H3 H4]. by split. Qed.

Lemma record_results_eq id results w :
  outbox_inv (w_db w) → is_some (outbox_events (w_db w) !! id) = true →
  Forall (λ r, non_blank (dr_consumer_name r) = true) results →
  ∃ w', record_results env id results w = (Ok (failures results), w') ∧
    outbox_inv (w_db w') ∧ w_bus w' = w_bus w ∧ outbox_events (w_db w') = outbox_events (w_db w) ∧
    (∀ e, consumers (w_db w') e = if bool_decide (e = id) then succeeded results ∪ consumers (w_db w) e
                                  else consumers (w_db w) e).
Proof.
  intros Hi Hsome Hall. revert w Hi Hsome. induction Hall as [|r results Hr Hall IH]; intros w Hi Hsome.
  - exists w. split_and!; [done..|]. intros e. case_bool_decide; [|done]. unfold succeeded. cbn. set_solver.
  - cbn [record_results]. destruct (dr_succeeded r) eqn:Hs.
    + destruct (now_utc env Hclocks w) as (t & x & Ht).
      destruct (record_consumption_eq (w_db w) id (dr_consumer_name r) None t Hr Hsome) as (m & Hm & Hc).
      destruct (IH (mkWorld (set_outbox_consumptions m (w_db w)) (w_bus w) x)) as (w' & Hrun & Hi' & Hb & He & Hcons);
        [by apply set_consumptions_inv|done|].
      exists w'. split_and!; [|done|done|done|].
      * rewrite (bind_Ok _ _ _ [] (mkWorld (set_outbox_consumptions m (w_db w)) (w_bus w) x)).
        { unfold bind. rewrite Hrun. unfold failures. cbn [omap list_omap]. by rewrite Hs. }
        rewrite (bind_Ok _ _ _ _ _ Ht), on_db_bind. cbn [w_db]. by rewrite Hm.
      * intros e. rewrite Hcons. cbn [w_db]. rewrite Hc. destruct (bool_decide (e = id)); [|done].
        unfold succeeded. rewrite filter_cons, decide_True by done. cbn. clear. set_solver.
    + rewrite bind_ret. destruct (IH w Hi Hsome) as (w' & Hrun & Hi' & Hb & He & Hcons).
      exists w'. split_and!; [|done|done|done|].
      * unfold bind. rewrite Hrun. unfold failures. cbn [omap list_omap]. rewrite Hs. by destruct (dr_error r).
      * intros e. rewrite Hcons. unfold succeeded. rewrite filter_cons, decide_False by congruence. done.
Qed.

Lemma validate_control_caught record e :
  run_pure (validate_dispatch_control record) = Err e → malformed_control e = true.
Proof.
  unfold run_pure. destruct (validate_dispatch_control record tt) as [r s] eqn:E. cbn. intros ->.
  assert (Hr : raises (λ c, bool_decide (c ∈ [TypeError; ValueError])) (validate_dispatch_control (S := ()) record)).
  { unfold validate_dispatch_control, exact_positive_integer.
    repeat (apply raises_bind; [|intros ?]); repeat case_match; auto with py. }
  exact (Hr _ _ _ E).
Qed.
Lemma envelope_caught record e : run_pure (event_from_record env record) = Err e → malformed_envelope e = true.
Proof.
  unfold run_pure. destruct (event_from_record env record tt) as [r s] eqn:E. cbn. intros ->.
  assert (Hr : raises (λ c, bool_decide (c ∈ [TypeError; ValueError; OverflowError]))
                 (event_from_record (S := ()) env record)).
  { unfold event_from_record, optional_text, required_text.
    repeat (apply raises_bind; [|intros ?]); repeat case_match; auto 10 with py. }
  exact (Hr _ _ _ E).
Qed.

Lemma event_from_record_type record event :
  run_pure (event_from_record env record) = Ok event →
  e_event_id event = ob_event_id (or_row record) ∧ e_event_type event = ob_event_type (or_row record).
Proof.
  unfold run_pure. destruct (event_from_record env record tt) as [r s] eqn:E. cbn. intros ->.
  unfold event_from_record, required_text in E. do 4 (step_M E; run_M E0; subst).
  step_M E. step_M E. step_M E. step_M E. step_M E. destruct (loads_with _ _ _) as [[]|]; try done. run_M E.
  by subst.
Qed.

(** A settlement of the held row through the dispatcher. *)
Lemma settle_on_db st r w {A} (k : bool → M (world X) A) owner v :
  outbox_inv (w_db w) → outbox_events (w_db w) !! ob_event_id r = Some r → held owner (SInt v) r = true →
  utcoffset (settlement_time st) = Some 0 →
  outbox_inv (with_outbox (ob_event_id r) (settled_row st r) (w_db w)) ∧
  bind (on_db (settle_by st (ob_event_id r) owner v)) k w =
    k true (mkWorld (with_outbox (ob_event_id r) (settled_row st r) (w_db w)) (w_bus w) (w_rest w)).
Proof.
  intros Hi Hk Hh Hu. pose proof (settle_by_eq st (ob_event_id r) owner v (w_db w) Hi Hu) as Heq.
  rewrite Hk, Hh in Heq. split; [|by rewrite on_db_bind, Heq].
  assert (Hstep : outbox_step (w_db w) (settle_by st (ob_event_id r) owner v (w_db w)).2).
  { destruct st as [now|e t|e now]; cbn [settle_by];
      [exists (OPublish (ob_event_id r) owner v now)|exists (OFail (ob_event_id r) owner v e t)
      |exists (OPoison (ob_event_id r) owner (SInt v) e now)]; done. }
  rewrite Heq in Hstep. exact (proj1 (outbox_step_ok _ _ Hi Hstep)).
Qed.

(** The row passed both checks: its control fields and its envelope. *)
Definition well_formed (record : OutboxRecord) : Prop :=
  run_pure (validate_dispatch_control record) = Ok tt ∧
  ∃ event, run_pure (event_from_record env record) = Ok event.

(** The row goes back with the error on it: waiting for a retry while attempts
    remain, in the dead letters after the last one.  The retryable flag of the
    error is stored, and has no part in it. *)
Definition put_back (record : OutboxRecord) (code message : string) (retryable : bool) (w' : world X) : Prop :=
  ∃ h t, let failed := set_failed (mkRedactedError code message retryable (Some h)) t (or_row record) in
    outbox_events (w_db w') !! ob_event_id (or_row record) = Some failed ∧
    ob_status failed =
      if attempts record <? ob_max_attempts (or_row record) then OB_RETRY_WAIT else OB_DEAD_LETTER.

(** How the dispatch of a claimed row can end. *)
Inductive delivery (record : OutboxRecord) (w w' : world X) : result unit → Prop :=
  | delivered t :
      well_formed record →
      outbox_events (w_db w') !! ob_event_id (or_row record) = Some (set_published t (or_row record)) →
      (∀ e, e ∈ entries_for (ob_event_type (or_row record)) (w_bus w) →
         he_consumer_name e ∈ consumers (w_db w') (ob_event_id (or_row record))) →
      delivery record w w' (Ok tt)
  | not_all_consumed e :
      well_formed record →
      put_back record "consumer_dispatch_failed" "one or more consumers failed" true w' →
      e ∈ entries_for (ob_event_type (or_row record)) (w_bus w) →
      he_consumer_name e ∉ consumers (w_db w') (ob_event_id (or_row record)) →
      delivery record w w' (Ok tt)
  | envelope_malformed x :
      run_pure (validate_dispatch_control record) = Ok tt →
      run_pure (event_from_record env record) = Err x →
      put_back record "malformed_outbox_event" "durable event envelope is invalid" false w' →
      consumers (w_db w') (ob_event_id (or_row record)) = consumers (w_db w) (ob_event_id (or_row record)) →
      delivery record w w' (Ok tt)
  | poisoned error t x :
      run_pure (validate_dispatch_control record) = Err x →
      outbox_events (w_db w') !! ob_event_id (or_row record) = Some (set_poisoned error t (or_row record)) →
      consumers (w_db w') (ob_event_id (or_row record)) = consumers (w_db w) (ob_event_id (or_row record)) →
      delivery record w w' (Ok tt)
  | interrupted e :
      exn_kind e = CancelledError ∨ exn_kind e = OverflowError →
      outbox_events (w_db w') !! ob_event_id (or_row record) = Some (or_row record) →
      delivery record w w' (Err e).

(** The control fields decide where a failed row goes. *)
Lemma failed_status_control record :
  run_pure (validate_dispatch_control record) = Ok tt →
  failed_status (or_row record) =
    if attempts record <? ob_max_attempts (or_row record) then OB_RETRY_WAIT else OB_DEAD_LETTER.
Proof.
  unfold run_pure. destruct (validate_dispatch_control record tt) as [r s] eqn:E. cbn. intros ->.
  unfold validate_dispatch_control in E. step_M E. unfold attempts, failed_status.
  destruct (ob_attempt_count (or_row record)); try discriminate. cbn.
  destruct (Z.ltb_spec z (ob_max_attempts (or_row record)));
    destruct (Z.leb_spec (ob_max_attempts (or_row record)) z); done || lia.
Qed.

Lemma validate_control_version record :
  run_pure (validate_dispatch_control record) = Ok tt → ob_version (or_row record) = SInt (version record).
Proof.
  unfold run_pure. destruct (validate_dispatch_control record tt) as [r s] eqn:E. cbn. intros ->.
  unfold validate_dispatch_control in E. step_M E. step_M E. step_M E. unfold version.
  by destruct (ob_version (or_row record)).
Qed.

Lemma plus_timedelta_spec {S} t x (s : S) :
  match plus_timedelta t x s with
  | (Ok a, s') => s' = s ∧ utcoffset a = utcoffset t
  | (Err e, s') => s' = s ∧ exn_kind e = OverflowError
  end.
Proof.
  unfold plus_timedelta, checked_instant, guard, bind, ret, raise. by repeat case_match; simplify_eq.
Qed.

Lemma mark_failure_eq record error code message retryable w :
  let r := or_row record in
  outbox_inv (w_db w) → outbox_events (w_db w) !! ob_event_id r = Some r →
  held (owner_id self) (SInt (version record)) r = true →
  let '(res, w') := mark_failure env self record error code message retryable w in
  outbox_inv (w_db w') ∧ (∀ k, consumers (w_db w') k = consumers (w_db w) k) ∧
  ((res = Ok tt ∧ ∃ h t, outbox_events (w_db w') !! ob_event_id r =
      Some (set_failed (mkRedactedError code message retryable (Some h)) t r)) ∨
   ∃ e, res = Err e ∧ exn_kind e = OverflowError ∧ outbox_events (w_db w') = outbox_events (w_db w)).
Proof.
  cbv zeta. intros Hi Hk Hh. unfold mark_failure. destruct (clock_utc env Hclocks w) as (t & x & Ht).
  rewrite (bind_Ok _ _ _ _ _ Ht). set (w1 := mkWorld (w_db w) (w_bus w) x). unfold bind at 1.
  pose proof (plus_timedelta_spec (utc_at t) (backoff_seconds self (attempts record)) w1) as Hp.
  destruct (plus_timedelta (utc_at t) (backoff_seconds self (attempts record)) w1) as [[at_|e] w2];
    destruct Hp as [-> Hp]; [|split_and!; [done..|right; by exists e]].
  destruct (settle_on_db (SFail (mkRedactedError code message retryable (Some (bounded_error_hash env error))) at_)
    (or_row record) w1 (λ _, ret tt) (owner_id self) (version record) Hi Hk Hh Hp) as [Hi' Heq].
  cbn [settle_by] in Heq. rewrite Heq. cbn [ret]. split_and!; [done..|left]. split; [done|].
  eexists _, _. cbn. by rewrite lookup_insert_eq.
Qed.

Lemma elem_of_succeeded results c :
  c ∈ succeeded results ↔ ∃ r, r ∈ results ∧ dr_succeeded r = true ∧ dr_consumer_name r = c.
Proof.
  unfold succeeded. rewrite elem_of_list_to_set, list_elem_of_fmap. setoid_rewrite list_elem_of_filter. naive_solver.
Qed.

Lemma failures_nil results :
  Forall (λ r, dr_succeeded r = is_none (dr_error r)) results → failures results = [] →
  ∀ c, c ∈ dr_consumer_name <$> results → c ∈ succeeded results.
Proof.
  intros Hf Hnil c (r & -> & Hr)%list_elem_of_fmap. apply elem_of_succeeded. exists r. split_and!; [done| |done].
  rewrite Forall_forall in Hf. specialize (Hf r Hr). destruct (dr_succeeded r) eqn:Hs; [done|].
  destruct (dr_error r) as [e|] eqn:He; [|done]. exfalso.
  assert (Hin : e ∈ failures results) by (apply list_elem_of_omap; exists r; by rewrite Hs).
  rewrite Hnil in Hin. by apply not_elem_of_nil in Hin.
Qed.

Lemma failures_cons results e es :
  NoDup (dr_consumer_name <$> results) → failures results = e :: es →
  ∃ c, c ∈ dr_consumer_name <$> results ∧ c ∉ succeeded results.
Proof.
  intros Hn Hf. assert (Hin : e ∈ failures results) by (rewrite Hf; left).
  apply list_elem_of_omap in Hin as (r & Hr & He). destruct (dr_succeeded r) eqn:Hs; [done|].
  exists (dr_consumer_name r). split; [by apply list_elem_of_fmap_2|].
  intros (r' & Hr' & Hs' & En)%elem_of_succeeded.
  assert (r' = r) as ->; [|congruence]. clear -Hn Hr Hr' En.
  induction results as [|x results IH]; [by apply not_elem_of_nil in Hr|]. rewrite fmap_cons in Hn.
  apply NoDup_cons in Hn as [Hx Hn].
  apply elem_of_cons in Hr as [->|Hr], Hr' as [->|Hr']; [done| | |by apply IH]; exfalso; apply Hx;
    [rewrite <-En|rewrite En]; by apply list_elem_of_fmap_2.
Qed.

(** What calling the consumers and recording their results establishes. *)
Record consumed (id event_type : string) (w w2 : world X) (errors : list exn) : Prop := {
  cs_inv : outbox_inv (w_db w2);
  cs_row : outbox_events (w_db w2) !! id = outbox_events (w_db w) !! id;
  cs_grow : consumers (w_db w) id ⊆ consumers (w_db w2) id;
  cs_all : errors = [] → ∀ e, e ∈ entries_for event_type (w_bus w) → he_consumer_name e ∈ consumers (w_db w2) id;
  cs_some : errors ≠ [] → ∃ e, e ∈ entries_for event_type (w_bus w) ∧ he_consumer_name e ∉ consumers (w_db w2) id;
}.

Lemma call_and_record id event w :
  leaves env id → bus_inv (w_bus w) → outbox_inv (w_db w) → is_some (outbox_events (w_db w) !! id) = true →
  let m :=
    let! skip_consumers := on_db (consumed_consumers id) in
    let! report := dispatch w_bus (invoke env) event skip_consumers in
    record_results env id (rp_results report) in
  (∃ errors w2, m w = (Ok errors, w2) ∧ consumed id (e_event_type event) w w2 errors) ∨
  (∃ e w2, m w = (Err e, w2) ∧ exn_kind e = CancelledError ∧ outbox_inv (w_db w2) ∧ same_event id w w2).
Proof.
  intros Hl Hb Hi Hk. cbv zeta. rewrite on_db_bind.
  change (consumed_consumers id (w_db w)) with (Ok (A := gset string) (consumers (w_db w) id), w_db w).
  cbv iota. replace (mkWorld (w_db w) (w_bus w) (w_rest w)) with w by (by destruct w).
  unfold dispatch, bind, get_state, ret. rewrite run_consumers_skip.
  set (entries := entries_for (e_event_type event) (w_bus w)).
  set (called := unskipped (consumers (w_db w) id) entries).
  pose proof (run_consumers_leaves id event called w Hl Hi) as [Hi1 [Hr1 Hc1]].
  destruct (run_consumers (invoke env) event ∅ called w) as [[results|e] w1] eqn:Hrun; cbn [snd] in *.
  2:{ right. exists e, w1. apply run_consumers_err in Hrun. split; [done|]. split; [|done].
      unfold is_exception in Hrun. by bools. }
  left. apply run_consumers_results in Hrun as [Hnames Hres]. cbn [rp_results].
  assert (Hcalled : ∀ e, e ∈ called ↔ e ∈ entries ∧ he_consumer_name e ∉ consumers (w_db w) id).
  { intros e. unfold called, unskipped. rewrite list_elem_of_filter. tauto. }
  destruct (record_results_eq id results w1) as (w2 & Hrec & Hi2 & _ & He2 & Hc2); [done|by rewrite Hr1| |].
  { apply Forall_forall. intros x Hx. apply (list_elem_of_fmap_2 dr_consumer_name) in Hx. rewrite Hnames in Hx.
    apply list_elem_of_fmap in Hx as (e & -> & He%Hcalled). exact (entries_for_named _ _ e Hb (proj1 He)). }
  exists (failures results), w2. split; [done|]. rewrite <-Hc1 in Hcalled.
  assert (Hcons : consumers (w_db w2) id = succeeded results ∪ consumers (w_db w1) id)
    by (by rewrite Hc2, bool_decide_eq_true_2).
  split; [done|by rewrite He2|rewrite Hcons, Hc1; clear; set_solver|..]; setoid_rewrite Hcons.
  - intros Hf e He. apply elem_of_union.
    destruct (decide (he_consumer_name e ∈ consumers (w_db w1) id)) as [|Hnin]; [by right|left].
    apply failures_nil; [done..|]. rewrite Hnames. by apply list_elem_of_fmap_2, Hcalled.
  - intros Hf. destruct (failures results) as [|f fs] eqn:E; [done|].
    destruct (failures_cons results f fs) as (c & Hc & Hns); [|done|].
    { rewrite Hnames. eapply sublist_NoDup; [by apply (entries_for_names (e_event_type event) (w_bus w))|].
      apply fmap_sublist, sublist_filter. }
    rewrite Hnames in Hc. apply list_elem_of_fmap in Hc as (e & -> & [He Hne]%Hcalled).
    exists e. rewrite elem_of_union. tauto.
Qed.

(** The part of [_dispatch_record] after the envelope is rebuilt. *)
Lemma deliver_event record event w res w' :
  let r := or_row record in let id := ob_event_id r in
  leaves env id → bus_inv (w_bus w) → outbox_inv (w_db w) → outbox_events (w_db w) !! id = Some r →
  held (owner_id self) (SInt (version record)) r = true → e_event_type event = ob_event_type r →
  well_formed record →
  (let! failures :=
     (let! skip_consumers := on_db (consumed_consumers id) in
      let! report := dispatch w_bus (invoke env) event skip_consumers in
      record_results env id (rp_results report)) in
   match failures with
   | failure :: _ =>
       mark_failure env self record failure "consumer_dispatch_failed" "one or more consumers failed" true
   | [] =>
       let! now := clock env in
       on_db (mark_published id (owner_id self) (version record) now) ;;; ret tt
   end) w = (res, w') →
  outbox_inv (w_db w') ∧ consumers (w_db w) id ⊆ consumers (w_db w') id ∧ delivery record w w' res.
Proof.
  cbv zeta. intros Hl Hb Hi Hk Hh Ht Hwf. unfold bind at 1.
  destruct (call_and_record (ob_event_id (or_row record)) event w Hl Hb Hi) as
    [(errors & w2 & -> & Hc)|(e & w2 & -> & He & Hi2 & Hr2 & Hc2)]; [by rewrite Hk| |].
  2:{ intros [= <- <-]. split; [done|]. split; [by rewrite Hc2|]. apply interrupted; [by left|by rewrite Hr2]. }
  rewrite Ht in Hc. destruct Hc as [Hi2 Hrow Hgrow Hall Hsome]. rewrite Hk in Hrow. destruct errors as [|f fs].
  - destruct (clock_utc env Hclocks w2) as (t & x & Hclk). rewrite (bind_Ok _ _ _ _ _ Hclk).
    destruct (settle_on_db (SPublish (utc_at t)) (or_row record) (mkWorld (w_db w2) (w_bus w2) x) (λ _, ret tt)
      (owner_id self) (version record) Hi2 Hrow Hh eq_refl) as [Hi3 Heq].
    cbn [settle_by] in Heq. rewrite Heq. intros [= <- <-]. split; [done|]. split; [exact Hgrow|].
    eapply (delivered record w _ (wall (utc_at t))); [done|cbn; by rewrite lookup_insert_eq|exact (Hall eq_refl)].
  - pose proof (mark_failure_eq record f "consumer_dispatch_failed" "one or more consumers failed" true w2 Hi2 Hrow Hh)
      as Hm. destruct (mark_failure env self record f _ _ true w2) as [res2 w3].
    destruct Hm as (Hi3 & Hc3 & Hcase). intros [= <- <-]. split; [done|]. split; [rewrite Hc3; exact Hgrow|].
    destruct Hcase as [(-> & h & t & Hr3)|(e & -> & Hov & Hsame)].
    + destruct Hsome as (e & He & Hne); [done|]. apply (not_all_consumed record w w3 e); [done| |done|by rewrite Hc3].
      exists h, t. split; [done|exact (failed_status_control record (proj1 Hwf))].
    + apply interrupted; [by right|]. by rewrite Hsame.
Qed.

(** C25. Dispatching a record the dispatcher holds the claim of, while nobody else settles
    its row or records consumptions of it (the handlers may write anything else), ends in
    one of five ways. A well-formed row is published only when every consumer registered for
    its type has a recorded consumption, and put back with consumer_dispatch_failed only
    when some consumer has none. A row whose envelope is malformed is put back with
    malformed_outbox_event and no consumption added. A row put back waits for a retry while
    attempts remain and goes to the dead letters after the last one, whatever the retryable
    flag of its error. A row whose control fields are malformed is poisoned at once. The row
    stays claimed when the task is cancelled or a date overflows. Consumptions are never
    lost. *)
Theorem dispatch_record_outcome record w res w' :
  let r := or_row record in let id := ob_event_id r in
  leaves env id → bus_inv (w_bus w) → outbox_inv (w_db w) → outbox_events (w_db w) !! id = Some r →
  ob_status r = OB_CLAIMED → ob_lease_owner r = Some (owner_id self) →
  dispatch_record env self record w = (res, w') →
  outbox_inv (w_db w') ∧ consumers (w_db w) id ⊆ consumers (w_db w') id ∧ delivery record w w' res.
Proof.
  cbv zeta. intros Hl Hb Hi Hk Hst Hown. unfold dispatch_record, try_return.
  destruct (run_pure (validate_dispatch_control record)) as [[]|x] eqn:Hv.
  - pose proof (validate_control_version record Hv) as Hver.
    assert (Hh : held (owner_id self) (SInt (version record)) (or_row record) = true) by (by apply held_spec).
    destruct (run_pure (event_from_record env record)) as [event|x] eqn:He.
    + destruct (event_from_record_type record event He) as [_ Ht]. intros H.
      apply (deliver_event record event); try done; [split; eauto|]. rewrite <-H. unfold bind at 1 2 3 6 7.
      destruct (on_db _ w) as [[skip|e] w1]; [|done].
      by destruct (dispatch w_bus (invoke env) event skip w1) as [[report|e] w2].
    + rewrite (envelope_caught record x He).
      pose proof (mark_failure_eq record x "malformed_outbox_event" "durable event envelope is invalid" false w Hi Hk Hh)
        as Hm. intros Heq. rewrite Heq in Hm. destruct Hm as (Hi' & Hc & Hcase).
      split; [done|]. split; [by rewrite Hc|]. destruct Hcase as [(-> & h & t & Hr)|(e & -> & Hov & Hsame)].
      * apply (envelope_malformed record w w' x); [done..| |by rewrite Hc].
        exists h, t. split; [done|exact (failed_status_control record Hv)].
      * apply interrupted; [by right|by rewrite Hsame].
  - rewrite (validate_control_caught record x Hv). destruct (clock_utc env Hclocks w) as (t & y & Hclk).
    rewrite (bind_Ok _ _ _ _ _ Hclk), on_db_bind. cbn [w_db w_bus w_rest].
    assert (Hh : held (owner_id self) (ob_version (or_row record)) (or_row record) = true) by (by apply held_spec).
    set (err := mkRedactedError _ _ _ _).
    pose proof (settle_eq (w_db w) (ob_event_id (or_row record)) (owner_id self) (ob_version (or_row record))
      (set_poisoned err) (utc_at t) Hi eq_refl) as Heq.
    assert (Hg : ∀ r, outbox_events (w_db w) !! ob_event_id (or_row record) = Some r →
      held (owner_id self) (ob_version (or_row record)) r = true → good_update (w_db w) r (set_poisoned err t r)).
    { intros r Hr Hhr. by apply (settle_good_cases (w_db w) _ r _ _ t err Hi Hr Hhr). }
    specialize (Heq Hg). rewrite Hk, Hh in Heq.
    change (mark_poisoned ?a ?b ?c ?d ?e) with (settle a b c (set_poisoned d) e). rewrite Heq.
    intros [= <- <-]. cbn [w_db]. split; [exact (proj1 (good_update_ok _ _ _ _ Hi Hk (Hg _ Hk Hh)))|]. split; [done|].
    eapply (poisoned record w _ err t x); [done|cbn; by rewrite lookup_insert_eq|done].
Qed.

(** The environment with other handlers. *)
Definition with_invoke (f : handler → EventEnvelope → M (world X) unit) : environment X :=
  mkEnvironment f (clock env) (utc_now env) (float_of env) (loads_error env) (type_name env) (exn_text env).

(** Redelivery skips the consumers that are done: dispatching a record does not depend on
    the handlers of consumers whose consumption of the event is recorded, they are not
    called again. *)
Theorem consumed_not_called_again f record w :
  (∀ e, e ∈ entries_for (ob_event_type (or_row record)) (w_bus w) →
     he_consumer_name e ∉ consumers (w_db w) (ob_event_id (or_row record)) →
     f (he_handler e) = invoke env (he_handler e)) →
  dispatch_record (with_invoke f) self record w = dispatch_record env self record w.
Proof.
  intros Hf. unfold dispatch_record, try_return.
  destruct (run_pure (validate_dispatch_control record)); [|done].
  change (event_from_record (S := ()) (with_invoke f)) with (event_from_record (S := ()) env).
  destruct (run_pure (event_from_record env record)) as [event|x] eqn:He; [|done].
  destruct (event_from_record_type record event He) as [_ Ht]. rewrite !on_db_bind.
  change (consumed_consumers ?id ?d) with (Ok (A := gset string) (consumers d id), d). cbv iota.
  unfold bind at 1 4. rewrite (dispatch_agree w_bus (invoke (with_invoke f)) (invoke env)); [done|].
  rewrite Ht. intros e [Hn Hin]%list_elem_of_filter. by apply Hf.
Qed.
End delivery.

(** ** A whole drain *)

(** Handlers that return, keep the rules of the bus and leave the events of the
    batch alone. *)
Record handlers_work {X} (env : environment X) (ids : list string) : Prop := {
  hw_returns : ∀ h event w, (invoke env h event w).1 = Ok tt;
  hw_leaves : ∀ id, id ∈ ids → leaves env id;
  hw_bus : ∀ h event w, bus_inv (w_bus w) → bus_inv (w_bus (invoke env h event w).2);
}.

Section drain.
Context {X : Type} (env : environment X) (self : OutboxDispatcher) (ids : list string).
Context (Hclocks : clocks_ok env) (Hwork : handlers_work env ids).

(** Computations that keep the invariants and the row of an event. *)
Definition frame {A} (k : string) (m : M (world X) A) : Prop := ∀ w,
  outbox_inv (w_db w) → bus_inv (w_bus w) →
  let w' := (m w).2 in
  outbox_inv (w_db w') ∧ bus_inv (w_bus w') ∧
  outbox_events (w_db w') !! k = outbox_events (w_db w) !! k.

Lemma frame_ret {A} k (a : A) : frame k (ret a).
Proof. by intros w Hi Hb. Qed.
Lemma frame_of_result {A} k (r : result A) : frame k (of_result r).
Proof. by intros w Hi Hb. Qed.
Lemma frame_get_state k : frame k get_state.
Proof. by intros w Hi Hb. Qed.
Lemma frame_bind {A B} k (m : M (world X) A) (f : A → M (world X) B) :
  frame k m → (∀ a, frame k (f a)) → frame k (bind m f).
Proof.
  intros Hm Hf w Hi Hb. destruct (Hm w Hi Hb) as (Hi1 & Hb1 & E1). unfold bind.
  destruct (m w) as [[a|e] w1]; [|done]. cbn in *. destruct (Hf a w1 Hi1 Hb1) as (Hi2 & Hb2 & E2).
  split_and!; [done..|]. by rewrite E2.
Qed.
Lemma frame_clock k : frame k (clock env).
Proof. intros w Hi Hb. destruct (clock_utc env Hclocks w) as (t & x & ->). done. Qed.
Lemma frame_now k : frame k (utc_now env).
Proof. intros w Hi Hb. destruct (now_utc env Hclocks w) as (t & x & ->). done. Qed.
Lemma frame_timedelta k t x : frame k (plus_timedelta t x).
Proof.
  intros w Hi Hb. pose proof (plus_timedelta_spec t x w) as Hp.
  destruct (plus_timedelta t x w) as [[a|e] w']; by destruct Hp as [-> _].
Qed.
#[local] Hint Resolve frame_ret frame_of_result frame_get_state frame_clock frame_now frame_timedelta : py.
#[local] Hint Extern 2 (frame _ (bind _ _)) => apply frame_bind; [|intros ?] : py.

Lemma frame_settle k id owner v f now :
  k ≠ id →
  (∀ d r t, outbox_inv d → outbox_events d !! id = Some r → held owner v r = true → good_update d r (f t r)) →
  frame k (on_db (settle id owner v f now)).
Proof.
  intros Hne Hg w Hi Hb. unfold on_db.
  pose proof (settle_ok (w_db w) id owner v f now Hi (λ r Hr Hh, Hg (w_db w) r _ Hi Hr Hh)) as [Hi' _].
  assert (E : outbox_events (settle id owner v f now (w_db w)).2 !! k = outbox_events (w_db w) !! k).
  { destruct (decide (utcoffset now = Some 0)) as [Hu|Hu].
    - rewrite settle_eq by eauto. destruct (outbox_events (w_db w) !! id) as [r|]; [|done].
      destruct (held owner v r); [|done]. cbn. by rewrite lookup_insert_ne.
    - unfold settle, atomically, utc_iso. by rewrite bool_decide_eq_false_2. }
  by destruct (settle id owner v f now (w_db w)) as [res d].
Qed.

Lemma frame_failed k id owner v e t : k ≠ id → frame k (on_db (mark_failed id owner v e t)).
Proof.
  intros Hne. apply (frame_settle k id owner (SInt v) (set_failed e) t Hne).
  intros d r u Hi Hr Hh. by apply (settle_good_cases d id r owner _ u e Hi Hr Hh).
Qed.
Lemma frame_published k id owner v t : k ≠ id → frame k (on_db (mark_published id owner v t)).
Proof.
  intros Hne. apply (frame_settle k id owner (SInt v) set_published t Hne).
  intros d r u Hi Hr Hh. by apply (settle_good_cases d id r owner _ u (mkRedactedError "" "" false None) Hi Hr Hh).
Qed.
Lemma frame_poisoned k id owner v e t : k ≠ id → frame k (on_db (mark_poisoned id owner v e t)).
Proof.
  intros Hne. apply (frame_settle k id owner v (set_poisoned e) t Hne).
  intros d r u Hi Hr Hh. by apply (settle_good_cases d id r owner _ u e Hi Hr Hh).
Qed.
Lemma frame_consumption k id c h t : frame k (on_db (record_consumption id c h t)).
Proof.
  intros w Hi Hb. unfold on_db, record_consumption, atomically, insert_consumption, bind, guard, ret, raise.
  destruct (non_blank c); [|done]. destruct (outbox_consumptions (w_db w) !! (id, c)); [done|].
  destruct (is_some (outbox_events (w_db w) !! id)); [|done]. cbn. split_and!; [|done..].
  by apply set_consumptions_inv.
Qed.
Lemma frame_consumed k id : frame k (on_db (consumed_consumers id)).
Proof. by intros w Hi Hb. Qed.
#[local] Hint Resolve frame_failed frame_published frame_poisoned frame_consumption frame_consumed : py.

Lemma frame_results k id results : frame k (record_results env id results).
Proof.
  induction results as [|r results IH]; cbn [record_results]; [auto with py|].
  destruct (dr_succeeded r); auto 10 with py.
Qed.

Lemma frame_dispatch k event skip : k ∈ ids → frame k (dispatch w_bus (invoke env) event skip).
Proof.
  intros Hk. unfold dispatch. apply frame_bind; [auto with py|]. intros w0. apply frame_bind; [|auto with py].
  rewrite run_consumers_skip. generalize (unskipped skip (entries_for (e_event_type event) (w_bus w0))).
  intros entries. induction entries as [|e entries IH]; [apply frame_ret|]. rewrite run_consumers_cons.
  apply frame_bind; [|auto with py]. intros w Hi Hb. rewrite call_consumer_eq.
  destruct (hw_leaves env ids Hwork k Hk (he_handler e) event w Hi) as (Hi' & Hr & _).
  pose proof (hw_bus env ids Hwork (he_handler e) event w Hb) as Hb'.
  destruct (invoke env (he_handler e) event w) as [[u|x] w']; [done|]. by destruct (is_exception x).
Qed.
#[local] Hint Resolve frame_results frame_dispatch : py.

(** Dispatching one record leaves the rows of the others alone. *)
Lemma frame_dispatch_record k record :
  k ∈ ids → k ≠ ob_event_id (or_row record) → frame k (dispatch_record env self record).
Proof.
  intros Hk Hne. unfold dispatch_record, try_return, mark_failure.
  repeat first [solve [auto with py] | apply frame_bind; [|intros ?] | case_match].
Qed.

(** When every handler returns, nothing fails. *)
Lemma dispatch_works id event w :
  bus_inv (w_bus w) →
  ∃ results w1, dispatch w_bus (invoke env) event (consumers (w_db w) id) w = (Ok (mkReport (e_event_id event) results), w1) ∧
    failures results = [] ∧ Forall (λ r, non_blank (dr_consumer_name r) = true) results.
Proof.
  intros Hb. unfold dispatch. rewrite bind_get_state, run_consumers_skip.
  set (entries := unskipped (consumers (w_db w) id) (entries_for (e_event_type event) (w_bus w))).
  assert (Hn : Forall (λ e, non_blank (he_consumer_name e) = true) entries).
  { apply Forall_forall. intros e [_ He]%list_elem_of_filter. by eapply entries_for_named. }
  clearbody entries. clear Hb. unfold bind.
  assert (∃ results w1, run_consumers (invoke env) event ∅ entries w = (Ok results, w1) ∧ failures results = [])
    as (results & w1 & Hrun & Hf).
  { clear Hn. revert w. induction entries as [|e entries IH]; intros w; [by exists [], w|]. rewrite run_consumers_cons.
    unfold bind at 1. rewrite call_consumer_eq. pose proof (hw_returns env ids Hwork (he_handler e) event w) as Hr.
    destruct (invoke env (he_handler e) event w) as [r w1]. cbn in Hr. subst r.
    destruct (IH w1) as (results & w' & Hrun & Hf). eexists _, w'. unfold bind. rewrite Hrun. by split. }
  exists results, w1. rewrite Hrun. split; [done|]. split; [done|]. apply run_consumers_results in Hrun as [E _].
  rewrite Forall_forall in *. intros r Hr%(list_elem_of_fmap_2 dr_consumer_name). rewrite E in Hr.
  apply list_elem_of_fmap in Hr as (e & -> & He).
  exact (proj1 (Forall_forall _ _) Hn e He).
Qed.

Definition deliverable (record : OutboxRecord) : Prop :=
  run_pure (validate_dispatch_control record) = Ok tt ∧
  ∃ event, run_pure (event_from_record env record) = Ok event.

(** A record that can be delivered ends published. *)
Lemma dispatch_record_works record w :
  let r := or_row record in
  ob_event_id r ∈ ids → outbox_inv (w_db w) → bus_inv (w_bus w) →
  outbox_events (w_db w) !! ob_event_id r = Some r → ob_status r = OB_CLAIMED →
  ob_lease_owner r = Some (owner_id self) → deliverable record →
  ∃ t w', dispatch_record env self record w = (Ok tt, w') ∧ outbox_inv (w_db w') ∧ bus_inv (w_bus w') ∧
    outbox_events (w_db w') !! ob_event_id r = Some (set_published t r).
Proof.
  cbv zeta. intros Hin Hi Hb Hk Hst Hown [Hv [event He]]. unfold dispatch_record, try_return. rewrite Hv, He.
  pose proof (validate_control_version record Hv) as Hver.
  assert (Hh : held (owner_id self) (SInt (version record)) (or_row record) = true) by (by apply held_spec).
  set (id := ob_event_id (or_row record)) in *. rewrite on_db_bind.
  change (consumed_consumers id (w_db w)) with (Ok (A := gset string) (consumers (w_db w) id), w_db w).
  cbv iota. replace (mkWorld (w_db w) (w_bus w) (w_rest w)) with w by (by destruct w).
  destruct (dispatch_works id event w Hb) as (results & w1 & Hd & Hf & Hn).
  destruct (frame_dispatch id event (consumers (w_db w) id) Hin w Hi Hb) as (Hi1 & Hb1 & Hr1).
  rewrite Hd in Hi1, Hb1, Hr1. cbn [snd] in *. rewrite (bind_Ok _ _ _ _ _ Hd). cbn [rp_results].
  destruct (record_results_eq env Hclocks id results w1) as (w2 & Hrec & Hi2 & Hb2 & He2 & _); [done|by rewrite Hr1, Hk|done|].
  rewrite (bind_Ok _ _ _ _ _ Hrec), Hf. destruct (clock_utc env Hclocks w2) as (t & x & Hclk).
  rewrite (bind_Ok _ _ _ _ _ Hclk).
  destruct (settle_on_db (SPublish (utc_at t)) (or_row record) (mkWorld (w_db w2) (w_bus w2) x) (λ _, ret tt)
    (owner_id self) (version record) Hi2) as [Hi3 Heq]; [cbn [w_db]; fold id; by rewrite He2, Hr1|done|done|].
  cbn [settle_by] in Heq. fold id in Heq. rewrite Heq. eexists t, _. split; [done|]. split; [done|].
  split; [cbn; by rewrite Hb2|]. cbn. by rewrite lookup_insert_eq.
Qed.

(** The claimed rows of a batch are dispatched one after the other. *)
Lemma dispatch_records_works records w :
  (∀ x, x ∈ records → ob_event_id (or_row x) ∈ ids ∧ ob_status (or_row x) = OB_CLAIMED ∧
     ob_lease_owner (or_row x) = Some (owner_id self) ∧ deliverable x ∧
     outbox_events (w_db w) !! ob_event_id (or_row x) = Some (or_row x)) →
  NoDup ((λ x, ob_event_id (or_row x)) <$> records) → outbox_inv (w_db w) → bus_inv (w_bus w) →
  ∃ w', dispatch_records env self records w = (Ok tt, w') ∧ outbox_inv (w_db w') ∧
    (∀ k, k ∈ ids → k ∉ (λ x, ob_event_id (or_row x)) <$> records →
       outbox_events (w_db w') !! k = outbox_events (w_db w) !! k) ∧
    ∀ x, x ∈ records → ∃ t, outbox_events (w_db w') !! ob_event_id (or_row x) = Some (set_published t (or_row x)).
Proof.
  revert w. induction records as [|x records IH]; intros w Hall Hnd Hi Hb.
  { exists w. split_and!; [done..|]. intros x Hx. by apply not_elem_of_nil in Hx. }
  rewrite fmap_cons in Hnd. apply NoDup_cons in Hnd as [Hx Hnd].
  destruct (Hall x) as (Hin & Hst & Hown & Hd & Hk); [left|].
  destruct (dispatch_record_works x w Hin Hi Hb Hk Hst Hown Hd) as (t & w1 & Hrun & Hi1 & Hb1 & Hk1).
  assert (Hframe : ∀ k, k ∈ ids → k ≠ ob_event_id (or_row x) →
    outbox_events (w_db w1) !! k = outbox_events (w_db w) !! k).
  { intros k Hkin Hne. destruct (frame_dispatch_record k x Hkin Hne w Hi Hb) as (_ & _ & E). by rewrite Hrun in E. }
  destruct (IH w1) as (w' & Hrun' & Hi' & Hother & Hpub); [|done..|].
  { intros y Hy. destruct (Hall y) as (Hyin & ? & ? & ? & Hyk); [by right|]. split_and!; [done..|].
    rewrite Hframe; [done|done|]. intros E. apply Hx. rewrite <-E.
    by apply (list_elem_of_fmap_2 (λ x, ob_event_id (or_row x))). }
  exists w'. split_and!; [cbn [dispatch_records]; by rewrite (bind_Ok _ _ _ _ _ Hrun)|done| |].
  - intros k Hkin [Hne Hn]%not_elem_of_cons. rewrite Hother, Hframe; done.
  - intros y [->|Hy]%elem_of_cons; [exists t; by rewrite Hother|by apply Hpub].
Qed.

(** C26. A drain delivers: when the handlers return and leave the rows and consumptions of
    the batch alone, and every due row of it is well formed, drain_once returns the number
    of due events it claimed, at most limit and in order of availability, and every one of
    them ends published at its claimed version. *)
Theorem drain_delivers limit w now w0 :
  clock env w = (Ok (utc_at now), w0) → outbox_inv (w_db w) → bus_inv (w_bus w) →
  non_blank (owner_id self) = true → 0 < limit → 0 < lease_seconds self →
  representable (now + lease_seconds self * 1000000) = true →
  let exp := now + lease_seconds self * 1000000 in
  let due := batch (w_db w) now limit in
  (∀ r, r ∈ due → ob_event_id r ∈ ids ∧ deliverable (claimed_record (owner_id self) exp r)) →
  ∃ w', drain_once env self limit w = (Ok (Z.of_nat (length due)), w') ∧ outbox_inv (w_db w') ∧
    ∀ r, r ∈ due → ∃ t, outbox_events (w_db w') !! ob_event_id r =
      Some (set_published t (set_claimed (owner_id self) exp r)).
Proof.
  cbv zeta. intros Hclk Hi Hb Ho Hl Hs Hrep Hdue. destruct (clock_utc env Hclocks w) as (t & x & Hclk').
  rewrite Hclk in Hclk'. injection Hclk' as -> ->.
  destruct (claim_batch_eq (w_db w) (owner_id self) (utc_at t) limit (lease_seconds self)) as (Hrun & Hi' & _); try done.
  cbn [wall utc_at] in *. set (exp := t + _) in *. set (due := batch (w_db w) t limit) in *.
  destruct (batch_spec (w_db w) t limit Hi) as [Hnd _]. fold due in Hnd.
  set (d1 := claim_rows (owner_id self) exp due (w_db w)) in *.
  destruct (dispatch_records_works (claimed_record (owner_id self) exp <$> due) (mkWorld d1 (w_bus w) x))
    as (w' & Hd & Hi2 & _ & Hpub); [| |done|done|].
  { intros y (r & -> & Hr)%list_elem_of_fmap. destruct (Hdue r Hr) as [Hin Hdel]. cbn. split_and!; [done..|].
    by apply claim_rows_lookup_in. }
  { rewrite <-list_fmap_compose. exact Hnd. }
  exists w'. split_and!; [|done|].
  - unfold drain_once. rewrite (bind_Ok _ _ _ _ _ Hclk), on_db_bind. cbn [w_db w_bus w_rest]. rewrite Hrun.
    by rewrite (bind_Ok _ _ _ _ _ Hd), length_fmap.
  - intros r Hr. apply (Hpub (claimed_record (owner_id self) exp r)). by apply list_elem_of_fmap_2.
Qed.
End drain.

(** ** The envelope a consumer receives *)

Lemma validate_json_value_finite v : validate_json_value v = all_finite v.
Proof. reflexivity. Qed.
Lemma all_finite_sort_keys v : all_finite (sort_keys v) = all_finite v.
Proof.
  induction v as [|b|z|f|s|l IH|l IH] using json_ind'; try done; cbn [sort_keys all_finite].
  - induction IH as [|x l Hx _ IHl]; [done|]. cbn. by rewrite Hx, IHl.
  - rewrite (forallb_perm _ _ _ (order_by_perm key_le _)).
    induction IH as [|x l Hx _ IHl]; [done|]. cbn [fmap list_fmap forallb prod_map snd]. f_equal; [exact Hx|exact IHl].
Qed.

(** What [_required_text] and the identity checks ask of an envelope. *)
Definition addressed (event : EventEnvelope) : bool :=
  non_blank (e_event_id event) && non_blank (e_event_type event) && non_blank (e_producer event) &&
  match e_edict_id event with Some e => non_blank e | None => is_none (e_memorial_id event) end &&
  match e_memorial_id event with Some m => non_blank m | None => true end.

(** Round trip through the outbox: the envelope a consumer first receives is the one that
    was added, with the payload keys sorted, the attempt set to 1 and the correlation
    identity of the row as the default of the correlation_id of the payload. *)
Theorem delivered_envelope {X} (env : environment X) event owner exp d u d' :
  add event d = (Ok u, d') → addressed event = true →
  loadable (float_of env) (JObj (e_payload event)) = true →
  ∃ r c, outbox_events d' !! e_event_id event = Some r ∧ ob_correlation_id r = Some c ∧
    run_pure (validate_dispatch_control (claimed_record owner exp r)) = Ok tt ∧
    run_pure (event_from_record env (claimed_record owner exp r)) =
      Ok (mkEvent (e_event_id event) (e_event_type event) (e_edict_id event) (e_memorial_id event) (SInt 1)
            (e_timestamp event) (e_producer event)
            (setdefault (order_by key_le (prod_map id sort_keys <$> e_payload event)) "correlation_id" (JStr c))).
Proof.
  intros (b & c & Hb & _ & _ & ->)%add_row Ha Hl. exists (added_row event b c), c.
  split; [by rewrite with_outbox_lookup, lookup_insert_eq|]. split; [done|]. split; [done|].
  assert (Hfin : validate_json_value (sort_keys (JObj (e_payload event))) = true).
  { rewrite validate_json_value_finite, all_finite_sort_keys. unfold canonical_json_bytes in Hb.
    by destruct (all_finite _). }
  pose proof (loads_with_canonical false (float_of env) _ b Hl Hb) as Hload.
  unfold addressed in Ha. bools. unfold run_pure, event_from_record, optional_text, required_text.
  cbn [or_row claimed_record added_row set_claimed ob_event_id ob_event_type ob_aggregate_type ob_producer ob_edict_id
    ob_memorial_id ob_payload_json ob_attempt_count ob_occurred_at or_correlation_id ob_correlation_id default].
  cbn [sort_keys] in Hfin, Hload. unfold bind, guard, ret.
  assert (Hagg : non_blank "edict" = true ∧ non_blank "system" = true) by done. destruct Hagg as [Hagg1 Hagg2].
  destruct (e_edict_id event) as [e|], (e_memorial_id event) as [m|]; try done;
    repeat (match goal with H : non_blank ?x = true |- context [non_blank ?x] => rewrite H end;
            cbn [negb andb orb is_some is_none]);
    rewrite bool_decide_eq_true_2, Hload, Hfin by done; done.
Qed.

(** ** A concrete dispatcher *)

Module DispatcherSample.
(** The world keeps the log of the calls; handler 1 fails when [ok] is false. *)
Definition env (ok : bool) : environment (list handler) :=
  mkEnvironment
    (λ h _ w, (if ok || negb (bool_decide (h = 1%positive)) then Ok tt else Err (Exn RuntimeError "no plan"),
               mkWorld (w_db w) (w_bus w) (w_rest w ++ [h])))
    (λ w, (Ok (utc_at 300), w)) (λ w, (Ok 300, w)) (λ s, PyFloat None s) (λ _, "invalid JSON")
    (λ _, "builtins.RuntimeError") (λ e, Some (exn_message e)).
Definition self : OutboxDispatcher := mkDispatcher "worker-a" 30 (1, 0) (300, 0) (1, 0) (5, 0).
Definition w1 : world (list handler) := mkWorld OutboxSample.d1 BusSample.bus [].
Definition w2 : world (list handler) := mkWorld OutboxSample.d2 BusSample.bus [].
Definition record : OutboxRecord := claimed_record "worker-a" 30000200 OutboxSample.row1.
(** The world after a first delivery in which handler 1 failed. *)
Definition w3 : world (list handler) := (dispatch_record (env false) self record w2).2.

Lemma clocks ok : clocks_ok (env ok).
Proof.
  split; [intros w; exists 300, (w_rest w)|intros w; exists 300, (w_rest w)]; by destruct w.
Qed.
Lemma leaves_any ok id : leaves (env ok) id.
Proof. by intros h event w Hi. Qed.
Lemma works : handlers_work (env true) ["ev-1"].
Proof. split; [done|intros; apply leaves_any|done]. Qed.
Lemma due : batch OutboxSample.d1 300 10 = [OutboxSample.row1].
Proof. vm_compute. reflexivity. Qed.
Lemma ready : deliverable (env true) (claimed_record "worker-a" 30000300 OutboxSample.row1).
Proof. split; [reflexivity|]. eexists. vm_compute. reflexivity. Qed.
End DispatcherSample.

(** Handler 1 fails: the consumer with handler 2 is recorded, the row waits,
    and the redelivery calls handler 1 only. *)
Example redelivery :
  w_rest DispatcherSample.w3 = [2%positive; 1%positive] ∧
  consumers (w_db DispatcherSample.w3) "ev-1" = {["audit"]} ∧
  w_rest (dispatch_record (DispatcherSample.env true) DispatcherSample.self DispatcherSample.record
            DispatcherSample.w3).2 = [2%positive; 1%positive; 1%positive].
Proof. vm_compute. split_and!; reflexivity. Qed.

Lemma dispatch_record_outcome_witness :
  delivery (DispatcherSample.env false) DispatcherSample.record DispatcherSample.w2 DispatcherSample.w3 (Ok tt).
Proof.
  exact (proj2 (proj2 (dispatch_record_outcome (DispatcherSample.env false) DispatcherSample.self
    (DispatcherSample.clocks false) DispatcherSample.record DispatcherSample.w2 (Ok tt) DispatcherSample.w3
    (DispatcherSample.leaves_any false _) BusSample.bus_inv1 OutboxSample.outbox_inv2 OutboxSample.outbox_lookup2
    eq_refl eq_refl ltac:(vm_compute; reflexivity)))).
Defined.

Lemma consumed_not_called_again_witness :
  dispatch_record (with_invoke (DispatcherSample.env true)
      (λ h event, if decide (h = 2%positive) then raise RuntimeError "called twice"
                  else invoke (DispatcherSample.env true) h event))
    DispatcherSample.self DispatcherSample.record DispatcherSample.w3 =
  dispatch_record (DispatcherSample.env true) DispatcherSample.self DispatcherSample.record DispatcherSample.w3.
Proof.
  apply (consumed_not_called_again (DispatcherSample.env true) DispatcherSample.self).
  intros e He Hn. destruct (decide (he_handler e = 2%positive)) as [E|E]; [|reflexivity].
  exfalso. assert (Hentries : entries_for "edict.submitted" (w_bus DispatcherSample.w3) =
    [mkHandlerEntry "audit" 2%positive 10; mkHandlerEntry "planner" 1%positive 50]) by (vm_compute; reflexivity).
  change (ob_event_type (or_row DispatcherSample.record)) with "edict.submitted" in He. rewrite Hentries in He.
  apply elem_of_cons in He as [->|He%list_elem_of_singleton]; [|subst e; discriminate E].
  apply Hn. change (ob_event_id (or_row DispatcherSample.record)) with "ev-1".
  rewrite (proj1 (proj2 redelivery)). apply elem_of_singleton. reflexivity.
Defined.

Lemma drain_delivers_witness :
  ∃ w', drain_once (DispatcherSample.env true) DispatcherSample.self 10 DispatcherSample.w1 = (Ok 1, w') ∧
    ∃ t, outbox_events (w_db w') !! "ev-1" =
      Some (set_published t (set_claimed "worker-a" 30000300 OutboxSample.row1)).
Proof.
  destruct (drain_delivers (DispatcherSample.env true) DispatcherSample.self ["ev-1"] (DispatcherSample.clocks true)
    DispatcherSample.works 10 DispatcherSample.w1 300 DispatcherSample.w1 eq_refl OutboxSample.outbox_inv1
    BusSample.bus_inv1 eq_refl ltac:(lia) ltac:(cbn; lia) eq_refl) as (w' & Hrun & _ & Hpub).
  - change (w_db DispatcherSample.w1) with OutboxSample.d1. rewrite DispatcherSample.due.
    intros r Hr%list_elem_of_singleton. subst r. split; [left|exact DispatcherSample.ready].
  - change (w_db DispatcherSample.w1) with OutboxSample.d1 in Hrun, Hpub. rewrite DispatcherSample.due in Hrun, Hpub.
    exists w'. split; [exact Hrun|]. apply (Hpub OutboxSample.row1). left.
Defined.

Lemma delivered_envelope_witness :
  ∃ r c, outbox_events OutboxSample.d1 !! "ev-1" = Some r ∧
    run_pure (event_from_record (DispatcherSample.env true) (claimed_record "worker-a" 30000300 r)) =
      Ok (mkEvent "ev-1" "edict.submitted" None None (SInt 1) 100 "api"
            [("title", JStr "report"); ("correlation_id", JStr c)]).
Proof.
  destruct (delivered_envelope (DispatcherSample.env true) (OutboxSample.event "ev-1" 100) "worker-a" 30000300
    OutboxSample.d0 tt OutboxSample.d1 ltac:(vm_compute; reflexivity) eq_refl eq_refl) as (r & c & H1 & _ & _ & H2).
  exists r, c. split; [exact H1|exact H2].
Defined.
