(* ===== verification/Failure.v ===== *)
(** * Failure reasons

    Models src/src/tianshu/models/failure.py: the classification of the free
    text of an error and the reason a terminal status stores. *)

From S2P Require Import Prelude.
From S2P Require Import Canonical.
From S2P Require Import SensitivePayload.

(** [FailureReason] *)
Inductive FailureReason :=
  | BUDGET_EXCEEDED
  | ITERATION_LIMIT
  | ORPHAN_RECOVERED
  | PROVIDER_AUTH_OR_ACCESS
  | PROVIDER_QUOTA_LIMIT
  | PROVIDER_CAPACITY_OR_RATE_LIMIT
  | PROVIDER_SERVER_ERROR
  | PROVIDER_NETWORK
  | PROCESS_FAILURE
  | EMPTY_OR_UNPARSEABLE_OUTPUT
  | AGENT_TIMEOUT
  | CONTEXT_OVERFLOW
  | MISSING_CONFIG
  | MODEL_NOT_FOUND_OR_UNAVAILABLE
  | RUNTIME_VERSION_UNSUPPORTED
  | RUNTIME_MISSING_EXECUTABLE
  | UNKNOWN.
#[export] Instance FailureReason_eq_dec : EqDecision FailureReason.
Proof. solve_decision. Defined.

Definition reason_value (r : FailureReason) : string :=
  match r with
  | BUDGET_EXCEEDED => "budget_exceeded"
  | ITERATION_LIMIT => "iteration_limit"
  | ORPHAN_RECOVERED => "orphan_recovered"
  | PROVIDER_AUTH_OR_ACCESS => "agent_error.provider_auth_or_access"
  | PROVIDER_QUOTA_LIMIT => "agent_error.provider_quota_limit"
  | PROVIDER_CAPACITY_OR_RATE_LIMIT => "agent_error.provider_capacity_or_rate_limit"
  | PROVIDER_SERVER_ERROR => "agent_error.provider_server_error"
  | PROVIDER_NETWORK => "agent_error.provider_network"
  | PROCESS_FAILURE => "agent_error.process_failure"
  | EMPTY_OR_UNPARSEABLE_OUTPUT => "agent_error.empty_or_unparseable_output"
  | AGENT_TIMEOUT => "agent_error.agent_timeout"
  | CONTEXT_OVERFLOW => "agent_error.context_overflow"
  | MISSING_CONFIG => "agent_error.missing_config"
  | MODEL_NOT_FOUND_OR_UNAVAILABLE => "agent_error.model_not_found_or_unavailable"
  | RUNTIME_VERSION_UNSUPPORTED => "agent_error.runtime_version_unsupported"
  | RUNTIME_MISSING_EXECUTABLE => "agent_error.runtime_missing_executable"
  | UNKNOWN => "agent_error.unknown"
  end.

(** [is_agent_error] *)
Definition is_agent_error (r : FailureReason) : bool := is_prefix (text "agent_error.") (text (reason_value r)).

(** [str.lower] on UTF-8, up to characters outside ASCII that the rules do not
    mention: the Kelvin sign and the dotted capital I are the only ones whose
    lower case holds an ASCII letter. *)
Fixpoint lower (l : list Ascii.ascii) : list Ascii.ascii :=
  match l with
  | [] => []
  | c :: r =>
      if is_upper c then chr (ord c + 32) :: lower r
      else if bool_decide (ord <$> take 3 l = [226; 132; 170]%nat)
      then match r with _ :: _ :: r' => chr 107 :: lower r' | _ => [] end
      else if bool_decide (ord <$> take 2 l = [196; 176]%nat)
      then match r with _ :: r' => [chr 105; chr 204; chr 135] ++ lower r' | _ => [] end
      else c :: lower r
  end.

(** [_HTTP_5XX_RE.search]; [after_digit] tells whether a digit precedes. *)
Fixpoint http_5xx (after_digit : bool) (l : list Ascii.ascii) : bool :=
  match l with
  | [] => false
  | c :: r =>
      (negb after_digit && bool_decide (ord c = 53%nat) &&
       match r with
       | a :: b :: r' => is_digit a && is_digit b && match r' with e :: _ => negb (is_digit e) | [] => true end
       | _ => false
       end) || http_5xx (is_digit c) r
  end.

Section rules.
Context (lowered : list Ascii.ascii).

(** [sub in lower] *)
Definition has (sub : string) : bool := is_substring (text sub) lowered.
(** [_contains_any] *)
Definition contains_any (subs : list string) : bool := existsb has subs.

(** The rules of [classify_failure] in order, after the test for an empty text. *)
Definition classify_lowered : FailureReason :=
  if has "budget_exhausted" then BUDGET_EXCEEDED
  else if has "max iterations" || has "iteration limit" then ITERATION_LIMIT
  else if has "orphaned" && has "heartbeat" then ORPHAN_RECOVERED
  else if contains_any ["context length"; "context_length_exceeded"; "maximum context"; "prompt is too long";
                        "context size has been exceeded"; "context window"] || (has "token" && has "limit")
  then CONTEXT_OVERFLOW
  else if has "missing environment variable" || (has "missing" && has "api_key") ||
          (has "api key" && has "required") || has "no llm provider configured" || has "no provider configured"
  then MISSING_CONFIG
  else if contains_any ["401"; "403"; "unauthorized"; "login required"; "not logged in"; "please login again";
                        "invalid api key"; "authenticationerror"; "does not have access"; "you may not have access"]
  then PROVIDER_AUTH_OR_ACCESS
  else if contains_any ["402"; "insufficient_balance"; "balance is too low"; "monthly usage limit"; "usage limit";
                        "you've hit your limit"; "you’ve hit your limit"; "credits"; "quota"]
  then PROVIDER_QUOTA_LIMIT
  else if contains_any ["429"; "rate limit"; "ratelimit"; "overloaded"; "529"] then PROVIDER_CAPACITY_OR_RATE_LIMIT
  else if contains_any ["server had an error"; "provider returned error"; "internal error"; "internal server error";
                        "service unavailable"; "bad gateway"] || http_5xx false lowered
  then PROVIDER_SERVER_ERROR
  else if contains_any ["stream disconnected"; "error sending request"; "unable to connect"; "dial tcp";
                        "connection refused"; "connection error"; "apiconnectionerror"; "dns"; "i/o timeout"]
  then PROVIDER_NETWORK
  else if (has "model" && has "not found") || contains_any ["unknown model"; "http 404"; "404 page not found"]
  then MODEL_NOT_FOUND_OR_UNAVAILABLE
  else if contains_any ["returned empty output"; "returned no parseable output"; "empty response"]
  then EMPTY_OR_UNPARSEABLE_OUTPUT
  else if contains_any ["timed out"; "timeout"] then AGENT_TIMEOUT
  else if has "executable not found" || has "command not found" then RUNTIME_MISSING_EXECUTABLE
  else if contains_any ["below the minimum supported version"; "requires a newer version"]
  then RUNTIME_VERSION_UNSUPPORTED
  else if contains_any ["exit status"; "sigsegv"; "panic"; "process exited"; "pipe has been ended";
                        "file already closed"; "traceback (most recent call last)"]
  then PROCESS_FAILURE
  else UNKNOWN.
End rules.

(** The white space [strip] removes decides nothing but emptiness: no pattern
    starts or ends with it, and it is no digit. *)
Definition classify_failure (raw_error : option string) : FailureReason :=
  match raw_error with
  | None => UNKNOWN
  | Some s => if blank s then UNKNOWN else classify_lowered (lower (text s))
  end.

Definition resolve_failure_reason (status : string) (error explicit : option string) : option string :=
  match explicit with
  | Some e => if bool_decide (e = "") then
                if bool_decide (status = "failed") then Some (reason_value (classify_failure error)) else None
              else Some e
  | None => if bool_decide (status = "failed") then Some (reason_value (classify_failure error)) else None
  end.

Example classify_examples :
  classify_failure (Some "Error code: 429 - Rate limit reached") = PROVIDER_CAPACITY_OR_RATE_LIMIT ∧
  classify_failure (Some "HTTP 503 from upstream") = PROVIDER_SERVER_ERROR ∧
  classify_failure (Some "Timed out after 1500ms") = AGENT_TIMEOUT ∧
  classify_failure (Some "Token limit exceeded, quota") = CONTEXT_OVERFLOW ∧
  classify_failure (Some "OPENAI_API_KEY missing") = MISSING_CONFIG.
Proof. vm_compute. auto. Qed.

(** The comment of rule 2 names this text as a configuration error. *)
Example missing_api_key_unknown : classify_failure (Some "Missing API key") = UNKNOWN.
Proof. vm_compute. reflexivity. Qed.

(** ** The status code pattern *)

(** A status code 5xx: a maximal run of digits that has length three and
    starts with 5. *)
Definition has_5xx_run (l : list Ascii.ascii) : Prop :=
  ∃ pre a b c post, l = pre ++ a :: b :: c :: post ∧ ord a = 53%nat ∧
    is_digit b = true ∧ is_digit c = true ∧
    (∀ x, last pre = Some x → is_digit x = false) ∧ (∀ x, head post = Some x → is_digit x = false).

Lemma http_5xx_spec p l :
  http_5xx p l = true ↔
  ∃ pre a b c post, l = pre ++ a :: b :: c :: post ∧ ord a = 53%nat ∧
    is_digit b = true ∧ is_digit c = true ∧
    match last pre with Some x => is_digit x = false | None => p = false end ∧
    (∀ x, head post = Some x → is_digit x = false).
Proof.
  revert p. induction l as [|c l IH]; intros p; cbn [http_5xx].
  { split; [done|]. intros (pre & a & b & x & post & E & _). by destruct pre. }
  rewrite orb_true_iff, IH. split.
  - intros [H|(pre & a & b & x & post & -> & Ha & Hb & Hx & Hp & Hq)].
    + bools. destruct l as [|a [|b l]]; try done. bools. exists [], c, a, b, l. split_and!; [done..|].
      intros x Hx. destruct l as [|y l]; [done|]. cbn in Hx. simplify_eq. by bools.
    + exists (c :: pre), a, b, x, post. split_and!; [done..| |done].
      destruct pre as [|y pre]; [done|]. rewrite last_cons_cons.
      destruct (last (y :: pre)) eqn:E; [done|by apply last_None in E].
  - intros (pre & a & b & x & post & E & Ha & Hb & Hx & Hp & Hq). destruct pre as [|y pre]; cbn in E; simplify_eq.
    + left. cbn in Hp. subst p. rewrite Hb, Hx, bool_decide_eq_true_2 by done. cbn.
      destruct post as [|z post]; [done|]. by rewrite (Hq z eq_refl).
    + right. exists pre, a, b, x, post. split_and!; [done..| |done].
      destruct pre as [|z pre]; [done|]. rewrite last_cons_cons in Hp.
      destruct (last (z :: pre)) eqn:E; [done|by apply last_None in E].
Qed.

(** The pattern finds exactly the texts with a standalone three digit number 5xx: longer
    numbers such as 1500 never match. *)
Theorem http_5xx_correct l : http_5xx false l = true ↔ has_5xx_run l.
Proof.
  rewrite http_5xx_spec. unfold has_5xx_run. split; intros (pre & a & b & c & post & H1 & H2 & H3 & H4 & H5 & H6);
    exists pre, a, b, c, post; split_and!; try done.
  - intros x Hx. by rewrite Hx in H5.
  - destruct (last pre) eqn:E; [by apply H5|done].
Qed.

(** A failed status always stores a reason, another status only an explicit one. *)
Lemma resolve_failure_reason_spec status error explicit :
  (status = "failed" → is_Some (resolve_failure_reason status error explicit)) ∧
  (status ≠ "failed" → explicit = None → resolve_failure_reason status error explicit = None).
Proof.
  unfold resolve_failure_reason. split.
  - intros ->. rewrite bool_decide_eq_true_2 by done. destruct explicit; [case_bool_decide|]; eauto.
  - intros Hs ->. by rewrite bool_decide_eq_false_2.
Qed.
