(* ===== verification/FencedCompletion.v ===== *)
(** * Fenced completion of a run

    Models src/src/tianshu/application/fenced_run_completion.py and the
    [finalize_outer_loop_terminal] of storage/orchestrator_repo.py: the four
    transactions that end a root run.  Each one projects the end onto the
    memorial, the run state, the outer loop's tables, the outbox and the
    attempt ledger, in one unit of work.

    [boundary_hook] is the observer the constructor takes; it may raise at any
    boundary.  [usage_json] is pydantic's [model_dump_json] of a usage summary,
    [float_of] Python's float parser, [redact_text] security/redact.py. *)

From stdpp Require Import pretty.
From S2P Require Import Prelude.
From S2P Require Import Sql.
From S2P Require Import Canonical.
From S2P Require Import PyText.
From S2P Require Import JsonParse.
From S2P Require Import Timestamp.
From S2P Require Import SensitivePayload.
From S2P Require Import UnitOfWork.
From S2P Require Import Models.
From S2P Require Import Schema.
From S2P Require Import Correlation.
From S2P Require Import AttemptLedger.
From S2P Require Import Fencing.
From S2P Require Import RunStateRepo.
From S2P Require Import Outbox.
From S2P Require Import Failure.

(** ** Commands *)

(** [AttemptAuthority] (application/run_dispatcher.py) *)
Record AttemptAuthority := mkAuthority {
  au_attempt_id : string;
  au_memorial_id : string;
  au_owner_id : string;
  au_fencing_token : Z;
}.

(** [UsageSummary] (models/common.py) *)
Abbreviation UsageSummary := PersistedUsageSummaryV1.

Record FencedRunCompletionCommand := mkCommand {
  c_authority : AttemptAuthority;
  c_outcome : AttemptOutcomeV1;
  c_memorial_status : TaskStatus;
  c_summary : option string;
  c_result : option string;
  c_final_output : option string;
  c_usage : option UsageSummary;
  c_reasoning_content : option string;
  c_error : option string;
  c_failure_reason : option string;
  c_run_state : option RunStateV1;
  c_expected_run_state_version : option Z;
}.

Definition optional_str (o : option string) : json := match o with Some s => JStr s | None => JNull end.
(** [usage.model_dump(mode="json")] *)
Definition usage_dump (u : UsageSummary) : json :=
  JObj [("prompt_tokens", JInt (prompt_tokens u)); ("completion_tokens", JInt (completion_tokens u));
        ("total_tokens", JInt (total_tokens u)); ("cache_read_tokens", JInt (cache_read_tokens u));
        ("cost_cny", JFloat (cost_cny u)); ("actual_model", optional_str (actual_model u));
        ("upstream_provider", optional_str (upstream_provider u))].

Definition disposition_value (x : AttemptDisposition) : string :=
  match x with
  | D_SUCCEEDED => "succeeded" | D_FAILED => "failed" | D_RETRY => "retry" | D_SUSPENDED => "suspended"
  end.

(** [_event_id] *)
Definition event_id (command : FencedRunCompletionCommand) : string :=
  let authority := c_authority command in
  let nul := String (chr 0) EmptyString in
  "run-event-" +:+ Sha256.hexdigest
    (au_attempt_id authority +:+ nul +:+ au_owner_id authority +:+ nul +:+
     pretty (au_fencing_token authority) +:+ nul +:+ disposition_value (disposition (c_outcome command))).

(** [_validate_command]; the types of the fields are those of the record. *)
Definition validate_command {S} (command : FencedRunCompletionCommand) : M S unit :=
  let! expected :=
    match disposition (c_outcome command) with
    | D_SUCCEEDED => ret (T_COMPLETED, P_COMPLETED)
    | D_FAILED => ret (T_FAILED, P_FAILED)
    | _ => raise ValueError "fenced terminal completion requires a terminal outcome"
    end in
  guard (bool_decide (c_memorial_status command = expected.1)) ValueError
    "Memorial terminal status conflicts with attempt outcome" ;;;
  guard (bool_decide (is_none (c_run_state command) = is_none (c_expected_run_state_version command))) ValueError
    "RunState and its expected version must be supplied together" ;;;
  match c_run_state command with
  | None => ret tt
  | Some s =>
      guard (bool_decide (rs_memorial_id s = au_memorial_id (c_authority command))) ValueError
        "RunState does not belong to the attempt Memorial" ;;;
      guard (bool_decide (rs_phase s = expected.2)) ValueError
        "RunState terminal phase conflicts with attempt outcome"
  end.

Section completion.
Context (redact_text : string → string) (float_of : string → pyfloat) (usage_json : UsageSummary → string).
Context (boundary_hook : string → option exn).

(** [_observe_boundary] *)
Definition observe_boundary (boundary : string) : M db unit :=
  match boundary_hook boundary with
  | Some e => of_result (Err e)
  | None => ret tt
  end.

(** ** [finalize_outer_loop_terminal] (storage/orchestrator_repo.py) *)

Definition recurring (edict_id : string) (j : job_row) : bool :=
  bool_decide (jb_edict_id j = edict_id) && bool_decide (jb_status j ∈ ["active"; "paused"]) &&
  bool_decide (jb_schedule_type j ∈ ["cron"; "interval"]).
Definition set_runtime_json (t : string) (r : edict_row) : edict_row :=
  mkEdictRow (ed_title r) (ed_goal r) (ed_submitter r) (ed_archived r) (Some t) (ed_acceptance_json r).

(** [row["runtime_json"] or "{}"] *)
Definition runtime_text (o : option string) : string :=
  match o with Some t => if bool_decide (t = "") then "{}" else t | None => "{}" end.

Definition finalize_outer_loop_terminal (edict_id : string) : M db unit :=
  let! d := get_state in
  let o := orchestration d in
  put_state (set_orchestration
    (mkOrchestration (delete edict_id (outer_loop_checkpoints o))
       (filter (λ kv : string * string, kv.2 ≠ edict_id) (pending_steers o)) (scheduler_jobs o)) d) ;;;
  let! row := sql_get (Row := edict_row) edict_id in
  match row with
  | Some r =>
      match ed_acceptance_json r with
      | None => ret tt
      | Some _ =>
          if existsb (recurring edict_id) (map_to_list (scheduler_jobs o)).*2 then ret tt
          else
            match loads float_of (runtime_text (ed_runtime_json r)) with
            | None => raise ValueError "the runtime is not valid JSON"
            | Some (JObj runtime) =>
                sql_update (Row := edict_row) edict_id (λ _, true)
                  (set_runtime_json
                     (str_of (dumps_default (JObj (dict_set runtime "lifecycle_phase" (JStr "complete")))))) ;;;
                ret tt
            | Some _ => raise TypeError "the runtime does not support item assignment"
            end
      end
  | None => ret tt
  end.

(** ** Run state *)

(** [_cas_existing_run_state] *)
Definition cas_existing_run_state (memorial_id edict_id : string) (phase : RunPhase) (updated_at : Z) :
    M db bool :=
  let! found := RunStateRepo.load redact_text memorial_id in
  match found with
  | None => ret false
  | Some current =>
      guard (bool_decide (rs_edict_id current = edict_id)) AttemptConflict
        "RunState does not bind the root Memorial Edict" ;;;
      let c := rs_continuation current in
      let continuation :=
        if is_some (pending_decision_id c) then set_decisions None (resolved_decision_id c) c else c in
      RunStateRepo.compare_and_swap redact_text
        (mkRunState (rs_memorial_id current) (rs_edict_id current) phase continuation (rs_checkpoint_ref current)
           (rs_side_effect_cursor current) (rs_version current) (rs_created_at current)
           (Z.max updated_at (rs_updated_at current)))
        (rs_version current) ;;;
      ret true
  end.

(** ** Memorial projection *)

(** [status IN ('submitted','scheduled','planning','running','auditing','needs_review')] *)
Definition is_open (t : TaskStatus) : bool :=
  match t with T_COMPLETED | T_FAILED | T_CANCELLED => false | _ => true end.
(** [id = ? AND edict_id = ? AND dag_node_id IS NULL AND status IN (...)] *)
Definition open_root (edict_id : string) (r : memorial_row) : bool :=
  bool_decide (mm_edict_id r = edict_id) && is_none (mm_dag_node_id r) && is_open (mc_status (mm_columns r)).
Definition set_columns (f : memorial_columns → memorial_columns) (r : memorial_row) : memorial_row :=
  mkMemorialRow (mm_edict_id r) (mm_dag_node_id r) (f (mm_columns r)).

(** [COALESCE(?, column)] *)
Definition coalesce {A} (new old : option A) : option A := match new with Some _ => new | None => old end.

Definition completed_columns (command : FencedRunCompletionCommand) (c : memorial_columns) : memorial_columns :=
  let status := c_memorial_status command in
  mkMemorialColumns status (coalesce (c_summary command) (mc_summary c)) (coalesce (c_result command) (mc_result c))
    (coalesce (c_final_output command) (mc_final_output c))
    (match c_usage command with Some u => usage_json u | None => mc_usage_json c end)
    (coalesce (c_reasoning_content command) (mc_reasoning_content c)) (c_error command)
    (resolve_failure_reason (task_status_value status) (c_error command) (c_failure_reason command))
    (Some (Models.completed_at (c_outcome command))).
(** The columns the three other projections write. *)
Definition ended_columns (status : TaskStatus) (error reason : string) (at_ : Z) (c : memorial_columns) :
    memorial_columns :=
  mkMemorialColumns status (mc_summary c) (mc_result c) (mc_final_output c) (mc_usage_json c)
    (mc_reasoning_content c) (Some error) (Some reason) (Some at_).

(** ** [complete] *)

Definition completion_event (command : FencedRunCompletionCommand) (edict_id : string) : EventEnvelope :=
  let authority := c_authority command in
  mkEvent (event_id command)
    (if bool_decide (disposition (c_outcome command) = D_SUCCEEDED) then "execution.completed" else "execution.failed")
    (Some edict_id) (Some (au_memorial_id authority)) (SInt 1) (Models.completed_at (c_outcome command))
    "run-dispatcher"
    [("attempt_id", JStr (au_attempt_id authority)); ("fencing_token", JInt (au_fencing_token authority));
     ("status", JStr (task_status_value (c_memorial_status command)));
     ("summary", optional_str (c_summary command)); ("result", optional_str (c_result command));
     ("final_output", optional_str (c_final_output command));
     ("usage", match c_usage command with Some u => usage_dump u | None => JNull end);
     ("error", optional_str (c_error command));
     ("failure_reason", optional_str
        (resolve_failure_reason (task_status_value (c_memorial_status command)) (c_error command)
           (c_failure_reason command)))].

Definition complete_body (command : FencedRunCompletionCommand) (fresh : string) : M db unit :=
  let authority := c_authority command in
  let completed_at := Models.completed_at (c_outcome command) in
  require_current (au_attempt_id authority) (au_owner_id authority) (au_fencing_token authority) (utc_at completed_at) ;;;
  let! attempt := sql_get (Row := attempt_row) (au_attempt_id authority) in
  guard (match attempt with
         | Some r => bool_decide (a_memorial_id (at_lease r) = au_memorial_id authority)
         | None => false
         end) AttemptFenceLost "attempt authority does not bind the Memorial" ;;;
  let! memorial := sql_get (Row := memorial_row) (au_memorial_id authority) in
  let! edict_id :=
    match memorial with
    | Some m => if is_none (mm_dag_node_id m) then ret (mm_edict_id m)
                else raise AttemptConflict "attempt authority does not bind a root Memorial"
    | None => raise AttemptConflict "attempt authority does not bind a root Memorial"
    end in
  let! rowcount := sql_update (Row := memorial_row) (au_memorial_id authority) (open_root edict_id)
    (set_columns (completed_columns command)) in
  guard (rowcount =? 1) AttemptConflict "root Memorial projection conflict" ;;;
  observe_boundary "after_memorial" ;;;
  let! projected := cas_existing_run_state (au_memorial_id authority) edict_id
    (if bool_decide (disposition (c_outcome command) = D_SUCCEEDED) then P_COMPLETED else P_FAILED) completed_at in
  (if projected then observe_boundary "after_run_state" else ret tt) ;;;
  finalize_outer_loop_terminal edict_id ;;;
  observe_boundary "after_terminal_cleanup" ;;;
  add (completion_event command edict_id) ;;;
  observe_boundary "after_outbox" ;;;
  observe_boundary "before_attempt" ;;;
  let! current := complete_current (au_attempt_id authority) (au_owner_id authority) (au_fencing_token authority)
    (c_outcome command) fresh in
  guard current AttemptFenceLost "attempt authority is no longer current".

Definition complete (command : FencedRunCompletionCommand) (fresh : string) : M (session db) string :=
  validate_command command ;;;
  try_except (with_uow (committing (complete_body command fresh))) IntegrityError
    (λ _, raise AttemptConflict "fenced completion projection conflict") ;;;
  ret (event_id command).

(** ** [cancel_root] *)

(** [(completed_at or datetime.now(UTC)).astimezone(UTC)]; a naive value is
    read in the system's time zone, [local_offset] ahead of UTC. *)
Definition astimezone_utc {S} (completed_at : option datetime) (clock_now : datetime) (local_offset : Z) : M S Z :=
  let v := default clock_now completed_at in
  checked_instant (wall v - default local_offset (utcoffset v)).

Definition cancel_failure : RedactedError :=
  mkRedactedError "execution_cancelled" "Execution was cancelled" false None.
Definition revoked (now : Z) (a : AttemptLeaseV1) : AttemptLeaseV1 :=
  mkAttempt (attempt_id a) (a_memorial_id a) (attempt_no a) FAILED None (a_fencing_token a) None None
    (Models.available_at a) (max_attempts a) (Some cancel_failure) (a_version a + 1) (a_created_at a) now.
(** [memorial_id = ? AND status IN ('claimable','claimed','suspended')] *)
Definition live_attempt (memorial_id : string) (r : attempt_row) : bool :=
  bool_decide (a_memorial_id (at_lease r) = memorial_id) && is_active (a_status (at_lease r)).

Definition cancel_event (memorial_id edict_id reason : string) (now : Z) : EventEnvelope :=
  mkEvent (memorial_id +:+ ":execution.cancelled") "execution.cancelled" (Some edict_id) (Some memorial_id) (SInt 1)
    now "fenced-run-cancellation"
    [("status", JStr "cancelled"); ("error", JStr "Execution was cancelled");
     ("failure_reason", JStr "execution_cancelled"); ("reason", JStr reason)].

Definition cancel_body (memorial_id reason : string) (now : Z) : M db bool :=
  let! memorial := sql_get (Row := memorial_row) memorial_id in
  let! edict_id :=
    match memorial with
    | Some m => if is_none (mm_dag_node_id m) then ret (mm_edict_id m)
                else raise ValueError "cancellation root is unavailable"
    | None => raise ValueError "cancellation root is unavailable"
    end in
  sql_update_where (Row := attempt_row) (live_attempt memorial_id) (update_lease (revoked now)) ;;;
  observe_boundary "after_attempt" ;;;
  let! rowcount := sql_update (Row := memorial_row) memorial_id (open_root edict_id)
    (set_columns (ended_columns T_CANCELLED "Execution was cancelled" "execution_cancelled" now)) in
  (if rowcount =? 1 then
     observe_boundary "after_memorial" ;;;
     let! projected := cas_existing_run_state memorial_id edict_id P_FAILED now in
     (if projected then observe_boundary "after_run_state" else ret tt) ;;;
     finalize_outer_loop_terminal edict_id ;;;
     observe_boundary "after_terminal_cleanup" ;;;
     add (cancel_event memorial_id edict_id reason now) ;;;
     observe_boundary "after_outbox"
   else ret tt) ;;;
  ret (rowcount =? 1).

Definition cancel_root (memorial_id reason : string) (completed_at : option datetime) (clock_now : datetime)
    (local_offset : Z) : M (session db) bool :=
  guard (non_blank memorial_id && non_blank reason) ValueError "cancellation identity and reason must be non-blank" ;;;
  let! now := astimezone_utc completed_at clock_now local_offset in
  with_uow (committing (cancel_body memorial_id reason now)).

(** ** [retry_or_dead_letter] *)

(** The event of a root whose attempts are used up. *)
Definition dead_letter_event (attempt_id memorial_id edict_id producer error : string) (token now : Z) :
    EventEnvelope :=
  mkEvent (attempt_id +:+ ":execution.failed:dead-letter") "execution.failed" (Some edict_id) (Some memorial_id)
    (SInt 1) now producer
    [("attempt_id", JStr attempt_id); ("fencing_token", JInt token); ("status", JStr "failed");
     ("error", JStr error); ("failure_reason", JStr "attempt_budget_exhausted")].

Definition retry_body (authority : AttemptAuthority) (outcome : AttemptOutcomeV1) (failure : RedactedError)
    (fresh : string) : M db unit :=
  let completed_at := Models.completed_at outcome in
  require_current (au_attempt_id authority) (au_owner_id authority) (au_fencing_token authority) (utc_at completed_at) ;;;
  let! attempt := sql_get (Row := attempt_row) (au_attempt_id authority) in
  let! memorial := sql_get (Row := memorial_row) (au_memorial_id authority) in
  let! edict_id :=
    match attempt, memorial with
    | Some r, Some m =>
        if bool_decide (a_memorial_id (at_lease r) = au_memorial_id authority) && is_none (mm_dag_node_id m)
        then ret (mm_edict_id m)
        else raise AttemptConflict "attempt authority does not bind a root Memorial"
    | _, _ => raise AttemptConflict "attempt authority does not bind a root Memorial"
    end in
  let! current := complete_current (au_attempt_id authority) (au_owner_id authority) (au_fencing_token authority)
    outcome fresh in
  guard current AttemptFenceLost "attempt authority is no longer current" ;;;
  let! row := sql_get (Row := attempt_row) (au_attempt_id authority) in
  match row with
  | None => raise TypeError "'NoneType' object is not subscriptable"
  | Some r =>
      if bool_decide (a_status (at_lease r) = DEAD_LETTER) then
        let! rowcount := sql_update (Row := memorial_row) (au_memorial_id authority) (open_root edict_id)
          (set_columns (ended_columns T_FAILED (err_message failure) "attempt_budget_exhausted" completed_at)) in
        guard (rowcount =? 1) AttemptConflict "dead-letter root projection conflict" ;;;
        cas_existing_run_state (au_memorial_id authority) edict_id P_FAILED completed_at ;;;
        finalize_outer_loop_terminal edict_id ;;;
        observe_boundary "after_terminal_cleanup" ;;;
        add (dead_letter_event (au_attempt_id authority) (au_memorial_id authority) edict_id "run-dispatcher"
               (err_message failure) (au_fencing_token authority) completed_at)
      else ret tt
  end.

Definition retry_or_dead_letter (authority : AttemptAuthority) (outcome : AttemptOutcomeV1) (fresh : string) :
    M (session db) bool :=
  match disposition outcome, o_failure outcome with
  | D_RETRY, Some failure =>
      with_uow (committing (retry_body authority outcome failure fresh)) ;;; ret true
  | _, _ => raise ValueError "managed retry requires a retry outcome with redacted failure"
  end.

(** ** [reconcile_dead_lettered_roots] *)

(** [ORDER BY attempts.updated_at, attempts.attempt_id] *)
Definition dead_letter_order (r r' : attempt_row) : bool :=
  le_of (lex (a_updated_at (at_lease r) ?= a_updated_at (at_lease r'))
             (text_compare (attempt_id (at_lease r)) (attempt_id (at_lease r')))).

(** The join and its condition; the row carries the edict of its memorial. *)
Definition dead_letter_root (d : db) (r : attempt_row) : option (attempt_row * string) :=
  match memorials d !! a_memorial_id (at_lease r) with
  | Some m =>
      if bool_decide (a_status (at_lease r) = DEAD_LETTER) && is_none (mm_dag_node_id m) &&
         is_open (mc_status (mm_columns m))
      then Some (r, mm_edict_id m) else None
  | None => None
  end.
Definition dead_letter_rows (limit : Z) : M db (list (attempt_row * string)) := λ d,
  (Ok (take (Z.to_nat limit)
         (omap (dead_letter_root d) (order_by dead_letter_order (map_to_list (execution_attempts d)).*2))), d).

Fixpoint reconcile_rows (rows : list (attempt_row * string)) (now : Z) : M db Z :=
  match rows with
  | [] => ret 0
  | (r, edict_id) :: rest =>
      let a := at_lease r in
      let! failure :=
        match a_failure a with
        | Some f => ret f
        | None => raise AttemptConflict "dead-letter attempt failure is invalid"
        end in
      let! rowcount := sql_update (Row := memorial_row) (a_memorial_id a) (open_root edict_id)
        (set_columns (ended_columns T_FAILED (err_message failure) "attempt_budget_exhausted" now)) in
      let! changed :=
        if rowcount =? 1 then
          cas_existing_run_state (a_memorial_id a) edict_id P_FAILED now ;;;
          finalize_outer_loop_terminal edict_id ;;;
          add (dead_letter_event (attempt_id a) (a_memorial_id a) edict_id "run-reconciler" (err_message failure)
                 (a_fencing_token a) now) ;;;
          ret 1
        else ret 0 in
      let! others := reconcile_rows rest now in
      ret (changed + others)
  end.

(** [limit] is [None] when its type is not [int]. *)
Definition reconcile_dead_lettered_roots (limit : option Z) (completed_at : option datetime) (clock_now : datetime)
    (local_offset : Z) : M (session db) Z :=
  let! n :=
    match limit with
    | Some n => guard (0 <? n) ValueError "limit must be a positive integer" ;;; ret n
    | None => raise ValueError "limit must be a positive integer"
    end in
  let! now := astimezone_utc completed_at clock_now local_offset in
  with_uow (committing (let! rows := dead_letter_rows n in reconcile_rows rows now)).
End completion.

(** ** What the steps of a projection do *)

Section effects.
Context (redact_text : string → string) (float_of : string → pyfloat) (usage_json : UsageSummary → string).
Context (boundary_hook : string → option exn).

Lemma reads_observe b : reads (observe_boundary boundary_hook b).
Proof. intros d. unfold observe_boundary. by destruct (boundary_hook b). Qed.

Lemma observe_Ok b d u d' : observe_boundary boundary_hook b d = (Ok u, d') → d' = d.
Proof. intros H. pose proof (reads_observe b d) as Hr. by rewrite H in Hr. Qed.

(** The tables of the outer loop without the checkpoint and the steers of the
    edict. *)
Definition loop_ended (edict_id : string) (o : orchestration_tables) : orchestration_tables :=
  mkOrchestration (delete edict_id (outer_loop_checkpoints o))
    (filter (λ kv : string * string, kv.2 ≠ edict_id) (pending_steers o)) (scheduler_jobs o).
(** The edict of an accepted loop without a recurring job gets the lifecycle
    phase "complete" in its runtime; no other edict row changes. *)
Definition edict_ended (edict_id : string) (o : orchestration_tables) (eds eds' : gmap string edict_row) : Prop :=
  match eds !! edict_id with
  | Some r =>
      if is_some (ed_acceptance_json r) && negb (existsb (recurring edict_id) (map_to_list (scheduler_jobs o)).*2) then
        ∃ runtime, loads float_of (runtime_text (ed_runtime_json r)) = Some (JObj runtime) ∧
          eds' = <[edict_id := set_runtime_json
                     (str_of (dumps_default (JObj (dict_set runtime "lifecycle_phase" (JStr "complete"))))) r]> eds
      else eds' = eds
  | None => eds' = eds
  end.
(** What [finalize_outer_loop_terminal] does, and nothing else. *)
Definition cleared (edict_id : string) (d d' : db) : Prop :=
  ∃ eds, d' = set_edicts eds (set_orchestration (loop_ended edict_id (orchestration d)) d) ∧
    edict_ended edict_id (orchestration d) (edicts d) eds.

Lemma finalize_Ok_inv e d u d' :
  finalize_outer_loop_terminal float_of e d = (Ok u, d') → cleared e d d'.
Proof.
  unfold finalize_outer_loop_terminal. rewrite bind_get_state. fold (loop_ended e (orchestration d)).
  unfold put_state. unfold bind at 1. rewrite bind_sql_get. cbn [tbl edicts_table].
  change (edicts (set_orchestration _ d)) with (edicts d).
  assert (Hsame : edict_ended e (orchestration d) (edicts d) (edicts d) →
    cleared e d (set_orchestration (loop_ended e (orchestration d)) d)) by (intros H; by exists (edicts d)).
  unfold edict_ended in Hsame. destruct (edicts d !! e) as [r|] eqn:Hr; [|intros H; run_M H; by apply Hsame].
  destruct (ed_acceptance_json r) as [a|] eqn:Ha; cbn [is_some andb] in Hsame; [|intros H; run_M H; by apply Hsame].
  destruct (existsb _ _) eqn:Hj; cbn [negb] in Hsame; [intros H; run_M H; by apply Hsame|]. clear Hsame.
  destruct (loads float_of _) as [[| | | | | |runtime]|] eqn:Hl; try done. intros H. step_M H. apply ret_Ok_inv in H as [_ ->].
  apply sql_update_Ok_inv in E as [(_ & r' & Hr' & _ & _ & _ & ->)|(_ & -> & Hno)].
  - cbn in Hr'. rewrite Hr in Hr'. injection Hr' as <-. eexists. split; [reflexivity|]. unfold edict_ended.
    rewrite Hr, Ha, Hj. by exists runtime.
  - by specialize (Hno r Hr).
Qed.

(** A run state, if there is one, becomes terminal at the next version. *)
Inductive run_ended (m e : string) (phase : RunPhase) (d d' : db) : bool → Prop :=
  | run_absent : run_states d !! m = None → d' = d → run_ended m e phase d d' false
  | run_final r s : run_states d !! m = Some r → rs_edict_id (rn_state r) = e →
      d' = set_run_states (<[m := mkRunStateRow s (rn_correlation_id r)]> (run_states d)) d →
      rs_memorial_id s = m → rs_edict_id s = e → rs_phase s = phase →
      pending_decision_id (rs_continuation s) = None → rs_version s = rs_version (rn_state r) + 1 →
      run_ended m e phase d d' true.

Lemma set_decisions_pending p r c : pending_decision_id (set_decisions p r c) = p.
Proof. by destruct c. Qed.

Lemma cas_existing_Ok_inv m e phase t d b d' :
  run_inv redact_text d → cas_existing_run_state redact_text m e phase t d = (Ok b, d') →
  run_ended m e phase d d' b ∧ run_inv redact_text d'.
Proof.
  intros Hi. unfold cas_existing_run_state. rewrite (bind_Ok _ _ _ _ _ (load_eq redact_text d m Hi)).
  destruct (run_states d !! m) as [r|] eqn:Hr; cbn [fmap option_fmap option_map].
  - intros H. step_M H. step_M H. apply ret_Ok_inv in H as [-> ->]. bools.
    destruct (compare_and_swap_Ok_inv redact_text _ _ _ _ _ Hi E0) as (_ & -> & r' & Hr' & _ & _ & _ & _ & -> & Hch).
    cbn [rs_memorial_id next_version] in *. pose proof (ri_keyed redact_text d Hi _ _ Hr) as Hm.
    rewrite Hm in *. simplify_eq. destruct (run_change_ok redact_text _ _ Hi Hch) as [Hi' _]. split; [|exact Hi'].
    eapply (run_final _ _ _ _ _ r); [done..| |done]. cbn.
    destruct (pending_decision_id (rs_continuation (rn_state r))) eqn:Hp; cbn; [apply set_decisions_pending|done].
  - intros H. apply ret_Ok_inv in H as [-> ->]. split; [by apply run_absent|done].
Qed.

(** An outcome other than a retry settles the held row and inserts none. *)
Lemma complete_current_settled_inv id owner token outcome fresh d b d' :
  disposition outcome ≠ D_RETRY →
  complete_current id owner token outcome fresh d = (Ok b, d') → b = true →
  ∃ r, execution_attempts d !! id = Some r ∧ holds (at_lease r) owner token (Models.completed_at outcome) = true ∧
    d' = set_execution_attempts
           (<[id := update_lease (finished (at_lease r) outcome) r]> (execution_attempts d)) d.
Proof.
  intros Hd H ->. unfold complete_current in H. step_M H. apply require_authority_Ok_inv in E as (-> & _).
  step_M H. unfold select_attempt in E. rewrite bind_sql_get in E. cbn in E.
  destruct (execution_attempts d !! id) as [r|] eqn:Hr; [|run_M E; subst; by run_M H].
  unfold decode_attempt in E. run_M E. run_M E0. subst. destruct (holds _ _ _ _) eqn:Hh; cbn [negb] in H; [|by run_M H].
  apply bind_Ok_inv in H as (n & d1 & Hu & H).
  apply sql_update_Ok_inv in Hu as [(-> & r' & Hr' & _ & _ & _ & ->)|(-> & -> & _)]; [|by run_M H].
  cbn in Hr'. simplify_eq. change (negb (1 =? 1)) with false in H. cbv iota in H.
  assert (Hret : retries (at_lease r) outcome = false)
    by (unfold retries; by rewrite bool_decide_eq_false_2).
  rewrite Hret in H. run_M H. by exists r.
Qed.
Lemma require_current_utc_inv id owner token t d u d' :
  require_current id owner token (utc_at t) d = (Ok u, d') →
  d' = d ∧ ∃ r, execution_attempts d !! id = Some r ∧ holds (at_lease r) owner token t = true.
Proof.
  intros (-> & t' & Ht & [r Hr])%require_current_held. split; [done|]. exists r.
  unfold to_utc, utc_at in Ht. cbn in Ht. apply checked_instant_Ok_inv in Ht as (-> & _).
  rewrite Z.sub_0_r in Hr. by apply held_row_Some in Hr.
Qed.

(** ** What a completed run looks like *)

Definition terminal_phase (o : AttemptOutcomeV1) : RunPhase :=
  if bool_decide (disposition o = D_SUCCEEDED) then P_COMPLETED else P_FAILED.

(** The run state of a memorial between two databases. *)
Definition run_state_ended (m : string) (phase : RunPhase) (d d' : db) : Prop :=
  match run_states d !! m with
  | None => run_states d' = run_states d
  | Some r => ∃ s, run_states d' = <[m := mkRunStateRow s (rn_correlation_id r)]> (run_states d) ∧
      rs_phase s = phase ∧ pending_decision_id (rs_continuation s) = None ∧
      rs_version s = rs_version (rn_state r) + 1
  end.

(** Everything [complete] changes, and nothing else: the memorial is projected
    once, from an open root; the run state ends; the outer loop is cleared; one
    event is added; the attempt, held by the authority, is settled. *)
Record run_completed (command : FencedRunCompletionCommand) (d d' : db) (r : attempt_row) (m : memorial_row) : Prop := {
  rc_attempt : execution_attempts d !! au_attempt_id (c_authority command) = Some r;
  rc_held : holds (at_lease r) (au_owner_id (c_authority command)) (au_fencing_token (c_authority command))
              (Models.completed_at (c_outcome command)) = true;
  rc_bound : a_memorial_id (at_lease r) = au_memorial_id (c_authority command);
  rc_memorial : memorials d !! au_memorial_id (c_authority command) = Some m;
  rc_open : mm_dag_node_id m = None ∧ is_open (mc_status (mm_columns m)) = true;
  rc_memorials : memorials d' =
    <[au_memorial_id (c_authority command) := set_columns (completed_columns usage_json command) m]> (memorials d);
  rc_run_state : run_state_ended (au_memorial_id (c_authority command)) (terminal_phase (c_outcome command)) d d';
  rc_loop : orchestration d' = loop_ended (mm_edict_id m) (orchestration d);
  rc_edict : edict_ended (mm_edict_id m) (orchestration d) (edicts d) (edicts d');
  rc_event : outbox_events d !! event_id command = None ∧
    ∃ b c, outbox_events d' =
      <[event_id command := added_row (completion_event command (mm_edict_id m)) b c]> (outbox_events d);
  rc_settled : execution_attempts d' =
    <[au_attempt_id (c_authority command) := update_lease (finished (at_lease r) (c_outcome command)) r]>
      (execution_attempts d);
  rc_rest : (decision_requests d', decision_resolutions d', side_effect_journal d', outbox_consumptions d',
             submission_idempotency d', evidence_bundles d', system_audit_events d') =
            (decision_requests d, decision_resolutions d, side_effect_journal d, outbox_consumptions d,
             submission_idempotency d, evidence_bundles d, system_audit_events d);
}.

Lemma run_inv_set_memorials t d : run_inv redact_text d → run_inv redact_text (set_memorials t d).
Proof. intros [H1 H2 H3 H4]. by split. Qed.

(** The part of [complete] after the memorial is projected. *)
Definition complete_tail (command : FencedRunCompletionCommand) (edict_id fresh : string) : M db unit :=
  let authority := c_authority command in
  observe_boundary boundary_hook "after_memorial" ;;;
  let! projected := cas_existing_run_state redact_text (au_memorial_id authority) edict_id
    (terminal_phase (c_outcome command)) (Models.completed_at (c_outcome command)) in
  (if projected then observe_boundary boundary_hook "after_run_state" else ret tt) ;;;
  finalize_outer_loop_terminal float_of edict_id ;;;
  observe_boundary boundary_hook "after_terminal_cleanup" ;;;
  add (completion_event command edict_id) ;;;
  observe_boundary boundary_hook "after_outbox" ;;;
  observe_boundary boundary_hook "before_attempt" ;;;
  let! current := complete_current (au_attempt_id authority) (au_owner_id authority) (au_fencing_token authority)
    (c_outcome command) fresh in
  guard current AttemptFenceLost "attempt authority is no longer current".

(** A completion that returns was made by the holder of the attempt, on an
    open root. *)
Lemma complete_body_front command fresh d u d' :
  complete_body redact_text float_of usage_json boundary_hook command fresh d = (Ok u, d') →
  ∃ r m, execution_attempts d !! au_attempt_id (c_authority command) = Some r ∧
    holds (at_lease r) (au_owner_id (c_authority command)) (au_fencing_token (c_authority command))
      (Models.completed_at (c_outcome command)) = true ∧
    a_memorial_id (at_lease r) = au_memorial_id (c_authority command) ∧
    memorials d !! au_memorial_id (c_authority command) = Some m ∧
    mm_dag_node_id m = None ∧ is_open (mc_status (mm_columns m)) = true ∧
    complete_tail command (mm_edict_id m) fresh
      (set_memorials (<[au_memorial_id (c_authority command) := set_columns (completed_columns usage_json command) m]>
         (memorials d)) d) = (Ok u, d').
Proof.
  intros H. unfold complete_body in H. cbv zeta in H.
  apply bind_Ok_inv in H as (? & d0 & Hc & H). apply require_current_utc_inv in Hc as (-> & r & Hr & Hh).
  rewrite bind_sql_get in H. cbn [tbl attempts_table] in H. rewrite Hr in H. step_M H. bools.
  rewrite bind_sql_get in H. cbn [tbl memorials_table] in H.
  destruct (memorials d !! au_memorial_id (c_authority command)) as [m|] eqn:Hm; [|done].
  destruct (mm_dag_node_id m) as [?|] eqn:Hdag; [done|]. cbn [is_none] in H. rewrite bind_ret in H.
  apply bind_Ok_inv in H as (n & d1 & Hu & H). step_M H. bools. subst n.
  apply sql_update_Ok_inv in Hu as [(_ & m' & Hm' & Hopen & _ & _ & ->)|(? & _)]; [|done].
  cbn [tbl set_tbl memorials_table] in Hm', H. simplify_eq. unfold open_root in Hopen. bools.
  exists r, m. split_and!; done.
Qed.

Lemma complete_body_Ok_inv command fresh d u d' :
  run_inv redact_text d →
  disposition (c_outcome command) = D_SUCCEEDED ∨ disposition (c_outcome command) = D_FAILED →
  complete_body redact_text float_of usage_json boundary_hook command fresh d = (Ok u, d') →
  ∃ r m, run_completed command d d' r m.
Proof.
  intros Hi Hd (r & m & Hr & Hh & Hb & Hm & Hdag & Hopen & H)%complete_body_front. exists r, m.
  unfold complete_tail in H. set (au := c_authority command) in *.
  step_M H. apply observe_Ok in E as ->. apply bind_Ok_inv in H as (projected & d2 & Hcas & H).
  apply cas_existing_Ok_inv in Hcas as [Hcas _]; [|by apply run_inv_set_memorials].
  apply bind_Ok_inv in H as (? & d2' & Ho & H).
  assert (d2' = d2) as -> by (destruct projected; [by eapply observe_Ok|by run_M Ho]).
  apply bind_Ok_inv in H as (? & d3 & Hfin & H). apply finalize_Ok_inv in Hfin as (eds & -> & Heds).
  step_M H. apply observe_Ok in E as ->.
  apply bind_Ok_inv in H as (? & d4 & Hadd & H). apply add_row in Hadd as (b & c & _ & Hnone & _ & ->).
  step_M H. apply observe_Ok in E as ->. step_M H. apply observe_Ok in E as ->.
  apply bind_Ok_inv in H as (ok & d5 & Hcc & H). apply guard_Ok_inv in H as [-> ->].
  apply complete_current_settled_inv in Hcc as (r' & Hr' & _ & ->); [|by destruct Hd as [-> | ->]|done].
  assert (Hattempts : execution_attempts d2 = execution_attempts d) by (by destruct Hcas; subst).
  assert (Hout : outbox_events d2 = outbox_events d) by (by destruct Hcas; subst).
  cbn in Hr', Hnone. rewrite Hattempts in Hr'. rewrite Hout in Hnone. fold au in Hr'. simplify_eq.
  split; cbn; rewrite ?Hattempts, ?Hout; try done.
  - by destruct Hcas; subst.
  - unfold run_state_ended. fold au. destruct Hcas as [Ha ->|rr s Ha _ -> _ _ Hp Hpd Hv]; cbn in Ha; rewrite Ha; [done|].
    exists s. split_and!; done.
  - by destruct Hcas; subst.
  - by destruct Hcas; subst.
  - split; [done|]. by eexists _, _.
  - by destruct Hcas; subst.
Qed.

(** ** The four transactions *)

(** The outcome of a transaction on a connection at rest: it stays at rest, and
    the committed tables are the old ones when it raised. *)
Definition settles {A} (s : session db) (P : A → db → db → Prop) (out : result A * session db) : Prop :=
  quiescent out.2 = true ∧ lock_depth out.2 = lock_depth s ∧
  match out.1 with
  | Ok a => P a (committed s) (committed out.2)
  | Err _ => committed out.2 = committed s
  end.

Lemma settles_uow {A} (m : M db A) s (P : A → db → db → Prop) :
  quiescent s = true → (∀ a d', m (committed s) = (Ok a, d') → P a (committed s) d') →
  settles s P (with_uow (committing m) s).
Proof.
  intros Hq HP. destruct (with_uow_committing m s Hq) as (s' & -> & Hc & _ & Hq' & Hl).
  unfold settles. cbn. rewrite Hc. split; [done|]. split; [done|].
  unfold atomically. destruct (m (committed s)) as [[a|e] d'] eqn:E; cbn; [by apply HP|done].
Qed.

Lemma settles_bind_ret {A B} s (P : A → db → db → Prop) (Q : B → db → db → Prop) (m : M (session db) A) (f : A → B) :
  settles s P (m s) → (∀ a d d', P a d d' → Q (f a) d d') → settles s Q (bind m (λ a, ret (f a)) s).
Proof.
  unfold settles, bind, ret. intros (H1 & H2 & H3) HQ. destruct (m s) as [[a|e] s']; cbn in *; auto.
Qed.
Lemma settles_try {A} s (P : A → db → db → Prop) (m : M (session db) A) c c' msg :
  settles s P (m s) → settles s P (try_except m c (λ _, raise c' msg) s).
Proof.
  unfold settles, try_except, raise. intros (H1 & H2 & H3). destruct (m s) as [[a|e] s']; cbn in *; [done|].
  by destruct (subclass _ _).
Qed.
(** A guard in front changes nothing when it raises. *)
Lemma settles_guarded {A B} s (P : B → db → db → Prop) (g : M (session db) A) (k : A → M (session db) B) :
  quiescent s = true → reads g → (∀ a, g s = (Ok a, s) → settles s P (k a s)) → settles s P (bind g k s).
Proof.
  intros Hq Hg Hk. specialize (Hg s). unfold bind. destruct (g s) as [[a|e] s'] eqn:E; cbn in Hg; subst; [by apply Hk|].
  by unfold settles.
Qed.

Lemma reads_validate {S} command : reads (validate_command (S := S) command).
Proof.
  intros s. unfold validate_command. destruct (disposition _); try done;
    unfold bind, guard, ret, raise; repeat case_match; simplify_eq; done.
Qed.
Lemma validate_terminal {S} command (s : S) u s' :
  validate_command command s = (Ok u, s') →
  disposition (c_outcome command) = D_SUCCEEDED ∨ disposition (c_outcome command) = D_FAILED.
Proof. unfold validate_command. destruct (disposition _); [by left|by right|done|done]. Qed.

Lemma complete_settles command fresh s :
  quiescent s = true → run_inv redact_text (committed s) →
  settles s (λ id d d', id = event_id command ∧ ∃ r m, run_completed command d d' r m)
    (complete redact_text float_of usage_json boundary_hook command fresh s).
Proof.
  intros Hq Hi. unfold complete. apply settles_guarded; [done|apply reads_validate|].
  intros u Hv. apply validate_terminal in Hv.
  apply (settles_bind_ret s (λ _ d d', ∃ r m, run_completed command d d' r m)); [|by split].
  apply settles_try, settles_uow; [done|]. intros a d' H. by eapply complete_body_Ok_inv.
Qed.

(** ** Tables a projection leaves alone *)

Lemma keeps_load {T} (part : db → T) m : keeps part (load redact_text m).
Proof. unfold load, decode_state. repeat first [solve [auto with py]|apply keeps_bind; [|intros ?]|case_match]. Qed.

Section parts.
Context {T : Type} (part : db → T).
Context (part_runs : ∀ t d, part (set_run_states t d) = part d).
Context (part_edicts : ∀ t d, part (set_edicts t d) = part d).
Context (part_orchestration : ∀ t d, part (set_orchestration t d) = part d).
Context (part_outbox : ∀ t d, part (set_outbox_events t d) = part d).

Lemma keeps_observe b : keeps part (observe_boundary boundary_hook b).
Proof. apply keeps_reads, reads_observe. Qed.

Lemma keeps_cas m e phase t : keeps part (cas_existing_run_state redact_text m e phase t).
Proof.
  unfold cas_existing_run_state, compare_and_swap, write_state, require_successor, require_memorial_binding.
  repeat first [apply keeps_load | apply keeps_sql_update; exact part_runs | solve [auto with py]
               | apply keeps_bind; [|intros ?] | case_match].
Qed.

Lemma keeps_finalize e : keeps part (finalize_outer_loop_terminal float_of e).
Proof.
  assert (Hput : ∀ (f : db → orchestration_tables) (m : db → M db unit), (∀ d, keeps part (m d)) →
    keeps part (let! d := get_state in put_state (set_orchestration (f d) d) ;;; m d)).
  { intros f m Hm d. rewrite bind_get_state. unfold put_state, bind. rewrite Hm. apply part_orchestration. }
  apply (Hput (λ d, mkOrchestration _ _ _)). intros d.
  repeat first [apply keeps_sql_update; exact part_edicts | solve [auto with py]
               | apply keeps_bind; [|intros ?] | case_match].
Qed.

Lemma keeps_correlation m x : keeps part (correlation_for_memorial m x).
Proof. intros d. by rewrite correlation_state. Qed.

Lemma keeps_add event : keeps part (add event).
Proof.
  unfold add, require_correlation_id.
  repeat first [apply keeps_correlation | apply keeps_sql_insert; exact part_outbox | solve [auto with py]
               | apply keeps_bind; [|intros ?] | case_match].
Qed.
End parts.
Lemma keeps_require_current {T} (part : db → T) id owner token now : keeps part (require_current id owner token now).
Proof.
  unfold require_current, require_authority, require_non_blank, require_positive.
  repeat first [solve [auto with py] | apply keeps_reads, reads_to_utc | apply keeps_bind; [|intros ?] | case_match].
Qed.

Lemma keeps_complete_current {T} (part : db → T) id owner token outcome fresh :
  (∀ t d, part (set_execution_attempts t d) = part d) →
  keeps part (complete_current id owner token outcome fresh).
Proof.
  intros Hp. unfold complete_current, require_authority, require_non_blank, require_positive, insert_retry_attempt,
    select_attempt, decode_attempt.
  repeat first [solve [auto with py] | apply keeps_correlation | apply keeps_sql_update; exact Hp
               | apply keeps_sql_insert; exact Hp | apply keeps_bind; [|intros ?] | case_match].
Qed.

(** *** An ended run stays as it is *)

Section ended.
Context (m : string) (row : memorial_row).
Context (Hended : is_open (mc_status (mm_columns row)) = false).

Definition stored (d : db) : Prop := memorials d !! m = Some row.

Lemma preserves_of_keeps {A} (c : M db A) : keeps memorials c → preserves stored c.
Proof. apply (preserves_keeps (λ t : gmap string memorial_row, t !! m = Some row)). Qed.

(** The projections only match open roots. *)
Lemma preserves_project k e f : preserves stored (sql_update (Row := memorial_row) k (open_root e) f).
Proof.
  intros d Hs. unfold sql_update. cbn [tbl memorials_table].
  destruct (memorials d !! k) as [r|] eqn:Hk; [|done]. destruct (open_root e r) eqn:Ho; [|done].
  destruct (_ && _); [|done]. cbn. unfold stored. cbn. rewrite lookup_insert_ne; [done|].
  intros ->. unfold stored in Hs. simplify_eq. unfold open_root in Ho. bools. congruence.
Qed.

Ltac preserves_step :=
  first
    [ apply preserves_project
    | apply preserves_of_keeps; first
        [ apply keeps_cas; reflexivity | apply keeps_finalize; reflexivity | apply keeps_add; reflexivity
        | apply keeps_observe | apply keeps_require_current | apply keeps_complete_current; reflexivity
        | intros ?; apply keeps_update_keys; reflexivity | solve [auto with py] ]
    | apply preserves_bind; [|intros ?]
    | case_match ].

Lemma complete_body_preserves command fresh :
  preserves stored (complete_body redact_text float_of usage_json boundary_hook command fresh).
Proof. unfold complete_body. repeat preserves_step. Qed.
Lemma cancel_body_preserves k reason now :
  preserves stored (cancel_body redact_text float_of boundary_hook k reason now).
Proof. unfold cancel_body, sql_update_where. repeat preserves_step. Qed.
Lemma retry_body_preserves authority outcome failure fresh :
  preserves stored (retry_body redact_text float_of boundary_hook authority outcome failure fresh).
Proof. unfold retry_body. repeat preserves_step. Qed.
Lemma reconcile_rows_preserves rows now :
  preserves stored (reconcile_rows redact_text float_of rows now).
Proof.
  induction rows as [|[r e] rows IH]; cbn [reconcile_rows]; repeat first [exact IH | preserves_step].
Qed.
End ended.
End effects.

(** ** Theorems *)

Section claims.
Context (redact_text : string → string) (float_of : string → pyfloat) (usage_json : UsageSummary → string).
Context (boundary_hook : string → option exn).
Abbreviation complete := (complete redact_text float_of usage_json boundary_hook).
Abbreviation cancel_root := (cancel_root redact_text float_of boundary_hook).
Abbreviation retry_or_dead_letter := (retry_or_dead_letter redact_text float_of boundary_hook).
Abbreviation reconcile_dead_lettered_roots := (reconcile_dead_lettered_roots redact_text float_of).

(** C8. Completing a run, on a connection at rest with consistent run states, is all or
    nothing. When complete returns, the caller held the attempt and the root memorial was
    open, and run_completed lists everything that changed in the modelled tables, each table
    as a whole: the columns of that memorial, its run state, the checkpoint and the steers
    of its edict in the tables of the outer loop, the lifecycle phase in the runtime of that
    edict when it has acceptance criteria and no recurring job, one new outbox event, the
    settled attempt. When it raises, at any statement or boundary, nothing is committed. *)
Theorem complete_outcome command fresh s :
  quiescent s = true → run_inv redact_text (committed s) →
  let '(res, s') := complete command fresh s in
  quiescent s' = true ∧ lock_depth s' = lock_depth s ∧
  match res with
  | Ok id => id = event_id command ∧ ∃ r m, run_completed float_of usage_json command (committed s) (committed s') r m
  | Err _ => committed s' = committed s
  end.
Proof.
  intros Hq Hi. pose proof (complete_settles redact_text float_of usage_json boundary_hook command fresh s Hq Hi) as H.
  unfold settles in H. by destruct (complete command fresh s).
Qed.

(** *** Sequences of calls *)

Inductive completion_op :=
  | CallComplete (command : FencedRunCompletionCommand) (fresh : string)
  | CallCancel (memorial_id reason : string) (completed_at : option datetime) (clock_now : datetime) (local_offset : Z)
  | CallRetry (authority : AttemptAuthority) (outcome : AttemptOutcomeV1) (fresh : string)
  | CallReconcile (limit : option Z) (completed_at : option datetime) (clock_now : datetime) (local_offset : Z).

Definition exec_completion (s : session db) (op : completion_op) : session db :=
  match op with
  | CallComplete command fresh => (complete command fresh s).2
  | CallCancel m reason t now off => (cancel_root m reason t now off s).2
  | CallRetry authority outcome fresh => (retry_or_dead_letter authority outcome fresh s).2
  | CallReconcile limit t now off => (reconcile_dead_lettered_roots limit t now off s).2
  end.

(** A transaction that preserves a property of the tables keeps it committed. *)
Lemma settles_preserves {A} (P : db → Prop) (c : M db A) s :
  quiescent s = true → P (committed s) → preserves P c →
  settles s (λ _ _ d', P d') (with_uow (committing c) s).
Proof. intros Hq HP Hc. apply settles_uow; [done|]. intros a d' E. specialize (Hc _ HP). by rewrite E in Hc. Qed.

Lemma settles_kept {A} (P : db → Prop) s (out : result A * session db) :
  P (committed s) → settles s (λ _ _ d', P d') out → quiescent out.2 = true ∧ P (committed out.2).
Proof. unfold settles. intros HP (H1 & _ & H3). split; [done|]. destruct out.1; [done|]. by rewrite H3. Qed.

Lemma reads_astimezone {S} t now off : reads (S := S) (astimezone_utc t now off).
Proof. unfold astimezone_utc, checked_instant. auto with py. Qed.

Lemma exec_completion_ended s op m row :
  is_open (mc_status (mm_columns row)) = false → quiescent s = true → stored m row (committed s) →
  quiescent (exec_completion s op) = true ∧ stored m row (committed (exec_completion s op)).
Proof.
  intros He Hq Hs. destruct op; cbn [exec_completion]; apply (settles_kept (stored m row) s); try done.
  - apply settles_guarded; [done|apply reads_validate|]. intros u _.
    apply (settles_bind_ret s (λ _ _ d', stored m row d')); [|done].
    apply settles_try, settles_preserves; [done..|]. by apply complete_body_preserves.
  - apply settles_guarded; [done|auto with py|]. intros u _.
    apply settles_guarded; [done|apply reads_astimezone|]. intros n _.
    apply settles_preserves; [done..|]. by apply cancel_body_preserves.
  - unfold FencedCompletion.retry_or_dead_letter. destruct (disposition outcome), (o_failure outcome) as [f|]; try done.
    apply (settles_bind_ret s (λ _ _ d', stored m row d')); [|done].
    apply settles_preserves; [done..|]. by apply retry_body_preserves.
  - apply settles_guarded; [done|destruct limit; auto with py|]. intros n _. apply settles_guarded; [done|apply reads_astimezone|]. intros now _.
    apply settles_preserves; [done..|]. apply preserves_bind; [|intros rows; by apply reconcile_rows_preserves].
    by intros d Hd.
Qed.

Lemma complete_ended command fresh s row :
  quiescent s = true → memorials (committed s) !! au_memorial_id (c_authority command) = Some row →
  is_open (mc_status (mm_columns row)) = false →
  ∃ e s', complete command fresh s = (Err e, s') ∧ committed s' = committed s.
Proof.
  intros Hq Hm He. assert (Hno : settles s (λ (_ : string) _ _, False) (complete command fresh s)).
  { apply settles_guarded; [done|apply reads_validate|]. intros u _.
    apply (settles_bind_ret s (λ _ _ _, False)); [|done]. apply settles_try, settles_uow; [done|].
    intros a d' (r & m & _ & _ & _ & Hm' & _ & Ho & _)%complete_body_front. simplify_eq. congruence. }
  destruct (complete command fresh s) as [[id|e] s'], Hno as (_ & _ & H); [done|]. by exists e, s'.
Qed.

(** C9. A run ends once. Along any sequence of completions, cancellations, retries and
    reconciliations the row of an ended memorial never changes again, and every later
    completion of it raises with nothing committed. *)
Theorem ended_run_final ops s m row :
  quiescent s = true → memorials (committed s) !! m = Some row → is_open (mc_status (mm_columns row)) = false →
  let s' := foldl exec_completion s ops in
  memorials (committed s') !! m = Some row ∧
  ∀ command fresh, au_memorial_id (c_authority command) = m →
    ∃ e s'', complete command fresh s' = (Err e, s'') ∧ committed s'' = committed s'.
Proof.
  intros Hq Hm He s'. assert (quiescent s' = true ∧ stored m row (committed s')) as [Hq' Hs'].
  { subst s'. revert s Hq Hm. induction ops as [|op ops IH]; intros s Hq Hm; [done|]. cbn [foldl].
    destruct (exec_completion_ended s op m row He Hq Hm). by apply IH. }
  split; [exact Hs'|]. intros command fresh <-. by eapply complete_ended.
Qed.

(** *** Cancellation *)

Lemma update_where_attempts cond f d n d' :
  sql_update_where (Row := attempt_row) cond f d = (Ok n, d') →
  execution_attempts d' = (λ r, if cond r then f r else r) <$> execution_attempts d.
Proof.
  intros H. apply map_eq. intros k. unfold sql_update_where in H.
  pose proof (update_keys_Ok_inv _ _ _ _ _ _ (NoDup_fst_map_to_list _) H k) as E. cbn [tbl attempts_table] in E.
  rewrite E, lookup_fmap. case_bool_decide as Hk; [done|].
  destruct (execution_attempts d !! k) as [r|] eqn:Hr; [|done]. exfalso. apply Hk.
  apply list_elem_of_fmap. exists (k, r). split; [done|]. by apply elem_of_map_to_list.
Qed.

(** What follows the cancellation of the memorial row. *)
Definition cancel_tail (m e reason : string) (now : Z) : M db unit :=
  observe_boundary boundary_hook "after_memorial" ;;;
  let! projected := cas_existing_run_state redact_text m e P_FAILED now in
  (if projected then observe_boundary boundary_hook "after_run_state" else ret tt) ;;;
  finalize_outer_loop_terminal float_of e ;;;
  observe_boundary boundary_hook "after_terminal_cleanup" ;;;
  add (cancel_event m e reason now) ;;;
  observe_boundary boundary_hook "after_outbox".

Lemma keeps_cancel_tail {T} (part : db → T) m e reason now :
  (∀ t d, part (set_run_states t d) = part d) → (∀ t d, part (set_edicts t d) = part d) →
  (∀ t d, part (set_orchestration t d) = part d) → (∀ t d, part (set_outbox_events t d) = part d) →
  keeps part (cancel_tail m e reason now).
Proof.
  intros H1 H2 H3 H4. unfold cancel_tail.
  repeat first [apply keeps_observe | by apply keeps_cas | by apply keeps_finalize | by apply keeps_add
               | apply keeps_ret | apply keeps_bind; [|intros ?] | case_match].
Qed.

(** A cancellation that returns [b]: every live attempt of the root is revoked,
    and the memorial ends now exactly when it was still open. *)
Record run_cancelled (m : string) (now : Z) (d d' : db) (b : bool) (row : memorial_row) : Prop := {
  ca_root : memorials d !! m = Some row ∧ mm_dag_node_id row = None;
  ca_result : b = is_open (mc_status (mm_columns row));
  ca_attempts : execution_attempts d' =
    (λ r, if live_attempt m r then update_lease (revoked now) r else r) <$> execution_attempts d;
  ca_memorials : memorials d' =
    if b then
      <[m := set_columns (ended_columns T_CANCELLED "Execution was cancelled" "execution_cancelled" now) row]>
        (memorials d)
    else memorials d;
}.

Lemma cancel_body_Ok_inv m reason now d b d' :
  cancel_body redact_text float_of boundary_hook m reason now d = (Ok b, d') →
  ∃ row, run_cancelled m now d d' b row.
Proof.
  unfold cancel_body. rewrite bind_sql_get. cbn [tbl memorials_table].
  destruct (memorials d !! m) as [row|] eqn:Hm; [|done].
  destruct (mm_dag_node_id row) eqn:Hdag; [done|]. cbn [is_none]. rewrite bind_ret. intros H. exists row.
  apply bind_Ok_inv in H as (n & d1 & Hu & H). pose proof (update_where_attempts _ _ _ _ _ Hu) as Ha.
  assert (Hm1 : memorials d1 = memorials d).
  { assert (Hk : keeps memorials (sql_update_where (Row := attempt_row) (live_attempt m) (update_lease (revoked now))))
      by (intros ?; by apply keeps_update_keys).
    specialize (Hk d). by rewrite Hu in Hk. }
  step_M H. apply observe_Ok in E as ->. apply bind_Ok_inv in H as (rc & d2 & Hp & H).
  apply bind_Ok_inv in H as (? & d3 & Ht & H). apply ret_Ok_inv in H as [-> ->].
  fold (cancel_tail m (mm_edict_id row) reason now) in Ht.
  assert (Hk : execution_attempts d3 = execution_attempts d2 ∧ memorials d3 = memorials d2).
  { destruct (rc =? 1); [|apply ret_Ok_inv in Ht as [_ ->]; done].
    pose proof (keeps_cancel_tail execution_attempts m (mm_edict_id row) reason now) as K1.
    pose proof (keeps_cancel_tail memorials m (mm_edict_id row) reason now) as K2.
    specialize (K1 (λ _ _, eq_refl) (λ _ _, eq_refl) (λ _ _, eq_refl) (λ _ _, eq_refl) d2).
    specialize (K2 (λ _ _, eq_refl) (λ _ _, eq_refl) (λ _ _, eq_refl) (λ _ _, eq_refl) d2).
    by rewrite Ht in K1, K2. }
  destruct Hk as [Hk1 Hk2].
  apply sql_update_Ok_inv in Hp as [(-> & row' & Hr' & Ho & _ & _ & ->)|(-> & -> & Hmiss)];
    cbn [tbl set_tbl memorials_table] in *; rewrite Hm1 in *; simplify_eq; unfold open_root in *.
  - bools. split; [done|done|by rewrite Hk1|by rewrite Hk2].
  - specialize (Hmiss row Hm). rewrite bool_decide_eq_true_2, Hdag in Hmiss by done. cbn in Hmiss.
    split; [done|done|by rewrite Hk1|by rewrite Hk2].
Qed.

Lemma retry_body_front authority outcome failure fresh d u d' :
  retry_body redact_text float_of boundary_hook authority outcome failure fresh d = (Ok u, d') →
  ∃ r m, execution_attempts d !! au_attempt_id authority = Some r ∧
    holds (at_lease r) (au_owner_id authority) (au_fencing_token authority) (Models.completed_at outcome) = true ∧
    a_memorial_id (at_lease r) = au_memorial_id authority ∧
    memorials d !! au_memorial_id authority = Some m ∧ mm_dag_node_id m = None.
Proof.
  intros H. unfold retry_body in H. cbv zeta in H.
  apply bind_Ok_inv in H as (? & d0 & Hc & H). apply require_current_utc_inv in Hc as (-> & r & Hr & Hh).
  rewrite !bind_sql_get in H. cbn [tbl attempts_table memorials_table] in H. rewrite Hr in H.
  destruct (memorials d !! au_memorial_id authority) as [m|] eqn:Hm; [|done].
  destruct (bool_decide _ && is_none (mm_dag_node_id m)) eqn:Hb; [|done]. bools.
  exists r, m. split_and!; try done. by destruct (mm_dag_node_id m).
Qed.

(** What neither authority can do. *)
Definition powerless (s : session db) (au : AttemptAuthority) : Prop :=
  (∀ command fresh, c_authority command = au →
     ∃ e s', complete command fresh s = (Err e, s') ∧ committed s' = committed s) ∧
  (∀ outcome fresh, ∃ e s', retry_or_dead_letter au outcome fresh s = (Err e, s') ∧ committed s' = committed s).

(** An authority that holds no attempt of its memorial can end nothing. *)
Lemma not_held_powerless s au :
  quiescent s = true →
  (∀ r t, execution_attempts (committed s) !! au_attempt_id au = Some r →
     a_memorial_id (at_lease r) = au_memorial_id au →
     holds (at_lease r) (au_owner_id au) (au_fencing_token au) t = false) →
  powerless s au.
Proof.
  intros Hq Hno. split.
  - intros command fresh Hau. assert (H : settles s (λ (_ : string) _ _, False) (complete command fresh s)).
    { apply settles_guarded; [done|apply reads_validate|]. intros u _.
      apply (settles_bind_ret s (λ _ _ _, False)); [|done]. apply settles_try, settles_uow; [done|].
      intros a d' (r & m & Hr & Hh & Hb & _)%complete_body_front. rewrite Hau in *.
      by rewrite (Hno r _ Hr Hb) in Hh. }
    destruct (complete command fresh s) as [[id|e] s'], H as (_ & _ & H); [done|]. by exists e, s'.
  - intros outcome fresh.
    assert (H : settles s (λ (_ : bool) _ _, False) (retry_or_dead_letter au outcome fresh s)).
    { unfold FencedCompletion.retry_or_dead_letter. destruct (disposition outcome), (o_failure outcome) as [f|]; try done.
      apply (settles_bind_ret s (λ _ _ _, False)); [|done]. apply settles_uow; [done|].
      intros a d' (r & m & Hr & Hh & Hb & _)%retry_body_front. by rewrite (Hno r _ Hr Hb) in Hh. }
    destruct (retry_or_dead_letter au outcome fresh s) as [[b|e] s'], H as (_ & _ & H); [done|]. by exists e, s'.
Qed.

(** C10. Cancelling wins over every worker. When cancel_root returns, each live attempt of
    the root has been revoked and no other attempt touched, the memorial is ended (now,
    exactly when the call returns True), and no authority over that memorial can complete,
    retry or dead-letter it any more. *)
Theorem cancel_revokes s m reason completed_at clock_now off b s' :
  quiescent s = true → cancel_root m reason completed_at clock_now off s = (Ok b, s') →
  (∃ now row, run_cancelled m now (committed s) (committed s') b row) ∧
  (∃ row', memorials (committed s') !! m = Some row' ∧ is_open (mc_status (mm_columns row')) = false) ∧
  ∀ au, au_memorial_id au = m → powerless s' au.
Proof.
  intros Hq H.
  assert (Hs : settles s (λ b d d', ∃ now row, run_cancelled m now d d' b row)
                 (cancel_root m reason completed_at clock_now off s)).
  { apply settles_guarded; [done|auto with py|]. intros u _.
    apply settles_guarded; [done|apply reads_astimezone|]. intros now _. apply settles_uow; [done|].
    intros a d' (row & Hrow)%cancel_body_Ok_inv. by exists now, row. }
  rewrite H in Hs. destruct Hs as (Hq' & _ & now & row & Hc). cbn [fst snd] in Hq', Hc. split; [by exists now, row|].
  destruct Hc as [[Hm Hdag] -> Ha Hms]. split.
  - destruct (is_open _) eqn:Ho; rewrite Hms; [|by exists row]. eexists. split; [apply lookup_insert_eq|done].
  - intros au <-. apply not_held_powerless; [done|]. intros r t Hr Hb.
    rewrite Ha, lookup_fmap in Hr. apply fmap_Some in Hr as (r0 & Hr0 & ->).
    destruct (live_attempt _ r0) eqn:Hl; [done|]. unfold live_attempt in Hl. rewrite Hb, bool_decide_eq_true_2 in Hl by done.
    cbn in Hl. unfold holds. destruct (a_status (at_lease r0)); done.
Qed.

(** Fencing reaches the run: once a memorial has been granted a later lease, the authority
    of an earlier grant can neither complete the run nor retry or dead-letter it, whatever
    owner it presents; nothing is committed. *)
Theorem stale_authority_cannot_complete d0 gs s i j l1 l2 owner :
  ledger_inv d0 → history d0 gs (committed s) → (i < j)%nat →
  gs !! i = Some (Some l1) → gs !! j = Some (Some l2) → a_memorial_id l1 = a_memorial_id l2 →
  quiescent s = true →
  powerless s (mkAuthority (attempt_id l1) (a_memorial_id l1) owner (a_fencing_token l1)).
Proof.
  intros Hl Hh Hij H1 H2 Hm Hq. apply not_held_powerless; [done|]. cbn. intros r t Hr _.
  pose proof (stale_not_held _ _ _ _ _ _ _ owner t Hl Hh Hij H1 H2 Hm) as Hn. unfold held_row in Hn.
  rewrite Hr in Hn. by destruct (holds _ _ _ _).
Qed.

(** *** Retry or dead letter *)

Lemma run_inv_attempts d d' : run_states d' = run_states d → run_inv redact_text d → run_inv redact_text d'.
Proof. intros E [H1 H2 H3 H4]. by split; rewrite E. Qed.

(** What is left of a run whose attempt [r] asked for a retry. *)
Inductive run_retried (au : AttemptAuthority) (o : AttemptOutcomeV1) (f : RedactedError) (fresh : string) (d d' : db)
    (r : attempt_row) : Prop :=
  | next_attempt at_ c :
      attempt_no (at_lease r) < max_attempts (at_lease r) → retry_at o = Some at_ →
      d' = with_attempt (retry_of fresh (at_lease r) at_ (Models.completed_at o)) c
             (put_lease r (finished (at_lease r) o (at_lease r)) d) →
      run_retried au o f fresh d d' r
  | dead_letter m b c :
      max_attempts (at_lease r) ≤ attempt_no (at_lease r) →
      memorials d !! au_memorial_id au = Some m → is_open (mc_status (mm_columns m)) = true →
      memorials d' =
        <[au_memorial_id au :=
          set_columns (ended_columns T_FAILED (err_message f) "attempt_budget_exhausted" (Models.completed_at o)) m]>
          (memorials d) →
      execution_attempts d' = execution_attempts (put_lease r (finished (at_lease r) o (at_lease r)) d) →
      a_status (finished (at_lease r) o (at_lease r)) = DEAD_LETTER →
      run_state_ended (au_memorial_id au) P_FAILED d d' →
      orchestration d' = loop_ended (mm_edict_id m) (orchestration d) →
      edict_ended float_of (mm_edict_id m) (orchestration d) (edicts d) (edicts d') →
      outbox_events d' =
        (let e := dead_letter_event (au_attempt_id au) (au_memorial_id au) (mm_edict_id m) "run-dispatcher"
                    (err_message f) (au_fencing_token au) (Models.completed_at o) in
         <[e_event_id e := added_row e b c]> (outbox_events d)) →
      run_retried au o f fresh d d' r.

(** The end of a root by a dead letter, after the attempt has been buried. *)
Lemma dead_letter_tail d m mid e error token attempt producer at_ u d' :
  run_inv redact_text d → memorials d !! mid = Some m → mm_dag_node_id m = None → mm_edict_id m = e →
  (let! rowcount := sql_update (Row := memorial_row) mid (open_root e)
     (set_columns (ended_columns T_FAILED error "attempt_budget_exhausted" at_)) in
   guard (rowcount =? 1) AttemptConflict "dead-letter root projection conflict" ;;;
   cas_existing_run_state redact_text mid e P_FAILED at_ ;;;
   finalize_outer_loop_terminal float_of e ;;;
   observe_boundary boundary_hook "after_terminal_cleanup" ;;;
   add (dead_letter_event attempt mid e producer error token at_)) d = (Ok u, d') →
  is_open (mc_status (mm_columns m)) = true ∧
  memorials d' = <[mid := set_columns (ended_columns T_FAILED error "attempt_budget_exhausted" at_) m]> (memorials d) ∧
  execution_attempts d' = execution_attempts d ∧ run_state_ended mid P_FAILED d d' ∧
  orchestration d' = loop_ended e (orchestration d) ∧ edict_ended float_of e (orchestration d) (edicts d) (edicts d') ∧
  ∃ b c, outbox_events d' =
    (let ev := dead_letter_event attempt mid e producer error token at_ in
     <[e_event_id ev := added_row ev b c]> (outbox_events d)).
Proof.
  intros Hi Hm Hdag He H. apply bind_Ok_inv in H as (n & d1 & Hu & H). step_M H. bools. subst n.
  apply sql_update_Ok_inv in Hu as [(_ & m' & Hm' & Ho & _ & _ & ->)|(? & _)]; [|done].
  cbn [tbl set_tbl memorials_table] in *. simplify_eq. unfold open_root in Ho. bools. split; [done|].
  apply bind_Ok_inv in H as (b & d2 & Hc & H).
  apply cas_existing_Ok_inv in Hc as [Hc _]; [|by apply run_inv_set_memorials].
  apply bind_Ok_inv in H as (? & d3 & Hf & H). apply finalize_Ok_inv in Hf as (eds & -> & Heds).
  step_M H. apply observe_Ok in E as ->. apply add_row in H as (b' & c & _ & _ & _ & ->).
  unfold run_state_ended. destruct Hc as [Ha ->|rr st Ha _ -> _ _ Hp Hpd Hv]; cbn in Ha |- *; rewrite Ha.
  - split_and!; try done. by exists b', c.
  - split_and!; try done; [by exists st|by exists b', c].
Qed.

Lemma retry_body_Ok_inv au o f fresh d u d' :
  ledger_inv d → run_inv redact_text d → outcome_valid o = true → disposition o = D_RETRY →
  retry_body redact_text float_of boundary_hook au o f fresh d = (Ok u, d') →
  ∃ r, held_row d (au_attempt_id au) (au_owner_id au) (au_fencing_token au) (Models.completed_at o) = Some r ∧
    a_memorial_id (at_lease r) = au_memorial_id au ∧ run_retried au o f fresh d d' r.
Proof.
  intros Hi Hr Hov Hd H. pose proof H as H0. apply retry_body_front in H0 as (r & m & Hk & Hh & Hb & Hm & Hdag).
  assert (Hheld : held_row d (au_attempt_id au) (au_owner_id au) (au_fencing_token au) (Models.completed_at o) = Some r)
    by (unfold held_row; by rewrite Hk, Hh).
  exists r. split; [done|]. split; [done|]. unfold retry_body in H. cbv zeta in H.
  apply bind_Ok_inv in H as (? & d0 & (-> & _)%require_current_utc_inv & H).
  rewrite !bind_sql_get in H. cbn [tbl attempts_table memorials_table] in H.
  rewrite Hk, Hm, bool_decide_eq_true_2, Hdag in H by done. cbn [is_none andb] in H. rewrite bind_ret in H.
  apply bind_Ok_inv in H as (ok & d1 & Hc & H). apply bind_Ok_inv in H as (? & ? & (-> & ->)%guard_Ok_inv & H).
  apply complete_current_Ok_inv in Hc; [|done..]. pose proof (li_keyed d Hi _ _ Hk) as Eid.
  rewrite bind_sql_get in H. cbn [tbl attempts_table] in H.
  inversion Hc as [|r' Hr' Hret Eq|r' at_ c Hr' Hret Hat Hfresh _ _ Eq]; subst; simplify_eq.
  - assert (Hl : execution_attempts (put_lease r (finished (at_lease r) o (at_lease r)) d) !! au_attempt_id au =
      Some (mkAttemptRow (finished (at_lease r) o (at_lease r)) (at_correlation_id r)))
      by (cbn; rewrite Eid; apply lookup_insert_eq).
    rewrite Hl in H. cbn [at_lease] in H.
    unfold retries in Hret. rewrite bool_decide_eq_true_2 in Hret by done. cbn in Hret. apply negb_false_iff, Z.leb_le in Hret.
    assert (Hdl : a_status (finished (at_lease r) o (at_lease r)) = DEAD_LETTER).
    { cbn. unfold completed_status. rewrite Hd. by rewrite (proj2 (Z.leb_le _ _)). }
    rewrite Hdl, bool_decide_eq_true_2 in H by done.
    eapply dead_letter_tail in H as (Ho & Hms & Ha & Hrs & Hlo & Hed & b & c & Hout);
      [|by apply (run_inv_attempts d)|exact Hm|done|done].
    exact (dead_letter au o f fresh d d' r m b c Hret Hm Ho Hms Ha Hdl Hrs Hlo Hed Hout).
  - destruct (retries_true _ _ Hret Hov) as (Hs & Hlt & _). eapply (next_attempt au o f fresh d d' r at_ c); [done..|].
    cbn in H. rewrite Eid in H.
    rewrite lookup_insert_ne, lookup_insert_eq in H by (intros ->; congruence). cbn in H. rewrite Hs in H. cbn in H.
    by injection H as _ <-.
Qed.

(** C27. A managed retry stays within its budget. When retry_or_dead_letter returns, the
    caller held the attempt; below max_attempts the attempt failed and the next one was
    inserted, available at retry_at, and nothing else changed; at max_attempts the attempt
    is dead lettered and the root ended as failed, with its run state, its outer loop and
    one outbox event. When it raises, nothing is committed. *)
Theorem retry_outcome au o fresh s :
  quiescent s = true → ledger_inv (committed s) → run_inv redact_text (committed s) → outcome_valid o = true →
  let '(res, s') := retry_or_dead_letter au o fresh s in
  quiescent s' = true ∧
  match res with
  | Ok b => b = true ∧ ∃ f r, o_failure o = Some f ∧
      held_row (committed s) (au_attempt_id au) (au_owner_id au) (au_fencing_token au) (Models.completed_at o) = Some r ∧
      a_memorial_id (at_lease r) = au_memorial_id au ∧ run_retried au o f fresh (committed s) (committed s') r
  | Err _ => committed s' = committed s
  end.
Proof.
  intros Hq Hi Hr Hov.
  assert (H : settles s (λ b d d', b = true ∧ ∃ f r, o_failure o = Some f ∧
      held_row d (au_attempt_id au) (au_owner_id au) (au_fencing_token au) (Models.completed_at o) = Some r ∧
      a_memorial_id (at_lease r) = au_memorial_id au ∧ run_retried au o f fresh d d' r)
    (retry_or_dead_letter au o fresh s)).
  { unfold FencedCompletion.retry_or_dead_letter. destruct (disposition o) eqn:Hd, (o_failure o) as [f|]; try done.
    apply (settles_bind_ret s (λ _ d d', ∃ r,
      held_row d (au_attempt_id au) (au_owner_id au) (au_fencing_token au) (Models.completed_at o) = Some r ∧
      a_memorial_id (at_lease r) = au_memorial_id au ∧ run_retried au o f fresh d d' r)).
    - apply settles_uow; [done|]. intros a d' H. by eapply retry_body_Ok_inv.
    - intros _ d d' (r & H). split; [done|]. by exists f, r. }
  destruct (retry_or_dead_letter au o fresh s) as [res s']. by destruct H as (? & _ & ?).
Qed.

(** *** Reconciliation *)

(** The open roots with a dead-lettered attempt, in the order they are closed. *)
Definition dead_lettered (d : db) : list (attempt_row * string) :=
  omap (dead_letter_root d) (order_by dead_letter_order (map_to_list (execution_attempts d)).*2).

Definition root_of (m e : string) (d : db) : Prop :=
  ∃ row, memorials d !! m = Some row ∧ mm_dag_node_id row = None ∧ mm_edict_id row = e.
Definition open_now (m : string) (d : db) : bool :=
  match memorials d !! m with Some row => is_open (mc_status (mm_columns row)) | None => false end.

Lemma elem_of_dead_lettered d r e :
  (r, e) ∈ dead_lettered d ↔
  (∃ k, execution_attempts d !! k = Some r) ∧ a_status (at_lease r) = DEAD_LETTER ∧
  ∃ m, memorials d !! a_memorial_id (at_lease r) = Some m ∧ mm_dag_node_id m = None ∧ mm_edict_id m = e ∧
    is_open (mc_status (mm_columns m)) = true.
Proof.
  unfold dead_lettered. rewrite list_elem_of_omap. split.
  - intros (x & Hx & Hd). unfold dead_letter_root in Hd. repeat case_match; simplify_eq. bools.
    rewrite elem_of_order_by in Hx. apply list_elem_of_fmap in Hx as ([k y] & -> & Hy%elem_of_map_to_list).
    split; [by exists k|]. split; [done|]. eexists. split; [done|]. by destruct (mm_dag_node_id _).
  - intros ((k & Hk) & Hs & m & Hm & Hdag & <- & Ho). exists r. split.
    + rewrite elem_of_order_by. apply list_elem_of_fmap. exists (k, r). split; [done|by apply elem_of_map_to_list].
    + unfold dead_letter_root. by rewrite Hm, Hs, Hdag, Ho.
Qed.

(** What one step of the reconciliation leaves alone. *)
Record root_closed (m : string) (d d1 : db) : Prop := {
  cr_attempts : execution_attempts d1 = execution_attempts d;
  cr_closed : open_now m d1 = false;
  cr_others : ∀ k, k ≠ m → memorials d1 !! k = memorials d !! k;
  cr_roots : ∀ k x, root_of k x d → root_of k x d1;
}.

Lemma keeps_projection m e phase now event (d : db) c d' :
  (cas_existing_run_state redact_text m e phase now ;;; finalize_outer_loop_terminal float_of e ;;;
   add event ;;; ret 1) d = (Ok c, d') →
  c = 1 ∧ execution_attempts d' = execution_attempts d ∧ memorials d' = memorials d.
Proof.
  intros H.
  assert (Hk : ∀ T (part : db → T), (∀ t d, part (set_run_states t d) = part d) →
    (∀ t d, part (set_edicts t d) = part d) → (∀ t d, part (set_orchestration t d) = part d) →
    (∀ t d, part (set_outbox_events t d) = part d) → part d' = part d).
  { intros T part H1 H2 H3 H4. enough (Hkeeps : keeps part (cas_existing_run_state redact_text m e phase now ;;;
      finalize_outer_loop_terminal float_of e ;;; add event ;;; ret 1)) by (specialize (Hkeeps d); by rewrite H in Hkeeps).
    repeat first [by apply keeps_cas | by apply keeps_finalize | by apply keeps_add | apply keeps_ret
                 | apply keeps_bind; [|intros ?]]. }
  split; [|split; by apply Hk]. do 3 (apply bind_Ok_inv in H as (? & ? & _ & H)). by apply ret_Ok_inv in H as [-> _].
Qed.

Lemma reconcile_row_Ok_inv r e rest now d n d' :
  let m := a_memorial_id (at_lease r) in
  root_of m e d → reconcile_rows redact_text float_of ((r, e) :: rest) now d = (Ok n, d') →
  ∃ d1 n', reconcile_rows redact_text float_of rest now d1 = (Ok n', d') ∧
    n = (if open_now m d then 1 else 0) + n' ∧ root_closed m d d1.
Proof.
  intros m (row & Hm & Hdag & He) H. cbn [reconcile_rows] in H. step_M H.
  apply bind_Ok_inv in H as (rc & d1 & Hu & H). apply bind_Ok_inv in H as (c & d2 & Hc & H).
  apply bind_Ok_inv in H as (n' & d3 & Hrest & H). apply ret_Ok_inv in H as [-> ->].
  exists d2, n'. split; [done|]. unfold open_now at 1. fold m in Hu, Hc. rewrite Hm.
  assert (s = d) as -> by (destruct (a_failure (at_lease r)); by run_M E).
  apply sql_update_Ok_inv in Hu as [(-> & row' & Hr' & Ho & _ & _ & ->)|(-> & -> & Hmiss)];
    cbn [tbl set_tbl memorials_table Z.eqb Pos.eqb] in *.
  - assert (row' = row) as -> by congruence.
    assert (Hopen : is_open (mc_status (mm_columns row)) = true) by (unfold open_root in Ho; by bools).
    rewrite Hopen. apply keeps_projection in Hc as (-> & Ha & Hms). split; [done|].
    cbn in Ha, Hms. split; [done| | |].
    + unfold open_now. by rewrite Hms, lookup_insert_eq.
    + intros k Hk. by rewrite Hms, lookup_insert_ne.
    + intros k x' (row1 & Hk & ? & ?). unfold root_of. rewrite Hms. destruct (decide (k = m)) as [->|Hne].
      * rewrite lookup_insert_eq. eexists. split; [done|]. cbn. simplify_eq. done.
      * rewrite lookup_insert_ne by done. by exists row1.
  - apply ret_Ok_inv in Hc as [-> ->]. specialize (Hmiss row Hm). unfold open_root in Hmiss.
    rewrite bool_decide_eq_true_2, Hdag in Hmiss by done. cbn in Hmiss. rewrite Hmiss. split; [done|].
    split; try done. unfold open_now. by rewrite Hm.
Qed.

Lemma root_closed_shut m k d d1 : root_closed m d d1 → open_now k d = false → open_now k d1 = false.
Proof.
  intros [_ Hm Ho _] Hk. destruct (decide (k = m)) as [->|Hne]; [done|]. unfold open_now in *. by rewrite Ho.
Qed.

Abbreviation root_id := (λ x : attempt_row * string, a_memorial_id (at_lease x.1)).

Lemma reconcile_rows_Ok_inv rows now d n d' :
  (∀ x, x ∈ rows → root_of (root_id x) x.2 d) →
  reconcile_rows redact_text float_of rows now d = (Ok n, d') →
  execution_attempts d' = execution_attempts d ∧
  (∀ k, open_now k d = false ∨ k ∈ root_id <$> rows → open_now k d' = false) ∧
  (∀ k, k ∉ root_id <$> rows → memorials d' !! k = memorials d !! k) ∧
  0 ≤ n ≤ Z.of_nat (length rows).
Proof.
  revert d n. induction rows as [|[r e] rows IH]; intros d n Hroots H.
  - apply ret_Ok_inv in H as [-> ->]. split_and!; try done. intros k [?|?%elem_of_nil]; done.
  - apply reconcile_row_Ok_inv in H as (d1 & n' & Hrest & -> & Hc); [|apply (Hroots (r, e)), list_elem_of_here].
    destruct (IH d1 n') as (Ha & Hs & Ho & Hn); [|done|].
    { intros x Hx. apply (cr_roots _ _ _ Hc), Hroots. by apply list_elem_of_further. }
    split_and!.
    + rewrite Ha. apply (cr_attempts _ _ _ Hc).
    + rewrite fmap_cons. intros k [Hk|[->|Hk]%elem_of_cons]; apply Hs;
        [left; by eapply root_closed_shut|left; apply (cr_closed _ _ _ Hc)|by right].
    + rewrite fmap_cons. intros k [Hne Hk]%not_elem_of_cons. rewrite Ho by done. by apply (cr_others _ _ _ Hc).
    + case_match; lia.
    + cbn [length]. case_match; lia.
Qed.

(** Reconciliation converges. When reconcile_dead_lettered_roots returns n, every root among
    the first limit dead-lettered ones is closed, no other memorial and no attempt is
    touched, n is 0 exactly when there was nothing to close, and once limit covers them all
    none is left. *)
Theorem reconcile_closes s limit completed_at clock_now off n s' :
  quiescent s = true → reconcile_dead_lettered_roots (Some limit) completed_at clock_now off s = (Ok n, s') →
  let d := committed s in let d' := committed s' in
  let selected := take (Z.to_nat limit) (dead_lettered d) in
  execution_attempts d' = execution_attempts d ∧
  (∀ k, k ∈ root_id <$> selected → open_now k d' = false) ∧
  (∀ k, k ∉ root_id <$> selected → memorials d' !! k = memorials d !! k) ∧
  0 ≤ n ≤ Z.of_nat (length selected) ∧ (n = 0 ↔ dead_lettered d = []) ∧
  (Z.of_nat (length (dead_lettered d)) ≤ limit → dead_lettered d' = []).
Proof.
  intros Hq H d d' selected.
  assert (Hs : settles s (λ n d d', 0 < limit ∧ ∃ now, reconcile_rows redact_text float_of
      (take (Z.to_nat limit) (dead_lettered d)) now d = (Ok n, d'))
    (reconcile_dead_lettered_roots (Some limit) completed_at clock_now off s)).
  { apply settles_guarded; [done|auto with py|]. intros l Hl.
    apply settles_guarded; [done|apply reads_astimezone|]. intros now _. apply settles_uow; [done|].
    intros a d1 E. run_M Hl. bools. subst. split; [done|]. exists now. exact E. }
  rewrite H in Hs. destruct Hs as (_ & _ & Hlim & now & Hs). cbn [fst snd] in Hs. fold d d' selected in Hs.
  assert (Hsel : ∀ x, x ∈ selected → root_of (root_id x) x.2 d ∧ open_now (root_id x) d = true).
  { intros [r e] Hx. assert (Hin : (r, e) ∈ dead_lettered d) by (unfold selected in Hx; rewrite elem_of_take in Hx; by destruct Hx as (i & ?%list_elem_of_lookup_2 & _)).
    apply elem_of_dead_lettered in Hin as (_ & _ & m & Hm & Hdag & He & Ho).
    split; [by exists m|]. unfold open_now. cbn. by rewrite Hm. }
  destruct (reconcile_rows_Ok_inv _ _ _ _ _ (λ x Hx, proj1 (Hsel x Hx)) Hs) as (Ha & Hc & Ho & Hn).
  split; [done|]. split; [auto|]. split; [done|]. split; [done|]. split.
  - split; [|intros E; unfold selected in Hn; rewrite E, take_nil in Hn; cbn in Hn; lia].
    intros ->. destruct (dead_lettered d) as [|x l] eqn:E; [done|]. exfalso.
    assert (Hne : selected = x :: take (pred (Z.to_nat limit)) l).
    { unfold selected. destruct (Z.to_nat limit) eqn:El; [lia|done]. }
    rewrite Hne in Hs, Hsel. destruct x as [r e]. destruct (Hsel (r, e)) as [Hr Hopen]; [apply list_elem_of_here|].
    apply reconcile_row_Ok_inv in Hs as (d1 & n' & Hrest & Hz & Hcl); [|done]. cbn in Hopen. rewrite Hopen in Hz.
    apply reconcile_rows_Ok_inv in Hrest as (_ & _ & _ & Hn'); [lia|].
    intros y Hy. apply (cr_roots _ _ _ Hcl), Hsel. by apply list_elem_of_further.
  - intros Hle. assert (Hall : selected = dead_lettered d) by (apply take_ge; lia).
    apply elem_of_nil_inv. intros [r e] (Hk & Hst & m & Hm & Hdag & He & Hopen)%elem_of_dead_lettered.
    rewrite Ha in Hk. destruct (decide (a_memorial_id (at_lease r) ∈ root_id <$> selected)) as [Hin|Hout].
    + specialize (Hc _ (or_intror Hin)). unfold open_now in Hc. rewrite Hm in Hc. congruence.
    + rewrite Ho in Hm by done. apply Hout, list_elem_of_fmap. exists (r, e). split; [done|]. rewrite Hall.
      apply elem_of_dead_lettered. split; [done|]. split; [done|]. by exists m.
Qed.
End claims.

(** ** A sample run *)

(** worker-2 holds attempt A2, the second of three, of the root "m" under token
    2 from second 20 to second 30; worker-1 lost A1 and its token 1.  The run is
    executing and the edict has acceptance criteria. *)
Module CompletionSample.
Definition base : db :=
  mkDb {["e" := mkEdictRow "title" "goal" "alice" false (Some "{}") (Some "[]")]}
    {["m" := mkMemorialRow "e" None new_columns]}
    ∅ ∅ ∅ ∅ ∅ ∅ ∅ ∅ ∅ ∅ (mkOrchestration {["e" := "{}"]} {["steer" := "e"]} ∅).
Definition plain (t : string) : string := t.
Definition zero (_ : string) : pyfloat := PyFloat (Some (0, 0)) "0.0".
Definition usage (_ : UsageSummary) : string := "{}".
Definition silent (_ : string) : option exn := None.
Definition ledger : db := (run_ops sample_ops base).2.
Definition running : db := (exec_run plain (RunCreate (RunSample.state P_PLANNING 0 1 100)) ledger).2.
Definition rest (d : db) : session db := Session d d false 0 false false.

Definition authority (attempt owner : string) (token : Z) : AttemptAuthority := mkAuthority attempt "m" owner token.
Definition command (attempt owner : string) (token : Z) : FencedRunCompletionCommand :=
  mkCommand (authority attempt owner token) (mkOutcome D_SUCCEEDED (at_s 25) None None) T_COMPLETED
    (Some "report sent") None (Some "done") None None None None None None.
Definition finished_run := complete plain zero usage silent (command "A2" "worker-2" 2) "A3" (rest running).
Definition cancelled_run := cancel_root plain zero silent "m" "user" (Some (when 25)) (when 26) 0 (rest running).
Definition failure : RedactedError := mkRedactedError "timeout" "The worker timed out" true None.
Definition retry (n : Z) : AttemptOutcomeV1 := mkOutcome D_RETRY (at_s n) (Some failure) (Some (at_s (n + 5))).
Definition retried_run :=
  retry_or_dead_letter plain zero silent (authority "A2" "worker-2" 2) (retry 25) "A3" (rest running).
(** The third attempt times out too, and the budget is used up by a claim. *)
Definition buried : db :=
  (run_ops [OpClaim "m" "worker-3" (when 40) 10 "A3"; OpClaim "m" "worker-4" (when 60) 10 "A4"] running).2.
Definition reconciled_run :=
  reconcile_dead_lettered_roots plain zero (Some 10) None (when 70) 0 (rest buried).

Lemma running_inv : run_inv plain running.
Proof.
  eapply (run_steps_ok plain ledger); [split; intros k r Hk; vm_compute in Hk; discriminate|].
  apply rtc_once. exists (RunCreate (RunSample.state P_PLANNING 0 1 100)). split; [vm_compute; reflexivity|reflexivity].
Qed.
Lemma ledger_ok : ledger_inv ledger.
Proof.
  eapply (history_step base).
  - apply ledger_inv_empty; [done|]. by repeat split; apply map_Forall_empty.
  - apply run_ops_history. vm_compute. reflexivity.
Qed.

Definition status_of (s : session db) : option TaskStatus :=
  (λ r, mc_status (mm_columns r)) <$> memorials (committed s) !! "m".
Definition phase_of (s : session db) : option RunPhase :=
  (λ r, rs_phase (rn_state r)) <$> run_states (committed s) !! "m".
Definition attempts_of (s : session db) : list (string * AttemptStatus) :=
  (λ kv : string * attempt_row, (kv.1, a_status (at_lease kv.2))) <$> map_to_list (execution_attempts (committed s)).
End CompletionSample.

(** The four transactions on the sample; a hook that raises undoes a completion. *)
Example sample_runs :
  (let '(r, s) := CompletionSample.finished_run in
   (CompletionSample.status_of s, CompletionSample.phase_of s, CompletionSample.attempts_of s)) =
    (Some T_COMPLETED, Some P_COMPLETED, [("A1", FAILED); ("A2", SUCCEEDED)]) ∧
  (let '(r, s) := CompletionSample.cancelled_run in
   (r, CompletionSample.status_of s, CompletionSample.phase_of s, CompletionSample.attempts_of s)) =
    (Ok true, Some T_CANCELLED, Some P_FAILED, [("A1", FAILED); ("A2", FAILED)]) ∧
  (let '(r, s) := CompletionSample.retried_run in
   (r, CompletionSample.status_of s, CompletionSample.attempts_of s)) =
    (Ok true, Some T_SUBMITTED, [("A3", CLAIMABLE); ("A1", FAILED); ("A2", FAILED)]) ∧
  (let '(r, s) := CompletionSample.reconciled_run in
   (r, CompletionSample.status_of s, CompletionSample.attempts_of s)) =
    (Ok 1, Some T_FAILED, [("A3", DEAD_LETTER); ("A1", FAILED); ("A2", FAILED)]).
Proof. split_and!; vm_compute; reflexivity. Qed.

Example interrupted_completion :
  let stop (b : string) := if bool_decide (b = "before_attempt") then Some (Exn RuntimeError "stopped") else None in
  let '(r, s) := complete CompletionSample.plain CompletionSample.zero CompletionSample.usage stop
    (CompletionSample.command "A2" "worker-2" 2) "A3" (CompletionSample.rest CompletionSample.running) in
  r = Err (Exn RuntimeError "stopped") ∧ CompletionSample.status_of s = Some T_SUBMITTED.
Proof. vm_compute. split; reflexivity. Qed.

Lemma complete_outcome_witness :
  ∃ id s', CompletionSample.finished_run = (Ok id, s') ∧
    ∃ r m, run_completed CompletionSample.zero CompletionSample.usage (CompletionSample.command "A2" "worker-2" 2)
      CompletionSample.running (committed s') r m.
Proof.
  pose proof (complete_outcome CompletionSample.plain CompletionSample.zero CompletionSample.usage CompletionSample.silent
    (CompletionSample.command "A2" "worker-2" 2) "A3" (CompletionSample.rest CompletionSample.running) eq_refl
    CompletionSample.running_inv) as H.
  assert (Hok : match CompletionSample.finished_run.1 with Ok _ => true | Err _ => false end = true) by (vm_compute; reflexivity).
  unfold CompletionSample.finished_run in *. destruct (complete _ _ _ _ _ _ _) as [[id|e] s']; [|discriminate].
  exists id, s'. split; [reflexivity|]. exact (proj2 (proj2 (proj2 H))).
Defined.

Lemma ended_run_final_witness :
  let s := CompletionSample.cancelled_run.2 in
  ∃ row, memorials (committed (exec_completion CompletionSample.plain CompletionSample.zero CompletionSample.usage
    CompletionSample.silent s (CallReconcile (Some 5) None (when 70) 0))) !! "m" = Some row.
Proof.
  intros s. assert (Hrow : ∃ row, memorials (committed s) !! "m" = Some row ∧ is_open (mc_status (mm_columns row)) = false).
  { eexists. split; vm_compute; reflexivity. }
  destruct Hrow as (row & Hrow & Ho). exists row.
  assert (Hq : quiescent s = true) by (vm_compute; reflexivity).
  exact (proj1 (ended_run_final CompletionSample.plain CompletionSample.zero CompletionSample.usage CompletionSample.silent
    [CallReconcile (Some 5) None (when 70) 0] s "m" row Hq Hrow Ho)).
Defined.

Lemma cancel_revokes_witness :
  powerless CompletionSample.plain CompletionSample.zero CompletionSample.usage CompletionSample.silent
    CompletionSample.cancelled_run.2 (CompletionSample.authority "A2" "worker-2" 2).
Proof.
  assert (Hb : CompletionSample.cancelled_run.1 = Ok true) by (vm_compute; reflexivity).
  destruct CompletionSample.cancelled_run as [r s'] eqn:E. cbn in Hb. subst r.
  exact (proj2 (proj2 (cancel_revokes CompletionSample.plain CompletionSample.zero CompletionSample.usage CompletionSample.silent
    (CompletionSample.rest CompletionSample.running) "m" "user" (Some (when 25)) (when 26) 0 true s' eq_refl E))
    (CompletionSample.authority "A2" "worker-2" 2) eq_refl).
Defined.

Lemma stale_authority_cannot_complete_witness :
  powerless CompletionSample.plain CompletionSample.zero CompletionSample.usage CompletionSample.silent
    (CompletionSample.rest sample_end) (CompletionSample.authority "A1" "worker-1" 1).
Proof.
  assert (Hij : (1 < 3)%nat) by lia.
  exact (stale_authority_cannot_complete CompletionSample.plain CompletionSample.zero CompletionSample.usage
    CompletionSample.silent sample_db _ (CompletionSample.rest sample_end) 1 3 lease_1 lease_2 "worker-1" sample_inv
    sample_history Hij eq_refl eq_refl eq_refl eq_refl).
Defined.

Lemma retry_outcome_witness :
  ∃ s' f r, retry_or_dead_letter CompletionSample.plain CompletionSample.zero CompletionSample.silent
      (CompletionSample.authority "A2" "worker-2" 2) (CompletionSample.retry 25) "A3"
      (CompletionSample.rest CompletionSample.ledger) = (Ok true, s') ∧
    run_retried CompletionSample.zero (CompletionSample.authority "A2" "worker-2" 2) (CompletionSample.retry 25) f "A3"
      CompletionSample.ledger (committed s') r.
Proof.
  assert (Hrun : run_inv CompletionSample.plain CompletionSample.ledger)
    by (split; intros k r Hk; vm_compute in Hk; discriminate).
  pose proof (retry_outcome CompletionSample.plain CompletionSample.zero CompletionSample.silent
    (CompletionSample.authority "A2" "worker-2" 2) (CompletionSample.retry 25) "A3"
    (CompletionSample.rest CompletionSample.ledger) eq_refl CompletionSample.ledger_ok Hrun eq_refl) as H.
  assert (Hok : (retry_or_dead_letter CompletionSample.plain CompletionSample.zero CompletionSample.silent
      (CompletionSample.authority "A2" "worker-2" 2) (CompletionSample.retry 25) "A3"
      (CompletionSample.rest CompletionSample.ledger)).1 = Ok true) by (vm_compute; reflexivity).
  destruct (retry_or_dead_letter _ _ _ _ _ _ _) as [res s']. cbn in Hok. subst res.
  destruct H as (_ & _ & f & r & _ & _ & _ & H). exists s', f, r. split; [reflexivity|exact H].
Defined.

Lemma reconcile_closes_witness :
  dead_lettered (committed CompletionSample.reconciled_run.2) = [].
Proof.
  assert (Hb : CompletionSample.reconciled_run.1 = Ok 1) by (vm_compute; reflexivity).
  assert (Hl : Z.of_nat (length (dead_lettered CompletionSample.buried)) ≤ 10) by (vm_compute; discriminate).
  destruct CompletionSample.reconciled_run as [r s'] eqn:E. cbn in Hb. subst r.
  destruct (reconcile_closes CompletionSample.plain CompletionSample.zero (CompletionSample.rest CompletionSample.buried)
    10 None (when 70) 0 1 s' eq_refl E) as (_ & _ & _ & _ & _ & H).
  exact (H Hl).
Defined.
