(* ===== verification/ManagedEffects.v ===== *)
(** * Managed side effects

    Models src/src/tianshu/executor/side_effects.py: the service that performs
    an external effect under the journal.  It writes the intent, asks the
    provider for an earlier receipt when the effect supports it, invokes the
    provider and stores its receipt; an effect whose outcome could not be
    established later is never performed, the run is suspended on a decision
    instead.

    The provider is code outside the repository: a [ManagedSideEffectBoundary]
    over a state [W] of its own, each call of which may return, raise and
    change that state.  The [i]-th reading of the service's clock in a call is
    [reading i]; [boundary_hook] may raise at any of the points where the code
    calls it, which stands for a crash there.  [calls] records, for the
    theorems, every invocation of a provider with the database as it was
    committed at that moment.

    [execute] is one call that runs to its end without anything in between; the
    theorems of this file are about sequences of such calls.  EffectInterleaving.v
    cuts the call at its awaits and lets calls and other code interleave there. *)

From S2P Require Import Prelude.
From S2P Require Import Sql.
From S2P Require Import Canonical.
From S2P Require Import Timestamp.
From S2P Require Import UnitOfWork.
From S2P Require Import Models.
From S2P Require Import Schema.
From S2P Require Import Correlation.
From S2P Require Import AttemptLedger.
From S2P Require Import Fencing.
From S2P Require Import RunStateRepo.
From S2P Require Import DecisionRepo.
From S2P Require Import SystemAudit.
From S2P Require Import Outbox.
From S2P Require Import DecisionService.
From S2P Require Import SideEffectJournal.
From S2P Require Import FencedCompletion.

(** ** Data *)

Record ProviderEffectReceipt := mkProviderReceipt {
  pr_provider_receipt_id : string;
  pr_result_metadata : list (string * json);
  pr_effective_at : datetime;
}.

Record ManagedSideEffectBoundary (W : Type) := mkBoundary {
  b_name : string;
  b_semantics : SideEffectSemantics;
  b_invoke : SideEffectIntentV1 → W → result ProviderEffectReceipt * W;
  b_lookup_receipt : string → W → result (option ProviderEffectReceipt) * W;
}.
Arguments mkBoundary {W}.
Arguments b_name {W}.
Arguments b_semantics {W}.
Arguments b_invoke {W}.
Arguments b_lookup_receipt {W}.

Record ManagedSideEffectResult := mkManagedResult {
  mr_receipt : option SideEffectReceiptV1;
  mr_decision_request_id : option string;
  mr_uncertain : bool;
  mr_reconciled : bool;
}.

Record managed (W : Type) := Managed {
  provider : W;
  store : session db;
  calls : list (SideEffectIntentV1 * db);
}.
Arguments Managed {W}.
Arguments provider {W}.
Arguments store {W}.
Arguments calls {W}.

Definition on_store {W A} (m : M (session db) A) : M (managed W) A := λ x,
  let '(r, s) := m (store x) in (r, Managed (provider x) s (calls x)).
Definition invoke {W} (b : ManagedSideEffectBoundary W) (i : SideEffectIntentV1) :
    M (managed W) ProviderEffectReceipt := λ x,
  let '(r, w) := b_invoke b i (provider x) in
  (r, Managed w (store x) (calls x ++ [(i, committed (store x))])).
Definition lookup_receipt {W} (b : ManagedSideEffectBoundary W) (key : string) :
    M (managed W) (option ProviderEffectReceipt) := λ x,
  let '(r, w) := b_lookup_receipt b key (provider x) in (r, Managed w (store x) (calls x)).

(** ** Checks *)

(** [_now] *)
Definition now_utc {S} (reading : datetime) : M S Z :=
  match utcoffset reading with
  | None => raise ValueError "managed side-effect clock must be timezone-aware"
  | Some off => checked_instant (wall reading - off)
  end.

(** [_validate_boundary] *)
Definition validate_boundary {S W} (i : SideEffectIntentV1) (b : ManagedSideEffectBoundary W) : M S unit :=
  guard (bool_decide (b_name b = boundary i) && bool_decide (b_semantics b = semantics i)) ValueError
    "managed side-effect boundary does not match intent".

(** [_validate_uncertainty_inputs] *)
Definition validate_uncertainty_inputs {S} (i : SideEffectIntentV1) (run_state : option RunStateV1)
    (auth : option AuthContext) (expires_at : option datetime) : M S unit :=
  guard (match run_state, auth, expires_at with
         | Some s, Some _, Some _ =>
             bool_decide (rs_memorial_id s = i_memorial_id i) && bool_decide (rs_edict_id s = i_edict_id i)
         | _, _, _ => false
         end) ValueError "unsupported effect requires durable Decision suspension inputs".

(** [_require_authority_matches_requested] *)
Definition require_authority_matches_requested {S} (authority : AttemptAuthority) (i : SideEffectIntentV1) : M S unit :=
  guard (bool_decide (au_attempt_id authority = i_attempt_id i) &&
         bool_decide (au_memorial_id authority = i_memorial_id i) &&
         bool_decide (au_owner_id authority = i_owner_id i) &&
         (au_fencing_token authority =? i_fencing_token i))
    SideEffectConflict "side-effect originating authority conflict".

(** [_same_business_intent] *)
Definition same_business_intent (existing requested : SideEffectIntentV1) : bool :=
  bool_decide (intent_id existing = intent_id requested) && bool_decide (effect_id existing = effect_id requested) &&
  bool_decide (i_edict_id existing = i_edict_id requested) &&
  bool_decide (i_memorial_id existing = i_memorial_id requested) &&
  (sequence_no existing =? sequence_no requested) && bool_decide (boundary existing = boundary requested) &&
  bool_decide (operation existing = operation requested) &&
  bool_decide (semantics existing = semantics requested) &&
  bool_decide (request_hash existing = request_hash requested) &&
  bool_decide (provider_idempotency_key existing = provider_idempotency_key requested).

Definition exact_origin (authority : AttemptAuthority) (existing : SideEffectIntentV1) : bool :=
  bool_decide (au_attempt_id authority = i_attempt_id existing) &&
  bool_decide (au_owner_id authority = i_owner_id existing) &&
  (au_fencing_token authority =? i_fencing_token existing).

Section service.
Context (redact_text : string → string) (float_of : string → pyfloat) (lax_int : pyfloat → option Z)
        (parse_datetime : string → option datetime).
(** [decisions] is the environment of the decision service during the call,
    [fresh] the identifier a retry attempt would get. *)
Context (reading : nat → datetime) (decisions : env) (boundary_hook : string → option exn) (fresh : string).

(** [_observe] *)
Definition observe {S} (boundary : string) : M S unit := λ s,
  match boundary_hook boundary with Some e => (Err e, s) | None => (Ok tt, s) end.

(** ** [_begin_or_recover] *)

Definition begin_or_recover_body (authority : AttemptAuthority) (requested : SideEffectIntentV1) (now : Z) :
    M db SideEffectIntentV1 :=
  let! found := load_by_position_current redact_text (i_memorial_id requested) (sequence_no requested) in
  match found with
  | None => begin_intent_current redact_text requested
  | Some existing =>
      guard (same_business_intent existing requested) SideEffectConflict "side-effect replay identity conflict" ;;;
      (if bool_decide (i_status existing = INTENDED) || negb (exact_origin authority existing)
       then require_reconciliation_authority_current existing (au_attempt_id authority) (au_owner_id authority)
              (au_fencing_token authority) (utc_at now)
       else ret tt) ;;;
      ret existing
  end.
Definition begin_or_recover (authority : AttemptAuthority) (requested : SideEffectIntentV1) :
    M (session db) SideEffectIntentV1 :=
  require_authority_matches_requested authority requested ;;;
  let! now := now_utc (reading 0) in
  with_uow (committing (begin_or_recover_body authority requested now)).

(** [_require_current] *)
Definition require_current_now (authority : AttemptAuthority) (now : Z) : M (session db) unit :=
  with_uow (committing (require_current (au_attempt_id authority) (au_owner_id authority)
    (au_fencing_token authority) (utc_at now))).

(** [_uncertainty_decision_id] *)
Definition uncertainty_decision_id (intent_id : string) : M (session db) (option string) :=
  with_uow (committing (uncertainty_decision_id_current intent_id)).

(** ** [_record_receipt] *)

Definition provider_receipt (authority : AttemptAuthority) (i : SideEffectIntentV1) (p : ProviderEffectReceipt)
    (now : Z) : M (session db) SideEffectReceiptV1 :=
  let! h := of_result (canonical_sha256 (JObj (pr_result_metadata p))) in
  let! effective_at := to_utc (pr_effective_at p) in
  let x := mkReceipt (intent_id i) (effect_id i) (i_edict_id i) (i_memorial_id i) (au_attempt_id authority)
             (au_owner_id authority) (au_fencing_token authority) (pr_provider_receipt_id p)
             (pr_result_metadata p) h (i_version i + 1) effective_at now in
  guard (receipt_valid redact_text x) ValueError "SideEffectReceiptV1 validation failed" ;;;
  ret x.
Definition record_provider_receipt (authority : AttemptAuthority) (i : SideEffectIntentV1)
    (p : ProviderEffectReceipt) : M (session db) SideEffectReceiptV1 :=
  let! now := now_utc (reading 2) in
  let! x := provider_receipt authority i p now in
  record_receipt redact_text x (i_version i).

(** ** [_suspend_uncertain] *)

Definition uncertain_arguments (i : SideEffectIntentV1) : list (string * json) :=
  [("intent_id", JStr (intent_id i)); ("effect_id", JStr (effect_id i)); ("request_hash", JStr (request_hash i));
   ("semantics", JStr (semantics_value (semantics i)))].
Definition uncertain_command (i : SideEffectIntentV1) (expires_at : Z) : RequestDecisionCommand :=
  mkRequestCommand K_TOOL (i_edict_id i) (i_memorial_id i) ("side-effect:" +:+ intent_id i)
    [("schema_version", JInt 1); ("tool_name", JStr (boundary i +:+ ":" +:+ operation i));
     ("arguments", JObj (uncertain_arguments i)); ("tool_tier", JStr "uncertain");
     ("policy_rule_id", JStr "managed_side_effect_unsupported")]
    expires_at.

(** The run state must be the expected one, executing, with nothing pending. *)
Definition suspendable (current : option RunStateV1) (run_state : RunStateV1) : M db (RunStateV1 * AgentContinuationV1) :=
  match current with
  | None => raise SideEffectConflict "side-effect RunState changed before suspension"
  | Some c =>
      guard (states_equal c run_state) SideEffectConflict "side-effect RunState changed before suspension" ;;;
      match rs_continuation c with
      | Agent a =>
          guard (bool_decide (rs_phase c = P_EXECUTING) && is_none (ac_pending_decision_id a) &&
                 is_none (ac_pending_tool a)) SideEffectConflict "side-effect RunState cannot be suspended" ;;;
          ret (c, a)
      | OuterLoop _ => raise SideEffectConflict "side-effect RunState cannot be suspended"
      end
  end.
Definition suspended_continuation (a : AgentContinuationV1) (p : ToolProposalV1) (decision : string) : AgentContinuationV1 :=
  mkAgent (ac_messages a) (Some p) (ac_iteration a) (ac_usage a) (ac_checkpoint_ref a) (Some decision) None
    (ac_side_effect_cursor a) (ac_plan_ref a) (ac_plan_hash a) (ac_plan_revision_id a) (ac_plan_revisions a)
    (ac_plan_snapshot a) (ac_scheduled_event_id a) (ac_scheduled_event_hash a).
(** [ToolProposalV1(...)], validated *)
Definition uncertain_proposal (i : SideEffectIntentV1) (proposed_at : Z) : M db ToolProposalV1 :=
  let! h := of_result (canonical_sha256 (JObj (uncertain_arguments i))) in
  let p := mkProposal (effect_id i) (boundary i +:+ ":" +:+ operation i) (uncertain_arguments i) h "uncertain"
             (Some "managed_side_effect_unsupported") proposed_at in
  guard (proposal_valid p) ValueError "ToolProposalV1 validation failed" ;;;
  ret p.
Definition requested_event (i : SideEffectIntentV1) (q : DecisionRequestV1) (auth : AuthContext) (now : Z) : EventEnvelope :=
  mkEvent (decision_request_id q +:+ ":decision.requested") "decision.requested" (Some (i_edict_id i))
    (Some (i_memorial_id i)) (SInt 1) now "managed-side-effect.v1"
    [("schema_version", JInt 1); ("decision_request_id", JStr (decision_request_id q));
     ("intent_id", JStr (intent_id i)); ("kind", JStr (kind_value (d_kind q)));
     ("correlation_id", JStr (a_correlation_id auth))].

Definition suspend_checks (authority : AttemptAuthority) (i : SideEffectIntentV1) (run_state : RunStateV1) (now : Z) :
    M db (RunStateV1 * AgentContinuationV1) :=
  require_current (au_attempt_id authority) (au_owner_id authority) (au_fencing_token authority) (utc_at now) ;;;
  let! current := load redact_text (i_memorial_id i) in
  suspendable current run_state.
Definition suspend_writes (authority : AttemptAuthority) (i : SideEffectIntentV1) (c : RunStateV1)
    (a : AgentContinuationV1) (q : DecisionRequestV1) (auth : AuthContext) (now : Z) : M db unit :=
  let! p := uncertain_proposal i (d_created_at q) in
  let waiting := mkRunState (rs_memorial_id c) (rs_edict_id c) P_WAITING_DECISION
                   (Agent (suspended_continuation a p (decision_request_id q))) (rs_checkpoint_ref c)
                   (rs_side_effect_cursor c) (rs_version c) (rs_created_at c) now in
  compare_and_swap redact_text waiting (rs_version c) ;;;
  mark_uncertain_current redact_text (intent_id i) (au_attempt_id authority) (au_owner_id authority)
    (au_fencing_token authority) (i_version i) ("unsupported_" +:+ semantics_value (semantics i))
    (decision_request_id q) (utc_at now) ;;;
  observe "before_decision_outbox" ;;;
  add (requested_event i q auth now) ;;;
  observe "before_suspend_attempt" ;;;
  let! current := complete_current (au_attempt_id authority) (au_owner_id authority) (au_fencing_token authority)
    (mkOutcome D_SUSPENDED now None None) fresh in
  guard current AttemptFenceLost "attempt authority is no longer current".
Definition suspend_uncertain (authority : AttemptAuthority) (i : SideEffectIntentV1) (run_state : RunStateV1)
    (auth : AuthContext) (expires_at : datetime) : M (session db) ManagedSideEffectResult :=
  let! now := now_utc (reading 1) in
  let! expires := to_utc expires_at in
  guard (non_blank (i_edict_id i) && non_blank (i_memorial_id i) && non_blank ("side-effect:" +:+ intent_id i))
    ValueError "RequestDecisionCommand validation failed" ;;;
  with_uow
    (let! ca := on_connection (suspend_checks authority i run_state now) in
     let! q := request_in_transaction float_of lax_int parse_datetime decisions (uncertain_command i expires) auth in
     on_connection (suspend_writes authority i ca.1 ca.2 q auth now) ;;;
     uow_commit ;;;
     ret (mkManagedResult None (Some (decision_request_id q)) true false)).

(** ** [execute] *)

Section execute.
Context {W : Type}.
Context (authority : AttemptAuthority) (intent : SideEffectIntentV1) (b : ManagedSideEffectBoundary W).
Context (run_state : option RunStateV1) (auth : option AuthContext) (expires_at : option datetime).

(** The provider's receipt: an earlier one when it can be looked up, else that
    of an invocation. *)
Definition obtain_receipt (durable : SideEffectIntentV1) : M (managed W) (ProviderEffectReceipt * bool) :=
  let! found :=
    if bool_decide (semantics durable = RECEIPT_LOOKUP) then
      match provider_idempotency_key durable with
      | None => raise AssertionError ""
      | Some key => lookup_receipt b key
      end
    else ret None in
  match found with
  | Some p => ret (p, true)
  | None => let! p := invoke b durable in observe "after_provider" ;;; ret (p, false)
  end.
(** From [self._require_current] on. *)
Definition perform (durable : SideEffectIntentV1) : M (managed W) ManagedSideEffectResult :=
  let! now := now_utc (reading 1) in
  on_store (require_current_now authority now) ;;;
  let! obtained := obtain_receipt durable in
  let! x := on_store (record_provider_receipt authority durable obtained.1) in
  observe "after_receipt" ;;;
  ret (mkManagedResult (Some x) None false obtained.2).

(** After [_begin_or_recover]. *)
Definition execute_durable (durable : SideEffectIntentV1) : M (managed W) ManagedSideEffectResult :=
  match i_status durable with
  | RECEIPTED =>
      let! receipt := on_store (load_receipt redact_text (intent_id durable)) in
      match receipt with
      | None => raise SideEffectConflict "receipted intent has no durable receipt"
      | Some x => ret (mkManagedResult (Some x) None false true)
      end
  | UNCERTAIN =>
      let! decision_id := on_store (uncertainty_decision_id (intent_id durable)) in
      match decision_id with
      | None => raise SideEffectConflict "uncertain intent has no durable decision"
      | Some q => ret (mkManagedResult None (Some q) true false)
      end
  | INTENDED =>
      observe "after_intent" ;;;
      if negb (supported_semantics (semantics intent)) then
        match run_state, auth, expires_at with
        | Some s, Some a, Some e => on_store (suspend_uncertain authority durable s a e)
        | _, _, _ => raise AssertionError ""
        end
      else perform durable
  end.

Definition execute : M (managed W) ManagedSideEffectResult :=
  validate_boundary intent b ;;;
  (if negb (supported_semantics (semantics intent))
   then validate_uncertainty_inputs intent run_state auth expires_at else ret tt) ;;;
  let! durable := on_store (begin_or_recover authority intent) in
  execute_durable durable.
End execute.
End service.

(** ** Growing databases *)

(** The journal as it was, over tables that lost nothing its rows refer to. *)
Record grown (d d' : db) : Prop := {
  gr_journal : side_effect_journal d' = side_effect_journal d;
  gr_edicts k : is_Some (edicts d !! k) → is_Some (edicts d' !! k);
  gr_memorials k : is_Some (memorials d !! k) → is_Some (memorials d' !! k);
  gr_attempts k : is_Some (execution_attempts d !! k) → is_Some (execution_attempts d' !! k);
  gr_decisions k : is_Some (decision_requests d !! k) → is_Some (decision_requests d' !! k);
}.

Lemma grown_refl d : grown d d.
Proof. by split. Qed.
Lemma grown_trans d1 d2 d3 : grown d1 d2 → grown d2 d3 → grown d1 d3.
Proof. intros [J1 E1 M1 A1 D1] [J2 E2 M2 A2 D2]. split; [congruence|auto..]. Qed.

Lemma is_some_grown {A B} (o : option A) (o' : option B) : (is_Some o → is_Some o') → is_some o = true → is_some o' = true.
Proof. rewrite !is_some_true. auto. Qed.

Lemma row_check_grown d d' r : grown d d' → journal_row_check d r = true → journal_row_check d' r = true.
Proof.
  intros [_ He Hm Ha Hd] H. unfold journal_row_check, has_edict, has_memorial in *.
  rewrite !andb_true_iff in H |- *. destruct H as [[[[[[[[[[[[[[H1 H2] H3] H4] H5] H6] H7] H8] H9] H10] H11] H12] H13] H14] H15].
  repeat split; first [assumption | exact (is_some_grown _ _ (He _) H3) | exact (is_some_grown _ _ (Hm _) H4)
                      | exact (is_some_grown _ _ (Ha _) H5) | idtac].
  revert H15. destruct (i_status (j_intent r)); intros H15; [exact H15| |].
  - apply andb_true_iff in H15 as [H15 Hj]. apply andb_true_iff. split; [done|].
    destruct (j_receipt r) as [c|]; [|done]. rewrite !andb_true_iff in Hj |- *.
    destruct Hj as [[[[K1 K2] K3] K4] K5]. repeat split; first [assumption | exact (is_some_grown _ _ (Ha _) K1)].
  - apply andb_true_iff in H15 as [H15 Hj]. apply andb_true_iff. split; [|done].
    revert H15. destruct (i_reason_code _), (j_uncertainty_decision_id r); try done. intros H15.
    apply andb_true_iff in H15 as [K1 K2]. apply andb_true_iff. split; [done|]. exact (is_some_grown _ _ (Hd _) K2).
Qed.

Lemma journal_inv_grown redact_text d d' : grown d d' → journal_inv redact_text d → journal_inv redact_text d'.
Proof.
  intros G [K C V R U]. pose proof (gr_journal _ _ G) as Hj.
  split; rewrite ?Hj; [exact K| |exact V|exact R|exact U].
  intros k r Hk. exact (row_check_grown d d' r G (C k r Hk)).
Qed.

(** ** Beginning *)

Section spec.
Context (redact_text : string → string) (float_of : string → pyfloat) (lax_int : pyfloat → option Z)
        (parse_datetime : string → option datetime).

Definition held_by (d : db) (authority : AttemptAuthority) : Prop :=
  current d (au_attempt_id authority) (au_owner_id authority) (au_fencing_token authority).

(** The intent of a position that a call works on, in the database [d'] it
    leaves: stored, of the same business, and changed or open only under an
    authority that holds its attempt. *)
Record begun (authority : AttemptAuthority) (requested i : SideEffectIntentV1) (d d' : db) : Prop := {
  bg_inv : journal_inv redact_text d';
  bg_le : journal_le d d';
  bg_row : ∃ r, side_effect_journal d' !! intent_id i = Some r ∧ j_intent r = i;
  bg_same : same_business_intent i requested = true;
  bg_created : (i = requested ∧ ∃ row, d' = with_journal (intent_id i) row d) ∨ d' = d;
  bg_idle : d' = d ∨ i_status i = INTENDED;
  bg_held : i_status i = INTENDED → held_by d authority;
}.

Lemma same_business_refl i : same_business_intent i i = true.
Proof. unfold same_business_intent. rewrite !andb_true_iff, !bool_decide_eq_true, Z.eqb_eq. by repeat split. Qed.

Lemma load_position_inv d m n o d' :
  journal_inv redact_text d → load_by_position_current redact_text m n d = (Ok o, d') →
  d' = d ∧ match o with
           | Some i => ∃ r, side_effect_journal d !! intent_id i = Some r ∧ j_intent r = i
           | None => ∀ k r, side_effect_journal d !! k = Some r → i_memorial_id (j_intent r) = m → sequence_no (j_intent r) ≠ n
           end.
Proof.
  intros Hi H. unfold load_by_position_current in H. rewrite bind_sql_select in H.
  destruct (head _) as [r|] eqn:Hh; cbn [decode_first] in H.
  2:{ apply ret_Ok_inv in H as [-> ->]. split; [done|]. intros k r Hk Hm Hn. apply head_None in Hh.
      assert (Hin : r ∈ where_rows (λ r, bool_decide (i_memorial_id (j_intent r) = m) && (sequence_no (j_intent r) =? n))
        (side_effect_journal d)).
      { apply elem_of_where_rows. split; [|by exists k]. rewrite bool_decide_eq_true_2 by done. by apply Z.eqb_eq. }
      cbn in Hh. rewrite Hh in Hin. set_solver. }
  apply head_Some_elem_of in Hh. apply elem_of_where_rows in Hh as [_ [k Hk]].
  rewrite (bind_Ok _ _ _ _ _ (decode_intent_eq redact_text d k r Hi Hk)) in H. apply ret_Ok_inv in H as [-> ->].
  split; [done|]. exists r. by rewrite (ji_keyed _ d Hi _ _ Hk).
Qed.

Lemma reconciliation_held o id owner token now d u d' :
  require_reconciliation_authority_current o id owner token now d = (Ok u, d') → d' = d ∧ current d id owner token.
Proof.
  unfold require_reconciliation_authority_current. intros H.
  apply bind_Ok_inv in H as (u1 & d1 & (-> & t & _ & Hr)%require_current_Ok_inv & H). rewrite !bind_sql_get in H.
  destruct (tbl d !! i_attempt_id o) as [ro|], (tbl d !! id) as [rc|]; try done.
  step_M H. rewrite bind_sql_select in H. step_M H. split; [done|]. by exists t.
Qed.

Lemma begin_body_inv authority requested now d i d' :
  journal_inv redact_text d → intent_valid redact_text requested = true →
  au_attempt_id authority = i_attempt_id requested → au_owner_id authority = i_owner_id requested →
  au_fencing_token authority = i_fencing_token requested →
  begin_or_recover_body redact_text authority requested now d = (Ok i, d') → begun authority requested i d d'.
Proof.
  intros Hi Hv Ha Ho Ht H. unfold begin_or_recover_body in H.
  apply bind_Ok_inv in H as (o & d1 & [-> Hrow]%load_position_inv & H); [|done].
  assert (Hle : journal_le d d) by (intros k r Hk; exists r; split; [done|apply same_intent_refl]).
  destruct o as [existing|].
  - step_M H. rename E into Hsame. apply bind_Ok_inv in H as (u1 & d1 & Hr & H). apply ret_Ok_inv in H as [-> ->].
    destruct (bool_decide_reflect (i_status existing = INTENDED)) as [Hs|Hs]; cbn [orb] in Hr.
    + apply reconciliation_held in Hr as [-> Hc]. split; auto.
    + assert (d1 = d) as -> by (destruct (negb _); [by apply reconciliation_held in Hr as [-> _]|by run_M Hr]).
      split; auto. done.
  - pose proof (exec_journal_ok redact_text (JBegin requested) d Hi Hv) as [Hi' _].
    pose proof (journal_step_ok redact_text d _ Hi (ex_intro _ (JBegin requested) (conj Hv eq_refl))) as [_ Hle'].
    cbn [exec_journal] in Hi', Hle'. rewrite (atomically_Ok _ _ _ _ H) in Hi', Hle'. cbn in Hi', Hle'.
    apply begin_Ok_inv in H as (Hs & Hn & [[_ (k & r & Hk & He)]|(c & Hnone & -> & -> & _ & _ & Hc)]).
    { exfalso. unfold intents_equal in He. apply andb_true_iff in He as [_ He%bool_decide_eq_true].
      apply (Hrow k r Hk); by rewrite He. }
    split; [done|done| |apply same_business_refl|left; eauto|by right|].
    + exists (fresh_row requested c). split; [apply lookup_insert_eq|by apply (fresh_row_intent redact_text)].
    + intros _. unfold held_by. by rewrite Ha, Ho, Ht.
Qed.

Context (reading : nat → datetime) (decisions : env) (boundary_hook : string → option exn) (fresh : string).

(** The reading [v], if it has a time zone, is not before the instant [t]. *)
Definition not_before (v : datetime) (t : Z) : Prop := ∀ off, utcoffset v = Some off → t ≤ wall v - off.
Lemma now_utc_Ok_inv {S} v (s : S) t s' : now_utc v s = (Ok t, s') → s' = s ∧ ∃ off, utcoffset v = Some off ∧ t = wall v - off.
Proof.
  unfold now_utc. destruct (utcoffset v) as [off|]; [|done]. intros (-> & -> & _)%checked_instant_Ok_inv. eauto.
Qed.
Lemma reads_now_utc {S} t : reads (S := S) (now_utc t).
Proof. intros s. unfold now_utc. destruct (utcoffset t); [|done]. unfold checked_instant. by destruct (representable _). Qed.

Lemma begin_settles authority requested s :
  quiescent s = true → journal_inv redact_text (committed s) → intent_valid redact_text requested = true →
  settles s (begun authority requested) (begin_or_recover redact_text reading authority requested s).
Proof.
  intros Hq Hi Hv. unfold begin_or_recover, require_authority_matches_requested.
  apply settles_guarded; [done|apply reads_guard|]. intros u Hu. apply guard_Ok_inv in Hu as [Hu _]. bools.
  apply settles_guarded; [done|apply reads_now_utc|]. intros now _.
  apply settles_uow; [done|]. intros i d' Hb. by eapply begin_body_inv.
Qed.

Lemma require_settles authority now s :
  quiescent s = true →
  settles s (λ _ d d', d' = d ∧ held_by d authority) (require_current_now authority now s).
Proof.
  intros Hq. apply settles_uow; [done|]. intros u d' (-> & t & _ & Hr)%require_current_held. split; [done|]. by exists t.
Qed.

(** ** Receipts *)

Lemma journal_le_put d k r r' :
  side_effect_journal d !! k = Some r → same_intent r r' → journal_le d (with_journal k r' d).
Proof.
  intros Hk Hs k' x Hx. destruct (decide (k' = k)) as [->|Hne].
  - exists r'. split; [apply lookup_insert_eq|]. by simplify_eq.
  - exists x. split; [|apply same_intent_refl]. cbn. by rewrite lookup_insert_ne.
Qed.

(** The journal holds the receipt [y] for the intent [i]. *)
Definition receipted (d : db) (i : SideEffectIntentV1) (y : SideEffectReceiptV1) : Prop :=
  ∃ r c, side_effect_journal d !! intent_id i = Some r ∧ same_business_intent (j_intent r) i = true ∧
    i_status (j_intent r) = RECEIPTED ∧ j_receipt r = Some c ∧ y = receipt_of (j_intent r) c.
(** The journal holds the intent [i] as uncertain, under the decision [q]. *)
Definition uncertain (d : db) (i : SideEffectIntentV1) (q : string) : Prop :=
  ∃ r, side_effect_journal d !! intent_id i = Some r ∧ same_business_intent (j_intent r) i = true ∧
    i_status (j_intent r) = UNCERTAIN ∧ j_uncertainty_decision_id r = Some q.

Lemma same_business_set st reason t i : same_business_intent (set_intent st reason t i) i = true.
Proof. unfold same_business_intent. rewrite !andb_true_iff, !bool_decide_eq_true, Z.eqb_eq. by repeat split. Qed.

Lemma record_settles authority i p s r :
  quiescent s = true → journal_inv redact_text (committed s) →
  side_effect_journal (committed s) !! intent_id i = Some r → j_intent r = i → i_status i = INTENDED →
  not_before (reading 2) (i_created_at i) →
  settles s (λ y d d', journal_inv redact_text d' ∧ journal_le d d' ∧ receipted d' i y ∧
      provider_receipt_id y = pr_provider_receipt_id p ∧ result_metadata y = pr_result_metadata p)
    (record_provider_receipt redact_text reading authority i p s).
Proof.
  intros Hq Hi Hr Hj Hs Ht. unfold record_provider_receipt.
  apply settles_guarded; [done|apply reads_now_utc|]. intros now Hnow.
  assert (Hnow' : i_created_at i ≤ now).
  { apply now_utc_Ok_inv in Hnow as (_ & off & Ho & ->). by apply Ht. }
  apply settles_guarded; [done| |].
  { unfold provider_receipt. apply reads_bind; [apply reads_of_result|]. intros h.
    apply reads_bind; [apply reads_to_utc|]. intros e. auto with py. }
  intros x Hx. unfold provider_receipt in Hx. step_M Hx. step_M Hx. step_M Hx. apply ret_Ok_inv in Hx as [-> _].
  apply settles_uow; [done|]. intros y d' H. match type of H with record_receipt_current _ ?x0 _ _ = _ => set (x := x0) in * end.
  assert (Hok : journal_op_ok redact_text (committed s) (JReceipt x (i_version i))).
  { intros r' Hr'. cbn in Hr'. rewrite Hr in Hr'. injection Hr' as <-. by rewrite Hj. }
  pose proof (exec_journal_ok redact_text _ _ Hi Hok) as [Hi' _]. cbn [exec_journal] in Hi'.
  rewrite (atomically_Ok _ _ _ _ H) in Hi'. split; [exact Hi'|].
  apply record_Ok_inv in H as [[_ (r' & Hr' & Hs')]|(r' & Hr' & _ & Hy & _ & _ & _ & _ & _ & -> & _ & _ & _)]; [| |done];
    cbn in Hr'; rewrite Hr in Hr'; injection Hr' as <-; [congruence|].
  split; [|split; [|by subst y]].
  - eapply journal_le_put; [exact Hr|]. apply edge_same_intent, edge_receipt. by rewrite Hj.
  - eexists _, _. split; [apply lookup_insert_eq|]. rewrite <-Hj. split; [apply same_business_set|]. done.
Qed.

(** ** Suspension *)

(** A computation that leaves the unit of work of its caller open. *)
Definition stays {A} (m : M (session db) A) : Prop := ∀ s w, ∃ w', (m (active s w)).2 = active s w'.

Lemma stays_reads {A} (m : M (session db) A) : reads m → stays m.
Proof. intros H s w. exists w. apply H. Qed.
Lemma stays_on_connection {A} (m : M db A) : stays (on_connection m).
Proof. intros s w. rewrite on_connection_active. destruct (m w) as [r w']. by exists w'. Qed.
Lemma stays_bind {A B} (m : M (session db) A) (k : A → M (session db) B) :
  stays m → (∀ a, stays (k a)) → stays (bind m k).
Proof.
  intros Hm Hk s w. unfold bind. destruct (Hm s w) as [w' H]. destruct (m (active s w)) as [[a|e] st]; cbn in H; subst st.
  - apply Hk.
  - by exists w'.
Qed.
Lemma stays_try {A} (m : M (session db) A) c h : stays m → (∀ e, stays (h e)) → stays (try_except m c h).
Proof.
  intros Hm Hh s w. unfold try_except. destruct (Hm s w) as [w' H]. destruct (m (active s w)) as [[a|e] st]; cbn in H; subst st.
  - by exists w'.
  - destruct (subclass _ _); [apply Hh|by exists w'].
Qed.

Lemma reads_service_utc {S} v : reads (service_utc (S := S) v).
Proof. unfold service_utc, checked_instant. destruct (utcoffset v); auto with py. Qed.
Lemma reads_new_request e command auth now : reads (new_request e command auth now).
Proof. unfold new_request. repeat first [apply reads_of_result | solve [auto with py] | apply reads_bind; [|intros ?]]. Qed.

Lemma stays_request e command auth : stays (request_in_transaction float_of lax_int parse_datetime e command auth).
Proof.
  unfold request_in_transaction. apply stays_bind; [apply stays_reads, reads_service_utc|]. intros now.
  apply stays_bind; [apply stays_reads, reads_new_request|]. intros q.
  apply stays_try; [apply stays_on_connection|]. intros x.
  apply stays_bind; [apply stays_on_connection|]. intros u. apply stays_reads. auto with py.
Qed.

(** What the decision service was asked to store. *)
Definition asked (q : DecisionRequestV1) (command : RequestDecisionCommand) : Prop :=
  decision_valid q = true ∧ d_memorial_id q = rc_memorial_id command ∧ d_edict_id q = rc_edict_id command ∧
  d_kind q = rc_kind command ∧ request_key q = rc_request_key command ∧ d_payload q = rc_payload command ∧
  d_expires_at q = rc_expires_at command ∧ d_status q = PENDING.

Lemma request_Ok_inv e command auth s w q st :
  request_in_transaction float_of lax_int parse_datetime e command auth (active s w) = (Ok q, st) →
  ∃ q0 w', st = active s w' ∧ asked q0 command ∧ add_or_get q0 (Some (a_correlation_id auth)) w = (Ok q, w').
Proof.
  intros H. unfold request_in_transaction in H. apply bind_Ok_inv in H as (now & s1 & Hn & H).
  pose proof (reads_service_utc (clock e) (active s w)) as Hr. rewrite Hn in Hr. cbn in Hr. subst s1.
  apply bind_Ok_inv in H as (q0 & s1 & Hq & H).
  pose proof (reads_new_request e command auth now (active s w)) as Hr. rewrite Hq in Hr. cbn in Hr. subst s1.
  unfold try_except in H. rewrite on_connection_active in H.
  destruct (add_or_get q0 _ w) as [[q1|x] w'] eqn:Ha.
  - simplify_eq. exists q0, w'. split; [done|]. split; [|done]. unfold new_request in Hq. step_M Hq. step_M Hq. step_M Hq.
    apply ret_Ok_inv in Hq as [-> _]. by repeat split.
  - destruct (subclass _ _); [|done]. by apply bind_Ok_inv in H as (u & s2 & _ & H).
Qed.

(** The state in which the run waits for the decision. *)
Definition waiting_state (c : RunStateV1) (a : AgentContinuationV1) (p : ToolProposalV1) (q : string) (now : Z) : RunStateV1 :=
  mkRunState (rs_memorial_id c) (rs_edict_id c) P_WAITING_DECISION (Agent (suspended_continuation a p q))
    (rs_checkpoint_ref c) (rs_side_effect_cursor c) (rs_version c) (rs_created_at c) now.

Definition unsupported (i : SideEffectIntentV1) : string := "unsupported_" +:+ semantics_value (semantics i).
(** What follows the mark in the transaction leaves the journal alone. *)
Definition settled_after (k : string) (v : attempt_row) (e : string) (o : outbox_row) (w : db) : db :=
  set_execution_attempts (<[k := v]> (execution_attempts w)) (with_outbox e o w).
(** The steps of a successful suspension, from [d] to [d']. *)
Record suspension (authority : AttemptAuthority) (i : SideEffectIntentV1) (run_state : RunStateV1) (auth : AuthContext)
    (expires now : Z) (d d' : db) (q : DecisionRequestV1) : Prop := {
  su_held : held_by d authority;
  su_steps : ∃ c a q0 w1 p x w2 r b corr ra,
    load redact_text (i_memorial_id i) d = (Ok (Some c), d) ∧ states_equal c run_state = true ∧
    rs_continuation c = Agent a ∧ rs_phase c = P_EXECUTING ∧ ac_pending_decision_id a = None ∧ ac_pending_tool a = None ∧
    asked q0 (uncertain_command i expires) ∧ add_or_get q0 (Some (a_correlation_id auth)) d = (Ok q, w1) ∧
    tp_tool_call_id p = effect_id i ∧ tp_arguments p = uncertain_arguments i ∧
    compare_and_swap redact_text (waiting_state c a p (decision_request_id q) now) (rs_version c) w1 = (Ok x, w2) ∧
    side_effect_journal w2 !! intent_id i = Some r ∧
    outbox_events w2 !! e_event_id (requested_event i q auth now) = None ∧
    execution_attempts w2 !! au_attempt_id authority = Some ra ∧
    d' = settled_after (au_attempt_id authority)
           (update_lease (finished (at_lease ra) (mkOutcome D_SUSPENDED now None None)) ra)
           (e_event_id (requested_event i q auth now)) (added_row (requested_event i q auth now) b corr)
           (with_journal (intent_id i) (set_uncertain (unsupported i) (decision_request_id q) now r) w2);
}.

Lemma add_or_get_grown q c d x d' : add_or_get q c d = (Ok x, d') → grown d d'.
Proof.
  assert (Hread : ∀ m : M db DecisionRequestV1, reads m → ∀ d x d', m d = (Ok x, d') → grown d d').
  { intros m Hm d0 x0 d0' H. specialize (Hm d0). rewrite H in Hm. cbn in Hm. subst. apply grown_refl. }
  assert (Hreplay : ∀ r, reads (replay q r)).
  { intros r. unfold replay. apply reads_bind; [apply reads_decode_record|]. intros y. by destruct (bool_decide _). }
  intros H. unfold add_or_get in H. step_M H.
  apply bind_Ok_inv in H as (u1 & d1 & (-> & _)%decision_binding_Ok_inv & H).
  apply bind_Ok_inv in H as (cid & d1 & (-> & _)%correlation_Ok_inv & H).
  destruct (find_identity_spec d q) as (o & Ho & _). rewrite (bind_Ok _ _ _ _ _ Ho) in H.
  destruct o as [r|]; [by eapply Hread|].
  step_M H. apply of_result_Ok_inv in E0 as [_ ->]. unfold try_except, bind in H.
  destruct (sql_insert _ _ d) as [[u2|e] d1] eqn:Hins.
  - apply ret_Ok_inv in H as [_ ->]. apply sql_insert_Ok_inv in Hins as (_ & _ & _ & ->). split; [done..|].
    intros k Hk. cbn. destruct (decide (k = decision_request_id q)) as [->|]; [by rewrite lookup_insert_eq; eexists|].
    by rewrite lookup_insert_ne.
  - assert (d1 = d) as ->.
    { pose proof (sql_insert_state (decision_request_id q) (mkDecisionRow q (Some cid)) d) as [Hs|Hs]; rewrite Hins in Hs; done. }
    destruct (subclass _ _); [|done]. rewrite Ho in H. done.
Qed.

Lemma keeps_swap {T} (part : db → T) st v :
  (∀ t d, part (set_run_states t d) = part d) → keeps part (compare_and_swap redact_text st v).
Proof.
  intros Hp. unfold compare_and_swap, write_state, require_successor, require_memorial_binding.
  repeat first [apply keeps_load | apply keeps_sql_update; exact Hp | solve [auto with py]
               | apply keeps_bind; [|intros ?] | case_match].
Qed.
(** The tables a swap of a run state leaves alone. *)
Definition other_tables (d : db) :=
  (edicts d, memorials d, execution_attempts d, decision_requests d, decision_resolutions d, side_effect_journal d,
   outbox_events d).
Lemma swap_others st v d r d' : compare_and_swap redact_text st v d = (r, d') → other_tables d' = other_tables d.
Proof. apply (keeps_Ok other_tables), keeps_swap. done. Qed.

Lemma observe_Ok_inv {S} b (s : S) u s' : observe boundary_hook b s = (Ok u, s') → s' = s.
Proof. unfold observe. destruct (boundary_hook b); [done|]. by intros [= _ ->]. Qed.

Lemma checks_Ok_inv authority i run_state now d ca d' :
  suspend_checks redact_text authority i run_state now d = (Ok ca, d') →
  d' = d ∧ held_by d authority ∧ load redact_text (i_memorial_id i) d = (Ok (Some ca.1), d) ∧
  states_equal ca.1 run_state = true ∧ rs_continuation ca.1 = Agent ca.2 ∧ rs_phase ca.1 = P_EXECUTING ∧
  ac_pending_decision_id ca.2 = None ∧ ac_pending_tool ca.2 = None.
Proof.
  unfold suspend_checks. intros H.
  apply bind_Ok_inv in H as (u & d1 & (-> & t & _ & Hr)%require_current_held & H).
  apply bind_Ok_inv in H as (o & d1 & Hl & H).
  assert (d1 = d) as -> by (pose proof (keeps_load redact_text id (i_memorial_id i) d) as Hk; by rewrite Hl in Hk).
  unfold suspendable in H. destruct o as [c|]; [|done]. step_M H. destruct (rs_continuation c) as [a|] eqn:Hc; [|done].
  step_M H. apply ret_Ok_inv in H as [-> ->]. bools. cbn.
  repeat match goal with H : is_none ?o = true |- _ => destruct o; [done|clear H] end.
  split; [done|]. split; [by exists t|]. done.
Qed.

Lemma grown_tables d d' : other_tables d' = other_tables d → grown d d'.
Proof. unfold other_tables. intros [= He Hm Ha Hd _ Hj _]. split; [done|..]; intros k; congruence. Qed.

Lemma settled_after_grown k v e o w : grown w (settled_after k v e o w).
Proof.
  split; [done..| |done]. intros j Hj. unfold settled_after. cbn.
  destruct (decide (j = k)) as [->|]; [by rewrite lookup_insert_eq; eexists|by rewrite lookup_insert_ne].
Qed.
Lemma marked_uncertain d w k r reason q now a v e o :
  journal_inv redact_text d → grown d w → side_effect_journal d !! k = Some r → i_status (j_intent r) = INTENDED →
  intent_id (j_intent r) = k →
  let row := set_uncertain reason q now r in
  journal_row_check w row = true → unique_ok (side_effect_journal w) k row = true →
  intent_valid redact_text (j_intent row) = true →
  let d' := settled_after a v e o (with_journal k row w) in
  journal_inv redact_text d' ∧ journal_le d d' ∧ uncertain d' (j_intent r) q.
Proof.
  intros Hi Hg Hr Hs Hk row Hck Huq Hval d'. pose proof (gr_journal _ _ Hg) as Hj. split; [|split].
  - apply (journal_inv_grown _ (with_journal k row w)); [apply settled_after_grown|].
    apply journal_put_inv; [by eapply journal_inv_grown|exact Hk|exact Hck|exact Huq|exact Hval|].
    intros c Hst. discriminate Hst.
  - intros x y Hy. change (side_effect_journal d') with (<[k := row]> (side_effect_journal w)). rewrite Hj.
    apply (journal_le_put d k r row Hr); [|done]. by apply edge_same_intent, edge_uncertain.
  - exists row. change (side_effect_journal d') with (<[k := row]> (side_effect_journal w)). rewrite Hk.
    split; [apply lookup_insert_eq|]. split; [apply same_business_set|]. done.
Qed.

Lemma proposal_Ok_inv i t d p d' :
  uncertain_proposal i t d = (Ok p, d') →
  d' = d ∧ tp_tool_call_id p = effect_id i ∧ tp_arguments p = uncertain_arguments i.
Proof.
  unfold uncertain_proposal. generalize (canonical_sha256 (JObj (uncertain_arguments i))). intros [h|e]; [|done].
  unfold of_result. intros H. step_M H. apply ret_Ok_inv in E as [-> ->].
  apply bind_Ok_inv in H as (u & d1 & [_ ->]%guard_Ok_inv & H). by apply ret_Ok_inv in H as [-> ->].
Qed.

#[local] Opaque uncertain_proposal.
Lemma suspend_body_inv authority i run_state auth expires now d w1 q0 q ca d' :
  journal_inv redact_text d →
  side_effect_journal d !! intent_id i = Some ca.2.2 → j_intent ca.2.2 = i → i_status i = INTENDED →
  suspend_checks redact_text authority i run_state now d = (Ok (ca.1, ca.2.1), d) →
  asked q0 (uncertain_command i expires) → add_or_get q0 (Some (a_correlation_id auth)) d = (Ok q, w1) →
  suspend_writes redact_text boundary_hook fresh authority i ca.1 ca.2.1 q auth now w1 = (Ok tt, d') →
  suspension authority i run_state auth expires now d d' q ∧ journal_inv redact_text d' ∧ journal_le d d' ∧
  uncertain d' i (decision_request_id q).
Proof.
  intros Hi Hr Hj Hs (_ & Hheld & Hl & He & Hc & Hp & Hpd & Hpt)%checks_Ok_inv Hask Hadd H.
  destruct ca as (c & a & r). cbn [fst snd] in *. pose proof (add_or_get_grown _ _ _ _ _ Hadd) as Hg1.
  unfold suspend_writes in H. step_M H. rename E into Hprop, a0 into p.
  apply proposal_Ok_inv in Hprop as Hpf.
  destruct Hpf as (-> & Hp1 & Hp2). apply bind_Ok_inv in H as (x & w2 & Hcas & H). fold (waiting_state c a p (decision_request_id q) now) in Hcas.
  pose proof (swap_others _ _ _ _ _ Hcas) as Ho. pose proof (grown_trans _ _ _ Hg1 (grown_tables _ _ Ho)) as Hg2.
  pose proof (journal_inv_grown _ _ _ Hg2 Hi) as Hi2. pose proof (gr_journal _ _ Hg2) as Hj2.
  apply bind_Ok_inv in H as (j & w3 & Hmark & H).
  apply mark_Ok_inv in Hmark as [[_ (r' & Hr' & Hs')]|(r' & t & Hr' & _ & Ht & -> & Hval & -> & Hck & Huq & _)]; [| |done];
    rewrite Hj2, Hr in Hr'; injection Hr' as <-; [congruence|].
  assert (t = now) as ->. { unfold to_utc, utc_at in Ht. cbn in Ht. apply checked_instant_Ok_inv in Ht as (-> & _). lia. }
  step_M H. apply observe_Ok_inv in E as ->. apply bind_Ok_inv in H as (u1 & w4 & Hout & H).
  apply add_row in Hout as (b & corr & _ & Hnone & _ & ->). step_M H. apply observe_Ok_inv in E as ->.
  apply bind_Ok_inv in H as (ok & w5 & Hcc & H). apply guard_Ok_inv in H as [-> ->].
  apply complete_current_settled_inv in Hcc as (ra & Hra & _ & ->); [|done|done].
  change (execution_attempts w2 !! au_attempt_id authority = Some ra) in Hra.
  change (outbox_events w2 !! e_event_id (requested_event i q auth now) = None) in Hnone.
  fold (unsupported i) in *. rewrite <-Hj in Hs.
  pose proof (λ a v e o, marked_uncertain d w2 (intent_id i) r (unsupported i) (decision_request_id q) now a v e o Hi Hg2 Hr Hs
    ltac:(by rewrite Hj) Hck Huq Hval) as Hfin. rewrite Hj in Hfin.
  split; [|by apply Hfin]. split; [done|]. exists c, a, q0, w1, p, x, w2, r, b, corr, ra.
  split_and!; try done. by rewrite Hj2.
Qed.

(** What a suspension leaves behind. *)
Definition suspended (authority : AttemptAuthority) (i : SideEffectIntentV1) (run_state : RunStateV1) (auth : AuthContext)
    (res : ManagedSideEffectResult) (d d' : db) : Prop :=
  ∃ q expires now, res = mkManagedResult None (Some (decision_request_id q)) true false ∧
    suspension authority i run_state auth expires now d d' q ∧ journal_inv redact_text d' ∧ journal_le d d' ∧
    uncertain d' i (decision_request_id q).

Lemma settles_active_err {A} s w e (P : A → db → db → Prop) :
  quiescent s = true → settles s P (Err e, uow_exit (active s w)).
Proof. intros Hq. unfold settles. rewrite uow_exit_active. done. Qed.

Lemma suspend_settles authority i run_state auth expires_at s r :
  quiescent s = true → journal_inv redact_text (committed s) →
  side_effect_journal (committed s) !! intent_id i = Some r → j_intent r = i → i_status i = INTENDED →
  settles s (suspended authority i run_state auth)
    (suspend_uncertain redact_text float_of lax_int parse_datetime reading decisions boundary_hook fresh
       authority i run_state auth expires_at s).
Proof.
  intros Hq Hi Hr Hj Hs. unfold suspend_uncertain. apply settles_guarded; [done|apply reads_now_utc|]. intros now _.
  apply settles_guarded; [done|apply reads_to_utc|]. intros expires _.
  apply settles_guarded; [done|auto with py|]. intros u _. rewrite with_uow_active by done.
  unfold bind at 1. rewrite on_connection_active.
  destruct (suspend_checks _ _ _ _ _ (committed s)) as [[ca|e] w] eqn:Hck; [|by apply settles_active_err].
  assert (w = committed s) as -> by (by apply checks_Ok_inv in Hck as [-> _]).
  unfold bind at 1. destruct (stays_request decisions (uncertain_command i expires) auth s (committed s)) as [w1 Hw1].
  destruct (request_in_transaction _ _ _ _ _ _ _) as [[q|e] st] eqn:Hreq; cbn in Hw1; subst st; [|by apply settles_active_err].
  apply request_Ok_inv in Hreq as (q0 & w' & [= <-] & Hask & Hadd).
  unfold bind at 1. rewrite on_connection_active.
  destruct (suspend_writes _ _ _ _ _ _ _ _ _ _ w1) as [[[]|e] w2] eqn:Hw; [|by apply settles_active_err].
  unfold bind. rewrite uow_commit_active. unfold ret. unfold settles. rewrite uow_exit_committed. cbn [fst snd at_rest committed].
  split; [done|]. split; [done|]. exists q, expires, now. split; [done|].
  eapply (suspend_body_inv _ _ _ _ _ _ _ w1 q0 q (ca.1, (ca.2, r))); try done. by destruct ca.
Qed.

(** ** One call *)

Section call.
Context {W : Type}.

(** What a call does to the provider: nothing, a lookup, or one invocation,
    which for an effect with receipts follows a lookup that found none. *)
Inductive provider_step (b : ManagedSideEffectBoundary W) : W → W → list SideEffectIntentV1 → Prop :=
  | ps_idle w : provider_step b w w []
  | ps_lookup w key r w' :
      b_semantics b = RECEIPT_LOOKUP → b_lookup_receipt b key w = (r, w') → provider_step b w w' []
  | ps_invoke w i r w' :
      b_semantics b = PROVIDER_IDEMPOTENT → b_invoke b i w = (r, w') → provider_step b w w' [i]
  | ps_lookup_invoke w key w1 i r w' :
      b_semantics b = RECEIPT_LOOKUP → provider_idempotency_key i = Some key →
      b_lookup_receipt b key w = (Ok None, w1) → b_invoke b i w1 = (r, w') → provider_step b w w' [i].

(** The provider is invoked with an intent that is committed, open and of a
    supported kind, by an authority that holds its attempt. *)
Definition write_ahead (authority : AttemptAuthority) (c : SideEffectIntentV1 * db) : Prop :=
  (∃ r, side_effect_journal c.2 !! intent_id c.1 = Some r ∧ j_intent r = c.1) ∧ i_status c.1 = INTENDED ∧
  supported_semantics (semantics c.1) = true ∧ held_by c.2 authority.

Record effect_run (authority : AttemptAuthority) (intent : SideEffectIntentV1) (b : ManagedSideEffectBoundary W)
    (x x' : managed W) : Prop := {
  er_quiet : quiescent (store x') = true;
  er_inv : journal_inv redact_text (committed (store x'));
  er_le : journal_le (committed (store x)) (committed (store x'));
  er_provider : ∃ js d, journal_le (committed (store x)) d ∧ provider_step b (provider x) (provider x') js ∧ calls x' = calls x ++ ((λ i, (i, d)) <$> js) ∧
    Forall (λ i, write_ahead authority (i, d) ∧ same_business_intent i intent = true) js;
  er_idle : held_by (committed (store x)) authority ∨
    committed (store x') = committed (store x) ∧ provider x' = provider x ∧ calls x' = calls x;
}.

(** A result is backed by the journal. *)
Definition evidence (d : db) (intent : SideEffectIntentV1) (res : ManagedSideEffectResult) : Prop :=
  (∃ y, mr_receipt res = Some y ∧ mr_decision_request_id res = None ∧ mr_uncertain res = false ∧ receipted d intent y) ∨
  (∃ q, mr_receipt res = None ∧ mr_decision_request_id res = Some q ∧ mr_uncertain res = true ∧ uncertain d intent q).

Definition ran (authority : AttemptAuthority) (intent : SideEffectIntentV1) (b : ManagedSideEffectBoundary W)
    (x : managed W) (out : result ManagedSideEffectResult * managed W) : Prop :=
  effect_run authority intent b x out.2 ∧
  match out.1 with Ok res => evidence (committed (store out.2)) intent res | Err _ => True end.

Lemma bind_on_store {A B} (m : M (session db) A) (k : A → M (managed W) B) x P (Q : result B * managed W → Prop) :
  settles (store x) P (m (store x)) →
  (∀ e s, quiescent s = true → committed s = committed (store x) → Q (Err e, Managed (provider x) s (calls x))) →
  (∀ a s, quiescent s = true → P a (committed (store x)) (committed s) → Q (k a (Managed (provider x) s (calls x)))) →
  Q (bind (on_store m) k x).
Proof.
  intros (Hq & _ & Hm) He Hk. unfold bind, on_store. destruct (m (store x)) as [[a|e] s]; cbn in *; auto.
Qed.
Lemma bind_guarded {A B} (m : M (managed W) A) (k : A → M (managed W) B) x (Q : result B * managed W → Prop) :
  reads m → (∀ e, Q (Err e, x)) → (∀ a, m x = (Ok a, x) → Q (k a x)) → Q (bind m k x).
Proof.
  intros Hr He Hk. specialize (Hr x). unfold bind. destruct (m x) as [[a|e] x'] eqn:E; cbn in Hr; subst; auto.
Qed.
Lemma reads_observe_hook {S} h : reads (S := S) (observe boundary_hook h).
Proof. intros s. unfold observe. by destruct (boundary_hook h). Qed.
Lemma journal_le_refl d : journal_le d d.
Proof. intros k r Hk. exists r. split; [done|apply same_intent_refl]. Qed.
Lemma journal_le_trans d1 d2 d3 : journal_le d1 d2 → journal_le d2 d3 → journal_le d1 d3.
Proof.
  intros L1 L2 k r Hk. destruct (L1 k r Hk) as (r1 & Hk1 & S1). destruct (L2 k r1 Hk1) as (r2 & Hk2 & S2).
  exists r2. split; [done|]. by eapply same_intent_trans.
Qed.

(** A call that changes nothing. *)
Lemma ran_idle authority intent b x s (out : result ManagedSideEffectResult) :
  quiescent s = true → journal_inv redact_text (committed (store x)) → committed s = committed (store x) →
  match out with Ok res => evidence (committed s) intent res | Err _ => True end →
  ran authority intent b x (out, Managed (provider x) s (calls x)).
Proof.
  intros Hq Hi Hc Ho. split; [|done]. split; cbn; rewrite ?Hc; [done|done|apply journal_le_refl| |by right].
  exists [], (committed s). rewrite Hc. split; [apply journal_le_refl|]. split; [apply ps_idle|]. by rewrite app_nil_r.
Qed.
(** A call of the holder of the attempt. *)
Lemma ran_held authority intent b x w s js d (out : result ManagedSideEffectResult) :
  quiescent s = true → journal_inv redact_text (committed s) → journal_le (committed (store x)) (committed s) →
  held_by (committed (store x)) authority → journal_le (committed (store x)) d → provider_step b (provider x) w js →
  Forall (λ i, write_ahead authority (i, d) ∧ same_business_intent i intent = true) js →
  match out with Ok res => evidence (committed s) intent res | Err _ => True end →
  ran authority intent b x (out, Managed w s (calls x ++ ((λ i, (i, d)) <$> js))).
Proof. intros Hq Hi Hle Hh Hd Hp Hf Ho. split; [|done]. split; cbn; [done..| |by left]. by exists js, d. Qed.

Lemma same_business_id i j : same_business_intent i j = true → intent_id i = intent_id j ∧ semantics i = semantics j.
Proof. unfold same_business_intent. intros H. bools. done. Qed.
Lemma same_business_trans i j k :
  same_business_intent i j = true → same_business_intent j k = true → same_business_intent i k = true.
Proof.
  unfold same_business_intent. rewrite !andb_true_iff, !bool_decide_eq_true, !Z.eqb_eq. intros H H'.
  repeat match goal with H : _ ∧ _ |- _ => destruct H end. repeat split; congruence.
Qed.
Lemma receipted_same d i j y : same_business_intent i j = true → receipted d i y → receipted d j y.
Proof.
  intros H (r & c & Hr & Hs & Hrest). destruct (same_business_id i j H) as [He _]. exists r, c. rewrite <-He. split; [done|].
  split; [by eapply same_business_trans|done].
Qed.
Lemma uncertain_same d i j q : same_business_intent i j = true → uncertain d i q → uncertain d j q.
Proof.
  intros H (r & Hr & Hs & Hrest). destruct (same_business_id i j H) as [He _]. exists r. rewrite <-He. split; [done|].
  split; [by eapply same_business_trans|done].
Qed.

(** The two ways a settled position answers. *)
Lemma load_receipt_settles s id :
  quiescent s = true →
  settles s (λ o d d', d' = d ∧ load_receipt_current redact_text id d = (Ok o, d)) (load_receipt redact_text id s).
Proof.
  intros Hq. apply settles_uow; [done|]. intros o d' H.
  assert (d' = committed s) as ->; [|done]. unfold load_receipt_current in H. rewrite bind_sql_get in H.
  destruct (tbl (committed s) !! id); [by eapply decode_receipt_state|by apply ret_Ok_inv in H as [_ ->]].
Qed.
Lemma decision_id_settles s id :
  quiescent s = true →
  settles s (λ o d d', d' = d ∧ o = side_effect_journal d !! id ≫= j_uncertainty_decision_id) (uncertainty_decision_id id s).
Proof.
  intros Hq. apply settles_uow; [done|]. intros o d' H. unfold uncertainty_decision_id_current in H.
  rewrite bind_sql_get in H. apply ret_Ok_inv in H as [-> ->]. split; [done|]. cbn. by destruct (side_effect_journal _ !! id).
Qed.

Context (authority : AttemptAuthority) (intent : SideEffectIntentV1) (b : ManagedSideEffectBoundary W).
Context (run_state : option RunStateV1) (auth : option AuthContext) (expires_at : option datetime).


(** What is known once the position is begun and its intent is open. *)
Record open_call (x : managed W) (i : SideEffectIntentV1) (s : session db) : Prop := {
  oc_quiet : quiescent s = true;
  oc_begun : begun authority intent i (committed (store x)) (committed s);
  oc_open : i_status i = INTENDED;
}.
Lemma open_stops x i s e : open_call x i s → ran authority intent b x (Err e, Managed (provider x) s (calls x)).
Proof.
  intros [Hq Hb Ho]. pose proof (ran_held authority intent b x (provider x) s [] (committed s) (Err e)) as H.
  cbn in H. rewrite app_nil_r in H. apply H; try done; [exact (bg_inv _ _ _ _ _ Hb)|exact (bg_le _ _ _ _ _ Hb)|by apply (bg_held _ _ _ _ _ Hb)|exact (bg_le _ _ _ _ _ Hb)|apply ps_idle].
Qed.

Lemma suspend_ran x i s st a e :
  open_call x i s →
  ran authority intent b x
    (on_store (suspend_uncertain redact_text float_of lax_int parse_datetime reading decisions boundary_hook fresh
                 authority i st a e) (Managed (provider x) s (calls x))).
Proof.
  intros [Hq Hb Ho]. destruct (bg_row _ _ _ _ _ Hb) as (r & Hr & Hj).
  pose proof (suspend_settles authority i st a e s r Hq (bg_inv _ _ _ _ _ Hb) Hr Hj Ho) as (Hq' & _ & Hm).
  unfold on_store. cbn [store provider calls]. destruct (suspend_uncertain _ _ _ _ _ _ _ _ _ _ _ _ _ s) as [[res|er] s']; cbn in Hq', Hm.
  - destruct Hm as (q & expires & now & -> & Hsus & Hi' & Hle' & Hun).
    pose proof (ran_held authority intent b x (provider x) s' [] (committed s')
      (Ok (mkManagedResult None (Some (decision_request_id q)) true false))) as H.
    assert (Hle : journal_le (committed (store x)) (committed s')) by (eapply journal_le_trans; [exact (bg_le _ _ _ _ _ Hb)|done]).
    cbn in H. rewrite app_nil_r in H. apply H; try done; [by apply (bg_held _ _ _ _ _ Hb)|apply ps_idle|].
    right. eexists. split; [done|]. split; [done|]. split; [done|]. eapply uncertain_same; [exact (bg_same _ _ _ _ _ Hb)|done].
  - assert (Hoc : open_call x i s') by (split; [done|by rewrite Hm|done]). exact (open_stops x i s' er Hoc).
Qed.

Lemma obtain_cases i (x : managed W) o x' :
  b_semantics b = semantics i → supported_semantics (semantics i) = true →
  obtain_receipt boundary_hook b i x = (o, x') →
  ∃ js, provider_step b (provider x) (provider x') js ∧ store x' = store x ∧
    calls x' = calls x ++ ((λ j, (j, committed (store x))) <$> js) ∧ Forall (eq i) js.
Proof.
  intros Hb Hsup H. unfold obtain_receipt in H. unfold bind at 1 in H.
  assert (Hinvoke : ∀ y, store y = store x → calls y = calls x →
    (∀ r w', b_invoke b i (provider y) = (r, w') → provider_step b (provider x) w' [i]) →
    (let! p := invoke b i in observe boundary_hook "after_provider" ;;; ret (p, false)) y = (o, x') →
    ∃ js, provider_step b (provider x) (provider x') js ∧ store x' = store x ∧
      calls x' = calls x ++ ((λ j, (j, committed (store x))) <$> js) ∧ Forall (eq i) js).
  { clear H. intros y Hs Hc Hstep H. exists [i]. unfold invoke, bind, observe, ret in H.
    destruct (b_invoke b i (provider y)) as [r w']. specialize (Hstep r w' eq_refl).
    destruct r; [destruct (boundary_hook _)|]; simplify_eq; cbn; rewrite Hs, Hc;
      (split_and!; [done|done|done|by repeat constructor]). }
  destruct (bool_decide_reflect (semantics i = RECEIPT_LOOKUP)) as [Hl|Hl].
  - destruct (provider_idempotency_key i) as [key|] eqn:Hkey.
    2:{ unfold raise in H. simplify_eq. exists []. rewrite app_nil_r. split; [apply ps_idle|done]. }
    unfold lookup_receipt in H. destruct (b_lookup_receipt b key (provider x)) as [[[p|]|e] w1] eqn:Hlk.
    + unfold ret in H. simplify_eq. exists []. rewrite app_nil_r. split; [by eapply ps_lookup; [congruence|]|done].
    + apply (Hinvoke (Managed w1 (store x) (calls x))); [done|done| |done].
      intros r w' Hi. eapply ps_lookup_invoke; [congruence|done|done|exact Hi].
    + simplify_eq. exists []. rewrite app_nil_r. split; [by eapply ps_lookup; [congruence|]|done].
  - apply (Hinvoke x); [done|done| |done]. intros r w' Hi. eapply ps_invoke; [|exact Hi]. rewrite Hb.
    by destruct (semantics i).
Qed.

Lemma perform_ran x i s :
  open_call x i s → b_semantics b = semantics intent → supported_semantics (semantics intent) = true →
  not_before (reading 2) (i_created_at i) →
  ran authority intent b x (perform redact_text reading boundary_hook authority b i (Managed (provider x) s (calls x))).
Proof.
  intros Hoc Hsem Hsup Ht. pose proof Hoc as [Hq Hb Ho]. destruct (bg_row _ _ _ _ _ Hb) as (r & Hr & Hj).
  destruct (same_business_id _ _ (bg_same _ _ _ _ _ Hb)) as [_ Hs'].
  unfold perform. apply bind_guarded; [apply reads_now_utc|intros e; by eapply open_stops|]. intros now _.
  eapply bind_on_store; [by apply require_settles|..].
  { intros e s1 Hq1 Hc1. cbn [provider calls store] in *. eapply open_stops. split; [done|by rewrite Hc1|done]. }
  intros [] s1 Hq1 [Hc1 Hheld]. cbn [provider calls store] in *.
  unfold bind at 1. destruct (obtain_receipt _ _ _ _) as [o x1] eqn:Hob.
  apply obtain_cases in Hob as (js & Hstep & Hst & Hcalls & Hjs); [|congruence..]. cbn [provider store calls] in *.
  assert (Hall : Forall (λ j, write_ahead authority (j, committed s1) ∧ same_business_intent j intent = true) js).
  { eapply Forall_impl; [exact Hjs|]. intros j <-. split; [|apply Hb]. split; [by rewrite Hc1; exists r|].
    split; [done|]. split; [cbn; by rewrite Hs'|]. cbn. by rewrite Hc1. }
  assert (Hstop : ∀ e s2, quiescent s2 = true → committed s2 = committed s →
    ran authority intent b x (Err e, Managed (provider x1) s2 (calls x1))).
  { intros e s2 Hq2 Hc2. rewrite Hcalls. apply ran_held; rewrite ?Hc2, ?Hc1; try done;
      [exact (bg_inv _ _ _ _ _ Hb)|exact (bg_le _ _ _ _ _ Hb)|by apply (bg_held _ _ _ _ _ Hb)|exact (bg_le _ _ _ _ _ Hb)|].
    by rewrite <-Hc1. }
  destruct o as [[p found]|e]; [|destruct x1; cbn in *; subst; by apply Hstop].
  cbn [fst snd]. eapply (bind_on_store _ _ x1).
  { rewrite Hst. apply (record_settles authority i p s1 r); [done|by rewrite Hc1; apply (bg_inv _ _ _ _ _ Hb)|by rewrite Hc1|done..]. }
  { intros e s2 Hq2 Hc2. apply Hstop; [done|]. by rewrite Hc2, Hst. }
  intros y s2 Hq2 (Hi2 & Hle2 & Hrec & _). rewrite Hst, Hc1 in Hle2.
  assert (Hdone : ∀ out, match out with Ok res => evidence (committed s2) intent res | Err _ => True end →
    ran authority intent b x (out, Managed (provider x1) s2 (calls x1))).
  { intros out Hout. rewrite Hcalls.
    apply ran_held; try done; [|by apply (bg_held _ _ _ _ _ Hb)|rewrite Hc1; exact (bg_le _ _ _ _ _ Hb)].
    eapply journal_le_trans; [exact (bg_le _ _ _ _ _ Hb)|done]. }
  apply bind_guarded; [apply reads_observe_hook|intros e; by apply Hdone|]. intros u _. apply Hdone. left. exists y.
  split_and!; try done. eapply receipted_same; [exact (bg_same _ _ _ _ _ Hb)|done].
Qed.

Lemma execute_ran x :
  quiescent (store x) = true → journal_inv redact_text (committed (store x)) → intent_valid redact_text intent = true →
  not_before (reading 2) (i_created_at intent) →
  (∀ r, side_effect_journal (committed (store x)) !! intent_id intent = Some r → not_before (reading 2) (i_created_at (j_intent r))) →
  ran authority intent b x
    (execute redact_text float_of lax_int parse_datetime reading decisions boundary_hook fresh
       authority intent b run_state auth expires_at x).
Proof.
  intros Hq Hi Hv Ht1 Ht2. destruct x as [w s cs]. cbn [store] in *.
  assert (Hnone : ∀ e, ran authority intent b (Managed w s cs) (Err e, Managed w s cs)).
  { intros e. by apply (ran_idle authority intent b (Managed w s cs) s (Err e)). }
  unfold execute, validate_boundary. apply bind_guarded; [apply reads_guard|done|].
  intros u Hu. apply guard_Ok_inv in Hu as [Hu _]. bools.
  apply bind_guarded; [unfold validate_uncertainty_inputs; case_match; auto with py|done|]. intros u' _.
  eapply bind_on_store; [by apply begin_settles|..].
  { intros e s1 Hq1 Hc1. by apply ran_idle. }
  intros i s1 Hq1 Hb. cbn [provider calls store] in *. unfold execute_durable.
  destruct (bg_row _ _ _ _ _ Hb) as (r & Hr & Hj).
  assert (Hset : i_status i ≠ INTENDED → committed s1 = committed s).
  { intros Hs. by destruct (bg_idle _ _ _ _ _ Hb). }
  destruct (i_status i) eqn:Hs.
  - assert (Hoc : open_call (Managed w s cs) i s1) by done.
    apply bind_guarded; [apply reads_observe_hook|intros e; exact (open_stops (Managed w s cs) i s1 e Hoc)|]. intros u2 _.
    destruct (supported_semantics (semantics intent)) eqn:Hsup; cbn [negb].
    + apply (perform_ran (Managed w s cs)); [done..|].
      destruct (bg_created _ _ _ _ _ Hb) as [[-> _]|Hsame]; [done|]. rewrite <-Hj. apply Ht2.
      destruct (same_business_id _ _ (bg_same _ _ _ _ _ Hb)) as [<- _]. by rewrite <-Hsame.
    + destruct run_state, auth, expires_at; try exact (open_stops (Managed w s cs) i s1 _ Hoc).
      apply (suspend_ran (Managed w s cs)). exact Hoc.
  - specialize (Hset ltac:(done)). eapply bind_on_store; [by apply load_receipt_settles|..].
    { intros e s2 Hq2 Hc2. apply (ran_idle _ _ _ (Managed w s cs)); [done|done|by rewrite Hc2|done]. }
    intros o s2 Hq2 [Hc2 Hload]. cbn [store provider calls] in *. unfold load_receipt_current in Hload.
    rewrite bind_sql_get in Hload. cbn [tbl journal_table] in Hload. rewrite Hr in Hload.
    rewrite (decode_receipt_eq redact_text _ _ r (bg_inv _ _ _ _ _ Hb) Hr) in Hload.
    rewrite Hj, Hs, bool_decide_eq_true_2 in Hload by done. injection Hload as <-.
    destruct (j_receipt r) as [c|] eqn:Hc; cbn [fmap option_fmap option_map];
      (apply (ran_idle _ _ _ (Managed w s cs)); [done|done|by rewrite Hc2|]); [|done].
    left. eexists. split_and!; [done..|]. rewrite Hc2. eapply receipted_same; [exact (bg_same _ _ _ _ _ Hb)|].
    exists r, c. rewrite Hj. split_and!; [done|apply same_business_refl|done|done|done].
  - specialize (Hset ltac:(done)). eapply bind_on_store; [by apply decision_id_settles|..].
    { intros e s2 Hq2 Hc2. apply (ran_idle _ _ _ (Managed w s cs)); [done|done|by rewrite Hc2|done]. }
    intros o s2 Hq2 [Hc2 Ho]. cbn [store provider calls] in *. rewrite Hr in Ho. cbn in Ho. subst o.
    destruct (j_uncertainty_decision_id r) as [q|] eqn:Hd;
      (apply (ran_idle _ _ _ (Managed w s cs)); [done|done|by rewrite Hc2|]); [|done].
    right. exists q. split_and!; [done..|]. rewrite Hc2. eapply uncertain_same; [exact (bg_same _ _ _ _ _ Hb)|].
    exists r. rewrite Hj. split_and!; [done|apply same_business_refl|done|done].
Qed.
End call.
End spec.

(** ** Theorems *)

(** A provider with receipts, as its documentation promises it: a lookup
    changes nothing and answers "none" only for a key under which nothing was
    performed; an invocation performs the effect of its key at most once more,
    whether it returns or raises, and nothing else.  [performed] counts. *)
Class ReceiptLookup {W} (b : ManagedSideEffectBoundary W) (performed : W → string → nat) : Prop := {
  rl_semantics : b_semantics b = RECEIPT_LOOKUP;
  rl_lookup key w k : performed (b_lookup_receipt b key w).2 k = performed w k;
  rl_none key w : (b_lookup_receipt b key w).1 = Ok None → performed w key = 0%nat;
  rl_invoke i w k :
    (performed (b_invoke b i w).2 k ≤ performed w k + (if decide (provider_idempotency_key i = Some k) then 1 else 0))%nat;
}.

Section claims.
Context (redact_text : string → string) (float_of : string → pyfloat) (lax_int : pyfloat → option Z)
        (parse_datetime : string → option datetime).
Context {W : Type}.

(** The arguments and the surroundings of one call. *)
Record managed_call := mkCall {
  mc_reading : nat → datetime;
  mc_decisions : env;
  mc_hook : string → option exn;
  mc_fresh : string;
  mc_authority : AttemptAuthority;
  mc_intent : SideEffectIntentV1;
  mc_boundary : ManagedSideEffectBoundary W;
  mc_run_state : option RunStateV1;
  mc_auth : option AuthContext;
  mc_expires_at : option datetime;
}.
Definition run_call (c : managed_call) : M (managed W) ManagedSideEffectResult :=
  execute redact_text float_of lax_int parse_datetime (mc_reading c) (mc_decisions c) (mc_hook c) (mc_fresh c)
    (mc_authority c) (mc_intent c) (mc_boundary c) (mc_run_state c) (mc_auth c) (mc_expires_at c).
(** The intent is a valid contract, and the clock has not gone behind the
    creation of the intents of its position. *)
Definition call_ok (x : managed W) (c : managed_call) : Prop :=
  intent_valid redact_text (mc_intent c) = true ∧ not_before (mc_reading c 2) (i_created_at (mc_intent c)) ∧
  ∀ r, side_effect_journal (committed (store x)) !! intent_id (mc_intent c) = Some r →
    not_before (mc_reading c 2) (i_created_at (j_intent r)).
Definition ready (x : managed W) : Prop :=
  quiescent (store x) = true ∧ journal_inv redact_text (committed (store x)).

Lemma run_call_ran c x : ready x → call_ok x c → ran redact_text (mc_authority c) (mc_intent c) (mc_boundary c) x (run_call c x).
Proof. intros [Hq Hi] (Hv & H1 & H2). by apply execute_ran. Qed.

Definition managed_step (P : managed_call → Prop) (x x' : managed W) : Prop :=
  ∃ c, P c ∧ call_ok x c ∧ x' = (run_call c x).2.

Lemma step_ready P x x' : ready x → managed_step P x x' → ready x'.
Proof. intros Hr (c & _ & Hc & ->). destruct (run_call_ran c x Hr Hc) as [[Hq Hi _ _ _] _]. done. Qed.

(** A receipt ends an effect: once the journal holds a receipt for an intent, the row never
    changes, the provider is never invoked for that intent again, along any sequence of
    calls, and a call for it that returns gives that receipt. *)
Theorem receipted_effect_final x x' k r c0 :
  ready x → side_effect_journal (committed (store x)) !! k = Some r → i_status (j_intent r) = RECEIPTED →
  j_receipt r = Some c0 → rtc (managed_step (λ _, True)) x x' →
  side_effect_journal (committed (store x')) !! k = Some r ∧
  (∃ new, calls x' = calls x ++ new ∧ Forall (λ c, intent_id c.1 ≠ k) new) ∧
  ∀ c res x'', call_ok x' c → intent_id (mc_intent c) = k → run_call c x' = (Ok res, x'') →
    mr_receipt res = Some (receipt_of (j_intent r) c0) ∧ calls x'' = calls x'.
Proof.
  intros Hr Hk Hs Hc0 Hsteps.
  assert (Hone : ∀ y c, ready y → call_ok y c → side_effect_journal (committed (store y)) !! k = Some r →
    side_effect_journal (committed (store (run_call c y).2)) !! k = Some r ∧
    ∃ new, calls (run_call c y).2 = calls y ++ new ∧ Forall (λ c, intent_id c.1 ≠ k) new).
  { intros y c Hy Hc Hky. destruct (run_call_ran c y Hy Hc) as [[_ _ Hle (js & d & Hd & _ & Hcalls & Hjs) _] _]. split.
    - destruct (Hle k r Hky) as (r' & Hr' & _ & _ & Hsame). rewrite Hsame in Hr'; [done|]. by rewrite Hs.
    - eexists. split; [exact Hcalls|]. apply Forall_fmap. eapply Forall_impl; [exact Hjs|].
      intros i [((ri & Hri & Hji) & Hopen & _) _] Hik. cbn in *. destruct (Hd k r Hky) as (r' & Hr' & _ & _ & Hsame).
      rewrite Hsame in Hr' by (by rewrite Hs). rewrite <-Hik in Hr'. simplify_eq. congruence. }
  assert (Hall : ready x' ∧ side_effect_journal (committed (store x')) !! k = Some r ∧
    ∃ new, calls x' = calls x ++ new ∧ Forall (λ c, intent_id c.1 ≠ k) new).
  { induction Hsteps as [x|x y z Hxy _ IH]; [split; [done|]; split; [done|]; exists []; by rewrite app_nil_r|].
    pose proof (step_ready _ _ _ Hr Hxy) as Hy. destruct Hxy as (c & _ & Hc & ->).
    destruct (Hone x c Hr Hc Hk) as (Hk' & new & Hnew & Hf). destruct (IH Hy Hk') as (Hz & Hkz & new' & Hnew' & Hf').
    split; [done|]. split; [done|]. exists (new ++ new'). rewrite Hnew', Hnew. split; [by rewrite (assoc_L (++))|by apply Forall_app]. }
  destruct Hall as (Hx' & Hk' & Hnew). split; [done|]. split; [done|]. intros c res x'' Hc Hid Hrun.
  destruct (run_call_ran c x' Hx' Hc) as [[_ _ _ (js & d & Hd & _ & Hcalls & Hjs) _] Hev].
  destruct (Hone x' c Hx' Hc Hk') as (Hk'' & _). rewrite Hrun in *. cbn [fst snd] in *. split.
  - destruct Hev as [(y & -> & _ & _ & r' & c' & Hr' & _ & _ & Hrc & ->)|(q & _ & _ & _ & r' & Hr' & _ & Hu & _)];
      rewrite Hid, Hk'' in Hr'; injection Hr' as <-; congruence.
  - rewrite Hcalls. destruct js as [|i js]; [by rewrite app_nil_r|]. exfalso.
    apply Forall_cons in Hjs as [[((ri & Hri & Hji) & Hopen & _) Hsame] _]. cbn in *.
    apply same_business_id in Hsame as [Hsame _]. destruct (Hd k r Hk') as (r' & Hr' & _ & _ & Hst).
    rewrite Hst in Hr' by (by rewrite Hs). rewrite <-Hid, <-Hsame in Hr'. simplify_eq. congruence.
Qed.

(** Fencing reaches the outside world: once a memorial has been granted a later lease, a
    call that presents an earlier grant invokes no provider, looks up nothing and changes
    nothing, whatever owner it presents. *)
Theorem stale_authority_cannot_act d0 gs x i j l1 l2 owner c :
  ledger_inv d0 → history d0 gs (committed (store x)) → (i < j)%nat →
  gs !! i = Some (Some l1) → gs !! j = Some (Some l2) → a_memorial_id l1 = a_memorial_id l2 →
  ready x → call_ok x c →
  mc_authority c = mkAuthority (attempt_id l1) (a_memorial_id l1) owner (a_fencing_token l1) →
  let x' := (run_call c x).2 in
  committed (store x') = committed (store x) ∧ provider x' = provider x ∧ calls x' = calls x.
Proof.
  intros Hl Hh Hij H1 H2 Hm Hr Hc Ha. destruct (run_call_ran c x Hr Hc) as [[_ _ _ _ [Hheld|Hidle]] _]; [|done]. exfalso.
  rewrite Ha in Hheld. destruct Hheld as [t [r Hheld]]. cbn in Hheld.
  by rewrite (stale_not_held _ _ _ _ _ _ _ owner t Hl Hh Hij H1 H2 Hm) in Hheld.
Qed.

(** Everything a suspension changes besides the journal, from [d] to [d'],
    where the call of [c] waits for the decision [q]. *)
Record effect_waits (c : managed_call) (d d' : db) (q : DecisionRequestV1) : Prop := {
  ew_journal : uncertain d' (mc_intent c) (decision_request_id q);
  ew_run : ∃ r st, run_states d !! i_memorial_id (mc_intent c) = Some r ∧ rs_phase (rn_state r) = P_EXECUTING ∧
    run_states d' = <[i_memorial_id (mc_intent c) := mkRunStateRow st (rn_correlation_id r)]> (run_states d) ∧
    rs_phase st = P_WAITING_DECISION ∧ pending_decision_id (rs_continuation st) = Some (decision_request_id q) ∧
    rs_version st = rs_version (rn_state r) + 1;
  ew_decision : ∃ row, decision_requests d' !! decision_request_id q = Some row ∧ dc_request row = q ∧
    request_key q = "side-effect:" +:+ intent_id (mc_intent c) ∧ d_memorial_id q = i_memorial_id (mc_intent c);
  ew_attempt : ∃ ra ra', execution_attempts d !! au_attempt_id (mc_authority c) = Some ra ∧
    execution_attempts d' = <[au_attempt_id (mc_authority c) := ra']> (execution_attempts d) ∧
    a_status (at_lease ra') = SUSPENDED ∧ a_owner_id (at_lease ra') = None;
  ew_event : outbox_events d !! (decision_request_id q +:+ ":decision.requested") = None ∧
    ∃ row, outbox_events d' = <[decision_request_id q +:+ ":decision.requested" := row]> (outbox_events d);
}.

Lemma suspension_waits c i st auth expires now d d' q :
  run_inv redact_text d → decision_inv d → same_business_intent i (mc_intent c) = true →
  uncertain d' i (decision_request_id q) →
  suspension redact_text (mc_authority c) i st auth expires now d d' q → effect_waits c d d' q.
Proof.
  intros Hri Hdi Hsame Hun [Hheld (cur & a & q0 & w1 & p & x & w2 & r & b & corr & ra & Hl & _ & Hcont & Hph & Hpd & Hpt & Hask &
    Hadd & _ & _ & Hcas & Hjr & Hnone & Hra & ->)].
  assert (Hmem : i_memorial_id i = i_memorial_id (mc_intent c) ∧ intent_id i = intent_id (mc_intent c))
    by (unfold same_business_intent in Hsame; bools; done). destruct Hmem as [Hm Hid].
  rewrite (load_eq redact_text d _ Hri) in Hl. destruct (run_states d !! i_memorial_id i) as [rr|] eqn:Hrr; [|done].
  injection Hl as Hcur. pose proof (ri_keyed redact_text d Hri _ _ Hrr) as Hkey. rewrite Hcur in Hkey.
  destruct Hask as (Hval & Hqm & _ & _ & Hqk & _).
  assert (Hd : run_states w1 = run_states d ∧ execution_attempts w1 = execution_attempts d ∧ outbox_events w1 = outbox_events d ∧
    ∃ row, decision_requests w1 !! decision_request_id q = Some row ∧ dc_request row = q ∧
      request_key q = request_key q0 ∧ d_memorial_id q = d_memorial_id q0).
  { destruct (add_or_get_Ok_inv _ _ _ _ _ Hdi Hval Hadd) as [[-> (k & row & Hk & Hs & -> & _)]|(-> & [cid ->] & _)].
    - split_and!; [done..|]. exists row. rewrite (di_keyed d Hdi _ _ Hk). unfold same_identity in Hs. bools. done.
    - split_and!; [done..|]. eexists. split; [apply lookup_insert_eq|done]. }
  destruct Hd as (Hr1 & Ha1 & Ho1 & row & Hrow & Hrq & Hk1 & Hm1).
  assert (Hri1 : run_inv redact_text w1) by (destruct Hri; split; rewrite Hr1; done).
  pose proof (swap_others _ _ _ _ _ _ Hcas) as Hoth. unfold other_tables in Hoth. injection Hoth as _ _ Ha2 Hd2 _ _ Ho2.
  destruct (compare_and_swap_Ok_inv redact_text _ _ _ _ _ Hri1 Hcas) as (_ & Hx & r1 & Hr1' & Hv1 & _ & _ & _ & Hw2 & _).
  change (rs_memorial_id (waiting_state cur a p (decision_request_id q) now)) with (rs_memorial_id cur) in Hr1', Hw2.
  rewrite Hkey, Hr1 in Hr1'. rewrite Hrr in Hr1'. injection Hr1' as <-. rewrite Hkey, Hr1 in Hw2.
  rewrite Ho2, Ho1 in Hnone. rewrite Ha2, Ha1 in Hra.
  split.
  - by eapply uncertain_same.
  - rewrite <-Hm. exists rr, x. split_and!; [done|by rewrite Hcur| |by rewrite Hx..|].
    + unfold settled_after. cbn. by rewrite Hw2.
    + rewrite Hx. cbn. by rewrite Hcur.
  - exists row. unfold settled_after. cbn. rewrite Hd2, <-Hid, <-Hm. split_and!; [done|done|by rewrite Hk1, Hqk|by rewrite Hm1, Hqm].
  - eexists ra, _. unfold settled_after. cbn. rewrite Ha2, Ha1. done.
  - split; [exact Hnone|]. eexists. unfold settled_after. cbn. by rewrite Ho2, Ho1.
Qed.

Lemma on_store_Ok_inv {A} (m : M (session db) A) (x : managed W) a x' :
  on_store m x = (Ok a, x') → ∃ s, m (store x) = (Ok a, s) ∧ x' = Managed (provider x) s (calls x).
Proof. unfold on_store. destruct (m (store x)) as [r s]. intros [= -> <-]. by exists s. Qed.

Lemma unsupported_idle c x :
  ready x → call_ok x c → supported_semantics (semantics (mc_intent c)) = false →
  provider (run_call c x).2 = provider x ∧ calls (run_call c x).2 = calls x.
Proof.
  intros Hr Hc Hu. destruct (bool_decide_reflect (b_semantics (mc_boundary c) = semantics (mc_intent c))) as [Hs|Hs].
  - destruct (run_call_ran c x Hr Hc) as [[_ _ _ (js & d & _ & Hstep & Hcalls & _) _] _].
    destruct Hstep as [w|w key r w' Hsem|w i r w' Hsem|w key w1 i r w' Hsem];
      [by rewrite Hcalls, app_nil_r|rewrite <-Hs, Hsem in Hu; done..].
  - unfold run_call, execute, validate_boundary. unfold bind at 1. rewrite (bool_decide_eq_false_2 _ Hs), andb_false_r. done.
Qed.

(** An effect whose outcome could not be established later is never performed: a call for it
    leaves the provider alone; when it returns for a new intent, one transaction has marked
    the intent uncertain, stored the question put to a person, moved the run to waiting for
    that decision, suspended the attempt and queued the event that announces it. *)
Theorem uncertain_effect_waits c x :
  ready x → call_ok x c → run_inv redact_text (committed (store x)) → decision_inv (committed (store x)) →
  supported_semantics (semantics (mc_intent c)) = false →
  side_effect_journal (committed (store x)) !! intent_id (mc_intent c) = None →
  let '(out, x') := run_call c x in
  provider x' = provider x ∧ calls x' = calls x ∧
  match out with
  | Ok res => ∃ q, res = mkManagedResult None (Some (decision_request_id q)) true false ∧
      effect_waits c (committed (store x)) (committed (store x')) q
  | Err _ => True
  end.
Proof.
  intros Hr Hc Hri Hdi Hu Hnone. pose proof (unsupported_idle c x Hr Hc Hu) as [Hp Hcl].
  destruct (run_call c x) as [[res|e] x'] eqn:Hrun; cbn in Hp, Hcl; [|done]. split; [done|]. split; [done|].
  destruct Hr as [Hq Hi], Hc as (Hv & _). unfold run_call, execute in Hrun. unfold validate_boundary in Hrun. step_M Hrun.
  rewrite Hu in Hrun. cbn [negb] in Hrun. unfold validate_uncertainty_inputs in Hrun. step_M Hrun.
  apply bind_Ok_inv in Hrun as (i & x1 & (s1 & Hb & ->)%on_store_Ok_inv & Hrun).
  pose proof (begin_settles redact_text (mc_reading c) (mc_authority c) (mc_intent c) (store x) Hq Hi Hv) as (Hq1 & _ & Hbg).
  rewrite Hb in Hq1, Hbg. cbn [fst snd] in Hq1, Hbg.
  destruct (bg_row _ _ _ _ _ _ Hbg) as (r & Hrow & Hj).
  destruct (same_business_id _ _ (bg_same _ _ _ _ _ _ Hbg)) as [Hid _].
  destruct (bg_created _ _ _ _ _ _ Hbg) as [[-> [row Hd1]]|Hd1]; [|rewrite Hd1, Hid, Hnone in Hrow; done].
  assert (Ho : i_status (mc_intent c) = INTENDED).
  { destruct (bg_idle _ _ _ _ _ _ Hbg) as [Hd|Ho]; [|done]. rewrite Hd, Hnone in Hrow. done. }
  unfold execute_durable in Hrun. rewrite Ho in Hrun. step_M Hrun. apply observe_Ok_inv in E1 as ->.
  rewrite Hu in Hrun. cbn [negb] in Hrun.
  destruct (mc_run_state c) as [st|], (mc_auth c) as [au|], (mc_expires_at c) as [ex|]; try done.
  apply on_store_Ok_inv in Hrun as (s2 & Hsus & ->). cbn [store] in *.
  pose proof (suspend_settles redact_text float_of lax_int parse_datetime (mc_reading c) (mc_decisions c) (mc_hook c) (mc_fresh c)
    (mc_authority c) (mc_intent c) st au ex s1 r Hq1 (bg_inv _ _ _ _ _ _ Hbg) Hrow Hj Ho) as (_ & _ & Hres).
  rewrite Hsus in Hres. cbn [fst snd] in Hres. destruct Hres as (q & expires & now & -> & Hsusp & _ & _ & Hun).
  exists q. split; [done|].
  assert (Hw : effect_waits c (committed s1) (committed s2) q).
  { eapply suspension_waits; [| |exact (bg_same _ _ _ _ _ _ Hbg)|exact Hun|exact Hsusp]; rewrite Hd1.
    - destruct Hri; by split.
    - destruct Hdi; by split. }
  rewrite Hd1 in Hw. destruct Hw. by split.
Qed.
End claims.

(** ** A sample provider *)

(** The provider keeps the keys of the effects it performed.  worker-2 holds
    attempt A2 of the memorial "m" under token 2 from second 20 to second 30. *)
Module EffectSample.
Definition redact (s : string) : string := s.
Definition receipt : ProviderEffectReceipt := mkProviderReceipt "msg-17" [("accepted", JBool true)] (utc_at (at_s 22)).
Definition mail : ManagedSideEffectBoundary (list string) :=
  mkBoundary "email" RECEIPT_LOOKUP
    (λ i w, (Ok receipt, match provider_idempotency_key i with Some key => w ++ [key] | None => w end))
    (λ key w, (Ok (if bool_decide (key ∈ w) then Some receipt else None), w)).
Definition performed (w : list string) (k : string) : nat := length (filter (λ x, x = k) w).

#[export] Instance mail_receipts : ReceiptLookup mail performed.
Proof.
  split; [done|done|..].
  - intros key w. cbn. case_bool_decide as H; [done|]. intros _. unfold performed.
    induction w as [|x w IH]; [done|]. rewrite filter_cons, decide_False by set_solver. apply IH. set_solver.
  - intros i w k. cbn. unfold performed. destruct (provider_idempotency_key i) as [key|]; [|case_decide; lia].
    rewrite filter_app, length_app, filter_cons, filter_nil. do 2 case_decide; cbn; try lia. congruence.
Qed.

Definition built (effect attempt owner : string) (token n : Z) (sem : SideEffectSemantics) : SideEffectIntentV1 :=
  match build_side_effect_intent redact effect "e" "m" attempt owner token n "email" "send" sem
          [("to", JStr "team")] (at_s 21) None with
  | Ok i => i
  | Err _ => mkIntent "" "" "" "" "" "" 0 0 "" "" OPAQUE_CLI None [] "" "" INTENDED None 1 0 0
  end.
Definition report : SideEffectIntentV1 := Eval vm_compute in built "send-report" "A2" "worker-2" 2 0 RECEIPT_LOOKUP.
Definition stale_report : SideEffectIntentV1 := Eval vm_compute in built "send-report" "A1" "worker-1" 1 0 RECEIPT_LOOKUP.
Definition opaque_run : SideEffectIntentV1 := Eval vm_compute in built "run-script" "A2" "worker-2" 2 0 OPAQUE_CLI.

Definition zero (_ : string) : pyfloat := PyFloat (Some (0, 0)) "0.0".
Definition no_int (_ : pyfloat) : option Z := None.
Definition no_date (_ : string) : option datetime := None.
Definition silent (_ : string) : option exn := None.
Definition crash_after (b : string) (b' : string) : option exn :=
  if bool_decide (b = b') then Some (Exn RuntimeError "crash") else None.
Definition decisions : env := mkEnv (utc_at (at_s 23)) (at_s 23) "q1" "ev-1" (λ _, "event-1").
Definition reading (_ : nat) : datetime := utc_at (at_s 23).
Definition alice : AuthContext := Eval cbv in DecisionService.ServiceSample.alice.
Definition call (hook : string → option exn) (au : AttemptAuthority) (i : SideEffectIntentV1)
    (b : ManagedSideEffectBoundary (list string)) (st : option RunStateV1) : managed_call (W := list string) :=
  mkCall (W := list string) reading decisions hook "A3" au i b st (Some alice) (Some (utc_at (at_s 900))).
Definition worker_2 : AttemptAuthority := mkAuthority "A2" "m" "worker-2" 2.
Definition exec (c : managed_call (W := list string)) (x : managed (list string)) := run_call redact zero no_int no_date c x.
Definition start (d : db) : managed (list string) := Managed [] (CompletionSample.rest d) [].

(** The process dies after the mail was sent; the next call finds the receipt. *)
Definition crashed := exec (call (crash_after "after_provider") worker_2 report mail None) (start sample_end).
Definition recovered := exec (call silent worker_2 report mail None) crashed.2.
Definition executing : db :=
  (exec_run redact (RunCreate (RunSample.state P_EXECUTING 0 1 100)) CompletionSample.ledger).2.
Definition shell : ManagedSideEffectBoundary (list string) :=
  mkBoundary "email" OPAQUE_CLI (b_invoke mail) (b_lookup_receipt mail).
Definition waiting := exec (call silent worker_2 opaque_run shell (Some (RunSample.state P_EXECUTING 0 1 100))) (start executing).

Example sample_effects :
  crashed.1 = Err (Exn RuntimeError "crash") ∧ provider crashed.2 = [intent_id report] ∧
  (match recovered.1 with Ok res => (is_some (mr_receipt res), mr_reconciled res) | Err _ => (false, false) end) = (true, true) ∧
  provider recovered.2 = [intent_id report] ∧ length (calls recovered.2) = 1%nat.
Proof. vm_compute. repeat split. Qed.
Example sample_waiting : waiting.1 = Ok (mkManagedResult None (Some "q1") true false) ∧ provider waiting.2 = [].
Proof. vm_compute. repeat split. Qed.

Lemma in_time t : t ≤ at_s 23 → not_before (reading 2) t.
Proof. intros Ht off [= <-]. cbn. lia. Qed.
(** The journal of a state, by the creation times of its rows. *)
Definition created (x : managed (list string)) (k : string) : option Z :=
  i_created_at ∘ j_intent <$> side_effect_journal (committed (store x)) !! k.
Lemma call_ok_of x hook au i b st :
  intent_valid redact i = true → (i_created_at i <=? at_s 23) = true →
  match created x (intent_id i) with Some t => t <=? at_s 23 | None => true end = true →
  call_ok redact x (call hook au i b st).
Proof.
  intros Hv Ht Hx. split; [done|]. split; [apply in_time; by apply Z.leb_le|]. intros r Hr. unfold created in Hx.
  cbn [call mc_intent mc_reading] in *. rewrite Hr in Hx. cbn in Hx. apply in_time. by apply Z.leb_le.
Qed.
Lemma start_ready : ready redact (start sample_end).
Proof. split; [done|]. exact JournalSample.journal_inv0. Qed.
Lemma crashed_ok : call_ok redact (start sample_end) (call (crash_after "after_provider") worker_2 report mail None).
Proof. apply call_ok_of; vm_compute; reflexivity. Qed.
Lemma recovered_ok : call_ok redact crashed.2 (call silent worker_2 report mail None).
Proof. apply call_ok_of; vm_compute; reflexivity. Qed.
Lemma recovered_ready : ready redact recovered.2.
Proof.
  assert (Hc : ready redact crashed.2).
  { eapply (step_ready redact zero no_int no_date (λ _, True)); [exact start_ready|]. by eexists; split; [|split; [exact crashed_ok|]]. }
  eapply (step_ready redact zero no_int no_date (λ _, True)); [exact Hc|]. by eexists; split; [|split; [exact recovered_ok|]].
Qed.
Lemma receipted_row : ∃ r c, side_effect_journal (committed (store recovered.2)) !! intent_id report = Some r ∧
  i_status (j_intent r) = RECEIPTED ∧ j_receipt r = Some c.
Proof.
  destruct (side_effect_journal (committed (store recovered.2)) !! intent_id report) as [r|] eqn:E; vm_compute in E;
    [|discriminate]. injection E as <-. by eexists _, _.
Qed.
End EffectSample.

Lemma receipted_effect_final_witness :
  ∃ r, side_effect_journal (committed (store EffectSample.recovered.2)) !! intent_id EffectSample.report = Some r.
Proof.
  destruct EffectSample.receipted_row as (r & c & Hk & Hs & Hc). exists r.
  exact (proj1 (receipted_effect_final EffectSample.redact EffectSample.zero EffectSample.no_int EffectSample.no_date
    _ _ _ r c EffectSample.recovered_ready Hk Hs Hc (rtc_refl _ _))).
Defined.

Lemma stale_authority_cannot_act_witness :
  provider (EffectSample.exec (EffectSample.call EffectSample.silent (mkAuthority "A1" "m" "worker-1" 1)
    EffectSample.stale_report EffectSample.mail None) (EffectSample.start sample_end)).2 = [].
Proof.
  assert (Hij : (1 < 3)%nat) by lia.
  assert (Hok : call_ok EffectSample.redact (EffectSample.start sample_end)
    (EffectSample.call EffectSample.silent (mkAuthority "A1" "m" "worker-1" 1) EffectSample.stale_report EffectSample.mail None))
    by (apply EffectSample.call_ok_of; vm_compute; reflexivity).
  exact (proj1 (proj2 (stale_authority_cannot_act EffectSample.redact EffectSample.zero EffectSample.no_int
    EffectSample.no_date sample_db _ (EffectSample.start sample_end) 1 3 lease_1 lease_2 "worker-1" _ sample_inv sample_history Hij
    eq_refl eq_refl eq_refl EffectSample.start_ready Hok eq_refl))).
Defined.

Lemma executing_inv : run_inv EffectSample.redact EffectSample.executing.
Proof.
  eapply (run_steps_ok EffectSample.redact CompletionSample.ledger); [split; intros k r Hk; vm_compute in Hk; discriminate|].
  apply rtc_once. exists (RunCreate (RunSample.state P_EXECUTING 0 1 100)). split; [vm_compute; reflexivity|reflexivity].
Qed.

Lemma uncertain_effect_waits_witness :
  ∃ d' q, effect_waits (EffectSample.call EffectSample.silent EffectSample.worker_2 EffectSample.opaque_run EffectSample.shell
    (Some (RunSample.state P_EXECUTING 0 1 100))) EffectSample.executing d' q.
Proof.
  assert (Hj : side_effect_journal EffectSample.executing = ∅) by (vm_compute; reflexivity).
  assert (Hr : ready EffectSample.redact (EffectSample.start EffectSample.executing)).
  { split; [done|]. change (committed (store (EffectSample.start EffectSample.executing))) with EffectSample.executing.
    split; intros *; rewrite Hj, lookup_empty; discriminate. }
  set (c := EffectSample.call EffectSample.silent EffectSample.worker_2 EffectSample.opaque_run EffectSample.shell
    (Some (RunSample.state P_EXECUTING 0 1 100))).
  assert (Hok : call_ok EffectSample.redact (EffectSample.start EffectSample.executing) c)
    by (apply EffectSample.call_ok_of; vm_compute; reflexivity).
  assert (Hd : decision_inv EffectSample.executing).
  { assert (He : decision_requests EffectSample.executing = ∅) by (vm_compute; reflexivity).
    assert (He' : decision_resolutions EffectSample.executing = ∅) by (vm_compute; reflexivity).
    split; intros *; rewrite ?He, ?He', lookup_empty; discriminate. }
  pose proof (uncertain_effect_waits EffectSample.redact EffectSample.zero EffectSample.no_int EffectSample.no_date c
    (EffectSample.start EffectSample.executing) Hr Hok executing_inv Hd eq_refl
    (eq_trans (f_equal (lookup _) Hj) (lookup_empty _))) as H.
  pose proof EffectSample.sample_waiting as [Hw _]. unfold EffectSample.waiting, EffectSample.exec in Hw. fold c in Hw.
  destruct (run_call _ _ _ _ c _) as [out x']. cbn in Hw. subst out. destruct H as (_ & _ & q & _ & H).
  exists (committed (store x')), q. exact H.
Defined.
