(* ===== verification/EffectInterleaving.v ===== *)
(** * Managed side effects, interleaved

    [ManagedSideEffectService.execute] of src/src/tianshu/executor/side_effects.py
    is a coroutine: it gives up control where it awaits the provider, and there
    other calls of the service, other code of the process and other processes
    run.  Here the call is cut at these awaits into segments that run without
    interruption ([start], [resume_lookup], [resume_invoke]); [back_to_back_eq]
    shows that the segments of one call, run without anything in between, are
    [execute] of ManagedEffects.v.

    A [machine] holds the provider, the connection and the calls in flight.  Its
    steps are: a call starts; the provider answers a request; a call whose answer
    is there goes on; a call is cancelled, or its process dies, at an await; other
    code changes the database or the provider.  A request reaches the provider
    only while its call waits for it. *)

From S2P Require Import Prelude.
From S2P Require Import Sql.
From S2P Require Import Canonical.
From S2P Require Import Timestamp.
From S2P Require Import UnitOfWork.
From S2P Require Import Models.
From S2P Require Import Schema.
From S2P Require Import AttemptLedger.
From S2P Require Import Fencing.
From S2P Require Import RunStateRepo.
From S2P Require Import DecisionRepo.
From S2P Require Import SystemAudit.
From S2P Require Import DecisionService.
From S2P Require Import SideEffectJournal.
From S2P Require Import FencedCompletion.
From S2P Require Import ManagedEffects.

(** Where a call waits: for the answer of a request, or with the answer to go
    on from. *)
Inductive stage :=
  | AskedLookup (key : string)
  | GotLookup (r : result (option ProviderEffectReceipt))
  | AskedInvoke
  | GotInvoke (r : result ProviderEffectReceipt).

Section interleaving.
Context (redact_text : string → string) (float_of : string → pyfloat) (lax_int : pyfloat → option Z)
        (parse_datetime : string → option datetime).
Context {W : Type}.
Abbreviation managed_call := (managed_call (W := W)).

(** ** Segments *)

(** From the call to its first await, or to its end. *)
Definition start (c : managed_call) : M (session db) (ManagedSideEffectResult + SideEffectIntentV1 * stage) :=
  validate_boundary (mc_intent c) (mc_boundary c) ;;;
  (if negb (supported_semantics (semantics (mc_intent c)))
   then validate_uncertainty_inputs (mc_intent c) (mc_run_state c) (mc_auth c) (mc_expires_at c) else ret tt) ;;;
  let! durable := begin_or_recover redact_text (mc_reading c) (mc_authority c) (mc_intent c) in
  match i_status durable with
  | RECEIPTED =>
      let! receipt := load_receipt redact_text (intent_id durable) in
      match receipt with
      | None => raise SideEffectConflict "receipted intent has no durable receipt"
      | Some x => ret (inl (mkManagedResult (Some x) None false true))
      end
  | UNCERTAIN =>
      let! decision_id := uncertainty_decision_id (intent_id durable) in
      match decision_id with
      | None => raise SideEffectConflict "uncertain intent has no durable decision"
      | Some q => ret (inl (mkManagedResult None (Some q) true false))
      end
  | INTENDED =>
      observe (mc_hook c) "after_intent" ;;;
      if negb (supported_semantics (semantics (mc_intent c))) then
        match mc_run_state c, mc_auth c, mc_expires_at c with
        | Some s, Some a, Some e =>
            let! res := suspend_uncertain redact_text float_of lax_int parse_datetime (mc_reading c) (mc_decisions c)
                          (mc_hook c) (mc_fresh c) (mc_authority c) durable s a e in
            ret (inl res)
        | _, _, _ => raise AssertionError ""
        end
      else
        let! now := now_utc (mc_reading c 1) in
        require_current_now (mc_authority c) now ;;;
        if bool_decide (semantics durable = RECEIPT_LOOKUP) then
          match provider_idempotency_key durable with
          | None => raise AssertionError ""
          | Some key => ret (inr (durable, AskedLookup key))
          end
        else ret (inr (durable, AskedInvoke))
  end.

(** From [self._record_receipt] on. *)
Definition finish (c : managed_call) (durable : SideEffectIntentV1) (p : ProviderEffectReceipt) (reconciled : bool) :
    M (session db) ManagedSideEffectResult :=
  let! x := record_provider_receipt redact_text (mc_reading c) (mc_authority c) durable p in
  observe (mc_hook c) "after_receipt" ;;;
  ret (mkManagedResult (Some x) None false reconciled).
(** From the answer of [lookup_receipt] on. *)
Definition resume_lookup (c : managed_call) (durable : SideEffectIntentV1) (r : result (option ProviderEffectReceipt)) :
    M (session db) (ManagedSideEffectResult + SideEffectIntentV1 * stage) :=
  let! found := of_result r in
  match found with
  | Some p => let! res := finish c durable p true in ret (inl res)
  | None => ret (inr (durable, AskedInvoke))
  end.
(** From the answer of [invoke] on. *)
Definition resume_invoke (c : managed_call) (durable : SideEffectIntentV1) (r : result ProviderEffectReceipt) :
    M (session db) (ManagedSideEffectResult + SideEffectIntentV1 * stage) :=
  let! p := of_result r in
  observe (mc_hook c) "after_provider" ;;;
  let! res := finish c durable p false in ret (inl res).

(** ** The segments make up the call *)

(** What a request to the provider answers, an exception included. *)
Definition answer_of {A} (m : M (managed W) A) : M (managed W) (result A) := λ x, let '(r, x') := m x in (Ok r, x').
Definition after_invoke (c : managed_call) (i : SideEffectIntentV1) : M (managed W) ManagedSideEffectResult :=
  let! r := answer_of (invoke (mc_boundary c) i) in
  let! out := on_store (resume_invoke c i r) in
  match out with inl res => ret res | inr _ => raise AssertionError "" end.
(** One call whose segments follow each other. *)
Definition back_to_back (c : managed_call) : M (managed W) ManagedSideEffectResult :=
  let! out := on_store (start c) in
  match out with
  | inl res => ret res
  | inr (i, AskedLookup key) =>
      let! r := answer_of (lookup_receipt (mc_boundary c) key) in
      let! out := on_store (resume_lookup c i r) in
      match out with inl res => ret res | inr _ => after_invoke c i end
  | inr (i, _) => after_invoke c i
  end.

Lemma on_store_bind {A B} (m : M (session db) A) (k : A → M (session db) B) (x : managed W) :
  on_store (bind m k) x = bind (on_store m) (λ a, on_store (k a)) x.
Proof. unfold on_store, bind. by destruct (m (store x)) as [[a|e] s]. Qed.
(** What only depends on its arguments does the same on either state. *)
Definition pure_M {A} (m : ∀ S, M S A) : Prop := ∃ r, ∀ S s, m S s = (r, s).
Lemma on_store_pure {A} (m : ∀ S, M S A) (x : managed W) : pure_M m → on_store (m _) x = m _ x.
Proof. intros [r Hr]. unfold on_store. rewrite !Hr. by destruct x. Qed.
Lemma pure_guard b c msg : pure_M (λ S, guard (S := S) b c msg).
Proof. unfold pure_M, guard. destruct b; by eexists. Qed.
Lemma pure_raise {A} c msg : pure_M (λ S, raise (S := S) (A := A) c msg).
Proof. unfold pure_M, raise. by eexists. Qed.
Lemma pure_ret {A} (a : A) : pure_M (λ S, ret (S := S) a).
Proof. unfold pure_M, ret. by eexists. Qed.
Lemma pure_observe h b : pure_M (λ S, observe (S := S) h b).
Proof. unfold pure_M, observe. destruct (h b); by eexists. Qed.
Lemma pure_now v : pure_M (λ S, now_utc (S := S) v).
Proof. unfold pure_M, now_utc, checked_instant. destruct (utcoffset v) as [z|]; [destruct (representable _)|]; by eexists. Qed.
Lemma bind_ext {S A B} (m m' : M S A) (k k' : A → M S B) x :
  m x = m' x → (∀ a y, k a y = k' a y) → bind m k x = bind m' k' x.
Proof. intros Hm Hk. unfold bind. rewrite Hm. destruct (m' x) as [[a|e] y]; auto. Qed.
Lemma bind_assoc {S A B C} (m : M S A) (k : A → M S B) (l : B → M S C) x :
  bind (bind m k) l x = bind m (λ a, bind (k a) l) x.
Proof. unfold bind. by destruct (m x) as [[a|e] y]. Qed.

Lemma after_invoke_eq c i (x : managed W) :
  after_invoke c i x =
  (let! p := (let! p := invoke (mc_boundary c) i in observe (mc_hook c) "after_provider" ;;; ret p) in
   on_store (finish c i p false)) x.
Proof.
  unfold after_invoke, answer_of, resume_invoke, of_result, observe, on_store, bind, ret.
  destruct (invoke _ _ x) as [[p|e] [w s cs]]; [|done]. cbn. destruct (mc_hook c _); [done|]. cbn.
  by destruct (finish c i p false s) as [[r|e] s'].
Qed.

Lemma bind_on_store_bind {A B C} (m : M (session db) A) (k : A → M (session db) B) (l : B → M (managed W) C) x :
  bind (on_store (bind m k)) l x = bind (on_store m) (λ a, bind (on_store (k a)) l) x.
Proof. rewrite <-bind_assoc. apply bind_ext; [apply on_store_bind|done]. Qed.
Lemma bind_on_store_ret {A B} (a : A) (l : A → M (managed W) B) x : bind (on_store (ret a)) l x = l a x.
Proof. by destruct x. Qed.
Lemma bind_on_store_raise {A B} e msg (l : A → M (managed W) B) x : bind (on_store (raise e msg)) l x = raise e msg x.
Proof. by destruct x. Qed.

Lemma requests_eq c i y :
  (let! out := on_store
     (if bool_decide (semantics i = RECEIPT_LOOKUP)
      then match provider_idempotency_key i with None => raise AssertionError "" | Some key => ret (inr (i, AskedLookup key)) end
      else ret (inr (i, AskedInvoke))) in
   match out with
   | inl res => ret res
   | inr (i, AskedLookup key) =>
       let! r := answer_of (lookup_receipt (mc_boundary c) key) in
       let! out := on_store (resume_lookup c i r) in
       match out with inl res => ret res | inr _ => after_invoke c i end
   | inr (i, _) => after_invoke c i
   end) y =
  (let! obtained := obtain_receipt (mc_hook c) (mc_boundary c) i in
   on_store (finish c i obtained.1 obtained.2)) y.
Proof.
  unfold obtain_receipt. rewrite bind_assoc.
  assert (Hinvoke : ∀ z, after_invoke c i z =
    bind (let! p := invoke (mc_boundary c) i in observe (mc_hook c) "after_provider" ;;; ret (p, false))
      (λ o : ProviderEffectReceipt * bool, on_store (finish c i o.1 o.2)) z).
  { intros z. rewrite after_invoke_eq, !bind_assoc. apply bind_ext; [done|]. intros p z'. rewrite !bind_assoc.
    by apply bind_ext. }
  case_bool_decide as Hs; [|rewrite bind_on_store_ret; apply Hinvoke].
  destruct (provider_idempotency_key i) as [key|]; [|apply bind_on_store_raise]. rewrite bind_on_store_ret.
  assert (Ha : answer_of (lookup_receipt (mc_boundary c) key) y =
    (Ok (lookup_receipt (mc_boundary c) key y).1, (lookup_receipt (mc_boundary c) key y).2))
    by (unfold answer_of; by destruct (lookup_receipt _ _ y)).
  rewrite (bind_Ok _ _ _ _ _ Ha). destruct (lookup_receipt _ _ y) as [[[p|]|e] [w s cs]] eqn:El; cbn [fst snd].
  - rewrite (bind_Ok _ _ _ _ _ El). unfold resume_lookup, of_result, on_store, bind, ret. cbn.
    by destruct (finish c i p true s) as [[r|e] s'].
  - rewrite (bind_Ok _ _ _ _ _ El). apply Hinvoke.
  - unfold bind. by rewrite El.
Qed.

(** The segments of a call that nothing interrupts are the call. *)
Lemma back_to_back_eq c x : back_to_back c x = run_call redact_text float_of lax_int parse_datetime c x.
Proof.
  unfold back_to_back, run_call, execute, start. rewrite bind_on_store_bind.
  apply bind_ext; [exact (on_store_pure (λ S, validate_boundary _ _) x (pure_guard _ _ _))|]. intros _ y.
  rewrite bind_on_store_bind. apply bind_ext.
  { destruct (negb _); [|by destruct y]. exact (on_store_pure (λ S, validate_uncertainty_inputs _ _ _ _) y (pure_guard _ _ _)). }
  intros _ y1. rewrite bind_on_store_bind. apply bind_ext; [done|]. intros i y2. unfold execute_durable.
  destruct (i_status i).
  - rewrite bind_on_store_bind. apply bind_ext; [exact (on_store_pure (λ S, observe _ _) y2 (pure_observe _ _))|]. intros _ y3.
    destruct (negb _).
    + destruct (mc_run_state c) as [s|], (mc_auth c) as [a|], (mc_expires_at c) as [e|]; try apply bind_on_store_raise.
      rewrite bind_on_store_bind. unfold bind at 1. destruct (on_store _ y3) as [[r|er] [w z cs]]; [|done]. by rewrite bind_on_store_ret.
    + unfold perform. rewrite bind_on_store_bind. apply bind_ext; [exact (on_store_pure (λ S, now_utc _) y3 (pure_now _))|].
      intros now y4. rewrite bind_on_store_bind. apply bind_ext; [done|]. intros _ y5. rewrite requests_eq.
      apply bind_ext; [done|]. intros o y6. unfold finish. rewrite on_store_bind. apply bind_ext; [done|]. intros r y7.
      rewrite on_store_bind. apply bind_ext; [exact (on_store_pure (λ S, observe _ _) y7 (pure_observe _ _))|]. intros _ [w z cs]. done.
  - rewrite bind_on_store_bind. apply bind_ext; [done|]. intros [r|] y3; [by rewrite bind_on_store_ret|apply bind_on_store_raise].
  - rewrite bind_on_store_bind. apply bind_ext; [done|]. intros [r|] y3; [by rewrite bind_on_store_ret|apply bind_on_store_raise].
Qed.

(** ** The machine *)

(** A call in flight: the intent it works on, the database as it was committed
    when the call first waited, and where it is. *)
Record flight := mkFlight {
  fl_call : managed_call;
  fl_intent : SideEffectIntentV1;
  fl_begun : db;
  fl_stage : stage;
}.
Definition at_stage (f : flight) (g : stage) : flight := mkFlight (fl_call f) (fl_intent f) (fl_begun f) g.

(** [m_next] names the next call; [m_invoked] records every request to perform
    an effect that reached the provider, with the call it is of and the database
    as it was committed then; [m_returned] how every call that ended did. *)
Record machine := Machine {
  m_provider : W;
  m_store : session db;
  m_next : nat;
  m_flights : gmap nat flight;
  m_invoked : list (nat * flight * db);
  m_returned : list (managed_call * result ManagedSideEffectResult);
}.

(** A segment of call [n] has run. *)
Definition settle (n : nat) (c : managed_call) (begun_in : option db)
    (out : result (ManagedSideEffectResult + SideEffectIntentV1 * stage)) (s : session db) (x : machine) : machine :=
  match out with
  | Err e => Machine (m_provider x) s (m_next x) (delete n (m_flights x)) (m_invoked x) (m_returned x ++ [(c, Err e)])
  | Ok (inl res) => Machine (m_provider x) s (m_next x) (delete n (m_flights x)) (m_invoked x) (m_returned x ++ [(c, Ok res)])
  | Ok (inr (i, g)) =>
      Machine (m_provider x) s (m_next x)
        (<[n := mkFlight c i (default (committed s) begun_in) g]> (m_flights x)) (m_invoked x) (m_returned x)
  end.
Definition do_start (c : managed_call) (x : machine) : machine :=
  let '(out, s) := start c (m_store x) in
  settle (m_next x) c None out s
    (Machine (m_provider x) (m_store x) (S (m_next x)) (m_flights x) (m_invoked x) (m_returned x)).
Definition do_answer (n : nat) (x : machine) : machine :=
  match m_flights x !! n with
  | Some f =>
      match fl_stage f with
      | AskedLookup key =>
          let '(r, w) := b_lookup_receipt (mc_boundary (fl_call f)) key (m_provider x) in
          Machine w (m_store x) (m_next x) (<[n := at_stage f (GotLookup r)]> (m_flights x)) (m_invoked x) (m_returned x)
      | AskedInvoke =>
          let '(r, w) := b_invoke (mc_boundary (fl_call f)) (fl_intent f) (m_provider x) in
          Machine w (m_store x) (m_next x) (<[n := at_stage f (GotInvoke r)]> (m_flights x))
            (m_invoked x ++ [(n, f, committed (m_store x))]) (m_returned x)
      | _ => x
      end
  | None => x
  end.
Definition do_resume (n : nat) (x : machine) : machine :=
  match m_flights x !! n with
  | Some f =>
      match fl_stage f with
      | GotLookup r =>
          let '(out, s) := resume_lookup (fl_call f) (fl_intent f) r (m_store x) in
          settle n (fl_call f) (Some (fl_begun f)) out s x
      | GotInvoke r =>
          let '(out, s) := resume_invoke (fl_call f) (fl_intent f) r (m_store x) in
          settle n (fl_call f) (Some (fl_begun f)) out s x
      | _ => x
      end
  | None => x
  end.
Definition do_cancel (n : nat) (x : machine) : machine :=
  Machine (m_provider x) (m_store x) (m_next x) (delete n (m_flights x)) (m_invoked x) (m_returned x).
Definition do_others (s : session db) (w : W) (x : machine) : machine :=
  Machine w s (m_next x) (m_flights x) (m_invoked x) (m_returned x).

(** The steps, where [P] says which calls are made and [E] what others may do to
    the provider.  Other code leaves no transaction open, keeps the journal's
    invariant and its settled rows. *)
Inductive step (P : machine → managed_call → Prop) (E : W → W → Prop) (x : machine) : machine → Prop :=
  | step_start c : P x c → step P E x (do_start c x)
  | step_answer n : step P E x (do_answer n x)
  | step_resume n : step P E x (do_resume n x)
  | step_cancel n : step P E x (do_cancel n x)
  | step_others s w :
      quiescent s = true → journal_inv redact_text (committed s) →
      journal_le (committed (m_store x)) (committed s) → E (m_provider x) w → step P E x (do_others s w x).

(** Nothing is in flight and nothing has happened yet. *)
Definition idle (x : machine) : Prop :=
  quiescent (m_store x) = true ∧ journal_inv redact_text (committed (m_store x)) ∧
  m_flights x = ∅ ∧ m_invoked x = [] ∧ m_returned x = [].
(** The conditions on a call: a valid intent, and a clock that, when the receipt
    is recorded, is not behind the creation of the position's intent. *)
Definition may_call (x : machine) (c : managed_call) : Prop :=
  call_ok redact_text (Managed (m_provider x) (m_store x) []) c.

(** ** What each segment does *)

(** A call may ask the provider for the intent [i]: it is committed in [d] as
    open, of a supported kind and of the requested business, the boundary is the
    intent's, and the authority holds its attempt in [d] at the instant the call
    read from its clock. *)
Record written_ahead (c : managed_call) (i : SideEffectIntentV1) (d : db) : Prop := {
  wa_row : ∃ r, side_effect_journal d !! intent_id i = Some r ∧ j_intent r = i;
  wa_open : i_status i = INTENDED;
  wa_supported : supported_semantics (semantics i) = true;
  wa_same : same_business_intent i (mc_intent c) = true;
  wa_boundary : b_name (mc_boundary c) = boundary i ∧ b_semantics (mc_boundary c) = semantics i;
  wa_held : ∃ off, utcoffset (mc_reading c 1) = Some off ∧
    is_Some (held_row d (au_attempt_id (mc_authority c)) (au_owner_id (mc_authority c))
               (au_fencing_token (mc_authority c)) (wall (mc_reading c 1) - off));
}.

(** How a segment leaves the database, from [d0]: settled, the invariant and the
    settled rows kept, and what it hands on satisfies [P]. *)
Definition leaves_store {A} (d0 : db) (P : A → db → Prop) (out : result A * session db) : Prop :=
  quiescent out.2 = true ∧ journal_inv redact_text (committed out.2) ∧ journal_le d0 (committed out.2) ∧
  match out.1 with Ok a => P a (committed out.2) | Err _ => True end.

Lemma leaves_bind {A B} d0 s (Q : A → db → db → Prop) (P : B → db → Prop) (m : M (session db) A) (k : A → M (session db) B) :
  journal_inv redact_text (committed s) → journal_le d0 (committed s) → settles s Q (m s) →
  (∀ a s', quiescent s' = true → Q a (committed s) (committed s') → leaves_store d0 P (k a s')) →
  leaves_store d0 P (bind m k s).
Proof.
  intros Hi Hle (Hq & _ & Hm) Hk. unfold bind. destruct (m s) as [[a|e] s']; cbn in *; [by apply Hk|].
  unfold leaves_store. cbn. by rewrite Hm.
Qed.
Lemma leaves_guarded {A B} d0 s (P : B → db → Prop) (m : M (session db) A) (k : A → M (session db) B) :
  quiescent s = true → journal_inv redact_text (committed s) → journal_le d0 (committed s) → reads m →
  (∀ a, m s = (Ok a, s) → leaves_store d0 P (k a s)) → leaves_store d0 P (bind m k s).
Proof.
  intros Hq Hi Hle Hr Hk. specialize (Hr s). unfold bind. destruct (m s) as [[a|e] s'] eqn:E; cbn in Hr; subst; [by apply Hk|].
  done.
Qed.

Lemma require_settles_at authority now s :
  quiescent s = true →
  settles s (λ _ d d', d' = d ∧ is_Some (held_row d (au_attempt_id authority) (au_owner_id authority)
                                           (au_fencing_token authority) now))
    (require_current_now authority now s).
Proof.
  intros Hq. apply settles_uow; [done|]. intros u d' (-> & t & Ht & Hr)%require_current_held. split; [done|].
  unfold to_utc, utc_at in Ht. cbn in Ht. apply checked_instant_Ok_inv in Ht as (-> & _). by rewrite Z.sub_0_r in Hr.
Qed.

Lemma frozen_same_business r r' : journal_row_frozen r r' = true →
  same_business_intent (j_intent r') (j_intent r) = true ∧ i_created_at (j_intent r') = i_created_at (j_intent r).
Proof.
  unfold journal_row_frozen, same_business_intent. cbn zeta. rewrite !andb_true_iff, !bool_decide_eq_true, !Z.eqb_eq.
  intros H. repeat match goal with H : _ ∧ _ |- _ => destruct H end. repeat split; congruence.
Qed.

(** The receipt of a call is recorded over whatever happened to its intent since:
    it is stored, or the journal already holds it. *)
Lemma record_later reading authority i p s r0 r :
  quiescent s = true → journal_inv redact_text (committed s) → j_intent r0 = i →
  side_effect_journal (committed s) !! intent_id i = Some r → same_intent r0 r →
  not_before (reading 2%nat) (i_created_at i) →
  settles s (λ y d d', journal_inv redact_text d' ∧ journal_le d d' ∧ receipted d' i y)
    (record_provider_receipt redact_text reading authority i p s).
Proof.
  intros Hq Hi Hj Hr (Hfr & _) Ht. apply frozen_same_business in Hfr as [Hsame Hcr]. rewrite Hj in Hsame, Hcr.
  unfold record_provider_receipt. apply settles_guarded; [done|apply reads_now_utc|]. intros now Hnow.
  assert (Hnow' : i_created_at i ≤ now).
  { apply now_utc_Ok_inv in Hnow as (_ & off & Ho & ->). by apply Ht. }
  apply settles_guarded; [done| |].
  { unfold provider_receipt. apply reads_bind; [apply reads_of_result|]. intros h.
    apply reads_bind; [apply reads_to_utc|]. intros e. auto with py. }
  intros x Hx. unfold provider_receipt in Hx. step_M Hx. step_M Hx. step_M Hx. apply ret_Ok_inv in Hx as [-> _].
  apply settles_uow; [done|]. intros y d' H. match type of H with record_receipt_current _ ?x0 _ _ = _ => set (x := x0) in * end.
  assert (Hok : journal_op_ok redact_text (committed s) (JReceipt x (i_version i))).
  { intros r' Hr'. cbn in Hr'. rewrite Hr in Hr'. injection Hr' as <-. cbn. by rewrite Hcr. }
  pose proof (exec_journal_ok redact_text _ _ Hi Hok) as [Hi' _]. cbn [exec_journal] in Hi'.
  rewrite (atomically_Ok _ _ _ _ H) in Hi'. split; [exact Hi'|].
  pose proof H as H'. apply record_Ok_inv in H' as [[-> (r' & Hr' & Hs')]|(r' & Hr' & Hst & Hy & _ & _ & _ & _ & _ & -> & _ & _ & _)]; [| |done].
  - split; [apply journal_le_refl|]. unfold record_receipt_current in H. rewrite bind_sql_get in H. cbn in H. rewrite Hr in H.
    apply bind_Ok_inv in H as (o & d1 & Ho & H). pose proof (decode_receipt_state _ _ _ _ _ Ho) as ->.
    rewrite (decode_receipt_eq redact_text _ _ r Hi Hr) in Ho. cbn in Hr'.
    destruct (bool_decide_reflect (i_status (j_intent r) = RECEIPTED)) as [Hs|Hs].
    + destruct (j_receipt r) as [c|] eqn:Hc; cbn in Ho; injection Ho as <-.
      * destruct (_ && _); [apply ret_Ok_inv in H as [-> _]|done]. by exists r, c.
      * rewrite (bind_Ok _ _ _ _ _ (decode_intent_eq redact_text _ _ r Hi Hr)) in H. step_M H. bools. congruence.
    + rewrite Hr in Hr'. congruence.
  - cbn in Hr'. rewrite Hr in Hr'. injection Hr' as <-. unfold intended_at in Hst. bools. split.
    + eapply journal_le_put; [exact Hr|]. by apply edge_same_intent, edge_receipt.
    + eexists _, _. split; [apply lookup_insert_eq|]. split; [|done].
      eapply same_business_trans; [apply same_business_set|exact Hsame].
Qed.

(** A call in flight, over the database [d]: its request was written ahead, and
    the journal has only moved on since. *)
Record in_flight (d : db) (f : flight) : Prop := {
  if_ahead : written_ahead (fl_call f) (fl_intent f) (fl_begun f);
  if_kept : journal_le (fl_begun f) d;
  if_clock : not_before (mc_reading (fl_call f) 2) (i_created_at (fl_intent f));
  if_key : match fl_stage f with
           | AskedLookup key => provider_idempotency_key (fl_intent f) = Some key
           | _ => True
           end;
}.
Lemma in_flight_later d d' f : in_flight d f → journal_le d d' → in_flight d' f.
Proof. intros [A K C S] Hle. split; [done| |done..]. by eapply journal_le_trans. Qed.

(** What a segment hands on: a result the journal backs, or a request. *)
Definition hands_on (c : managed_call) (begun_in : option db) (out : ManagedSideEffectResult + SideEffectIntentV1 * stage)
    (d : db) : Prop :=
  match out with
  | inl res => evidence d (mc_intent c) res
  | inr (i, g) => in_flight d (mkFlight c i (default d begun_in) g)
  end.

Lemma finish_leaves c s f p reconciled :
  quiescent s = true → journal_inv redact_text (committed s) → in_flight (committed s) f → fl_call f = c →
  leaves_store (committed s) (λ res d, evidence d (mc_intent c) res) (finish c (fl_intent f) p reconciled s).
Proof.
  intros Hq Hi [Ha Hk Hc _] <-. destruct (wa_row _ _ _ Ha) as (r0 & Hr0 & Hj0). destruct (Hk _ _ Hr0) as (r & Hr & Hs).
  unfold finish. eapply leaves_bind; [done|apply journal_le_refl|by eapply record_later|].
  intros y s' Hq' (Hi' & Hle' & Hrec). apply leaves_guarded; [done..|apply reads_observe_hook|]. intros u _.
  split; [done|]. split; [done|]. split; [done|]. left. exists y. split_and!; [done..|].
  eapply receipted_same; [exact (wa_same _ _ _ Ha)|done].
Qed.

Lemma resume_lookup_leaves s f r :
  quiescent s = true → journal_inv redact_text (committed s) → in_flight (committed s) f →
  leaves_store (committed s) (hands_on (fl_call f) (Some (fl_begun f))) (resume_lookup (fl_call f) (fl_intent f) r s).
Proof.
  intros Hq Hi Hf. unfold resume_lookup. apply leaves_guarded; [done|done|apply journal_le_refl|apply reads_of_result|].
  intros [p|] _.
  - pose proof (finish_leaves (fl_call f) s f p true Hq Hi Hf eq_refl) as (Hq' & Hi' & Hle' & Hev).
    unfold bind. destruct (finish _ _ _ _ s) as [[res|e] s']; done.
  - split; [done|]. split; [done|]. split; [apply journal_le_refl|]. destruct Hf as [A K C _]. by split.
Qed.
Lemma resume_invoke_leaves s f r :
  quiescent s = true → journal_inv redact_text (committed s) → in_flight (committed s) f →
  leaves_store (committed s) (hands_on (fl_call f) (Some (fl_begun f))) (resume_invoke (fl_call f) (fl_intent f) r s).
Proof.
  intros Hq Hi Hf. unfold resume_invoke. apply leaves_guarded; [done|done|apply journal_le_refl|apply reads_of_result|].
  intros p _. apply leaves_guarded; [done|done|apply journal_le_refl|apply reads_observe_hook|]. intros u _.
  pose proof (finish_leaves (fl_call f) s f p false Hq Hi Hf eq_refl) as (Hq' & Hi' & Hle' & Hev).
  unfold bind. destruct (finish _ _ _ _ s) as [[res|e] s']; done.
Qed.

(** The requests a call starts with. *)
Definition first_stage (i : SideEffectIntentV1) (g : stage) : Prop :=
  match g with
  | AskedLookup key => provider_idempotency_key i = Some key
  | AskedInvoke => semantics i ≠ RECEIPT_LOOKUP
  | _ => False
  end.
Definition starts_with (c : managed_call) (out : ManagedSideEffectResult + SideEffectIntentV1 * stage) (d : db) : Prop :=
  hands_on c None out d ∧ match out with inr (i, g) => first_stage i g | inl _ => True end.

Lemma start_perform_leaves c i s d0 :
  quiescent s = true → begun redact_text (mc_authority c) (mc_intent c) i d0 (committed s) → i_status i = INTENDED →
  b_name (mc_boundary c) = boundary i → b_semantics (mc_boundary c) = semantics i →
  supported_semantics (semantics i) = true → not_before (mc_reading c 2) (i_created_at i) →
  leaves_store d0 (starts_with c)
    ((let! now := now_utc (mc_reading c 1) in
      require_current_now (mc_authority c) now ;;;
      if bool_decide (semantics i = RECEIPT_LOOKUP) then
        match provider_idempotency_key i with
        | None => raise AssertionError ""
        | Some key => ret (inr (i, AskedLookup key))
        end
      else ret (inr (i, AskedInvoke))) s).
Proof.
  intros Hq Hb Ho Hn Hse Hsup Ht. pose proof (bg_inv _ _ _ _ _ _ Hb) as Hi. pose proof (bg_le _ _ _ _ _ _ Hb) as Hle.
  apply leaves_guarded; [done..|apply reads_now_utc|]. intros now (_ & off & Hoff & ->)%now_utc_Ok_inv.
  eapply leaves_bind; [done..|by apply require_settles_at|]. intros [] s' Hq' [Hc Hheld].
  assert (Hw : written_ahead c i (committed s')).
  { split; [rewrite Hc; exact (bg_row _ _ _ _ _ _ Hb)|done|done|exact (bg_same _ _ _ _ _ _ Hb)|done|].
    exists off. by rewrite Hc. }
  case_bool_decide as Hl; [destruct (provider_idempotency_key i) as [key|] eqn:Hkey|];
    (split; [done|]; split; [cbn; by rewrite Hc|]; split; [cbn; by rewrite Hc|]); try done.
  all: split; [|done]; split; [done|apply journal_le_refl|done|done].
Qed.

Lemma start_leaves c (x : managed W) :
  ready redact_text x → call_ok redact_text x c →
  leaves_store (committed (store x)) (starts_with c) (start c (store x)).
Proof.
  intros [Hq Hi] (Hv & Ht1 & Ht2). set (s := store x) in *. pose proof (journal_le_refl (committed s)) as Hle.
  unfold start, validate_boundary. apply leaves_guarded; [done..|apply reads_guard|]. intros u (Hu & _)%guard_Ok_inv. bools.
  apply leaves_guarded; [done..|unfold validate_uncertainty_inputs; case_match; auto with py|]. intros u' _.
  eapply leaves_bind; [done..|by apply begin_settles|]. intros i s1 Hq1 Hb.
  pose proof (bg_inv _ _ _ _ _ _ Hb) as Hi1. pose proof (bg_le _ _ _ _ _ _ Hb) as Hle1.
  destruct (bg_row _ _ _ _ _ _ Hb) as (r & Hr & Hj).
  pose proof (bg_same _ _ _ _ _ _ Hb) as Hsame. pose proof (same_business_id _ _ Hsame) as [Hid Hsem].
  assert (Hbd : boundary i = boundary (mc_intent c)) by (unfold same_business_intent in Hsame; bools; done).
  destruct (i_status i) eqn:Hs.
  - apply leaves_guarded; [done..|apply reads_observe_hook|]. intros u2 _.
    destruct (supported_semantics (semantics (mc_intent c))) eqn:Hsup; cbn [negb].
    + apply start_perform_leaves; [done|done|done|congruence|congruence|congruence|].
      destruct (bg_created _ _ _ _ _ _ Hb) as [[-> _]|Hd]; [done|]. rewrite <-Hj. apply Ht2.
      rewrite <-Hid. fold s. by rewrite <-Hd.
    + destruct (mc_run_state c) as [st|], (mc_auth c) as [a|], (mc_expires_at c) as [e|]; try done.
      eapply leaves_bind; [done..|by eapply suspend_settles|]. intros res s2 Hq2 (q & ex & now & -> & _ & Hi2 & Hle2 & Hun).
      split; [done|]. split; [done|]. split; [by eapply journal_le_trans|]. split; [|done]. right.
      exists (decision_request_id q). split_and!; [done..|]. by eapply uncertain_same.
  - eapply leaves_bind; [done..|by apply load_receipt_settles|]. intros o s2 Hq2 [Hc Hload].
    unfold load_receipt_current in Hload. rewrite bind_sql_get in Hload. cbn [tbl journal_table] in Hload. rewrite Hr in Hload.
    rewrite (decode_receipt_eq redact_text _ _ r Hi1 Hr) in Hload. rewrite Hj, Hs, bool_decide_eq_true_2 in Hload by done.
    injection Hload as <-. destruct (j_receipt r) as [y|] eqn:Hy; cbn [fmap option_fmap option_map];
      (split; [done|]; split; [cbn; by rewrite Hc|]; split; [cbn; by rewrite Hc|]); [|done].
    split; [|done]. left. eexists. split_and!; [done..|]. cbn. rewrite Hc. eapply receipted_same; [exact Hsame|].
    exists r, y. rewrite Hj. split_and!; [done|apply same_business_refl|done|done|done].
  - eapply leaves_bind; [done..|by apply decision_id_settles|]. intros o s2 Hq2 [Hc Ho]. rewrite Hr in Ho. cbn in Ho. subst o.
    destruct (j_uncertainty_decision_id r) as [q|] eqn:Hq';
      (split; [done|]; split; [cbn; by rewrite Hc|]; split; [cbn; by rewrite Hc|]); [|done].
    split; [|done]. right. exists q. split_and!; [done..|]. cbn. rewrite Hc. eapply uncertain_same; [exact Hsame|].
    exists r. rewrite Hj. split_and!; [done|apply same_business_refl|done|done].
Qed.

(** A call whose authority is not the one its attempt runs under asks for
    nothing and changes nothing. *)
Lemma start_unheld c (x : managed W) out s' :
  ready redact_text x → call_ok redact_text x c → ¬ held_by (committed (store x)) (mc_authority c) →
  start c (store x) = (out, s') →
  committed s' = committed (store x) ∧ match out with Ok (inr _) => False | _ => True end.
Proof.
  intros [Hq Hi] (Hv & _) Hh Hst.
  enough (Hset : settles (store x) (λ a d d', d' = d ∧ match a with inr _ => False | inl _ => True end) (start c (store x))).
  { destruct Hset as (_ & _ & H). rewrite Hst in H. cbn in H. destruct out as [[?|?]|]; naive_solver. }
  clear Hst. unfold start, validate_boundary. apply settles_guarded; [done|apply reads_guard|]. intros u _.
  apply settles_guarded; [done|unfold validate_uncertainty_inputs; case_match; auto with py|]. intros u' _.
  pose proof (begin_settles redact_text (mc_reading c) (mc_authority c) (mc_intent c) (store x) Hq Hi Hv) as (Hq1 & Hl1 & Hb).
  unfold bind at 1. destruct (begin_or_recover _ _ _ _ _) as [[i|e] s1]; cbn in Hq1, Hl1, Hb; [|done].
  assert (Hs : i_status i ≠ INTENDED) by (intros H; by apply Hh, (bg_held _ _ _ _ _ _ Hb)).
  assert (Hc1 : committed s1 = committed (store x)) by (by destruct (bg_idle _ _ _ _ _ _ Hb)).
  destruct (i_status i); [done|..]; unfold bind.
  - pose proof (load_receipt_settles redact_text s1 (intent_id i) Hq1) as (Hq2 & Hl2 & Hm).
    destruct (load_receipt _ _ s1) as [[[y|]|e] s2]; cbn in *; unfold settles; cbn; intuition congruence.
  - pose proof (decision_id_settles s1 (intent_id i) Hq1) as (Hq2 & Hl2 & Hm).
    destruct (uncertainty_decision_id _ s1) as [[[y|]|e] s2]; cbn in *; unfold settles; cbn; intuition congruence.
Qed.

(** ** The invariant *)

Record machine_inv (d0 : db) (x : machine) : Prop := {
  mi_quiet : quiescent (m_store x) = true;
  mi_inv : journal_inv redact_text (committed (m_store x));
  mi_le : journal_le d0 (committed (m_store x));
  mi_flights n f : m_flights x !! n = Some f → (n < m_next x)%nat ∧ in_flight (committed (m_store x)) f;
  mi_once : NoDup ((λ v, v.1.1) <$> m_invoked x);
  mi_ids n f d : (n, f, d) ∈ m_invoked x →
    (n < m_next x)%nat ∧ ∀ f', m_flights x !! n = Some f' → ∃ r, fl_stage f' = GotInvoke r;
  mi_ahead n f d : (n, f, d) ∈ m_invoked x →
    written_ahead (fl_call f) (fl_intent f) (fl_begun f) ∧ journal_le (fl_begun f) d ∧ journal_le d (committed (m_store x));
  mi_returned c res : (c, Ok res) ∈ m_returned x → evidence (committed (m_store x)) (mc_intent c) res;
}.

Lemma idle_inv x : idle x → machine_inv (committed (m_store x)) x.
Proof.
  intros (Hq & Hi & Hf & Hv & Hr). split; rewrite ?Hf, ?Hv, ?Hr; try done; [apply journal_le_refl|constructor|set_solver..].
Qed.

Lemma settled_later d d' k r : journal_le d d' → side_effect_journal d !! k = Some r →
  i_status (j_intent r) ≠ INTENDED → side_effect_journal d' !! k = Some r.
Proof. intros Hle Hk Hs. destruct (Hle k r Hk) as (r' & Hr' & _ & _ & Hsame). by rewrite Hr', (Hsame Hs). Qed.
Lemma evidence_later d d' i res : journal_le d d' → evidence d i res → evidence d' i res.
Proof.
  intros Hle [(y & H1 & H2 & H3 & r & c & Hk & Hb & Hs & Hrest)|(q & H1 & H2 & H3 & r & Hk & Hb & Hs & Hrest)]; [left|right].
  - exists y. split_and!; [done..|]. exists r, c. split; [|done]. eapply settled_later; [done..|]. by rewrite Hs.
  - exists q. split_and!; [done..|]. exists r. split; [|done]. eapply settled_later; [done..|]. by rewrite Hs.
Qed.

(** The store moves on. *)
Lemma store_inv d0 x s :
  machine_inv d0 x → quiescent s = true → journal_inv redact_text (committed s) →
  journal_le (committed (m_store x)) (committed s) →
  machine_inv d0 (Machine (m_provider x) s (m_next x) (m_flights x) (m_invoked x) (m_returned x)).
Proof.
  intros [Q I L F O D A R] Hq Hi Hle. split; cbn; [done|done|by eapply journal_le_trans| |done|done| |].
  - intros n f Hf. destruct (F n f Hf) as [Hn Hin]. split; [done|]. by eapply in_flight_later.
  - intros n f d Hv. destruct (A n f d Hv) as (H1 & H2 & H3). split_and!; [done..|]. by eapply journal_le_trans.
  - intros c res Hr. eapply evidence_later; [done|by apply R].
Qed.
(** A call leaves. *)
Lemma leave_inv d0 x n c (out : result ManagedSideEffectResult) :
  machine_inv d0 x →
  match out with Ok res => evidence (committed (m_store x)) (mc_intent c) res | Err _ => True end →
  machine_inv d0 (Machine (m_provider x) (m_store x) (m_next x) (delete n (m_flights x)) (m_invoked x) (m_returned x ++ [(c, out)])).
Proof.
  intros [Q I L F O D A R] Hout. split; cbn; try done.
  - intros n' f [_ Hf]%lookup_delete_Some. by apply F.
  - intros n' f d Hv. destruct (D n' f d Hv) as [Hn Hd]. split; [done|]. intros f' [_ Hf]%lookup_delete_Some. by apply Hd.
  - intros c' res [Hr|Hr%list_elem_of_singleton]%elem_of_app; [by apply R|]. by simplify_eq.
Qed.
(** A call that asked for nothing yet waits. *)
Lemma wait_inv d0 x n f :
  machine_inv d0 x → (n < m_next x)%nat → in_flight (committed (m_store x)) f → n ∉ (λ v, v.1.1) <$> m_invoked x →
  machine_inv d0 (Machine (m_provider x) (m_store x) (m_next x) (<[n := f]> (m_flights x)) (m_invoked x) (m_returned x)).
Proof.
  intros [Q I L F O D A R] Hn Hf Hnew. split; cbn; try done.
  - intros n' f' [[<- <-]|[_ H]]%lookup_insert_Some; [done|by apply F].
  - intros n' f' d Hv. destruct (D n' f' d Hv) as [Hn' Hd]. split; [done|]. intros f'' [[-> _]|[_ H]]%lookup_insert_Some; [|by eapply Hd].
    destruct Hnew. apply list_elem_of_fmap. by exists (n', f', d).
Qed.

Lemma settle_inv d0 x n c b out s :
  machine_inv d0 x → leaves_store (committed (m_store x)) (hands_on c b) (out, s) → (n < m_next x)%nat →
  match out with Ok (inr _) => n ∉ (λ v, v.1.1) <$> m_invoked x | _ => True end →
  machine_inv d0 (settle n c b out s x).
Proof.
  intros Hx (Hq & Hi & Hle & Hout) Hn Hnew. pose proof (store_inv d0 x s Hx Hq Hi Hle) as Hs. cbn [fst snd] in *.
  destruct out as [[res|[i g]]|e]; cbn [settle].
  - exact (leave_inv d0 _ n c (Ok res) Hs Hout).
  - exact (wait_inv d0 _ n _ Hs Hn Hout Hnew).
  - exact (leave_inv d0 _ n c (Err e) Hs Logic.I).
Qed.

Lemma not_invoked d0 x n f : machine_inv d0 x → m_flights x !! n = Some f →
  (∀ r, fl_stage f ≠ GotInvoke r) → n ∉ (λ v, v.1.1) <$> m_invoked x.
Proof.
  intros Hx Hf Hg ([[n' f'] d] & -> & Hv)%list_elem_of_fmap. destruct (mi_ids _ _ Hx _ _ _ Hv) as [_ H].
  destruct (H f Hf) as [r Hr]. by apply (Hg r).
Qed.

Lemma start_inv d0 x c : machine_inv d0 x → may_call x c → machine_inv d0 (do_start c x).
Proof.
  intros Hx Hc. unfold do_start.
  assert (Hr : ready redact_text (Managed (m_provider x) (m_store x) [])) by (split; [apply Hx|exact (mi_inv _ _ Hx)]).
  pose proof (start_leaves c _ Hr Hc) as Hst. cbn [store] in Hst. destruct (start c (m_store x)) as [out s].
  assert (Hx' : machine_inv d0 (Machine (m_provider x) (m_store x) (S (m_next x)) (m_flights x) (m_invoked x) (m_returned x))).
  { destruct Hx as [Q I L F O D A R]. split; cbn; try done.
    - intros n f Hf. destruct (F n f Hf). split; [lia|done].
    - intros n f d Hv. destruct (D n f d Hv). split; [lia|done]. }
  apply settle_inv; [done| |cbn; lia|].
  - destruct Hst as (? & ? & ? & H). split_and!; [done..|]. cbn in *. destruct out; [apply H|done].
  - destruct out as [[?|?]|?]; [done| |done]. cbn. intros ([[n' f'] d] & Hn & Hv)%list_elem_of_fmap.
    destruct (mi_ids _ _ Hx _ _ _ Hv) as [H _]. cbn in Hn. lia.
Qed.

Lemma answer_inv d0 x n : machine_inv d0 x → machine_inv d0 (do_answer n x).
Proof.
  intros Hx. unfold do_answer. destruct (m_flights x !! n) as [f|] eqn:Hf; [|done].
  destruct (mi_flights _ _ Hx _ _ Hf) as [Hn Hin].
  destruct (fl_stage f) as [key| | |] eqn:Hg; [|done| |done].
  - destruct (b_lookup_receipt _ _ _) as [r w].
    assert (Hin' : in_flight (committed (m_store x)) (at_stage f (GotLookup r))) by (destruct Hin; by split).
    pose proof (wait_inv d0 x n _ Hx Hn Hin' (not_invoked _ _ _ _ Hx Hf ltac:(by rewrite Hg))) as [Q I L F O D A R]. by split.
  - destruct (b_invoke _ _ _) as [r w]. pose proof (not_invoked _ _ _ _ Hx Hf ltac:(by rewrite Hg)) as Hnew.
    destruct Hx as [Q I L F O D A R]. split; cbn; try done.
    + intros n' f' [[<- <-]|[_ H]]%lookup_insert_Some; [|by apply F]. split; [done|]. destruct Hin. by split.
    + rewrite fmap_app. apply NoDup_app. split_and!; [done| |apply NoDup_singleton]. intros n' H1 H2%list_elem_of_singleton. by subst.
    + intros n' f' d [H|H%list_elem_of_singleton]%elem_of_app.
      * destruct (D n' f' d H) as [Hn' Hd]. split; [done|]. intros f'' [[-> <-]|[_ H']]%lookup_insert_Some; [by exists r|by eapply Hd].
      * simplify_eq. split; [done|]. intros f'' [[_ <-]|[? _]]%lookup_insert_Some; [by exists r|done].
    + intros n' f' d [H|H%list_elem_of_singleton]%elem_of_app; [by eapply A|]. simplify_eq.
      split_and!; [apply Hin|apply Hin|apply journal_le_refl].
Qed.

Lemma resume_inv d0 x n : machine_inv d0 x → machine_inv d0 (do_resume n x).
Proof.
  intros Hx. unfold do_resume. destruct (m_flights x !! n) as [f|] eqn:Hf; [|done].
  destruct (mi_flights _ _ Hx _ _ Hf) as [Hn Hin].
  destruct (fl_stage f) as [|r| |r] eqn:Hg; [done| |done|].
  - pose proof (resume_lookup_leaves (m_store x) f r (mi_quiet _ _ Hx) (mi_inv _ _ Hx) Hin) as Hl.
    destruct (resume_lookup _ _ _ _) as [out s]. apply settle_inv; [done..|].
    destruct out as [[?|?]|?]; [done| |done]. exact (not_invoked _ _ _ _ Hx Hf ltac:(by rewrite Hg)).
  - pose proof (resume_invoke_leaves (m_store x) f r (mi_quiet _ _ Hx) (mi_inv _ _ Hx) Hin) as Hl.
    destruct (resume_invoke _ _ _ _) as [out s] eqn:Hri. apply settle_inv; [done..|].
    destruct out as [[?|?]|?]; [done| |done]. exfalso. unfold resume_invoke in Hri.
    apply bind_Ok_inv in Hri as (v & s1 & _ & Hri). apply bind_Ok_inv in Hri as (u & s2 & _ & Hri).
    apply bind_Ok_inv in Hri as (res & s3 & _ & [? _]%ret_Ok_inv). done.
Qed.

Lemma step_inv P E d0 x x' :
  (∀ y c, P y c → may_call y c) → machine_inv d0 x → step P E x x' → machine_inv d0 x'.
Proof.
  intros HP Hx [c Hc|n|n|n|s w Hq Hi Hle _].
  - apply start_inv; auto.
  - by apply answer_inv.
  - by apply resume_inv.
  - destruct Hx as [Q I L F O D A R]. split; cbn; try done.
    + intros n' f [_ Hf]%lookup_delete_Some. by apply F.
    + intros n' f d Hv. destruct (D n' f d Hv) as [Hn Hd]. split; [done|]. intros f' [_ Hf]%lookup_delete_Some. by apply Hd.
  - destruct (store_inv d0 x s Hx Hq Hi Hle) as [Q I L F O D A R]. by split.
Qed.
Lemma machine_steps_inv P E d0 x x' :
  (∀ y c, P y c → may_call y c) → machine_inv d0 x → rtc (step P E) x x' → machine_inv d0 x'.
Proof. intros HP Hx Hs. induction Hs as [|x y z Hxy _ IH]; [done|]. apply IH. by eapply step_inv. Qed.

(** ** Theorems *)

(** C7. What the calls of the service do, along any interleaving of them with each other,
    with cancellations at their awaits, with the answers of the provider and with other code
    that keeps the journal's invariant and its settled rows, where every call has a valid
    intent and a clock that, when the receipt is recorded, is not behind the creation of the
    intent of its position: the journal keeps its invariant and its settled rows; a call
    asks the provider to perform its effect at most once; before it asks for anything, its
    intent was committed as open, of a supported kind and of the requested business, and its
    authority held the attempt at the instant the call read from its clock, and until the
    request arrives the journal has only moved on from there; a result that was returned is
    backed by the committed journal from then on; and a call whose attempt does not run
    under the owner and token it presents asks for nothing and changes nothing. The
    authority is not checked again between an answer that no receipt exists and the request
    to perform. *)
Theorem managed_effect_outcome (E : W → W → Prop) x x' :
  idle x → rtc (step may_call E) x x' →
  let d' := committed (m_store x') in
  journal_inv redact_text d' ∧ journal_le (committed (m_store x)) d' ∧
  NoDup ((λ v, v.1.1) <$> m_invoked x') ∧
  (∀ n f d, (n, f, d) ∈ m_invoked x' →
     written_ahead (fl_call f) (fl_intent f) (fl_begun f) ∧ journal_le (fl_begun f) d ∧ journal_le d d') ∧
  (∀ c res, (c, Ok res) ∈ m_returned x' → evidence d' (mc_intent c) res) ∧
  (∀ c, may_call x' c → ¬ held_by d' (mc_authority c) →
     committed (m_store (do_start c x')) = d' ∧ m_flights (do_start c x') = m_flights x' ∧
     m_provider (do_start c x') = m_provider x').
Proof.
  intros Hx Hs. pose proof (machine_steps_inv _ _ _ _ _ (λ _ _ H, H) (idle_inv _ Hx) Hs) as [Q I L F O D A R].
  split_and!; [done|done|done|exact A|exact R|]. intros c Hc Hh. unfold do_start.
  destruct (start c (m_store x')) as [out s] eqn:Hst.
  destruct (start_unheld c (Managed (m_provider x') (m_store x') []) out s (conj Q I) Hc Hh Hst) as [Hd Hout].
  assert (Hnone : m_flights x' !! m_next x' = None).
  { destruct (m_flights x' !! m_next x') as [f|] eqn:Hf; [|done]. destruct (F _ _ Hf). lia. }
  destruct out as [[res|?]|e]; [|done|]; cbn; by rewrite delete_id.
Qed.

(** No call for the effect of the same key is in flight. *)
Definition alone (b : ManagedSideEffectBoundary W) (x : machine) (c : managed_call) : Prop :=
  may_call x c ∧ mc_boundary c = b ∧
  ∀ n f, m_flights x !! n = Some f → provider_idempotency_key (fl_intent f) ≠ provider_idempotency_key (mc_intent c).

Section at_most_once.
Context (b : ManagedSideEffectBoundary W) (performed : W → string → nat) `{!ReceiptLookup b performed} (k : string).

(** The call will ask for the effect, or has asked. *)
Definition about_to_invoke (g : stage) : Prop := g = AskedInvoke ∨ g = GotLookup (Ok None).
Definition of_key (f : flight) : Prop := provider_idempotency_key (fl_intent f) = Some k.
Record once (w : W) (fs : gmap nat flight) : Prop := {
  on_performed : (performed w k ≤ 1)%nat;
  on_boundary n f : fs !! n = Some f → mc_boundary (fl_call f) = b;
  on_single n n' f f' : fs !! n = Some f → fs !! n' = Some f' → of_key f → of_key f' → n = n';
  on_none n f : fs !! n = Some f → of_key f → about_to_invoke (fl_stage f) → performed w k = 0%nat;
}.

Lemma once_delete w fs n : once w fs → once w (delete n fs).
Proof.
  intros [P B S N]. split; [done|..].
  - intros n1 f1 [_ H1]%lookup_delete_Some. eauto.
  - intros n1 n2 f1 f2 [_ H1]%lookup_delete_Some [_ H2]%lookup_delete_Some. eauto.
  - intros n1 f1 [_ H1]%lookup_delete_Some. eauto.
Qed.
(** Call [n] goes on to another stage of the same intent. *)
Lemma once_advance w w' fs n f f' :
  once w fs → fs !! n = Some f → fl_intent f' = fl_intent f → fl_call f' = fl_call f → (performed w' k ≤ 1)%nat →
  (∀ n1 f1, n1 ≠ n → fs !! n1 = Some f1 → of_key f1 → performed w k = 0%nat → performed w' k = 0%nat) →
  (of_key f → about_to_invoke (fl_stage f') → performed w' k = 0%nat) →
  once w' (<[n := f']> fs).
Proof.
  intros [P B S N] Hf Hi Hc Hp Ho Hn. assert (Hk : of_key f' ↔ of_key f) by (unfold of_key; by rewrite Hi). split; [done|..].
  - intros n1 f1 [[<- <-]|[_ H1]]%lookup_insert_Some; [rewrite Hc|]; eauto.
  - intros n1 n2 f1 f2 [[<- <-]|[N1 H1]]%lookup_insert_Some [[<- <-]|[N2 H2]]%lookup_insert_Some K1 K2; [done|..];
      rewrite ?Hk in *; eauto.
  - intros n1 f1 [[<- <-]|[N1 H1]]%lookup_insert_Some K1 A1; [by apply Hn; [apply Hk|]|]. eapply Ho; eauto.
Qed.

Lemma once_start d0 x c :
  machine_inv d0 x → once (m_provider x) (m_flights x) → alone b x c →
  once (m_provider (do_start c x)) (m_flights (do_start c x)).
Proof.
  intros Hx Ho (Hc & Hb & Hal). unfold do_start.
  assert (Hr : ready redact_text (Managed (m_provider x) (m_store x) [])) by (split; [apply Hx|exact (mi_inv _ _ Hx)]).
  pose proof (start_leaves c _ Hr Hc) as (_ & _ & _ & Hst). cbn [store] in Hst. destruct (start c (m_store x)) as [out s].
  destruct out as [[res|[i g]]|e]; cbn [settle m_provider m_flights]; [by apply once_delete| |by apply once_delete].
  cbn [fst snd] in Hst. destruct Hst as [Hin Hg]. pose proof (wa_same _ _ _ (if_ahead _ _ Hin)) as Hsame.
  pose proof (wa_boundary _ _ _ (if_ahead _ _ Hin)) as [_ Hse]. cbn [fl_call fl_intent] in Hsame, Hse.
  assert (Hkey : provider_idempotency_key i = provider_idempotency_key (mc_intent c))
    by (unfold same_business_intent in Hsame; bools; done).
  assert (Hnew : ∀ n f, m_flights x !! n = Some f → of_key f → provider_idempotency_key i = Some k → False).
  { intros n f Hf Hk Hi. apply (Hal n f Hf). unfold of_key in Hk. congruence. }
  destruct Ho as [P B S N]. split; [done|..].
  - intros n f [[<- <-]|[_ H]]%lookup_insert_Some; [done|eauto].
  - intros n1 n2 f1 f2 [[<- <-]|[N1 H1]]%lookup_insert_Some [[<- <-]|[N2 H2]]%lookup_insert_Some K1 K2; [done|..|by eauto];
      exfalso; eapply Hnew; eauto.
  - intros n f [[<- <-]|[N1 H1]]%lookup_insert_Some K A; [|eauto]. exfalso. cbn in A. destruct A as [->| ->]; [|done].
    cbn in Hg. apply Hg. rewrite <-Hse, Hb. apply rl_semantics.
Qed.

Lemma once_answer d0 x n :
  machine_inv d0 x → once (m_provider x) (m_flights x) → once (m_provider (do_answer n x)) (m_flights (do_answer n x)).
Proof.
  intros Hx Ho. unfold do_answer. destruct (m_flights x !! n) as [f|] eqn:Hf; [|done].
  pose proof (if_key _ _ (proj2 (mi_flights _ _ Hx _ _ Hf))) as Hkey. pose proof (on_boundary _ _ Ho _ _ Hf) as Hb. rewrite Hb.
  destruct (fl_stage f) as [key| | |] eqn:Hg; [|done| |done].
  - pose proof (rl_lookup (b := b) key (m_provider x) k) as H1. pose proof (rl_none (b := b) key (m_provider x)) as H2.
    destruct (b_lookup_receipt b key (m_provider x)) as [r w] eqn:Hl. cbn [fst snd m_provider m_flights] in *.
    eapply once_advance; [done|done|done|done|rewrite H1; apply Ho|by rewrite H1|]. cbn. intros Hk [|[= ->]]; [done|].
    rewrite H1. assert (key = k) as -> by (unfold of_key in Hk; congruence). by apply H2.
  - pose proof (rl_invoke (b := b) (fl_intent f) (m_provider x) k) as H1.
    destruct (b_invoke b (fl_intent f) (m_provider x)) as [r w] eqn:Hl. cbn [fst snd m_provider m_flights] in *.
    destruct (decide (provider_idempotency_key (fl_intent f) = Some k)) as [Hk|Hk].
    + pose proof (on_none _ _ Ho _ _ Hf Hk ltac:(by left)) as H0.
      eapply once_advance; [done|done|done|done|lia| |]; [|cbn; by intros _ [|]].
      intros n1 f1 Hne Hf1 Hk1. by destruct (Hne (on_single _ _ Ho _ _ _ _ Hf1 Hf Hk1 Hk)).
    + pose proof (on_performed _ _ Ho). eapply once_advance; [done|done|done|done|lia| |]; [|done]. intros. lia.
Qed.

Lemma once_resume d0 x n :
  machine_inv d0 x → once (m_provider x) (m_flights x) → once (m_provider (do_resume n x)) (m_flights (do_resume n x)).
Proof.
  intros Hx Ho. unfold do_resume. destruct (m_flights x !! n) as [f|] eqn:Hf; [|done].
  destruct (fl_stage f) as [|r| |r] eqn:Hg; [done| |done|].
  - destruct (resume_lookup _ _ _ _) as [out s] eqn:Hr. destruct out as [[res|[i g]]|e]; [by apply once_delete| |by apply once_delete].
    unfold resume_lookup in Hr. apply bind_Ok_inv in Hr as (found & s1 & [-> ->]%of_result_Ok_inv & Hr).
    destruct found as [p|]; [by apply bind_Ok_inv in Hr as (res & s2 & _ & [? _]%ret_Ok_inv)|].
    apply ret_Ok_inv in Hr as [[= -> ->] ->]. cbn [settle m_provider m_flights].
    eapply once_advance; [done|exact Hf|done|done|apply Ho|done|]. intros Hk _. apply (on_none _ _ Ho _ _ Hf Hk). rewrite Hg. by right.
  - destruct (resume_invoke _ _ _ _) as [out s] eqn:Hr. destruct out as [[res|[i g]]|e]; [by apply once_delete| |by apply once_delete].
    unfold resume_invoke in Hr. apply bind_Ok_inv in Hr as (v & s1 & _ & Hr). apply bind_Ok_inv in Hr as (u & s2 & _ & Hr).
    by apply bind_Ok_inv in Hr as (res & s3 & _ & [? _]%ret_Ok_inv).
Qed.
End at_most_once.

(** C6. An effect with receipts is performed at most once, along any interleaving of calls,
    of cancellations and crashes at their awaits, of answers of the provider and of other
    code, by whichever authorities the calls are made, as long as no call is made for an
    effect while another call with the same idempotency key is in flight, intents are valid,
    the clock is not behind the creation of the intent of the position when a receipt is
    recorded, a request reaches the provider only while its call waits, and the provider
    answers that no receipt exists only when it has not performed the effect. The service
    itself does not keep calls for one key apart: Example overlapping_calls_repeat performs
    an effect twice. *)
Theorem effects_at_most_once (b : ManagedSideEffectBoundary W) (performed : W → string → nat) `{!ReceiptLookup b performed} x x' k :
  idle x → (performed (m_provider x) k ≤ 1)%nat →
  rtc (step (alone b) (λ w w', ∀ k, performed w' k = performed w k)) x x' →
  (performed (m_provider x') k ≤ 1)%nat.
Proof.
  intros Hi Hp Hs. enough (Ho : once b performed k (m_provider x') (m_flights x')) by apply Ho.
  assert (Ho : once b performed k (m_provider x) (m_flights x)).
  { destruct Hi as (_ & _ & Hf & _). split; [done|..]; intros *; rewrite Hf, lookup_empty; done. }
  pose proof (idle_inv _ Hi) as Hx. clear Hi Hp. revert Hx. generalize (committed (m_store x)). intros d0 Hx.
  induction Hs as [x|x y z Hxy _ IH]; [done|]. apply IH; [|eapply step_inv; [|exact Hx|exact Hxy]; intros ?? H; exact (proj1 H)].
  destruct Hxy as [c Hc|n|n|n|s w _ _ _ He].
  - by eapply once_start.
  - by eapply once_answer.
  - by eapply once_resume.
  - by apply once_delete.
  - cbn. destruct Ho as [P B S N]. split; rewrite ?He; eauto.
Qed.
End interleaving.
Arguments mkFlight {W}.
Arguments Machine {W}.
Arguments m_provider {W}.
Arguments m_store {W}.
Arguments m_next {W}.
Arguments m_flights {W}.
Arguments m_invoked {W}.
Arguments m_returned {W}.

(** ** Sample machines *)

(** The mail of EffectSample: worker-2 sends the report under its attempt A2. *)
Module InterleavingSample.
Import EffectSample.
Definition the_call : managed_call (W := list string) := call silent worker_2 report mail None.
Definition m0 : machine (W := list string) := Machine [] (CompletionSample.rest sample_end) 0 ∅ [] [].
Definition begin (x : machine) := do_start redact zero no_int no_date the_call x.
Definition answer (n : nat) (x : machine (W := list string)) := do_answer n x.
Definition resume (n : nat) (x : machine (W := list string)) := do_resume redact n x.

(** The process dies after the mail was sent; a second call finds the receipt. *)
Definition dead : machine := do_cancel 0 (answer 0 (resume 0 (answer 0 (begin m0)))).
Definition done_again : machine := resume 1 (answer 1 (begin dead)).
Example sample_recovers :
  m_provider dead = [intent_id report] ∧ m_provider done_again = [intent_id report] ∧ length (m_invoked done_again) = 1%nat ∧
  match m_returned done_again with
  | [(_, Ok res)] => (is_some (mr_receipt res), mr_reconciled res) | _ => (false, false)
  end = (true, true).
Proof. vm_compute. repeat split. Qed.

(** Two calls for the same effect that overlap: both look the receipt up before
    either has sent, and the mail goes out twice. *)
Definition overlapped : machine := answer 1 (answer 0 (resume 1 (resume 0 (answer 1 (answer 0 (begin (begin m0))))))).
Example overlapping_calls_repeat : m_provider overlapped = [intent_id report; intent_id report].
Proof. vm_compute. reflexivity. Qed.

Lemma m0_idle : idle redact m0.
Proof. destruct start_ready as [Hq Hi]. by split. Qed.
Lemma m0_may : may_call redact m0 the_call.
Proof. apply call_ok_of; vm_compute; reflexivity. Qed.
Lemma dead_may : may_call redact dead the_call.
Proof. apply call_ok_of; vm_compute; reflexivity. Qed.
Lemma sample_run (P : machine → managed_call → Prop) E :
  P m0 the_call → P dead the_call → rtc (step redact zero no_int no_date P E) m0 done_again.
Proof.
  intros H0 H1. unfold done_again, dead.
  eapply rtc_r; [|apply step_resume]. eapply rtc_r; [|apply step_answer]. eapply rtc_r; [|by apply step_start].
  eapply rtc_r; [|apply step_cancel]. eapply rtc_r; [|apply step_answer]. eapply rtc_r; [|apply step_resume].
  eapply rtc_r; [|apply step_answer]. eapply rtc_once. by apply step_start.
Qed.
End InterleavingSample.

Lemma effects_at_most_once_witness :
  (EffectSample.performed (m_provider InterleavingSample.done_again) (intent_id EffectSample.report) ≤ 1)%nat.
Proof.
  assert (Ha : ∀ x, may_call EffectSample.redact x InterleavingSample.the_call → m_flights x = ∅ →
    alone EffectSample.redact EffectSample.mail x InterleavingSample.the_call).
  { intros x Hc Hf. split; [done|]. split; [done|]. intros n f. by rewrite Hf, lookup_empty. }
  assert (H0 : (EffectSample.performed (m_provider InterleavingSample.m0) (intent_id EffectSample.report) ≤ 1)%nat) by (cbn; lia).
  pose proof EffectSample.mail_receipts as Hmail.
  refine (effects_at_most_once EffectSample.redact EffectSample.zero EffectSample.no_int EffectSample.no_date
    EffectSample.mail EffectSample.performed _ _ _ InterleavingSample.m0_idle H0 (InterleavingSample.sample_run _ _ _ _)).
  - by apply Ha; [exact InterleavingSample.m0_may|].
  - apply Ha; [exact InterleavingSample.dead_may|]. vm_compute. reflexivity.
Defined.

Lemma managed_effect_outcome_witness :
  journal_inv EffectSample.redact (committed (m_store InterleavingSample.done_again)) ∧
  ∀ c res, (c, Ok res) ∈ m_returned InterleavingSample.done_again →
    evidence (committed (m_store InterleavingSample.done_again)) (mc_intent c) res.
Proof.
  pose proof (managed_effect_outcome EffectSample.redact EffectSample.zero EffectSample.no_int EffectSample.no_date
    (λ _ _, True) _ _ InterleavingSample.m0_idle
    (InterleavingSample.sample_run _ _ InterleavingSample.m0_may InterleavingSample.dead_may)) as H.
  cbv zeta in H. destruct H as (Hi & _ & _ & _ & Hr & _). split; [exact Hi|exact Hr].
Defined.
