(* ===== verification/ContinuationRecovery.v ===== *)
(** * Continuation recovery

    Models src/src/tianshu/application/continuation_recovery.py: the consumer
    of [decision.resolved] events.  In one unit of work it moves the run that
    waits for the decision on, or cancels it: the run state, the attempt, the
    memorial and the outbox change together.

    The clock of a call and the observer [boundary_hook] are arguments;
    [redact_text] is security/redact.py. *)

From S2P Require Import Prelude.
From S2P Require Import Sql.
From S2P Require Import Canonical.
From S2P Require Import Timestamp.
From S2P Require Import SensitivePayload.
From S2P Require Import UnitOfWork.
From S2P Require Import Models.
From S2P Require Import Schema.
From S2P Require Import Correlation.
From S2P Require Import AttemptLedger.
From S2P Require Import Fencing.
From S2P Require Import RunStateRepo.
From S2P Require Import DecisionRepo.
From S2P Require Import Outbox.
From S2P Require Import SideEffectJournal.
From S2P Require Import Failure.
From S2P Require Import FencedCompletion.

(** ** Decisions the service handles *)

(** What follows the prefix [p] of [s], when [s.startswith(p)]. *)
Fixpoint after_prefix (p s : string) : option string :=
  match p, s with
  | EmptyString, _ => Some s
  | String a p', String b s' => if Ascii.eqb a b then after_prefix p' s' else None
  | _, _ => None
  end.
Definition effect_prefix : string := "side-effect:".

(** [_is_supported] *)
Definition is_supported (record : option DecisionRecordV1) : bool :=
  match record with
  | None => false
  | Some x =>
      let q := rec_request x in
      if negb (bool_decide (d_status q = RESOLVED)) || is_none (rec_resolution x) then false
      else if bool_decide (d_kind q = K_OUTER_LOOP) then true
      else bool_decide (d_kind q = K_TOOL) && is_some (after_prefix effect_prefix (request_key q))
  end.

(** [_is_cancel] *)
Definition is_cancel (q : DecisionRequestV1) (res : DecisionResolutionV1) : bool :=
  (bool_decide (d_kind q = K_OUTER_LOOP) && bool_decide (r_action res = "abort")) ||
  (bool_decide (d_kind q = K_TOOL) && bool_decide (r_action res = "reject")).

(** [_require_state_binding], without the test for a missing state *)
Definition waiting_for (s : RunStateV1) (decision_id : string) : bool :=
  bool_decide (rs_phase s = P_WAITING_DECISION) &&
  bool_decide (pending_decision_id (rs_continuation s) = Some decision_id) &&
  is_none (resolved_decision_id (rs_continuation s)).
Definition projected_from (s : RunStateV1) (decision_id : string) : bool :=
  bool_decide (rs_phase s = P_EXECUTING) && is_none (pending_decision_id (rs_continuation s)) &&
  bool_decide (resolved_decision_id (rs_continuation s) = Some decision_id).
Definition state_bound (s : RunStateV1) (q : DecisionRequestV1) : bool :=
  bool_decide (rs_edict_id s = d_edict_id q) && bool_decide (rs_memorial_id s = d_memorial_id q) &&
  (waiting_for s (decision_request_id q) || projected_from s (decision_request_id q)).
Definition require_state_binding (state : option RunStateV1) (q : DecisionRequestV1) : M db RunStateV1 :=
  match state with
  | None => raise ContinuationRecoveryError "decision RunState is unavailable"
  | Some s =>
      guard (state_bound s q) ContinuationRecoveryError "decision RunState binding is invalid" ;;;
      ret s
  end.

(** ** Continuations

    [model_copy(update=...)] on the two kinds of continuation.  An outer-loop
    continuation has no field [pending_tool]: the attribute the copy adds is
    not part of its dump. *)

Definition set_agent_tool (tool : option ToolProposalV1) (cursor : Z) (a : AgentContinuationV1) : AgentContinuationV1 :=
  mkAgent (ac_messages a) tool (ac_iteration a) (ac_usage a) (ac_checkpoint_ref a) (ac_pending_decision_id a)
    (ac_resolved_decision_id a) cursor (ac_plan_ref a) (ac_plan_hash a) (ac_plan_revision_id a) (ac_plan_revisions a)
    (ac_plan_snapshot a) (ac_scheduled_event_id a) (ac_scheduled_event_hash a).
Definition set_outer_cursor (cursor : Z) (o : OuterLoopContinuationV1) : OuterLoopContinuationV1 :=
  mkOuter (oc_level o) (oc_iteration o) (oc_best_output o) (oc_feedback o) (oc_steer o) (oc_history o)
    (oc_same_issue_streak o) (oc_last_critic_issue_class o) (oc_l1_rounds_used o) (oc_l2_rounds_used o)
    (oc_consultation_advice o) (oc_usage o) (oc_total_cost_cny o) (oc_checkpoint_ref o) (oc_pending_decision_id o)
    (oc_resolved_decision_id o) cursor (oc_plan_continuation o).
Definition past_effect (cursor : Z) (c : ContinuationV1) : ContinuationV1 :=
  match c with
  | Agent a => Agent (set_agent_tool None cursor a)
  | OuterLoop o => OuterLoop (set_outer_cursor cursor o)
  end.
Definition without_tool (c : ContinuationV1) : ContinuationV1 :=
  match c with Agent a => Agent (set_agent_tool None (ac_side_effect_cursor a) a) | OuterLoop _ => c end.

Definition moved (s : RunStateV1) (phase : RunPhase) (c : ContinuationV1) (cursor updated_at : Z) : RunStateV1 :=
  mkRunState (rs_memorial_id s) (rs_edict_id s) phase c (rs_checkpoint_ref s) cursor (rs_version s)
    (rs_created_at s) updated_at.

(** ** Events *)

Definition resume_event_id (decision_id : string) : string := decision_id +:+ ":execution.resume.requested".
Definition cancel_event_id (decision_id : string) : string := decision_id +:+ ":execution.cancelled".

Definition resume_event (q : DecisionRequestV1) (attempt : string) (version now : Z) : EventEnvelope :=
  mkEvent (resume_event_id (decision_request_id q)) "execution.resume.requested" (Some (d_edict_id q))
    (Some (d_memorial_id q)) (SInt 1) now "continuation-recovery.v1"
    [("schema_version", JInt 1); ("decision_request_id", JStr (decision_request_id q));
     ("attempt_id", JStr attempt); ("run_state_version", JInt version)].
Definition decision_cancel_event (q : DecisionRequestV1) (attempt : string) (now : Z) : EventEnvelope :=
  mkEvent (cancel_event_id (decision_request_id q)) "execution.cancelled" (Some (d_edict_id q))
    (Some (d_memorial_id q)) (SInt 1) now "continuation-recovery.v1"
    [("schema_version", JInt 1); ("decision_request_id", JStr (decision_request_id q));
     ("attempt_id", JStr attempt); ("status", JStr "cancelled"); ("failure_reason", JStr "decision_cancelled")].

(** ** The attempt *)

(** [ORDER BY attempt_no DESC, created_at DESC] *)
Definition newest_first (r r' : attempt_row) : bool :=
  le_of (lex (attempt_no (at_lease r') ?= attempt_no (at_lease r))
             (a_created_at (at_lease r') ?= a_created_at (at_lease r))).
Definition newest_live_attempt (memorial_id : string) : M db (option attempt_row) :=
  let! rows := sql_select (Row := attempt_row) (live_attempt memorial_id) in
  ret (head (order_by newest_first rows)).

Definition decision_failure : RedactedError :=
  mkRedactedError "decision_cancelled" "Execution was cancelled by durable decision" false None.
(** The columns the cancellation writes. *)
Definition stopped (now : Z) (a : AttemptLeaseV1) : AttemptLeaseV1 :=
  mkAttempt (attempt_id a) (a_memorial_id a) (attempt_no a) FAILED None (a_fencing_token a) None None
    (Models.available_at a) (max_attempts a) (Some decision_failure) (a_version a + 1) (a_created_at a) now.

Section recovery.
Context (redact_text : string → string) (boundary_hook : string → option exn).

(** ** [_resume_state] *)

Definition resume_state (q : DecisionRequestV1) (res : DecisionResolutionV1) (s : RunStateV1) (now : Z) :
    M db RunStateV1 :=
  if bool_decide (rs_phase s = P_EXECUTING) then ret s
  else
    let c := set_decisions None (Some (decision_request_id q)) (rs_continuation s) in
    let! moved_to :=
      if bool_decide (d_kind q = K_TOOL) then
        let intent_id := default (request_key q) (after_prefix effect_prefix (request_key q)) in
        let! intent := load_intent_current redact_text intent_id in
        match intent with
        | Some i =>
            guard (bool_decide (i_memorial_id i = rs_memorial_id s)) ContinuationRecoveryError
              "managed-effect intent binding is unavailable" ;;;
            let cursor := Z.max (rs_side_effect_cursor s) (sequence_no i + 1) in
            ret (past_effect cursor c, cursor)
        | None => raise ContinuationRecoveryError "managed-effect intent binding is unavailable"
        end
      else ret (c, rs_side_effect_cursor s) in
    compare_and_swap redact_text
      (moved s P_EXECUTING moved_to.1 moved_to.2 (Z.max (rs_updated_at s) (Z.max (resolved_at res) now)))
      (rs_version s).

(** ** [_cancel] *)

Definition cancelled_state (q : DecisionRequestV1) (res : DecisionResolutionV1) (s : RunStateV1) (now : Z) : RunStateV1 :=
  moved s P_FAILED
    (without_tool (set_decisions None (Some (decision_request_id q)) (rs_continuation s)))
    (rs_side_effect_cursor s) (Z.max (rs_updated_at s) (Z.max (resolved_at res) now)).
Definition cancel_run (q : DecisionRequestV1) (res : DecisionResolutionV1) (s : RunStateV1) (attempt : AttemptLeaseV1)
    (now : Z) : M db unit :=
  compare_and_swap redact_text (cancelled_state q res s now) (rs_version s) ;;;
  observe_boundary boundary_hook "after_run_state" ;;;
  let! rowcount := sql_update (Row := attempt_row) (attempt_id attempt)
    (λ r, live_attempt (d_memorial_id q) r && (a_version (at_lease r) =? a_version attempt))
    (update_lease (stopped now)) in
  guard (rowcount =? 1) ContinuationRecoveryError "attempt changed during cancellation" ;;;
  let! rowcount := sql_update (Row := memorial_row) (d_memorial_id q) (open_root (d_edict_id q))
    (set_columns (ended_columns T_CANCELLED "Execution was cancelled" "decision_cancelled" now)) in
  guard (rowcount =? 1) ContinuationRecoveryError "root changed during cancellation" ;;;
  observe_boundary boundary_hook "before_resume_outbox" ;;;
  add (decision_cancel_event q (attempt_id attempt) now).

(** The other branch of the handler. *)
Definition resume_run (q : DecisionRequestV1) (res : DecisionResolutionV1) (s : RunStateV1) (attempt : AttemptLeaseV1)
    (now : Z) : M db unit :=
  let! state := resume_state q res s now in
  observe_boundary boundary_hook "after_run_state" ;;;
  (if bool_decide (a_status attempt = SUSPENDED) then
     let! resumed := resume_suspended_current (attempt_id attempt) (d_memorial_id q) (a_version attempt) (utc_at now) in
     guard resumed ContinuationRecoveryError "suspended attempt changed during resume"
   else guard (bool_decide (a_status attempt = CLAIMABLE) || bool_decide (a_status attempt = CLAIMED))
          ContinuationRecoveryError "attempt cannot resume") ;;;
  observe_boundary boundary_hook "before_resume_outbox" ;;;
  add (resume_event q (attempt_id attempt) (rs_version state) now).

(** ** [handle_decision_resolved] *)

(** The event names the request it resolves. *)
Definition event_matches (event : EventEnvelope) (q : DecisionRequestV1) (res : DecisionResolutionV1) : bool :=
  bool_decide (e_edict_id event = Some (d_edict_id q)) && bool_decide (e_memorial_id event = Some (d_memorial_id q)) &&
  bool_decide (obj_get (e_payload event) "kind" = Some (JStr (kind_value (d_kind q)))) &&
  bool_decide (obj_get (e_payload event) "action" = Some (JStr (r_action res))).

(** From the read of the run state on. *)
Definition converge (q : DecisionRequestV1) (res : DecisionResolutionV1) (now : Z) : M db bool :=
  let! found := RunStateRepo.load redact_text (d_memorial_id q) in
  let! s := require_state_binding found q in
  let! attempt := newest_live_attempt (d_memorial_id q) in
  match attempt with
  | None => raise ContinuationRecoveryError "decision suspension has no live attempt"
  | Some r =>
      (if is_cancel q res then cancel_run q res s (at_lease r) now else resume_run q res s (at_lease r) now) ;;;
      ret true
  end.

Definition handle_body (event : EventEnvelope) (decision_id : string) (now : Z) : M db bool :=
  let! found := DecisionRepo.get decision_id in
  match found with
  | Some (mkRecord q (Some res)) =>
      if negb (is_supported found) then ret false
      else
        guard (event_matches event q res) ContinuationRecoveryError "resolved event does not match durable authority" ;;;
        let! memorial := sql_get (Row := memorial_row) (d_memorial_id q) in
        let! status :=
          match memorial with
          | Some m =>
              guard (is_none (mm_dag_node_id m) && bool_decide (mm_edict_id m = d_edict_id q))
                ContinuationRecoveryError "decision root binding is unavailable" ;;;
              ret (mc_status (mm_columns m))
          | None => raise ContinuationRecoveryError "decision root binding is unavailable"
          end in
        if negb (is_open status) then ret false
        else
          let! resumed := Outbox.get (resume_event_id decision_id) in
          let! cancelled := if is_some resumed then ret None else Outbox.get (cancel_event_id decision_id) in
          if is_some resumed || is_some cancelled then ret false
          else converge q res now
  | _ => ret false
  end.

(** [_now] *)
Definition recovery_now {S} (reading : datetime) : M S Z :=
  match utcoffset reading with
  | None => raise ValueError "continuation recovery clock must be timezone-aware"
  | Some off => checked_instant (wall reading - off)
  end.

Definition handle_decision_resolved (event : EventEnvelope) (reading : datetime) : M (session db) bool :=
  if negb (bool_decide (e_event_type event = "decision.resolved")) then ret false
  else
    match obj_get (e_payload event) "decision_request_id" with
    | Some (JStr decision_id) =>
        guard (non_blank decision_id) ContinuationRecoveryError "resolved event is missing decision identity" ;;;
        let! now := recovery_now reading in
        with_uow (committing (handle_body event decision_id now))
    | _ => raise ContinuationRecoveryError "resolved event is missing decision identity"
    end.
End recovery.

(** ** What one call does *)

(** The run states after the memorial's was replaced by [s']. *)
Definition with_state (s' : RunStateV1) (r : run_state_row) (d : db) : db :=
  set_run_states (<[rs_memorial_id s' := mkRunStateRow s' (rn_correlation_id r)]> (run_states d)) d.

(** A run that goes on: the wait is over, and its attempt can be claimed. *)
Definition reopened (now : Z) (a : AttemptLeaseV1) : AttemptLeaseV1 :=
  if bool_decide (a_status a = SUSPENDED) then resumed now a else a.

(** Where the cursor of side effects stands after an uncertain effect was
    decided: past its intent. *)
Definition effect_passed (q : DecisionRequestV1) (s' : RunStateV1) (d : db) : Prop :=
  ∃ id r, after_prefix effect_prefix (request_key q) = Some id ∧ side_effect_journal d !! id = Some r ∧
    i_memorial_id (j_intent r) = d_memorial_id q ∧ sequence_no (j_intent r) < rs_side_effect_cursor s' ∧
    cont_cursor (rs_continuation s') = rs_side_effect_cursor s' ∧
    match rs_continuation s' with Agent a => ac_pending_tool a = None | OuterLoop _ => True end.

Record resumes (q : DecisionRequestV1) (now : Z) (d d' : db) (r : run_state_row) (s' : RunStateV1) (a : attempt_row)
    (row : outbox_row) : Prop := {
  re_state : run_states d !! d_memorial_id q = Some r ∧ state_bound (rn_state r) q = true;
  re_attempt : execution_attempts d !! attempt_id (at_lease a) = Some a ∧ live_attempt (d_memorial_id q) a = true;
  re_bound : projected_from s' (decision_request_id q) = true ∧ rs_memorial_id s' = d_memorial_id q ∧
    rs_edict_id s' = d_edict_id q;
  re_step : if bool_decide (rs_phase (rn_state r) = P_EXECUTING) then s' = rn_state r
            else rs_version s' = rs_version (rn_state r) + 1 ∧ succeeds (rn_state r) s' ∧
                 (d_kind q = K_TOOL → effect_passed q s' d) ∧
                 (d_kind q = K_OUTER_LOOP → rs_side_effect_cursor s' = rs_side_effect_cursor (rn_state r));
  re_event : ∃ b c, is_identifier c = true ∧ row = added_row (resume_event q (attempt_id (at_lease a)) (rs_version s') now) b c;
  re_tables : d' = with_outbox (resume_event_id (decision_request_id q)) row
                     (put_lease a (reopened now (at_lease a)) (with_state s' r d));
}.

Record cancels (q : DecisionRequestV1) (now : Z) (d d' : db) (r : run_state_row) (s' : RunStateV1) (a : attempt_row)
    (m : memorial_row) (row : outbox_row) : Prop := {
  ca_state : run_states d !! d_memorial_id q = Some r ∧ state_bound (rn_state r) q = true;
  ca_attempt : execution_attempts d !! attempt_id (at_lease a) = Some a ∧ live_attempt (d_memorial_id q) a = true;
  ca_memorial : memorials d !! d_memorial_id q = Some m ∧ open_root (d_edict_id q) m = true;
  ca_bound : rs_phase s' = P_FAILED ∧ rs_memorial_id s' = d_memorial_id q ∧ rs_edict_id s' = d_edict_id q ∧
    pending_decision_id (rs_continuation s') = None ∧
    resolved_decision_id (rs_continuation s') = Some (decision_request_id q);
  ca_step : rs_version s' = rs_version (rn_state r) + 1 ∧ succeeds (rn_state r) s';
  ca_event : ∃ b c, is_identifier c = true ∧ row = added_row (decision_cancel_event q (attempt_id (at_lease a)) now) b c;
  ca_tables : d' = with_outbox (cancel_event_id (decision_request_id q)) row
     (set_memorials (<[d_memorial_id q :=
          set_columns (ended_columns T_CANCELLED "Execution was cancelled" "decision_cancelled" now) m]> (memorials d))
        (put_lease a (stopped now (at_lease a)) (with_state s' r d)));
}.

(** A handled event: nothing, or exactly one of the two, on tables that held
    neither of the two events. *)
Inductive handled (event : EventEnvelope) (decision_id : string) (now : Z) (d d' : db) : bool → Prop :=
  | handled_idle : d' = d → handled event decision_id now d d' false
  | handled_resumed q res r s' a row :
      decision_at d decision_id = Some (mkRecord q (Some res)) → is_supported (Some (mkRecord q (Some res))) = true →
      event_matches event q res = true → is_cancel q res = false →
      outbox_events d !! resume_event_id decision_id = None → outbox_events d !! cancel_event_id decision_id = None →
      resumes q now d d' r s' a row → handled event decision_id now d d' true
  | handled_cancelled q res r s' a m row :
      decision_at d decision_id = Some (mkRecord q (Some res)) → is_supported (Some (mkRecord q (Some res))) = true →
      event_matches event q res = true → is_cancel q res = true →
      outbox_events d !! resume_event_id decision_id = None → outbox_events d !! cancel_event_id decision_id = None →
      cancels q now d d' r s' a m row → handled event decision_id now d d' true.

Section spec.
Context (redact_text : string → string) (boundary_hook : string → option exn).

Lemma newest_live_Ok_inv m d o d' :
  newest_live_attempt m d = (Ok o, d') →
  d' = d ∧ ∀ r, o = Some r → live_attempt m r = true ∧ ∃ k, execution_attempts d !! k = Some r.
Proof.
  unfold newest_live_attempt. rewrite bind_sql_select. intros [-> ->]%ret_Ok_inv. split; [done|].
  intros r Hr%head_Some_elem_of. rewrite elem_of_order_by in Hr. by apply elem_of_where_rows in Hr.
Qed.

Lemma set_decisions_resolved p r c : resolved_decision_id (set_decisions p r c) = r.
Proof. by destruct c. Qed.
Lemma past_effect_decisions n c :
  pending_decision_id (past_effect n c) = pending_decision_id c ∧
  resolved_decision_id (past_effect n c) = resolved_decision_id c ∧ cont_cursor (past_effect n c) = n.
Proof. by destruct c. Qed.
Lemma without_tool_decisions c :
  pending_decision_id (without_tool c) = pending_decision_id c ∧
  resolved_decision_id (without_tool c) = resolved_decision_id c.
Proof. by destruct c. Qed.

Lemma load_intent_inv id d o d' :
  load_intent_current redact_text id d = (Ok o, d') →
  d' = d ∧ ∀ i, o = Some i → ∃ r, side_effect_journal d !! id = Some r ∧ j_intent r = i.
Proof.
  unfold load_intent_current. rewrite bind_sql_get. cbn. unfold decode_first.
  destruct (side_effect_journal d !! id) as [r|] eqn:Hr; intros H.
  - step_M H. unfold decode_intent in E. run_M E. run_M H. split; [done|]. intros i [= <-]. by exists r.
  - run_M H. done.
Qed.

(** The swap of a run state that was just read. *)
Lemma swap_read d s x r d' :
  run_inv redact_text d → run_states d !! rs_memorial_id s = Some r → rs_version s = rs_version (rn_state r) →
  compare_and_swap redact_text s (rs_version s) d = (Ok x, d') →
  x = next_version s ∧ succeeds (rn_state r) x ∧ d' = with_state x r d.
Proof.
  intros Hi Hr Hv H.
  destruct (compare_and_swap_Ok_inv redact_text _ _ _ _ _ Hi H) as (_ & -> & r' & Hr' & _ & _ & Hsu & _ & -> & _).
  simplify_eq. done.
Qed.

Lemma with_state_id r d :
  run_states d !! rs_memorial_id (rn_state r) = Some r → with_state (rn_state r) r d = d.
Proof.
  intros Hr. unfold with_state. replace (mkRunStateRow _ _) with r by (by destruct r).
  rewrite insert_id by done. by destruct d.
Qed.

Lemma bound_next s : rs_continuation (next_version s) = rs_continuation s.
Proof. done. Qed.

Lemma state_bound_inv s q :
  state_bound s q = true → rs_edict_id s = d_edict_id q ∧ rs_memorial_id s = d_memorial_id q.
Proof. unfold state_bound. intros H. by bools. Qed.

Lemma supported_tool q res :
  is_supported (Some (mkRecord q (Some res))) = true → d_kind q = K_TOOL →
  is_Some (after_prefix effect_prefix (request_key q)).
Proof.
  unfold is_supported. cbn [rec_request rec_resolution]. intros H Hk. rewrite Hk in H.
  destruct (negb _ || _); [done|]. rewrite bool_decide_eq_false_2 in H by done. bools. by apply is_some_true.
Qed.

Lemma resume_state_Ok_inv q res now d r s' d' :
  run_inv redact_text d → run_states d !! d_memorial_id q = Some r → state_bound (rn_state r) q = true →
  is_supported (Some (mkRecord q (Some res))) = true →
  resume_state redact_text q res (rn_state r) now d = (Ok s', d') →
  d' = with_state s' r d ∧ projected_from s' (decision_request_id q) = true ∧
  rs_memorial_id s' = d_memorial_id q ∧ rs_edict_id s' = d_edict_id q ∧
  if bool_decide (rs_phase (rn_state r) = P_EXECUTING) then s' = rn_state r
  else rs_version s' = rs_version (rn_state r) + 1 ∧ succeeds (rn_state r) s' ∧
       (d_kind q = K_TOOL → effect_passed q s' d) ∧
       (d_kind q = K_OUTER_LOOP → rs_side_effect_cursor s' = rs_side_effect_cursor (rn_state r)).
Proof.
  intros Hi Hr Hb Hsup H. destruct (state_bound_inv _ _ Hb) as [He Hm]. unfold resume_state in H.
  destruct (bool_decide (rs_phase (rn_state r) = P_EXECUTING)) eqn:Hph.
  - apply ret_Ok_inv in H as [-> ->]. rewrite with_state_id by congruence. split; [done|].
    unfold state_bound in Hb. bools. unfold waiting_for in *. rewrite Hph in *. by rewrite orb_false_l in *.
  - apply bind_Ok_inv in H as ([c cursor] & d1 & Hmv & H).
    set (c0 := set_decisions None (Some (decision_request_id q)) (rs_continuation (rn_state r))) in *.
    assert (Hc : d1 = d ∧ pending_decision_id c = None ∧ resolved_decision_id c = Some (decision_request_id q) ∧
      (d_kind q = K_TOOL → ∃ id r', after_prefix effect_prefix (request_key q) = Some id ∧
         side_effect_journal d !! id = Some r' ∧ i_memorial_id (j_intent r') = d_memorial_id q ∧
         sequence_no (j_intent r') < cursor ∧ cont_cursor c = cursor ∧
         match c with Agent a => ac_pending_tool a = None | OuterLoop _ => True end) ∧
      (d_kind q = K_OUTER_LOOP → cursor = rs_side_effect_cursor (rn_state r))).
    { destruct (bool_decide (d_kind q = K_TOOL)) eqn:Hk; bools.
      - apply bind_Ok_inv in Hmv as (o & d2 & Hl & Hmv). apply load_intent_inv in Hl as [-> Hl].
        destruct o as [i|]; [|done]. step_M Hmv. apply ret_Ok_inv in Hmv as [[= -> ->] ->]. bools.
        destruct (Hl i eq_refl) as (r' & Hr' & <-).
        destruct (past_effect_decisions (Z.max (rs_side_effect_cursor (rn_state r)) (sequence_no (j_intent r') + 1)) c0)
          as (-> & -> & ->). unfold c0 at 1 2. rewrite set_decisions_pending, set_decisions_resolved.
        split_and!; try done; [|congruence]. intros _. destruct (supported_tool _ _ Hsup Hk) as [id Hid].
        rewrite Hid in Hr'.
        exists id, r'. cbn in Hr'. split_and!; try done; [congruence|lia|by destruct c0].
      - apply ret_Ok_inv in Hmv as [[= -> ->] ->]. unfold c0. rewrite set_decisions_pending, set_decisions_resolved.
        split_and!; try done. }
    destruct Hc as (-> & Hp & Hre & Htool & Houter). cbn [fst snd] in H.
    destruct (swap_read d (moved (rn_state r) P_EXECUTING c cursor
      (Z.max (rs_updated_at (rn_state r)) (Z.max (resolved_at res) now))) s' r d') as (-> & Hsu & ->); [done| |done|done|].
    { cbn. by rewrite Hm. }
    split; [done|]. unfold projected_from. cbn. rewrite Hp, Hre, !bool_decide_eq_true_2 by done.
    by split_and!.
Qed.

Lemma resume_run_Ok_inv q res now d r a u d' :
  run_inv redact_text d → run_states d !! d_memorial_id q = Some r → state_bound (rn_state r) q = true →
  is_supported (Some (mkRecord q (Some res))) = true →
  execution_attempts d !! attempt_id (at_lease a) = Some a → live_attempt (d_memorial_id q) a = true →
  resume_run redact_text boundary_hook q res (rn_state r) (at_lease a) now d = (Ok u, d') →
  ∃ s' row, resumes q now d d' r s' a row.
Proof.
  intros Hi Hr Hb Hsup Ha Hl H. unfold resume_run in H. apply bind_Ok_inv in H as (s' & d1 & Hst & H).
  destruct (resume_state_Ok_inv _ _ _ _ _ _ _ Hi Hr Hb Hsup Hst) as (-> & Hpr & Hm & He & Hstep).
  step_M H. apply observe_Ok in E as ->. apply bind_Ok_inv in H as (v & d2 & Hat & H).
  assert (d2 = put_lease a (reopened now (at_lease a)) (with_state s' r d)) as ->.
  { unfold reopened. destruct (bool_decide (a_status (at_lease a) = SUSPENDED)) eqn:Hs.
    - apply bind_Ok_inv in Hat as (b & d3 & Hre & Hat). step_M Hat. subst b.
      unfold resume_suspended_current, require_non_blank, require_positive in Hre. do 3 step_M Hre.
      apply bind_Ok_inv in Hre as (t & d4 & Ht & Hre). unfold to_utc in Ht. cbn in Ht. apply checked_instant_Ok_inv in Ht as (-> & -> & _).
      apply bind_Ok_inv in Hre as (n & d4 & Hup & Hre). apply ret_Ok_inv in Hre as [Hn ->].
      apply sql_update_Ok_inv in Hup as [(-> & a' & Ha' & _ & _ & _ & ->)|(-> & _)]; [|done].
      cbn in Ha'. simplify_eq. unfold put_lease, update_lease. by rewrite Z.sub_0_r.
    - step_M Hat. unfold put_lease. replace (mkAttemptRow _ _) with a by (by destruct a).
      change (execution_attempts (with_state s' r d)) with (execution_attempts d). rewrite insert_id by done.
      by destruct d. }
  step_M H. apply observe_Ok in E as ->. apply add_row_correlated in H as (b & c & _ & Hid & _ & _ & ->).
  exists s', (added_row (resume_event q (attempt_id (at_lease a)) (rs_version s') now) b c).
  split; try done. by exists b, c.
Qed.

Lemma cancel_run_Ok_inv q res now d r a u d' :
  run_inv redact_text d → run_states d !! d_memorial_id q = Some r → state_bound (rn_state r) q = true →
  execution_attempts d !! attempt_id (at_lease a) = Some a → live_attempt (d_memorial_id q) a = true →
  cancel_run redact_text boundary_hook q res (rn_state r) (at_lease a) now d = (Ok u, d') →
  ∃ s' m row, cancels q now d d' r s' a m row.
Proof.
  intros Hi Hr Hb Ha Hl H. destruct (state_bound_inv _ _ Hb) as [He Hm]. unfold cancel_run in H.
  apply bind_Ok_inv in H as (s' & d1 & Hst & H). set (c := cancelled_state q res (rn_state r) now) in *.
  destruct (swap_read d c s' r d1) as (Hs' & Hsu & ->); [done|unfold c; cbn; by rewrite Hm|done|done|].
  step_M H. apply observe_Ok in E as ->. apply bind_Ok_inv in H as (n & d2 & Hat & H). step_M H. bools. subst n.
  apply sql_update_Ok_inv in Hat as [(_ & a' & Ha' & _ & _ & _ & ->)|(? & _)]; [|done]. cbn in Ha'. simplify_eq.
  apply bind_Ok_inv in H as (n & d2 & Hme & H). step_M H. bools. subst n.
  apply sql_update_Ok_inv in Hme as [(_ & m & Hmr & Ho & _ & _ & ->)|(? & _)]; [|done].
  step_M H. apply observe_Ok in E as ->. apply add_row_correlated in H as (b & w & _ & Hid & _ & _ & ->).
  exists (next_version c), m, (added_row (decision_cancel_event q (attempt_id (at_lease a)) now) b w).
  split; try done; [|by exists b, w].
  unfold c. cbn [next_version rs_phase rs_memorial_id rs_edict_id rs_continuation cancelled_state moved].
  destruct (without_tool_decisions (set_decisions None (Some (decision_request_id q)) (rs_continuation (rn_state r))))
    as [-> ->]. by rewrite set_decisions_pending, set_decisions_resolved.
Qed.

Lemma converge_Ok_inv q res now d b d' :
  ledger_inv d → run_inv redact_text d → is_supported (Some (mkRecord q (Some res))) = true →
  converge redact_text boundary_hook q res now d = (Ok b, d') →
  b = true ∧ ∃ r s' a,
    if is_cancel q res then ∃ m row, cancels q now d d' r s' a m row else ∃ row, resumes q now d d' r s' a row.
Proof.
  intros Hli Hi Hsup H. unfold converge in H.
  rewrite (bind_Ok _ _ _ _ _ (load_eq redact_text d (d_memorial_id q) Hi)) in H.
  apply bind_Ok_inv in H as (s & d1 & Hrb & H).
  destruct (run_states d !! d_memorial_id q) as [r|] eqn:Hr; cbn [fmap option_fmap option_map require_state_binding] in Hrb;
    [|done].
  step_M Hrb. apply ret_Ok_inv in Hrb as [-> ->].
  apply bind_Ok_inv in H as (o & d1 & Hat & H). apply newest_live_Ok_inv in Hat as [-> Hat].
  destruct o as [a|]; [|done]. destruct (Hat a eq_refl) as (Hl & k & Hk).
  rewrite <-(li_keyed d Hli _ _ Hk) in Hk. apply bind_Ok_inv in H as (uu & d1 & H & Hret).
  apply ret_Ok_inv in Hret as [-> ->]. split; [done|]. exists r.
  destruct (is_cancel q res).
  - apply cancel_run_Ok_inv in H as (s' & m & row & Hc); try done. by exists s', a, m, row.
  - apply resume_run_Ok_inv in H as (s' & row & Hc); try done. by exists s', a, row.
Qed.

(** [OutboxRepository.get] finds nothing exactly when there is no row. *)
Lemma outbox_get_inv id d o d' :
  Outbox.get id d = (Ok o, d') → d' = d ∧ (o = None ↔ outbox_events d !! id = None).
Proof.
  unfold Outbox.get, select_outbox_record. rewrite bind_sql_get. cbn.
  destruct (outbox_events d !! id) as [r|]; intros H.
  - apply bind_Ok_inv in H as (c & d1 & Hc & H). apply ret_Ok_inv in H as [-> ->]. split; [|done].
    destruct (ob_correlation_id r); [by apply ret_Ok_inv in Hc as [_ ->]|].
    destruct (ob_memorial_id r) as [m|]; [|by apply ret_Ok_inv in Hc as [_ ->]].
    pose proof (correlation_state m None d) as Hs. by rewrite Hc in Hs.
  - apply ret_Ok_inv in H as [-> ->]. done.
Qed.

Lemma handle_body_front event id now d b d' :
  handle_body redact_text boundary_hook event id now d = (Ok b, d') →
  (b = false ∧ d' = d) ∨
  ∃ q res, decision_at d id = Some (mkRecord q (Some res)) ∧ is_supported (Some (mkRecord q (Some res))) = true ∧
    event_matches event q res = true ∧ outbox_events d !! resume_event_id id = None ∧
    outbox_events d !! cancel_event_id id = None ∧ converge redact_text boundary_hook q res now d = (Ok b, d').
Proof.
  intros H. unfold handle_body in H. apply bind_Ok_inv in H as (o & d1 & Hg & H).
  apply get_Ok_inv in Hg as [-> Hg].
  destruct o as [[q [res|]]|]; [|apply ret_Ok_inv in H as [-> ->]; by left..].
  destruct (Hg _ eq_refl) as [Hat _].
  destruct (is_supported (Some (mkRecord q (Some res)))) eqn:Hsup; cbn [negb] in H;
    [|apply ret_Ok_inv in H as [-> ->]; by left].
  step_M H. rewrite bind_sql_get in H. apply bind_Ok_inv in H as (st & d1 & Hst & H).
  assert (d1 = d) as ->.
  { destruct (tbl d !! d_memorial_id q); [|done]. step_M Hst. by apply ret_Ok_inv in Hst as [_ ->]. }
  destruct (is_open st); cbn [negb] in H; [|apply ret_Ok_inv in H as [-> ->]; by left].
  apply bind_Ok_inv in H as (o1 & d1 & H1 & H). apply outbox_get_inv in H1 as [-> H1].
  apply bind_Ok_inv in H as (o2 & d1 & H2 & H).
  destruct o1 as [x|]; cbn [is_some orb] in *.
  { apply ret_Ok_inv in H2 as [-> ->]. apply ret_Ok_inv in H as [-> ->]. by left. }
  apply outbox_get_inv in H2 as [-> H2].
  destruct o2 as [x|]; cbn [is_some] in H; [apply ret_Ok_inv in H as [-> ->]; by left|].
  right. exists q, res. split_and!; try done; [by apply H1|by apply H2].
Qed.

Lemma handle_body_Ok_inv event id now d b d' :
  ledger_inv d → run_inv redact_text d →
  handle_body redact_text boundary_hook event id now d = (Ok b, d') → handled event id now d d' b.
Proof.
  intros Hli Hi [[-> ->]|(q & res & Hat & Hsup & Hm & H1 & H2 & H)]%handle_body_front; [by apply handled_idle|].
  apply converge_Ok_inv in H as (-> & r & s' & a & Hc); try done.
  destruct (is_cancel q res) eqn:Hcan.
  - destruct Hc as (m & row & Hc). by eapply handled_cancelled.
  - destruct Hc as (row & Hc). by eapply handled_resumed.
Qed.

Lemma reads_recovery_now {S} reading : reads (recovery_now (S := S) reading).
Proof. unfold recovery_now. destruct (utcoffset reading); [|auto with py]. unfold checked_instant. auto with py. Qed.

(** The decision an event names, the time a reading gives. *)
Definition named_decision (event : EventEnvelope) : option string :=
  match obj_get (e_payload event) "decision_request_id" with Some (JStr id) => Some id | _ => None end.
Definition instant_of (reading : datetime) : Z := wall reading - default 0 (utcoffset reading).

Lemma handle_settles event reading s :
  quiescent s = true → ledger_inv (committed s) → run_inv redact_text (committed s) →
  settles s (λ b d d', (b = false ∧ d' = d) ∨
                       ∃ id, named_decision event = Some id ∧ handled event id (instant_of reading) d d' b)
    (handle_decision_resolved redact_text boundary_hook event reading s).
Proof.
  intros Hq Hli Hi. unfold handle_decision_resolved, named_decision.
  destruct (negb _); [by split; [|split; [|left]]|].
  destruct (obj_get _ _) as [[]|]; try done.
  apply settles_guarded; [done|auto with py|]. intros _ _.
  apply settles_guarded; [done|apply reads_recovery_now|]. intros now Hnow.
  assert (now = instant_of reading) as ->.
  { unfold recovery_now in Hnow. unfold instant_of. destruct (utcoffset reading); [|done].
    by apply checked_instant_Ok_inv in Hnow as (-> & _). }
  apply settles_uow; [done|]. intros b d' H. right. eexists. split; [done|]. by eapply handle_body_Ok_inv.
Qed.

(** *** The ledger *)

(** The ledger's invariant does not depend on the other tables. *)
Lemma ledger_inv_over d d' :
  execution_attempts d' = execution_attempts d → (∀ m, has_memorial d m = true → has_memorial d' m = true) →
  correlations_ok d' → ledger_inv d → ledger_inv d'.
Proof. intros E Hm Hc []. split; rewrite ?E; eauto. Qed.

Lemma with_state_ledger s' r d :
  run_states d !! rs_memorial_id s' = Some r → ledger_inv d → ledger_inv (with_state s' r d).
Proof.
  intros Hr Hi. apply (ledger_inv_over d); try done. destruct (li_correlations d Hi) as (Ho & Hd & Hs & Ha & Hj & He).
  repeat split; try done. cbn. apply map_Forall_insert_2; [|done]. by apply Hs in Hr.
Qed.

Lemma with_outbox_ledger k event b c d :
  is_identifier c = true → ledger_inv d → ledger_inv (with_outbox k (added_row event b c) d).
Proof.
  intros Hc Hi. apply (ledger_inv_over d); try done. destruct (li_correlations d Hi) as (Ho & Hd & Hs & Ha & Hj & He).
  repeat split; try done. cbn. by apply map_Forall_insert_2.
Qed.

Lemma set_memorial_ledger k m m0 d :
  memorials d !! k = Some m0 → ledger_inv d → ledger_inv (set_memorials (<[k := m]> (memorials d)) d).
Proof.
  intros Hm Hi. apply (ledger_inv_over d); try done; [|apply (li_correlations d Hi)].
  intros x. unfold has_memorial. cbn. rewrite !is_some_true, lookup_insert. by case_decide; simplify_eq; eauto.
Qed.

Lemma put_lease_ledger a l d :
  ledger_inv d → execution_attempts d !! attempt_id (at_lease a) = Some a →
  l = at_lease a ∨ transition (at_lease a) l → ledger_inv (put_lease a l d) ∧ ledger_le d (put_lease a l d).
Proof.
  intros Hi Ha [->|Ht].
  - unfold put_lease. replace (mkAttemptRow _ _) with a by (by destruct a). rewrite insert_id by done. by destruct d.
  - pose proof (put_lease_change d a l Ha Ht). split; [by eapply change_inv|by apply change_le].
Qed.

Lemma active_rows_is d m k r :
  ledger_inv d → execution_attempts d !! k = Some r → a_memorial_id (at_lease r) = m →
  is_active (a_status (at_lease r)) = true → active_rows d m = [r].
Proof.
  intros Hi Hk Hm Ha.
  assert (Hin : r ∈ active_rows d m).
  { apply elem_of_where_rows. split; [by rewrite Hm, bool_decide_eq_true_2, Ha|by exists k]. }
  destruct (active_rows_single d m Hi) as [E|(r' & E & _)]; rewrite E in Hin; [by apply elem_of_nil in Hin|].
  apply list_elem_of_singleton in Hin. by subst.
Qed.

(** A claim on an attempt that is due grants it. *)
Lemma claim_due d m owner t secs fresh k r :
  ledger_inv d → execution_attempts d !! k = Some r → a_memorial_id (at_lease r) = m →
  a_status (at_lease r) = CLAIMABLE → Models.available_at (at_lease r) ≤ t →
  non_blank owner = true → 0 < secs → 0 ≤ t → t + secs * 1000000 < max_instant →
  execution_attempts d !! fresh = None → non_blank fresh = true →
  match memorials d !! m with Some x => is_none (mm_dag_node_id x) | None => true end = true →
  ∃ d', claim m owner (utc_at t) secs fresh d =
    (Ok (Some (granted owner t (t + secs * 1000000) (at_lease r))), d').
Proof.
  intros Hi Hk Hm Hs Hav Ho Hsec Ht Hmax Hf Hfb Hroot.
  assert (Hnb : non_blank m = true).
  { pose proof (li_valid d Hi _ _ Hk). attempt_facts. by subst. }
  destruct (claim_total d m owner t secs fresh Hi Hnb Ho Hsec Ht Hmax Hroot Hf Hfb) as (res & d' & Hcl).
  exists d'. rewrite Hcl. destruct (claim_Ok_inv _ _ _ _ _ _ _ _ Hi Hcl) as (t' & Ht' & _ & _ & Hsp).
  rewrite to_utc_utc_at in Ht' by lia. injection Ht' as <-.
  assert (Er : active_rows d m = [r]) by (eapply active_rows_is; [done..|by rewrite Hs]).
  inversion Hsp; subst; try (rewrite Er in *; simplify_eq); try congruence; try lia.
Qed.

(** Both ends keep the ledger's invariant, when the clock is not behind the
    creation of the attempt. *)
Lemma resumes_ledger q now d d' r s' a row :
  ledger_inv d → resumes q now d d' r s' a row → a_created_at (at_lease a) ≤ now → ledger_inv d' ∧ ledger_le d d'.
Proof.
  intros Hi [[Hr _] [Ha Hl] (_ & Hm & _) _ (b & c & Hc & ->) ->] Hnow. rewrite <-Hm in Hr.
  pose proof (with_state_ledger s' r d Hr Hi) as Hi1.
  destruct (put_lease_ledger a (reopened now (at_lease a)) (with_state s' r d) Hi1 Ha) as [Hi2 Hle].
  { unfold reopened. destruct (bool_decide _) eqn:Hs; [|by left]. bools. right. apply resumed_transition; auto.
    - by eapply (li_valid d).
    - by eapply (li_timed d). }
  split; [by apply with_outbox_ledger|done].
Qed.
Lemma cancels_ledger q now d d' r s' a m row :
  ledger_inv d → cancels q now d d' r s' a m row → a_created_at (at_lease a) ≤ now → ledger_inv d' ∧ ledger_le d d'.
Proof.
  intros Hi [[Hr _] [Ha Hl] [Hmm _] (_ & Hm & _) _ (b & c & Hc & ->) ->] Hnow. unfold live_attempt in Hl. bools.
  rewrite <-Hm in Hr. pose proof (with_state_ledger s' r d Hr Hi) as Hi1.
  destruct (put_lease_ledger a (stopped now (at_lease a)) (with_state s' r d) Hi1 Ha) as [Hi2 Hle].
  { right. apply revoked_transition; auto; [by eapply (li_valid d)|by eapply (li_timed d)]. }
  split; [|done]. apply with_outbox_ledger; [done|].
  exact (set_memorial_ledger (d_memorial_id q) _ m (put_lease a (stopped now (at_lease a)) (with_state s' r d)) Hmm Hi2).
Qed.

(** ** Theorems *)

(** C11. Handling a resolved decision is one transaction. On a connection at rest the
    handler leaves the connection at rest; when it raises, and when it returns False, no
    table has changed. It returns True in exactly two ways, both for a resolved outer-loop
    decision or a decided uncertain effect whose event matches the stored record and was not
    handled before. Either the run goes on: the suspended attempt becomes claimable at the
    current time, one resume event is added, and the run state bound to the decision, if it
    was still waiting for it, executes again at the next version with the decision resolved,
    its side-effect cursor past the effect that was decided and unmoved for an outer-loop
    decision; a state that was already executing with this decision resolved is kept as
    stored, cursor included. Or, when the resolution aborts or rejects, the run state fails,
    the live attempt is revoked, the open root memorial is cancelled and one cancellation
    event is added. Nothing else changes. *)
Theorem recovery_outcome event reading s :
  quiescent s = true → ledger_inv (committed s) → run_inv redact_text (committed s) →
  let '(out, s') := handle_decision_resolved redact_text boundary_hook event reading s in
  quiescent s' = true ∧ lock_depth s' = lock_depth s ∧
  match out with
  | Err _ | Ok false => committed s' = committed s
  | Ok true => ∃ id, named_decision event = Some id ∧
                     handled event id (instant_of reading) (committed s) (committed s') true
  end.
Proof.
  intros Hq Hli Hi. pose proof (handle_settles event reading s Hq Hli Hi) as H.
  destruct (handle_decision_resolved _ _ event reading s) as [[[]|e] s'], H as (H1 & H2 & H3); cbn in *;
    split_and!; try done.
  - by destruct H3 as [[? _]|H3].
  - destruct H3 as [[_ ?]|(id & _ & H3)]; [done|]. by inversion H3.
Qed.

(** C12. A decision moves its run at most once. Once a call returned True for a decision,
    then as long as the outbox has lost none of its events, no call for an event that names
    the same decision returns True or changes any table, whatever the event says otherwise
    and whatever happened to the rest of the tables. *)
Theorem decision_recovered_once e1 e2 t1 t2 s s1 s2 :
  quiescent s = true → ledger_inv (committed s) → run_inv redact_text (committed s) → decision_inv (committed s) →
  handle_decision_resolved redact_text boundary_hook e1 t1 s = (Ok true, s1) →
  quiescent s2 = true → outbox_le (committed s1) (committed s2) → named_decision e2 = named_decision e1 →
  let '(out, s3) := handle_decision_resolved redact_text boundary_hook e2 t2 s2 in
  out ≠ Ok true ∧ committed s3 = committed s2.
Proof.
  intros Hq Hli Hi Hdi H1 Hq2 Hle Hsame. pose proof (handle_settles e1 t1 s Hq Hli Hi) as Hs. rewrite H1 in Hs.
  destruct Hs as (_ & _ & [[? _]|(id & Hid & Hh)]); [done|]. cbn [fst snd] in Hh.
  assert (Hrow : is_Some (outbox_events (committed s2) !! resume_event_id id) ∨
                 is_Some (outbox_events (committed s2) !! cancel_event_id id)).
  { assert (Hkey : ∀ q res, decision_at (committed s) id = Some (mkRecord q (Some res)) → decision_request_id q = id).
    { intros q res Hat. unfold decision_at in Hat. apply fmap_Some in Hat as (r & Hr & Hat).
      unfold record_of in Hat. injection Hat as -> _. by apply (di_keyed _ Hdi _ _ Hr). }
    inversion Hh as [|q res r s' a row Hat _ _ _ _ _ Hre|q res r s' a m row Hat _ _ _ _ _ Hca]; subst.
    - left. pose proof (re_tables _ _ _ _ _ _ _ _ Hre) as Ht. rewrite (Hkey _ _ Hat) in Ht.
      destruct (Hle (resume_event_id id) row) as (r' & Hr' & _); [rewrite Ht; apply lookup_insert_eq|by eexists].
    - right. pose proof (ca_tables _ _ _ _ _ _ _ _ _ Hca) as Ht. rewrite (Hkey _ _ Hat) in Ht.
      destruct (Hle (cancel_event_id id) row) as (r' & Hr' & _); [rewrite Ht; apply lookup_insert_eq|by eexists]. }
  assert (H2 : settles s2 (λ b d d', b = false ∧ d' = d) (handle_decision_resolved redact_text boundary_hook e2 t2 s2)).
  { unfold handle_decision_resolved. rewrite Hid in Hsame. unfold named_decision in Hsame.
    destruct (negb _); [by split|]. destruct (obj_get _ _) as [[]|]; try done. injection Hsame as ->.
    apply settles_guarded; [done|auto with py|]. intros _ _.
    apply settles_guarded; [done|apply reads_recovery_now|]. intros now _. apply settles_uow; [done|].
    intros b d' [H|(q & res & _ & _ & _ & Hn1 & Hn2 & _)]%handle_body_front; [done|].
    destruct Hrow as [[x Hx]|[x Hx]]; congruence. }
  destruct (handle_decision_resolved _ _ e2 t2 s2) as [[b|e] s3], H2 as (_ & _ & H2); cbn in H2; [|done].
  by destruct H2 as [-> ->].
Qed.

(** The event of a call that returned True, and what the call did. *)
Lemma handled_true event reading s s' id q res :
  quiescent s = true → ledger_inv (committed s) → run_inv redact_text (committed s) →
  handle_decision_resolved redact_text boundary_hook event reading s = (Ok true, s') →
  named_decision event = Some id → decision_at (committed s) id = Some (mkRecord q (Some res)) →
  quiescent s' = true ∧ handled event id (instant_of reading) (committed s) (committed s') true ∧
  ∃ r st a, if is_cancel q res then ∃ m row, cancels q (instant_of reading) (committed s) (committed s') r st a m row
            else ∃ row, resumes q (instant_of reading) (committed s) (committed s') r st a row.
Proof.
  intros Hq Hli Hi H Hid Hat. pose proof (handle_settles event reading s Hq Hli Hi) as Hs. rewrite H in Hs.
  destruct Hs as (Hq' & _ & [[? _]|(id' & Hid' & Hh)]); [done|]. rewrite Hid in Hid'. injection Hid' as <-.
  split; [done|]. split; [done|]. cbn [fst snd] in *.
  inversion Hh as [|q' res' r s0 a row Hat' _ _ Hc _ _ Hre|q' res' r s0 a m row Hat' _ _ Hc _ _ Hre]; subst;
    rewrite Hat in Hat'; injection Hat' as <- <-; rewrite Hc; eauto 10.
Qed.

(** A decided run goes on. After a call that returned True for a resolution that does not
    cancel, the run whose attempt was suspended can be claimed: any worker that asks for a
    lease at or after the time of the call gets one, on the same attempt, with the next
    fencing token. *)
Theorem decided_run_claimable event reading s s' id q res owner t secs fresh k a :
  quiescent s = true → ledger_inv (committed s) → run_inv redact_text (committed s) →
  handle_decision_resolved redact_text boundary_hook event reading s = (Ok true, s') →
  named_decision event = Some id → decision_at (committed s) id = Some (mkRecord q (Some res)) →
  is_cancel q res = false →
  execution_attempts (committed s) !! k = Some a → a_memorial_id (at_lease a) = d_memorial_id q →
  a_status (at_lease a) = SUSPENDED → a_created_at (at_lease a) ≤ instant_of reading →
  non_blank owner = true → 0 < secs → 0 ≤ t → instant_of reading ≤ t → t + secs * 1000000 < max_instant →
  execution_attempts (committed s) !! fresh = None → non_blank fresh = true →
  match memorials (committed s) !! d_memorial_id q with Some x => is_none (mm_dag_node_id x) | None => true end = true →
  ∃ lease d', claim (d_memorial_id q) owner (utc_at t) secs fresh (committed s') = (Ok (Some lease), d') ∧
    attempt_id lease = k ∧ a_fencing_token lease = a_fencing_token (at_lease a) + 1.
Proof.
  intros Hq Hli Hi H Hid Hat Hc Hk Hm Hs Hcr Ho Hsec Ht Hnow Hmax Hf Hfb Hroot.
  destruct (handled_true _ _ _ _ _ _ _ Hq Hli Hi H Hid Hat) as (_ & Hh & r & st & a' & Hre). rewrite Hc in Hre.
  destruct Hre as [row Hre]. pose proof (re_attempt _ _ _ _ _ _ _ _ Hre) as [Ha' Hl].
  unfold live_attempt in Hl. bools.
  assert (k = attempt_id (at_lease a')) as ->.
  { eapply (active_unique _ _ _ a _ a' Hli); [done|done|exact Hm|done|by rewrite Hs|done]. }
  simplify_eq. destruct (resumes_ledger _ _ _ _ _ _ _ _ Hli Hre Hcr) as [Hli' _].
  pose proof (re_tables _ _ _ _ _ _ _ _ Hre) as Htab.
  assert (Hk' : execution_attempts (committed s') !! attempt_id (at_lease a) =
    Some (mkAttemptRow (resumed (instant_of reading) (at_lease a)) (at_correlation_id a))).
  { rewrite Htab. cbn. unfold reopened. rewrite bool_decide_eq_true_2 by done. apply lookup_insert_eq. }
  destruct (claim_due (committed s') (d_memorial_id q) owner t secs fresh _ _ Hli' Hk') as [d' Hcl]; try done.
  - rewrite Htab. cbn. rewrite lookup_insert_ne; [done|congruence].
  - by rewrite Htab.
  - eexists _, d'. by split_and!.
Qed.

(** A cancelling resolution stops the run for good. After a call that returned True for an
    aborting or rejecting resolution, the root memorial is cancelled, its run state has
    failed, no attempt of it is live, so no claim on it ever grants a lease, and no
    authority over it can complete, retry or dead-letter it any more. *)
Theorem decided_cancel_stops event reading s s' id q res :
  quiescent s = true → ledger_inv (committed s) → run_inv redact_text (committed s) →
  handle_decision_resolved redact_text boundary_hook event reading s = (Ok true, s') →
  named_decision event = Some id → decision_at (committed s) id = Some (mkRecord q (Some res)) →
  is_cancel q res = true →
  (∃ m, memorials (committed s') !! d_memorial_id q = Some m ∧ mc_status (mm_columns m) = T_CANCELLED) ∧
  (∃ r, run_states (committed s') !! d_memorial_id q = Some r ∧ rs_phase (rn_state r) = P_FAILED) ∧
  (∀ k r, execution_attempts (committed s') !! k = Some r → live_attempt (d_memorial_id q) r = false) ∧
  (∀ owner t secs fresh lease d',
     claim (d_memorial_id q) owner t secs fresh (committed s') ≠ (Ok (Some lease), d')) ∧
  (∀ float_of usage_json hook au, au_memorial_id au = d_memorial_id q →
     powerless redact_text float_of usage_json hook s' au).
Proof.
  intros Hq Hli Hi H Hid Hat Hc.
  destruct (handled_true _ _ _ _ _ _ _ Hq Hli Hi H Hid Hat) as (Hq' & _ & r & st & a & Hre). rewrite Hc in Hre.
  destruct Hre as (m & row & Hre). pose proof (ca_tables _ _ _ _ _ _ _ _ _ Hre) as Htab.
  destruct Hre as [_ [Ha Hl] [Hm _] (Hf & Hmi & _) _ _ _].
  assert (Hdead : ∀ k r, execution_attempts (committed s') !! k = Some r → live_attempt (d_memorial_id q) r = false).
  { intros k r' Hk. rewrite Htab in Hk. cbn in Hk. apply lookup_insert_Some in Hk as [[<- <-]|[Hne Hk]].
    - unfold live_attempt. cbn. by rewrite andb_false_r.
    - destruct (live_attempt (d_memorial_id q) r') eqn:Hl'; [|done]. exfalso. apply Hne.
      unfold live_attempt in Hl, Hl'. bools. eapply (active_unique _ _ _ a _ r' Hli); done. }
  split_and!.
  - rewrite Htab. eexists. split; [apply lookup_insert_eq|done].
  - rewrite Htab. cbn. rewrite Hmi. eexists. split; [apply lookup_insert_eq|done].
  - exact Hdead.
  - intros owner t secs fresh lease d' Hcl. unfold claim, require_non_blank, require_positive in Hcl.
    do 2 step_M Hcl. apply bind_Ok_inv in Hcl as (n & d1 & Hn & Hcl). destruct (to_utc_Ok_inv _ _ _ _ Hn) as [-> _].
    step_M Hcl. apply try_raise_Ok_inv, atomically_Ok_inv in Hcl. unfold claim_body in Hcl.
    do 2 step_M Hcl. rewrite bind_sql_select in Hcl.
    change (where_rows _ _) with (active_rows (committed s') (d_memorial_id q)) in Hcl.
    destruct (active_rows (committed s') (d_memorial_id q)) as [|r' l] eqn:Er; [by apply ret_Ok_inv in Hcl as [? _]|].
    assert (Hin : r' ∈ active_rows (committed s') (d_memorial_id q)) by (rewrite Er; left).
    apply elem_of_where_rows in Hin as [Hact [k Hk]]. pose proof (Hdead k r' Hk) as Hd. unfold live_attempt in Hd. cbn beta in Hact. congruence.
  - intros float_of usage_json hook au Hau. apply not_held_powerless; [done|]. intros r' t Hr Hb.
    pose proof (Hdead _ _ Hr) as Hd. unfold live_attempt in Hd. rewrite Hb, Hau, bool_decide_eq_true_2 in Hd by done.
    cbn in Hd. unfold holds. destruct (a_status (at_lease r')); done.
Qed.
End spec.

(** ** Examples and witnesses

    The suspended run of Fencing.v waits for an outer-loop decision; it is
    resolved with [action] and the event is handled. *)

Module RecoverySample.
Definition payload : list (string * json) := [("feedback", JStr "none")].
Definition payload_digest : string :=
  Eval vm_compute in match canonical_sha256 (JObj payload) with Ok h => h | Err _ => "" end.
Definition request : DecisionRequestV1 :=
  mkDecision "q1" K_OUTER_LOOP "e" "m" "review-1" payload payload_digest "agent" (at_s 900) PENDING 1 (at_s 5) (at_s 5).
Definition resolution (action : string) : DecisionResolutionV1 :=
  mkResolution "q1" action "reviewed" [("schema_version", JInt 1)] "alice" "Alice" (at_s 8).
Definition waiting_state : RunStateV1 :=
  mkRunState "m" "e" P_WAITING_DECISION (Agent (set_agent_decisions (Some "q1") None (RunSample.agent 1))) None 0 1
    (at_s 0) (at_s 5).
Definition suspended : db := (exec_run RunSample.plain (RunCreate waiting_state) sample_suspended).2.
Definition asked : db := exec_decision (DecAdd request None) suspended.
Definition decided (action : string) : db := exec_decision (DecResolve (resolution action) 1 (at_s 8)) asked.
Definition event (action : string) : EventEnvelope :=
  mkEvent "q1:decision.resolved" "decision.resolved" (Some "e") (Some "m") (SInt 1) (at_s 8) "decision-service.v1"
    [("schema_version", JInt 1); ("decision_request_id", JStr "q1"); ("kind", JStr "outer_loop");
     ("action", JStr action)].
Definition silent (_ : string) : option exn := None.
Definition handle (action : string) (n : Z) : M (session db) bool :=
  handle_decision_resolved RunSample.plain silent (event action) (when n).
Definition rest (action : string) : session db := CompletionSample.rest (decided action).
Definition settled_request : DecisionRequestV1 := settled request RESOLVED (at_s 8).

(** Going on, and handling the event again; cancelling; a decision of another
    kind is left alone. *)
Example sample_recovery :
  (let '(out, s) := handle "continue" 9 (rest "continue") in
   out = Ok true ∧ (handle "continue" 10 s).1 = Ok false ∧
   CompletionSample.phase_of s = Some P_EXECUTING ∧ CompletionSample.attempts_of s = [("A1", CLAIMABLE)]) ∧
  (let '(out, s) := handle "abort" 9 (rest "abort") in
   out = Ok true ∧ CompletionSample.phase_of s = Some P_FAILED ∧ CompletionSample.attempts_of s = [("A1", FAILED)] ∧
   CompletionSample.status_of s = Some T_CANCELLED) ∧
  (handle "abort" 9 (rest "continue")).1 =
    Err (Exn ContinuationRecoveryError "resolved event does not match durable authority").
Proof. vm_compute. repeat split. Qed.

Lemma suspended_runs : run_inv RunSample.plain suspended.
Proof.
  eapply (run_steps_ok RunSample.plain sample_suspended); [split; intros k r Hk; vm_compute in Hk; discriminate|].
  apply rtc_once. exists (RunCreate waiting_state). split; [vm_compute; reflexivity|reflexivity].
Qed.
Lemma decided_runs action : run_states (decided action) = run_states suspended → run_inv RunSample.plain (decided action).
Proof. intros E. destruct suspended_runs. by split; rewrite E. Qed.

Definition correlated (d : db) : bool :=
  let ok := optional_identifier in
  forallb (λ x : string * outbox_row, ok (ob_correlation_id x.2)) (map_to_list (outbox_events d)) &&
  forallb (λ x : string * decision_row, ok (dc_correlation_id x.2)) (map_to_list (decision_requests d)) &&
  forallb (λ x : string * run_state_row, ok (rn_correlation_id x.2)) (map_to_list (run_states d)) &&
  forallb (λ x : string * attempt_row, ok (at_correlation_id x.2)) (map_to_list (execution_attempts d)) &&
  forallb (λ x : string * journal_row, ok (j_correlation_id x.2)) (map_to_list (side_effect_journal d)) &&
  forallb (λ x : string * evidence_row, ok (ev_correlation_id x.2)) (map_to_list (evidence_bundles d)).
Lemma forallb_map {A} (f : A → bool) (t : gmap string A) :
  forallb (λ x : string * A, f x.2) (map_to_list t) = true → map_Forall (λ _ r, f r = true) t.
Proof.
  intros H k r Hk%elem_of_map_to_list. apply forallb_Forall in H. rewrite Forall_forall in H. exact (H _ Hk).
Qed.
Lemma correlated_ok d : correlated d = true → correlations_ok d.
Proof. unfold correlated. intros H. bools. repeat split; by apply forallb_map. Qed.

Lemma decided_ledger action :
  execution_attempts (decided action) = execution_attempts sample_suspended →
  memorials (decided action) = memorials sample_suspended → correlated (decided action) = true →
  ledger_inv (decided action).
Proof.
  intros Ea Em Hc. apply (ledger_inv_over sample_suspended); [done| |by apply correlated_ok|exact sample_suspended_inv].
  intros m. unfold has_memorial. by rewrite Em.
Qed.
Lemma continue_ledger : ledger_inv (decided "continue").
Proof. apply decided_ledger; vm_compute; reflexivity. Qed.
Lemma continue_runs : run_inv RunSample.plain (decided "continue").
Proof. apply decided_runs. vm_compute. reflexivity. Qed.
Lemma abort_ledger : ledger_inv (decided "abort").
Proof. apply decided_ledger; vm_compute; reflexivity. Qed.
Lemma abort_runs : run_inv RunSample.plain (decided "abort").
Proof. apply decided_runs. vm_compute. reflexivity. Qed.
Lemma resolution_ok : resolution_valid (resolution "continue") = true.
Proof. vm_compute. reflexivity. Qed.
Lemma asked_decisions : decision_inv asked.
Proof.
  apply exec_decision_ok; [|vm_compute; reflexivity].
  assert (E1 : decision_requests suspended = ∅) by (vm_compute; reflexivity).
  assert (E2 : decision_resolutions suspended = ∅) by (vm_compute; reflexivity).
  split; intros *; rewrite ?E1, ?E2, lookup_empty; discriminate.
Qed.
Lemma continue_decisions : decision_inv (decided "continue").
Proof. exact (proj1 (exec_decision_ok (DecResolve (resolution "continue") 1 (at_s 8)) asked asked_decisions resolution_ok)). Qed.

Lemma out_is {A B} (p : A * B) a : p.1 = a → p = (a, p.2).
Proof. destruct p. by intros [= ->]. Qed.
Definition went_on : session db := (handle "continue" 9 (rest "continue")).2.
Definition called_off : session db := (handle "abort" 9 (rest "abort")).2.
#[local] Strategy expand [went_on called_off].
Lemma out_continue : (handle "continue" 9 (rest "continue")).1 = Ok true.
Proof. vm_compute. reflexivity. Qed.
Lemma out_abort : (handle "abort" 9 (rest "abort")).1 = Ok true.
Proof. vm_compute. reflexivity. Qed.
Lemma handled_continue : handle "continue" 9 (rest "continue") = (Ok true, went_on).
Proof. unfold went_on. exact (out_is _ _ out_continue). Qed.
Lemma handled_abort : handle "abort" 9 (rest "abort") = (Ok true, called_off).
Proof. unfold called_off. exact (out_is _ _ out_abort). Qed.
End RecoverySample.
#[local] Opaque RecoverySample.went_on RecoverySample.called_off RecoverySample.decided.

Lemma recovery_outcome_witness :
  ∃ id, named_decision (RecoverySample.event "continue") = Some id ∧
    handled (RecoverySample.event "continue") id (at_s 9) (RecoverySample.decided "continue")
      (committed RecoverySample.went_on) true.
Proof.
  pose proof (recovery_outcome RunSample.plain RecoverySample.silent (RecoverySample.event "continue") (when 9)
    (RecoverySample.rest "continue") eq_refl RecoverySample.continue_ledger RecoverySample.continue_runs) as H.
  change (handle_decision_resolved _ _ _ _ _) with (RecoverySample.handle "continue" 9 (RecoverySample.rest "continue")) in H.
  rewrite RecoverySample.handled_continue in H. exact (proj2 (proj2 H)).
Defined.

Lemma decision_recovered_once_witness :
  let '(out, s3) := RecoverySample.handle "continue" 30 RecoverySample.went_on in
  out ≠ Ok true ∧ committed s3 = committed RecoverySample.went_on.
Proof.
  exact (decision_recovered_once RunSample.plain RecoverySample.silent (RecoverySample.event "continue")
    (RecoverySample.event "continue") (when 9) (when 30) (RecoverySample.rest "continue") RecoverySample.went_on
    RecoverySample.went_on eq_refl RecoverySample.continue_ledger RecoverySample.continue_runs
    RecoverySample.continue_decisions RecoverySample.handled_continue eq_refl (reflexivity _) eq_refl).
Defined.

Lemma decided_run_claimable_witness :
  ∃ lease d', claim "m" "worker-2" (utc_at (at_s 10)) 60 "A2" (committed RecoverySample.went_on) = (Ok (Some lease), d') ∧
    attempt_id lease = "A1" ∧ a_fencing_token lease = 2.
Proof.
  apply (decided_run_claimable RunSample.plain RecoverySample.silent (RecoverySample.event "continue") (when 9)
    (RecoverySample.rest "continue") RecoverySample.went_on "q1" RecoverySample.settled_request
    (RecoverySample.resolution "continue") "worker-2" (at_s 10) 60 "A2" "A1" suspended_sample_row eq_refl
    RecoverySample.continue_ledger RecoverySample.continue_runs RecoverySample.handled_continue);
    try (vm_compute; reflexivity); vm_compute; discriminate.
Defined.

Lemma decided_cancel_stops_witness :
  ∃ m, memorials (committed RecoverySample.called_off) !! "m" = Some m ∧ mc_status (mm_columns m) = T_CANCELLED.
Proof.
  assert (Hat : decision_at (RecoverySample.decided "abort") "q1" =
    Some (mkRecord RecoverySample.settled_request (Some (RecoverySample.resolution "abort")))) by (vm_compute; reflexivity).
  exact (proj1 (decided_cancel_stops RunSample.plain RecoverySample.silent (RecoverySample.event "abort") (when 9)
    (RecoverySample.rest "abort") RecoverySample.called_off "q1" RecoverySample.settled_request
    (RecoverySample.resolution "abort") eq_refl RecoverySample.abort_ledger RecoverySample.abort_runs
    RecoverySample.handled_abort eq_refl Hat eq_refl)).
Defined.
