(* ===== verification/BashAnalysis.v ===== *)
(** * Shell command analysis

    Models src/src/tianshu/security/bash_analysis.py: the quote-aware split of a
    command into segments and the detectors of constructs that hide commands.
    The four scanners of the source are translated one by one and then compared
    with one reference lexer, [annotate]. *)

From S2P Require Import Prelude.
From S2P Require Import Canonical.
From S2P Require Import PyText.

(** The value of [quote]; [None] outside quotes. *)
Inductive quoting := Single | Double.
#[export] Instance quoting_eq_dec : EqDecision quoting.
Proof. solve_decision. Defined.

Abbreviation SQ := 39.
Abbreviation DQ := 34.
Abbreviation BACKSLASH := 92.
Abbreviation SEMICOLON := 59.
Abbreviation NEWLINE := 10.
Abbreviation PIPE := 124.
Abbreviation AMP := 38.
Abbreviation BACKTICK := 96.
Abbreviation DOLLAR := 36.
Abbreviation PAREN := 40.
Abbreviation GT := 62.
Abbreviation LT := 60.

(** ** [split_unquoted_segments] *)

(** [flush] *)
Definition flush (segments : list ustr) (current : ustr) : list ustr :=
  let seg := strip current in
  match seg with [] => segments | _ => segments ++ [seg] end.

Fixpoint split_loop (command : ustr) (quote : option quoting) (escaped : bool) (current : ustr)
    (segments : list ustr) : list ustr :=
  match command with
  | [] => flush segments current
  | ch :: rest =>
      let push q e := split_loop rest q e (current ++ [ch]) segments in
      match quote with
      | Some Single => push (if ch =? SQ then None else quote) escaped
      | Some Double =>
          if escaped then push quote false
          else if ch =? BACKSLASH then push quote true
          else if ch =? DQ then push None escaped
          else push quote escaped
      | None =>
          if escaped then push None false
          else if ch =? BACKSLASH then push None true
          else if ch =? SQ then push (Some Single) escaped
          else if ch =? DQ then push (Some Double) escaped
          else if (ch =? SEMICOLON) || (ch =? NEWLINE) then split_loop rest None escaped [] (flush segments current)
          else if ch =? PIPE then
            match rest with
            | c :: rest' =>
                if c =? PIPE then split_loop rest' None escaped [] (flush segments current)
                else split_loop rest None escaped [] (flush segments current)
            | [] => split_loop rest None escaped [] (flush segments current)
            end
          else if ch =? AMP then
            match rest with
            | c :: rest' =>
                if c =? AMP then split_loop rest' None escaped [] (flush segments current)
                else push None escaped
            | [] => push None escaped
            end
          else push None escaped
      end
  end.
Definition split_unquoted_segments (command : ustr) : list ustr := split_loop command None false [] [].

(** ** The detectors *)

(** [_contains_unquoted] *)
Fixpoint contains_loop (targets : ustr) (command : ustr) (quote : option quoting) (escaped : bool) : bool :=
  match command with
  | [] => false
  | ch :: rest =>
      match quote with
      | Some Single => contains_loop targets rest (if ch =? SQ then None else quote) escaped
      | Some Double =>
          if escaped then contains_loop targets rest quote false
          else if ch =? BACKSLASH then contains_loop targets rest quote true
          else contains_loop targets rest (if ch =? DQ then None else quote) escaped
      | None =>
          if escaped then contains_loop targets rest None false
          else if ch =? BACKSLASH then contains_loop targets rest None true
          else if ch =? SQ then contains_loop targets rest (Some Single) escaped
          else if ch =? DQ then contains_loop targets rest (Some Double) escaped
          else if bool_decide (ch ∈ targets) then true
          else contains_loop targets rest None escaped
      end
  end.
Definition contains_unquoted (command targets : ustr) : bool := contains_loop targets command None false.

Fixpoint ampersand_loop (command : ustr) (quote : option quoting) (escaped : bool) : bool :=
  match command with
  | [] => false
  | ch :: rest =>
      match quote with
      | Some Single => ampersand_loop rest (if ch =? SQ then None else quote) escaped
      | Some Double =>
          if escaped then ampersand_loop rest quote false
          else if ch =? BACKSLASH then ampersand_loop rest quote true
          else ampersand_loop rest (if ch =? DQ then None else quote) escaped
      | None =>
          if escaped then ampersand_loop rest None false
          else if ch =? BACKSLASH then ampersand_loop rest None true
          else if ch =? SQ then ampersand_loop rest (Some Single) escaped
          else if ch =? DQ then ampersand_loop rest (Some Double) escaped
          else if ch =? AMP then
            match rest with
            | c :: rest' => if c =? AMP then ampersand_loop rest' None escaped else true
            | [] => true
            end
          else ampersand_loop rest None escaped
      end
  end.
Definition has_unquoted_single_ampersand (command : ustr) : bool := ampersand_loop command None false.

(** [command[i + 1] == "("] *)
Definition opens (rest : ustr) : bool := match rest with c :: _ => c =? PAREN | [] => false end.

Fixpoint substitution_loop (command : ustr) (quote : option quoting) (escaped : bool) : bool :=
  match command with
  | [] => false
  | ch :: rest =>
      match quote with
      | Some Single => substitution_loop rest (if ch =? SQ then None else quote) escaped
      | Some Double =>
          if escaped then substitution_loop rest quote false
          else if ch =? BACKSLASH then substitution_loop rest quote true
          else if ch =? DQ then substitution_loop rest None escaped
          else if (ch =? DOLLAR) && opens rest then true
          else substitution_loop rest quote escaped
      | None =>
          if escaped then substitution_loop rest None false
          else if ch =? BACKSLASH then substitution_loop rest None true
          else if ch =? SQ then substitution_loop rest (Some Single) escaped
          else if ch =? DQ then substitution_loop rest (Some Double) escaped
          else if (ch =? DOLLAR) && opens rest then true
          else substitution_loop rest None escaped
      end
  end.
Definition has_unquoted_command_substitution (command : ustr) : bool :=
  if contains_unquoted command [BACKTICK] then true else substitution_loop command None false.

Definition has_unquoted_redirection (command : ustr) : bool := contains_unquoted command [GT; LT].

(** ** [BashAnalysis] *)

Record BashAnalysis := mkAnalysis {
  segments : list ustr;
  has_background : bool;
  has_substitution : bool;
  has_redirection : bool;
}.
Definition has_structural_risk (a : BashAnalysis) : bool :=
  has_background a || has_substitution a || has_redirection a.
Definition structural_notes (a : BashAnalysis) : list string :=
  (if has_background a then ["background '&'"] else []) ++
  (if has_substitution a then ["command substitution"] else []) ++
  (if has_redirection a then ["redirection"] else []).
Definition analyze_command (command : ustr) : BashAnalysis :=
  mkAnalysis (split_unquoted_segments command) (has_unquoted_single_ampersand command)
    (has_unquoted_command_substitution command) (has_unquoted_redirection command).

Example split_examples :
  split_unquoted_segments (u "git log; rm -rf /") = [u "git log"; u "rm -rf /"] ∧
  split_unquoted_segments (u "a && b || c | d") = [u "a"; u "b"; u "c"; u "d"] ∧
  split_unquoted_segments (u "echo 'a; b'") = [u "echo 'a; b'"] ∧
  split_unquoted_segments (u ";; ; ") = [] ∧
  has_structural_risk (analyze_command (u "git log; curl x > /tmp/out & echo $(id)")) = true ∧
  length (structural_notes (analyze_command (u "git log; curl x > /tmp/out & echo $(id)"))) = 3%nat ∧
  has_unquoted_single_ampersand (u "a && b") = false ∧ has_unquoted_command_substitution (u "echo '$(safe)'") = false.
Proof. vm_compute. repeat split; reflexivity. Qed.

(** ** The reference lexer *)

(** Where a character stands: outside quotes, inside double quotes (where a
    shell still expands), or inert: quoted, escaped, or a quoting character. *)
Inductive place := Bare | InDouble | Inert.
#[export] Instance place_eq_dec : EqDecision place.
Proof. solve_decision. Defined.

Abbreviation lexer := (option quoting * bool)%type.
Definition lex (st : lexer) (ch : Z) : lexer * place :=
  match st with
  | (Some Single, e) => ((if ch =? SQ then None else Some Single, e), Inert)
  | (q, true) => ((q, false), Inert)
  | (Some Double, false) =>
      if ch =? BACKSLASH then ((Some Double, true), Inert)
      else if ch =? DQ then ((None, false), Inert)
      else ((Some Double, false), InDouble)
  | (None, false) =>
      if ch =? BACKSLASH then ((None, true), Inert)
      else if ch =? SQ then ((Some Single, false), Inert)
      else if ch =? DQ then ((Some Double, false), Inert)
      else ((None, false), Bare)
  end.
Fixpoint annotate (st : lexer) (l : ustr) : list (Z * place) :=
  match l with
  | [] => []
  | c :: r => (c, (lex st c).2) :: annotate (lex st c).1 r
  end.
Definition lex_end (st : lexer) (l : ustr) : lexer := foldl (λ st c, (lex st c).1) st l.
Abbreviation start := ((None, false) : lexer).

Definition bare_in (targets : ustr) (x : Z * place) : bool := bool_decide (x.2 = Bare) && bool_decide (x.1 ∈ targets).

Lemma contains_loop_eq targets l q e : contains_loop targets l q e = existsb (bare_in targets) (annotate (q, e) l).
Proof.
  revert q e. induction l as [|c r IH]; intros q e; [done|]. cbn [contains_loop annotate existsb].
  unfold bare_in at 1, lex. destruct q as [[]|], e; cbn; try apply IH;
    repeat (case_match; cbn; try apply IH; try done).
Qed.

Lemma annotate_app st l l' : annotate st (l ++ l') = annotate st l ++ annotate (lex_end st l) l'.
Proof. revert st. induction l as [|c l IH]; intros st; [done|]. cbn. by rewrite IH. Qed.
Lemma lex_end_app st l l' : lex_end st (l ++ l') = lex_end (lex_end st l) l'.
Proof. unfold lex_end. by rewrite foldl_app. Qed.
Lemma annotate_fst st l : (annotate st l).*1 = l.
Proof. revert st. induction l as [|c l IH]; intros st; [done|]. cbn. by rewrite IH. Qed.

(** A bare character leaves the lexer outside quotes. *)
Lemma lex_bare st c : (lex st c).2 = Bare → st = start ∧ (lex st c).1 = start.
Proof. unfold lex. destruct st as [[[]|] []]; cbn; repeat case_match; done. Qed.
(** In a state where it is not quoted, an operator character is bare. *)
Lemma lex_start c : c ≠ BACKSLASH → c ≠ SQ → c ≠ DQ → lex start c = (start, Bare).
Proof. intros. unfold lex. by rewrite !(proj2 (Z.eqb_neq _ _)). Qed.

(** Runs of bare ampersands are read in pairs from the left. *)
Fixpoint lone (l : list (Z * place)) : bool :=
  match l with
  | [] => false
  | x :: r =>
      if bool_decide (x = (AMP, Bare)) then
        match r with
        | y :: r' => if bool_decide (y = (AMP, Bare)) then lone r' else true
        | [] => true
        end
      else lone r
  end.

(** One step of a scanner in terms of the lexer. *)
Ltac scan_step :=
  unfold lex; repeat case_match; cbn [fst snd] in *; bools; simplify_eq; try done.

Lemma ampersand_step c r q e :
  ampersand_loop (c :: r) q e =
  if bool_decide ((c, (lex (q, e) c).2) = (AMP, Bare)) then
    match r with c' :: r' => if c' =? AMP then ampersand_loop r' None false else true | [] => true end
  else ampersand_loop r (lex (q, e) c).1.1 (lex (q, e) c).1.2.
Proof. cbn [ampersand_loop]. scan_step. Qed.

Lemma substitution_step c r q e :
  substitution_loop (c :: r) q e =
  if match (lex (q, e) c).2 with Inert => false | _ => (c =? DOLLAR) && opens r end then true
  else substitution_loop r (lex (q, e) c).1.1 (lex (q, e) c).1.2.
Proof. cbn [substitution_loop]. scan_step.
Qed.

Lemma split_step c r q e cur segs :
  split_loop (c :: r) q e cur segs =
  if match (lex (q, e) c).2 with Bare => (c =? SEMICOLON) || (c =? NEWLINE) | _ => false end then
    split_loop r None false [] (flush segs cur)
  else if match (lex (q, e) c).2 with Bare => c =? PIPE | _ => false end then
    match r with
    | c' :: r' => if c' =? PIPE then split_loop r' None false [] (flush segs cur)
                  else split_loop r None false [] (flush segs cur)
    | [] => split_loop r None false [] (flush segs cur)
    end
  else if match (lex (q, e) c).2, r with Bare, c' :: _ => (c =? AMP) && (c' =? AMP) | _, _ => false end then
    split_loop (tail r) None false [] (flush segs cur)
  else split_loop r (lex (q, e) c).1.1 (lex (q, e) c).1.2 (cur ++ [c]) segs.
Proof.
  cbn [split_loop]. scan_step.
Qed.

(** Induction on commands of which one or two characters are consumed. *)
Lemma two_ind (P : ustr → Prop) :
  P [] → (∀ c r, P r → P (tail r) → P (c :: r)) → ∀ l, P l.
Proof.
  intros H0 H1 l. remember (length l) as n eqn:Hn. revert l Hn. induction (lt_wf n) as [n _ IH].
  intros [|c r] ->; [done|]. apply H1; (eapply IH; [|done]); destruct r; cbn; lia.
Qed.

Lemma ampersand_loop_eq l q e : ampersand_loop l q e = lone (annotate (q, e) l).
Proof.
  revert q e. induction l as [|c r IH IH2] using two_ind; intros q e; [done|].
  rewrite ampersand_step. cbn [annotate lone]. destruct (lex (q, e) c) as [[q' e'] pl] eqn:E. cbn [fst snd].
  case_bool_decide as Hb; [|apply IH]. injection Hb as -> ->.
  assert (Hs : (lex (q, e) AMP).2 = Bare) by (by rewrite E). apply lex_bare in Hs as [_ Hs]. rewrite E in Hs.
  cbn in Hs. injection Hs as -> ->. destruct r as [|c' r']; [done|]. cbn [annotate tail] in *.
  destruct (Z.eqb_spec c' AMP) as [->|Hne].
  - rewrite bool_decide_eq_true_2 by done. apply IH2.
  - rewrite bool_decide_eq_false_2; [done|]. by intros [= ->].
Qed.

Lemma substitution_loop_eq l q e :
  substitution_loop l q e = true ↔
  ∃ l1 pl pl' l2, annotate (q, e) l = l1 ++ (DOLLAR, pl) :: (PAREN, pl') :: l2 ∧ pl ≠ Inert.
Proof.
  revert q e. induction l as [|c r IH]; intros q e.
  { split; [done|]. by intros ([] & ? & ? & ? & ? & ?). }
  rewrite substitution_step. cbn [annotate]. destruct (lex (q, e) c) as [[q' e'] pl] eqn:E. cbn [fst snd].
  destruct (match pl with Inert => false | _ => (c =? DOLLAR) && opens r end) eqn:Hh.
  - split; [intros _|done]. destruct r as [|c' r']; [by destruct pl; cbn in Hh; rewrite ?andb_false_r in Hh|].
    exists [], pl. cbn [opens annotate] in *.
    assert (c = DOLLAR ∧ c' = PAREN ∧ pl ≠ Inert) as (-> & -> & Hp) by (destruct pl; bools; done).
    by eexists _, _.
  - rewrite IH. split.
    + intros (l1 & p & p' & l2 & -> & Hp). by exists ((c, pl) :: l1), p, p', l2.
    + intros ([|x l1] & p & p' & l2 & Heq & Hp).
      * exfalso. cbn in Heq. injection Heq as -> -> Hr. destruct r as [|c' r']; [done|]. cbn in Hr.
        injection Hr as -> _ _. cbn in Hh. by destruct p.
      * injection Heq as _ Heq. by exists l1, p, p', l2.
Qed.

(** *** Splitting *)

Definition sep_char (x : Z * place) : bool := bare_in [SEMICOLON; NEWLINE; PIPE] x.
Definition bare_amp (x : Z * place) : bool := bare_in [AMP] x.
(** No separator: none of the single ones and no two adjacent ampersands. *)
Fixpoint sep_free (l : list (Z * place)) : bool :=
  match l with
  | [] => true
  | x :: r => negb (sep_char x) && negb (bare_amp x && match r with y :: _ => bare_amp y | [] => false end) && sep_free r
  end.

Lemma split_sep_free l q e cur segs :
  sep_free (annotate (q, e) l) = true → split_loop l q e cur segs = flush segs (cur ++ l).
Proof.
  revert q e cur. induction l as [|c r IH]; intros q e cur; [by rewrite app_nil_r|].
  cbn [annotate sep_free]. intros H. rewrite split_step.
  destruct (lex (q, e) c) as [[q' e'] pl] eqn:E. cbn [fst snd] in *.
  apply andb_true_iff in H as [[H1 H2]%andb_true_iff H3]. unfold sep_char, bare_amp, bare_in in H1, H2. cbn [fst snd] in *.
  rewrite (assoc_L (++) cur [c] r : cur ++ c :: r = (cur ++ [c]) ++ r), <-(IH _ _ _ H3).
  destruct pl; [|done..]. rewrite bool_decide_eq_true_2 in H1, H2 by done. cbn [andb negb] in H1, H2.
  apply negb_true_iff, bool_decide_eq_false in H1. rewrite !not_elem_of_cons in H1. destruct H1 as (N1 & N2 & N3 & _).
  rewrite !(proj2 (Z.eqb_neq _ _)) by done. cbn [orb].
  destruct r as [|c' r']; [done|]. destruct (Z.eqb_spec c AMP) as [->|]; [|done].
  destruct (Z.eqb_spec c' AMP) as [->|]; [|done]. exfalso. cbn [annotate] in H2.
  assert (Hs : (lex (q, e) AMP).2 = Bare) by (by rewrite E). apply lex_bare in Hs as [_ Hs]. rewrite E in Hs.
  cbn in Hs. injection Hs as -> ->. done.
Qed.

Lemma sep_free_snoc l x :
  sep_free (l ++ [x]) =
  sep_free l && negb (sep_char x) && negb (match last l with Some y => bare_amp y | None => false end && bare_amp x).
Proof.
  induction l as [|y l IH]; [cbn; by destruct (bare_amp x), (sep_char x)|]. cbn [app sep_free]. rewrite IH.
  destruct l as [|z l]; cbn [app last sep_free].
  - destruct (sep_char y), (bare_amp y), (sep_char x), (bare_amp x); done.
  - destruct (sep_char y), (bare_amp y), (bare_amp z); cbn; done.
Qed.

(** The pieces of a command between its separators.  Each piece is free of
    separators when lexed on its own, and quotes are closed where it ends. *)
Definition is_separator (s : ustr) : bool :=
  bool_decide (s ∈ [[SEMICOLON]; [NEWLINE]; [PIPE]; [PIPE; PIPE]; [AMP; AMP]]).
Inductive splits : ustr → list ustr → Prop :=
  | splits_last p : sep_free (annotate start p) = true → splits p [p]
  | splits_more p s rest ps :
      sep_free (annotate start p) = true → lex_end start p = start → is_separator s = true →
      splits rest ps → splits (p ++ s ++ rest) (p :: ps).

(** The pieces that are kept: stripped, and not empty. *)
Definition kept (ps : list ustr) : list ustr := filter (λ s, s ≠ []) (strip <$> ps).

Lemma flush_kept segs cur ps : flush segs cur ++ kept ps = segs ++ kept (cur :: ps).
Proof.
  unfold flush, kept. rewrite fmap_cons, filter_cons. destruct (strip cur); cbn; [done|]. by rewrite <-(assoc_L (++)).
Qed.

Definition ends_amp (cur : ustr) : bool := match last (annotate start cur) with Some y => bare_amp y | None => false end.

Lemma split_loop_splits l q e cur segs :
  lex_end start cur = (q, e) → sep_free (annotate start cur) = true →
  (ends_amp cur = true → head l ≠ Some AMP) →
  ∃ ps, splits (cur ++ l) ps ∧ split_loop l q e cur segs = segs ++ kept ps.
Proof.
  revert q e cur segs. induction l as [|c r IH IH2] using two_ind; intros q e cur segs Hst Hfree Hamp.
  { exists [cur]. rewrite app_nil_r. split; [by constructor|]. cbn. rewrite <-(app_nil_r (flush _ _)). apply (flush_kept segs cur []). }
  assert (Hcut : ∀ s rest, c :: r = s ++ rest → is_separator s = true → lex (q, e) c = (start, Bare) →
    (∀ q e cur segs, lex_end start cur = (q, e) → sep_free (annotate start cur) = true →
       (ends_amp cur = true → head rest ≠ Some AMP) →
       ∃ ps, splits (cur ++ rest) ps ∧ split_loop rest q e cur segs = segs ++ kept ps) →
    ∃ ps, splits (cur ++ c :: r) ps ∧ split_loop rest None false [] (flush segs cur) = segs ++ kept ps).
  { intros s rest -> Hs Hlex IHrest. destruct (IHrest None false [] (flush segs cur)) as (ps & Hps & ->); [done..|].
    exists (cur :: ps). split; [|apply flush_kept]. constructor; try done.
    assert (Hb : (lex (q, e) c).2 = Bare) by (by rewrite Hlex). apply lex_bare in Hb as [Hqe _]. by rewrite Hst, Hqe. }
  rewrite split_step. destruct (lex (q, e) c) as [[q' e'] pl] eqn:E. cbn [fst snd].
  assert (Hbare : pl = Bare → (q', e', pl) = (start, Bare)).
  { intros ->. assert (Hb : (lex (q, e) c).2 = Bare) by (by rewrite E). apply lex_bare in Hb as [_ Hb]. rewrite E in Hb.
    cbn in Hb. congruence. }
  assert (Hpush : bare_in [SEMICOLON; NEWLINE; PIPE] (c, pl) = false →
    (bare_amp (c, pl) = true → ends_amp cur = false ∧ head r ≠ Some AMP) →
    ∃ ps, splits (cur ++ c :: r) ps ∧ split_loop r q' e' (cur ++ [c]) segs = segs ++ kept ps).
  { intros Hns Ha. assert (Han : annotate start (cur ++ [c]) = annotate start cur ++ [(c, pl)]).
    { rewrite annotate_app, Hst. cbn [annotate]. by rewrite E. }
    destruct (IH q' e' (cur ++ [c]) segs) as (ps & Hps & Heq).
    - rewrite lex_end_app, Hst. unfold lex_end. cbn [foldl]. by rewrite E.
    - rewrite Han, sep_free_snoc, Hfree. unfold sep_char. rewrite Hns. cbn. fold (ends_amp cur).
      destruct (bare_amp (c, pl)); [|by rewrite andb_false_r]. by destruct (Ha eq_refl) as [-> _].
    - unfold ends_amp. rewrite Han, last_snoc. intros H. by apply Ha.
    - exists ps. split; [|done]. by rewrite <-(assoc_L (++)) in Hps. }
  destruct (match pl with Bare => (c =? SEMICOLON) || (c =? NEWLINE) | _ => false end) eqn:H1.
  { destruct pl; [|done..]. apply (Hcut [c] r); [done| |exact (Hbare eq_refl)|exact IH].
    apply orb_true_iff in H1 as [->%Z.eqb_eq| ->%Z.eqb_eq]; done. }
  destruct (match pl with Bare => c =? PIPE | _ => false end) eqn:H2.
  { destruct pl; [|done..]. apply Z.eqb_eq in H2 as ->.
    assert (Hone := Hcut [PIPE] r eq_refl eq_refl (Hbare eq_refl) IH).
    destruct r as [|c' r']; [exact Hone|]. destruct (Z.eqb_spec c' PIPE) as [->|]; [|exact Hone].
    apply (Hcut [PIPE; PIPE] r'); [done|done|exact (Hbare eq_refl)|exact IH2]. }
  destruct (match pl, r with Bare, c' :: _ => (c =? AMP) && (c' =? AMP) | _, _ => false end) eqn:H3.
  { destruct pl; [|done..]. destruct r as [|c' r']; [done|]. bools. subst.
    apply (Hcut [AMP; AMP] r'); [done|done|exact (Hbare eq_refl)|exact IH2]. }
  apply Hpush.
  - unfold bare_in. cbn [fst snd]. destruct pl; [|done..]. cbn [andb]. rewrite bool_decide_eq_true_2 by done. cbn [andb].
    apply bool_decide_eq_false. rewrite !not_elem_of_cons. bools. split_and!; try done. apply not_elem_of_nil.
  - unfold bare_amp, bare_in. cbn [fst snd]. intros H. bools. subst pl. rewrite list_elem_of_singleton in *. subst c. split.
    + destruct (ends_amp cur) eqn:Ee; [|done]. by destruct (Hamp eq_refl).
    + destruct r as [|c' r']; [done|]. cbn in H3 |- *. intros [= ->]. done.
Qed.

Lemma split_splits l : ∃ ps, splits l ps ∧ split_unquoted_segments l = kept ps.
Proof. by apply (split_loop_splits l None false [] []). Qed.

Lemma sep_free_app a b : sep_free (a ++ b) = true → sep_free a = true ∧ sep_free b = true.
Proof.
  induction a as [|x a IH]; [done|]. cbn [app sep_free]. intros H.
  apply andb_true_iff in H as [H1 H2]. destruct (IH H2) as [-> ->]. split; [|done]. rewrite andb_true_r.
  destruct a; [|exact H1]. cbn. by destruct (sep_char x), (bare_amp x).
Qed.

Lemma isspace_start c : isspace c = true → lex start c = (start, Bare).
Proof. intros H. apply lex_start; intros ->; by vm_compute in H. Qed.
Lemma lex_end_space w : forallb isspace w = true → lex_end start w = start.
Proof.
  induction w as [|c w IH]; [done|]. cbn [forallb]. intros [Hc Hw]%andb_true_iff.
  unfold lex_end. cbn [foldl]. rewrite (isspace_start c Hc). by apply IH.
Qed.
Lemma sep_free_strip p : sep_free (annotate start p) = true → sep_free (annotate start (strip p)) = true.
Proof.
  destruct (strip_split p) as (w & w' & Hp & Hw & _). rewrite Hp at 1.
  rewrite !annotate_app, (lex_end_space w Hw). intros [_ [H _]%sep_free_app]%sep_free_app. exact H.
Qed.

Lemma splits_sep_free l ps : splits l ps → ∀ p, p ∈ ps → sep_free (annotate start p) = true.
Proof.
  induction 1 as [p Hp|p s rest ps Hp _ _ _ IH]; intros x; rewrite ?list_elem_of_singleton, ?elem_of_cons;
    [by intros ->|]. intros [->|Hx]; [done|by apply IH].
Qed.

Lemma lone_run k l : head l ≠ Some (AMP, Bare) → lone (replicate (S (2 * k)) (AMP, Bare) ++ l) = true.
Proof.
  intros Hl. induction k as [|k IH]; [|by replace (S (2 * S k)) with (S (S (S (2 * k)))) by lia].
  change (lone ((AMP, Bare) :: l) = true). destruct l as [|z l]; [done|]. cbn [lone].
  destruct (bool_decide (z = (AMP, Bare))) eqn:E; [|done]. bools. by subst.
Qed.

Lemma lone_spec l :
  lone l = true ↔ ∃ l1 k l2, l = l1 ++ replicate (S (2 * k)) (AMP, Bare) ++ l2 ∧
    last l1 ≠ Some (AMP, Bare) ∧ head l2 ≠ Some (AMP, Bare).
Proof.
  set (x := (AMP, Bare)). split.
  - remember (length l) as n eqn:Hn. revert l Hn. induction (lt_wf n) as [n _ IH]. intros [|y r] ->; [done|].
    cbn [lone]. fold x. case_bool_decide as Hy.
    + subst y. destruct r as [|z r]; [intros _; by exists [], 0%nat, []|]. fold x. case_bool_decide as Hz.
      * subst z. intros Hr. destruct (IH (length r) ltac:(cbn; lia) r eq_refl Hr) as (l1 & k & l2 & -> & H1 & H2).
        destruct (decide (l1 = [])) as [->|Hne].
        -- exists [], (S k), l2. split; [|done]. replace (S (2 * S k)) with (S (S (S (2 * k)))) by lia. done.
        -- exists (x :: x :: l1), k, l2. split; [done|]. split; [|done]. rewrite !last_cons.
           destruct (last l1) eqn:El; [done|]. by apply last_None in El.
      * intros _. exists [], 0%nat, (z :: r). split; [done|]. split; [done|]. cbn. congruence.
    + intros Hr. destruct (IH (length r) ltac:(cbn; lia) r eq_refl Hr) as (l1 & k & l2 & -> & H1 & H2).
      exists (y :: l1), k, l2. split; [done|]. split; [|done]. rewrite last_cons. destruct (last l1); congruence.
  - intros (l1 & k & l2 & -> & H1 & H2). remember (length l1) as n eqn:Hn. revert l1 Hn H1.
    induction (lt_wf n) as [n _ IH]. intros [|y l1] -> H1.
    + by apply lone_run.
    + cbn [app lone]. fold x. rewrite last_cons in H1.
      case_bool_decide as Hy.
      * subst y. destruct l1 as [|z l1]; [done|]. cbn [app]. case_bool_decide as Hz; [|done]. subst z.
        destruct (decide (l1 = [])) as [->|Hne]; [done|].
        apply (IH (length l1)); [cbn; lia|done|]. rewrite last_cons in H1. by destruct (last l1).
      * apply (IH (length l1)); [cbn; lia|done|]. by destruct (last l1).
Qed.

(** ** Theorems *)

(** C34. Splitting follows the separators of the analysis: the command is a sequence of
    pieces with one separator (a semicolon, a newline, one or two bars, two ampersands)
    between each piece and the next, where every piece but the last ends outside quotes and
    escapes and no piece, read on its own, holds a separator outside quotes and escapes; the
    segments are the pieces, stripped and without the empty ones, and splitting a segment
    again returns it unchanged. A lone ampersand is not a separator: a segment may hold one,
    and the last segment may end inside quotes that are never closed. *)
Theorem segments_correct command :
  (∃ ps, splits command ps ∧ split_unquoted_segments command = kept ps) ∧
  ∀ seg, seg ∈ split_unquoted_segments command → split_unquoted_segments seg = [seg].
Proof.
  destruct (split_splits command) as (ps & Hps & Heq). split; [by exists ps|]. rewrite Heq.
  intros seg [Hne (p & -> & Hp)%list_elem_of_fmap]%list_elem_of_filter.
  unfold split_unquoted_segments. rewrite split_sep_free by (by apply sep_free_strip, (splits_sep_free _ _ Hps)).
  cbn. unfold flush. rewrite strip_idem. by destruct (strip p).
Qed.

(** C35. The detectors see exactly what they are for: a redirection character outside quotes
    and escapes; an odd run of ampersands there; and a backtick there, or a dollar sign
    followed by a parenthesis there or between double quotes. *)
Theorem detectors_correct command :
  let chars := annotate start command in
  let a := analyze_command command in
  (has_redirection a = true ↔ ∃ c, (c, Bare) ∈ chars ∧ (c = GT ∨ c = LT)) ∧
  (has_background a = true ↔ ∃ l1 k l2, chars = l1 ++ replicate (S (2 * k)) (AMP, Bare) ++ l2 ∧
     last l1 ≠ Some (AMP, Bare) ∧ head l2 ≠ Some (AMP, Bare)) ∧
  (has_substitution a = true ↔ (BACKTICK, Bare) ∈ chars ∨
     ∃ l1 pl pl' l2, chars = l1 ++ (DOLLAR, pl) :: (PAREN, pl') :: l2 ∧ pl ≠ Inert).
Proof.
  assert (Hc : ∀ targets, contains_unquoted command targets = true ↔
    ∃ c, (c, Bare) ∈ annotate start command ∧ c ∈ targets).
  { intros targets. unfold contains_unquoted. rewrite contains_loop_eq, existsb_exists. setoid_rewrite <-list_elem_of_In.
    unfold bare_in. split.
    - intros ([c pl] & Hin & Hb). cbn in Hb. bools. subst. eauto.
    - intros (c & Hin & Ht). exists (c, Bare). split; [done|]. by rewrite !bool_decide_eq_true_2. }
  cbn [analyze_command has_redirection has_background has_substitution]. split_and!.
  - unfold has_unquoted_redirection. rewrite Hc. set_solver.
  - unfold has_unquoted_single_ampersand. rewrite ampersand_loop_eq. apply lone_spec.
  - unfold has_unquoted_command_substitution. specialize (Hc [BACKTICK]).
    destruct (contains_unquoted command [BACKTICK]).
    + split; [|done]. intros _. left. destruct (proj1 Hc eq_refl) as (c & Hin & ->%list_elem_of_singleton). done.
    + rewrite substitution_loop_eq. split; [by right|]. intros [Hin|H]; [|done]. exfalso.
      assert (false = true) as Hf; [|done]. apply Hc. exists BACKTICK. split; [done|]. by apply list_elem_of_singleton.
Qed.

(** A backtick between double quotes is expanded by the shell, as the dollar
    form is there, but is not detected. *)
Example backtick_in_double_quotes :
  let command := u "git log " ++ DQ :: BACKTICK :: u "id" ++ [BACKTICK; DQ] in
  (BACKTICK, InDouble) ∈ annotate start command ∧ has_structural_risk (analyze_command command) = false.
Proof.
  cbv zeta. split; [|vm_compute; reflexivity].
  apply (bool_decide_unpack _). vm_compute. exact I.
Qed.
