(* ===== verification/PathUtils.v ===== *)
(** * Path sandbox

    Models src/src/tianshu/tools/path_utils.py: credential paths, the globs that
    open paths outside the workspace, and the sandbox [safe_path] of the tools.

    Paths are those of [pathlib] on POSIX, their texts code points.  What a path
    resolves to depends on the file system: [resolve] is an argument. *)

From S2P Require Import Prelude.
From S2P Require Import Canonical.
From S2P Require Import PyText.

Abbreviation SLASH := 47.
Abbreviation DOT := 46.

(** ** [pathlib.PurePosixPath] *)

Record path := mkPath { root : ustr; names : list ustr }.
#[export] Instance path_eq_dec : EqDecision path.
Proof. solve_decision. Defined.

(** [s.split("/")] *)
Fixpoint split_slash (s : ustr) : list ustr :=
  match s with
  | [] => [[]]
  | c :: r =>
      if c =? SLASH then [] :: split_slash r
      else match split_slash r with p :: ps => (c :: p) :: ps | [] => [[c]] end
  end.
(** [Path(s)]: empty components and single dots go away; two leading slashes,
    but not three, are a root of their own. *)
Definition parse_root (s : ustr) : ustr :=
  match s with
  | a :: b :: c :: _ => if a =? SLASH then if (b =? SLASH) && negb (c =? SLASH) then [SLASH; SLASH] else [SLASH] else []
  | [a; b] => if a =? SLASH then if b =? SLASH then [SLASH; SLASH] else [SLASH] else []
  | [a] => if a =? SLASH then [SLASH] else []
  | [] => []
  end.
Definition parse_path (s : ustr) : path :=
  mkPath (parse_root s) (filter (λ p, p ≠ [] ∧ p ≠ [DOT]) (split_slash s)).
Definition is_absolute (p : path) : bool := bool_decide (root p ≠ []).
(** [p / q] *)
Definition join_path (p q : path) : path :=
  if is_absolute q then q else mkPath (root p) (names p ++ names q).
Definition parts (p : path) : list ustr := match root p with [] => names p | _ => root p :: names p end.
(** [p.name] *)
Definition path_name (p : path) : ustr := default [] (last (names p)).
Fixpoint join_names (l : list ustr) : ustr :=
  match l with
  | [] => []
  | [p] => p
  | p :: ps => p ++ SLASH :: join_names ps
  end.
(** [str(p)] *)
Definition path_text (p : path) : ustr :=
  match root p, names p with
  | [], [] => [DOT]
  | r, ns => r ++ join_names ns
  end.
(** [child.relative_to(parent)] does not raise *)
Fixpoint is_prefix_of (p l : list ustr) : bool :=
  match p, l with
  | [], _ => true
  | a :: p', b :: l' => bool_decide (a = b) && is_prefix_of p' l'
  | _ :: _, [] => false
  end.
Definition is_relative_to (child parent : path) : bool :=
  bool_decide (root child = root parent) && is_prefix_of (names parent) (names child).

Example path_examples :
  path_text (join_path (parse_path (u "/work/e1")) (parse_path (u "src//./a.py"))) = u "/work/e1/src/a.py" ∧
  path_text (join_path (parse_path (u "/work/e1")) (parse_path (u "/etc/passwd"))) = u "/etc/passwd" ∧
  path_text (parse_path (u "")) = u "." ∧ path_text (parse_path (u "///a")) = u "/a" ∧
  is_relative_to (parse_path (u "/work/e1/x")) (parse_path (u "/work/e1")) = true ∧
  is_relative_to (parse_path (u "/work/e12")) (parse_path (u "/work/e1")) = false.
Proof. vm_compute. repeat split; reflexivity. Qed.

(** ** path_utils.py *)

Definition SENSITIVE_DIR_NAMES : list string := [".ssh"; ".aws"; ".gnupg"; ".password-store"; ".kube"; ".docker"].
Definition SENSITIVE_FILE_NAMES : list string :=
  [".env"; ".netrc"; ".pypirc"; ".npmrc"; ".git-credentials"; "tianshu.db"; "tianshu.db-wal"; "tianshu.db-shm"].
Definition SENSITIVE_FILE_PREFIXES : list string := ["id_rsa"; "id_ed25519"; "id_ecdsa"; "id_dsa"].

Definition is_sensitive_path (resolved : path) : bool :=
  if existsb (λ p, bool_decide (p ∈ u <$> SENSITIVE_DIR_NAMES)) (parts resolved) then true
  else bool_decide (path_name resolved ∈ u <$> SENSITIVE_FILE_NAMES) ||
       existsb (λ p, startswith (u p) (path_name resolved)) SENSITIVE_FILE_PREFIXES.

Definition is_wildcard (c : Z) : bool := bool_decide (c ∈ [42; 63; 91]).
Definition validate_allowed_path_glob (glob : ustr) : option string :=
  if negb (startswith [SLASH] glob) then Some "必须是绝对路径 glob（以 / 开头），相对路径不会生效"
  else
    match filter (λ s, s ≠ []) (split_slash glob) with
    | [] => Some "不能是根目录 /，等同于取消工作区隔离"
    | first :: rest =>
        if existsb is_wildcard first then Some "首段不能是通配符，会放行整个文件系统"
        else if existsb (λ p, bool_decide (p ∈ u <$> SENSITIVE_DIR_NAMES)) (first :: rest)
        then Some "不能指向凭证目录（.ssh/.aws 等），这些路径永不可读"
        else None
    end.

Definition path_allowed_outside (resolved : path) (globs : list ustr) : bool :=
  existsb (λ glob, startswith [SLASH] glob && fnmatchcase (path_text resolved) glob) globs.

(** [safe_path]; [globs] is what [ambient_allowed_globs] returns. *)
Definition safe_path (resolve : path → result path) (globs : list ustr) (workspace : path) (path_str : ustr) :
    result path :=
  match resolve (join_path workspace (parse_path path_str)) with
  | Err e => Err e
  | Ok resolved =>
      if is_sensitive_path resolved
      then Err (Exn PermissionError ("Path '" +:+ s_of path_str +:+ "' is a protected credential path"))
      else
        match resolve workspace with
        | Err e => Err e
        | Ok workspace_resolved =>
            let workspace_prefix := path_text workspace_resolved ++ [SLASH] in
            let outside := negb (bool_decide (resolved = workspace_resolved)) &&
                           negb (startswith workspace_prefix (path_text resolved)) in
            if outside && negb (path_allowed_outside resolved globs)
            then Err (Exn PermissionError ("Path '" +:+ s_of path_str +:+ "' is outside workspace"))
            else Ok resolved
        end
  end.

(** ** Resolved paths *)

(** An absolute path of proper components. *)
Definition well_formed (p : path) : Prop :=
  root p = [SLASH] ∧ Forall (λ n, n ≠ [] ∧ SLASH ∉ n) (names p).

Lemma startswith_nil_r p : startswith p [] = true → p = [].
Proof. by destruct p. Qed.

(** Two components followed by a slash are equal when one text starts with the
    other. *)
Lemma component_prefix a b x y :
  SLASH ∉ a → SLASH ∉ b → (y = [] ∨ ∃ y', y = SLASH :: y') →
  startswith (a ++ SLASH :: x) (b ++ y) = true → a = b ∧ startswith (SLASH :: x) y = true.
Proof.
  intros Ha Hb Hy. revert b Hb. induction a as [|c a IH]; intros [|d b] Hb; cbn -[Z.eqb].
  - done.
  - destruct (Z.eqb_spec SLASH d) as [<-|]; [set_solver|done].
  - destruct Hy as [->|[y' ->]]; [done|]. cbn -[Z.eqb]. destruct (Z.eqb_spec c SLASH) as [->|]; [set_solver|done].
  - destruct (Z.eqb_spec c d) as [->|]; [|done]. intros H. destruct (IH ltac:(set_solver) b ltac:(set_solver) H) as [-> H'].
    split; [done|exact H'].
Qed.

Lemma join_names_cons a l : l ≠ [] → join_names (a :: l) = a ++ SLASH :: join_names l.
Proof. by destruct l. Qed.

(** The textual test of the sandbox is the test on components. *)
Lemma prefix_names ns ms :
  Forall (λ n, n ≠ [] ∧ SLASH ∉ n) ns → Forall (λ n, n ≠ [] ∧ SLASH ∉ n) ms → ns ≠ [] →
  startswith (join_names ns ++ [SLASH]) (join_names ms) = true ↔ is_prefix_of ns ms = true ∧ ns ≠ ms.
Proof.
  intros Hns. revert ms. induction Hns as [|a ns [Ha1 Ha2] Hns IH]; intros ms Hms Hne; [done|].
  destruct ms as [|b ms].
  { split; [|by intros [? _]]. intros H%startswith_nil_r. by destruct (join_names (a :: ns)). }
  apply Forall_cons in Hms as [[Hb1 Hb2] Hms]. cbn [is_prefix_of].
  destruct (decide (ns = [])) as [->|Hns'].
  - change (join_names [a]) with a. destruct (decide (ms = [])) as [->|Hms'].
    + change (join_names [b]) with b. split.
      * intros H. rewrite <-(app_nil_r b) in H. apply component_prefix in H as [_ ?]; [done..|by left].
      * intros [H Hab]. bools. subst. done.
    + rewrite join_names_cons by done. split.
      * intros H. apply component_prefix in H as [-> _]; [|done|done|by right; eexists].
        rewrite bool_decide_eq_true_2 by done. split; [done|]. intros [=]. done.
      * intros [H _]. bools. subst. apply startswith_app. exists (join_names ms). by rewrite <-(assoc_L (++)).
  - rewrite join_names_cons by done. rewrite <-(assoc_L (++)). cbn [app].
    destruct (decide (ms = [])) as [->|Hms'].
    + change (join_names [b]) with b. split.
      * intros H. rewrite <-(app_nil_r b) in H. apply component_prefix in H as [_ ?]; [done..|by left].
      * intros [H _]. bools. by destruct ns.
    + rewrite join_names_cons by done. specialize (IH ms Hms Hns'). split.
      * intros H. apply component_prefix in H as [-> H]; [|done|done|by right; eexists]. cbn in H.
        apply IH in H as [-> Hneq]. rewrite bool_decide_eq_true_2 by done. split; [done|congruence].
      * intros [[->%bool_decide_eq_true H]%andb_true_iff Hneq]. apply startswith_app.
        assert (Hne' : ns ≠ ms) by (by intros ->).
        destruct (proj1 (startswith_app _ _) (proj2 IH (conj H Hne'))) as [r Hr].
        exists r. rewrite Hr. by list_simplifier.
Qed.

Lemma path_text_root p : root p = [SLASH] → path_text p = SLASH :: join_names (names p).
Proof. unfold path_text. by intros ->. Qed.

Lemma inside_text ws p :
  well_formed ws → well_formed p → names ws ≠ [] →
  bool_decide (p = ws) || startswith (path_text ws ++ [SLASH]) (path_text p) = is_relative_to p ws.
Proof.
  intros [Hw1 Hw2] [Hp1 Hp2] Hne. apply eq_bool_prop_intro. rewrite !Is_true_true, orb_true_iff, bool_decide_eq_true.
  rewrite !path_text_root by done. cbn [app startswith]. rewrite Z.eqb_refl. cbn [andb].
  unfold is_relative_to. rewrite Hp1, Hw1, bool_decide_eq_true_2 by done. cbn [andb].
  pose proof (prefix_names (names ws) (names p) Hw2 Hp2 Hne) as H. split.
  - intros [->|[? _]%H]; [|done]. clear. induction (names ws) as [|a l IH]; [done|]. cbn.
    by rewrite bool_decide_eq_true_2.
  - intros Hpre. destruct (decide (names ws = names p)) as [E|E]; [|right; by apply H].
    left. destruct p, ws. cbn in *. congruence.
Qed.

(** ** Globs *)

Lemma split_slash_head s p ps :
  split_slash s = p :: ps → ∃ tl, s = p ++ tl ∧ (tl = [] ∨ ∃ t, tl = SLASH :: t) ∧ SLASH ∉ p.
Proof.
  revert p ps. induction s as [|c s IH]; intros p ps; cbn [split_slash].
  - intros [= <- <-]. exists []. split; [done|]. split; [by left|set_solver].
  - destruct (Z.eqb_spec c SLASH) as [->|Hc].
    + intros [= <- <-]. exists (SLASH :: s). split; [done|]. split; [by right; exists s|set_solver].
    + destruct (split_slash s) as [|p' ps'] eqn:E.
      * intros [= <- <-]. exfalso. clear -E. destruct s as [|x s]; cbn in E; [done|].
        destruct (x =? SLASH); [done|]. by destruct (split_slash s).
      * intros [= <- <-]. destruct (IH p' ps' eq_refl) as (tl & -> & Htl & Hn). exists tl. split; [done|].
        split; [done|]. set_solver.
Qed.

Lemma first_segment s f r :
  filter (λ p, p ≠ []) (split_slash s) = f :: r →
  ∃ sl tl, s = sl ++ f ++ tl ∧ Forall (λ c, c = SLASH) sl ∧ (tl = [] ∨ ∃ t, tl = SLASH :: t) ∧ (SLASH ∉ f) ∧ (f ≠ []).
Proof.
  induction s as [|c s IH]; [done|]. cbn [split_slash]. destruct (Z.eqb_spec c SLASH) as [->|Hc].
  - rewrite filter_cons, decide_False by (by intros ?). intros H. destruct (IH H) as (sl & tl & -> & Hsl & Htl).
    exists (SLASH :: sl), tl. split; [done|]. split; [by constructor|done].
  - destruct (split_slash s) as [|p ps] eqn:E.
    + intros [= <- <-]. destruct (split_slash_head [c] [c] []) as (tl & Htl & H & Hn).
      { cbn. by rewrite (proj2 (Z.eqb_neq _ _)). }
      exists [], s. cbn. split_and!; try done. left. clear -E. destruct s as [|x s]; [done|]. cbn in E.
      destruct (x =? SLASH); [done|]. by destruct (split_slash s).
    + rewrite filter_cons, decide_True by done. intros [= <- _].
      destruct (split_slash_head _ _ _ E) as (tl & -> & Htl & Hn).
      exists [], tl. split_and!; try done. set_solver.
Qed.

Lemma translate_literal l r :
  Forall (λ c, is_wildcard c = false) l → translate (l ++ r) = (Literal <$> l) ++ translate r.
Proof.
  unfold translate. induction 1 as [|c l Hc _ IH]; [done|]. cbn [length app translate_fuel fmap list_fmap].
  unfold is_wildcard in Hc. bools. rewrite !not_elem_of_cons in Hc. destruct Hc as (H1 & H2 & H3 & _).
  rewrite !(proj2 (Z.eqb_neq _ _)) by done. by rewrite IH.
Qed.

Lemma denotes_literal l items name :
  denotes ((Literal <$> l) ++ items) name → ∃ rest, name = l ++ rest ∧ denotes items rest.
Proof.
  revert name. induction l as [|c l IH]; intros name; [by exists name|]. cbn. inversion 1 as [| |? ? x rest Hx Hr]; subst.
  cbn in Hx. apply Z.eqb_eq in Hx as <-. destruct (IH _ Hr) as (rest' & -> & ?). by exists rest'.
Qed.

(** ** Theorems *)

(** C36. The sandbox confines: for a resolved workspace other than the root directory,
    safe_path returns a path exactly when it is not a credential path and lies in the
    workspace or matches an absolute glob of the edict; otherwise it raises PermissionError. *)
Theorem safe_path_confines resolve globs ws s p ws' :
  resolve (join_path ws (parse_path s)) = Ok p → resolve ws = Ok ws' →
  well_formed p → well_formed ws' → names ws' ≠ [] →
  let ok := negb (is_sensitive_path p) && (is_relative_to p ws' || path_allowed_outside p globs) in
  if ok then safe_path resolve globs ws s = Ok p
  else ∃ msg, safe_path resolve globs ws s = Err (Exn PermissionError msg).
Proof.
  intros Hp Hws Wp Ww Hne ok. unfold safe_path. rewrite Hp, Hws. cbv zeta.
  rewrite <-negb_orb, (inside_text ws' p Ww Wp Hne). subst ok.
  destruct (is_sensitive_path p); cbn [negb andb]; [by eexists|].
  destruct (is_relative_to p ws'); cbn [negb andb orb]; [done|].
  destruct (path_allowed_outside p globs); cbn [negb]; [done|by eexists].
Qed.

(** A glob that validation accepts opens one directory: every resolved path it matches lies
    below the first component of the glob, which has no wildcard; validation thus never
    accepts a glob that opens the file system. *)
Theorem validated_glob_confined glob p :
  well_formed p → validate_allowed_path_glob glob = None → path_allowed_outside p [glob] = true →
  ∃ first rest, filter (λ s, s ≠ []) (split_slash glob) = first :: rest ∧ head (names p) = Some first ∧
    existsb is_wildcard first = false.
Proof.
  intros [Hroot Hn] Hv Hm. unfold validate_allowed_path_glob in Hv.
  destruct (startswith [SLASH] glob) eqn:Habs; cbn in Hv; [|done].
  destruct (filter (λ s, s ≠ []) (split_slash glob)) as [|f r] eqn:Hf; [done|].
  destruct (existsb is_wildcard f) eqn:Hw; [done|]. exists f, r. split; [done|]. split; [|done].
  destruct (first_segment _ _ _ Hf) as (sl & tl & Hg & Hsl & Htl & Hff & Hfn).
  unfold path_allowed_outside in Hm. cbn in Hm. rewrite orb_false_r in Hm. apply andb_true_iff in Hm as [_ Hm].
  unfold fnmatchcase in Hm. apply items_match_denotes in Hm. rewrite Hg, !translate_literal in Hm.
  2: { apply Forall_forall. intros x Hx. destruct (is_wildcard x) eqn:E; [|done].
       rewrite <-Hw. symmetry. apply existsb_exists. exists x. split; [by apply list_elem_of_In|done]. }
  2: { eapply Forall_impl; [exact Hsl|]. by intros ? ->. }
  apply denotes_literal in Hm as (rest & Hname & Hm). apply denotes_literal in Hm as (rest' & -> & Hm).
  assert (Hr' : rest' = [] ∨ ∃ t, rest' = SLASH :: t).
  { destruct Htl as [->|[t ->]]; [inversion Hm; by left|]. change (SLASH :: t) with ([SLASH] ++ t) in Hm.
    rewrite translate_literal in Hm by (by repeat constructor).
    apply (denotes_literal [SLASH]) in Hm as (t' & -> & _). right. by exists t'. }
  rewrite path_text_root in Hname by done.
  destruct sl as [|c sl].
  { exfalso. subst glob. destruct f as [|c f]; [done|]. apply startswith_app in Habs as [t Ht]. injection Ht as -> _. set_solver. }
  injection Hname as _ Hname. destruct (names p) as [|n ns]; [by destruct sl, f|].
  apply Forall_cons in Hn as [[Hn1 Hn2] _]. cbn [head]. f_equal.
  assert (Hj : ∃ y, join_names (n :: ns) = n ++ y ∧ (y = [] ∨ ∃ t, y = SLASH :: t)).
  { destruct ns as [|m ns]; [exists []; by rewrite app_nil_r; auto|]. eexists. split; [done|]. right. by eexists. }
  destruct Hj as (y & Hj & Hy). rewrite Hj in Hname. clear Hj.
  destruct sl as [|c' sl].
  2: { apply Forall_cons in Hsl as [_ Hsl]. apply Forall_cons in Hsl as [-> _]. destruct n; [done|].
       injection Hname as -> _. set_solver. }
  cbn in Hname. clear -Hname Hn2 Hff Hy Hr'. revert f Hff Hname. induction n as [|c n IH]; intros [|d f] Hff Hname; try done.
  - exfalso. cbn in Hname. destruct Hy as [->|[t ->]]; [done|]. injection Hname as <- _. set_solver.
  - exfalso. cbn in Hname. destruct Hr' as [->|[t ->]]; [done|]. injection Hname as -> _. set_solver.
  - injection Hname as -> Hname. f_equal. apply IH; [set_solver|set_solver|done].
Qed.

(** The sandbox of the root directory refuses its own contents: the prefix it
    compares with is two slashes. *)
Example root_workspace_refuses :
  safe_path Ok [] (parse_path (u "/")) (u "srv/data.txt") =
    Err (Exn PermissionError "Path 'srv/data.txt' is outside workspace").
Proof. vm_compute. reflexivity. Qed.

Lemma safe_path_confines_witness :
  safe_path Ok [u "/data/**"] (parse_path (u "/work/e1")) (u "src/a.py") = Ok (parse_path (u "/work/e1/src/a.py")).
Proof.
  assert (Wp : well_formed (parse_path (u "/work/e1/src/a.py"))).
  { split; [reflexivity|]. apply (bool_decide_unpack _). vm_compute. exact I. }
  assert (Ww : well_formed (parse_path (u "/work/e1"))).
  { split; [reflexivity|]. apply (bool_decide_unpack _). vm_compute. exact I. }
  assert (Hne : names (parse_path (u "/work/e1")) ≠ []) by (vm_compute; discriminate).
  exact (safe_path_confines Ok [u "/data/**"] (parse_path (u "/work/e1")) (u "src/a.py")
    (parse_path (u "/work/e1/src/a.py")) (parse_path (u "/work/e1")) eq_refl eq_refl Wp Ww Hne).
Defined.

Lemma validated_glob_confined_witness :
  ∃ first rest, filter (λ s, s ≠ []) (split_slash (u "/data/**")) = first :: rest ∧
    head (names (parse_path (u "/data/x/y"))) = Some first ∧ existsb is_wildcard first = false.
Proof.
  assert (Wp : well_formed (parse_path (u "/data/x/y"))).
  { split; [reflexivity|]. apply (bool_decide_unpack _). vm_compute. exact I. }
  exact (validated_glob_confined (u "/data/**") (parse_path (u "/data/x/y")) Wp eq_refl eq_refl).
Defined.
