(* ===== verification/Workspace.v ===== *)
(** * Workspace records

    Models src/src/tianshu/models/workspace.py: the leases of staging
    workspaces, restore points, canonical change sets, apply decisions and
    receipts.  A pydantic model is a record and its field constraints and
    validators one boolean function; the state of a lease and of a decision is
    in tables of its own, so it is a part of the record.  Timestamps are
    instants, already normalized to UTC; strings are UTF-8. *)

From stdpp Require Import pretty.
From S2P Require Import Prelude.
From S2P Require Import Sql.
From S2P Require Import Canonical.
From S2P Require Import PyText.
From S2P Require Import Models.
From S2P Require Import PathUtils.

(** ** Field constraints *)

(** [Field(min_length=1, max_length=n)] *)
Definition sized (n : nat) (s : string) : bool := bool_decide (1 ≤ py_len s ≤ n)%nat.
Definition given (s : string) : bool := bool_decide (1 ≤ py_len s)%nat.
(** [_validate_oid] *)
Definition is_oid (s : string) : bool :=
  bool_decide (String.length s ∈ [40; 64]%nat) && forallb is_hex (text s).
Definition optional_ok {A} (f : A → bool) (o : option A) : bool := match o with Some a => f a | None => true end.
(** [_validate_path]; the parts of a [PurePosixPath] have no empty and no
    single-dot components *)
Definition unsafe_part (part : ustr) : bool :=
  bool_decide (part ∈ [[]; u "."; u ".."]) || bool_decide (lower part = u ".git").
Definition is_change_path (s : string) : bool :=
  let v := u s in
  negb (bool_decide (v = []) || bool_decide (0 ∈ v) || bool_decide (head v = Some SLASH) || bool_decide (92 ∈ v) ||
        existsb unsafe_part (parts (parse_path v))).

(** ** Leases *)

Inductive WorkspaceLeaseState := L_STARTING | L_ACTIVE | L_CLOSING | L_CLEANUP_FAILED | L_CLOSED.
#[export] Instance WorkspaceLeaseState_eq_dec : EqDecision WorkspaceLeaseState.
Proof. solve_decision. Defined.
Inductive source_kind := K_GIT | K_SCRATCH.
#[export] Instance source_kind_eq_dec : EqDecision source_kind.
Proof. solve_decision. Defined.
Inductive apply_mode := GOVERNED | NO_APPLY.
#[export] Instance apply_mode_eq_dec : EqDecision apply_mode.
Proof. solve_decision. Defined.

(** The columns of [workspace_leases]. *)
Record lease_columns := mkLeaseColumns {
  wl_id : string;
  wl_run_id : string;
  wl_lineage_root_run_id : string;
  wl_parent_run_id : option string;
  wl_attempt : Z;
  wl_source_kind : source_kind;
  wl_apply_mode : apply_mode;
  wl_source_root : option string;
  wl_source_repository_id : option string;
  wl_source_git_dir : option string;
  wl_source_git_dir_identity : option string;
  wl_base_revision : option string;
  wl_staging_root : string;
  wl_created_at : Z;
}.
#[export] Instance lease_columns_eq_dec : EqDecision lease_columns.
Proof. solve_decision. Defined.
Record WorkspaceLease := mkLease {
  lease_row : lease_columns;
  staging_git_dir : option string;
  staging_git_dir_identity : option string;
  lease_state : WorkspaceLeaseState;
  lease_version : Z;
}.
#[export] Instance WorkspaceLease_eq_dec : EqDecision WorkspaceLease.
Proof. solve_decision. Defined.

Definition source_fields (c : lease_columns) : list (option string) :=
  [wl_source_root c; wl_source_repository_id c; wl_source_git_dir c; wl_source_git_dir_identity c; wl_base_revision c].
Definition staging_fields (l : WorkspaceLease) : list (option string) := [staging_git_dir l; staging_git_dir_identity l].
(** [WorkspaceLease.validate_source] *)
Definition lease_source_ok (l : WorkspaceLease) : bool :=
  let c := lease_row l in
  match wl_source_kind c with
  | K_GIT =>
      bool_decide (wl_apply_mode c = GOVERNED) && forallb is_some (source_fields c) &&
      (forallb is_some (staging_fields l) || forallb is_none (staging_fields l)) &&
      match lease_state l with
      | L_ACTIVE | L_CLOSING => forallb is_some (staging_fields l)
      | _ => true
      end
  | K_SCRATCH => bool_decide (wl_apply_mode c = NO_APPLY) && forallb is_none (source_fields c ++ staging_fields l)
  end.
Definition lease_lineage_ok (c : lease_columns) : bool :=
  if wl_attempt c =? 0
  then is_none (wl_parent_run_id c) && bool_decide (wl_lineage_root_run_id c = wl_run_id c)
  else match wl_parent_run_id c with Some p => negb (bool_decide (p = wl_run_id c)) | None => false end.
Definition columns_valid (c : lease_columns) : bool :=
  sized 128 (wl_id c) && sized 256 (wl_run_id c) && sized 256 (wl_lineage_root_run_id c) &&
  optional_ok (λ s, bool_decide (py_len s ≤ 256)%nat) (wl_parent_run_id c) && (0 <=? wl_attempt c) &&
  given (wl_staging_root c) && optional_ok is_oid (wl_base_revision c) && optional_ok hex64 (wl_source_git_dir_identity c) &&
  lease_lineage_ok c.
Definition lease_valid (l : WorkspaceLease) : bool :=
  columns_valid (lease_row l) && optional_ok hex64 (staging_git_dir_identity l) && (1 <=? lease_version l) &&
  lease_source_ok l.

Record WorkspaceStagingIdentity := mkStaging {
  sg_lease_id : string;
  sg_staging_root : string;
  sg_git_dir : string;
  sg_git_dir_identity : string;
  sg_source_repository_id : string;
  sg_base_revision : string;
  sg_created_at : Z;
}.
#[export] Instance WorkspaceStagingIdentity_eq_dec : EqDecision WorkspaceStagingIdentity.
Proof. solve_decision. Defined.
Definition staging_valid (g : WorkspaceStagingIdentity) : bool :=
  sized 128 (sg_lease_id g) && given (sg_staging_root g) && given (sg_git_dir g) && hex64 (sg_git_dir_identity g) &&
  given (sg_source_repository_id g) && is_oid (sg_base_revision g).

(** ** Canonical texts *)

(** [_canonical_json]: [ensure_ascii], no spaces, sorted keys *)
Fixpoint dumps_ascii (v : json) : list Ascii.ascii :=
  match v with
  | JNull => text "null"
  | JBool true => text "true"
  | JBool false => text "false"
  | JInt z => text (pretty z)
  | JFloat f => dumps_float f
  | JStr s => dumps_ascii_str s
  | JList l => chr 91 :: join (chr 93) (dumps_ascii <$> l)
  | JObj items => chr 123 :: join (chr 125) ((λ kv, dumps_ascii_str kv.1 ++ chr 58 :: dumps_ascii kv.2) <$> items)
  end.
Definition canonical_text (items : list (string * json)) : string :=
  String.string_of_list_ascii (dumps_ascii (sort_keys (JObj items))).
Definition optional_text (o : option string) : json := match o with Some s => JStr s | None => JNull end.
Definition optional_int (o : option Z) : json := match o with Some z => JInt z | None => JNull end.

(** ** Restore points *)

Record RestorePoint := mkRestorePoint {
  rp_id : string;
  rp_lease_id : string;
  rp_source_repository_id : string;
  rp_source_root : string;
  rp_source_git_dir : string;
  rp_source_git_dir_identity : string;
  rp_base_revision : string;
  rp_source_head_revision : string;
  rp_source_head_ref : option string;
  rp_source_index_tree : string;
  rp_source_status_hash : string;
  rp_created_at : Z;
}.
#[export] Instance RestorePoint_eq_dec : EqDecision RestorePoint.
Proof. solve_decision. Defined.
Definition point_valid (p : RestorePoint) : bool :=
  sized 128 (rp_id p) && sized 128 (rp_lease_id p) && given (rp_source_repository_id p) && given (rp_source_root p) &&
  given (rp_source_git_dir p) && hex64 (rp_source_git_dir_identity p) && is_oid (rp_base_revision p) &&
  is_oid (rp_source_head_revision p) && is_oid (rp_source_index_tree p) && hex64 (rp_source_status_hash p).
Definition point_json (p : RestorePoint) : string :=
  canonical_text
    [("schema_version", JStr "1"); ("lease_id", JStr (rp_lease_id p));
     ("source_repository_id", JStr (rp_source_repository_id p)); ("source_root", JStr (rp_source_root p));
     ("source_git_dir", JStr (rp_source_git_dir p)); ("source_git_dir_identity", JStr (rp_source_git_dir_identity p));
     ("base_revision", JStr (rp_base_revision p)); ("source_head_revision", JStr (rp_source_head_revision p));
     ("source_head_ref", optional_text (rp_source_head_ref p)); ("source_index_tree", JStr (rp_source_index_tree p));
     ("source_status_hash", JStr (rp_source_status_hash p))].
Definition point_hash (p : RestorePoint) : string := Sha256.hexdigest (point_json p).

(** ** Change sets *)

Inductive change_kind := C_ADD | C_MODIFY | C_DELETE | C_RENAME | C_COPY | C_MODE | C_UNTRACKED.
#[export] Instance change_kind_eq_dec : EqDecision change_kind.
Proof. solve_decision. Defined.
Definition change_kind_value (k : change_kind) : string :=
  match k with
  | C_ADD => "add" | C_MODIFY => "modify" | C_DELETE => "delete" | C_RENAME => "rename" | C_COPY => "copy"
  | C_MODE => "mode" | C_UNTRACKED => "untracked"
  end.
(** One side of a change: its path, object, mode and size. *)
Record side := mkSide { s_path : option string; s_oid : option string; s_mode : option string; s_size : option Z }.
#[export] Instance side_eq_dec : EqDecision side.
Proof. solve_decision. Defined.
Record CanonicalChange := mkChange { ch_kind : change_kind; ch_old : side; ch_new : side; ch_binary : bool }.
#[export] Instance CanonicalChange_eq_dec : EqDecision CanonicalChange.
Proof. solve_decision. Defined.

Definition side_full (x : side) : bool := is_some (s_path x) && is_some (s_oid x) && is_some (s_mode x) && is_some (s_size x).
Definition side_empty (x : side) : bool := is_none (s_path x) && is_none (s_oid x) && is_none (s_mode x) && is_none (s_size x).
Definition side_fields (x : side) : bool :=
  optional_ok is_change_path (s_path x) && optional_ok is_oid (s_oid x) &&
  optional_ok (λ m, bool_decide (m ∈ ["100644"; "100755"; "120000"])) (s_mode x) && optional_ok (λ z, 0 <=? z) (s_size x).
Definition expected_sides (k : change_kind) : bool * bool :=
  match k with
  | C_ADD | C_UNTRACKED => (false, true)
  | C_DELETE => (true, false)
  | _ => (true, true)
  end.
(** [CanonicalChange.validate_shape] *)
Definition change_shape (c : CanonicalChange) : bool :=
  let o := ch_old c in
  let n := ch_new c in
  let k := ch_kind c in
  bool_decide ((side_full o, side_full n) = expected_sides k) &&
  ((expected_sides k).1 || side_empty o) && ((expected_sides k).2 || side_empty n) &&
  negb (bool_decide (k ∈ [C_MODIFY; C_MODE]) && negb (bool_decide (s_path o = s_path n))) &&
  negb (bool_decide (k ∈ [C_RENAME; C_COPY]) && bool_decide (s_path o = s_path n)) &&
  negb (bool_decide (k = C_MODE) && (negb (bool_decide (s_oid o = s_oid n)) || bool_decide (s_mode o = s_mode n))) &&
  negb (bool_decide (k = C_MODIFY) && bool_decide (s_oid o = s_oid n)) &&
  negb (bool_decide (k ∈ [C_RENAME; C_COPY]) && negb (bool_decide (s_oid o = s_oid n))) &&
  negb (is_some (s_oid o) && bool_decide (s_oid o = s_oid n) && negb (bool_decide (s_size o = s_size n))).
Definition change_valid (c : CanonicalChange) : bool := side_fields (ch_old c) && side_fields (ch_new c) && change_shape c.

(** [sort_key]; the order of UTF-8 bytes *)
Definition sort_key (c : CanonicalChange) : string * string * string :=
  (default "" (s_path (ch_new c)), default "" (s_path (ch_old c)), change_kind_value (ch_kind c)).
Definition change_le (c c' : CanonicalChange) : bool :=
  let '(n, o, k) := sort_key c in
  let '(n', o', k') := sort_key c' in
  le_of (lex (text_compare n n') (lex (text_compare o o') (text_compare k k'))).
(** [canonical_order] *)
Definition canonical_order (changes : list CanonicalChange) : result (list CanonicalChange) :=
  let ordered := order_by change_le changes in
  if bool_decide (NoDup (sort_key <$> ordered)) then
    if bool_decide (NoDup (omap (λ c, s_path (ch_new c)) ordered)) then Ok ordered
    else Err (Exn ValueError "canonical changes contain duplicate target paths")
  else Err (Exn ValueError "canonical changes contain duplicate path identities").

Record CanonicalChangeSet := mkChangeSet {
  cs_id : string;
  cs_lease_id : string;
  cs_restore_point_id : string;
  cs_source_repository_id : string;
  cs_base_revision : string;
  cs_sequence : Z;
  cs_changes : list CanonicalChange;
  cs_created_at : Z;
}.
#[export] Instance CanonicalChangeSet_eq_dec : EqDecision CanonicalChangeSet.
Proof. solve_decision. Defined.
Definition change_set_valid (c : CanonicalChangeSet) : bool :=
  sized 128 (cs_id c) && sized 128 (cs_lease_id c) && sized 128 (cs_restore_point_id c) &&
  given (cs_source_repository_id c) && is_oid (cs_base_revision c) && (1 <=? cs_sequence c) &&
  forallb change_valid (cs_changes c) && bool_decide (canonical_order (cs_changes c) = Ok (cs_changes c)).
Definition change_json (c : CanonicalChange) : json :=
  JObj
    [("schema_version", JStr "1"); ("kind", JStr (change_kind_value (ch_kind c)));
     ("old_path", optional_text (s_path (ch_old c))); ("new_path", optional_text (s_path (ch_new c)));
     ("old_oid", optional_text (s_oid (ch_old c))); ("new_oid", optional_text (s_oid (ch_new c)));
     ("old_mode", optional_text (s_mode (ch_old c))); ("new_mode", optional_text (s_mode (ch_new c)));
     ("old_size", optional_int (s_size (ch_old c))); ("new_size", optional_int (s_size (ch_new c)));
     ("binary", JBool (ch_binary c))].
Definition change_set_json (c : CanonicalChangeSet) : string :=
  canonical_text
    [("schema_version", JStr "1"); ("lease_id", JStr (cs_lease_id c)); ("restore_point_id", JStr (cs_restore_point_id c));
     ("source_repository_id", JStr (cs_source_repository_id c)); ("base_revision", JStr (cs_base_revision c));
     ("changes", JList (change_json <$> cs_changes c))].
Definition change_set_hash (c : CanonicalChangeSet) : string := Sha256.hexdigest (change_set_json c).

(** ** Apply decisions and receipts *)

Inductive apply_state := A_PENDING | A_CONSUMED | A_EXPIRED | A_REVOKED.
#[export] Instance apply_state_eq_dec : EqDecision apply_state.
Proof. solve_decision. Defined.

(** The columns of [apply_decisions]. *)
Record decision_columns := mkDecisionColumns {
  ad_id : string;
  ad_decision_request_id : option string;
  ad_run_id : string;
  ad_lease_id : string;
  ad_restore_point_id : string;
  ad_restore_point_hash : string;
  ad_change_set_id : string;
  ad_change_set_hash : string;
  ad_source_repository_id : string;
  ad_source_root : string;
  ad_source_git_dir_identity : string;
  ad_base_revision : string;
  ad_source_head_revision : string;
  ad_source_head_ref : option string;
  ad_source_index_tree : string;
  ad_source_status_hash : string;
  ad_staging_root : string;
  ad_staging_git_dir_identity : string;
  ad_principal_digest : string;
  ad_reason : string;
  ad_decision_hash : string;
  ad_token_hash : string;
  ad_expires_at : Z;
  ad_created_at : Z;
}.
#[export] Instance decision_columns_eq_dec : EqDecision decision_columns.
Proof. solve_decision. Defined.
Record ApplyDecision := mkApplyDecision { ad_row : decision_columns; ad_state : apply_state; ad_version : Z }.
#[export] Instance ApplyDecision_eq_dec : EqDecision ApplyDecision.
Proof. solve_decision. Defined.

(** [validate_reason] of a stripped text *)
Definition reason_ok (s : string) : bool :=
  sized 2000 s && bool_decide (strip (u s) = u s) && negb (existsb (λ c, bool_decide (c ∈ [0; 10; 13])) (u s)).
Definition decision_columns_valid (c : decision_columns) : bool :=
  sized 128 (ad_id c) && optional_ok (sized 128) (ad_decision_request_id c) && sized 256 (ad_run_id c) &&
  sized 128 (ad_lease_id c) && sized 128 (ad_restore_point_id c) && sized 128 (ad_change_set_id c) &&
  given (ad_source_repository_id c) && given (ad_source_root c) && given (ad_staging_root c) &&
  forallb hex64 [ad_restore_point_hash c; ad_change_set_hash c; ad_source_git_dir_identity c; ad_source_status_hash c;
                 ad_staging_git_dir_identity c; ad_principal_digest c; ad_decision_hash c; ad_token_hash c] &&
  forallb is_oid [ad_base_revision c; ad_source_head_revision c; ad_source_index_tree c] && reason_ok (ad_reason c) &&
  match ad_decision_request_id c with Some i => bool_decide (ad_id c = i) | None => true end &&
  (ad_created_at c <? ad_expires_at c).
Definition apply_decision_valid (a : ApplyDecision) : bool := decision_columns_valid (ad_row a) && (1 <=? ad_version a).

Inductive apply_outcome := O_SUCCEEDED | O_FAILED | O_DENIED.
#[export] Instance apply_outcome_eq_dec : EqDecision apply_outcome.
Proof. solve_decision. Defined.
Inductive rollback_status := R_NOT_REQUIRED | R_NOT_ATTEMPTED | R_SUCCEEDED | R_FAILED.
#[export] Instance rollback_status_eq_dec : EqDecision rollback_status.
Proof. solve_decision. Defined.
Record ApplyReceipt := mkReceipt {
  ar_id : string;
  ar_decision_id : string;
  ar_decision_hash : string;
  ar_lease_id : string;
  ar_change_set_id : string;
  ar_change_set_hash : string;
  ar_outcome : apply_outcome;
  ar_detail : string;
  ar_pre_source_head : string;
  ar_pre_source_status_hash : string;
  ar_post_source_head : string;
  ar_post_source_status_hash : string;
  ar_rollback_status : rollback_status;
  ar_failure_code : option string;
  ar_evidence : list string;
  ar_created_at : Z;
}.
#[export] Instance ApplyReceipt_eq_dec : EqDecision ApplyReceipt.
Proof. solve_decision. Defined.
Definition receipt_valid (r : ApplyReceipt) : bool :=
  sized 128 (ar_id r) && sized 128 (ar_decision_id r) && sized 128 (ar_lease_id r) && sized 128 (ar_change_set_id r) &&
  forallb hex64 [ar_decision_hash r; ar_change_set_hash r; ar_pre_source_status_hash r; ar_post_source_status_hash r] &&
  is_oid (ar_pre_source_head r) && is_oid (ar_post_source_head r).

(** Components with dots or doubled slashes pass the check of a path, and so do
    two targets that are one file. *)
Example change_path_aliases :
  is_change_path "a/b" = true ∧ is_change_path "../a" = false ∧ is_change_path "x/.GIT/config" = false ∧
  is_change_path "." = true ∧ is_change_path "a/./b" = true ∧ is_change_path "a//b" = true ∧
  path_text (parse_path (u "a/./b")) = path_text (parse_path (u "a//b")).
Proof. vm_compute. repeat split. Qed.
