(* ===== verification/WorkspaceRepo.v ===== *)
(** * The workspace repository

    Models src/src/tianshu/storage/workspace_repo.py over the tables and
    triggers of storage/migrations.py (versions 4, 5 and 13): the leases of
    staging workspaces with their state history, staging identities, restore
    points, canonical change sets, apply decisions with their state history, and
    apply receipts.

    A row is the record it is written from; the canonical text of a restore
    point or a change set is a function of that record, and reading it back is
    the validation of the record.  Timestamps are instants.  The code stores and
    compares their [isoformat] texts as they come; for times in UTC, which is
    what every caller passes, the texts agree and order as the instants do
    (Timestamp.v), for other offsets they need not. *)

From stdpp Require Import relations.
From Stdlib Require Import Sorted.
From S2P Require Import Prelude.
From S2P Require Import Sql.
From S2P Require Import Canonical.
From S2P Require Import PyText.
From S2P Require Import UnitOfWork.
From S2P Require Import Models.
From S2P Require Import Schema.
From S2P Require Import PathUtils.
From S2P Require Import Workspace.

(** ** Tables *)

Record lease_state_row := mkLeaseState {
  ls_lease_id : string;
  ls_version : Z;
  ls_state : WorkspaceLeaseState;
  ls_detail : option string;
  ls_created_at : Z;
}.
Record decision_state_row := mkDecisionState {
  ds_decision_id : string;
  ds_version : Z;
  ds_state : apply_state;
  ds_receipt_id : option string;
  ds_created_at : Z;
}.

(** The tables of the other repositories and those of this one. *)
Record workspace_db := mkWorkspaceDb {
  wd_main : db;
  workspace_leases : gmap string lease_columns;
  workspace_lease_states : gmap (string * Z) lease_state_row;
  workspace_staging_identities : gmap string WorkspaceStagingIdentity;
  restore_points : gmap string RestorePoint;
  canonical_change_sets : gmap string CanonicalChangeSet;
  apply_decisions : gmap string decision_columns;
  apply_decision_states : gmap (string * Z) decision_state_row;
  apply_receipts : gmap string ApplyReceipt;
}.
Definition no_workspaces (m : db) : workspace_db := mkWorkspaceDb m ∅ ∅ ∅ ∅ ∅ ∅ ∅ ∅.

(** SQL's [=], which is not true of nulls. *)
Definition col_eq (o : option string) (s : string) : bool := bool_decide (o = Some s).
(** [length(x) = 64] *)
Definition length64 (s : string) : bool := bool_decide (py_len s = 64%nat).
Definition any_row {K R} `{Countable K} (f : R → bool) (t : gmap K R) : bool := existsb f (map_to_list t).*2.

(** *** [workspace_leases] *)

Definition source_shape (c : lease_columns) : bool :=
  match wl_source_kind c, wl_apply_mode c with
  | K_GIT, GOVERNED => forallb is_some (source_fields c)
  | K_SCRATCH, NO_APPLY => forallb is_none (source_fields c)
  | _, _ => false
  end.
Definition lease_check (d : workspace_db) (c : lease_columns) : bool :=
  sized 256 (wl_run_id c) && sized 256 (wl_lineage_root_run_id c) && (0 <=? wl_attempt c) &&
  optional_ok length64 (wl_source_git_dir_identity c) &&
  (((wl_attempt c =? 0) && is_none (wl_parent_run_id c) && bool_decide (wl_lineage_root_run_id c = wl_run_id c)) ||
   ((0 <? wl_attempt c) && is_some (wl_parent_run_id c))) &&
  source_shape c &&
  (* validate_workspace_lease_lineage *)
  ((wl_attempt c <=? 0) ||
   any_row (λ p, bool_decide (wl_parent_run_id c = Some (wl_run_id p)) &&
                 bool_decide (wl_lineage_root_run_id p = wl_lineage_root_run_id c) &&
                 (wl_attempt p =? wl_attempt c - 1)) (workspace_leases d)).
Definition lease_conflict (c c' : lease_columns) : bool :=
  bool_decide (wl_run_id c = wl_run_id c') || bool_decide (wl_staging_root c = wl_staging_root c') ||
  (bool_decide (wl_lineage_root_run_id c = wl_lineage_root_run_id c') && (wl_attempt c =? wl_attempt c')).
Definition set_leases (t : gmap string lease_columns) (d : workspace_db) : workspace_db :=
  mkWorkspaceDb (wd_main d) t (workspace_lease_states d) (workspace_staging_identities d) (restore_points d)
    (canonical_change_sets d) (apply_decisions d) (apply_decision_states d) (apply_receipts d).
#[export] Program Instance leases_table : Table workspace_db string lease_columns := {
  tbl := workspace_leases; set_tbl := set_leases;
  row_check := lease_check; row_conflict := lease_conflict; row_frozen := λ _ _, false;
}.
Next Obligation. done. Qed.

(** *** [workspace_lease_states] *)

(** The transitions of the trigger [validate_workspace_lease_state_insert]. *)
Definition lease_edge (a b : WorkspaceLeaseState) : bool :=
  match a with
  | L_STARTING => bool_decide (b ∈ [L_ACTIVE; L_CLOSING; L_CLEANUP_FAILED; L_CLOSED])
  | L_ACTIVE => bool_decide (b = L_CLOSING)
  | L_CLOSING => bool_decide (b ∈ [L_CLOSED; L_CLEANUP_FAILED])
  | L_CLEANUP_FAILED => bool_decide (b ∈ [L_CLOSING; L_CLOSED])
  | L_CLOSED => false
  end.
Definition is_git (d : workspace_db) (lease : string) : bool :=
  match workspace_leases d !! lease with Some c => bool_decide (wl_source_kind c = K_GIT) | None => false end.
Definition lease_state_check (d : workspace_db) (s : lease_state_row) : bool :=
  let rows := workspace_lease_states d in
  is_some (workspace_leases d !! ls_lease_id s) && (1 <=? ls_version s) &&
  negb ((ls_version s =? 1) && negb (bool_decide (ls_state s = L_STARTING))) &&
  negb ((ls_version s =? 1) && any_row (λ r, bool_decide (ls_lease_id r = ls_lease_id s)) rows) &&
  negb ((1 <? ls_version s) && is_none (rows !! (ls_lease_id s, ls_version s - 1))) &&
  negb (bool_decide (ls_state s ∈ [L_ACTIVE; L_CLOSING]) && is_git d (ls_lease_id s) &&
        is_none (workspace_staging_identities d !! ls_lease_id s)) &&
  negb ((1 <? ls_version s) &&
        negb (match rows !! (ls_lease_id s, ls_version s - 1) with
              | Some p => lease_edge (ls_state p) (ls_state s)
              | None => false
              end)).
Definition set_lease_states (t : gmap (string * Z) lease_state_row) (d : workspace_db) : workspace_db :=
  mkWorkspaceDb (wd_main d) (workspace_leases d) t (workspace_staging_identities d) (restore_points d)
    (canonical_change_sets d) (apply_decisions d) (apply_decision_states d) (apply_receipts d).
#[export] Program Instance lease_states_table : Table workspace_db (string * Z) lease_state_row := {
  tbl := workspace_lease_states; set_tbl := set_lease_states;
  row_check := lease_state_check; row_conflict := λ _ _, false; row_frozen := λ _ _, false;
}.
Next Obligation. done. Qed.

(** *** [workspace_staging_identities] *)

Definition staging_check (d : workspace_db) (g : WorkspaceStagingIdentity) : bool :=
  length64 (sg_git_dir_identity g) &&
  match workspace_leases d !! sg_lease_id g with
  | Some c =>
      bool_decide (wl_source_kind c = K_GIT) && bool_decide (wl_staging_root c = sg_staging_root g) &&
      col_eq (wl_source_repository_id c) (sg_source_repository_id g) && col_eq (wl_base_revision c) (sg_base_revision g)
  | None => false
  end.
Definition staging_conflict (g g' : WorkspaceStagingIdentity) : bool :=
  bool_decide (sg_staging_root g = sg_staging_root g') || bool_decide (sg_git_dir g = sg_git_dir g') ||
  bool_decide (sg_git_dir_identity g = sg_git_dir_identity g').
Definition set_stagings (t : gmap string WorkspaceStagingIdentity) (d : workspace_db) : workspace_db :=
  mkWorkspaceDb (wd_main d) (workspace_leases d) (workspace_lease_states d) t (restore_points d)
    (canonical_change_sets d) (apply_decisions d) (apply_decision_states d) (apply_receipts d).
#[export] Program Instance stagings_table : Table workspace_db string WorkspaceStagingIdentity := {
  tbl := workspace_staging_identities; set_tbl := set_stagings;
  row_check := staging_check; row_conflict := staging_conflict; row_frozen := λ _ _, false;
}.
Next Obligation. done. Qed.

(** *** [restore_points] *)

Definition point_check (d : workspace_db) (p : RestorePoint) : bool :=
  length64 (rp_source_git_dir_identity p) && length64 (rp_source_status_hash p) && length64 (point_hash p) &&
  match workspace_leases d !! rp_lease_id p with
  | Some c =>
      bool_decide (wl_source_kind c = K_GIT) && col_eq (wl_source_repository_id c) (rp_source_repository_id p) &&
      col_eq (wl_source_root c) (rp_source_root p) && col_eq (wl_source_git_dir c) (rp_source_git_dir p) &&
      col_eq (wl_source_git_dir_identity c) (rp_source_git_dir_identity p) &&
      col_eq (wl_base_revision c) (rp_base_revision p)
  | None => false
  end.
Definition set_points (t : gmap string RestorePoint) (d : workspace_db) : workspace_db :=
  mkWorkspaceDb (wd_main d) (workspace_leases d) (workspace_lease_states d) (workspace_staging_identities d) t
    (canonical_change_sets d) (apply_decisions d) (apply_decision_states d) (apply_receipts d).
#[export] Program Instance points_table : Table workspace_db string RestorePoint := {
  tbl := restore_points; set_tbl := set_points;
  row_check := point_check; row_conflict := λ p p', bool_decide (rp_lease_id p = rp_lease_id p');
  row_frozen := λ _ _, false;
}.
Next Obligation. done. Qed.

(** *** [canonical_change_sets] *)

Definition change_set_check (d : workspace_db) (c : CanonicalChangeSet) : bool :=
  (1 <=? cs_sequence c) && length64 (change_set_hash c) &&
  match workspace_leases d !! cs_lease_id c, restore_points d !! cs_restore_point_id c with
  | Some l, Some p =>
      bool_decide (rp_lease_id p = cs_lease_id c) &&
      col_eq (wl_source_repository_id l) (cs_source_repository_id c) &&
      bool_decide (rp_source_repository_id p = cs_source_repository_id c) &&
      col_eq (wl_base_revision l) (cs_base_revision c) && bool_decide (rp_base_revision p = cs_base_revision c)
  | _, _ => false
  end.
Definition change_set_conflict (c c' : CanonicalChangeSet) : bool :=
  bool_decide (cs_lease_id c = cs_lease_id c') && (cs_sequence c =? cs_sequence c').
Definition set_change_sets (t : gmap string CanonicalChangeSet) (d : workspace_db) : workspace_db :=
  mkWorkspaceDb (wd_main d) (workspace_leases d) (workspace_lease_states d) (workspace_staging_identities d)
    (restore_points d) t (apply_decisions d) (apply_decision_states d) (apply_receipts d).
#[export] Program Instance change_sets_table : Table workspace_db string CanonicalChangeSet := {
  tbl := canonical_change_sets; set_tbl := set_change_sets;
  row_check := change_set_check; row_conflict := change_set_conflict; row_frozen := λ _ _, false;
}.
Next Obligation. done. Qed.

(** *** [apply_decisions] *)

Definition authority_issued (d : workspace_db) (lease : string) : bool :=
  any_row (λ c, bool_decide (ad_lease_id c = lease)) (apply_decisions d).
(** The second [SELECT] of [validate_apply_decision_binding] *)
Definition decision_bound (d : workspace_db) (a : decision_columns) : bool :=
  match canonical_change_sets d !! ad_change_set_id a, restore_points d !! ad_restore_point_id a,
        workspace_leases d !! ad_lease_id a, workspace_staging_identities d !! ad_lease_id a with
  | Some c, Some r, Some l, Some g =>
      bool_decide (cs_restore_point_id c = rp_id r) && bool_decide (rp_lease_id r = cs_lease_id c) &&
      bool_decide (cs_lease_id c = ad_lease_id a) && bool_decide (change_set_hash c = ad_change_set_hash a) &&
      bool_decide (wl_run_id l = ad_run_id a) && bool_decide (point_hash r = ad_restore_point_hash a) &&
      bool_decide (rp_source_repository_id r = ad_source_repository_id a) &&
      bool_decide (rp_source_root r = ad_source_root a) &&
      bool_decide (rp_source_git_dir_identity r = ad_source_git_dir_identity a) &&
      bool_decide (rp_base_revision r = ad_base_revision a) &&
      bool_decide (rp_source_head_revision r = ad_source_head_revision a) &&
      bool_decide (rp_source_head_ref r = ad_source_head_ref a) &&
      bool_decide (rp_source_index_tree r = ad_source_index_tree a) &&
      bool_decide (rp_source_status_hash r = ad_source_status_hash a) &&
      col_eq (wl_source_repository_id l) (ad_source_repository_id a) && col_eq (wl_source_root l) (ad_source_root a) &&
      col_eq (wl_source_git_dir_identity l) (ad_source_git_dir_identity a) &&
      col_eq (wl_base_revision l) (ad_base_revision a) && bool_decide (wl_staging_root l = ad_staging_root a) &&
      bool_decide (sg_staging_root g = ad_staging_root a) &&
      bool_decide (sg_git_dir_identity g = ad_staging_git_dir_identity a) &&
      bool_decide (sg_source_repository_id g = ad_source_repository_id a) &&
      bool_decide (sg_base_revision g = ad_base_revision a) &&
      bool_decide (cs_source_repository_id c = ad_source_repository_id a) &&
      bool_decide (cs_base_revision c = ad_base_revision a)
  | _, _, _, _ => false
  end.
(** The trigger [validate_governed_apply_decision_projection] *)
Definition approved (m : db) (request : string) : bool :=
  match decision_requests m !! request, decision_resolutions m !! request with
  | Some q, Some r =>
      bool_decide (d_kind (dc_request q) = K_GOVERNED_APPLY) && bool_decide (d_status (dc_request q) = RESOLVED) &&
      bool_decide (r_action r = "approve")
  | _, _ => false
  end.
Definition projection_ok (d : workspace_db) (a : decision_columns) : bool :=
  match ad_decision_request_id a with
  | Some i => bool_decide (ad_id a = i) && approved (wd_main d) i
  | None => true
  end.
Definition decision_check (d : workspace_db) (a : decision_columns) : bool :=
  forallb length64 [ad_change_set_hash a; ad_principal_digest a; ad_decision_hash a; ad_token_hash a;
                    ad_restore_point_hash a; ad_source_git_dir_identity a; ad_source_status_hash a;
                    ad_staging_git_dir_identity a] &&
  given (ad_reason a) && negb (authority_issued d (ad_lease_id a)) && decision_bound d a && projection_ok d a.
Definition decision_conflict (a a' : decision_columns) : bool :=
  bool_decide (ad_decision_hash a = ad_decision_hash a') || bool_decide (ad_token_hash a = ad_token_hash a') ||
  (is_some (ad_decision_request_id a) && bool_decide (ad_decision_request_id a = ad_decision_request_id a')).
Definition set_decisions (t : gmap string decision_columns) (d : workspace_db) : workspace_db :=
  mkWorkspaceDb (wd_main d) (workspace_leases d) (workspace_lease_states d) (workspace_staging_identities d)
    (restore_points d) (canonical_change_sets d) t (apply_decision_states d) (apply_receipts d).
#[export] Program Instance decisions_table : Table workspace_db string decision_columns := {
  tbl := apply_decisions; set_tbl := set_decisions;
  row_check := decision_check; row_conflict := decision_conflict; row_frozen := λ _ _, false;
}.
Next Obligation. done. Qed.

(** *** The latest state

    [ORDER BY version DESC LIMIT 1]; with the primary key it is also the row
    whose version is [MAX(version)]. *)

Definition latest {K R} `{Countable K} (mine : R → bool) (version : R → Z) (t : gmap K R) : option R :=
  head (order_by (λ a b, version b <=? version a) (where_rows mine t)).
Definition lease_now (d : workspace_db) (lease : string) : option lease_state_row :=
  latest (λ r, bool_decide (ls_lease_id r = lease)) ls_version (workspace_lease_states d).
Definition decision_now (d : workspace_db) (decision : string) : option decision_state_row :=
  latest (λ r, bool_decide (ds_decision_id r = decision)) ds_version (apply_decision_states d).

(** *** [apply_decision_states] *)

Definition claim_authority (d : workspace_db) (s : decision_state_row) : bool :=
  match apply_decisions d !! ds_decision_id s with
  | Some a =>
      (ds_created_at s <? ad_expires_at a) &&
      match lease_now d (ad_lease_id a) with Some l => bool_decide (ls_state l = L_ACTIVE) | None => false end
  | None => false
  end.
Definition decision_state_check (d : workspace_db) (s : decision_state_row) : bool :=
  let rows := apply_decision_states d in
  let later := 1 <? ds_version s in
  is_some (apply_decisions d !! ds_decision_id s) && (1 <=? ds_version s) &&
  negb ((ds_version s =? 1) && negb (bool_decide (ds_state s = A_PENDING))) &&
  negb ((ds_version s =? 1) && any_row (λ r, bool_decide (ds_decision_id r = ds_decision_id s)) rows) &&
  negb (later && negb (match rows !! (ds_decision_id s, ds_version s - 1) with
                       | Some p => bool_decide (ds_state p = A_PENDING)
                       | None => false
                       end)) &&
  negb (later && bool_decide (ds_state s = A_PENDING)) &&
  negb (later && bool_decide (ds_state s = A_CONSUMED) && is_none (ds_receipt_id s)) &&
  negb (later && bool_decide (ds_state s ∈ [A_EXPIRED; A_REVOKED]) && is_some (ds_receipt_id s)) &&
  negb (later && bool_decide (ds_state s = A_CONSUMED) && negb (claim_authority d s)).
Definition set_decision_states (t : gmap (string * Z) decision_state_row) (d : workspace_db) : workspace_db :=
  mkWorkspaceDb (wd_main d) (workspace_leases d) (workspace_lease_states d) (workspace_staging_identities d)
    (restore_points d) (canonical_change_sets d) (apply_decisions d) t (apply_receipts d).
#[export] Program Instance decision_states_table : Table workspace_db (string * Z) decision_state_row := {
  tbl := apply_decision_states; set_tbl := set_decision_states;
  row_check := decision_state_check; row_conflict := λ _ _, false; row_frozen := λ _ _, false;
}.
Next Obligation. done. Qed.

(** *** [apply_receipts] *)

Definition receipt_check (d : workspace_db) (r : ApplyReceipt) : bool :=
  forallb length64 [ar_decision_hash r; ar_change_set_hash r; ar_pre_source_status_hash r; ar_post_source_status_hash r] &&
  match apply_decisions d !! ar_decision_id r with
  | Some a =>
      match canonical_change_sets d !! ad_change_set_id a with
      | Some c =>
          bool_decide (cs_lease_id c = ad_lease_id a) && bool_decide (ad_lease_id a = ar_lease_id r) &&
          bool_decide (ad_decision_hash a = ar_decision_hash r) && bool_decide (cs_id c = ar_change_set_id r) &&
          bool_decide (change_set_hash c = ar_change_set_hash r) &&
          match decision_now d (ad_id a) with
          | Some s => bool_decide (ds_receipt_id s = Some (ar_id r)) && bool_decide (ds_state s = A_CONSUMED)
          | None => false
          end
      | None => false
      end
  | None => false
  end.
Definition set_receipts (t : gmap string ApplyReceipt) (d : workspace_db) : workspace_db :=
  mkWorkspaceDb (wd_main d) (workspace_leases d) (workspace_lease_states d) (workspace_staging_identities d)
    (restore_points d) (canonical_change_sets d) (apply_decisions d) (apply_decision_states d) t.
#[export] Program Instance receipts_table : Table workspace_db string ApplyReceipt := {
  tbl := apply_receipts; set_tbl := set_receipts;
  row_check := receipt_check; row_conflict := λ r r', bool_decide (ar_decision_id r = ar_decision_id r');
  row_frozen := λ _ _, false;
}.
Next Obligation. done. Qed.

(** ** Operations *)

(** [model_validate] of a row *)
Definition validated {A} (valid : A → bool) (a : A) : M workspace_db A :=
  guard (valid a) ValueError "validation error" ;;; ret a.
Definition validated_row {A} (valid : A → bool) (o : option A) : M workspace_db (option A) :=
  match o with Some a => let! x := validated valid a in ret (Some x) | None => ret None end.

(** *** Leases *)

Definition restore_binding (p : RestorePoint) : list (option string) :=
  [Some (rp_lease_id p); Some (rp_source_repository_id p); Some (rp_source_root p); Some (rp_source_git_dir p);
   Some (rp_source_git_dir_identity p); Some (rp_base_revision p)].
Definition lease_binding (c : lease_columns) : list (option string) :=
  [Some (wl_id c); wl_source_repository_id c; wl_source_root c; wl_source_git_dir c; wl_source_git_dir_identity c;
   wl_base_revision c].
Definition insert_restore_point (p : RestorePoint) : M workspace_db unit := sql_insert (rp_id p) p.
Definition check_foundation (l : WorkspaceLease) (point : option RestorePoint) : M workspace_db unit :=
  guard (bool_decide (lease_state l = L_STARTING) && (lease_version l =? 1)) ValueError
    "new workspace leases must start at version 1" ;;;
  match wl_source_kind (lease_row l), point with
  | K_GIT, None => raise ValueError "Git workspace leases require a restore point"
  | K_GIT, Some p =>
      guard (bool_decide (restore_binding p = lease_binding (lease_row l))) ValueError
        "restore point must exactly bind the new Git lease"
  | K_SCRATCH, Some _ => raise ValueError "scratch workspace leases must not have a restore point"
  | K_SCRATCH, None => ret tt
  end.
Definition create_workspace_foundation (l : WorkspaceLease) (point : option RestorePoint) : M workspace_db unit :=
  let c := lease_row l in
  check_foundation l point ;;;
  atomically (
    sql_insert (wl_id c) c ;;;
    sql_insert (wl_id c, 1) (mkLeaseState (wl_id c) 1 (lease_state l) None (wl_created_at c)) ;;;
    match point with Some p => insert_restore_point p | None => ret tt end).

Definition save_workspace_staging_identity (g : WorkspaceStagingIdentity) : M workspace_db WorkspaceStagingIdentity :=
  atomically (sql_insert (sg_lease_id g) g ;;; ret g).

(** A row of [_LEASE_SELECT] *)
Definition joined_lease (d : workspace_db) (c : lease_columns) : option WorkspaceLease :=
  (λ s, let g := workspace_staging_identities d !! wl_id c in
        mkLease c (sg_git_dir <$> g) (sg_git_dir_identity <$> g) (ls_state s) (ls_version s)) <$> lease_now d (wl_id c).
Definition get_workspace_lease (lease_id : string) : M workspace_db (option WorkspaceLease) :=
  let! d := get_state in
  validated_row lease_valid (workspace_leases d !! lease_id ≫= joined_lease d).
Definition get_workspace_lease_by_run (run_id : string) : M workspace_db (option WorkspaceLease) :=
  let! d := get_state in
  validated_row lease_valid
    (head (omap (joined_lease d) (where_rows (λ c, bool_decide (wl_run_id c = run_id)) (workspace_leases d)))).
Definition lease_before (l l' : WorkspaceLease) : bool :=
  le_of (lex (wl_created_at (lease_row l) ?= wl_created_at (lease_row l'))
             (text_compare (wl_id (lease_row l)) (wl_id (lease_row l')))).
Fixpoint validate_all (l : list WorkspaceLease) : M workspace_db (list WorkspaceLease) :=
  match l with
  | [] => ret []
  | x :: r => let! y := validated lease_valid x in let! ys := validate_all r in ret (y :: ys)
  end.
Definition is_open (l : WorkspaceLease) : bool := negb (bool_decide (lease_state l = L_CLOSED)).
Definition list_open_workspace_leases : M workspace_db (list WorkspaceLease) :=
  let! d := get_state in
  validate_all (order_by lease_before
    (filter (λ l, is_open l = true) (omap (joined_lease d) (where_rows (λ _, true) (workspace_leases d))))).

Definition transition_workspace_lease (lease_id : string) (expected_version : Z)
    (expected_state new_state : WorkspaceLeaseState) (created_at : Z) (detail : option string) :
    M workspace_db WorkspaceLease :=
  atomically (
    let! d := get_state in
    guard (match lease_now d lease_id with
           | Some s => (ls_version s =? expected_version) && bool_decide (ls_state s = expected_state)
           | None => false
           end) WorkspaceStateConflict "workspace lease state changed" ;;;
    try_except
      (sql_insert (lease_id, expected_version + 1)
         (mkLeaseState lease_id (expected_version + 1) new_state detail created_at))
      IntegrityError (λ _, raise WorkspaceStateConflict "invalid workspace lease transition") ;;;
    let! d := get_state in
    match workspace_leases d !! lease_id ≫= joined_lease d with
    | Some l =>
        if lease_version l =? expected_version + 1 then validated lease_valid l
        else raise WorkspaceStateConflict "workspace lease disappeared"
    | None => raise WorkspaceStateConflict "workspace lease disappeared"
    end).

(** *** Restore points and change sets *)

Definition get_restore_point (point_id : string) : M workspace_db (option RestorePoint) :=
  let! row := sql_get point_id in validated_row point_valid row.
Definition get_restore_point_for_lease (lease_id : string) : M workspace_db (option RestorePoint) :=
  let! rows := sql_select (λ p, bool_decide (rp_lease_id p = lease_id)) in validated_row point_valid (head rows).

Definition change_sets_of (d : workspace_db) (lease : string) : list CanonicalChangeSet :=
  where_rows (λ c, bool_decide (cs_lease_id c = lease)) (canonical_change_sets d).
Definition latest_change_set (d : workspace_db) (lease : string) : option CanonicalChangeSet :=
  latest (λ c, bool_decide (cs_lease_id c = lease)) cs_sequence (canonical_change_sets d).
(** [COALESCE(MAX(sequence), 0) + 1] *)
Definition next_change_set_sequence (lease_id : string) : M workspace_db Z :=
  let! d := get_state in
  ret (match cs_sequence <$> change_sets_of d lease_id with
       | [] => 0
       | s :: l => foldr Z.max s l
       end + 1).
Definition save_canonical_change_set (c : CanonicalChangeSet) : M workspace_db CanonicalChangeSet :=
  atomically (
    let! d := get_state in
    let last := latest_change_set d (cs_lease_id c) in
    match last with
    | Some x =>
        if bool_decide (change_set_hash x = change_set_hash c) then validated change_set_valid x
        else
          guard (cs_sequence c =? cs_sequence x + 1) WorkspaceStateConflict "canonical change set sequence changed" ;;;
          sql_insert (cs_id c) c ;;;
          ret c
    | None =>
        guard (cs_sequence c =? 1) WorkspaceStateConflict "canonical change set sequence changed" ;;;
        sql_insert (cs_id c) c ;;;
        ret c
    end).
Definition get_canonical_change_set (change_set_id : string) : M workspace_db (option CanonicalChangeSet) :=
  let! row := sql_get change_set_id in validated_row change_set_valid row.
Definition get_latest_canonical_change_set_for_lease (lease_id : string) : M workspace_db (option CanonicalChangeSet) :=
  let! d := get_state in validated_row change_set_valid (latest_change_set d lease_id).

(** *** Apply decisions and receipts *)

(** A row of [_DECISION_SELECT] *)
Definition joined_decision (d : workspace_db) (a : decision_columns) : option ApplyDecision :=
  (λ s, mkApplyDecision a (ds_state s) (ds_version s)) <$> decision_now d (ad_id a).
Definition select_decision (d : workspace_db) (decision_id : string) : option ApplyDecision :=
  apply_decisions d !! decision_id ≫= joined_decision d.
Definition ALREADY_ISSUED : string := "apply authority already issued for workspace lease".
(** The [INSERT] with the message of the first [SELECT] of its trigger. *)
Definition insert_apply_decision (a : decision_columns) : M workspace_db unit :=
  let! d := get_state in
  guard (negb (authority_issued d (ad_lease_id a))) IntegrityError ALREADY_ISSUED ;;;
  sql_insert (ad_id a) a.
Definition already_issued : M workspace_db unit :=
  raise WorkspaceStateConflict "apply authority was already issued for this lease".
Definition save_apply_decision (a : ApplyDecision) : M workspace_db unit :=
  let c := ad_row a in
  atomically (
    let! d := get_state in
    let new :=
      guard (bool_decide (ad_state a = A_PENDING) && (ad_version a =? 1)) ValueError
        "new apply decisions must be pending at version 1" ;;;
      (if authority_issued d (ad_lease_id c) then already_issued else ret tt) ;;;
      try_except (insert_apply_decision c) IntegrityError
        (λ e, if contains (u "apply authority already issued") (u (exn_message e)) then already_issued
              else raise_with (exn_kind e) (exn_message e) (exn_detail e)) ;;;
      sql_insert (ad_id c, 1) (mkDecisionState (ad_id c) 1 A_PENDING None (ad_created_at c)) in
    match select_decision d (ad_id c), ad_decision_request_id c with
    | Some x, Some _ =>
        let! existing := validated apply_decision_valid x in
        guard (bool_decide (ad_row existing = c)) WorkspaceStateConflict "governed apply projection envelope conflict"
    | _, _ => new
    end).
Definition get_apply_decision (decision_id : string) : M workspace_db (option ApplyDecision) :=
  let! d := get_state in validated_row apply_decision_valid (select_decision d decision_id).

(** The keys of the [ORDER BY] clause, the last two descending. *)
Definition apply_rank (d : workspace_db) (a : ApplyDecision) : Z :=
  if any_row (λ r, bool_decide (ar_decision_id r = ad_id (ad_row a))) (apply_receipts d) then 0
  else if bool_decide (ad_state a = A_PENDING) then 2 else 1.
Definition decision_before (d : workspace_db) (a b : ApplyDecision) : bool :=
  le_of (lex (apply_rank d a ?= apply_rank d b)
        (lex (ad_created_at (ad_row b) ?= ad_created_at (ad_row a)) (text_compare (ad_id (ad_row b)) (ad_id (ad_row a))))).
Definition decisions_of (d : workspace_db) (lease : string) : list decision_columns :=
  where_rows (λ a, bool_decide (ad_lease_id a = lease)) (apply_decisions d).
Definition get_latest_apply_decision_for_lease (lease_id : string) : M workspace_db (option ApplyDecision) :=
  let! d := get_state in
  validated_row apply_decision_valid
    (head (order_by (decision_before d) (omap (joined_decision d) (decisions_of d lease_id)))).
Definition unreceipted (d : workspace_db) (a : decision_columns) : bool :=
  match decision_now d (ad_id a) with
  | Some s =>
      bool_decide (ds_state s = A_CONSUMED) &&
      match ds_receipt_id s with
      | None => true
      | Some i => match apply_receipts d !! i with
                  | Some r => negb (bool_decide (ar_decision_id r = ad_id a))
                  | None => true
                  end
      end
  | None => false
  end.
Definition has_unreceipted_apply_claim_for_lease (lease_id : string) : M workspace_db bool :=
  let! d := get_state in ret (existsb (unreceipted d) (decisions_of d lease_id)).

Definition transition_apply_decision (decision_id : string) (expected_version : Z) (new_state : apply_state)
    (created_at : Z) (receipt_id : option string) : M workspace_db ApplyDecision :=
  guard (negb (bool_decide (new_state = A_PENDING))) ValueError "apply decision terminal state is invalid" ;;;
  atomically (
    let! d := get_state in
    guard (match decision_now d decision_id with
           | Some s => (ds_version s =? expected_version) && bool_decide (ds_state s = A_PENDING)
           | None => false
           end) WorkspaceStateConflict "apply decision state changed" ;;;
    try_except
      (sql_insert (decision_id, expected_version + 1)
         (mkDecisionState decision_id (expected_version + 1) new_state receipt_id created_at))
      IntegrityError (λ _, raise WorkspaceStateConflict "invalid apply decision transition") ;;;
    let! d := get_state in
    match select_decision d decision_id with
    | Some a =>
        if ad_version a =? expected_version + 1 then validated apply_decision_valid a
        else raise WorkspaceStateConflict "apply decision disappeared"
    | None => raise WorkspaceStateConflict "apply decision disappeared"
    end).
Definition claim_apply_decision (decision_id : string) (expected_version : Z) (receipt_id : string) (created_at : Z) :
    M workspace_db ApplyDecision :=
  transition_apply_decision decision_id expected_version A_CONSUMED created_at (Some receipt_id).

Definition save_apply_receipt (r : ApplyReceipt) : M workspace_db unit := atomically (sql_insert (ar_id r) r).
Definition get_apply_receipt (receipt_id : string) : M workspace_db (option ApplyReceipt) :=
  let! row := sql_get receipt_id in validated_row receipt_valid row.
Definition get_apply_receipt_for_decision (decision_id : string) : M workspace_db (option ApplyReceipt) :=
  let! rows := sql_select (λ r, bool_decide (ar_decision_id r = decision_id)) in validated_row receipt_valid (head rows).

(** ** Rows that are there stay *)

(** The records every table has. *)
Record grows (d d' : workspace_db) : Prop := {
  grows_leases : workspace_leases d ⊆ workspace_leases d';
  grows_lease_states : workspace_lease_states d ⊆ workspace_lease_states d';
  grows_stagings : workspace_staging_identities d ⊆ workspace_staging_identities d';
  grows_points : restore_points d ⊆ restore_points d';
  grows_change_sets : canonical_change_sets d ⊆ canonical_change_sets d';
  grows_decisions : apply_decisions d ⊆ apply_decisions d';
  grows_decision_states : apply_decision_states d ⊆ apply_decision_states d';
  grows_receipts : apply_receipts d ⊆ apply_receipts d';
}.
#[export] Instance grows_preorder : PreOrder grows.
Proof.
  split; [by split|]. intros d1 d2 d3 H12 H23. split; (etransitivity; [apply H12|apply H23]).
Qed.
Definition set_main (m : db) (d : workspace_db) : workspace_db :=
  mkWorkspaceDb m (workspace_leases d) (workspace_lease_states d) (workspace_staging_identities d) (restore_points d)
    (canonical_change_sets d) (apply_decisions d) (apply_decision_states d) (apply_receipts d).

(** One inserted row, of a validated record; a statement of another repository. *)
Inductive wrote : relation workspace_db :=
  | wrote_lease c d d' : columns_valid c = true → sql_insert (wl_id c) c d = (Ok tt, d') → wrote d d'
  | wrote_lease_state s d d' : sql_insert (ls_lease_id s, ls_version s) s d = (Ok tt, d') → wrote d d'
  | wrote_staging g d d' : staging_valid g = true → sql_insert (sg_lease_id g) g d = (Ok tt, d') → wrote d d'
  | wrote_point p d d' : point_valid p = true → sql_insert (rp_id p) p d = (Ok tt, d') → wrote d d'
  | wrote_change_set c d d' :
      change_set_valid c = true →
      match latest_change_set d (cs_lease_id c) with
      | Some x => cs_sequence c = cs_sequence x + 1 ∧ change_set_hash x ≠ change_set_hash c
      | None => cs_sequence c = 1
      end →
      sql_insert (cs_id c) c d = (Ok tt, d') → wrote d d'
  | wrote_decision a d d' : decision_columns_valid a = true → sql_insert (ad_id a) a d = (Ok tt, d') → wrote d d'
  | wrote_decision_state s d d' : sql_insert (ds_decision_id s, ds_version s) s d = (Ok tt, d') → wrote d d'
  | wrote_receipt r d d' : receipt_valid r = true → sql_insert (ar_id r) r d = (Ok tt, d') → wrote d d'
  | wrote_main m d : wrote d (set_main m d).

Lemma wrote_grows d d' : wrote d d' → grows d d'.
Proof.
  destruct 1 as [c d d' _ H|s d d' H|g d d' _ H|p d d' _ H|c d d' _ _ H|a d d' _ H|s d d' H|r d d' _ H|];
    [apply sql_insert_Ok_inv in H as (Hn & _ & _ & ->)..|]; split; cbn in *; first [done | by apply insert_subseteq].
Qed.

(** ** The latest row *)

Section latest.
Context {K R : Type} `{Countable K} (mine : R → bool) (version : R → Z).
Implicit Types t : gmap K R.

Lemma latest_Some t r :
  latest mine version t = Some r →
  mine r = true ∧ (∃ k, t !! k = Some r) ∧ ∀ k' r', t !! k' = Some r' → mine r' = true → version r' ≤ version r.
Proof.
  unfold latest. intros Hh.
  pose proof (order_by_sorted (λ a b, version b <=? version a)) as Hs.
  pose proof (λ x, elem_of_order_by (λ a b, version b <=? version a) x (where_rows mine t)) as He.
  specialize (Hs ltac:(intros x y; cbn; rewrite !Z.leb_le; lia)
                 ltac:(intros x y z; cbn; rewrite !Z.leb_le; lia) (where_rows mine t)).
  destruct (order_by _ (where_rows mine t)) as [|x l] eqn:E; [done|]. cbn in Hh. injection Hh as ->.
  assert (Hr : r ∈ where_rows mine t) by (apply He; left). apply elem_of_where_rows in Hr as [Hm Hk].
  split; [done|]. split; [done|]. intros k' r' Hk' Hm'.
  assert (Hin : r' ∈ r :: l) by (apply He, elem_of_where_rows; eauto).
  apply elem_of_cons in Hin as [->|Hin]; [lia|]. inversion Hs as [|? ? _ Hall]; subst.
  rewrite Forall_forall in Hall. specialize (Hall _ Hin). cbn in Hall. bools. lia.
Qed.
Lemma latest_None t : latest mine version t = None ↔ ∀ k r, t !! k = Some r → mine r = false.
Proof.
  unfold latest. split.
  - intros Hh k r Hk. destruct (mine r) eqn:Em; [|done]. exfalso.
    assert (Hin : r ∈ order_by (λ a b, version b <=? version a) (where_rows mine t))
      by (apply elem_of_order_by, elem_of_where_rows; eauto).
    destruct (order_by _ _); [set_solver|done].
  - intros Hall. destruct (order_by _ _) as [|r l] eqn:E; [done|]. exfalso.
    assert (Hin : r ∈ where_rows mine t) by (eapply elem_of_order_by; rewrite E; left).
    apply elem_of_where_rows in Hin as [Hm [k Hk]]. rewrite (Hall _ _ Hk) in Hm. done.
Qed.
(** The row with the greatest version, when versions differ. *)
Lemma latest_is t k r :
  t !! k = Some r → mine r = true →
  (∀ k' r', t !! k' = Some r' → mine r' = true → version r' < version r ∨ r' = r) →
  latest mine version t = Some r.
Proof.
  intros Hk Hm Hmax. destruct (latest mine version t) as [x|] eqn:E.
  - apply latest_Some in E as (Hmx & [kx Hkx] & Hx). specialize (Hx _ _ Hk Hm).
    destruct (Hmax _ _ Hkx Hmx) as [Hlt | ->]; [lia|done].
  - rewrite latest_None in E. rewrite (E _ _ Hk) in Hm. done.
Qed.
End latest.

Lemma any_row_true {K R} `{Countable K} (f : R → bool) (t : gmap K R) :
  any_row f t = true ↔ ∃ k r, t !! k = Some r ∧ f r = true.
Proof.
  unfold any_row. rewrite existsb_exists. setoid_rewrite <-list_elem_of_In. setoid_rewrite list_elem_of_fmap. split.
  - intros (r & ([k r'] & -> & Hin%elem_of_map_to_list) & Hf). eauto.
  - intros (k & r & Hk & Hf). exists r. split; [|done]. exists (k, r). by rewrite elem_of_map_to_list.
Qed.
Lemma any_row_false {K R} `{Countable K} (f : R → bool) (t : gmap K R) :
  any_row f t = false ↔ ∀ k r, t !! k = Some r → f r = false.
Proof.
  rewrite <-not_true_iff_false, any_row_true. split.
  - intros Hn k r Hk. destruct (f r) eqn:E; [|done]. exfalso. eauto 10.
  - intros Hall (k & r & Hk & Hf). rewrite (Hall _ _ Hk) in Hf. done.
Qed.

(** ** The invariant *)

(** Every row is under its key and is good; two rows that clash are one. *)
Definition rows_ok {K R} `{Table workspace_db K R} (key : R → K) (good : workspace_db → R → Prop) (d : workspace_db) : Prop :=
  ∀ k r, tbl d !! k = Some r → key r = k ∧ good d r.
Definition one_row {K R} `{Table workspace_db K R} (clash : R → R → Prop) (d : workspace_db) : Prop :=
  ∀ k k' r r', tbl d !! k = Some r → tbl d !! k' = Some r' → clash r r' → k = k'.

Definition good_lease (_ : workspace_db) (c : lease_columns) : Prop := columns_valid c = true ∧ source_shape c = true.
Definition good_lease_state (d : workspace_db) (s : lease_state_row) : Prop :=
  1 ≤ ls_version s ∧
  (∃ c, workspace_leases d !! ls_lease_id s = Some c ∧
     (ls_state s ∈ [L_ACTIVE; L_CLOSING] → wl_source_kind c = K_GIT →
      is_Some (workspace_staging_identities d !! ls_lease_id s))) ∧
  (ls_version s = 1 ∧ ls_state s = L_STARTING ∨
   ∃ p, workspace_lease_states d !! (ls_lease_id s, ls_version s - 1) = Some p ∧
     lease_edge (ls_state p) (ls_state s) = true).
Definition good_staging (d : workspace_db) (g : WorkspaceStagingIdentity) : Prop :=
  staging_valid g = true ∧ ∃ c, workspace_leases d !! sg_lease_id g = Some c ∧ wl_source_kind c = K_GIT.
Definition good_point (d : workspace_db) (p : RestorePoint) : Prop :=
  point_valid p = true ∧ is_Some (workspace_leases d !! rp_lease_id p).
Definition good_change_set (d : workspace_db) (c : CanonicalChangeSet) : Prop :=
  change_set_valid c = true ∧
  (∃ p, restore_points d !! cs_restore_point_id c = Some p ∧ rp_lease_id p = cs_lease_id c) ∧
  (cs_sequence c = 1 ∨
   ∃ x, canonical_change_sets d !! cs_id x = Some x ∧ cs_lease_id x = cs_lease_id c ∧
     cs_sequence c = cs_sequence x + 1 ∧ change_set_hash x ≠ change_set_hash c).
Definition good_decision (d : workspace_db) (a : decision_columns) : Prop :=
  decision_columns_valid a = true ∧ decision_bound d a = true.
Definition good_decision_state (d : workspace_db) (s : decision_state_row) : Prop :=
  is_Some (apply_decisions d !! ds_decision_id s) ∧
  (ds_version s = 1 ∧ ds_state s = A_PENDING ∨
   ds_version s = 2 ∧ ds_state s ≠ A_PENDING ∧ (ds_state s = A_CONSUMED ↔ is_Some (ds_receipt_id s)) ∧
   ∃ p, apply_decision_states d !! (ds_decision_id s, 1) = Some p).
Definition good_receipt (d : workspace_db) (r : ApplyReceipt) : Prop :=
  receipt_valid r = true ∧
  ∃ a s, apply_decisions d !! ar_decision_id r = Some a ∧ ad_lease_id a = ar_lease_id r ∧
    ad_decision_hash a = ar_decision_hash r ∧ ad_change_set_id a = ar_change_set_id r ∧
    ad_change_set_hash a = ar_change_set_hash r ∧
    apply_decision_states d !! (ar_decision_id r, 2) = Some s ∧ ds_state s = A_CONSUMED ∧
    ds_receipt_id s = Some (ar_id r).

Record workspace_inv (d : workspace_db) : Prop := {
  leases_ok : rows_ok wl_id good_lease d;
  lease_states_ok : rows_ok (λ s, (ls_lease_id s, ls_version s)) good_lease_state d;
  stagings_ok : rows_ok sg_lease_id good_staging d;
  points_ok : rows_ok rp_id good_point d;
  change_sets_ok : rows_ok cs_id good_change_set d;
  decisions_ok : rows_ok ad_id good_decision d;
  decision_states_ok : rows_ok (λ s, (ds_decision_id s, ds_version s)) good_decision_state d;
  receipts_ok : rows_ok ar_id good_receipt d;
  one_lease : one_row (λ c c', wl_run_id c = wl_run_id c') d;
  one_point : one_row (λ p p', rp_lease_id p = rp_lease_id p') d;
  one_change_set : one_row (λ c c', cs_lease_id c = cs_lease_id c' ∧ cs_sequence c = cs_sequence c') d;
  one_decision : one_row (λ a a', ad_lease_id a = ad_lease_id a') d;
  one_receipt : one_row (λ r r', ar_decision_id r = ar_decision_id r') d;
}.

Section growing.
Context (d d' : workspace_db) (Hg : grows d d').
Lemma in_leases k c : workspace_leases d !! k = Some c → workspace_leases d' !! k = Some c.
Proof using Hg. intros Hk. eapply lookup_weaken; [exact Hk|apply Hg]. Qed.
Lemma in_lease_states k s : workspace_lease_states d !! k = Some s → workspace_lease_states d' !! k = Some s.
Proof using Hg. intros Hk. eapply lookup_weaken; [exact Hk|apply Hg]. Qed.
Lemma in_stagings k g : workspace_staging_identities d !! k = Some g → workspace_staging_identities d' !! k = Some g.
Proof using Hg. intros Hk. eapply lookup_weaken; [exact Hk|apply Hg]. Qed.
Lemma in_points k p : restore_points d !! k = Some p → restore_points d' !! k = Some p.
Proof using Hg. intros Hk. eapply lookup_weaken; [exact Hk|apply Hg]. Qed.
Lemma in_change_sets k c : canonical_change_sets d !! k = Some c → canonical_change_sets d' !! k = Some c.
Proof using Hg. intros Hk. eapply lookup_weaken; [exact Hk|apply Hg]. Qed.
Lemma in_decisions k a : apply_decisions d !! k = Some a → apply_decisions d' !! k = Some a.
Proof using Hg. intros Hk. eapply lookup_weaken; [exact Hk|apply Hg]. Qed.
Lemma in_decision_states k s : apply_decision_states d !! k = Some s → apply_decision_states d' !! k = Some s.
Proof using Hg. intros Hk. eapply lookup_weaken; [exact Hk|apply Hg]. Qed.

Lemma good_lease_state_grows s : good_lease_state d s → good_lease_state d' s.
Proof using Hg.
  intros (Hv & (c & Hc & Hgit) & Hp). split; [done|]. split.
  - exists c. split; [by apply in_leases|]. intros Ha Hk. destruct (Hgit Ha Hk) as [g Hs]. exists g. by apply in_stagings.
  - destruct Hp as [?|(p & Hp & He)]; [by left|right]. exists p. split; [by apply in_lease_states|done].
Qed.
Lemma good_staging_grows g : good_staging d g → good_staging d' g.
Proof using Hg. intros (Hv & c & Hc & Hk). split; [done|]. exists c. split; [by apply in_leases|done]. Qed.
Lemma good_point_grows p : good_point d p → good_point d' p.
Proof using Hg. intros [Hv [c Hc]]. split; [done|]. exists c. by apply in_leases. Qed.
Lemma good_change_set_grows c : good_change_set d c → good_change_set d' c.
Proof using Hg.
  intros (Hv & (p & Hp & Hl) & Hs). split; [done|]. split; [exists p; split; [by apply in_points|done]|].
  destruct Hs as [?|(x & Hx & Hs)]; [by left|right]. exists x. split; [by apply in_change_sets|done].
Qed.
Lemma decision_bound_grows a : decision_bound d a = true → decision_bound d' a = true.
Proof using Hg.
  unfold decision_bound. intros Hb.
  destruct (canonical_change_sets d !! _) as [c|] eqn:Hc; [|done]. rewrite (in_change_sets _ _ Hc).
  destruct (restore_points d !! _) as [p|] eqn:Hp; [|done]. rewrite (in_points _ _ Hp).
  destruct (workspace_leases d !! _) as [l|] eqn:Hl; [|done]. rewrite (in_leases _ _ Hl).
  destruct (workspace_staging_identities d !! _) as [g|] eqn:Hs; [|done]. by rewrite (in_stagings _ _ Hs).
Qed.
Lemma good_decision_state_grows s : good_decision_state d s → good_decision_state d' s.
Proof using Hg.
  intros ([a Ha] & Hs). split; [exists a; by apply in_decisions|]. destruct Hs as [?|(Hv & Hn & Hr & p & Hp)]; [by left|right].
  split_and!; [done..|]. exists p. by apply in_decision_states.
Qed.
Lemma good_receipt_grows r : good_receipt d r → good_receipt d' r.
Proof using Hg.
  intros (Hv & a & s & Ha & H1 & H2 & H3 & H4 & Hs & Hr). split; [done|]. exists a, s.
  split_and!; try done; [by apply in_decisions|by apply in_decision_states|naive_solver..].
Qed.
End growing.

Section rows.
Context {K R : Type} `{HT : Table workspace_db K R}.
Lemma rows_ok_same (key : R → K) good d d' :
  tbl d' = tbl d → (∀ x, good d x → good d' x) → rows_ok key good d → rows_ok key good d'.
Proof. intros E Hm Hr k r. rewrite E. intros Hk. destruct (Hr k r Hk). auto. Qed.
Lemma rows_ok_insert (key : R → K) good d r d' :
  sql_insert (key r) r d = (Ok tt, d') → (∀ x, good d x → good d' x) → good d' r →
  rows_ok key good d → rows_ok key good d'.
Proof.
  intros (_ & _ & _ & ->)%sql_insert_Ok_inv Hm Hr Hok k x. rewrite tbl_set_tbl, lookup_insert_Some.
  intros [[<- <-]|[_ Hk]]; [done|]. destruct (Hok k x Hk). auto.
Qed.
Lemma one_row_same (clash : R → R → Prop) d d' : tbl d' = tbl d → one_row clash d → one_row clash d'.
Proof. intros E Hr k k' r r'. rewrite E. apply Hr. Qed.
Lemma one_row_insert (clash : R → R → Prop) k r d d' :
  sql_insert k r d = (Ok tt, d') → (∀ x y, clash x y → clash y x) →
  (∀ k' x, tbl d !! k' = Some x → k' ≠ k → clash r x → False) →
  one_row clash d → one_row clash d'.
Proof.
  intros (Hn & _ & _ & ->)%sql_insert_Ok_inv Hsym Hnew Hone i j x y. rewrite tbl_set_tbl, !lookup_insert_Some.
  intros [[<- <-]|[Hi Hx]] [[<- <-]|[Hj Hy]] Hc; [done| | |by eapply Hone].
  - exfalso. eapply Hnew; [exact Hy|done..].
  - exfalso. eapply Hnew; [exact Hx|done|auto].
Qed.
Lemma one_row_eq (clash : R → R → Prop) d k k' r r' :
  one_row clash d → tbl d !! k = Some r → tbl d !! k' = Some r' → clash r r' → k' = k ∧ r' = r.
Proof. intros Hone Hr Hr' Hc. assert (k = k') as <- by (by eapply Hone). naive_solver. Qed.
End rows.
Lemma unique_ok_insert {K R} `{Table workspace_db K R} k r d d' k' x :
  sql_insert k r d = (Ok tt, d') → tbl d !! k' = Some x → k' ≠ k → row_conflict r x = false.
Proof. intros (_ & _ & Hu & _)%sql_insert_Ok_inv. rewrite unique_ok_spec in Hu. eauto. Qed.

Create HintDb workspace discriminated.
#[export] Hint Resolve good_lease_state_grows good_staging_grows good_point_grows good_change_set_grows
  good_decision_state_grows
  good_receipt_grows : workspace.
Lemma good_decision_grows d d' a : grows d d' → good_decision d a → good_decision d' a.
Proof. intros Hg [Hv Hb]. split; [done|by eapply decision_bound_grows]. Qed.
#[export] Hint Resolve good_decision_grows : workspace.

(** The tables a statement leaves alone keep their part of the invariant. *)
Ltac keep_rows :=
  solve [ eapply rows_ok_same; [| |eassumption]; [reflexivity|intros ? ?; eauto with workspace]
        | eapply one_row_same; [|eassumption]; reflexivity ].
Ltac insert_rows :=
  eapply rows_ok_insert; [eassumption|intros ? ?; eauto with workspace| |eassumption].

(** What the triggers and constraints check of a new row: a [CASE] that raises
    when two conditions hold. *)
Lemma not_both b c : b && c = false → b = true → c = false.
Proof. by destruct b, c. Qed.

Lemma lease_state_inserted d s d' :
  sql_insert (ls_lease_id s, ls_version s) s d = (Ok tt, d') → good_lease_state d s.
Proof.
  intros (_ & Hc & _ & _)%sql_insert_Ok_inv. cbn in Hc. unfold lease_state_check in Hc.
  rewrite !andb_true_iff in Hc. destruct Hc as ((((((Hl & Hv) & H1) & _) & _) & Hg) & He).
  apply is_some_true in Hl as [c Hl]. bools. split; [done|]. split.
  - exists c. split; [done|]. intros Ha Hk. rewrite <-andb_assoc in Hg.
    apply (λ H, not_both _ _ H (bool_decide_eq_true_2 _ Ha)) in Hg. unfold is_git in Hg. rewrite Hl, Hk in Hg. cbn in Hg.
    destruct (workspace_staging_identities d !! ls_lease_id s); [eauto|done].
  - destruct (decide (ls_version s = 1)) as [E|E].
    + left. split; [done|]. apply not_both in H1; bools; [done|lia].
    + right. apply not_both in He; [|apply Z.ltb_lt; lia]. bools.
      destruct (workspace_lease_states d !! _) as [p|]; [eauto|done].
Qed.
Lemma staging_inserted d g d' :
  staging_valid g = true → sql_insert (sg_lease_id g) g d = (Ok tt, d') → good_staging d g.
Proof.
  intros Hv (_ & Hc & _ & _)%sql_insert_Ok_inv. cbn in Hc. unfold staging_check in Hc. split; [done|].
  destruct (workspace_leases d !! sg_lease_id g) as [c|]; bools; [eauto|done].
Qed.
Lemma point_inserted d p d' : point_valid p = true → sql_insert (rp_id p) p d = (Ok tt, d') → good_point d p.
Proof.
  intros Hv (_ & Hc & _ & _)%sql_insert_Ok_inv. cbn in Hc. unfold point_check in Hc. split; [done|].
  destruct (workspace_leases d !! rp_lease_id p); bools; [eauto|done].
Qed.
Lemma decision_state_inserted d s d' :
  workspace_inv d → sql_insert (ds_decision_id s, ds_version s) s d = (Ok tt, d') → good_decision_state d s.
Proof.
  intros Hi (_ & Hc & _ & _)%sql_insert_Ok_inv. cbn in Hc. unfold decision_state_check in Hc.
  rewrite !andb_true_iff in Hc. destruct Hc as ((((((((Hl & Hv) & H1) & _) & Hp) & Ht) & Hr) & Hf) & _).
  apply is_some_true in Hl. bools. split; [done|]. destruct (decide (ds_version s = 1)) as [E|E].
  - left. split; [done|]. apply not_both in H1; bools; [done|lia].
  - right. assert (L : (1 <? ds_version s) = true) by (apply Z.ltb_lt; lia).
    apply not_both in Hp; [|done]. apply not_both in Ht; [|done]. rewrite <-andb_assoc in Hr, Hf.
    apply not_both in Hr, Hf; [|done..]. bools.
    destruct (apply_decision_states d !! _) as [p|] eqn:Hk; [|done]. bools.
    destruct (decision_states_ok d Hi _ _ Hk) as [Ek [_ Hgp]]. injection Ek as Ei Ev.
    assert (E2 : ds_version s = 2) by (destruct Hgp as [[? _]|(_ & ? & _)]; [lia|congruence]).
    split_and!; [done|done| |exists p; by rewrite E2 in Hk].
    destruct (ds_state s), (ds_receipt_id s); cbn in *; (split; [intros; eauto; done|by intros [? [=]]]) || done.
Qed.
Lemma change_set_inserted d c d' :
  workspace_inv d → change_set_valid c = true →
  match latest_change_set d (cs_lease_id c) with
  | Some x => cs_sequence c = cs_sequence x + 1 ∧ change_set_hash x ≠ change_set_hash c
  | None => cs_sequence c = 1
  end →
  sql_insert (cs_id c) c d = (Ok tt, d') → good_change_set d c.
Proof.
  intros Hi Hv Hs (_ & Hc & _ & _)%sql_insert_Ok_inv. cbn in Hc. unfold change_set_check in Hc. bools. split; [done|]. split.
  - destruct (workspace_leases d !! _), (restore_points d !! _) as [p|]; try done. bools. exists p. done.
  - destruct (latest_change_set d (cs_lease_id c)) as [x|] eqn:E; [right|by left].
    apply latest_Some in E as (Hm & [k Hk] & _). bools. destruct (change_sets_ok d Hi k x Hk) as [<- _].
    exists x. naive_solver.
Qed.
Lemma receipt_inserted d r d' :
  workspace_inv d → receipt_valid r = true → sql_insert (ar_id r) r d = (Ok tt, d') → good_receipt d r.
Proof.
  intros Hi Hv (_ & Hc & _ & _)%sql_insert_Ok_inv. cbn in Hc. unfold receipt_check in Hc. apply andb_true_iff in Hc as [_ Hc].
  split; [done|]. destruct (apply_decisions d !! ar_decision_id r) as [a|] eqn:Ha; [|done].
  destruct (canonical_change_sets d !! ad_change_set_id a) as [c|] eqn:Hcs; [|done].
  destruct (decision_now d (ad_id a)) as [s|] eqn:Hs; [|bools; done]. bools.
  destruct (decisions_ok d Hi _ _ Ha) as [Ek [_ Hb]]. destruct (change_sets_ok d Hi _ _ Hcs) as [Ec _].
  unfold decision_bound in Hb. rewrite Hcs in Hb. repeat case_match; try done. bools.
  apply latest_Some in Hs as (Hm & [k Hk] & _). bools.
  destruct (decision_states_ok d Hi _ _ Hk) as [<- [_ Hgs]].
  assert (ds_version s = 2) as Ev by (destruct Hgs as [[_ ?]|[? _]]; congruence).
  exists a, s. split_and!; try congruence. 
Qed.

Lemma inv_wrote d d' : wrote d d' → workspace_inv d → workspace_inv d'.
Proof.
  intros Hw Hi. pose proof (wrote_grows _ _ Hw) as Hg. pose proof Hi as [].
  destruct Hw as [c d d' Hv H|s d d' H|g d d' Hv H|p d d' Hv H|c d d' Hv Hs H|a d d' Hv H|s d d' H|r d d' Hv H|m d];
    [pose proof (sql_insert_Ok_inv _ _ _ _ _ H) as (Hn & Hc & Hu & Ed)..|].
  - split; try (subst d'; keep_rows).
    + insert_rows. split; [done|]. cbn in Hc. unfold lease_check in Hc. bools. done.
    + eapply one_row_insert; [exact H|done| |done]. intros k' x Hx Hk Hr.
      pose proof (unique_ok_insert _ _ _ _ _ _ H Hx Hk) as Hf. cbn in Hf. unfold lease_conflict in Hf. bools. done.
  - split; try (subst d'; keep_rows). insert_rows. eapply good_lease_state_grows, lease_state_inserted; done.
  - split; try (subst d'; keep_rows). insert_rows. eapply good_staging_grows, staging_inserted; done.
  - split; try (subst d'; keep_rows); [insert_rows; eapply good_point_grows, point_inserted; done|].
    eapply one_row_insert; [exact H|done| |done]. intros k' x Hx Hk Hr.
    pose proof (unique_ok_insert _ _ _ _ _ _ H Hx Hk) as Hf. cbn in Hf. bools. done.
  - split; try (subst d'; keep_rows); [insert_rows; eapply good_change_set_grows, change_set_inserted; done|].
    eapply one_row_insert; [exact H|naive_solver| |done]. intros k' x Hx Hk [Hl Hq].
    pose proof (unique_ok_insert _ _ _ _ _ _ H Hx Hk) as Hf. cbn in Hf. unfold change_set_conflict in Hf.
    rewrite bool_decide_eq_true_2, (proj2 (Z.eqb_eq _ _)) in Hf by done. done.
  - cbn in Hc. unfold decision_check in Hc. bools.
    split; try (subst d'; keep_rows); [insert_rows; eapply good_decision_grows; [done|by split]|].
    eapply one_row_insert; [exact H|done| |done]. intros k' x Hx Hk Hl.
    match goal with Hf : authority_issued _ _ = false |- _ => unfold authority_issued in Hf; rewrite any_row_false in Hf;
      specialize (Hf _ _ Hx) end. bools. done.
  - split; try (subst d'; keep_rows). insert_rows. eapply good_decision_state_grows, decision_state_inserted; done.
  - split; try (subst d'; keep_rows); [insert_rows; eapply good_receipt_grows, receipt_inserted; done|].
    eapply one_row_insert; [exact H|done| |done]. intros k' x Hx Hk Hr.
    pose proof (unique_ok_insert _ _ _ _ _ _ H Hx Hk) as Hf. cbn in Hf. bools. done.
  - split; keep_rows.
Qed.
Lemma inv_no_workspaces m : workspace_inv (no_workspaces m).
Proof. by split. Qed.

(** ** Calls *)

(** A call amounts to statements of [wrote], whatever it returns. *)
Definition writes {A} (m : M workspace_db A) : Prop := ∀ d, rtc wrote d (m d).2.
Lemma writes_reads {A} (m : M workspace_db A) : reads m → writes m.
Proof. intros Hm d. by rewrite Hm. Qed.
Lemma writes_bind {A B} (m : M workspace_db A) (k : A → M workspace_db B) :
  writes m → (∀ a, writes (k a)) → writes (bind m k).
Proof.
  intros Hm Hk d. unfold bind. specialize (Hm d). destruct (m d) as [[a|e] d1]; [|done]. cbn in Hm.
  etransitivity; [exact Hm|apply Hk].
Qed.
Lemma writes_atomically {A} (m : M workspace_db A) : writes m → writes (atomically m).
Proof. intros Hm d. unfold atomically. specialize (Hm d). destruct (m d) as [[a|e] d1]; done. Qed.
Lemma writes_try {A} (m : M workspace_db A) c h : writes m → (∀ e, writes (h e)) → writes (try_except m c h).
Proof.
  intros Hm Hh d. unfold try_except. specialize (Hm d). destruct (m d) as [[a|e] d1]; [done|]. case_match; [|done].
  cbn in Hm. etransitivity; [exact Hm|apply Hh].
Qed.
Lemma insert_at {K R} `{Table workspace_db K R} k r d :
  (∀ d', sql_insert k r d = (Ok tt, d') → wrote d d') → rtc wrote d (sql_insert k r d).2.
Proof.
  intros Hw. destruct (sql_insert_state k r d) as [->|E]; [done|]. apply rtc_once, Hw. rewrite <-E.
  by destruct (sql_insert k r d).
Qed.
Lemma writes_insert {K R} `{Table workspace_db K R} k r :
  (∀ d d', sql_insert k r d = (Ok tt, d') → wrote d d') → writes (sql_insert k r).
Proof. intros Hw d. apply insert_at, Hw. Qed.
Lemma then_ret {A B} (m : M workspace_db A) (b : B) d : (bind m (λ _, ret b) d).2 = (m d).2.
Proof. unfold bind. by destruct (m d) as [[]]. Qed.
Lemma reads_get_state : reads (S := workspace_db) get_state.
Proof. done. Qed.
Lemma reads_validated {A} (f : A → bool) a : reads (validated f a).
Proof. apply reads_bind; [apply reads_guard|done]. Qed.
#[export] Hint Resolve writes_atomically writes_bind : workspace.
#[export] Hint Extern 1 (writes (guard _ _ _)) => apply writes_reads, reads_guard : workspace.
#[export] Hint Extern 1 (writes (ret _)) => apply writes_reads, reads_ret : workspace.
#[export] Hint Extern 1 (writes (raise _ _)) => apply writes_reads, reads_raise : workspace.
#[export] Hint Extern 1 (writes get_state) => apply writes_reads, reads_get_state : workspace.
#[export] Hint Extern 1 (writes (validated _ _)) => apply writes_reads, reads_validated : workspace.
#[export] Hint Extern 1 (writes (raise_with _ _ _)) => apply writes_reads; done : workspace.
#[export] Hint Extern 1 (writes (try_except _ _ _)) => apply writes_try; [|intros ?] : workspace.
#[export] Hint Extern 1 (writes (match ?x with _ => _ end)) => destruct x : workspace.
#[export] Hint Extern 1 (writes (sql_insert (wl_id _) _)) => apply writes_insert; intros; by eapply wrote_lease : workspace.
#[export] Hint Extern 1 (writes (sql_insert (sg_lease_id _) _)) => apply writes_insert; intros; by eapply wrote_staging : workspace.
#[export] Hint Extern 1 (writes (sql_insert (rp_id _) _)) => apply writes_insert; intros; by eapply wrote_point : workspace.
#[export] Hint Extern 1 (writes (sql_insert (ad_id _) _)) => apply writes_insert; intros; by eapply wrote_decision : workspace.
#[export] Hint Extern 1 (writes (sql_insert (ar_id _) _)) => apply writes_insert; intros; by eapply wrote_receipt : workspace.
#[export] Hint Extern 1 (writes (sql_insert _ (mkLeaseState ?i ?v ?s ?t ?c))) =>
  apply writes_insert; intros ? ? ?; by apply (wrote_lease_state (mkLeaseState i v s t c)) : workspace.
#[export] Hint Extern 1 (writes (sql_insert _ (mkDecisionState ?i ?v ?s ?t ?c))) =>
  apply writes_insert; intros ? ? ?; by apply (wrote_decision_state (mkDecisionState i v s t c)) : workspace.

Lemma writes_create l p :
  lease_valid l = true → optional_ok point_valid p = true → writes (create_workspace_foundation l p).
Proof.
  intros Hl Hp. unfold lease_valid in Hl. bools. unfold create_workspace_foundation, check_foundation, insert_restore_point.
  destruct p; cbn in Hp; eauto 10 with workspace.
Qed.
Lemma writes_save_staging g : staging_valid g = true → writes (save_workspace_staging_identity g).
Proof. intros Hg. unfold save_workspace_staging_identity. eauto with workspace. Qed.
Lemma writes_transition_lease i v s s' t x : writes (transition_workspace_lease i v s s' t x).
Proof. unfold transition_workspace_lease. eauto 20 with workspace. Qed.
Lemma writes_save_change_set c : change_set_valid c = true → writes (save_canonical_change_set c).
Proof.
  intros Hc. unfold save_canonical_change_set. apply writes_atomically. intros d. rewrite bind_get_state.
  destruct (latest_change_set d (cs_lease_id c)) as [x|] eqn:El; cbv zeta;
    [case_bool_decide as Eh; [by rewrite reads_validated|]|];
    unfold guard; (case_match eqn:Es; [|done]); bools; rewrite bind_ret, then_ret; apply insert_at; intros d' E;
    (eapply wrote_change_set; [done| |exact E]); by rewrite El.
Qed.
Lemma writes_save_decision a : apply_decision_valid a = true → writes (save_apply_decision a).
Proof.
  intros Ha. unfold apply_decision_valid in Ha. bools. unfold save_apply_decision, insert_apply_decision, already_issued.
  eauto 30 with workspace.
Qed.
Lemma writes_transition_decision i v s t x : writes (transition_apply_decision i v s t x).
Proof. unfold transition_apply_decision. eauto 20 with workspace. Qed.
Lemma writes_save_receipt r : receipt_valid r = true → writes (save_apply_receipt r).
Proof. intros Hr. unfold save_apply_receipt. eauto with workspace. Qed.

(** The calls that write, with records that were validated when they were
    built, and statements of other repositories. *)
Inductive workspace_step (d : workspace_db) : workspace_db → Prop :=
  | step_create l p :
      lease_valid l = true → optional_ok point_valid p = true → workspace_step d (create_workspace_foundation l p d).2
  | step_staging g : staging_valid g = true → workspace_step d (save_workspace_staging_identity g d).2
  | step_lease i v s s' t x : workspace_step d (transition_workspace_lease i v s s' t x d).2
  | step_change_set c : change_set_valid c = true → workspace_step d (save_canonical_change_set c d).2
  | step_decision a : apply_decision_valid a = true → workspace_step d (save_apply_decision a d).2
  | step_transition i v s t x : workspace_step d (transition_apply_decision i v s t x d).2
  | step_receipt r : receipt_valid r = true → workspace_step d (save_apply_receipt r d).2
  | step_main m : workspace_step d (set_main m d).
(** The states of a database that started without workspaces. *)
Definition reachable (d : workspace_db) : Prop := ∃ m, rtc workspace_step (no_workspaces m) d.

Lemma step_writes d d' : workspace_step d d' → rtc wrote d d'.
Proof.
  destruct 1; [by apply writes_create|by apply writes_save_staging|apply writes_transition_lease|
    by apply writes_save_change_set|by apply writes_save_decision|apply writes_transition_decision|
    by apply writes_save_receipt|apply rtc_once, wrote_main].
Qed.
Lemma rtc_wrote_inv d d' : rtc wrote d d' → workspace_inv d → workspace_inv d'.
Proof. induction 1; eauto using inv_wrote. Qed.
Lemma rtc_wrote_grows d d' : rtc wrote d d' → grows d d'.
Proof. induction 1; [done|]. etransitivity; [by apply wrote_grows|done]. Qed.
Lemma steps_write d d' : rtc workspace_step d d' → rtc wrote d d'.
Proof. induction 1; [done|]. etransitivity; [by apply step_writes|done]. Qed.
Lemma reachable_inv d : reachable d → workspace_inv d.
Proof. intros [m Hd]. eapply rtc_wrote_inv; [by apply steps_write|apply inv_no_workspaces]. Qed.
Lemma steps_grow d d' : rtc workspace_step d d' → grows d d'.
Proof. intros Hd. by apply rtc_wrote_grows, steps_write. Qed.

(** ** Apply decisions *)

Section decisions.
Context (d : workspace_db) (Hi : workspace_inv d).

Lemma decision_state_key k s : apply_decision_states d !! k = Some s → k = (ds_decision_id s, ds_version s).
Proof using Hi. intros Hk. by destruct (decision_states_ok d Hi k s Hk) as [<- _]. Qed.
Lemma decision_now_Some i s :
  decision_now d i = Some s → ds_decision_id s = i ∧ apply_decision_states d !! (i, ds_version s) = Some s.
Proof using Hi.
  intros (Hm & [k Hk] & _)%latest_Some. bools. pose proof (decision_state_key _ _ Hk). subst. done.
Qed.
Lemma decision_now_is i v s :
  apply_decision_states d !! (i, v) = Some s → (∀ v' x, apply_decision_states d !! (i, v') = Some x → v' ≤ v) →
  decision_now d i = Some s.
Proof using Hi.
  intros Hs Hmax. pose proof (decision_state_key _ _ Hs) as [= -> ->].
  eapply latest_is; [exact Hs|by apply bool_decide_eq_true|]. intros k x Hx Hm. bools.
  pose proof (decision_state_key _ _ Hx) as ->. rewrite Hm in Hx. specialize (Hmax _ _ Hx).
  destruct (decide (ds_version x = ds_version s)) as [E|]; [right|left; lia]. rewrite E in Hx. congruence.
Qed.
(** Version 2 is the last one. *)
Lemma decision_settled i s : apply_decision_states d !! (i, 2) = Some s → decision_now d i = Some s.
Proof using Hi.
  intros Hs. apply (decision_now_is i 2); [done|]. intros v x Hx.
  destruct (decision_states_ok d Hi _ _ Hx) as [[= _ <-] [_ [[-> _]|[-> _]]]]; lia.
Qed.
Lemma settled_version i s :
  decision_now d i = Some s → ds_state s ≠ A_PENDING → apply_decision_states d !! (i, 2) = Some s.
Proof using Hi.
  intros Hs Hn. apply decision_now_Some in Hs as [<- Hs]. destruct (decision_states_ok d Hi _ _ Hs) as [_ [_ Hg]].
  destruct Hg as [[_ ?]|[E _]]; [done|by rewrite E in Hs].
Qed.
Lemma pending_version i s :
  decision_now d i = Some s → ds_state s = A_PENDING → ds_version s = 1 ∧ apply_decision_states d !! (i, 2) = None.
Proof using Hi.
  intros Hs Hp. pose proof (decision_now_Some _ _ Hs) as [<- Hk].
  destruct (decision_states_ok d Hi _ _ Hk) as [_ [_ Hg]]. split; [by destruct Hg as [[? _]|(_ & ? & _)]|].
  destruct (apply_decision_states d !! (ds_decision_id s, 2)) as [x|] eqn:Hx; [|done].
  pose proof (decision_settled _ _ Hx). destruct (decision_states_ok d Hi _ _ Hx) as [[= _ Ev] [_ Hgx]].
  destruct Hgx as [[? _]|(_ & ? & _)]; [lia|congruence].
Qed.
Lemma pinned_content i a :
  apply_decisions d !! i = Some a →
  (∃ c, canonical_change_sets d !! ad_change_set_id a = Some c ∧ change_set_hash c = ad_change_set_hash a ∧
     change_set_valid c = true) ∧
  (∃ p, restore_points d !! ad_restore_point_id a = Some p ∧ point_hash p = ad_restore_point_hash a ∧
     point_valid p = true).
Proof using Hi.
  intros Ha. destruct (decisions_ok d Hi _ _ Ha) as [_ [_ Hb]]. unfold decision_bound in Hb.
  destruct (canonical_change_sets d !! _) as [c|] eqn:Hc; [|done]. destruct (restore_points d !! _) as [p|] eqn:Hp; [|done].
  destruct (workspace_leases d !! _); [|done]. destruct (workspace_staging_identities d !! _); [|done]. bools.
  destruct (change_sets_ok d Hi _ _ Hc) as [_ [Hv _]]. destruct (points_ok d Hi _ _ Hp) as [_ [Hvp _]].
  split; [by exists c|by exists p].
Qed.
End decisions.

(** C13. A lease is applied once: from the moment an apply decision is stored, in every
    state the repository reaches it is the only one of its lease, the change set and the
    restore point it names are stored with the hashes it carries, once it is consumed,
    expired or revoked it stays so, and the only receipt of the lease is the one its claim
    named, for the same content. *)
Theorem apply_once d d' i a :
  reachable d → apply_decisions d !! i = Some a → rtc workspace_step d d' →
  apply_decisions d' !! i = Some a ∧
  (∀ j b, apply_decisions d' !! j = Some b → ad_lease_id b = ad_lease_id a → j = i ∧ b = a) ∧
  (∃ c p, get_canonical_change_set (ad_change_set_id a) d' = (Ok (Some c), d') ∧
     change_set_hash c = ad_change_set_hash a ∧
     get_restore_point (ad_restore_point_id a) d' = (Ok (Some p), d') ∧ point_hash p = ad_restore_point_hash a) ∧
  (∀ s, decision_now d i = Some s → ds_state s ≠ A_PENDING → decision_now d' i = Some s) ∧
  (∀ k r, apply_receipts d' !! k = Some r → ar_lease_id r = ad_lease_id a →
     ar_decision_id r = i ∧ ar_change_set_hash r = ad_change_set_hash a ∧
     (∃ s, decision_now d' i = Some s ∧ ds_state s = A_CONSUMED ∧ ds_receipt_id s = Some k) ∧
     ∀ k' r', apply_receipts d' !! k' = Some r' → ar_lease_id r' = ad_lease_id a → k' = k ∧ r' = r).
Proof.
  intros Hr Ha Hd. pose proof (reachable_inv _ Hr) as Hi. pose proof (steps_grow _ _ Hd) as Hg.
  assert (Hi' : workspace_inv d') by (apply reachable_inv; destruct Hr as [m Hm]; exists m; by etransitivity).
  pose proof (in_decisions _ _ Hg _ _ Ha) as Ha'.
  assert (Hone : ∀ j b, apply_decisions d' !! j = Some b → ad_lease_id b = ad_lease_id a → j = i ∧ b = a).
  { intros j b Hb Hl. eapply (one_row_eq _ _ _ _ _ _ (one_decision d' Hi') Ha' Hb). done. }
  assert (Hrec : ∀ k r, apply_receipts d' !! k = Some r → ar_lease_id r = ad_lease_id a → ar_decision_id r = i).
  { intros k r Hk Hl. destruct (receipts_ok d' Hi' _ _ Hk) as [_ (_ & b & _ & Hb & Hlb & _)].
    by apply (Hone _ _ Hb); congruence. }
  split; [done|]. split; [done|]. split; [|split].
  - destruct (pinned_content d' Hi' i a Ha') as [(c & Hc & Hh & Hv) (p & Hp & Hhp & Hvp)]. exists c, p.
    unfold get_canonical_change_set, get_restore_point. rewrite !bind_sql_get. cbn. rewrite Hc, Hp. cbn.
    unfold validated. by rewrite Hv, Hvp.
  - intros s Hs Hn. apply (decision_settled d' Hi'), (in_decision_states _ _ Hg). by apply (settled_version d Hi).
  - intros k r Hk Hl. pose proof (Hrec _ _ Hk Hl) as Ei.
    destruct (receipts_ok d' Hi' _ _ Hk) as [<- (_ & b & s & Hb & _ & _ & _ & Hh & Hs & Hc & Hid)].
    rewrite Ei in Hb, Hs. split; [done|]. split; [congruence|]. split.
    + exists s. split; [by apply (decision_settled d' Hi')|done].
    + intros k' r' Hk' Hl'. eapply (one_row_eq _ _ _ _ _ _ (one_receipt d' Hi') Hk Hk'). by rewrite (Hrec _ _ Hk' Hl').
Qed.

Lemma bind_raises {A B} (m : M workspace_db A) (k : A → M workspace_db B) d e d' :
  m d = (Err e, d') → bind m k d = (Err e, d').
Proof. unfold bind. by intros ->. Qed.
(** A state row is inserted when its key is free and its trigger accepts it. *)
Lemma try_insert {R} `{Table workspace_db (string * Z) R} k r msg d :
  (∀ x y, row_conflict x y = false) → tbl d !! k = None →
  try_except (sql_insert k r) IntegrityError (λ _, raise WorkspaceStateConflict msg) d =
    if row_check d r then (Ok tt, set_tbl (<[k := r]> (tbl d)) d) else (Err (Exn WorkspaceStateConflict msg), d).
Proof.
  intros Hf Hn. unfold try_except, sql_insert. rewrite Hn. destruct (row_check d r); cbn; [|done].
  rewrite (proj2 (unique_ok_spec (tbl d) k r)); [done|]. intros; apply Hf.
Qed.

(** What lets a pending decision be settled. *)
Definition may_settle (d : workspace_db) (i : string) (v : Z) (new_state : apply_state) (t : Z) (receipt : option string) : bool :=
  match apply_decisions d !! i, decision_now d i with
  | Some a, Some s =>
      (ds_version s =? v) && bool_decide (ds_state s = A_PENDING) &&
      match new_state with
      | A_CONSUMED =>
          is_some receipt && (t <? ad_expires_at a) &&
          match lease_now d (ad_lease_id a) with Some l => bool_decide (ls_state l = L_ACTIVE) | None => false end
      | A_EXPIRED | A_REVOKED => is_none receipt
      | A_PENDING => false
      end
  | _, _ => false
  end.
Definition settled_db (d : workspace_db) (i : string) (v : Z) (new_state : apply_state) (t : Z) (receipt : option string) :
    workspace_db :=
  set_decision_states (<[(i, v + 1) := mkDecisionState i (v + 1) new_state receipt t]> (apply_decision_states d)) d.

(** The constraints on the new state row, once the expected state is the latest. *)
Lemma may_settle_check d i v s ns t x :
  workspace_inv d → decision_now d i = Some s → ds_version s = v → ds_state s = A_PENDING → ns ≠ A_PENDING →
  decision_state_check d (mkDecisionState i (v + 1) ns x t) = may_settle d i v ns t x.
Proof.
  intros Hi Hs <- Hp Hn. pose proof (decision_now_Some d Hi _ _ Hs) as [Es Hk].
  destruct (pending_version d Hi _ _ Hs Hp) as [Ev _].
  destruct (decision_states_ok d Hi _ _ Hk) as [_ [[a Ha] _]]. rewrite Es in Ha.
  unfold decision_state_check, may_settle, claim_authority. cbn. rewrite Ha, Hs, Ev.
  change (1 + 1 - 1) with 1. rewrite Ev in Hk. rewrite Hk, Hp. cbn.
  destruct ns; cbn; [done| |by destruct x..]. destruct x; cbn; [|done].
  destruct (t <? ad_expires_at a), (lease_now d (ad_lease_id a)) as [l|]; try done. by destruct (bool_decide (ls_state l = L_ACTIVE)).
Qed.

Lemma settle_exact d i v ns t x :
  workspace_inv d → ns ≠ A_PENDING →
  if may_settle d i v ns t x
  then ∃ a, apply_decisions d !! i = Some a ∧
    transition_apply_decision i v ns t x d = (Ok (mkApplyDecision a ns (v + 1)), settled_db d i v ns t x)
  else ∃ msg, transition_apply_decision i v ns t x d = (Err (Exn WorkspaceStateConflict msg), d).
Proof.
  intros Hi Hn. unfold transition_apply_decision. rewrite bool_decide_eq_false_2 by done.
  change (guard (negb false) ValueError ?m) with (ret (S := workspace_db) tt). rewrite bind_ret.
  unfold atomically. rewrite bind_get_state.
  destruct (decision_now d i) as [s|] eqn:Hs; [|unfold may_settle; rewrite Hs; destruct (apply_decisions d !! i); by eexists].
  destruct ((ds_version s =? v) && bool_decide (ds_state s = A_PENDING)) eqn:Ev;
    [|unfold may_settle; rewrite Hs, Ev; destruct (apply_decisions d !! i); by eexists].
  bools. rewrite <-(may_settle_check d i v s ns t x) by done. unfold guard. rewrite bind_ret.
  pose proof (decision_now_Some d Hi _ _ Hs) as [Ei Hk]. destruct (pending_version d Hi _ _ Hs) as [E1 H2]; [done|].
  destruct (decision_states_ok d Hi _ _ Hk) as [_ [[a Ha] _]]. rewrite Ei in Ha.
  set (row := mkDecisionState i (v + 1) ns x t).
  assert (T : tbl d !! (i, v + 1) = None) by (cbn; by rewrite <-H, E1).
  apply (try_insert _ row "invalid apply decision transition") in T; [|done].
  change (row_check d row) with (decision_state_check d row) in T. destruct (decision_state_check d row) eqn:Hc;
    [|rewrite (bind_raises _ _ _ _ _ T); by eexists].
  exists a. split; [done|]. rewrite (bind_Ok _ _ _ _ _ T), bind_get_state.
  change (set_tbl _ d) with (settled_db d i v ns t x).
  assert (Hi' : workspace_inv (settled_db d i v ns t x)).
  { apply (inv_wrote d); [|done]. apply (wrote_decision_state row). exact (try_raise_Ok_inv _ _ _ _ _ _ _ T). }
  assert (Hs' : decision_now (settled_db d i v ns t x) i = Some row).
  { apply (decision_settled _ Hi'). replace 2 with (v + 1) by lia. apply lookup_insert_eq. }
  unfold select_decision, joined_decision. cbn [apply_decisions settled_db set_decision_states]. rewrite Ha. cbn.
  destruct (decisions_ok d Hi _ _ Ha) as [-> [Hv _]]. rewrite Hs'. cbn. rewrite Z.eqb_refl. unfold validated, apply_decision_valid.
  cbn. rewrite Hv, (proj2 (Z.leb_le 1 (v + 1))) by lia. done.
Qed.

(** C14. Settling a decision: a call that names the latest version of a pending decision
    stores the new state as the next version and returns it, for a claim only with a receipt
    id, before the decision expires and while the lease is active, for an expiry or
    revocation only without a receipt id; every other call raises WorkspaceStateConflict
    (ValueError for a state that does not settle) and leaves the tables as they were. *)
Theorem transition_apply_exact d i v ns t x :
  reachable d →
  match ns with
  | A_PENDING =>
      transition_apply_decision i v ns t x d = (Err (Exn ValueError "apply decision terminal state is invalid"), d)
  | _ =>
      if may_settle d i v ns t x
      then ∃ a, apply_decisions d !! i = Some a ∧
        transition_apply_decision i v ns t x d = (Ok (mkApplyDecision a ns (v + 1)), settled_db d i v ns t x)
      else ∃ msg, transition_apply_decision i v ns t x d = (Err (Exn WorkspaceStateConflict msg), d)
  end.
Proof.
  intros Hi%reachable_inv. destruct (decide (ns = A_PENDING)) as [->|Hn]; [done|].
  pose proof (settle_exact d i v ns t x Hi Hn). by destruct ns.
Qed.

(** ** The life of a lease *)

Section leases.
Context (d : workspace_db) (Hi : workspace_inv d).

Lemma lease_state_key k s : workspace_lease_states d !! k = Some s → k = (ls_lease_id s, ls_version s).
Proof using Hi. intros Hk. by destruct (lease_states_ok d Hi k s Hk) as [<- _]. Qed.
Lemma lease_now_Some i s :
  lease_now d i = Some s →
  ls_lease_id s = i ∧ workspace_lease_states d !! (i, ls_version s) = Some s ∧
  ∀ v x, workspace_lease_states d !! (i, v) = Some x → v ≤ ls_version s.
Proof using Hi.
  intros (Hm & [k Hk] & Hmax)%latest_Some. bools. pose proof (lease_state_key _ _ Hk). subst. split_and!; [done..|].
  intros v x Hx. pose proof (lease_state_key _ _ Hx) as [= E ->]. eapply Hmax; [exact Hx|]. by apply bool_decide_eq_true.
Qed.
Lemma lease_now_is i v s :
  workspace_lease_states d !! (i, v) = Some s → (∀ v' x, workspace_lease_states d !! (i, v') = Some x → v' ≤ v) →
  lease_now d i = Some s.
Proof using Hi.
  intros Hs Hmax. pose proof (lease_state_key _ _ Hs) as [= -> ->].
  eapply latest_is; [exact Hs|by apply bool_decide_eq_true|]. intros k x Hx Hm. bools.
  pose proof (lease_state_key _ _ Hx) as ->. rewrite Hm in Hx. specialize (Hmax _ _ Hx).
  destruct (decide (ls_version x = ls_version s)) as [E|]; [right|left; lia]. rewrite E in Hx. congruence.
Qed.
(** The row before a row, and the transition between them. *)
Lemma lease_previous i v s :
  workspace_lease_states d !! (i, v) = Some s →
  1 ≤ v ∧ (v = 1 ∧ ls_state s = L_STARTING ∨
           ∃ p, workspace_lease_states d !! (i, v - 1) = Some p ∧ lease_edge (ls_state p) (ls_state s) = true).
Proof using Hi.
  intros Hs. destruct (lease_states_ok d Hi _ _ Hs) as [[= <- <-] (Hv & _ & Hp)]. done.
Qed.
Lemma lease_contiguous i v s w :
  workspace_lease_states d !! (i, v) = Some s → 1 ≤ w ≤ v → is_Some (workspace_lease_states d !! (i, w)).
Proof using Hi.
  intros Hs Hw. assert (Hn : ∀ n : nat, 1 ≤ v - Z.of_nat n → is_Some (workspace_lease_states d !! (i, v - Z.of_nat n))).
  { induction n as [|n IH]; intros Hv; [rewrite Z.sub_0_r; eauto|]. destruct IH as [x Hx]; [lia|].
    destruct (lease_previous _ _ _ Hx) as [_ [[? _]|(p & Hp & _)]]; [lia|].
    replace (v - Z.of_nat (S n)) with (v - Z.of_nat n - 1) by lia. eauto. }
  replace w with (v - Z.of_nat (Z.to_nat (v - w))) by lia. apply Hn. lia.
Qed.
(** A row no row follows is the latest. *)
Lemma lease_last i v s :
  workspace_lease_states d !! (i, v) = Some s → workspace_lease_states d !! (i, v + 1) = None → lease_now d i = Some s.
Proof using Hi.
  intros Hs Hn. apply (lease_now_is i v); [done|]. intros w x Hx. destruct (Z.le_gt_cases w v) as [|Hw]; [done|].
  destruct (lease_contiguous i w x (v + 1) Hx) as [y Hy]; [|congruence].
  destruct (lease_previous _ _ _ Hs). lia.
Qed.
Lemma lease_next_free i s : lease_now d i = Some s → workspace_lease_states d !! (i, ls_version s + 1) = None.
Proof using Hi.
  intros (_ & _ & Hmax)%lease_now_Some. destruct (workspace_lease_states d !! (i, ls_version s + 1)) as [x|] eqn:Hx; [|done].
  specialize (Hmax _ _ Hx). lia.
Qed.
Lemma lease_closed_last i v s :
  workspace_lease_states d !! (i, v) = Some s → ls_state s = L_CLOSED → lease_now d i = Some s.
Proof using Hi.
  intros Hs Hc. apply (lease_last i v); [done|].
  destruct (workspace_lease_states d !! (i, v + 1)) as [x|] eqn:Hx; [|done].
  pose proof (lease_previous _ _ _ Hs) as [Hv _].
  destruct (lease_previous _ _ _ Hx) as [_ [[? _]|(p & Hp & He)]]; [lia|]. rewrite Z.add_simpl_r in Hp.
  assert (p = s) as -> by congruence. by rewrite Hc in He.
Qed.
Lemma lease_now_lease i s :
  lease_now d i = Some s → ∃ c, workspace_leases d !! i = Some c ∧ wl_id c = i ∧
    (ls_state s ∈ [L_ACTIVE; L_CLOSING] → wl_source_kind c = K_GIT → is_Some (workspace_staging_identities d !! i)).
Proof using Hi.
  intros (<- & Hs & _)%lease_now_Some. destruct (lease_states_ok d Hi _ _ Hs) as [_ (_ & (c & Hc & Hg) & _)].
  destruct (leases_ok d Hi _ _ Hc) as [E _]. by exists c.
Qed.

(** A row of the join is a valid record. *)
Lemma joined_valid k c l : workspace_leases d !! k = Some c → joined_lease d c = Some l → lease_valid l = true.
Proof using Hi.
  intros Hc Hj. destruct (leases_ok d Hi _ _ Hc) as [E [Hv Hsrc]]. unfold joined_lease in Hj. rewrite E in Hj.
  destruct (lease_now d k) as [s|] eqn:Hs; [|done]. cbn in Hj. injection Hj as <-.
  destruct (lease_now_lease _ _ Hs) as (c' & Hc' & _ & Hg). assert (c' = c) as -> by congruence.
  destruct (lease_now_Some _ _ Hs) as (_ & Hsk & _). destruct (lease_previous _ _ _ Hsk) as [Hver _].
  unfold lease_valid, lease_source_ok, source_shape, staging_fields in *. cbn. rewrite Hv, (proj2 (Z.leb_le 1 _)) by done.
  destruct (workspace_staging_identities d !! k) as [g|] eqn:Hsg; cbn.
  - destruct (stagings_ok d Hi _ _ Hsg) as [Eg (Hgv & x & Hx & Hk)]. rewrite Eg in Hx. assert (x = c) as -> by congruence.
    unfold staging_valid in Hgv. bools. rewrite Hk in *. destruct (wl_apply_mode c); [|done].
    match goal with H : hex64 _ = true |- _ => rewrite H end. cbn in *. rewrite Hsrc. by destruct (ls_state s).
  - destruct (wl_source_kind c), (wl_apply_mode c); try done; cbn in *.
    rewrite Hsrc. cbn. destruct (ls_state s); try done; (destruct Hg as [? ?]; [set_solver|done|done]).
Qed.
End leases.

Definition may_transition (d : workspace_db) (i : string) (v : Z) (es ns : WorkspaceLeaseState) : bool :=
  match lease_now d i with
  | Some s =>
      (ls_version s =? v) && bool_decide (ls_state s = es) && lease_edge es ns &&
      negb (bool_decide (ns ∈ [L_ACTIVE; L_CLOSING]) && is_git d i && is_none (workspace_staging_identities d !! i))
  | None => false
  end.
Definition transitioned_db (d : workspace_db) (i : string) (v : Z) (ns : WorkspaceLeaseState) (t : Z) (x : option string) :
    workspace_db :=
  set_lease_states (<[(i, v + 1) := mkLeaseState i (v + 1) ns x t]> (workspace_lease_states d)) d.

Lemma may_transition_check d i v s es ns t x :
  workspace_inv d → lease_now d i = Some s → ls_version s = v → ls_state s = es →
  lease_state_check d (mkLeaseState i (v + 1) ns x t) = may_transition d i v es ns.
Proof.
  intros Hi Hs <- <-. destruct (lease_now_Some d Hi _ _ Hs) as (Es & Hk & _).
  destruct (lease_previous d Hi _ _ _ Hk) as [Hv _]. destruct (lease_now_lease d Hi _ _ Hs) as (c & Hc & _ & _).
  unfold lease_state_check, may_transition. cbn. rewrite Hc, Hs, Z.add_simpl_r, Hk, Z.eqb_refl. cbn.
  rewrite (proj2 (Z.leb_le 1 _)), (proj2 (Z.eqb_neq _ 1)), (proj2 (Z.ltb_lt 1 _)), (bool_decide_eq_true_2 (ls_state s = ls_state s)) by (done || lia).
  cbn. by rewrite negb_involutive, andb_comm.
Qed.

(** Moving a lease: a call that names the latest version and state, for one of the edges of the
    life cycle and with a staging identity when a Git lease becomes active or closing, stores the
    next version and returns the lease with it; every other call raises WorkspaceStateConflict and
    leaves the tables as they were. *)
Theorem lease_transition_exact d i v es ns t x :
  reachable d →
  if may_transition d i v es ns
  then ∃ c, workspace_leases d !! i = Some c ∧
    let g := workspace_staging_identities d !! i in
    transition_workspace_lease i v es ns t x d =
      (Ok (mkLease c (sg_git_dir <$> g) (sg_git_dir_identity <$> g) ns (v + 1)), transitioned_db d i v ns t x)
  else ∃ msg, transition_workspace_lease i v es ns t x d = (Err (Exn WorkspaceStateConflict msg), d).
Proof.
  intros Hi%reachable_inv. unfold transition_workspace_lease, atomically. rewrite bind_get_state.
  destruct (lease_now d i) as [s|] eqn:Hs; [|unfold may_transition; rewrite Hs; by eexists].
  destruct ((ls_version s =? v) && bool_decide (ls_state s = es)) eqn:Ev;
    [|unfold may_transition; rewrite Hs, Ev; by eexists].
  bools. rewrite <-(may_transition_check d i v s es ns t x) by done. unfold guard. rewrite bind_ret.
  set (row := mkLeaseState i (v + 1) ns x t).
  pose proof (lease_next_free d Hi _ _ Hs) as F. rewrite H in F.
  epose proof (try_insert (i, v + 1) row "invalid workspace lease transition" d ltac:(done) F) as T.
  change (row_check d row) with (lease_state_check d row) in T. destruct (lease_state_check d row) eqn:Hc;
    [|rewrite (bind_raises _ _ _ _ _ T); by eexists].
  destruct (lease_now_lease d Hi _ _ Hs) as (c & Hl & Ec & _). exists c. split; [done|]. cbv zeta.
  rewrite (bind_Ok _ _ _ _ _ T), bind_get_state. change (set_tbl _ d) with (transitioned_db d i v ns t x).
  assert (Hi' : workspace_inv (transitioned_db d i v ns t x)).
  { apply (inv_wrote d); [|done]. apply (wrote_lease_state row). exact (try_raise_Ok_inv _ _ _ _ _ _ _ T). }
  assert (Hs' : lease_now (transitioned_db d i v ns t x) i = Some row).
  { apply (lease_now_is _ Hi' i (v + 1)); [apply lookup_insert_eq|]. intros w y. cbn. rewrite lookup_insert_Some.
    intros [[[= <-] _]|[_ Hy]]; [lia|]. destruct (lease_now_Some d Hi _ _ Hs) as (_ & _ & Hmax). specialize (Hmax _ _ Hy). lia. }
  assert (Hj : joined_lease (transitioned_db d i v ns t x) c =
    Some (mkLease c (sg_git_dir <$> workspace_staging_identities d !! i)
                    (sg_git_dir_identity <$> workspace_staging_identities d !! i) ns (v + 1))).
  { unfold joined_lease. by rewrite Ec, Hs'. }
  pose proof (joined_valid _ Hi' i c _ Hl Hj) as Hv. cbn [workspace_leases transitioned_db set_lease_states]. rewrite Hl.
  cbn [mbind option_bind]. rewrite Hj. cbn. rewrite Z.eqb_refl. unfold validated. by rewrite Hv.
Qed.

(** C16. The history of a lease: its versions run from 1 to the latest without a gap, the
    first is starting, each next one follows an edge of the life cycle, no call ever changes
    or removes a version, and a closed lease stays closed. *)
Theorem lease_history d d' i s :
  reachable d → lease_now d i = Some s → rtc workspace_step d d' →
  (∀ v, 1 ≤ v ≤ ls_version s ↔ is_Some (workspace_lease_states d !! (i, v))) ∧
  (∀ x, workspace_lease_states d !! (i, 1) = Some x → ls_state x = L_STARTING) ∧
  (∀ v x y, workspace_lease_states d !! (i, v) = Some x → workspace_lease_states d !! (i, v + 1) = Some y →
     lease_edge (ls_state x) (ls_state y) = true) ∧
  workspace_lease_states d ⊆ workspace_lease_states d' ∧
  (ls_state s = L_CLOSED → lease_now d' i = Some s) ∧
  ∃ s', lease_now d' i = Some s' ∧ ls_version s ≤ ls_version s'.
Proof.
  intros Hr Hs Hd. pose proof (reachable_inv _ Hr) as Hi. pose proof (steps_grow _ _ Hd) as Hg.
  assert (Hi' : workspace_inv d') by (apply reachable_inv; destruct Hr as [m Hm]; exists m; by etransitivity).
  destruct (lease_now_Some d Hi _ _ Hs) as (Es & Hk & Hmax). pose proof (in_lease_states _ _ Hg _ _ Hk) as Hk'.
  split_and!.
  - intros v. split; [by apply (lease_contiguous d Hi i _ s)|]. intros [x Hx].
    destruct (lease_previous d Hi _ _ _ Hx) as [? _]. split; [done|by eapply Hmax].
  - intros x Hx. destruct (lease_previous d Hi _ _ _ Hx) as [_ [[_ ?]|(p & Hp & _)]]; [done|].
    destruct (lease_previous d Hi _ _ _ Hp). lia.
  - intros v x y Hx Hy. pose proof (lease_previous d Hi _ _ _ Hx) as [Hv _].
    destruct (lease_previous d Hi _ _ _ Hy) as [_ [[? _]|(p & Hp & He)]]; [lia|]. rewrite Z.add_simpl_r in Hp. congruence.
  - apply Hg.
  - intros Hc. by apply (lease_closed_last d' Hi' i (ls_version s)).
  - destruct (lease_now d' i) as [s'|] eqn:Hs'.
    + exists s'. split; [done|]. destruct (lease_now_Some d' Hi' _ _ Hs') as (_ & _ & Hmax'). by eapply Hmax'.
    + unfold lease_now in Hs'. rewrite latest_None in Hs'. specialize (Hs' _ _ Hk'). bools. congruence.
Qed.

(** *** Every lease has a state *)

Lemma keeps_atomically {A T} (part : workspace_db → T) (m : M workspace_db A) : keeps part m → keeps part (atomically m).
Proof. intros Hm d. unfold atomically. specialize (Hm d). by destruct (m d) as [[a|e] d1]. Qed.
Lemma keeps_try {A T} (part : workspace_db → T) (m : M workspace_db A) c h :
  keeps part m → (∀ e, keeps part (h e)) → keeps part (try_except m c h).
Proof.
  intros Hm Hh d. unfold try_except. specialize (Hm d). destruct (m d) as [[a|e] d1]; [done|]. case_match; [|done].
  by rewrite Hh.
Qed.
Lemma keeps_validated {A T} (part : workspace_db → T) (f : A → bool) a : keeps part (validated f a).
Proof. apply keeps_reads, reads_validated. Qed.
#[export] Hint Resolve keeps_atomically keeps_validated : py.
#[export] Hint Extern 1 (keeps _ (try_except _ _ _)) => apply keeps_try; [|intros ?] : py.
#[export] Hint Extern 1 (keeps _ (raise_with _ _ _)) => intros ?; reflexivity : py.
#[export] Hint Extern 1 (keeps _ (match ?x with _ => _ end)) => destruct x : py.

Definition has_states (d : workspace_db) : Prop :=
  ∀ i c, workspace_leases d !! i = Some c → is_Some (workspace_lease_states d !! (i, 1)).
Lemma step_keeps_leases d d' :
  workspace_step d d' →
  (∃ l p, lease_valid l = true ∧ optional_ok point_valid p = true ∧ d' = (create_workspace_foundation l p d).2) ∨
  workspace_leases d' = workspace_leases d.
Proof.
  destruct 1 as [l p Hl Hp| | | | | | |]; [left; eauto|right..|by right];
  [> apply (keeps_Ok workspace_leases _ d _ _) with (2 := surjective_pairing _)..];
    unfold save_workspace_staging_identity, transition_workspace_lease, save_canonical_change_set, save_apply_decision,
      insert_apply_decision, already_issued, transition_apply_decision, save_apply_receipt; eauto 40 with py.
Qed.

Definition founded (l : WorkspaceLease) (p : option RestorePoint) (d : workspace_db) : workspace_db :=
  let c := lease_row l in
  let d1 := set_leases (<[wl_id c := c]> (workspace_leases d)) d in
  let d2 := set_lease_states (<[(wl_id c, 1) := mkLeaseState (wl_id c) 1 L_STARTING None (wl_created_at c)]>
                                (workspace_lease_states d)) d1 in
  match p with Some x => set_points (<[rp_id x := x]> (restore_points d)) d2 | None => d2 end.
Lemma reads_check_foundation l p : reads (check_foundation l p).
Proof. unfold check_foundation. destruct (wl_source_kind (lease_row l)), p; eauto with py. Qed.
Lemma check_foundation_Ok l p d d' :
  check_foundation l p d = (Ok tt, d') →
  lease_state l = L_STARTING ∧ lease_version l = 1 ∧
  match p with Some x => rp_lease_id x = wl_id (lease_row l) | None => True end.
Proof.
  unfold check_foundation. intros ([] & s & [Eg ->]%guard_Ok_inv & E)%bind_Ok_inv. bools. split; [done|]. split; [done|].
  destruct (wl_source_kind (lease_row l)), p; try done. apply guard_Ok_inv in E as [Eb _]. bools.
  unfold restore_binding, lease_binding in Eb. congruence.
Qed.
Lemma create_cases l p d :
  (∃ e, create_workspace_foundation l p d = (Err e, d)) ∨
  create_workspace_foundation l p d = (Ok tt, founded l p d) ∧ lease_state l = L_STARTING ∧ lease_version l = 1 ∧
  workspace_leases d !! wl_id (lease_row l) = None ∧
  match p with
  | Some x => rp_lease_id x = wl_id (lease_row l) ∧ restore_points d !! rp_id x = None
  | None => True
  end.
Proof.
  pose proof (reads_check_foundation l p d) as Hd. pose proof (check_foundation_Ok l p d) as Hok.
  unfold create_workspace_foundation. destruct (check_foundation l p d) as [[[]|e] s] eqn:Ec; cbn in Hd; subst s;
    [|left; exists e; by apply bind_raises]. destruct (Hok d eq_refl) as (Hs & Hv & Hp). clear Hok.
  rewrite (bind_Ok _ _ _ _ _ Ec). destruct (atomically _ d) as [[[]|e] d'] eqn:E; [right|left; apply atomically_Err in E as [-> _]; by eexists].
  apply atomically_Ok_inv in E. apply bind_Ok_inv in E as ([] & s2 & (Hn & _ & _ & ->)%sql_insert_Ok_inv & E).
  apply bind_Ok_inv in E as ([] & s3 & (Hn' & _ & _ & ->)%sql_insert_Ok_inv & E).
  destruct p as [x|]; [apply sql_insert_Ok_inv in E as (Hx & _ & _ & ->)|apply ret_Ok_inv in E as [_ ->]]; rewrite Hs in *;
    by split_and!.
Qed.
Lemma step_has_states d d' : workspace_step d d' → has_states d → has_states d'.
Proof.
  intros Hd Hh. pose proof (steps_grow _ _ (rtc_once _ _ Hd)) as Hg.
  destruct (step_keeps_leases _ _ Hd) as [(l & p & Hl & Hp & ->)|E].
  - destruct (create_cases l p d) as [[e ->]|(-> & _)]; [done|]. cbn [snd]. intros i c Hc.
    assert (Hc' : wl_id (lease_row l) = i ∨ workspace_leases d !! i = Some c).
    { destruct p; cbn in Hc; apply lookup_insert_Some in Hc as [[-> _]|[_ ?]]; auto. }
    assert (E : workspace_lease_states (founded l p d) = <[(wl_id (lease_row l), 1) :=
      mkLeaseState (wl_id (lease_row l)) 1 L_STARTING None (wl_created_at (lease_row l))]> (workspace_lease_states d))
      by (by destruct p).
    rewrite E. destruct Hc' as [<-|Hc']; [rewrite lookup_insert_eq; eauto|].
    destruct (decide ((wl_id (lease_row l), 1) = (i, 1))) as [<-|Hne]; [rewrite lookup_insert_eq; eauto|].
    rewrite lookup_insert_ne by done. by eapply Hh.
  - intros i c. rewrite E. intros Hc. destruct (Hh _ _ Hc) as [s Hs]. exists s. by eapply in_lease_states.
Qed.
Lemma reachable_has_states d : reachable d → has_states d.
Proof.
  intros [m Hd]. assert (H0 : has_states (no_workspaces m)) by done. revert H0.
  induction Hd; eauto using step_has_states.
Qed.
Lemma reachable_joined d i c : reachable d → workspace_leases d !! i = Some c → ∃ l, joined_lease d c = Some l.
Proof.
  intros Hr Hc. pose proof (reachable_inv _ Hr) as Hi. destruct (reachable_has_states _ Hr _ _ Hc) as [s Hs].
  destruct (leases_ok d Hi _ _ Hc) as [E _]. unfold joined_lease. rewrite E.
  destruct (lease_now d i) as [x|] eqn:Hx; [by eexists|]. unfold lease_now in Hx. rewrite latest_None in Hx.
  specialize (Hx _ _ Hs). pose proof (lease_state_key d Hi _ _ Hs) as [= -> _]. bools. done.
Qed.

Lemma validate_all_Ok l d : Forall (λ x, lease_valid x = true) l → validate_all l d = (Ok l, d).
Proof.
  induction 1 as [|x l Hx Hl IH]; [done|]. cbn [validate_all]. unfold validated at 1. rewrite Hx.
  change (guard true ValueError "validation error") with (ret (S := workspace_db) tt).
  unfold bind at 1 2. cbn. by rewrite (bind_Ok _ _ _ _ _ IH).
Qed.
Lemma lease_before_total x y : lease_before x y = true ∨ lease_before y x = true.
Proof.
  unfold lease_before. rewrite (Z.compare_antisym (wl_created_at (lease_row x)) (wl_created_at (lease_row y))).
  rewrite (text_compare_antisym (wl_id (lease_row y))). rewrite (lex_antisym _ _ _ _ eq_refl eq_refl).
  destruct (lex _ _); auto.
Qed.

Lemma text_compare_trans a b c : text_compare a b ≠ Gt → text_compare b c ≠ Gt → text_compare a c ≠ Gt.
Proof.
  unfold text_compare. revert b c. induction a as [|x a IH]; intros [|y b] [|z c]; cbn; try done.
  unfold Ascii.compare.
  destruct (N.compare_spec (Ascii.N_of_ascii x) (Ascii.N_of_ascii y)) as [E1|E1|E1];
    destruct (N.compare_spec (Ascii.N_of_ascii y) (Ascii.N_of_ascii z)) as [E2|E2|E2]; try done;
    destruct (N.compare_spec (Ascii.N_of_ascii x) (Ascii.N_of_ascii z)) as [E3|E3|E3]; try done; try lia. eapply IH.
Qed.
Lemma lease_before_trans x y z : lease_before x y = true → lease_before y z = true → lease_before x z = true.
Proof.
  unfold lease_before, lex. generalize (lease_row x), (lease_row y), (lease_row z). intros a b c.
  pose proof (text_compare_trans (wl_id a) (wl_id b) (wl_id c)).
  destruct (Z.compare_spec (wl_created_at a) (wl_created_at b)), (Z.compare_spec (wl_created_at b) (wl_created_at c)),
    (Z.compare_spec (wl_created_at a) (wl_created_at c)); try done; try lia.
  destruct (text_compare (wl_id a) (wl_id b)), (text_compare (wl_id b) (wl_id c)), (text_compare (wl_id a) (wl_id c)); naive_solver.
Qed.
Lemma joined_row d c x : joined_lease d c = Some x → lease_row x = c.
Proof. unfold joined_lease. destruct (lease_now d (wl_id c)); [|done]. by intros [= <-]. Qed.
(** The listed leases are distinct rows of the table. *)
Lemma joined_sublist d (f : WorkspaceLease → bool) rows :
  sublist ((λ x, wl_id (lease_row x)) <$> filter (λ l, f l = true) (omap (joined_lease d) rows)) (wl_id <$> rows).
Proof.
  induction rows as [|c rows IH]; [done|]. cbn. destruct (joined_lease d c) as [x|] eqn:Hx; [|by apply sublist_cons].
  rewrite filter_cons. case_decide; cbn; [|by apply sublist_cons]. rewrite (joined_row _ _ _ Hx). by apply sublist_skip.
Qed.
Lemma lease_ids_distinct d : workspace_inv d → NoDup (wl_id <$> where_rows (λ _, true) (workspace_leases d)).
Proof.
  intros Hi. rewrite where_all. replace (wl_id <$> (map_to_list (workspace_leases d)).*2) with (map_to_list (workspace_leases d)).*1;
    [apply NoDup_fst_map_to_list|]. rewrite <-list_fmap_compose. apply list_fmap_ext. intros n [k c] Hn. cbn.
  apply list_elem_of_lookup_2, elem_of_map_to_list in Hn. by destruct (leases_ok d Hi _ _ Hn) as [-> _].
Qed.

(** C17. No lease is lost to recovery: every stored lease has a state and loads, and the
    list of open leases is read without an error, holds exactly the leases whose latest
    state is not closed, once each, in the order of their creation and identifiers. *)
Theorem open_leases_listed d :
  reachable d →
  ∃ l, list_open_workspace_leases d = (Ok l, d) ∧ NoDup ((λ x, wl_id (lease_row x)) <$> l) ∧
    StronglySorted (λ x y, lease_before x y = true) l ∧
    (∀ x, x ∈ l → get_workspace_lease (wl_id (lease_row x)) d = (Ok (Some x), d)) ∧
    ∀ i c, workspace_leases d !! i = Some c →
      ∃ x, get_workspace_lease i d = (Ok (Some x), d) ∧ lease_row x = c ∧ (x ∈ l ↔ lease_state x ≠ L_CLOSED).
Proof.
  intros Hr. pose proof (reachable_inv _ Hr) as Hi. unfold list_open_workspace_leases. rewrite bind_get_state.
  set (l := order_by _ _).
  assert (Hin : ∀ x, x ∈ l ↔ lease_state x ≠ L_CLOSED ∧ ∃ i c, workspace_leases d !! i = Some c ∧ joined_lease d c = Some x).
  { intros x. unfold l. rewrite elem_of_order_by, list_elem_of_filter, list_elem_of_omap. unfold is_open.
    rewrite negb_true_iff, bool_decide_eq_false. setoid_rewrite elem_of_where_rows. naive_solver. }
  assert (Hget : ∀ i c x, workspace_leases d !! i = Some c → joined_lease d c = Some x →
    lease_valid x = true ∧ lease_row x = c ∧ wl_id c = i ∧ get_workspace_lease i d = (Ok (Some x), d)).
  { intros i c x Hc Hj. pose proof (joined_valid d Hi _ _ _ Hc Hj) as Hv. destruct (leases_ok d Hi _ _ Hc) as [E _].
    split; [done|]. split; [|split; [done|]].
    - by apply (joined_row d).
    - unfold get_workspace_lease. rewrite bind_get_state, Hc. cbn [mbind option_bind]. rewrite Hj. cbn. unfold validated.
      by rewrite Hv. }
  exists l. split_and!.
  - apply validate_all_Ok, Forall_forall. intros x (_ & i & c & Hc & Hj)%Hin. by apply (Hget i c x).
  - unfold l. rewrite order_by_perm. eapply sublist_NoDup; [by apply lease_ids_distinct|apply joined_sublist].
  - apply order_by_sorted; [apply lease_before_total|apply lease_before_trans].
  - intros x (_ & i & c & Hc & Hj)%Hin. destruct (Hget i c x Hc Hj) as (_ & -> & -> & Hx). done.
  - intros i c Hc. destruct (reachable_joined d i c Hr Hc) as [x Hx]. destruct (Hget i c x Hc Hx) as (_ & Hrow & _ & Hg).
    exists x. split; [done|]. split; [done|]. rewrite Hin. naive_solver.
Qed.

Lemma head_only {A} (l : list A) r : r ∈ l → (∀ x, x ∈ l → x = r) → head l = Some r.
Proof. destruct l as [|x l]; [set_solver|]. intros _ H. cbn. f_equal. apply H. left. Qed.
Lemma where_rows_none {K R} `{Countable K} (cond : R → bool) (t : gmap K R) :
  (∀ k x, t !! k = Some x → cond x = false) → where_rows cond t = [].
Proof.
  intros Hn. destruct (where_rows cond t) as [|x l] eqn:E; [done|].
  assert (Hin : x ∈ where_rows cond t) by (rewrite E; left). apply elem_of_where_rows in Hin as [Hx [k Hk]].
  by rewrite (Hn _ _ Hk) in Hx.
Qed.

Lemma founded_joined d l p (d' := founded l p d) (c := lease_row l) :
  workspace_inv d → workspace_inv d' → workspace_leases d !! wl_id c = None →
  workspace_leases d' !! wl_id c = Some c ∧ joined_lease d' c = Some (mkLease c None None L_STARTING 1).
Proof.
  intros Hi Hi' Hn.
  assert (Hc : workspace_leases d' !! wl_id c = Some c) by (unfold d', founded; destruct p; apply lookup_insert_eq).
  assert (Hg : workspace_staging_identities d' !! wl_id c = None).
  { replace (workspace_staging_identities d') with (workspace_staging_identities d) by (by unfold d', founded; destruct p).
    destruct (workspace_staging_identities d !! wl_id c) as [g|] eqn:Hg; [|done].
    destruct (stagings_ok d Hi _ _ Hg) as [Eg (_ & x & Hx & _)]. congruence. }
  assert (Hnow : lease_now d' (wl_id c) = Some (mkLeaseState (wl_id c) 1 L_STARTING None (wl_created_at c))).
  { assert (Es : workspace_lease_states d' = <[(wl_id c, 1) := mkLeaseState (wl_id c) 1 L_STARTING None (wl_created_at c)]>
      (workspace_lease_states d)) by (by unfold d', founded; destruct p).
    apply (lease_now_is d' Hi' _ 1); rewrite Es; [apply lookup_insert_eq|]. intros v x.
    rewrite lookup_insert_Some. intros [[[= <-] _]|[_ Hx]]; [lia|].
    destruct (lease_states_ok d Hi _ _ Hx) as [[= Ei _] (_ & (y & Hy & _) & _)]. congruence. }
  split; [done|]. unfold joined_lease. by rewrite Hnow, Hg.
Qed.

(** A created workspace reads back: when create_workspace_foundation returns, the lease loads by
    its identifier and by its run as starting at version 1 without a staging identity, and its
    restore point loads as it was given (there is none for a scratch lease); when it raises, nothing
    is stored. *)
Theorem foundation_reads_back d l p :
  reachable d → lease_valid l = true → optional_ok point_valid p = true →
  match create_workspace_foundation l p d with
  | (Ok _, d') =>
      let c := lease_row l in
      let started := mkLease c None None L_STARTING 1 in
      get_workspace_lease (wl_id c) d' = (Ok (Some started), d') ∧
      get_workspace_lease_by_run (wl_run_id c) d' = (Ok (Some started), d') ∧
      get_restore_point_for_lease (wl_id c) d' = (Ok p, d')
  | (Err _, d') => d' = d
  end.
Proof.
  intros Hr Hl Hp. pose proof (reachable_inv _ Hr) as Hi. pose proof (step_create d l p Hl Hp) as Hstep.
  destruct (create_cases l p d) as [[e ->]|(E & Hs & Hv & Hn & Hpt)]; [done|]. rewrite E in *. cbn [snd] in Hstep.
  set (d' := founded l p d) in *. set (c := lease_row l) in *. cbv zeta.
  assert (Hi' : workspace_inv d').
  { eapply rtc_wrote_inv; [by apply step_writes|done]. }
  destruct (founded_joined d l p Hi Hi' Hn) as [Hc Hj]. fold d' c in Hc, Hj.
  pose proof (joined_valid d' Hi' _ _ _ Hc Hj) as Hval. split_and!.
  - unfold get_workspace_lease. rewrite bind_get_state, Hc. cbn [mbind option_bind]. rewrite Hj. cbn. unfold validated.
    by rewrite Hval.
  - unfold get_workspace_lease_by_run. rewrite bind_get_state. rewrite (head_only _ (mkLease c None None L_STARTING 1)).
    + cbn. unfold validated. by rewrite Hval.
    + apply list_elem_of_omap. exists c. split; [|done]. apply elem_of_where_rows. split; [by apply bool_decide_eq_true|eauto].
    + intros x (c' & [Hrun [k Hk]]%elem_of_where_rows & Hx)%list_elem_of_omap. bools.
      destruct (one_row_eq _ _ _ _ _ _ (one_lease d' Hi') Hc Hk) as [_ ->]; [done|]. congruence.
  - unfold get_restore_point_for_lease. rewrite bind_sql_select. destruct p as [x|]; cbn in Hp.
    + destruct Hpt as [Hxl _]. rewrite (head_only _ x).
      * cbn. unfold validated. by rewrite Hp.
      * apply elem_of_where_rows. split; [by apply bool_decide_eq_true|]. exists (rp_id x). apply lookup_insert_eq.
      * intros y [Hy [k Hk]]%elem_of_where_rows. bools.
        assert (Hx' : tbl d' !! rp_id x = Some x) by apply lookup_insert_eq.
        by destruct (one_row_eq _ _ _ _ _ _ (one_point d' Hi') Hx' Hk) as [_ ->]; [congruence|].
    + rewrite where_rows_none; [done|]. intros k y Hy. apply bool_decide_eq_false. intros Ey.
      destruct (points_ok d Hi _ _ Hy) as [_ [_ [x Hx]]]. congruence.
Qed.

(** ** Change sets *)

Section change_sets.
Context (d : workspace_db) (Hi : workspace_inv d) (lease : string).
Definition recorded (n : Z) (c : CanonicalChangeSet) : Prop :=
  canonical_change_sets d !! cs_id c = Some c ∧ cs_lease_id c = lease ∧ cs_sequence c = n.

Lemma recorded_row i c : canonical_change_sets d !! i = Some c → cs_lease_id c = lease → recorded (cs_sequence c) c.
Proof using Hi. intros Hc Hl. by destruct (change_sets_ok d Hi _ _ Hc) as [<- _]. Qed.
Lemma recorded_valid n c : recorded n c → change_set_valid c = true ∧ 1 ≤ n.
Proof using Hi.
  intros (Hc & _ & <-). destruct (change_sets_ok d Hi _ _ Hc) as [_ [Hv _]]. split; [done|]. unfold change_set_valid in Hv.
  bools. lia.
Qed.
Lemma recorded_one n c c' : recorded n c → recorded n c' → c' = c.
Proof using Hi.
  intros (Hc & Hl & Hs) (Hc' & Hl' & Hs'). by destruct (one_row_eq _ _ _ _ _ _ (one_change_set d Hi) Hc Hc') as [_ ->]; [split; congruence|].
Qed.
Lemma recorded_previous n c : recorded n c → n = 1 ∨ ∃ x, recorded (n - 1) x ∧ change_set_hash x ≠ change_set_hash c.
Proof using Hi.
  intros (Hc & Hl & Hs). destruct (change_sets_ok d Hi _ _ Hc) as [_ (_ & _ & [H1|(x & Hx & Hlx & Hsx & Hh)])]; [left; lia|right].
  exists x. split; [|done]. split; [done|]. split; [congruence|lia].
Qed.
Lemma recorded_below n c k : recorded n c → 1 ≤ k ≤ n → ∃ x, recorded k x.
Proof using Hi.
  intros Hc Hk. assert (Hn : ∀ m : nat, 1 ≤ n - Z.of_nat m → ∃ x, recorded (n - Z.of_nat m) x).
  { induction m as [|m IH]; intros Hv; [rewrite Z.sub_0_r; eauto|]. destruct IH as [x Hx]; [lia|].
    destruct (recorded_previous _ _ Hx) as [?|(y & Hy & _)]; [lia|].
    replace (n - Z.of_nat (S m)) with (n - Z.of_nat m - 1) by lia. eauto. }
  replace k with (n - Z.of_nat (Z.to_nat (n - k))) by lia. apply Hn. lia.
Qed.
(** The greatest sequence, 0 when there is none. *)
Definition last_sequence : Z := match latest_change_set d lease with Some x => cs_sequence x | None => 0 end.
Lemma last_sequence_spec n : (∃ c, recorded n c) ↔ 1 ≤ n ≤ last_sequence.
Proof using Hi.
  unfold last_sequence. destruct (latest_change_set d lease) as [x|] eqn:E.
  - apply latest_Some in E as (Hm & [k Hk] & Hmax). bools. pose proof (recorded_row _ _ Hk Hm) as Hx. split.
    + intros [c Hc]. split; [by apply recorded_valid in Hc as [_ ?]|]. destruct Hc as (Hc & Hl & <-).
      eapply Hmax; [exact Hc|by apply bool_decide_eq_true].
    + by apply (recorded_below _ x).
  - unfold latest_change_set in E. rewrite latest_None in E. split; [|lia]. intros (c & Hc & Hl & _).
    specialize (E _ _ Hc). bools. done.
Qed.
Lemma foldr_max_spec s l : foldr Z.max s l ∈ s :: l ∧ ∀ x, x ∈ s :: l → x ≤ foldr Z.max s l.
Proof.
  induction l as [|y l [IH1 IH2]]; cbn; [split; [left|]; intros x; set_solver by lia|]. split.
  - destruct (Z.max_spec y (foldr Z.max s l)) as [[_ ->]|[_ ->]]; set_solver.
  - intros x Hx. assert (x = y ∨ x ∈ s :: l) as [->|Hin] by set_solver; [lia|]. specialize (IH2 _ Hin). lia.
Qed.
Lemma next_sequence : next_change_set_sequence lease d = (Ok (last_sequence + 1), d).
Proof using Hi.
  unfold next_change_set_sequence. rewrite bind_get_state. unfold ret. do 3 f_equal.
  assert (Hin : ∀ n, n ∈ (cs_sequence <$> change_sets_of d lease) ↔ 1 ≤ n ≤ last_sequence).
  { intros n. rewrite <-last_sequence_spec. unfold change_sets_of. rewrite list_elem_of_fmap.
    setoid_rewrite elem_of_where_rows. setoid_rewrite bool_decide_eq_true. split.
    - intros (c & -> & Hl & k & Hk). exists c. by apply (recorded_row k).
    - intros (c & Hc & Hl & Hs). naive_solver. }
  assert (Hz : 0 ≤ last_sequence).
  { unfold last_sequence. destruct (latest_change_set d lease) as [x|] eqn:E; [|done].
    apply latest_Some in E as (Hm & [k Hk] & _). bools. destruct (recorded_valid _ _ (recorded_row _ _ Hk Hm)). lia. }
  destruct (cs_sequence <$> change_sets_of d lease) as [|s l] eqn:E.
  - destruct (Z.le_gt_cases 1 last_sequence); [|lia]. assert (last_sequence ∈ []) by (rewrite Hin; lia). set_solver.
  - destruct (foldr_max_spec s l) as [H1 H2]. apply Hin in H1. apply Z.le_antisymm; [lia|].
    apply H2, Hin. lia.
Qed.
End change_sets.

(** What a save of new content does. *)
Definition appended (d : workspace_db) (c : CanonicalChangeSet) (next : Z) (out : result CanonicalChangeSet * workspace_db) : Prop :=
  if (cs_sequence c =? next) && is_none (canonical_change_sets d !! cs_id c) && change_set_check d c
  then out = (Ok c, set_change_sets (<[cs_id c := c]> (canonical_change_sets d)) d)
  else ∃ e, out = (Err e, d).
Lemma append_change_set d c :
  workspace_inv d → let next := last_sequence d (cs_lease_id c) + 1 in
  appended d c next (atomically (guard (cs_sequence c =? next) WorkspaceStateConflict "canonical change set sequence changed" ;;;
                                 sql_insert (cs_id c) c ;;; ret c) d).
Proof.
  intros Hi next. unfold appended. destruct (cs_sequence c =? next) eqn:Es; [|by eexists]. bools. cbn [andb].
  unfold guard, atomically. rewrite bind_ret. unfold bind, sql_insert. cbn.
  destruct (canonical_change_sets d !! cs_id c) as [x|] eqn:Hx; [by eexists|]. cbn [is_none andb].
  destruct (change_set_check d c); [|by eexists]. rewrite (proj2 (unique_ok_spec (canonical_change_sets d) (cs_id c) c)); [done|].
  intros k r Hk _. cbn. unfold change_set_conflict. apply andb_false_iff.
  destruct (decide (cs_lease_id c = cs_lease_id r)) as [El|Hne]; [right|left; by apply bool_decide_eq_false].
  apply Z.eqb_neq. rewrite Es. unfold next. pose proof (last_sequence_spec d Hi (cs_lease_id c) (cs_sequence r)) as [Hle _].
  specialize (Hle (ex_intro _ r (recorded_row d Hi _ _ _ Hk (eq_sym El)))). lia.
Qed.

(** The change sets of a lease are numbered from 1 without gaps or repetitions, consecutive ones
    differ in content, and next_change_set_sequence is the number after the last.  Saving the
    content of the latest one again returns it and stores nothing; other content is stored exactly
    when it carries the next number, an unused identifier and the binding of the lease and its
    restore point, and every refusal stores nothing. *)
Theorem change_sets_numbered d lease :
  reachable d →
  ∃ n, next_change_set_sequence lease d = (Ok (n + 1), d) ∧
    (∀ k, 1 ≤ k ≤ n ↔ ∃ c, recorded d lease k c) ∧
    (∀ k c c', recorded d lease k c → recorded d lease k c' → c' = c) ∧
    (∀ k c c', recorded d lease k c → recorded d lease (k + 1) c' → change_set_hash c ≠ change_set_hash c') ∧
    (∀ c, cs_lease_id c = lease →
       match latest_change_set d lease with
       | Some x =>
           if bool_decide (change_set_hash x = change_set_hash c) then save_canonical_change_set c d = (Ok x, d)
           else appended d c (n + 1) (save_canonical_change_set c d)
       | None => appended d c (n + 1) (save_canonical_change_set c d)
       end).
Proof.
  intros Hi%reachable_inv. exists (last_sequence d lease). split_and!.
  - by apply next_sequence.
  - intros k. symmetry. by apply last_sequence_spec.
  - by apply recorded_one.
  - intros k c c' Hc Hc'. destruct (recorded_previous d Hi _ _ _ Hc') as [E|(x & Hx & Hh)].
    + destruct (recorded_valid d Hi _ _ _ Hc). lia.
    + rewrite Z.add_simpl_r in Hx. by rewrite (recorded_one d Hi _ _ _ _ Hx Hc).
  - intros c <-. pose proof (append_change_set d c Hi) as Ha. cbv zeta in Ha. unfold save_canonical_change_set. revert Ha.
    unfold last_sequence, atomically. rewrite bind_get_state. destruct (latest_change_set d (cs_lease_id c)) as [x|] eqn:Ex; [|done].
    intros Ha. cbv zeta. case_bool_decide; [|done].
    apply latest_Some in Ex as (Hm & [k Hk] & _). bools.
    destruct (recorded_valid d Hi _ _ _ (recorded_row d Hi _ _ _ Hk Hm)) as [Hv _]. unfold validated. by rewrite Hv.
Qed.

(** ** Governed decisions *)

Lemma select_decision_row d i x : select_decision d i = Some x → apply_decisions d !! i = Some (ad_row x).
Proof.
  unfold select_decision, joined_decision. destruct (apply_decisions d !! i) as [a|]; [|done]. cbn.
  destruct (decision_now d (ad_id a)); [|done]. by intros [= <-].
Qed.
(** A save that returns either found the decision or inserted it with its first state. *)
Lemma save_decision_Ok a d d' :
  ad_decision_request_id (ad_row a) ≠ None → save_apply_decision a d = (Ok tt, d') →
  (d' = d ∧ ∃ x, select_decision d (ad_id (ad_row a)) = Some x ∧ ad_row x = ad_row a) ∨
  decision_check d (ad_row a) = true ∧
  ∃ d1, sql_insert (ad_id (ad_row a)) (ad_row a) d = (Ok tt, d1) ∧
    sql_insert (ad_id (ad_row a), 1) (mkDecisionState (ad_id (ad_row a)) 1 A_PENDING None (ad_created_at (ad_row a))) d1 = (Ok tt, d').
Proof.
  intros Hq E. unfold save_apply_decision in E. apply atomically_Ok_inv in E. rewrite bind_get_state in E. cbv zeta in E.
  destruct (select_decision d (ad_id (ad_row a))) as [x|] eqn:Hx, (ad_decision_request_id (ad_row a)) as [q|]; try done.
  - left. apply bind_Ok_inv in E as (y & s & Ey & E). unfold validated in Ey.
    apply bind_Ok_inv in Ey as (? & ? & [_ ->]%guard_Ok_inv & [-> ->]%ret_Ok_inv).
    apply guard_Ok_inv in E as [E ->]. bools. eauto.
  - right. apply bind_Ok_inv in E as (? & s & [_ ->]%guard_Ok_inv & E).
    apply bind_Ok_inv in E as (? & s & Ei & E). destruct (authority_issued d _); [done|]. apply ret_Ok_inv in Ei as [_ ->].
    apply bind_Ok_inv in E as ([] & d1 & E1 & E2). unfold try_except in E1.
    destruct (insert_apply_decision (ad_row a) d) as [[[]|e] d2] eqn:Ein;
      [|destruct (subclass _ _); [destruct (contains _ _)|]; done].
    injection E1 as <-. unfold insert_apply_decision in Ein. rewrite bind_get_state in Ein.
    apply bind_Ok_inv in Ein as (? & s & [_ ->]%guard_Ok_inv & Ein).
    pose proof (sql_insert_Ok_inv _ _ _ _ _ Ein) as (_ & Hc & _ & _). split; [exact Hc|]. by exists d2.
Qed.

(** A stored decision loads, and saving it again changes nothing. *)
Lemma select_decision_valid d i x : workspace_inv d → select_decision d i = Some x → apply_decision_valid x = true.
Proof.
  intros Hi Hx. pose proof (select_decision_row _ _ _ Hx) as Ha. destruct (decisions_ok d Hi _ _ Ha) as [E [Hv _]].
  unfold select_decision in Hx. rewrite Ha in Hx. cbn in Hx. unfold joined_decision in Hx. rewrite E in Hx.
  destruct (decision_now d i) as [s|] eqn:Hs; [|done]. cbn in Hx. injection Hx as <-.
  destruct (decision_now_Some d Hi _ _ Hs) as [_ Hk]. destruct (decision_states_ok d Hi _ _ Hk) as [_ [_ Hg]].
  unfold apply_decision_valid. cbn in *. rewrite Hv. apply Z.leb_le. destruct Hg as [[-> _]|[-> _]]; lia.
Qed.
Lemma resave d a x :
  workspace_inv d → ad_decision_request_id (ad_row a) ≠ None → select_decision d (ad_id (ad_row a)) = Some x →
  ad_row x = ad_row a → save_apply_decision a d = (Ok tt, d).
Proof.
  intros Hi Hq Hx E. unfold save_apply_decision, atomically. rewrite bind_get_state, Hx. cbv zeta.
  destruct (ad_decision_request_id (ad_row a)); [|done]. unfold validated. rewrite (select_decision_valid d _ _ Hi Hx).
  change (guard true ValueError "validation error") with (ret (S := workspace_db) tt). unfold bind, ret. rewrite E.
  by rewrite bool_decide_eq_true_2.
Qed.
Lemma inserted_decision d a d1 d' t :
  workspace_inv d → workspace_inv d' → sql_insert (ad_id a) a d = (Ok tt, d1) →
  sql_insert (ad_id a, 1) (mkDecisionState (ad_id a) 1 A_PENDING None t) d1 = (Ok tt, d') →
  select_decision d' (ad_id a) = Some (mkApplyDecision a A_PENDING 1).
Proof.
  intros Hi Hi' (Hn & _ & _ & ->)%sql_insert_Ok_inv (_ & _ & _ & ->)%sql_insert_Ok_inv.
  cbn in Hn, Hi' |- *. set (d' := set_decision_states _ _) in *.
  assert (Hnow : decision_now d' (ad_id a) = Some (mkDecisionState (ad_id a) 1 A_PENDING None t)).
  { apply (decision_now_is d' Hi' _ 1); [apply lookup_insert_eq|]. intros v x. cbn.
    rewrite lookup_insert_Some. intros [[[= <-] _]|[_ Hx]]; [lia|].
    destruct (decision_states_ok d Hi _ _ Hx) as [[= E _] [[y Hy] _]]. congruence. }
  unfold select_decision, joined_decision. cbn [apply_decisions d' set_decision_states set_decisions].
  rewrite lookup_insert_eq. cbn [mbind option_bind]. by rewrite Hnow.
Qed.

(** C15. Applying needs the approval it was given: when an apply decision that projects a
    decision request is saved, either the same decision was stored already and nothing
    changes, or the request is a governed apply resolved with approve in the decision
    tables, and the decision is stored as pending; saving it again then changes nothing. *)
Theorem governed_apply_approved d a q d' :
  reachable d → apply_decision_valid a = true → ad_decision_request_id (ad_row a) = Some q →
  save_apply_decision a d = (Ok tt, d') →
  ad_id (ad_row a) = q ∧
  (d' = d ∨ approved (wd_main d) q = true ∧ get_apply_decision q d' = (Ok (Some (mkApplyDecision (ad_row a) A_PENDING 1)), d')) ∧
  apply_decisions d' !! q = Some (ad_row a) ∧ save_apply_decision a d' = (Ok tt, d').
Proof.
  intros Hr Ha Hq Hs. pose proof (reachable_inv _ Hr) as Hi. pose proof (step_decision d a Ha) as St.
  rewrite Hs in St. cbn in St. assert (Hi' : workspace_inv d') by (eapply rtc_wrote_inv; [by apply step_writes|done]).
  assert (Eq : ad_id (ad_row a) = q).
  { unfold apply_decision_valid, decision_columns_valid in Ha. rewrite Hq in Ha. bools. done. }
  split; [done|]. assert (Hn : ad_decision_request_id (ad_row a) ≠ None) by (by rewrite Hq).
  enough (Hx : ∃ x, select_decision d' q = Some x ∧ ad_row x = ad_row a ∧
    (d' = d ∨ approved (wd_main d) q = true ∧ x = mkApplyDecision (ad_row a) A_PENDING 1)).
  { destruct Hx as (x & Hx & Ex & Hc). split; [|split].
    - destruct Hc as [->|[Hap ->]]; [by left|right]. split; [done|]. unfold get_apply_decision. rewrite bind_get_state, Hx.
      cbn. unfold validated. by rewrite (select_decision_valid d' q _ Hi' Hx).
    - rewrite <-Ex. by apply select_decision_row.
    - apply (resave d' a x); [done|done|by rewrite Eq|done]. }
  destruct (save_decision_Ok a d d' Hn Hs) as [(-> & x & Hx & Ex)|(Hc & d1 & H1 & H2)].
  - rewrite Eq in Hx. exists x. auto.
  - exists (mkApplyDecision (ad_row a) A_PENDING 1). split; [rewrite <-Eq; eapply (inserted_decision d _ d1 d'); [exact Hi|exact Hi'|exact H1|exact H2]|].
    split; [done|right]. split; [|done]. unfold decision_check, projection_ok in Hc. rewrite Hq in Hc. bools. done.
Qed.

(** ** A workspace from its lease to its receipt *)

Module WorkspaceSample.
Definition oid : string := String.string_of_list_ascii (replicate 40 (chr 49)).
Definition digest (c : nat) : string := String.string_of_list_ascii (replicate 64 (chr c)).

Definition request : decision_row :=
  mkDecisionRow (mkDecision "q1" K_GOVERNED_APPLY "e1" "m1" "apply" [] (digest 48) "owner" 900 RESOLVED 2 100 200) None.
Definition resolution : DecisionResolutionV1 := mkResolution "q1" "approve" "ok" [] "owner" "Owner" 200.
Definition main : db :=
  set_decision_resolutions {["q1" := resolution]} (set_decision_requests {["q1" := request]} empty_db).

Definition lease : lease_columns :=
  mkLeaseColumns "l1" "r1" "r1" None 0 K_GIT GOVERNED (Some "/src") (Some "repo") (Some "/src/.git") (Some (digest 97))
    (Some oid) "/stage" 10.
Definition point : RestorePoint :=
  mkRestorePoint "p1" "l1" "repo" "/src" "/src/.git" (digest 97) oid oid None oid (digest 98) 10.
Definition staging : WorkspaceStagingIdentity := mkStaging "l1" "/stage" "/stage/.git" (digest 99) "repo" oid 20.
Definition changes (n : Z) (size : Z) : CanonicalChangeSet :=
  mkChangeSet (if n =? 1 then "c1" else "c2") "l1" "p1" "repo" oid n
    [mkChange C_ADD (mkSide None None None None) (mkSide (Some "a/b.txt") (Some oid) (Some "100644") (Some size)) false] 40.
Definition columns : decision_columns :=
  mkDecisionColumns "q1" (Some "q1") "r1" "l1" "p1" (point_hash point) "c1" (change_set_hash (changes 1 7)) "repo" "/src"
    (digest 97) oid oid None oid (digest 98) "/stage" (digest 99) (digest 100) "looks right" (digest 101) (digest 102) 500 300.
Definition decision : ApplyDecision := mkApplyDecision columns A_PENDING 1.
Definition receipt : ApplyReceipt :=
  mkReceipt "x1" "q1" (digest 101) "l1" "c1" (change_set_hash (changes 1 7)) O_SUCCEEDED "applied" oid (digest 98) oid
    (digest 98) R_NOT_REQUIRED None [] 420.

Definition d0 : workspace_db := no_workspaces main.
Definition d1 : workspace_db := (create_workspace_foundation (mkLease lease None None L_STARTING 1) (Some point) d0).2.
Definition d2 : workspace_db := (save_workspace_staging_identity staging d1).2.
Definition d3 : workspace_db := (transition_workspace_lease "l1" 1 L_STARTING L_ACTIVE 30 None d2).2.
Definition d4 : workspace_db := (save_canonical_change_set (changes 1 7) d3).2.
Definition d5 : workspace_db := (save_apply_decision decision d4).2.
Definition d6 : workspace_db := (transition_apply_decision "q1" 1 A_CONSUMED 400 (Some "x1") d5).2.
Definition d7 : workspace_db := (save_apply_receipt receipt d6).2.

Lemma reachable_d3 : reachable d3.
Proof.
  exists main. eapply rtc_l; [by apply (step_create d0 (mkLease lease None None L_STARTING 1) (Some point)); vm_compute|].
  eapply rtc_l; [by apply (step_staging _ staging); vm_compute|]. apply rtc_once, step_lease.
Qed.
Lemma reachable_d4 : reachable d4.
Proof.
  destruct reachable_d3 as [m Hm]. exists m. etransitivity; [exact Hm|].
  apply rtc_once. by apply (step_change_set _ (changes 1 7)); vm_compute.
Qed.
Lemma decision_ok : apply_decision_valid decision = true.
Proof. by vm_compute. Qed.
Lemma reachable_d5 : reachable d5.
Proof. destruct reachable_d4 as [m Hm]. exists m. etransitivity; [exact Hm|]. apply rtc_once, step_decision, decision_ok. Qed.
Lemma later_d7 : rtc workspace_step d5 d7.
Proof. eapply rtc_l; [apply step_transition|]. apply rtc_once. by apply (step_receipt _ receipt); vm_compute. Qed.

Example sample_applied :
  get_apply_receipt_for_decision "q1" d7 = (Ok (Some receipt), d7) ∧
  get_apply_decision "q1" d7 = (Ok (Some (mkApplyDecision columns A_CONSUMED 2)), d7).
Proof. vm_compute. done. Qed.
End WorkspaceSample.

Lemma apply_once_witness :
  apply_decisions WorkspaceSample.d7 !! "q1" = Some WorkspaceSample.columns ∧
  ∀ k r, apply_receipts WorkspaceSample.d7 !! k = Some r → ar_lease_id r = "l1" → ar_decision_id r = "q1".
Proof.
  destruct (apply_once WorkspaceSample.d5 WorkspaceSample.d7 "q1" WorkspaceSample.columns) as (H1 & _ & _ & _ & H2);
    [exact WorkspaceSample.reachable_d5|vm_compute; reflexivity|exact WorkspaceSample.later_d7|].
  split; [exact H1|]. intros k r Hk Hl. exact (proj1 (H2 k r Hk Hl)).
Defined.
Lemma transition_apply_exact_witness :
  ∃ a, transition_apply_decision "q1" 1 A_CONSUMED 400 (Some "x1") WorkspaceSample.d5 =
    (Ok (mkApplyDecision a A_CONSUMED 2), settled_db WorkspaceSample.d5 "q1" 1 A_CONSUMED 400 (Some "x1")).
Proof.
  pose proof (transition_apply_exact WorkspaceSample.d5 "q1" 1 A_CONSUMED 400 (Some "x1") WorkspaceSample.reachable_d5) as H.
  cbv beta iota in H. replace (may_settle _ _ _ _ _ _) with true in H by (vm_compute; reflexivity).
  destruct H as (a & _ & H). exists a. exact H.
Defined.
Lemma lease_transition_exact_witness :
  ∃ c g, (transition_workspace_lease "l1" 2 L_ACTIVE L_CLOSING 50 None WorkspaceSample.d3).1 =
    Ok (mkLease c (sg_git_dir <$> g) (sg_git_dir_identity <$> g) L_CLOSING 3).
Proof.
  pose proof (lease_transition_exact WorkspaceSample.d3 "l1" 2 L_ACTIVE L_CLOSING 50 None WorkspaceSample.reachable_d3) as H.
  replace (may_transition _ _ _ _ _) with true in H by (vm_compute; reflexivity).
  destruct H as (c & _ & H). exists c. eexists. rewrite H. reflexivity.
Defined.
Lemma lease_history_witness :
  workspace_lease_states WorkspaceSample.d5 ⊆ workspace_lease_states WorkspaceSample.d7.
Proof.
  destruct (lease_history WorkspaceSample.d5 WorkspaceSample.d7 "l1" (mkLeaseState "l1" 2 L_ACTIVE None 30)) as (_ & _ & _ & H & _);
    [exact WorkspaceSample.reachable_d5|vm_compute; reflexivity|exact WorkspaceSample.later_d7|exact H].
Defined.
Lemma open_leases_listed_witness : ∃ l, list_open_workspace_leases WorkspaceSample.d3 = (Ok l, WorkspaceSample.d3).
Proof. destruct (open_leases_listed WorkspaceSample.d3 WorkspaceSample.reachable_d3) as (l & H & _). exists l. exact H. Defined.
Lemma foundation_reads_back_witness :
  get_restore_point_for_lease "l1" WorkspaceSample.d1 = (Ok (Some WorkspaceSample.point), WorkspaceSample.d1).
Proof.
  pose proof (foundation_reads_back WorkspaceSample.d0 (mkLease WorkspaceSample.lease None None L_STARTING 1)
    (Some WorkspaceSample.point)) as H. unfold WorkspaceSample.d1. destruct (create_workspace_foundation _ _ _) as [[[]|e] d'] eqn:E.
  - apply H; [exists WorkspaceSample.main; apply rtc_refl|vm_compute; reflexivity..].
  - exfalso. apply (f_equal (λ o, bool_decide (o.1 = Ok tt))) in E. vm_compute in E. discriminate E.
Defined.
Lemma change_sets_numbered_witness : ∃ n, next_change_set_sequence "l1" WorkspaceSample.d4 = (Ok (n + 1), WorkspaceSample.d4).
Proof.
  destruct (change_sets_numbered WorkspaceSample.d4 "l1" WorkspaceSample.reachable_d4) as (n & H & _). exists n. exact H.
Defined.
Lemma governed_apply_approved_witness :
  apply_decisions WorkspaceSample.d5 !! "q1" = Some WorkspaceSample.columns ∧
  save_apply_decision WorkspaceSample.decision WorkspaceSample.d5 = (Ok tt, WorkspaceSample.d5).
Proof.
  assert (E : save_apply_decision WorkspaceSample.decision WorkspaceSample.d4 = (Ok tt, WorkspaceSample.d5)).
  { assert (F : (save_apply_decision WorkspaceSample.decision WorkspaceSample.d4).1 = Ok tt) by (vm_compute; reflexivity).
    unfold WorkspaceSample.d5. rewrite <-F. apply surjective_pairing. }
  destruct (governed_apply_approved WorkspaceSample.d4 WorkspaceSample.decision "q1" WorkspaceSample.d5) as (_ & _ & H);
    [exact WorkspaceSample.reachable_d4|exact WorkspaceSample.decision_ok|reflexivity|exact E|exact H].
Defined.
