(* ===== verification/ToolPolicy.v ===== *)
(** * Tool policy

    Models the decision made before every tool call: the engine of
    src/src/tianshu/tools/policy.py, the built-in rules of tools/policy_rules/,
    the persona lists of persona/match.py, and the network policies of
    tools/hongluisi/policy.py and tools/policy_profile.py.

    A rule is a function of the call that abstains, decides or raises, together
    with the time it takes and the intervals in which it waits: [asyncio.wait_for]
    can stop a coroutine only while it is suspended, so a timeout that passes
    while a rule computes takes effect at its next wait, or not at all.  None of
    the built-in rules awaits anything.
    Arguments of the model: [resolve], what a path resolves to in the file
    system; [url_hostname], the host that [urllib.parse.urlparse] finds in a
    URL; [repr], Python's quoted form of a text. *)

From stdpp Require Import pretty.
From Stdlib Require Import Sorted.
From S2P Require Import Prelude.
From S2P Require Import Sql.
From S2P Require Import Canonical.
From S2P Require Import PyText.
From S2P Require Import BashAnalysis.
From S2P Require Import PathUtils.

(** ** Tiers, edicts, personas *)

(** [ToolTier] (tools/types.py) *)
Inductive ToolTier := T0_READONLY | T1_WORKSPACE | T2_NETWORK | T3_WRITE | T4_DANGEROUS.
#[export] Instance ToolTier_eq_dec : EqDecision ToolTier.
Proof. solve_decision. Defined.
Definition tier_value (t : ToolTier) : Z :=
  match t with T0_READONLY => 0 | T1_WORKSPACE => 1 | T2_NETWORK => 2 | T3_WRITE => 3 | T4_DANGEROUS => 4 end.
Definition tier_name (t : ToolTier) : string :=
  match t with
  | T0_READONLY => "T0_READONLY" | T1_WORKSPACE => "T1_WORKSPACE" | T2_NETWORK => "T2_NETWORK"
  | T3_WRITE => "T3_WRITE" | T4_DANGEROUS => "T4_DANGEROUS"
  end.
(** [ToolTier(n)]; [None] for its [ValueError] *)
Definition tier_of (n : Z) : option ToolTier :=
  match n with
  | 0 => Some T0_READONLY | 1 => Some T1_WORKSPACE | 2 => Some T2_NETWORK | 3 => Some T3_WRITE
  | 4 => Some T4_DANGEROUS | _ => None
  end.
Definition tier_le (a b : ToolTier) : bool := tier_value a <=? tier_value b.

(** [PolicyProfilePayload] (models/edict.py); its [tier_overrides] are
    [profile_tier_overrides], apart from those of the runtime. *)
Record PolicyProfilePayload := mkProfile {
  allowed_paths : list string;
  allowed_bash_prefixes : list string;
  profile_tier_overrides : dict Z;
  auto_approve_max_tier : Z;
  expires_after_seconds : option Z;
  template_name : option string;
}.
(** The fields of [EdictRuntime] that the rules read. *)
Record EdictRuntime := mkRuntime {
  approval_required_tools : list string;
  policy_profile : option PolicyProfilePayload;
  tier_overrides : dict Z;
  api_request_hosts : list string;
  api_request_write_hosts : list string;
}.
Record Edict := mkEdict { edict_id : string; runtime : EdictRuntime }.

(** The fields of [AgentPersona] that the rules read. *)
Record AgentPersona := mkPersona {
  persona_id : string;
  tools_allowed : list string;
  tools_denied : list string;
  tool_tier_max : Z;
}.

Record PolicyContext := mkContext {
  tool_name : string;
  tool_tier : ToolTier;
  args : list (string * json);
  edict : Edict;
  workspace_root : path;
  iteration : Z;
}.

Inductive verdict := Allow | Deny | RequireApproval.
#[export] Instance verdict_eq_dec : EqDecision verdict.
Proof. solve_decision. Defined.
Record PolicyDecision := mkDecision {
  pd_verdict : verdict;
  pd_rule_id : string;
  pd_reason : string;
  pd_metadata : list (string * json);
}.

(** ** The engine (tools/policy.py) *)

(** Microseconds. *)
Definition POLICY_RULE_TIMEOUT : Z := 1000000.
Definition POLICY_ENGINE_TIMEOUT : Z := 3000000.

(** [rule_time] is how long [evaluate] takes when nothing stops it, and
    [rule_waits] are the intervals, from its start, in which it is suspended, in
    order.  A rule does not catch the cancellation that stops it. *)
Record PolicyRule := mkRule {
  rule_id : string;
  priority : Z;
  evaluate_rule : PolicyContext → result (option PolicyDecision);
  rule_time : PolicyContext → Z;
  rule_waits : PolicyContext → list (Z * Z);
}.

(** [PolicyEngine.__init__]: highest priority first, and in the given order
    among equals ([sorted] with [reverse=True] is stable). *)
Definition make_engine (rules : list PolicyRule) : list PolicyRule :=
  order_by (λ a b, - priority a <=? - priority b) rules.

Definition default_decision : PolicyDecision := mkDecision Allow "default" "all rules abstained" [].

(** [except Exception] does not catch a cancellation. *)
Definition cancelled (e : exn) : bool := bool_decide (exn_kind e = CancelledError).

(** When a timeout stops a coroutine that waits in the given intervals: in the
    first wait that is not over before the deadline. *)
Fixpoint stop_at (deadline : Z) (waits : list (Z * Z)) : option Z :=
  match waits with
  | [] => None
  | (a, b) :: rest => if deadline <=? b then Some (Z.max a deadline) else stop_at deadline rest
  end.
(** How [asyncio.wait_for(rule.evaluate(ctx), ...)] ends, [now] after the start of
    the engine: the rule is not stopped, it is stopped by its own timeout, or the
    timeout of the engine stops the whole run; that one wins when both are due. *)
Inductive rule_end := Finished | RuleTimeout (t : Z) | EngineTimeout.
Definition run_rule (now : Z) (rule : PolicyRule) (ctx : PolicyContext) : rule_end :=
  match stop_at (POLICY_ENGINE_TIMEOUT - now) (rule_waits rule ctx), stop_at POLICY_RULE_TIMEOUT (rule_waits rule ctx) with
  | None, None => Finished
  | None, Some t => RuleTimeout t
  | Some _, None => EngineTimeout
  | Some t', Some t => if t' <=? t then EngineTimeout else RuleTimeout t
  end.

(** [_evaluate_inner], [now] after the start of the engine; [None] when the
    timeout of the engine stops it. *)
Fixpoint evaluate_inner (rules : list PolicyRule) (ctx : PolicyContext) (now : Z) (last_allow : option PolicyDecision) :
    option (result PolicyDecision) :=
  match rules with
  | [] => Some (Ok (default default_decision last_allow))
  | rule :: rest =>
      match run_rule now rule ctx with
      | EngineTimeout => None
      | RuleTimeout t => evaluate_inner rest ctx (now + t) last_allow
      | Finished =>
          let now' := now + rule_time rule ctx in
          match evaluate_rule rule ctx with
          | Err e => if cancelled e then Some (Err e) else evaluate_inner rest ctx now' last_allow
          | Ok None => evaluate_inner rest ctx now' last_allow
          | Ok (Some decision) =>
              match pd_verdict decision with
              | Deny | RequireApproval => Some (Ok decision)
              | Allow => evaluate_inner rest ctx now' (Some decision)
              end
          end
      end
  end.

Section engine.
(** [f"{type(e).__name__}: {e}"] *)
Context (describe : exn → string).

Definition evaluate (engine : list PolicyRule) (ctx : PolicyContext) : result PolicyDecision :=
  match evaluate_inner engine ctx 0 None with
  | None => Ok (mkDecision Deny "engine_timeout" "PolicyEngine exceeded 3.0s timeout" [])
  | Some (Ok d) => Ok d
  | Some (Err e) => if cancelled e then Err e
                    else Ok (mkDecision Deny "engine_error" ("PolicyEngine failed: " +:+ describe e) [])
  end.
End engine.

(** ** Persona lists (persona/match.py) *)

Definition matches_any (patterns : list string) (name : string) : bool :=
  existsb (λ pat, fnmatchcase (u name) (u pat)) patterns.

Inductive clause := Denied | NotAllowed | TierExceeded.
#[export] Instance clause_eq_dec : EqDecision clause.
Proof. solve_decision. Defined.
Definition clause_text (c : clause) : string :=
  match c with Denied => "denied" | NotAllowed => "not_allowed" | TierExceeded => "tier_exceeded" end.

Definition persona_tool_verdict (persona : AgentPersona) (name : string) (tier : Z) : option clause :=
  if matches_any (tools_denied persona) name then Some Denied
  else match tools_allowed persona with
       | [] => if tier <=? tool_tier_max persona then None else Some TierExceeded
       | l => if matches_any l name then None else Some NotAllowed
       end.
Definition persona_can_use (persona : AgentPersona) (name : string) (tier : Z) : bool :=
  is_none (persona_tool_verdict persona name tier).

(** ** Network policies *)

(** [NetworkPolicy] (tools/hongluisi/policy.py) *)
Record NetworkPolicy := mkNetwork {
  fetch_engines : list string;
  fallback_mode : string;
  search_provider : option string;
  max_fallback_depth : Z;
  web_fetch_rate_per_min : Z;
  web_search_rate_per_min : Z;
  allow_api_request : bool;
  api_request_methods : list string;
  api_request_rate_per_min : Z;
  web_extract_rate_per_min : Z;
}.
Definition NETWORK_OFFLINE : NetworkPolicy := mkNetwork [] "none" None 3 20 10 false [] 30 10.
Definition NETWORK_DEFAULT : NetworkPolicy :=
  mkNetwork ["scrapling"; "local"] "on_error_or_empty" (Some "duckduckgo") 3 20 10 false [] 30 10.
Definition NETWORK_RESEARCH : NetworkPolicy :=
  mkNetwork ["scrapling"; "local"; "jina"; "firecrawl"] "on_error_or_empty" (Some "duckduckgo") 3 20 10 true
    ["GET"; "HEAD"] 30 10.

(** [PolicyProfile] and [BUILTIN_TEMPLATES] (tools/policy_profile.py) *)
Record PolicyProfile := mkTemplate { pp_payload : PolicyProfilePayload; network : NetworkPolicy }.
Definition BUILTIN_TEMPLATES : dict PolicyProfile :=
  [("safe-explore", mkTemplate (mkProfile [] [] [] 0 None (Some "safe-explore")) NETWORK_OFFLINE);
   ("refactor-in-place",
    mkTemplate (mkProfile ["**/*"] ["git status"; "git diff"] [] 1 None (Some "refactor-in-place")) NETWORK_DEFAULT);
   ("trusted-automation",
    mkTemplate (mkProfile ["**/*"] ["git "; "pytest"; "ruff"; "black"; "mypy"] [] 3 None (Some "trusted-automation"))
      NETWORK_RESEARCH)].

(** [_system_engine_overrides] *)
Record engine_overrides := mkOverrides {
  ov_fetch_chain : list string;
  ov_search_provider : option string;
  ov_fallback_mode : option string;
}.
(** [set_system_engine_overrides]; an empty text clears a field. *)
Definition or_none (s : string) : option string := if bool_decide (s = "") then None else Some s.
Definition set_system_engine_overrides (fetch_chain : option (list string)) (search fallback : option string)
    (o : engine_overrides) : engine_overrides :=
  mkOverrides (default (ov_fetch_chain o) fetch_chain)
    (match search with Some s => or_none s | None => ov_search_provider o end)
    (match fallback with Some s => or_none s | None => ov_fallback_mode o end).

Definition resolve_network_for_edict (overrides : engine_overrides) (e : Edict) : NetworkPolicy :=
  let tmpl_name := match policy_profile (runtime e) with Some p => template_name p | None => None end in
  let fallback := match dict_get BUILTIN_TEMPLATES "refactor-in-place" with
                  | Some t => network t
                  | None => mkNetwork ["local"] "none" None 3 20 10 false ["GET"; "HEAD"] 30 10
                  end in
  let base := match tmpl_name with
              | Some n => match dict_get BUILTIN_TEMPLATES n with Some t => network t | None => fallback end
              | None => fallback
              end in
  mkNetwork (match ov_fetch_chain overrides with [] => fetch_engines base | l => l end)
    (default (fallback_mode base) (ov_fallback_mode overrides))
    (match ov_search_provider overrides with Some s => Some s | None => search_provider base end)
    (max_fallback_depth base) (web_fetch_rate_per_min base) (web_search_rate_per_min base)
    (allow_api_request base) (api_request_methods base) (api_request_rate_per_min base) (web_extract_rate_per_min base).

(** ** The built-in rules (tools/policy_rules/) *)

(** [ctx.args.get(k)] *)
Definition arg (ctx : PolicyContext) (k : string) : option json := obj_get (args ctx) k.
(** [ctx.args.get(k) or d] *)
Definition arg_or (ctx : PolicyContext) (k : string) (d : json) : json :=
  match arg ctx k with Some v => if truthy v then v else d | None => d end.
Definition no_attribute {A} (name : string) : result A :=
  Err (Exn AttributeError ("object has no attribute '" +:+ name +:+ "'")).

(** *** ApprovalRequiredListRule *)
Definition approval_required_list (ctx : PolicyContext) : result (option PolicyDecision) :=
  if bool_decide (tool_name ctx ∈ approval_required_tools (runtime (edict ctx))) then
    Ok (Some (mkDecision RequireApproval "approval_required_list"
      "tool listed in edict.runtime.approval_required_tools" []))
  else Ok None.

(** *** TierEscalationRule *)
Definition tier_escalation (ctx : PolicyContext) : result (option PolicyDecision) :=
  match dict_get (tier_overrides (runtime (edict ctx))) (tool_name ctx) with
  | None => Ok None
  | Some override_val =>
      match tier_of override_val with
      | None => Ok None
      | Some override_tier =>
          if tier_le override_tier (tool_tier ctx) then Ok None
          else Ok (Some (mkDecision RequireApproval "tier_escalation"
            ("tier escalated from " +:+ tier_name (tool_tier ctx) +:+ " to " +:+ tier_name override_tier +:+
             " via edict.runtime.tier_overrides")
            [("original_tier", JStr (tier_name (tool_tier ctx))); ("escalated_tier", JStr (tier_name override_tier))]))
      end
  end.

(** *** DefaultTierRule *)
Definition default_tier (ctx : PolicyContext) : result (option PolicyDecision) :=
  let max_auto := match policy_profile (runtime (edict ctx)) with
                  | Some p => tier_of (auto_approve_max_tier p)
                  | None => None
                  end in
  let by_tier :=
    match tool_tier ctx with
    | T4_DANGEROUS => mkDecision RequireApproval "default_tier" "T4_DANGEROUS tool requires approval by default" []
    | T3_WRITE => mkDecision RequireApproval "default_tier" "T3_WRITE tool requires approval by default" []
    | t => mkDecision Allow "default_tier" ("tier " +:+ tier_name t +:+ " is safe by default") []
    end in
  match max_auto with
  | Some m =>
      if tier_le (tool_tier ctx) m then
        Ok (Some (mkDecision Allow "default_tier"
          ("tier " +:+ tier_name (tool_tier ctx) +:+ " <= profile.auto_approve_max_tier " +:+ tier_name m) []))
      else Ok (Some by_tier)
  | None => Ok (Some by_tier)
  end.

Section rules.
Context (persona : option AgentPersona) (overrides : engine_overrides).
Context (resolve : path → result path) (url_hostname : string → result (option string)) (repr : string → string).

(** *** PersonaToolAclRule and PersonaTierRule; [persona] is the ambient one. *)
Definition persona_meta (p : AgentPersona) (c : clause) : list (string * json) :=
  [("persona_id", JStr (persona_id p)); ("clause", JStr (clause_text c)); ("tool_tier_max", JInt (tool_tier_max p))].
(** [_clause] *)
Definition persona_clause (ctx : PolicyContext) : option (AgentPersona * clause) :=
  match persona with
  | None => None
  | Some p => pair p <$> persona_tool_verdict p (tool_name ctx) (tier_value (tool_tier ctx))
  end.
Definition persona_tool_acl (ctx : PolicyContext) : result (option PolicyDecision) :=
  match persona_clause ctx with
  | Some (p, Denied) =>
      Ok (Some (mkDecision Deny "persona_tool_acl"
        ("工具 " +:+ tool_name ctx +:+ " 在官员 " +:+ persona_id p +:+ " 的 tools_denied 名单中") (persona_meta p Denied)))
  | Some (p, NotAllowed) =>
      Ok (Some (mkDecision Deny "persona_tool_acl"
        ("工具 " +:+ tool_name ctx +:+ " 不在官员 " +:+ persona_id p +:+ " 的 tools_allowed 名单中")
        (persona_meta p NotAllowed)))
  | _ => Ok None
  end.
Definition persona_tier (ctx : PolicyContext) : result (option PolicyDecision) :=
  match persona_clause ctx with
  | Some (p, TierExceeded) =>
      Ok (Some (mkDecision RequireApproval "persona_tier"
        ("官员 " +:+ persona_id p +:+ " 职权上限 T" +:+ pretty (tool_tier_max p) +:+ "，" +:+
         "调用 " +:+ tool_name ctx +:+ "（" +:+ tier_name (tool_tier ctx) +:+ "）属越级，须奏请批准")
        (persona_meta p TierExceeded)))
  | _ => Ok None
  end.

(** *** WorkspaceBoundaryRule *)
Definition PATH_ARG_KEYS : list string := ["path"; "cwd"; "file_path"; "filename"; "dir"; "directory"].
Definition profile_globs (ctx : PolicyContext) : list ustr :=
  match policy_profile (runtime (edict ctx)) with Some p => u <$> allowed_paths p | None => [] end.
(** [_resolve] *)
Definition resolve_arg (raw : string) (workspace : path) : result path :=
  let p := parse_path (u raw) in
  let p := if is_absolute p then p else join_path workspace p in
  match resolve p with
  | Ok r => Ok r
  | Err e => if subclass (exn_kind e) OSError then Ok p else Err e
  end.
Definition boundary_meta (key : string) (resolved : path) : list (string * json) :=
  [("arg_key", JStr key); ("resolved", JStr (s_of (path_text resolved)))].
Fixpoint boundary_keys (keys : list string) (ctx : PolicyContext) (workspace : path) : result (option PolicyDecision) :=
  match keys with
  | [] => Ok None
  | key :: rest =>
      match arg ctx key with
      | Some (JStr raw) =>
          if bool_decide (raw = "") then boundary_keys rest ctx workspace
          else
            match resolve_arg raw workspace with
            | Err e => Err e
            | Ok resolved =>
                if is_sensitive_path resolved then
                  Ok (Some (mkDecision Deny "workspace_boundary"
                    ("path " +:+ repr raw +:+ " is a protected credential path") (boundary_meta key resolved)))
                else if is_relative_to resolved workspace then boundary_keys rest ctx workspace
                else if path_allowed_outside resolved (profile_globs ctx) then boundary_keys rest ctx workspace
                else
                  Ok (Some (mkDecision Deny "workspace_boundary"
                    ("path " +:+ repr raw +:+ " resolved to " +:+ s_of (path_text resolved) +:+
                     " is outside workspace " +:+ s_of (path_text workspace)) (boundary_meta key resolved)))
            end
      | _ => boundary_keys rest ctx workspace
      end
  end.
Definition workspace_boundary (ctx : PolicyContext) : result (option PolicyDecision) :=
  match resolve (workspace_root ctx) with
  | Err e => Err e
  | Ok workspace => boundary_keys PATH_ARG_KEYS ctx workspace
  end.

(** *** BashSafetyRule *)
Definition BASH_TOOL_NAMES : list string := ["shell_exec"; "bash"].
Definition BASH_DENYLIST_SUBSTRINGS : list string :=
  ["rm -rf /"; "rm -rf /*"; "mkfs"; "dd if="; "dd of=/dev"; ":(){:|:&};:"; "sudo "; "curl | sh"; "curl|sh";
   "wget | sh"; "wget|sh"; "git push --force"; "git push -f "; "chmod 777 /"; "> /dev/sda"].
(** The first needle in the first candidate that holds one. *)
Definition needle_in (candidate : ustr) : option string :=
  find (λ needle, contains (u needle) (lower candidate)) BASH_DENYLIST_SUBSTRINGS.
Fixpoint denied_candidate (candidates : list ustr) : option (string * ustr) :=
  match candidates with
  | [] => None
  | c :: rest => match needle_in c with Some n => Some (n, c) | None => denied_candidate rest end
  end.
(** [_resolve_profile_prefixes] *)
Definition profile_prefixes (ctx : PolicyContext) : list ustr :=
  match policy_profile (runtime (edict ctx)) with Some p => u <$> allowed_bash_prefixes p | None => [] end.
Definition joined (sep : string) (l : list string) : string :=
  match l with [] => "" | x :: r => foldl (λ acc s, acc +:+ sep +:+ s) x r end.
Definition bash_safety (ctx : PolicyContext) : result (option PolicyDecision) :=
  if negb (bool_decide (tool_name ctx ∈ BASH_TOOL_NAMES)) then Ok None
  else
    match arg_or ctx "command" (JStr "") with
    | JStr raw =>
        let command := strip (u raw) in
        if bool_decide (command = []) then Ok None
        else
          let analysis := analyze_command command in
          let segs := match segments analysis with [] => [command] | l => l end in
          match denied_candidate (command :: segs) with
          | Some (needle, candidate) =>
              Ok (Some (mkDecision Deny "bash_safety"
                ("command segment matched deny substring " +:+ repr needle)
                [("matched_pattern", JStr needle); ("segment", JStr (s_of (take 120 candidate)))]))
          | None =>
              if has_structural_risk analysis then
                Ok (Some (mkDecision RequireApproval "bash_safety"
                  ("bash command has structural risk (" +:+ joined ", " (structural_notes analysis) +:+ ")")
                  [("command_preview", JStr (s_of (take 200 command)));
                   ("structural_notes", JList (JStr <$> structural_notes analysis))]))
              else if bool_decide (profile_prefixes ctx ≠ []) &&
                      forallb (λ seg, existsb (λ p, startswith p seg) (profile_prefixes ctx)) segs then
                Ok (Some (mkDecision Allow "bash_safety"
                  "all command segments matched profile bash prefix allow-list"
                  [("segments", JList (JStr ∘ s_of <$> segs))]))
              else
                Ok (Some (mkDecision RequireApproval "bash_safety"
                  ("bash command requires approval: " +:+ s_of (take 80 command))
                  [("command_preview", JStr (s_of (take 200 command))); ("segments", JList (JStr ∘ s_of <$> segs))]))
          end
    | _ => no_attribute "strip"
    end.

(** *** LarkCliSafetyRule *)
Definition WRITE_VERBS : list string :=
  ["send"; "reply"; "create"; "update"; "delete"; "remove"; "add"; "set"; "edit"; "patch"; "post"; "upload"; "import";
   "complete"; "cancel"; "move"; "copy"; "share"; "grant"; "revoke"; "archive"; "rename"; "invite"; "kick"; "transfer";
   "approve"; "reject"; "submit"; "publish"; "write"; "insert"; "append"; "modify"; "comment"].
Definition BLOCKED_PREFIXES : list (list string) :=
  [["auth"; "login"]; ["auth"; "logout"]; ["config"; "init"]; ["config"; "reset"]; ["config"; "delete"]].
Fixpoint lstrip_plus (s : ustr) : ustr :=
  match s with c :: r => if c =? 43 then lstrip_plus r else s | [] => [] end.
(** [_non_flag_tokens] *)
Definition non_flag_tokens (l : list json) : list ustr :=
  omap (λ a, match a with
             | JStr s => if startswith [45] (u s) then None else Some (lower (lstrip_plus (u s)))
             | _ => None
             end) l.
Definition lark_cli_safety (ctx : PolicyContext) : result (option PolicyDecision) :=
  if negb (bool_decide (tool_name ctx = "lark_cli")) then Ok None
  else
    match arg ctx "args" with
    | Some (JList raw) =>
        let tokens := non_flag_tokens raw in
        let preview n := joined " " (s_of <$> take n tokens) in
        if bool_decide (tokens = []) then Ok None
        else if existsb (λ prefix, bool_decide (take (length prefix) (take 2 tokens) = u <$> prefix)) BLOCKED_PREFIXES then
          Ok (Some (mkDecision Deny "lark_cli_safety"
            ("lark_cli interactive/auth command not allowed: " +:+ preview 2%nat) [("command", JStr (preview 2%nat))]))
        else
          match find (λ t, bool_decide (t ∈ u <$> WRITE_VERBS)) tokens with
          | Some hit =>
              Ok (Some (mkDecision RequireApproval "lark_cli_safety"
                ("lark_cli write op '" +:+ s_of hit +:+ "' requires approval")
                [("verb", JStr (s_of hit)); ("cmd_preview", JStr (preview 6%nat))]))
          | None => Ok None
          end
    | _ => Ok None
    end.

(** *** NetworkSafetyRule *)
Definition WRITE_METHODS : list string := ["POST"; "PUT"; "DELETE"; "PATCH"].
Definition network_deny (reason : string) (metadata : list (string * json)) : result (option PolicyDecision) :=
  Ok (Some (mkDecision Deny "network_safety" reason metadata)).
(** [_evaluate_api_request] *)
Definition evaluate_api_request (ctx : PolicyContext) (net : NetworkPolicy) : result (option PolicyDecision) :=
  if negb (allow_api_request net) then network_deny "api_request_not_allowed_in_profile" []
  else
    match arg_or ctx "method" (JStr "GET"), arg_or ctx "url" (JStr "") with
    | JStr m, JStr url =>
        let method := s_of (upper (u m)) in
        match url_hostname url with
        | Err e => Err e
        | Ok h =>
            let host := default "" h in
            let rt := runtime (edict ctx) in
            if negb (bool_decide (host ∈ api_request_hosts rt)) then
              network_deny "host_not_whitelisted" [("host", JStr host)]
            else if bool_decide (method ∈ WRITE_METHODS) then
              if negb (bool_decide (host ∈ api_request_write_hosts rt)) then
                network_deny "write_method_host_not_whitelisted" [("host", JStr host); ("method", JStr method)]
              else
                Ok (Some (mkDecision RequireApproval "network_safety"
                  ("api_request " +:+ method +:+ " " +:+ host +:+ " requires approval")
                  [("host", JStr host); ("method", JStr method)]))
            else if negb (bool_decide (method ∈ api_request_methods net)) then
              network_deny ("method_not_allowed:" +:+ method) [("method", JStr method)]
            else Ok None
        end
    | JStr _, _ => no_attribute "decode"
    | _, _ => no_attribute "upper"
    end.
Definition network_safety (ctx : PolicyContext) : result (option PolicyDecision) :=
  let net := resolve_network_for_edict overrides (edict ctx) in
  if bool_decide (tool_name ctx = "web_fetch") then
    match fetch_engines net with [] => network_deny "fetch_not_allowed_in_profile" [] | _ => Ok None end
  else if bool_decide (tool_name ctx = "web_search") then
    match search_provider net with None => network_deny "search_not_allowed_in_profile" [] | Some _ => Ok None end
  else if bool_decide (tool_name ctx = "api_request") then evaluate_api_request ctx net
  else if bool_decide (tool_name ctx = "web_extract") then
    if bool_decide ("firecrawl" ∈ fetch_engines net) then Ok None
    else network_deny "web_extract_not_allowed_in_profile" []
  else Ok None.

(** [build_default_rules]; [time] is how long each rule takes on a call.  The
    rules are coroutines without an await. *)
Definition build_default_rules (time : string → PolicyContext → Z) : list PolicyRule :=
  let rule id p f := mkRule id p f (time id) (λ _, []) in
  [rule "persona_tool_acl" 110 persona_tool_acl; rule "tier_escalation" 100 tier_escalation;
   rule "workspace_boundary" 90 workspace_boundary; rule "bash_safety" 80 bash_safety;
   rule "lark_cli_safety" 80 lark_cli_safety; rule "network_safety" 75 network_safety;
   rule "approval_required_list" 70 approval_required_list; rule "persona_tier" 15 persona_tier;
   rule "default_tier" 10 default_tier].
End rules.

(** ** The engine against its reference *)

(** What a rule contributes to a run that is not stopped: nothing when it
    abstains, raises or is stopped. *)
Definition decision_of (ctx : PolicyContext) (r : PolicyRule) : option PolicyDecision :=
  match stop_at POLICY_RULE_TIMEOUT (rule_waits r ctx) with
  | Some _ => None
  | None => match evaluate_rule r ctx with Ok d => d | Err _ => None end
  end.
Definition decisive (d : PolicyDecision) : bool := bool_decide (pd_verdict d ≠ Allow).
(** The first refusal or request for approval, else the last permission. *)
Definition first_decisive (ds : list PolicyDecision) : PolicyDecision :=
  match find decisive ds with
  | Some d => d
  | None => default default_decision (last ds)
  end.
(** The time a rule occupies the engine. *)
Definition rule_spends (r : PolicyRule) (ctx : PolicyContext) : Z :=
  default (rule_time r ctx) (stop_at POLICY_RULE_TIMEOUT (rule_waits r ctx)).
(** The deadline of the engine passes, at the latest, in a wait of a rule that
    runs before the decision and that its own timeout has not stopped by then. *)
Fixpoint engine_stops (rules : list PolicyRule) (ctx : PolicyContext) (now : Z) : bool :=
  match rules with
  | [] => false
  | r :: rest =>
      match stop_at (POLICY_ENGINE_TIMEOUT - now) (rule_waits r ctx) with
      | Some t' => match stop_at POLICY_RULE_TIMEOUT (rule_waits r ctx) with Some t => t' <=? t | None => true end
      | None => false
      end
      || (negb (from_option decisive false (decision_of ctx r)) && engine_stops rest ctx (now + rule_spends r ctx))
  end.
Definition timeout_decision : PolicyDecision :=
  mkDecision Deny "engine_timeout" "PolicyEngine exceeded 3.0s timeout" [].
Definition uncancelled (rules : list PolicyRule) (ctx : PolicyContext) : Prop :=
  ∀ r e, r ∈ rules → evaluate_rule r ctx = Err e → cancelled e = false.

Lemma first_decisive_stop last_allow d ds :
  (∀ x, last_allow = Some x → decisive x = false) → decisive d = true →
  first_decisive (option_list last_allow ++ d :: ds) = d.
Proof.
  intros Hl Hd. unfold first_decisive. destruct last_allow as [l|]; cbn; [rewrite (Hl l) by done|]; by rewrite Hd.
Qed.
Lemma first_decisive_skip last_allow d ds :
  (∀ x, last_allow = Some x → decisive x = false) → decisive d = false →
  first_decisive (option_list last_allow ++ d :: ds) = first_decisive (option_list (Some d) ++ ds).
Proof.
  intros Hl Hd. unfold first_decisive. destruct last_allow as [l|]; [|done]. cbn. rewrite Hd, (Hl l) by done.
  by destruct (find _ _).
Qed.

Lemma evaluate_inner_eq rules ctx now last_allow :
  uncancelled rules ctx → (∀ d, last_allow = Some d → decisive d = false) →
  evaluate_inner rules ctx now last_allow =
    if engine_stops rules ctx now then None
    else Some (Ok (first_decisive (option_list last_allow ++ omap (decision_of ctx) rules))).
Proof.
  revert now last_allow. induction rules as [|r rules IH]; intros now last_allow Hc Hl; cbn [evaluate_inner engine_stops].
  - destruct last_allow as [d|]; [|done]. cbn. unfold first_decisive. cbn. by rewrite (Hl d).
  - assert (Hc' : uncancelled rules ctx) by (intros r' e Hr; apply Hc; by right).
    assert (Hskip : decision_of ctx r = None →
      omap (decision_of ctx) (r :: rules) = omap (decision_of ctx) rules) by (intros Hd; cbn; by rewrite Hd).
    unfold run_rule, rule_spends.
    destruct (stop_at (POLICY_ENGINE_TIMEOUT - now) _) as [t'|], (stop_at POLICY_RULE_TIMEOUT _) as [t|] eqn:Hr; cbn [default];
      [destruct (t' <=? t); [done|]|done|..].
    1,2: assert (Hd : decision_of ctx r = None) by (unfold decision_of; by rewrite Hr);
      rewrite Hskip, Hd by done; cbn; by apply IH.
    assert (Hdo : decision_of ctx r = match evaluate_rule r ctx with Ok d => d | Err _ => None end)
      by (unfold decision_of; by rewrite Hr).
    cbn [orb]. destruct (evaluate_rule r ctx) as [[d|]|e] eqn:Er.
    + destruct (pd_verdict d) eqn:Hv; rewrite Hdo; cbn [from_option omap list_omap]; rewrite Hdo.
      * assert (Hdec : decisive d = false) by (unfold decisive; by rewrite Hv).
        rewrite (IH _ (Some d) Hc') by (by intros ? [= <-]). rewrite Hdec. cbn [negb andb].
        by rewrite first_decisive_skip.
      * assert (Hdec : decisive d = true) by (unfold decisive; by rewrite Hv). rewrite Hdec. cbn. by rewrite first_decisive_stop.
      * assert (Hdec : decisive d = true) by (unfold decisive; by rewrite Hv). rewrite Hdec. cbn. by rewrite first_decisive_stop.
    + rewrite Hskip, Hdo by done. by apply IH.
    + rewrite (Hc r e) by (by left || done). rewrite Hskip, Hdo by done. by apply IH.
Qed.

Lemma evaluate_eq describe rules ctx :
  uncancelled rules ctx →
  evaluate describe rules ctx =
    Ok (if engine_stops rules ctx 0 then timeout_decision else first_decisive (omap (decision_of ctx) rules)).
Proof. intros Hc. unfold evaluate. rewrite evaluate_inner_eq by done. by destruct (engine_stops rules ctx 0). Qed.

Lemma uncancelled_sorted rules ctx : uncancelled rules ctx → uncancelled (make_engine rules) ctx.
Proof. intros H r e Hr. apply H. unfold make_engine in Hr. by rewrite elem_of_order_by in Hr. Qed.

(** Rules that await nothing are not stopped, however long they take. *)
Definition waitless (rules : list PolicyRule) (ctx : PolicyContext) : Prop := Forall (λ r, rule_waits r ctx = []) rules.
Definition answers (rules : list PolicyRule) (ctx : PolicyContext) : list PolicyDecision :=
  omap (λ r, match evaluate_rule r ctx with Ok d => d | Err _ => None end) rules.

Lemma waitless_unstopped rules ctx now : waitless rules ctx → engine_stops rules ctx now = false.
Proof.
  intros Hw. revert now. induction Hw as [|r rules Hr _ IH]; intros now; [done|]. cbn [engine_stops]. rewrite Hr. cbn.
  rewrite IH. apply andb_false_r.
Qed.
Lemma waitless_answers rules ctx : waitless rules ctx → omap (decision_of ctx) rules = answers rules ctx.
Proof.
  intros Hw. induction Hw as [|r rules Hr _ IH]; [done|]. unfold answers in *. cbn [omap list_omap]. rewrite IH.
  unfold decision_of. by rewrite Hr.
Qed.
Lemma evaluate_waitless describe rules ctx :
  uncancelled rules ctx → waitless rules ctx → evaluate describe rules ctx = Ok (first_decisive (answers rules ctx)).
Proof. intros Hc Hw. by rewrite evaluate_eq, waitless_unstopped, waitless_answers by done. Qed.

Section default_rules.
Context (persona : option AgentPersona) (overrides : engine_overrides).
Context (resolve : path → result path) (url_hostname : string → result (option string)) (repr : string → string).
Context (describe : exn → string) (time : string → PolicyContext → Z).
Abbreviation rules := (build_default_rules persona overrides resolve url_hostname repr time).

(** The built-in rules are listed in the order of their priorities. *)
Lemma default_engine : make_engine rules = rules.
Proof. reflexivity. Qed.
Lemma default_waitless ctx : waitless rules ctx.
Proof. by repeat constructor. Qed.

(** Resolving paths and URLs is not cancelled. *)
Definition local_calls : Prop :=
  (∀ p e, resolve p = Err e → cancelled e = false) ∧ (∀ s e, url_hostname s = Err e → cancelled e = false).

Lemma boundary_uncancelled keys ctx ws e :
  local_calls → boundary_keys resolve repr keys ctx ws = Err e → cancelled e = false.
Proof.
  intros [Hr _]. induction keys as [|k keys IH]; cbn [boundary_keys]; [done|]. unfold resolve_arg. cbv zeta.
  destruct (arg ctx k) as [[]|]; auto. case_bool_decide; [done|].
  destruct (resolve _) as [p|e'] eqn:E.
  - by repeat match goal with |- context [if ?b then _ else _] => destruct b end.
  - specialize (Hr _ _ E). destruct (subclass _ _); [|by intros [= <-]].
    by repeat match goal with |- context [if ?b then _ else _] => destruct b end.
Qed.
Lemma bash_uncancelled ctx e : bash_safety repr ctx = Err e → cancelled e = false.
Proof.
  unfold bash_safety. destruct (negb _); [done|]. destruct (arg_or _ _ _); try (by intros [= <-]). cbv zeta.
  destruct (bool_decide _); [done|]. destruct (denied_candidate _) as [[]|]; [done|].
  destruct (has_structural_risk _); [done|]. by destruct (_ && _).
Qed.
Lemma lark_uncancelled ctx e : lark_cli_safety ctx = Err e → cancelled e = false.
Proof.
  unfold lark_cli_safety. destruct (negb _); [done|]. destruct (arg ctx "args") as [[]|]; try done. cbv zeta.
  destruct (bool_decide _); [done|]. destruct (existsb _ _); [done|]. by destruct (find _ _).
Qed.
Lemma network_uncancelled ctx e :
  local_calls → network_safety overrides url_hostname ctx = Err e → cancelled e = false.
Proof.
  intros [_ Hu]. unfold network_safety, evaluate_api_request, network_deny, no_attribute. cbv zeta.
  set (net := resolve_network_for_edict _ _). clearbody net.
  destruct (bool_decide (tool_name ctx = "web_fetch")); [by destruct (fetch_engines net)|].
  destruct (bool_decide (tool_name ctx = "web_search")); [by destruct (search_provider net)|].
  destruct (bool_decide (tool_name ctx = "api_request")).
  - destruct (negb _); [done|]. destruct (arg_or ctx "method" _); try (by intros [= <-]).
    destruct (arg_or ctx "url" _); try (by intros [= <-]). destruct (url_hostname _) eqn:E; [|intros [= <-]; eauto].
    by repeat match goal with |- context [if ?b then _ else _] => destruct b end.
  - by destruct (bool_decide (tool_name ctx = "web_extract")), (bool_decide ("firecrawl" ∈ fetch_engines net)).
Qed.

Lemma default_uncancelled ctx : local_calls → uncancelled rules ctx.
Proof.
  intros Hl r e Hin. unfold build_default_rules in Hin. cbv zeta in Hin.
  repeat (apply elem_of_cons in Hin as [->|Hin]); [..|by apply elem_of_nil in Hin]; cbn [evaluate_rule].
  - unfold persona_tool_acl. by destruct (persona_clause persona ctx) as [[? []]|].
  - unfold tier_escalation. destruct (dict_get _ _); [|done]. destruct (tier_of _); [|done]. by destruct (tier_le _ _).
  - unfold workspace_boundary. destruct (resolve _) eqn:E; [by apply boundary_uncancelled|].
    destruct Hl as [Hr _]. intros [= <-]. eauto.
  - apply bash_uncancelled.
  - apply lark_uncancelled.
  - by apply network_uncancelled.
  - unfold approval_required_list. by destruct (bool_decide _).
  - unfold persona_tier. by destruct (persona_clause persona ctx) as [[? []]|].
  - unfold default_tier. cbv zeta. destruct (match policy_profile _ with Some p => _ | None => _ end); [|done].
    by destruct (tier_le _ _).
Qed.
End default_rules.

(** ** What the built-in rules answer *)

Lemma first_decisive_deny l1 d l2 :
  Forall (λ x, pd_verdict x = Deny) l1 → pd_verdict d = Deny → pd_verdict (first_decisive (l1 ++ d :: l2)) = Deny.
Proof.
  intros Hl Hd. unfold first_decisive. destruct Hl as [|x l1 Hx _]; cbn; unfold decisive at 1.
  - by rewrite Hd, bool_decide_eq_true_2.
  - by rewrite Hx, bool_decide_eq_true_2.
Qed.
Lemma first_decisive_allow ds :
  pd_verdict (first_decisive ds) = Allow ↔ Forall (λ x, pd_verdict x = Allow) ds.
Proof.
  unfold first_decisive. destruct (find decisive ds) as [d|] eqn:E.
  - apply find_some in E as [Hin Hd]. unfold decisive in Hd. bools. split; [done|].
    intros Hf. rewrite Forall_forall in Hf. apply list_elem_of_In in Hin. by apply Hf in Hin.
  - assert (Hall : Forall (λ x, pd_verdict x = Allow) ds).
    { apply Forall_forall. intros x Hx%list_elem_of_In. pose proof (find_none _ _ E x Hx) as Hd. unfold decisive in Hd.
      destruct (pd_verdict x); [done|by vm_compute in Hd..]. }
    split; [done|]. intros _. destruct (last ds) as [d|] eqn:El; [|done]. cbn. rewrite Forall_forall in Hall.
    apply Hall, last_Some_elem_of, El.
Qed.

Definition answer (r : result (option PolicyDecision)) : list PolicyDecision :=
  match r with Ok (Some d) => [d] | _ => [] end.

Lemma allowed_answer x : Forall (λ x, pd_verdict x = Allow) (answer (Ok (Some x))) → pd_verdict x = Allow.
Proof. by inversion 1. Qed.

Section answers.
Context (persona : option AgentPersona) (overrides : engine_overrides).
Context (resolve : path → result path) (url_hostname : string → result (option string)) (repr : string → string).
Context (describe : exn → string) (time : string → PolicyContext → Z).
Abbreviation rules := (build_default_rules persona overrides resolve url_hostname repr time).

Lemma default_answers ctx :
  answers rules ctx =
  answer (persona_tool_acl persona ctx) ++ answer (tier_escalation ctx) ++
  answer (workspace_boundary resolve repr ctx) ++ answer (bash_safety repr ctx) ++ answer (lark_cli_safety ctx) ++
  answer (network_safety overrides url_hostname ctx) ++ answer (approval_required_list ctx) ++
  answer (persona_tier persona ctx) ++ answer (default_tier ctx).
Proof.
  unfold answers, build_default_rules. cbv zeta.
  assert (Hcons : ∀ r l, omap (λ r, match evaluate_rule r ctx with Ok d => d | Err _ => None end) (r :: l) =
    answer (evaluate_rule r ctx) ++ omap (λ r, match evaluate_rule r ctx with Ok d => d | Err _ => None end) l).
  { intros r l. cbn. by destruct (evaluate_rule r ctx) as [[]|]. }
  rewrite !Hcons. cbn [evaluate_rule]. do 8 f_equal. apply app_nil_r.
Qed.

Lemma acl_denies ctx : Forall (λ x, pd_verdict x = Deny) (answer (persona_tool_acl persona ctx)).
Proof. unfold persona_tool_acl. destruct (persona_clause persona ctx) as [[? []]|]; by repeat constructor. Qed.
Lemma boundary_denies ctx : Forall (λ x, pd_verdict x = Deny) (answer (workspace_boundary resolve repr ctx)).
Proof.
  unfold workspace_boundary. destruct (resolve _) as [ws|e]; [|constructor].
  induction PATH_ARG_KEYS as [|k keys IH]; cbn [boundary_keys]; [constructor|].
  destruct (arg ctx k) as [[]|]; try exact IH. case_bool_decide; [exact IH|].
  destruct (resolve_arg _ _ _); [|constructor].
  repeat match goal with |- context [if ?b then _ else _] => destruct b end; first [exact IH|by repeat constructor].
Qed.
Lemma escalation_none ctx : tool_tier ctx = T4_DANGEROUS → tier_escalation ctx = Ok None.
Proof.
  intros Ht. unfold tier_escalation. destruct (dict_get _ _) as [n|]; [|done]. destruct (tier_of n) as [t|]; [|done].
  rewrite Ht. by destruct t.
Qed.

Lemma denied_candidate_head c l needle :
  needle ∈ BASH_DENYLIST_SUBSTRINGS → contains (u needle) (lower c) = true →
  ∃ n, denied_candidate (c :: l) = Some (n, c).
Proof.
  intros Hn Hc. cbn [denied_candidate]. unfold needle_in.
  destruct (find _ BASH_DENYLIST_SUBSTRINGS) as [n|] eqn:E; [by exists n|].
  apply list_elem_of_In in Hn. pose proof (find_none _ _ E needle Hn) as H. cbn beta in H. congruence.
Qed.

Lemma bash_denies ctx raw needle :
  tool_name ctx ∈ BASH_TOOL_NAMES → arg ctx "command" = Some (JStr raw) →
  needle ∈ BASH_DENYLIST_SUBSTRINGS → contains (u needle) (lower (strip (u raw))) = true →
  ∃ d, bash_safety repr ctx = Ok (Some d) ∧ pd_verdict d = Deny.
Proof.
  intros Ht Ha Hn Hc. unfold bash_safety. rewrite bool_decide_eq_true_2 by done. cbn [negb].
  unfold arg_or. rewrite Ha.
  assert (Hne : strip (u raw) ≠ []).
  { intros E. rewrite E in Hc. clear -Hn Hc. unfold BASH_DENYLIST_SUBSTRINGS in Hn.
    repeat (apply elem_of_cons in Hn as [->|Hn]; [by vm_compute in Hc|]). by apply elem_of_nil in Hn. }
  assert (Htr : truthy (JStr raw) = true).
  { cbn. destruct (bool_decide (raw = "")) eqn:E; [|done]. bools. subst. by destruct Hne. }
  rewrite Htr. cbv zeta. rewrite bool_decide_eq_false_2 by done.
  destruct (denied_candidate_head (strip (u raw))
    (match segments (analyze_command (strip (u raw))) with [] => [strip (u raw)] | l => l end) needle Hn Hc) as [n ->].
  by eexists.
Qed.
End answers.

(** ** Theorems *)

(** C20. The engine is its specification: the rules run in order of priority, equal
    priorities in the order given; when no rule raises a cancellation it does not raise;
    unless its own timeout stops it, the answer is the first refusal or request for approval
    among the rules that are not stopped, else the last permission, else the default
    permission, where a rule that raises, or that is suspended at or after the end of its
    second, counts as abstaining; when the deadline of three seconds is due in a wait of a
    rule that runs before the decision, the call is refused. Rules that await nothing, as
    all built-in ones, are never stopped: their answers count however long they take. A
    permission means that no rule that was not stopped asked for less. *)
Theorem engine_decides describe engine_rules ctx :
  uncancelled engine_rules ctx →
  let engine := make_engine engine_rules in
  StronglySorted (λ a b, priority b ≤ priority a) engine ∧ engine ≡ₚ engine_rules ∧
  (∀ p, filter (λ r, priority r = p) engine = filter (λ r, priority r = p) engine_rules) ∧
  ∃ d, evaluate describe engine ctx = Ok d ∧
    d = (if engine_stops engine ctx 0 then timeout_decision else first_decisive (omap (decision_of ctx) engine)) ∧
    (waitless engine_rules ctx → d = first_decisive (answers engine ctx)) ∧
    (pd_verdict d = Allow → ∀ r x, r ∈ engine_rules → decision_of ctx r = Some x → pd_verdict x = Allow).
Proof.
  intros Hc engine. split_and!.
  - assert (Hs : StronglySorted (λ a b, (- priority a <=? - priority b) = true) engine).
    { apply order_by_sorted; intros; bools; rewrite ?Z.leb_le; lia. }
    induction Hs as [|x l _ IH Hx]; constructor; [done|]. eapply Forall_impl; [exact Hx|]. intros y. cbn. intros ?. bools. lia.
  - apply order_by_perm.
  - intros p. pose proof (order_by_stable (λ r : PolicyRule, - priority r) (- p) engine_rules) as H.
    unfold engine, make_engine.
    rewrite (list_filter_iff _ (λ r : PolicyRule, - priority r = - p)) by (intros; lia). rewrite H.
    apply list_filter_iff. intros. lia.
  - eexists. split; [by apply evaluate_eq, uncancelled_sorted|]. split; [done|]. split.
    + intros Hw. assert (Hw' : waitless engine ctx).
      { apply Forall_forall. intros r Hr. unfold engine, make_engine in Hr. rewrite elem_of_order_by in Hr.
        by eapply (proj1 (Forall_forall _ _)) in Hw. }
      by rewrite waitless_unstopped, waitless_answers.
    + destruct (engine_stops engine ctx 0); [done|]. rewrite first_decisive_allow, Forall_forall.
      intros Hall r x Hr Hx. apply Hall. apply list_elem_of_omap. exists r. split; [|done].
      unfold engine, make_engine. by rewrite elem_of_order_by.
Qed.

Section claims.
Context (persona : option AgentPersona) (overrides : engine_overrides).
Context (resolve : path → result path) (url_hostname : string → result (option string)) (repr : string → string).
Context (describe : exn → string) (time : string → PolicyContext → Z).
Context (Hlocal : local_calls resolve url_hostname).
Abbreviation rules := (build_default_rules persona overrides resolve url_hostname repr time).
Abbreviation decide_call := (evaluate describe (make_engine rules)).

Lemma decide_call_eq ctx : decide_call ctx = Ok (first_decisive (answers rules ctx)).
Proof. rewrite default_engine. apply evaluate_waitless; [by apply default_uncancelled|apply default_waitless]. Qed.

Lemma tier_exceeded_asks ctx p :
  persona = Some p → persona_tool_verdict p (tool_name ctx) (tier_value (tool_tier ctx)) = Some TierExceeded →
  pd_verdict (first_decisive (answers rules ctx)) ≠ Allow.
Proof.
  intros Hp Hc Hv%first_decisive_allow. rewrite default_answers, !Forall_app in Hv.
  destruct Hv as (_ & _ & _ & _ & _ & _ & _ & Hv & _).
  unfold persona_tier, persona_clause in Hv. rewrite Hp, Hc in Hv. by apply allowed_answer in Hv.
Qed.

(** C22. The deny list of the shell is absolute: a call of a shell tool whose command,
    stripped of leading and trailing white space and in any case, holds one of the listed
    texts is refused for every edict, profile, persona and path argument, provided the tool
    has the tier it is registered with, tier 4, which no override can raise. (A listed text
    that ends in a space is not found at the end of a command, where the space is stripped.) *)
Theorem shell_denylist_absolute ctx raw needle :
  tool_name ctx ∈ BASH_TOOL_NAMES → tool_tier ctx = T4_DANGEROUS →
  arg ctx "command" = Some (JStr raw) → needle ∈ BASH_DENYLIST_SUBSTRINGS →
  contains (u needle) (lower (strip (u raw))) = true →
  ∃ d, decide_call ctx = Ok d ∧ pd_verdict d = Deny.
Proof.
  intros Hn Htier Ha Hneedle Hc. rewrite decide_call_eq. eexists. split; [done|].
  destruct (bash_denies repr ctx raw needle Hn Ha Hneedle Hc) as (d & Hd & Hv).
  rewrite default_answers, (escalation_none ctx Htier), Hd. cbn [answer app].
  rewrite (assoc_L (++)). apply first_decisive_deny; [|done]. apply Forall_app. split; [apply acl_denies|apply boundary_denies].
Qed.

(** C21. A shell command that runs without approval has been granted piece by piece: when
    the engine with the built-in rules allows a call of a shell tool of tier 4 with a
    command that is not blank, the profile of the edict grants tier 4, every segment into
    which the stripped command is split starts with one of the granted prefixes, the
    analysis finds none of its structural risks in it (a redirection, a lone ampersand or a
    backtick outside quotes and escapes, a dollar sign with a parenthesis outside single
    quotes), none of the denied texts occurs in it, the edict does not list the tool for
    approval and the persona may use it. What the analysis does not look for is not covered:
    a backtick inside double quotes passes (Example policy_examples). *)
Theorem shell_allow_requires ctx raw d :
  tool_name ctx ∈ BASH_TOOL_NAMES → tool_tier ctx = T4_DANGEROUS →
  arg ctx "command" = Some (JStr raw) → strip (u raw) ≠ [] →
  decide_call ctx = Ok d → pd_verdict d = Allow →
  let command := strip (u raw) in
  (∃ profile, policy_profile (runtime (edict ctx)) = Some profile ∧ auto_approve_max_tier profile = 4 ∧
     ∀ seg, seg ∈ split_unquoted_segments command →
       ∃ p, p ∈ allowed_bash_prefixes profile ∧ startswith (u p) seg = true) ∧
  has_structural_risk (analyze_command command) = false ∧
  (∀ needle, needle ∈ BASH_DENYLIST_SUBSTRINGS → contains (u needle) (lower command) = false) ∧
  (tool_name ctx ∉ approval_required_tools (runtime (edict ctx))) ∧
  (∀ p, persona = Some p → persona_can_use p (tool_name ctx) 4 = true).
Proof.
  intros Hn Htier Ha Hne Hd Hv command. rewrite decide_call_eq in Hd.
  assert (d = first_decisive (answers rules ctx)) as -> by congruence. clear Hd.
  apply first_decisive_allow in Hv. rewrite default_answers in Hv.
  repeat match type of Hv with Forall _ (_ ++ _) => apply Forall_app in Hv as [?Hr Hv] end.
  assert (Hneedle : ∀ needle, needle ∈ BASH_DENYLIST_SUBSTRINGS → contains (u needle) (lower command) = false).
  { intros needle Hin. destruct (contains _ _) eqn:E; [|done]. exfalso.
    destruct (bash_denies repr ctx raw needle Hn Ha Hin E) as (x & Hx & Hxv). rewrite Hx in Hr2.
    apply allowed_answer in Hr2. congruence. }
  assert (Hprofile : ∃ profile, policy_profile (runtime (edict ctx)) = Some profile ∧ auto_approve_max_tier profile = 4).
  { unfold default_tier in Hv. rewrite Htier in Hv.
    destruct (policy_profile (runtime (edict ctx))) as [p|]; [|by apply allowed_answer in Hv].
    exists p. split; [done|]. destruct (tier_of (auto_approve_max_tier p)) as [t|] eqn:Et;
      [|by apply allowed_answer in Hv].
    destruct t; cbn in Hv; try (by apply allowed_answer in Hv). unfold tier_of in Et.
    by repeat case_match; simplify_eq. }
  destruct Hprofile as (profile & Hp & Hmax).
  assert (Hbash : has_structural_risk (analyze_command command) = false ∧
    ∀ seg, seg ∈ split_unquoted_segments command → ∃ p, p ∈ allowed_bash_prefixes profile ∧ startswith (u p) seg = true).
  { unfold bash_safety in Hr2. rewrite bool_decide_eq_true_2 in Hr2 by done. cbn [negb] in Hr2.
    unfold arg_or in Hr2. rewrite Ha in Hr2. fold command in Hne.
    destruct (truthy (JStr raw)) eqn:Htr.
    2: { exfalso. cbn in Htr. bools. subst raw. by apply Hne. }
    cbv zeta in Hr2. fold command in Hr2. rewrite bool_decide_eq_false_2 in Hr2 by done.
    destruct (denied_candidate _) as [[n c]|]; [by apply allowed_answer in Hr2|].
    destruct (has_structural_risk (analyze_command command)); [by apply allowed_answer in Hr2|]. split; [done|].
    destruct (bool_decide (profile_prefixes ctx ≠ []) && _) eqn:Hall; [|by apply allowed_answer in Hr2].
    apply andb_true_iff in Hall as [_ Hall]. rewrite forallb_Forall, Forall_forall in Hall.
    intros seg Hseg. change (split_unquoted_segments command) with (segments (analyze_command command)) in Hseg.
    destruct (segments (analyze_command command)) as [|s0 segs] eqn:Es; [by apply elem_of_nil in Hseg|].
    specialize (Hall seg Hseg). apply existsb_exists in Hall as (p & Hin & Hstart).
    unfold profile_prefixes in Hin. rewrite Hp in Hin. apply list_elem_of_In, list_elem_of_fmap in Hin as (p' & -> & Hin).
    by exists p'. }
  destruct Hbash as [Hrisk Hsegs]. split; [by exists profile|]. split; [done|]. split; [done|]. split.
  - unfold approval_required_list in Hr5. case_bool_decide; [by apply allowed_answer in Hr5|done].
  - intros p ->. unfold persona_can_use. unfold persona_tool_acl, persona_tier, persona_clause in Hr, Hr6.
    rewrite Htier in Hr, Hr6. change (tier_value T4_DANGEROUS) with 4 in *.
    destruct (persona_tool_verdict p (tool_name ctx) 4) as [[]|]; cbn in Hr, Hr6;
      [by apply allowed_answer in Hr|by apply allowed_answer in Hr|by apply allowed_answer in Hr6|done].
Qed.

(** The lists of a persona are binding: a tool that its deny list names, or that its
    non-empty allow list does not name, is refused for every edict and profile, whatever the
    arguments, when the rules answer in time; and a tool above the tier of the persona is
    never let through without approval. *)
Theorem persona_contract_binding ctx p c :
  persona = Some p →
  persona_tool_verdict p (tool_name ctx) (tier_value (tool_tier ctx)) = Some c →
  ∃ d, decide_call ctx = Ok d ∧
    match c with Denied | NotAllowed => pd_verdict d = Deny | TierExceeded => pd_verdict d ≠ Allow end.
Proof.
  intros Hp Hc. rewrite decide_call_eq. eexists. split; [done|].
  destruct c; [| |by eapply tier_exceeded_asks]; rewrite default_answers; unfold persona_tool_acl, persona_clause;
    rewrite Hp, Hc; cbn [fmap option_fmap option_map answer app]; by apply (first_decisive_deny []).
Qed.



End claims.

(** *** The two walls *)

Lemma boundary_single resolve repr keys key ctx ws raw :
  NoDup keys → key ∈ keys → arg ctx key = Some (JStr raw) → raw ≠ "" →
  (∀ k, k ∈ keys → k ≠ key → arg ctx k = None) →
  boundary_keys resolve repr keys ctx ws = boundary_keys resolve repr [key] ctx ws.
Proof.
  intros Hnd Hin Ha Hraw Hothers. induction keys as [|k keys IH]; [by apply elem_of_nil in Hin|].
  apply NoDup_cons in Hnd as [Hk Hnd]. destruct (decide (k = key)) as [->|Hne].
  - assert (Hrest : boundary_keys resolve repr keys ctx ws = Ok None).
    { clear IH Hin Hnd. induction keys as [|k keys IH]; [done|]. cbn [boundary_keys].
      rewrite (Hothers k) by set_solver. apply IH; set_solver. }
    cbn [boundary_keys]. by rewrite Ha, Hrest.
  - apply elem_of_cons in Hin as [->|Hin]; [done|]. rewrite <-IH; [|done|done|intros; apply Hothers; set_solver].
    cbn [boundary_keys]. by rewrite (Hothers k) by set_solver.
Qed.

(** The two walls agree: for a call with one path argument in a resolved workspace other
    than the root directory, the boundary rule abstains exactly when the sandbox of the tool
    returns the path, and refuses exactly when the sandbox raises PermissionError. *)
Theorem walls_agree resolve repr ctx key raw p :
  key ∈ PATH_ARG_KEYS → arg ctx key = Some (JStr raw) → raw ≠ "" →
  (∀ k, k ∈ PATH_ARG_KEYS → k ≠ key → arg ctx k = None) →
  resolve (workspace_root ctx) = Ok (workspace_root ctx) →
  resolve (join_path (workspace_root ctx) (parse_path (u raw))) = Ok p →
  well_formed p → well_formed (workspace_root ctx) → names (workspace_root ctx) ≠ [] →
  match safe_path resolve (profile_globs ctx) (workspace_root ctx) (u raw) with
  | Ok q => q = p ∧ workspace_boundary resolve repr ctx = Ok None
  | Err e => exn_kind e = PermissionError ∧
      ∃ d, workspace_boundary resolve repr ctx = Ok (Some d) ∧ pd_verdict d = Deny
  end.
Proof.
  intros Hkey Ha Hraw Hothers Hws Hp Wp Ww Hne.
  assert (Hb : workspace_boundary resolve repr ctx = boundary_keys resolve repr [key] ctx (workspace_root ctx)).
  { unfold workspace_boundary. rewrite Hws. eapply boundary_single; try done.
    apply (bool_decide_unpack _). vm_compute. exact I. }
  rewrite Hb. cbn [boundary_keys]. rewrite Ha, bool_decide_eq_false_2 by done.
  assert (Hr : resolve_arg resolve raw (workspace_root ctx) = Ok p).
  { unfold resolve_arg. cbv zeta. unfold join_path in Hp. destruct (is_absolute (parse_path (u raw))) eqn:E; [by rewrite Hp|].
    unfold join_path. by rewrite E, Hp. }
  rewrite Hr. unfold safe_path. rewrite Hp, Hws. cbv zeta.
  rewrite <-negb_orb, (inside_text (workspace_root ctx) p Ww Wp Hne).
  destruct (is_sensitive_path p); [split; [done|]; by eexists|].
  destruct (is_relative_to p (workspace_root ctx)); cbn [negb andb]; [done|].
  destruct (path_allowed_outside p (profile_globs ctx)); cbn [negb]; [done|]. split; [done|]. by eexists.
Qed.

(** *** Tier overrides of a profile *)

Definition profile_overridden (o : dict Z) (p : PolicyProfilePayload) : PolicyProfilePayload :=
  mkProfile (allowed_paths p) (allowed_bash_prefixes p) o (auto_approve_max_tier p) (expires_after_seconds p)
    (template_name p).
Definition with_profile_overrides (o : dict Z) (ctx : PolicyContext) : PolicyContext :=
  let rt := runtime (edict ctx) in
  mkContext (tool_name ctx) (tool_tier ctx) (args ctx)
    (mkEdict (edict_id (edict ctx))
       (mkRuntime (approval_required_tools rt) (profile_overridden o <$> policy_profile rt) (tier_overrides rt)
          (api_request_hosts rt) (api_request_write_hosts rt)))
    (workspace_root ctx) (iteration ctx).

Lemma boundary_same_globs resolve repr keys ctx ctx' ws :
  args ctx' = args ctx → profile_globs ctx' = profile_globs ctx →
  boundary_keys resolve repr keys ctx' ws = boundary_keys resolve repr keys ctx ws.
Proof.
  intros Ha Hg. induction keys as [|k keys IH]; [done|]. cbn [boundary_keys]. unfold arg. rewrite Ha, Hg.
  destruct (obj_get (args ctx) k) as [[]|]; try done. by rewrite IH.
Qed.

(** The tier overrides of a profile have no effect: whatever is stored there, every default
    rule answers every call as before, so only those of the runtime itself escalate a tool. *)
Theorem profile_tier_overrides_inert persona overrides resolve url_hostname repr time o ctx :
  Forall (λ r, evaluate_rule r (with_profile_overrides o ctx) = evaluate_rule r ctx)
    (build_default_rules persona overrides resolve url_hostname repr time).
Proof.
  assert (Hglobs : profile_globs (with_profile_overrides o ctx) = profile_globs ctx).
  { unfold profile_globs, with_profile_overrides. cbn [edict runtime policy_profile]. by destruct (policy_profile _). }
  assert (Hprefixes : profile_prefixes (with_profile_overrides o ctx) = profile_prefixes ctx).
  { unfold profile_prefixes, with_profile_overrides. cbn [edict runtime policy_profile]. by destruct (policy_profile _). }
  assert (Hnet : resolve_network_for_edict overrides (edict (with_profile_overrides o ctx)) =
                 resolve_network_for_edict overrides (edict ctx)).
  { unfold resolve_network_for_edict, with_profile_overrides. cbn [edict runtime policy_profile].
    by destruct (policy_profile _). }
  unfold build_default_rules. repeat (apply Forall_cons; split); [..|by apply Forall_nil]; cbn [evaluate_rule].
  - reflexivity.
  - reflexivity.
  - unfold workspace_boundary. cbn [workspace_root with_profile_overrides].
    destruct (resolve (workspace_root ctx)); [|done]. by apply boundary_same_globs.
  - unfold bash_safety. rewrite Hprefixes. reflexivity.
  - reflexivity.
  - unfold network_safety. rewrite Hnet. reflexivity.
  - reflexivity.
  - reflexivity.
  - unfold default_tier, with_profile_overrides. cbn [edict runtime policy_profile tool_tier]. by destruct (policy_profile _).
Qed.

(** ** Samples *)

Module PolicySample.
Definition identity (p : path) : result path := Ok p.
Definition host (_ : string) : result (option string) := Ok (Some "api.example.com").
Definition quoted (s : string) : string := "'" +:+ s +:+ "'".
Definition describe (e : exn) : string := exn_message e.
Definition quick (_ : string) (_ : PolicyContext) : Z := 1000.
Definition no_overrides : engine_overrides := mkOverrides [] None None.
Definition profile (max : Z) : PolicyProfilePayload := mkProfile ["/data/**"] ["git "] [] max None None.
Definition edict_of (max : Z) (tiers : dict Z) : Edict := mkEdict "e" (mkRuntime [] (Some (profile max)) tiers [] []).
Definition shell (max : Z) (command : string) : PolicyContext :=
  mkContext "shell_exec" T4_DANGEROUS [("command", JStr command)] (edict_of max []) (parse_path (u "/work/e1")) 0.
Definition write (tiers : dict Z) (p : string) : PolicyContext :=
  mkContext "write_file" T1_WORKSPACE [("path", JStr p)] (edict_of 1 tiers) (parse_path (u "/work/e1")) 0.
Definition clerk : AgentPersona := mkPersona "hanlin" ["read_*"] [] 1.
Definition run (p : option AgentPersona) (ctx : PolicyContext) : result PolicyDecision :=
  evaluate describe (make_engine (build_default_rules p no_overrides identity host quoted quick)) ctx.
Definition verdict_of (r : result PolicyDecision) : option (verdict * string) :=
  match r with Ok d => Some (pd_verdict d, pd_rule_id d) | Err _ => None end.

Lemma local : local_calls identity host.
Proof. split; intros ? ? H; discriminate H. Qed.
(** A rule that computes for five seconds, one that waits for two seconds, and one
    that computes for four seconds and then waits. *)
Definition refuse (id : string) : PolicyContext → result (option PolicyDecision) := λ _, Ok (Some (mkDecision Deny id "" [])).
Definition busy : PolicyRule := mkRule "busy" 50 (refuse "busy") (λ _, 5000000) (λ _, []).
Definition waiting : PolicyRule := mkRule "waiting" 60 (refuse "waiting") (λ _, 2000000) (λ _, [(0, 2000000)]).
Definition late : PolicyRule := mkRule "late" 70 (refuse "late") (λ _, 4500000) (λ _, [(4000000, 4500000)]).
Definition run_rules (rules : list PolicyRule) (ctx : PolicyContext) : result PolicyDecision :=
  evaluate describe (make_engine rules) ctx.
End PolicySample.

(** A listed prefix alone is not enough; the deny list and hidden commands are
    caught; a backtick between double quotes is not. *)
Example policy_examples :
  PolicySample.verdict_of (PolicySample.run None (PolicySample.shell 4 "git log; git status")) =
    Some (Allow, "default_tier") ∧
  PolicySample.verdict_of (PolicySample.run None (PolicySample.shell 3 "git log")) =
    Some (RequireApproval, "default_tier") ∧
  PolicySample.verdict_of (PolicySample.run None (PolicySample.shell 4 "git log; RM -rf /")) = Some (Deny, "bash_safety") ∧
  PolicySample.verdict_of (PolicySample.run None (PolicySample.shell 4 "git log $(id)")) =
    Some (RequireApproval, "bash_safety") ∧
  PolicySample.verdict_of (PolicySample.run None
    (PolicySample.shell 4 (s_of (u "git log " ++ DQ :: BACKTICK :: u "id" ++ [BACKTICK; DQ])))) =
    Some (Allow, "default_tier") ∧
  PolicySample.verdict_of (PolicySample.run None (PolicySample.write [] "/etc/passwd")) = Some (Deny, "workspace_boundary") ∧
  PolicySample.verdict_of (PolicySample.run None (PolicySample.write [("write_file", 3)] "/etc/passwd")) =
    Some (RequireApproval, "tier_escalation") ∧
  PolicySample.verdict_of (PolicySample.run (Some PolicySample.clerk) (PolicySample.write [] "a.txt")) =
    Some (Deny, "persona_tool_acl").
Proof. vm_compute. repeat split; reflexivity. Qed.

(** A busy rule is heard, a waiting one is stopped after a second, and a wait
    after the third second ends the run. *)
Example policy_timeouts :
  PolicySample.verdict_of (PolicySample.run_rules [PolicySample.busy] (PolicySample.shell 4 "git log")) = Some (Deny, "busy") ∧
  PolicySample.verdict_of (PolicySample.run_rules [PolicySample.waiting] (PolicySample.shell 4 "git log")) = Some (Allow, "default") ∧
  PolicySample.verdict_of (PolicySample.run_rules [PolicySample.busy; PolicySample.waiting] (PolicySample.shell 4 "git log")) =
    Some (Deny, "busy") ∧
  PolicySample.verdict_of (PolicySample.run_rules [PolicySample.late] (PolicySample.shell 4 "git log")) =
    Some (Deny, "engine_timeout").
Proof. vm_compute. repeat split; reflexivity. Qed.

Lemma engine_decides_witness :
  ∃ d, PolicySample.run None (PolicySample.shell 4 "git log") = Ok d ∧
    (pd_verdict d = Allow → ∀ r x, r ∈ build_default_rules None PolicySample.no_overrides PolicySample.identity
       PolicySample.host PolicySample.quoted PolicySample.quick →
       decision_of (PolicySample.shell 4 "git log") r = Some x → pd_verdict x = Allow).
Proof.
  destruct (engine_decides PolicySample.describe _ (PolicySample.shell 4 "git log")
    (default_uncancelled None PolicySample.no_overrides PolicySample.identity PolicySample.host PolicySample.quoted
       PolicySample.quick (PolicySample.shell 4 "git log") PolicySample.local)) as (_ & _ & _ & d & Hd & _ & _ & H).
  exists d. split; [exact Hd|exact H].
Defined.

Lemma shell_denylist_absolute_witness :
  ∃ d, PolicySample.run None (PolicySample.shell 4 "git log; RM -rf /") = Ok d ∧ pd_verdict d = Deny.
Proof.
  assert (Hn : "shell_exec" ∈ BASH_TOOL_NAMES) by (left).
  assert (Hd : "rm -rf /" ∈ BASH_DENYLIST_SUBSTRINGS) by (left).
  exact (shell_denylist_absolute None PolicySample.no_overrides PolicySample.identity PolicySample.host
    PolicySample.quoted PolicySample.describe PolicySample.quick PolicySample.local
    (PolicySample.shell 4 "git log; RM -rf /") "git log; RM -rf /" "rm -rf /"
    Hn eq_refl eq_refl Hd eq_refl).
Defined.

Lemma shell_allow_requires_witness :
  has_structural_risk (analyze_command (strip (u "git log; git status"))) = false.
Proof.
  assert (Hn : "shell_exec" ∈ BASH_TOOL_NAMES) by (left).
  assert (Hne : strip (u "git log; git status") ≠ []) by (vm_compute; discriminate).
  assert (Hv : PolicySample.verdict_of (PolicySample.run None (PolicySample.shell 4 "git log; git status")) =
    Some (Allow, "default_tier")) by (vm_compute; reflexivity).
  destruct (PolicySample.run None (PolicySample.shell 4 "git log; git status")) as [d|e] eqn:E; [|discriminate].
  injection Hv as Hv _.
  exact (proj1 (proj2 (shell_allow_requires None PolicySample.no_overrides PolicySample.identity PolicySample.host
    PolicySample.quoted PolicySample.describe PolicySample.quick PolicySample.local
    (PolicySample.shell 4 "git log; git status") "git log; git status" d
    Hn eq_refl eq_refl Hne E Hv))).
Defined.

Lemma persona_contract_binding_witness :
  ∃ d, PolicySample.run (Some PolicySample.clerk) (PolicySample.write [] "a.txt") = Ok d ∧ pd_verdict d = Deny.
Proof.
  assert (Hc : persona_tool_verdict PolicySample.clerk "write_file" 1 = Some NotAllowed) by (vm_compute; reflexivity).
  exact (persona_contract_binding (Some PolicySample.clerk) PolicySample.no_overrides PolicySample.identity
    PolicySample.host PolicySample.quoted PolicySample.describe PolicySample.quick PolicySample.local
    (PolicySample.write [] "a.txt") PolicySample.clerk NotAllowed eq_refl Hc).
Defined.


Lemma walls_agree_witness :
  match safe_path PolicySample.identity [u "/data/**"] (parse_path (u "/work/e1")) (u "src/a.py") with
  | Ok q => q = parse_path (u "/work/e1/src/a.py") ∧
      workspace_boundary PolicySample.identity PolicySample.quoted (PolicySample.write [] "src/a.py") = Ok None
  | Err _ => False
  end.
Proof.
  assert (Hkey : "path" ∈ PATH_ARG_KEYS) by (left).
  assert (Hraw : "src/a.py" ≠ "") by discriminate.
  assert (Hothers : ∀ k, k ∈ PATH_ARG_KEYS → k ≠ "path" → arg (PolicySample.write [] "src/a.py") k = None).
  { intros k _ Hk. unfold arg. cbn. rewrite bool_decide_eq_false_2 by congruence. reflexivity. }
  assert (Wp : well_formed (parse_path (u "/work/e1/src/a.py"))).
  { split; [reflexivity|]. apply (bool_decide_unpack _). vm_compute. exact I. }
  assert (Ww : well_formed (parse_path (u "/work/e1"))).
  { split; [reflexivity|]. apply (bool_decide_unpack _). vm_compute. exact I. }
  assert (Hne : names (parse_path (u "/work/e1")) ≠ []) by (vm_compute; discriminate).
  exact (walls_agree PolicySample.identity PolicySample.quoted (PolicySample.write [] "src/a.py") "path" "src/a.py"
    (parse_path (u "/work/e1/src/a.py")) Hkey eq_refl Hraw Hothers eq_refl eq_refl Wp Ww Hne).
Defined.
