(* ===== verification/SessionRules.v ===== *)
(** * Session rules

    Models src/src/tianshu/tools/policy_store.py, the store of standing grants
    that answer later requests for approval, [expand_profile_to_rules] of
    tools/policy_profile.py, and the use the hook of executor/policy_hook.py
    makes of the store.  Rules of scope "edict" live in memory, rules of scope
    "always" in the table session_rules. *)

From stdpp Require Import pretty.
From S2P Require Import Prelude.
From S2P Require Import Sql.
From S2P Require Import Canonical.
From S2P Require Import PyText.
From S2P Require Import Timestamp.
From S2P Require Import PathUtils.
From S2P Require Import ToolPolicy.

(** ** [hashlib.sha1] *)

Module Sha1.
Definition rotl (x n : Z) : Z := Sha256.rotr x (32 - n).
Record state := State { ha : Z; hb : Z; hc : Z; hd : Z; he : Z }.
Definition initial : state := State 1732584193 4023233417 2562383102 271733878 3285377520.
(** The message schedule, newest word first. *)
Fixpoint extend (n : nat) (w : list Z) : list Z :=
  match n with
  | O => w
  | S n' =>
      let at_ i := default 0 (w !! i) in
      extend n' (rotl (Z.lxor (Sha256.xor3 (at_ 2%nat) (at_ 7%nat) (at_ 13%nat)) (at_ 15%nat)) 1 :: w)
  end.
Definition mix (t : nat) (b c d : Z) : Z * Z :=
  if decide (t < 20)%nat then (Sha256.ch b c d, 1518500249)
  else if decide (t < 40)%nat then (Sha256.xor3 b c d, 1859775393)
  else if decide (t < 60)%nat then (Sha256.maj b c d, 2400959708)
  else (Sha256.xor3 b c d, 3395469782).
Definition round (s : state) (tw : nat * Z) : state :=
  let '(f, k) := mix tw.1 (hb s) (hc s) (hd s) in
  let temp := Sha256.add32 (Sha256.add32 (rotl (ha s) 5) f) (Sha256.add32 (he s) (Sha256.add32 tw.2 k)) in
  State temp (ha s) (rotl (hb s) 30) (hc s) (hd s).
Definition compress (s : state) (block : list Z) : state :=
  let w := reverse (extend 64 (reverse block)) in
  let r := foldl round s (zip (seq 0 80) w) in
  State (Sha256.add32 (ha s) (ha r)) (Sha256.add32 (hb s) (hb r)) (Sha256.add32 (hc s) (hc r))
        (Sha256.add32 (hd s) (hd r)) (Sha256.add32 (he s) (he r)).
Definition hexdigest (s : string) : string :=
  let bytes := Sha256.pad ((λ c, Z.of_nat (ord c)) <$> text s) in
  let words := Sha256.be_word <$> Sha256.chunks (length bytes) 4 bytes in
  let d := foldl compress initial (Sha256.chunks (length words) 16 words) in
  Sha256.hex_word 8 (ha d) +:+ Sha256.hex_word 8 (hb d) +:+ Sha256.hex_word 8 (hc d) +:+
  Sha256.hex_word 8 (hd d) +:+ Sha256.hex_word 8 (he d).
Example sha1_vectors :
  hexdigest "abc" = "a9993e364706816aba3e25717850c26c9cd0d89d" ∧
  hexdigest "" = "da39a3ee5e6b4b0d3255bfef95601890afd80709".
Proof. vm_compute. split; reflexivity. Qed.
End Sha1.

(** ** Rules *)

Inductive rule_scope := ScopeEdict | ScopeAlways.
#[export] Instance rule_scope_eq_dec : EqDecision rule_scope.
Proof. solve_decision. Defined.
Inductive rule_source := FromApproval | FromProfile | FromManual.
#[export] Instance rule_source_eq_dec : EqDecision rule_source.
Proof. solve_decision. Defined.

Record SessionRule := mkSessionRule {
  sr_rule_id : string;
  sr_tool_name : string;
  sr_arg_fingerprint : string;
  sr_scope : rule_scope;
  sr_edict_id : option string;
  sr_granted_at : Z;
  sr_granted_by_decree_id : option string;
  sr_source : rule_source;
  sr_reason : string;
  sr_expires_at : option Z;
}.

(** ** Fingerprints *)

(** [os.path.dirname] *)
Fixpoint rev_until_slash (l : ustr) : ustr :=
  match l with [] => [] | c :: r => if c =? SLASH then l else rev_until_slash r end.
Fixpoint drop_slashes (l : ustr) : ustr :=
  match l with c :: r => if c =? SLASH then drop_slashes r else l | [] => [] end.
Definition dirname (p : ustr) : ustr :=
  let head := rev_until_slash (reverse p) in
  if forallb (λ c, c =? SLASH) head then reverse head else reverse (drop_slashes head).

(** [a.get(k) or d] *)
Definition get_or (a : list (string * json)) (k : string) (d : json) : json :=
  match obj_get a k with Some v => if truthy v then v else d | None => d end.

Definition fingerprint_edit_file (a : list (string * json)) : result string :=
  match get_or a "path" (get_or a "file_path" (JStr "")) with
  | JStr p => let d := dirname (u p) in Ok ("dir:" +:+ match d with [] => "." | _ => s_of d end)
  | _ => Err (Exn TypeError "expected str, bytes or os.PathLike object")
  end.

(** [s.split()] *)
Fixpoint words_of (word : ustr) (s : ustr) : list ustr :=
  match s with
  | [] => match word with [] => [] | _ => [word] end
  | c :: r => if isspace c then match word with [] => words_of [] r | _ => word :: words_of [] r end
              else words_of (word ++ [c]) r
  end.
Definition two_words (s : ustr) : string := joined " " (s_of <$> take 2 (words_of [] s)).
Definition fingerprint_bash (a : list (string * json)) : result string :=
  match get_or a "command" (JStr "") with
  | JStr c => Ok ("bash:" +:+ two_words (strip (u c)))
  | _ => no_attribute "strip"
  end.

Definition fingerprint_memory (a : list (string * json)) : result string :=
  let keys := filter (λ k, k ≠ "value" ∧ k ≠ "content") a.*1 in
  Ok ("memory:" +:+ joined "," (order_by (λ x y, le_of (text_compare x y)) keys)).

(** The arguments are JSON values, which [json.dumps] writes without error. *)
Definition fingerprint_default (a : list (string * json)) : result string :=
  let canonical := String.string_of_list_ascii (dumps_default (sort_keys (JObj a))) in
  Ok ("hash:" +:+ String.string_of_list_ascii (take 16 (text (Sha1.hexdigest canonical)))).

Definition compute_fingerprint (tool : string) (a : list (string * json)) : result string :=
  if bool_decide (tool ∈ ["edit_file"; "write_file"]) then fingerprint_edit_file a
  else if bool_decide (tool ∈ ["shell_exec"; "bash"]) then fingerprint_bash a
  else if startswith (u "memory_") (u tool) then fingerprint_memory a
  else fingerprint_default a.

Example fingerprints :
  compute_fingerprint "edit_file" [("path", JStr "src/a/b.py")] = Ok "dir:src/a" ∧
  compute_fingerprint "write_file" [("file_path", JStr "b.py")] = Ok "dir:." ∧
  compute_fingerprint "edit_file" [("path", JStr "//x//y")] = Ok "dir://x" ∧
  compute_fingerprint "shell_exec" [("command", JStr "  git   push origin main")] = Ok "bash:git push" ∧
  compute_fingerprint "memory_write" [("value", JInt 1); ("scope", JNull); ("key", JNull)] = Ok "memory:key,scope" ∧
  compute_fingerprint "grep" [("q", JStr "x")] = Ok "hash:7daa0ba6f598c1b6".
Proof. vm_compute. repeat split; reflexivity. Qed.

(** ** The stores *)

(** [InMemorySessionRuleStore._rules] and the table session_rules. *)
Record rule_store := mkStore { in_memory : dict SessionRule; sqlite : gmap string SessionRule }.

(** *** In memory *)

Definition fingerprint_fits (r : SessionRule) (fp : string) : bool :=
  bool_decide (sr_arg_fingerprint r = "*") || bool_decide (sr_arg_fingerprint r = fp).
Definition in_memory_fits (tool fp : string) (eid : option string) (now : Z) (r : SessionRule) : bool :=
  bool_decide (sr_tool_name r = tool) && fingerprint_fits r fp &&
  negb (bool_decide (sr_scope r = ScopeEdict) && negb (bool_decide (sr_edict_id r = eid))) &&
  negb (match sr_expires_at r with Some t => t <? now | None => false end).

Definition memory_create (r : SessionRule) (m : dict SessionRule) : dict SessionRule := dict_put m (sr_rule_id r) r.
Definition memory_find (m : dict SessionRule) (tool : string) (a : list (string * json)) (eid : option string) (now : Z) :
    result (option SessionRule) :=
  match compute_fingerprint tool a with
  | Err e => Err e
  | Ok fp => Ok (find (in_memory_fits tool fp eid now) m.*2)
  end.
Definition memory_list (m : dict SessionRule) (scope : rule_scope) (eid : option string) : list SessionRule :=
  filter (λ r, sr_scope r = scope ∧ (eid = None ∨ sr_edict_id r = eid)) m.*2.
Definition memory_revoke (id : string) (m : dict SessionRule) : dict SessionRule := filter (λ kv, kv.1 ≠ id) m.
Definition memory_clear (eid : string) (m : dict SessionRule) : dict SessionRule :=
  filter (λ kv, sr_edict_id kv.2 ≠ Some eid) m.

(** *** SQLite; [ORDER BY granted_at DESC], ties in no particular order *)

Definition newest_first (x y : SessionRule) : bool := sr_granted_at y <=? sr_granted_at x.
Definition sqlite_fits (tool fp : string) (now : Z) (r : SessionRule) : bool :=
  bool_decide (sr_tool_name r = tool) && fingerprint_fits r fp && bool_decide (sr_scope r = ScopeAlways) &&
  match sr_expires_at r with None => true | Some t => now <? t end.
Definition sqlite_create (r : SessionRule) (t : gmap string SessionRule) : gmap string SessionRule :=
  <[sr_rule_id r := r]> t.
Definition sqlite_find (t : gmap string SessionRule) (tool : string) (a : list (string * json)) (now : Z) :
    result (option SessionRule) :=
  match compute_fingerprint tool a with
  | Err e => Err e
  | Ok fp => Ok (head (order_by newest_first (where_rows (sqlite_fits tool fp now) t)))
  end.
Definition sqlite_list (t : gmap string SessionRule) (scope : rule_scope) (eid : option string) : list SessionRule :=
  order_by newest_first
    (where_rows (λ r, bool_decide (sr_scope r = scope) &&
       match eid with Some e => bool_decide (sr_edict_id r = Some e) | None => true end) t).

(** *** [CompositeSessionRuleStore] *)

Definition create (r : SessionRule) (s : rule_store) : rule_store :=
  match sr_scope r with
  | ScopeAlways => mkStore (in_memory s) (sqlite_create r (sqlite s))
  | ScopeEdict => mkStore (memory_create r (in_memory s)) (sqlite s)
  end.
Definition find_match (s : rule_store) (tool : string) (a : list (string * json)) (eid : option string) (now : Z) :
    result (option SessionRule) :=
  match memory_find (in_memory s) tool a eid now with
  | Ok None => sqlite_find (sqlite s) tool a now
  | hit => hit
  end.
Definition list_by_scope (s : rule_store) (scope : rule_scope) (eid : option string) : list SessionRule :=
  match scope with
  | ScopeAlways => sqlite_list (sqlite s) scope eid
  | ScopeEdict => memory_list (in_memory s) scope eid
  end.
Definition revoke (id : string) (s : rule_store) : rule_store :=
  mkStore (memory_revoke id (in_memory s)) (delete id (sqlite s)).
Definition clear_edict (eid : string) (s : rule_store) : rule_store :=
  mkStore (memory_clear eid (in_memory s)) (sqlite s).

(** ** Making rules *)

(** [now + expires_after] in microseconds *)
Definition expiry (now delta : Z) : result Z :=
  if representable (now + delta) then Ok (now + delta) else Err (Exn OverflowError "date value out of range").
Definition thirty_days : Z := 30 * 86400 * 1000000.

Definition make_session_rule (tool fp : string) (scope : rule_scope) (source : rule_source) (reason : string)
    (eid decree : option string) (expires_after : option Z) (now : Z) (uuid : string) : result SessionRule :=
  let rule expires := mkSessionRule uuid tool fp scope eid now decree source reason expires in
  match expires_after, scope with
  | Some delta, _ => match expiry now delta with Ok t => Ok (rule (Some t)) | Err e => Err e end
  | None, ScopeAlways => match expiry now thirty_days with Ok t => Ok (rule (Some t)) | Err e => Err e end
  | None, ScopeEdict => Ok (rule None)
  end.

(** ** [expand_profile_to_rules] (tools/policy_profile.py) *)

(** [_prefix_to_fingerprint] *)
Definition prefix_to_fingerprint (prefix : string) : string := "bash:" +:+ two_words (strip (u prefix)).

Section expand.
Context (repr : string → string).

(** [f"{name}"] of an optional text *)
Definition shown (o : option string) : string := default "None" o.
(** The rules to create: the tool, the fingerprint and the reason.  The check
    [assert_can_grant(tool, "edict")] passes for every tool. *)
Definition profile_grants (p : PolicyProfilePayload) : list (string * string * string) :=
  let template := " (template=" +:+ shown (template_name p) +:+ ")" in
  (allowed_paths p ≫= λ glob,
     (λ tool, (tool, "glob:" +:+ glob, "preconfigured by policy_profile" +:+ template)) <$> ["edit_file"; "write_file"]) ++
  ((λ prefix, ("shell_exec", prefix_to_fingerprint prefix, "preconfigured bash prefix " +:+ repr prefix +:+ template))
     <$> allowed_bash_prefixes p).

(** [clock] and [uuid] give the time and the identifier of each rule. *)
Fixpoint create_grants (grants : list (string * string * string)) (eid : string) (expires_after : option Z)
    (clock : nat → Z) (uuid : nat → string) (n : nat) : M rule_store Z :=
  match grants with
  | [] => ret 0
  | (tool, fp, reason) :: rest =>
      let! rule := of_result (make_session_rule tool fp ScopeEdict FromProfile reason (Some eid) None expires_after
                                (clock n) (uuid n)) in
      let! s := get_state in
      put_state (create rule s) ;;;
      let! created := create_grants rest eid expires_after clock uuid (S n) in
      ret (created + 1)
  end.
Definition expand_profile_to_rules (p : PolicyProfilePayload) (e : Edict) (clock : nat → Z) (uuid : nat → string) :
    M rule_store Z :=
  let expires_after := match expires_after_seconds p with
                       | Some n => if n =? 0 then None else Some (n * 1000000)
                       | None => None
                       end in
  create_grants (profile_grants p) (edict_id e) expires_after clock uuid 0.
End expand.

(** ** The decision of the hook (executor/policy_hook.py) *)

(** [_persona_exceeds_tier] *)
Definition persona_exceeds_tier (persona : option AgentPersona) (ctx : PolicyContext) : bool :=
  match persona with
  | None => false
  | Some p => bool_decide (persona_tool_verdict p (tool_name ctx) (tier_value (tool_tier ctx)) = Some TierExceeded)
  end.
Definition scope_text (s : rule_scope) : string := match s with ScopeEdict => "edict" | ScopeAlways => "always" end.
Definition source_text (s : rule_source) : string :=
  match s with FromApproval => "approval" | FromProfile => "profile" | FromManual => "manual" end.

(** The decision of [on_before_tool_call] for a decision of the engine: a
    standing rule may answer a request for approval, unless the persona exceeds
    its tier. *)
Definition session_decision (persona : option AgentPersona) (store : option rule_store) (ctx : PolicyContext) (now : Z)
    (decision : PolicyDecision) : result PolicyDecision :=
  if bool_decide (pd_verdict decision = RequireApproval) && negb (persona_exceeds_tier persona ctx) then
    match store with
    | None => Ok decision
    | Some s =>
        match find_match s (tool_name ctx) (args ctx) (Some (edict_id (edict ctx))) now with
        | Err e => Err e
        | Ok None => Ok decision
        | Ok (Some rule) =>
            Ok (mkDecision Allow ("session_rule:" +:+ sr_rule_id rule)
              ("matched session rule (scope=" +:+ scope_text (sr_scope rule) +:+ ", source=" +:+
               source_text (sr_source rule) +:+ ")")
              [("session_rule_id", JStr (sr_rule_id rule)); ("scope", JStr (scope_text (sr_scope rule)));
               ("source", JStr (source_text (sr_source rule)))])
        end
    end
  else Ok decision.

(** ** Well-formed stores *)

(** Rules are stored under their identifier, by scope. *)
Record store_inv (s : rule_store) : Prop := {
  st_memory : ∀ id r, (id, r) ∈ in_memory s → sr_rule_id r = id ∧ sr_scope r = ScopeEdict;
  st_keys : NoDup (in_memory s).*1;
  st_sqlite : ∀ id r, sqlite s !! id = Some r → sr_rule_id r = id ∧ sr_scope r = ScopeAlways;
}.

Lemma dict_put_elem {A} (d : dict A) k v k' x : (k', x) ∈ dict_put d k v → (k', x) ∈ d ∨ (k', x) = (k, v).
Proof.
  induction d as [|[j w] d IH]; cbn; [by intros ->%list_elem_of_singleton; right|].
  destruct (decide (j = k)) as [->|].
  - intros [->|H]%elem_of_cons; [by right|left; by right].
  - intros [->|H]%elem_of_cons; [left; left|]. destruct (IH H); [left; by right|by right].
Qed.
Lemma dict_put_nodup {A} (d : dict A) k v : NoDup d.*1 → NoDup (dict_put d k v).*1.
Proof.
  intros Hd. destruct (decide (k ∈ d.*1)) as [Hk|Hk]; [by rewrite dict_put_present|].
  rewrite dict_put_absent, fmap_app by done. apply NoDup_app. split; [done|]. split; [|apply NoDup_singleton].
  intros x Hx ->%list_elem_of_singleton. done.
Qed.

Lemma create_inv r s : store_inv s → store_inv (create r s).
Proof.
  intros [H1 H2 H3]. unfold create. destruct (sr_scope r) eqn:Es; split; cbn; try done.
  - intros id x [H| [= -> ->]]%dict_put_elem; [by apply H1|done].
  - by apply dict_put_nodup.
  - unfold sqlite_create. intros id x. destruct (decide (sr_rule_id r = id)) as [<-|Hne].
    + rewrite lookup_insert_eq. by intros [= <-].
    + rewrite lookup_insert_ne by done. apply H3.
Qed.
Lemma revoke_inv id s : store_inv s → store_inv (revoke id s).
Proof.
  intros [H1 H2 H3]. split; cbn.
  - intros k r [_ Hin]%list_elem_of_filter. by apply H1.
  - by apply nodup_keys_filter.
  - intros k r [_ Hk]%lookup_delete_Some. by apply H3.
Qed.
Lemma clear_inv eid s : store_inv s → store_inv (clear_edict eid s).
Proof.
  intros [H1 H2 H3]. split; cbn; [|by apply nodup_keys_filter|done].
  intros k r [_ Hin]%list_elem_of_filter. by apply H1.
Qed.

(** The rules of either store. *)
Definition stored_rule (s : rule_store) (r : SessionRule) : Prop :=
  (∃ id, (id, r) ∈ in_memory s) ∨ ∃ id, sqlite s !! id = Some r.
(** What a rule must satisfy to answer a call. *)
Definition covers (tool fp : string) (eid : option string) (now : Z) (r : SessionRule) : Prop :=
  sr_tool_name r = tool ∧ (sr_arg_fingerprint r = "*" ∨ sr_arg_fingerprint r = fp) ∧
  match sr_scope r with
  | ScopeEdict => sr_edict_id r = eid ∧ ∀ t, sr_expires_at r = Some t → now ≤ t
  | ScopeAlways => ∀ t, sr_expires_at r = Some t → now < t
  end.

Lemma fingerprint_fits_true r fp :
  fingerprint_fits r fp = true ↔ sr_arg_fingerprint r = "*" ∨ sr_arg_fingerprint r = fp.
Proof. unfold fingerprint_fits. by rewrite orb_true_iff, !bool_decide_eq_true. Qed.
Lemma memory_fits_covers tool fp eid now r :
  sr_scope r = ScopeEdict → in_memory_fits tool fp eid now r = true ↔ covers tool fp eid now r.
Proof.
  intros Hs. unfold in_memory_fits, covers. rewrite Hs, !andb_true_iff, fingerprint_fits_true, bool_decide_eq_true.
  rewrite bool_decide_eq_true_2 by done. cbn [andb]. rewrite negb_involutive, bool_decide_eq_true.
  assert (Ht : negb (match sr_expires_at r with Some t => t <? now | None => false end) = true ↔
    ∀ t, sr_expires_at r = Some t → now ≤ t).
  { destruct (sr_expires_at r) as [t|]; cbn; [|by split].
    rewrite negb_true_iff, Z.ltb_ge. split; [by intros ? ? [= <-]|intros H; by apply H]. }
  rewrite Ht. tauto.
Qed.
Lemma sqlite_fits_covers tool fp eid now r :
  sr_scope r = ScopeAlways → sqlite_fits tool fp now r = true ↔ covers tool fp eid now r.
Proof.
  intros Hs. unfold sqlite_fits, covers. rewrite Hs, !andb_true_iff, fingerprint_fits_true, bool_decide_eq_true.
  rewrite bool_decide_eq_true_2 by done.
  assert (Ht : match sr_expires_at r with None => true | Some t => now <? t end = true ↔
    ∀ t, sr_expires_at r = Some t → now < t).
  { destruct (sr_expires_at r) as [t|]; [|by split].
    rewrite Z.ltb_lt. split; [by intros ? ? [= <-]|intros H; by apply H]. }
  rewrite Ht. tauto.
Qed.

Lemma find_match_some s tool a eid now fp r :
  store_inv s → compute_fingerprint tool a = Ok fp → find_match s tool a eid now = Ok (Some r) →
  stored_rule s r ∧ covers tool fp eid now r.
Proof.
  intros Hi Hfp. unfold find_match, memory_find, sqlite_find. rewrite Hfp.
  destruct (find _ _) as [x|] eqn:E.
  - intros [= ->]. apply find_some in E as [Hin Hf]. apply list_elem_of_In, list_elem_of_fmap in Hin as ([id y] & -> & Hin).
    destruct (st_memory s Hi _ _ Hin) as [_ Hs]. split; [left; by exists id|]. by apply memory_fits_covers.
  - intros [= H]. destruct (order_by _ _) as [|y l] eqn:Eo; [done|]. injection H as ->.
    assert (Hin : r ∈ order_by newest_first (where_rows (sqlite_fits tool fp now) (sqlite s))) by (rewrite Eo; left).
    rewrite elem_of_order_by in Hin. apply elem_of_where_rows in Hin as (Hf & id & Hid).
    destruct (st_sqlite s Hi _ _ Hid) as [_ Hs]. split; [right; by exists id|]. by apply sqlite_fits_covers.
Qed.
Lemma find_match_none s tool a eid now fp :
  store_inv s → compute_fingerprint tool a = Ok fp → find_match s tool a eid now = Ok None →
  ∀ r, stored_rule s r → ¬ covers tool fp eid now r.
Proof.
  intros Hi Hfp. unfold find_match, memory_find, sqlite_find. rewrite Hfp.
  destruct (find _ _) as [x|] eqn:E; [done|]. intros [= H] r [[id Hin]|[id Hid]] Hc.
  - destruct (st_memory s Hi _ _ Hin) as [_ Hs]. apply memory_fits_covers in Hc; [|done].
    assert (Hr : In r (in_memory s).*2) by (apply list_elem_of_In, list_elem_of_fmap; by exists (id, r)).
    pose proof (find_none _ _ E r Hr). congruence.
  - destruct (st_sqlite s Hi _ _ Hid) as [_ Hs]. apply sqlite_fits_covers in Hc; [|done].
    assert (Hin : r ∈ order_by newest_first (where_rows (sqlite_fits tool fp now) (sqlite s)))
      by (rewrite elem_of_order_by; apply elem_of_where_rows; eauto).
    destruct (order_by _ _); [by apply elem_of_nil in Hin|done].
Qed.

(** ** Theorems *)

Inductive store_op :=
  | OpCreate (r : SessionRule)
  | OpRevoke (id : string)
  | OpClear (eid : string).
Definition exec_store (s : rule_store) (op : store_op) : rule_store :=
  match op with OpCreate r => create r s | OpRevoke id => revoke id s | OpClear eid => clear_edict eid s end.
Definition empty_store : rule_store := mkStore [] ∅.

Lemma store_reachable ops : store_inv (foldl exec_store empty_store ops).
Proof.
  assert (H : ∀ s, store_inv s → store_inv (foldl exec_store s ops)).
  { induction ops as [|op ops IH]; intros s Hs; [done|]. cbn [foldl]. apply IH.
    destruct op; [by apply create_inv|by apply revoke_inv|by apply clear_inv]. }
  apply H. split; cbn; [|constructor|by intros ? ?; rewrite lookup_empty].
  intros ? ? Hin. by apply elem_of_nil in Hin.
Qed.

(** A standing rule answers exactly the calls it covers: after any sequence of creations,
    revocations and clearings, find_match returns a stored rule for the same tool, with the
    wildcard or the fingerprint of the arguments, of the same edict unless it is permanent,
    and not expired; it returns None only when no stored rule is such. *)
Theorem find_match_correct ops tool a eid now fp :
  compute_fingerprint tool a = Ok fp →
  let s := foldl exec_store empty_store ops in
  match find_match s tool a eid now with
  | Ok (Some r) => stored_rule s r ∧ covers tool fp eid now r
  | Ok None => ∀ r, stored_rule s r → ¬ covers tool fp eid now r
  | Err _ => False
  end.
Proof.
  intros Hfp s. pose proof (store_reachable ops) as Hi. fold s in Hi.
  destruct (find_match s tool a eid now) as [[r|]|e] eqn:E.
  - by eapply find_match_some.
  - by eapply find_match_none.
  - unfold find_match, memory_find, sqlite_find in E. rewrite Hfp in E. by destruct (find _ _).
Qed.

(** Standing rules only answer requests for approval: the hook changes the decision of the
    engine only from a request for approval to a permission, and only when a stored rule
    covers the call and the persona does not exceed its tier; a refusal stays a refusal, and
    with the built-in rules a persona above its tier is never let through by a rule. *)
Theorem session_rules_only_answer persona ops ctx now d d' :
  let s := foldl exec_store empty_store ops in
  session_decision persona (Some s) ctx now d = Ok d' →
  (d' = d ∨
   pd_verdict d = RequireApproval ∧ pd_verdict d' = Allow ∧ persona_exceeds_tier persona ctx = false ∧
   ∃ fp r, compute_fingerprint (tool_name ctx) (args ctx) = Ok fp ∧ stored_rule s r ∧
     covers (tool_name ctx) fp (Some (edict_id (edict ctx))) now r) ∧
  (∀ overrides resolve host repr describe time,
     local_calls resolve host →
     evaluate describe (make_engine (build_default_rules persona overrides resolve host repr time)) ctx = Ok d →
     persona_exceeds_tier persona ctx = true → pd_verdict d' ≠ Allow).
Proof.
  intros s H. pose proof (store_reachable ops) as Hi. fold s in Hi.
  assert (Hfirst : d' = d ∨
    pd_verdict d = RequireApproval ∧ pd_verdict d' = Allow ∧ persona_exceeds_tier persona ctx = false ∧
    ∃ fp r, compute_fingerprint (tool_name ctx) (args ctx) = Ok fp ∧ stored_rule s r ∧
      covers (tool_name ctx) fp (Some (edict_id (edict ctx))) now r).
  { unfold session_decision in H. destruct (bool_decide _ && _) eqn:Eb; [|left; congruence]. bools.
    destruct (find_match s _ _ _ now) as [[r|]|e] eqn:E; [|left; congruence|done]. injection H as <-. right.
    destruct (compute_fingerprint (tool_name ctx) (args ctx)) as [fp|x] eqn:Hfp.
    2: { unfold find_match, memory_find in E. by rewrite Hfp in E. }
    destruct (find_match_some s _ _ _ _ fp r Hi Hfp E) as [Hs Hc]. split_and!; try done. by exists fp, r. }
  split; [exact Hfirst|]. intros overrides resolve host repr describe time Hl He Hx.
  destruct Hfirst as [->|(_ & _ & Hn & _)]; [|congruence].
  rewrite decide_call_eq in He by done.
  assert (d = first_decisive (answers (build_default_rules persona overrides resolve host repr time) ctx)) as ->
    by congruence.
  unfold persona_exceeds_tier in Hx. destruct persona as [p|]; [|done]. bools. by eapply tier_exceeded_asks.
Qed.

(** *** Grants of a profile *)

Lemma fingerprint_edit_dir a fp : fingerprint_edit_file a = Ok fp → ∃ d, fp = "dir:" +:+ d.
Proof.
  unfold fingerprint_edit_file. destruct (get_or _ _ _); try done. cbv zeta. intros [= <-].
  by destruct (dirname _) eqn:E; eexists.
Qed.

Lemma find_app {A} (f : A → bool) l1 l2 :
  find f (l1 ++ l2) = match find f l1 with Some x => Some x | None => find f l2 end.
Proof. induction l1 as [|x l1 IH]; [done|]. cbn. by destruct (f x). Qed.

(** The rules a run of [create_grants] adds, in order. *)
Lemma create_grants_added grants eid delta clock uuid n s c s' :
  create_grants grants eid delta clock uuid n s = (Ok c, s') →
  (∀ i j, uuid i = uuid j → i = j) → (∀ i, n ≤ i → uuid i ∉ (in_memory s).*1)%nat →
  c = Z.of_nat (length grants) ∧ sqlite s' = sqlite s ∧
  ∃ added, in_memory s' = in_memory s ++ added ∧
    Forall2 (λ g kv, sr_tool_name kv.2 = g.1.1 ∧ sr_arg_fingerprint kv.2 = g.1.2 ∧ sr_scope kv.2 = ScopeEdict ∧
               sr_edict_id kv.2 = Some eid ∧ sr_source kv.2 = FromProfile) grants added.
Proof.
  intros H Hinj. revert n s c H. induction grants as [|[[tool fp] reason] grants IH]; intros n s c H Hfresh.
  - apply ret_Ok_inv in H as [-> ->]. split; [done|]. split; [done|]. exists []. by rewrite app_nil_r.
  - cbn [create_grants] in H. step_M H. apply of_result_Ok_inv in E as [Hmk ->].
    rewrite bind_get_state in H. step_M H. injection E as <- <-. step_M H. apply ret_Ok_inv in H as [-> ->].
    assert (Hr : sr_rule_id a = uuid n ∧ sr_tool_name a = tool ∧ sr_arg_fingerprint a = fp ∧ sr_scope a = ScopeEdict ∧
      sr_edict_id a = Some eid ∧ sr_source a = FromProfile).
    { unfold make_session_rule in Hmk. destruct delta as [x|]; [destruct (expiry _ _); [|done]|]; by injection Hmk as <-. }
    destruct Hr as (Hid & Ht & Hf & Hs & He & Hso). unfold create in E. rewrite Hs in E.
    assert (Hnew : memory_create a (in_memory s) = in_memory s ++ [(uuid n, a)]).
    { unfold memory_create. rewrite Hid, dict_put_absent; [done|]. by apply Hfresh. }
    destruct (IH (S n) _ _ E) as (-> & Hsql & added & Hmem & Hall).
    { intros i Hi. cbn. rewrite Hnew, fmap_app, elem_of_app. intros [Hin|Hin].
      - by apply (Hfresh i); [lia|].
      - apply list_elem_of_singleton in Hin. cbn in Hin. apply Hinj in Hin. lia. }
    split; [cbn [length]; lia|]. split; [done|]. exists ((uuid n, a) :: added). cbn in Hmem. rewrite Hmem, Hnew.
    split; [by rewrite <-(assoc_L (++))|]. by constructor.
Qed.

(** Path grants of a profile never answer: the rules that expand_profile_to_rules makes for
    the path globs carry a fingerprint that no call of edit_file or write_file has, so every
    lookup for these tools returns after the expansion what it returned before. *)
Theorem profile_path_grants_inert repr p e clock uuid s n s' tool a eid now :
  (∀ i j, uuid i = uuid j → i = j) → (∀ i, uuid i ∉ (in_memory s).*1) →
  expand_profile_to_rules repr p e clock uuid s = (Ok n, s') →
  tool ∈ ["edit_file"; "write_file"] →
  n = 2 * Z.of_nat (length (allowed_paths p)) + Z.of_nat (length (allowed_bash_prefixes p)) ∧
  find_match s' tool a eid now = find_match s tool a eid now.
Proof.
  intros Hinj Hfresh H Htool. apply create_grants_added in H as (-> & Hsql & added & Hmem & Hall); [|done|by intros].
  split.
  - unfold profile_grants. rewrite length_app, length_fmap.
    assert (Hlen : length (allowed_paths p ≫= λ glob, (λ tool, (tool, "glob:" +:+ glob,
      "preconfigured by policy_profile" +:+ " (template=" +:+ shown (template_name p) +:+ ")")) <$>
      ["edit_file"; "write_file"]) = (2 * length (allowed_paths p))%nat).
    { induction (allowed_paths p) as [|g l IH]; [done|]. cbn [mbind list_bind]. rewrite length_app, IH. cbn. lia. }
    rewrite Hlen. lia.
  - unfold find_match, memory_find. rewrite Hsql, Hmem, fmap_app.
    assert (Hcf : compute_fingerprint tool a = fingerprint_edit_file a)
      by (unfold compute_fingerprint; by rewrite bool_decide_eq_true_2).
    rewrite Hcf. destruct (fingerprint_edit_file a) as [fp|x] eqn:Hfp; [|done].
    apply fingerprint_edit_dir in Hfp as [d ->]. rewrite find_app.
    assert (Hnone : find (in_memory_fits tool ("dir:" +:+ d) eid now) added.*2 = None).
    { assert (Hg : Forall (λ g, g.1.1 = "shell_exec" ∨ ∃ x, g.1.2 = "glob:" +:+ x) (profile_grants repr p)).
      { unfold profile_grants. apply Forall_app. split.
        - apply Forall_forall. intros g (glob & Hin & _)%list_elem_of_bind.
          apply list_elem_of_fmap in Hin as (t & -> & _). right. by eexists.
        - apply Forall_forall. intros g (prefix & -> & _)%list_elem_of_fmap. by left. }
      clear -Hall Hg Htool. induction Hall as [|g kv gs added (Ht & Hf & _) _ IH]; [done|].
      apply Forall_cons in Hg as [Hg Hgs]. cbn [fmap list_fmap find]. rewrite IH by done.
      assert (Hno : in_memory_fits tool ("dir:" +:+ d) eid now kv.2 = false); [|by rewrite Hno].
      unfold in_memory_fits, fingerprint_fits. rewrite Ht, Hf. destruct Hg as [Hg|[x Hg]]; rewrite Hg.
      - rewrite bool_decide_eq_false_2; [done|]. intros <-. set_solver.
      - rewrite (bool_decide_eq_false_2 ("glob:" +:+ x = "*")), (bool_decide_eq_false_2 ("glob:" +:+ x = _)) by done.
        cbn [orb]. by rewrite andb_false_r. }
    rewrite Hnone. by destruct (find _ (in_memory s).*2).
Qed.

(** ** A sample *)

Module RuleSample.
Definition profile : PolicyProfilePayload := mkProfile ["**/*"] ["git "; "git push"] [] 3 None (Some "trusted-automation").
Definition e : Edict := mkEdict "e" (mkRuntime [] (Some profile) [] [] []).
Definition uuid (n : nat) : string := pretty n.
Definition clock (_ : nat) : Z := 63000000000000000.
Definition quoted (s : string) : string := "'" +:+ s +:+ "'".
Definition expanded : result Z * rule_store := expand_profile_to_rules quoted profile e clock uuid empty_store.
Definition always : SessionRule :=
  mkSessionRule "r" "grep" "*" ScopeAlways None (clock 0%nat) None FromManual "manual" (Some (clock 0%nat + 10)).
Lemma uuid_inj i j : uuid i = uuid j → i = j.
Proof. apply (inj pretty). Qed.
End RuleSample.

(** Four rules are made; of the shell rules the one with two words answers the
    commands that start with them, the one with a single word only that word. *)
Example profile_expansion :
  RuleSample.expanded.1 = Ok 4 ∧
  let find c := match find_match RuleSample.expanded.2 "shell_exec" [("command", JStr c)] (Some "e") 63000000000000000 with
                | Ok (Some r) => Some (sr_arg_fingerprint r)
                | _ => None
                end in
  find "git push origin main" = Some "bash:git push" ∧ find "git status" = None ∧ find "git" = Some "bash:git" ∧
  find_match RuleSample.expanded.2 "edit_file" [("path", JStr "src/a.py")] (Some "e") 63000000000000000 = Ok None.
Proof. vm_compute. repeat split; reflexivity. Qed.

Lemma find_match_correct_witness :
  match find_match (foldl exec_store empty_store [OpCreate RuleSample.always]) "grep" [("q", JStr "x")] None
          (RuleSample.clock 0%nat) with
  | Ok (Some r) => stored_rule (foldl exec_store empty_store [OpCreate RuleSample.always]) r
  | _ => False
  end.
Proof.
  pose proof (find_match_correct [OpCreate RuleSample.always] "grep" [("q", JStr "x")] None (RuleSample.clock 0%nat)
    "hash:7daa0ba6f598c1b6" eq_refl) as H. cbv zeta in H.
  assert (E : find_match (foldl exec_store empty_store [OpCreate RuleSample.always]) "grep" [("q", JStr "x")] None
    (RuleSample.clock 0%nat) = Ok (Some RuleSample.always)) by (vm_compute; reflexivity).
  rewrite E in H |- *. exact (proj1 H).
Defined.

Lemma session_rules_only_answer_witness :
  let ctx := mkContext "grep" T3_WRITE [("q", JStr "x")] RuleSample.e (parse_path (u "/work")) 0 in
  ∃ d', session_decision None (Some (foldl exec_store empty_store [OpCreate RuleSample.always])) ctx
          (RuleSample.clock 0%nat) (mkDecision RequireApproval "default_tier" "" []) = Ok d' ∧ pd_verdict d' = Allow.
Proof.
  intros ctx. set (d := mkDecision RequireApproval "default_tier" "" []).
  destruct (session_decision None (Some (foldl exec_store empty_store [OpCreate RuleSample.always])) ctx
    (RuleSample.clock 0%nat) d) as [d'|x] eqn:E; [|vm_compute in E; discriminate].
  exists d'. split; [reflexivity|].
  destruct (session_rules_only_answer None [OpCreate RuleSample.always] ctx (RuleSample.clock 0%nat) d d' E)
    as [[Hd|(_ & Hv & _)] _]; [|exact Hv].
  vm_compute in E. subst d'. injection E as E. discriminate.
Defined.

Lemma profile_path_grants_inert_witness :
  find_match RuleSample.expanded.2 "edit_file" [("path", JStr "src/a.py")] (Some "e") 63000000000000000 =
  find_match empty_store "edit_file" [("path", JStr "src/a.py")] (Some "e") 63000000000000000.
Proof.
  assert (Hn : RuleSample.expanded.1 = Ok 4) by (vm_compute; reflexivity).
  destruct RuleSample.expanded as [r s'] eqn:E. cbn in Hn. subst r.
  assert (Hfresh : ∀ i, RuleSample.uuid i ∉ (in_memory empty_store).*1) by (intros i; apply not_elem_of_nil).
  assert (Ht : "edit_file" ∈ ["edit_file"; "write_file"]) by (left).
  exact (proj2 (profile_path_grants_inert RuleSample.quoted RuleSample.profile RuleSample.e RuleSample.clock
    RuleSample.uuid empty_store 4 s' "edit_file" [("path", JStr "src/a.py")] (Some "e") 63000000000000000
    RuleSample.uuid_inj Hfresh E Ht)).
Defined.
