(* ===== verification/Estop.v ===== *)
(** * The emergency stop

    Models src/src/tianshu/security/estop.py and the emergency-stop rows of
    storage/security_repo.py: a cached state that every tool call is checked
    against, kept in one row that is written together with an audit event.

    The readings of the clock, the generated identifiers and the caller's
    context are arguments of a call; [float_of], [lax_int] and
    [parse_datetime] are the parameters of SystemAudit.v. *)

From S2P Require Import Prelude.
From S2P Require Import Sql.
From S2P Require Import Canonical.
From S2P Require Import PyText.
From S2P Require Import JsonParse.
From S2P Require Import Timestamp.
From S2P Require Import SensitivePayload.
From S2P Require Import UnitOfWork.
From S2P Require Import Models.
From S2P Require Import Schema.
From S2P Require Import SystemAudit.

(** ** State *)

Definition NETWORK_TOOL_NAMES : list string :=
  ["web_fetch"; "web_search"; "api_request"; "web_extract"; "lark_cli"; "shell_exec"; "bash"].

Record EstopState := mkEstop {
  kill_all : bool;
  network_kill : bool;
  frozen_tools : gset string;
  es_updated_at : option string;
  es_reason : option string;
}.
#[export] Instance EstopState_eq_dec : EqDecision EstopState.
Proof. solve_decision. Defined.

Definition clear_state : EstopState := mkEstop false false ∅ None None.
Definition engaged (s : EstopState) : bool :=
  kill_all s || network_kill s || negb (bool_decide (frozen_tools s = ∅)).
Definition fail_closed : EstopState := mkEstop true false ∅ None (Some "estop state corrupted — fail closed").

(** [check]: the reason of a refusal *)
Definition check (s : EstopState) (tool_name : string) : option string :=
  if negb (engaged s) then None
  else if kill_all s then Some "emergency stop engaged (kill_all): all tool calls are rejected"
  else if network_kill s && member tool_name NETWORK_TOOL_NAMES then
    Some ("emergency stop engaged (network_kill): tool '" +:+ tool_name +:+ "' is network-capable")
  else if bool_decide (tool_name ∈ frozen_tools s) then
    Some ("emergency stop engaged (tool_freeze): tool '" +:+ tool_name +:+ "' is frozen")
  else None.

(** ** The row (storage/security_repo.py) *)

Record estop_row := mkEstopRow {
  er_kill_all : Z;
  er_network_kill : Z;
  er_frozen_tools_json : string;
  er_updated_at : option string;
  er_reason : option string;
}.
(** The tables of the other repositories, and the single row of [estop_state]. *)
Record security_db := mkSecurity {
  sd_main : db;
  sd_estop : option estop_row;
}.
Definition on_main {A} (m : M db A) : M security_db A := λ d,
  let '(out, d') := m (sd_main d) in (out, mkSecurity d' (sd_estop d)).

(** [sorted(frozen_tools)]: the order of code points is that of UTF-8 bytes *)
Definition sorted_tools (t : gset string) : list string :=
  order_by (λ a b, le_of (text_compare a b)) (base.elements t).
(** [json.dumps(sorted(state.frozen_tools))] *)
Definition tools_json (t : gset string) : string := str_of (dumps_default (JList (JStr <$> sorted_tools t))).

(** [_save_estop_state_unlocked] on the dictionary of [_persist] *)
Definition row_of (s : EstopState) : estop_row :=
  let frozen := tools_json (frozen_tools s) in
  mkEstopRow (if kill_all s then 1 else 0) (if network_kill s then 1 else 0)
    (if bool_decide (frozen = "") then "[]" else frozen) (es_updated_at s) (es_reason s).
Definition save_estop_state_unlocked (s : EstopState) : M security_db unit := λ d,
  (Ok tt, mkSecurity (sd_main d) (Some (row_of s))).

(** ** [_load] *)

(** [frozenset(value)]; [None] is its [TypeError].  [Untyped] is a set with
    members that are not strings, which no call writes. *)
Inductive tool_set := Tools (t : gset string) | Untyped.
Definition unhashable (v : json) : bool := match v with JList _ | JObj _ => true | _ => false end.
Definition string_of (v : json) : option string := match v with JStr s => Some s | _ => None end.
Definition frozenset_of (v : json) : option tool_set :=
  match v with
  | JList l =>
      if existsb unhashable l then None
      else match mapM string_of l with Some names => Some (Tools (list_to_set names)) | None => Some Untyped end
  | JObj items => Some (Tools (list_to_set items.*1))
  | JStr s => Some (Tools (list_to_set ((λ p, str_of (utf8 p)) <$> u s)))
  | _ => None
  end.

(** The state a manager starts with; [None] is a state outside the declared
    types ([Untyped]). *)
Definition load_row (float_of : string → pyfloat) (row : result (option estop_row)) : option EstopState :=
  match row with
  | Err _ => Some fail_closed
  | Ok None => Some clear_state
  | Ok (Some r) =>
      let text := if bool_decide (er_frozen_tools_json r = "") then "[]" else er_frozen_tools_json r in
      match loads float_of text with
      | None => Some fail_closed
      | Some v =>
          match frozenset_of v with
          | None => Some fail_closed
          | Some Untyped => None
          | Some (Tools t) =>
              Some (mkEstop (negb (er_kill_all r =? 0)) (negb (er_network_kill r =? 0)) t (er_updated_at r) (er_reason r))
          end
      end
  end.

(** ** Changes *)

(** [SecurityAuditContext] (gateway/auth.py) *)
Record SecurityAuditContext := mkAuditContext {
  cx_correlation_id : string;
  cx_actor_digest : option string;
}.

(** What a call reads besides its arguments: the clock, the row id and clock of
    the audit event, a fresh ULID. *)
Record estop_env := mkEstopEnv {
  ee_now : Z;
  ee_audit_id : string;
  ee_audit_now : Z;
  ee_ulid : string;
}.

Record manager := Manager {
  mg_db : security_db;
  mg_state : EstopState;
}.

Definition system_digest : string := Sha256.hexdigest "system".
Definition subject_digest : string := Sha256.hexdigest "estop-state".

(** [_audit_request], without the validation of the model *)
Definition audit_request (e : estop_env) (s : EstopState) (action : string) (ctx : option SecurityAuditContext) :
    AppendSystemAuditRequest :=
  mkAppendRequest
    (match ctx with Some c => cx_correlation_id c | None => "estop-internal:" +:+ ee_ulid e end)
    (match ctx with Some c => default system_digest (cx_actor_digest c) | None => system_digest end)
    action "succeeded" "state_updated" "estop_state" subject_digest
    [("kill_all", JBool (kill_all s)); ("network_kill", JBool (network_kill s));
     ("frozen_tool_count", JInt (Z.of_nat (size (frozen_tools s))))].

Section calls.
Context (float_of : string → pyfloat) (lax_int : pyfloat → option Z) (parse_datetime : string → option datetime).

(** [save_estop_state_with_audit] *)
Definition save_estop_state_with_audit (e : estop_env) (s : EstopState) (audit : AppendSystemAuditRequest) :
    M security_db unit :=
  atomically (
    save_estop_state_unlocked s ;;;
    on_main (append_system_audit_unlocked float_of lax_int parse_datetime (ee_audit_id e) (ee_audit_now e) audit) ;;;
    ret tt).

(** [_persist] after [_audit_request]: the cache is set once the row is written. *)
Definition persist (e : estop_env) (s : EstopState) (action : string) (ctx : option SecurityAuditContext) :
    M manager unit :=
  let q := audit_request e s action ctx in
  guard (append_request_valid q) ValueError "AppendSystemAuditRequest validation failed" ;;;
  λ x, match save_estop_state_with_audit e s q (mg_db x) with
       | (Ok _, d) => (Ok tt, Manager d s)
       | (Err err, d) => (Err err, Manager d (mg_state x))
       end.

(** [reason or cur.reason] *)
Definition or_reason (reason old : option string) : option string :=
  match reason with Some r => if bool_decide (r = "") then old else reason | None => old end.

Definition engaged_state (now : Z) (kill network : option bool) (freeze : list string) (reason : option string)
    (cur : EstopState) : EstopState :=
  mkEstop (default (kill_all cur) kill) (default (network_kill cur) network)
    (frozen_tools cur ∪ list_to_set freeze) (Some (isoformat now)) (or_reason reason (es_reason cur)).
Definition engage (e : estop_env) (kill network : option bool) (freeze : list string) (reason : option string)
    (ctx : option SecurityAuditContext) : M manager EstopState :=
  let! x := get_state in
  let s := engaged_state (ee_now e) kill network freeze reason (mg_state x) in
  persist e s "estop.engaged" ctx ;;;
  ret s.

Definition resumed_state (now : Z) (kill network : bool) (unfreeze : list string) (all_clear : bool)
    (cur : EstopState) : EstopState :=
  if all_clear then mkEstop false false ∅ (Some (isoformat now)) None
  else mkEstop (if kill then false else kill_all cur) (if network then false else network_kill cur)
         (frozen_tools cur ∖ list_to_set unfreeze) (Some (isoformat now)) (es_reason cur).
Definition resume (e : estop_env) (kill network : bool) (unfreeze : list string) (all_clear : bool)
    (ctx : option SecurityAuditContext) : M manager EstopState :=
  let! x := get_state in
  let s := resumed_state (ee_now e) kill network unfreeze all_clear (mg_state x) in
  persist e s "estop.resumed" ctx ;;;
  ret s.
End calls.

(** A new process: the cache is what the row says. *)
Definition restart (float_of : string → pyfloat) (d : security_db) : option manager :=
  Manager d <$> load_row float_of (Ok (sd_estop d)).

(** ** Reading the row back *)

Definition is_ascii (s : string) : bool := forallb (λ c, bool_decide (ord c < 127)%nat) (text s).

Lemma code_points_ascii l :
  forallb (λ c, bool_decide (ord c < 127)%nat) l = true → code_points l = (λ c, Z.of_nat (ord c)) <$> l.
Proof.
  induction l as [|c l IH]; [done|]. cbn [forallb code_points]. intros H. bools.
  rewrite (proj2 (Z.ltb_lt _ _)) by lia. cbn. f_equal. by apply IH.
Qed.

Lemma escape_ascii l :
  forallb (λ c, bool_decide (ord c < 127)%nat) l = true → (code_points l ≫= escape_point) = (l ≫= escape_char).
Proof.
  intros H. rewrite code_points_ascii by done. induction l as [|c l IH]; [done|]. cbn [forallb] in H. bools.
  cbn. f_equal; [|by apply IH]. unfold escape_point. rewrite (proj2 (Z.ltb_lt _ _)) by lia.
  by rewrite Nat2Z.id, Ascii.ascii_nat_embedding.
Qed.

Lemma scan_ascii constants float_of n s r :
  (0 < n)%nat → is_ascii s = true → scan_once constants float_of n (dumps_ascii_str s ++ r) = Some (JStr s, r).
Proof.
  intros Hn Ha. destruct n as [|n]; [lia|]. unfold dumps_ascii_str. rewrite escape_ascii by done. cbn [app scan_once].
  change (bool_decide (ord quote = 34%nat)) with true. cbv iota.
  rewrite <-app_assoc, scan_dumps_str. by rewrite str_of_text.
Qed.

Lemma elements_S constants float_of n l :
  elements constants float_of (S n) l =
    match scan_once constants float_of n l with
    | None => None
    | Some (v, r) =>
        match skip_space r with
        | c :: r' =>
            if bool_decide (ord c = 93%nat) then Some ([v], r')
            else if bool_decide (ord c = 44%nat) then
              match elements constants float_of n (skip_space r') with
              | Some (vs, r'') => Some (v :: vs, r'')
              | None => None
              end
            else None
        | [] => None
        end
    end.
Proof. done. Qed.
Lemma scan_list constants float_of n r :
  scan_once constants float_of (S n) (chr 91 :: r) =
    match skip_space r with
    | [] => None
    | d :: r' =>
        if bool_decide (ord d = 93%nat) then Some (JList [], r')
        else match elements constants float_of n (d :: r') with
             | Some (vs, r'') => Some (JList vs, r'')
             | None => None
             end
    end.
Proof. done. Qed.

Lemma spaced_opens s l r : ∃ x, join_spaced (chr 93) (dumps_ascii_str <$> s :: l) ++ r = quote :: x.
Proof. destruct l; cbn [fmap list_fmap join_spaced]; unfold dumps_ascii_str; cbn [app]; by eexists. Qed.

Lemma ascii_elements constants float_of l n r :
  l ≠ [] → forallb is_ascii l = true → (length l < n)%nat →
  elements constants float_of n (join_spaced (chr 93) (dumps_ascii_str <$> l) ++ r) = Some (JStr <$> l, r).
Proof.
  revert n. induction l as [|s l IH]; intros n Hne Ha Hn; [done|]. cbn [forallb] in Ha. bools.
  destruct n as [|n]; [cbn in Hn; lia|]. cbn [length] in Hn. destruct l as [|s' l].
  - cbn [fmap list_fmap join_spaced]. rewrite <-app_assoc, elements_S.
    rewrite scan_ascii by (done || lia). done.
  - destruct (spaced_opens s' l r) as [x Hx].
    change (dumps_ascii_str <$> s :: s' :: l) with (dumps_ascii_str s :: (dumps_ascii_str <$> s' :: l)).
    change (join_spaced (chr 93) (?a :: (dumps_ascii_str <$> s' :: l)))
      with (a ++ chr 44 :: chr 32 :: join_spaced (chr 93) (dumps_ascii_str <$> s' :: l)).
    rewrite <-app_assoc. cbn [app]. rewrite Hx, elements_S, scan_ascii by (done || lia).
    change (skip_space (chr 44 :: ?y)) with (chr 44 :: y). cbv iota beta.
    change (bool_decide (ord (chr 44) = 93%nat)) with false. change (bool_decide (ord (chr 44) = 44%nat)) with true.
    cbv iota. change (skip_space (chr 32 :: quote :: x)) with (quote :: x).
    rewrite <-Hx, IH; [done|done|done|]. cbn in *. lia.
Qed.

Lemma join_length l : (length l < length (join_spaced (chr 93) (dumps_ascii_str <$> l)))%nat.
Proof.
  induction l as [|s l IH]; [cbn; lia|]. destruct l as [|s' l].
  - cbn [fmap list_fmap join_spaced]. rewrite length_app. unfold dumps_ascii_str. cbn. lia.
  - change (join_spaced (chr 93) (dumps_ascii_str <$> s :: s' :: l))
      with (dumps_ascii_str s ++ chr 44 :: chr 32 :: join_spaced (chr 93) (dumps_ascii_str <$> s' :: l)).
    rewrite length_app. cbn [length] in *. lia.
Qed.

(** A list of plain names reads back from the text [json.dumps] gives. *)
Lemma loads_names float_of l :
  forallb is_ascii l = true →
  loads float_of (str_of (dumps_default (JList (JStr <$> l)))) = Some (JList (JStr <$> l)).
Proof.
  intros Ha. unfold loads, loads_with, str_of, text. rewrite String.list_ascii_of_string_of_list_ascii.
  cbn [dumps_default]. rewrite <-list_fmap_compose.
  change (dumps_default ∘ JStr <$> l) with (dumps_ascii_str <$> l).
  change (skip_space (chr 91 :: ?x)) with (chr 91 :: x). cbn [length]. rewrite scan_list.
  destruct l as [|s l]; [done|]. destruct (spaced_opens s l []) as [x Hx]. rewrite app_nil_r in Hx.
  pose proof (join_length (s :: l)) as Hl.
  pose proof (ascii_elements true float_of (s :: l) (length (join_spaced (chr 93) (dumps_ascii_str <$> s :: l))) []
    ltac:(done) Ha Hl) as He.
  rewrite app_nil_r in He. rewrite Hx in *. change (skip_space (quote :: x)) with (quote :: x). cbv iota beta.
  change (bool_decide (ord quote = 93%nat)) with false. cbv iota. by rewrite He.
Qed.

Lemma mapM_strings l : mapM string_of (JStr <$> l) = Some l.
Proof. induction l as [|s l IH]; [done|]. cbn. by rewrite IH. Qed.
Lemma strings_hashable l : existsb unhashable (JStr <$> l) = false.
Proof. by induction l. Qed.

Lemma tools_json_nonempty t : tools_json t ≠ "".
Proof. unfold tools_json. cbn. done. Qed.

Lemma load_row_of float_of s :
  forallb is_ascii (base.elements (frozen_tools s)) = true → load_row float_of (Ok (Some (row_of s))) = Some s.
Proof.
  intros Ha. unfold load_row, row_of. cbn [er_frozen_tools_json er_kill_all er_network_kill er_updated_at er_reason].
  rewrite (bool_decide_eq_false_2 _ (tools_json_nonempty _)), (bool_decide_eq_false_2 _ (tools_json_nonempty _)).
  unfold tools_json. rewrite loads_names.
  2: { unfold sorted_tools. by rewrite (forallb_perm _ _ _ (order_by_perm _ (base.elements (frozen_tools s)))). }
  cbn [frozenset_of]. rewrite strings_hashable, mapM_strings.
  replace (list_to_set (sorted_tools (frozen_tools s))) with (frozen_tools s).
  - by destruct s as [[] [] t tm re].
  - apply leibniz_equiv. intros x. unfold sorted_tools. rewrite elem_of_list_to_set, elem_of_order_by. set_solver.
Qed.

(** ** Calls *)

Inductive estop_call :=
  | Engage (e : estop_env) (kill network : option bool) (freeze : list string) (reason : option string)
      (ctx : option SecurityAuditContext)
  | Resume (e : estop_env) (kill network : bool) (unfreeze : list string) (all_clear : bool)
      (ctx : option SecurityAuditContext).

Definition call_env (c : estop_call) : estop_env :=
  match c with Engage e _ _ _ _ _ | Resume e _ _ _ _ _ => e end.
Definition call_context (c : estop_call) : option SecurityAuditContext :=
  match c with Engage _ _ _ _ _ ctx | Resume _ _ _ _ _ ctx => ctx end.
Definition call_action (c : estop_call) : string :=
  match c with Engage _ _ _ _ _ _ => "estop.engaged" | Resume _ _ _ _ _ _ => "estop.resumed" end.
(** The state a call asks for. *)
Definition target (c : estop_call) (cur : EstopState) : EstopState :=
  match c with
  | Engage e kill network freeze reason _ => engaged_state (ee_now e) kill network freeze reason cur
  | Resume e kill network unfreeze all_clear _ => resumed_state (ee_now e) kill network unfreeze all_clear cur
  end.

Definition rejects (s : EstopState) (tool : string) : bool := is_some (check s tool).

Section theorems.
Context (float_of : string → pyfloat) (lax_int : pyfloat → option Z) (parse_datetime : string → option datetime).

Definition exec_call (c : estop_call) : M manager EstopState :=
  match c with
  | Engage e kill network freeze reason ctx => engage float_of lax_int parse_datetime e kill network freeze reason ctx
  | Resume e kill network unfreeze all_clear ctx =>
      resume float_of lax_int parse_datetime e kill network unfreeze all_clear ctx
  end.

Lemma exec_call_eq c x :
  exec_call c x =
    (let! _ := persist float_of lax_int parse_datetime (call_env c) (target c (mg_state x)) (call_action c)
                 (call_context c) in ret (target c (mg_state x))) x.
Proof. by destruct c. Qed.

(** Writing the state and its audit event: both or nothing. *)
Lemma persist_eq e s action ctx x :
  persist float_of lax_int parse_datetime e s action ctx x =
    let q := audit_request e s action ctx in
    if append_request_valid q then
      match append_system_audit float_of lax_int parse_datetime (ee_audit_id e) (ee_audit_now e) q (sd_main (mg_db x)) with
      | (Ok _, d') => (Ok tt, Manager (mkSecurity d' (Some (row_of s))) s)
      | (Err err, _) => (Err err, x)
      end
    else (Err (Exn ValueError "AppendSystemAuditRequest validation failed"), x).
Proof.
  unfold persist. cbv zeta. destruct (append_request_valid _); [|done].
  unfold bind at 1. cbn [guard ret].
  unfold save_estop_state_with_audit, append_system_audit, atomically, bind, save_estop_state_unlocked, on_main. cbn [sd_main].
  destruct (append_system_audit_unlocked _ _ _ _ _ _ _) as [[ev|err] d']; [done|]. by destruct x.
Qed.

(** *** Checking *)

Lemma check_None s tool :
  check s tool = None ↔ kill_all s = false ∧ (network_kill s = false ∨ tool ∉ NETWORK_TOOL_NAMES) ∧ tool ∉ frozen_tools s.
Proof.
  unfold check, engaged. destruct (kill_all s); cbn [orb negb]; [split; [done|by intros [? _]]|].
  destruct (network_kill s) eqn:En; cbn [orb negb andb].
  - unfold member. case_bool_decide as H1; [split; [done|intros (_ & [?|?] & _); done]|].
    case_bool_decide as H2; split; try done; [by intros (_ & _ & ?)|auto].
  - case_bool_decide as H1; cbn [negb].
    + split; [intros _|done]. split; [done|]. rewrite H1. split; [by left|set_solver].
    + case_bool_decide as H2; split; try done; [by intros (_ & _ & ?)|auto].
Qed.
Lemma rejects_spec s tool :
  rejects s tool = true ↔
  kill_all s = true ∨ (network_kill s = true ∧ tool ∈ NETWORK_TOOL_NAMES) ∨ tool ∈ frozen_tools s.
Proof.
  pose proof (check_None s tool) as H. unfold rejects. destruct (check s tool); cbn.
  - split; [intros _|done]. destruct (kill_all s); [by left|right].
    destruct (decide (tool ∈ frozen_tools s)) as [?|Hf]; [by right|left].
    destruct (network_kill s), (decide (tool ∈ NETWORK_TOOL_NAMES)); try done; exfalso; naive_solver.
  - split; [done|]. destruct (proj1 H eq_refl) as (-> & Hn & Hf). intros [?|[[E ?]|?]]; try done.
    rewrite E in Hn. by destruct Hn.
Qed.

Lemma audit_keys e s action ctx : NoDup (aq_metadata (audit_request e s action ctx)).*1.
Proof. cbn. apply (bool_decide_eq_true_1 _). vm_compute. reflexivity. Qed.

(** *** Audited changes *)

(** C32. The state never changes without its audit event. An engage or resume call that
    returns has set the cache to the state it asked for, replaced the stored row by that
    state and appended exactly one event for it to the audit log, whose hash chain still
    verifies; a call that raises has changed neither the cache, nor the row, nor the log,
    and raises only when the caller's context does not make a valid audit request or the
    event's hash is already in the log. *)
Theorem estop_change_audited c x es :
  let e := call_env c in
  let s := target c (mg_state x) in
  let q := audit_request e s (call_action c) (call_context c) in
  audit_inv float_of lax_int parse_datetime (sd_main (mg_db x)) es →
  representable (ee_audit_now e) = true → parse_datetime (isoformat (ee_audit_now e)) = Some (utc_at (ee_audit_now e)) →
  (∀ r, r ∈ audit_log (sd_main (mg_db x)) → au_id r ≠ ee_audit_id e) →
  let '(out, x') := exec_call c x in
  match out with
  | Err _ => x' = x ∧
      (append_request_valid q = false ∨
       ∃ mj h, canonical_sha256 (row_hash_payload (new_row (ee_audit_id e) (ee_audit_now e) q mj es h)) = Ok h ∧
               h ∈ au_event_hash <$> audit_log (sd_main (mg_db x)))
  | Ok s' => s' = s ∧ mg_state x' = s ∧ sd_estop (mg_db x') = Some (row_of s) ∧
      ∃ mj h, audit_log (sd_main (mg_db x')) =
                audit_log (sd_main (mg_db x)) ++ [new_row (ee_audit_id e) (ee_audit_now e) q mj es h] ∧
              audit_inv float_of lax_int parse_datetime (sd_main (mg_db x'))
                (es ++ [new_event (ee_audit_id e) (ee_audit_now e) q es h])
  end.
Proof.
  intros e s q Hi Hr Hp Hf. rewrite exec_call_eq. unfold bind. rewrite persist_eq. cbv zeta. fold e s q.
  destruct (append_request_valid q) eqn:Hq; [|auto].
  destruct (append_eq float_of lax_int parse_datetime _ _ (ee_audit_id e) (ee_audit_now e) q Hi Hq
    (audit_keys _ _ _ _) Hr Hp Hf) as (mj & h & _ & Hh & Happ).
  case_bool_decide as Hin.
  - rewrite Happ. cbn. split; [done|]. right. by exists mj, h.
  - destruct Happ as (d' & -> & Hlog & Hinv). cbn. do 3 (split; [done|]). by exists mj, h.
Qed.

(** *** Restarts *)

Definition plain_names (s : EstopState) : Prop := ∀ t, t ∈ frozen_tools s → is_ascii t = true.
(** The names a call freezes. *)
Definition call_plain (c : estop_call) : bool :=
  match c with Engage _ _ _ freeze _ _ => forallb is_ascii freeze | Resume _ _ _ _ _ _ => true end.

Lemma target_plain c s : call_plain c = true → plain_names s → plain_names (target c s).
Proof.
  intros Hc Hs t. destruct c as [e k n freeze r ctx|e k n unfreeze [] ctx]; cbn.
  - rewrite elem_of_union, elem_of_list_to_set. intros [?|Hin]; [by apply Hs|]. cbn in Hc.
    apply forallb_Forall in Hc. rewrite Forall_forall in Hc. by apply Hc.
  - set_solver.
  - intros Ht. apply Hs. set_solver.
Qed.
Lemma plain_elements s : plain_names s → forallb is_ascii (base.elements (frozen_tools s)) = true.
Proof. intros H. apply forallb_Forall, Forall_forall. intros t Ht. apply H. by apply elem_of_elements. Qed.

Lemma exec_call_cases c x :
  (∃ err, exec_call c x = (Err err, x)) ∨
  ∃ d', exec_call c x = (Ok (target c (mg_state x)), Manager (mkSecurity d' (Some (row_of (target c (mg_state x)))))
                                                   (target c (mg_state x))).
Proof.
  rewrite exec_call_eq. unfold bind. rewrite persist_eq. cbv zeta.
  destruct (append_request_valid _); [|left; by eexists].
  destruct (append_system_audit _ _ _ _ _ _ _) as [[ev|err] d']; [right|left]; by eexists.
Qed.

(** C33. A process sees what the one before it left. Whatever engage and resume calls a
    process made since it read its state from the row, and whichever of them raised, a
    process that starts then reads the very state the first one was checking tool calls
    against, and so refuses the same tools (names are plain ASCII, as every tool's is). *)
Theorem estop_survives_restart cs x :
  restart float_of (mg_db x) = Some x → plain_names (mg_state x) → forallb call_plain cs = true →
  let x' := foldl (λ y c, (exec_call c y).2) x cs in
  restart float_of (mg_db x') = Some x'.
Proof.
  revert x. induction cs as [|c cs IH]; intros x Hx Hp Hc; [done|]. cbn [forallb foldl] in *. bools.
  destruct (exec_call_cases c x) as [[err ->]|[d' ->]]; cbn [snd]; [by apply IH|].
  apply IH; [|by apply target_plain|done]. unfold restart. cbn [mg_db sd_estop].
  by rewrite load_row_of by (by apply plain_elements, target_plain).
Qed.

(** A row that cannot be read stops everything. *)
Lemma unreadable_row_stops row :
  match row with
  | Err _ => True
  | Ok None => False
  | Ok (Some r) => er_frozen_tools_json r ≠ "" ∧
      match loads float_of (er_frozen_tools_json r) with Some v => frozenset_of v = None | None => True end
  end → ∃ s, load_row float_of row = Some s ∧ ∀ tool, rejects s tool = true.
Proof.
  intros H. exists fail_closed. split; [|done]. unfold load_row. destruct row as [[r|]|e]; [|done|done].
  destruct H as [Hne H]. rewrite bool_decide_eq_false_2 by done. destruct (loads _ _); [|done]. by rewrite H.
Qed.

(** *** What a call changes *)

(** Engaging only tightens and resuming only relaxes. After an engage call that does not
    pass False for a switch, every tool refused before is refused, kill_all refuses every
    tool, network_kill every network tool, and the named tools are refused. After a resume
    call no tool is refused that was not refused before; all_clear lets every tool through,
    and otherwise the switches that were not released and the tools that were not unfrozen
    keep refusing. *)
Theorem estop_calls_monotone c x s x' :
  exec_call c x = (Ok s, x') →
  match c with
  | Engage _ kill network freeze _ _ =>
      kill ≠ Some false → network ≠ Some false →
      (∀ tool, rejects (mg_state x) tool = true → rejects s tool = true) ∧
      (kill = Some true → ∀ tool, rejects s tool = true) ∧
      (network = Some true → ∀ tool, tool ∈ NETWORK_TOOL_NAMES → rejects s tool = true) ∧
      (∀ tool, tool ∈ freeze → rejects s tool = true)
  | Resume _ kill network unfreeze all_clear _ =>
      (∀ tool, rejects s tool = true → rejects (mg_state x) tool = true) ∧
      (all_clear = true → ∀ tool, rejects s tool = false) ∧
      (all_clear = false →
         (kill = false → kill_all s = kill_all (mg_state x)) ∧
         (network = false → network_kill s = network_kill (mg_state x)) ∧
         (∀ tool, tool ∈ frozen_tools (mg_state x) → tool ∉ unfreeze → rejects s tool = true))
  end.
Proof.
  intros H. destruct (exec_call_cases c x) as [[err Herr]|[d' Hok]]; [rewrite Herr in H; discriminate|].
  rewrite Hok in H. injection H as <- <-. destruct c as [e kill network freeze reason ctx|e kill network unfreeze all_clear ctx].
  - intros Hk Hn. repeat split; intros; rewrite ?rejects_spec in *; cbn.
    + destruct kill as [[]|]; [by left|done|]. cbn in *. destruct network as [[]|]; cbn in *; [|done|]; set_solver.
    + subst kill. by left.
    + subst network. right. by left.
    + right. right. set_solver.
  - cbn [target]. destruct all_clear; cbn [resumed_state].
    + split; [intros tool; rewrite rejects_spec; cbn; set_solver|]. split; [|done]. intros _ tool.
      by rewrite <-not_true_iff_false, rejects_spec; cbn; set_solver.
    + split; [|split; [done|]].
      * intros tool. rewrite !rejects_spec. cbn. destruct kill, network; set_solver.
      * intros _. split; [by intros ->|]. split; [by intros ->|]. intros tool Hin Hno.
        rewrite rejects_spec. cbn. right. right. set_solver.
Qed.
End theorems.

(** ** Examples and witnesses *)

Module EstopSample.
Definition float_of (s : string) : pyfloat := PyFloat None s.
Definition lax_int (_ : pyfloat) : option Z := None.
Definition parse_datetime (s : string) : option datetime :=
  if bool_decide (s = isoformat 1000000) then Some (utc_at 1000000)
  else if bool_decide (s = isoformat 2000000) then Some (utc_at 2000000) else None.
Definition start : manager := Manager (mkSecurity empty_db None) clear_state.
Definition env (n : Z) (id : string) : estop_env := mkEstopEnv n id n id.
Definition admin : SecurityAuditContext := mkAuditContext "req-1" None.
Definition freeze : estop_call := Engage (env 1000000 "ev-1") None (Some true) ["python"; "bash"] (Some "incident") (Some admin).
Definition release : estop_call := Resume (env 2000000 "ev-2") false true ["bash"] false (Some admin).
Definition exec (c : estop_call) (x : manager) := exec_call float_of lax_int parse_datetime c x.
Definition frozen : manager := (exec freeze start).2.

Example sample_estop :
  check (mg_state start) "bash" = None ∧
  check (mg_state frozen) "web_fetch" =
    Some "emergency stop engaged (network_kill): tool 'web_fetch' is network-capable" ∧
  check (mg_state frozen) "python" = Some "emergency stop engaged (tool_freeze): tool 'python' is frozen" ∧
  check (mg_state frozen) "read_file" = None ∧
  (let x := (exec release frozen).2 in
   check (mg_state x) "bash" = None ∧ rejects (mg_state x) "python" = true ∧
   mg_state <$> restart float_of (mg_db x) = Some (mg_state x) ∧ length (audit_log (sd_main (mg_db x))) = 2%nat).
Proof. vm_compute. repeat split. Qed.

(** The docstring of [engage] says it only tightens; passing False releases. *)
Example engage_false_releases :
  let stop := (exec (Engage (env 1000000 "ev-1") (Some true) None [] None (Some admin)) start).2 in
  let again := (exec (Engage (env 2000000 "ev-2") (Some false) None [] None (Some admin)) stop).2 in
  rejects (mg_state stop) "read_file" = true ∧ rejects (mg_state again) "read_file" = false.
Proof. vm_compute. split; reflexivity. Qed.

Lemma audit_start : audit_inv float_of lax_int parse_datetime (sd_main (mg_db start)) [].
Proof. split; [intros k r H; cbn in H; by rewrite lookup_empty in H|done]. Qed.
Lemma log_start r : r ∈ audit_log (sd_main (mg_db start)) → au_id r ≠ "ev-1".
Proof. intros [k Hk]%elem_of_audit_log. cbn in Hk. by rewrite lookup_empty in Hk. Qed.
Definition frozen_state : EstopState := target freeze clear_state.
Lemma froze : (exec freeze start).1 = Ok frozen_state.
Proof. vm_compute. reflexivity. Qed.
Lemma froze_eq : exec freeze start = (Ok frozen_state, frozen).
Proof. pose proof froze as H. unfold frozen. destruct (exec freeze start) as [out x]. cbn in *. by subst. Qed.
End EstopSample.
#[local] Opaque EstopSample.frozen append_system_audit_unlocked.

Lemma estop_change_audited_witness :
  mg_state EstopSample.frozen = EstopSample.frozen_state ∧
  sd_estop (mg_db EstopSample.frozen) = Some (row_of EstopSample.frozen_state).
Proof.
  pose proof (estop_change_audited EstopSample.float_of EstopSample.lax_int EstopSample.parse_datetime EstopSample.freeze
    EstopSample.start [] EstopSample.audit_start eq_refl eq_refl EstopSample.log_start) as H.
  change (exec_call _ _ _ EstopSample.freeze EstopSample.start) with (EstopSample.exec EstopSample.freeze EstopSample.start) in H.
  rewrite EstopSample.froze_eq in H. destruct H as (_ & H1 & H2 & _). split; [exact H1|exact H2].
Defined.

Lemma estop_survives_restart_witness :
  restart EstopSample.float_of (mg_db EstopSample.frozen) = Some EstopSample.frozen.
Proof.
  assert (Hp : plain_names (mg_state EstopSample.start)) by (intros t Ht; cbn in Ht; set_solver).
  exact (estop_survives_restart EstopSample.float_of EstopSample.lax_int EstopSample.parse_datetime [EstopSample.freeze]
    EstopSample.start eq_refl Hp eq_refl).
Defined.

Lemma estop_calls_monotone_witness :
  rejects EstopSample.frozen_state "bash" = true.
Proof.
  assert (Hk : None ≠ Some false) by discriminate. assert (Hn : Some true ≠ Some false) by discriminate.
  refine (proj2 (proj2 (proj2 (estop_calls_monotone EstopSample.float_of EstopSample.lax_int EstopSample.parse_datetime
    EstopSample.freeze EstopSample.start EstopSample.frozen_state EstopSample.frozen EstopSample.froze_eq Hk Hn))) "bash" _).
  set_solver.
Defined.
